(* ===== verification/_CoqProject ===== *)
-Q . S2P
Prelude.v
Arc.v
Timestamp.v
Id.v
Combine.v
ArcSet.v
OpStore.v
MemOpStore.v
TimePartition.v
TimeCoherence.v
TimeProperties.v
HashPartition.v
HashQueries.v
Snapshot.v
Dht.v
DhtSync.v
DhtExchange.v
DhtWitness.v
Blocks.v
Agent.v
StorageArc.v
RoundLocks.v
GossipProtocol.v
Coverage.v
Intents.v
Recheck.v
ShrinkSafety.v
Controller.v
ControllerStep.v
ControllerTick.v
ControllerCheck.v
PeerMeta.v
GossipWire.v
GossipNode.v
GossipRespond.v
GossipRounds.v
GossipSafety.v
PeerStore.v
Access.v
GossipTarget.v
GossipDemo.v
CoreFetch.v
FetchRun.v
FetchDeliver.v
CorePublish.v
FetchDemo.v
Space.v
SpaceProps.v
SpaceDemo.v
SrvStore.v
SrvSpace.v
SrvServer.v
SrvRun.v
SrvHttp.v
SrvAccess.v
SrvDemo.v
BootClient.v
CoreBootstrap.v
Discovery.v
IrohFrame.v
IrohUrl.v
ConnContext.v
IrohTransport.v
SimOpen.v
SimOpenSteps.v
SimOpenSystem.v
IrohSend.v
Transport.v
IrohSpaces.v
IrohDemo.v
Config.v
CoreKitsune.v
RelayServer.v
SrvThreads.v
GossipLoop.v
MemBootstrap.v
Builder.v
Summary.v
LocalAgent.v
MemTransport.v
