(* ===== verification/Prelude.v ===== *)
(** * Kitsune2 in Rocq

    A verification development of Kitsune2, the peer-to-peer DHT network of the
    Rust workspace under src/crates: the data model of the DHT, gossip, the
    sharding of the location space, the modules of a space, the transports, and
    the bootstrap server.  Paths below are relative to src/crates.

    ** The program

    A node runs a Kitsune instance [core/src/factories/core_kitsune.rs].  It has
    one transport, which delivers messages between the URLs of peers, and a
    space [core_space.rs] for each network it is part of.  Local agents join a
    space; an agent is responsible for the ops whose location is in its storage
    arc, an arc of the ring of 2^32 locations.  The modules of a space share
    stores of ops, of agent infos and of notes about peers: gossip compares what
    two peers hold and has the difference fetched; publish announces new ops and
    infos; fetch requests and delivers ops; bootstrap puts infos to a server and
    reads those of others; access decides whose messages pass; the sharding
    controller grows and shrinks the arcs.  Modules call each other through
    traits, here classes or records of operations over a host state, with a class
    of laws where a client relies on more than the type.

    ** Files

    _Foundations._
    - [Prelude]: results, the state and error monad, machine integers, and the
      lemmas and tactics shared by all.
    - [Arc] api/src/arc.rs; [Timestamp] api/src/timestamp.rs and
      dht/src/constant.rs; [Id] api/src/id.rs with the callbacks a process sets
      once; [Agent] api/src/agent.rs: infos, their signing and decoding.
    - [LocalAgent] core/src/lib.rs: ed25519 agents and their verifier, the store of
      local agents [core_local_agent_store.rs], timestamps as strings.

    _The DHT model_ (dht/src).  Time is cut into full slices, whose combined
    hashes the op store keeps, and partial slices, whose hashes are in memory;
    locations are cut into 512 sectors.
    - [Combine] combine.rs; [ArcSet] arc_set.rs.
    - [OpStore]: the trait [OpStore] as a class and what the model relies on as
      [OpStoreSpec]; [MemOpStore]: the in-memory store of core, an instance of
      both.
    - [TimePartition], [TimeCoherence], [TimeProperties] time.rs;
      [HashPartition], [HashQueries] hash.rs; [Snapshot] dht/snapshot.rs;
      [Dht], [DhtSync], [DhtExchange], [DhtWitness] dht.rs.

    _Gossip_ (gossip/src).
    - [GossipProtocol], [GossipWire] protocol.rs; [PeerMeta] peer_meta_store.rs.
    - [GossipNode] config.rs, state.rs, burst.rs; [GossipRespond] respond/*.rs
      and gossip.rs, a definition for each handler; [GossipRounds] what handlers
      leave alone; [GossipSafety] the theorems on rounds; [GossipTarget]
      initiate.rs, the choice of a peer; [GossipLoop] the background tasks of
      initiate.rs and timeout.rs; [Summary] summary.rs; [StorageArc]
      storage_arc.rs; [RoundLocks] the locks of the handlers; [GossipDemo] a host
      of in-memory stores.

    _Sharding_ (gossip/src/sharding).
    - [Blocks] blocks.rs; [Coverage] coverage.rs; [Intents] intents.rs;
      [Recheck], [ShrinkSafety] the re-checks of controller.rs; [Controller],
      [ControllerStep], [ControllerTick], [ControllerCheck] the controller.

    _The modules of a space_ (core/src/factories).
    - [CoreFetch], [FetchRun], [FetchDeliver] core_fetch.rs; [CorePublish]
      core_publish.rs; [FetchDemo].
    - [Space], [SpaceProps], [SpaceDemo] core_space.rs; [PeerStore]
      mem_peer_store.rs, mem_blocks.rs and core_known_peers.rs; [Access]
      core_access.rs with the checks of api/src/transport.rs.
    - [CoreBootstrap] core_bootstrap.rs; [MemBootstrap] mem_bootstrap.rs.
    - [Config] api/src/config.rs; [Builder] api/src/builder.rs and the creation
      of a space; [CoreKitsune] core_kitsune.rs.

    _Transports._
    - [Transport] api/src/transport.rs and protocol.rs: dispatch and the wrapper.
    - [IrohFrame], [IrohUrl], [ConnContext], [IrohTransport], [IrohSend],
      [IrohSpaces], [IrohDemo] transport_iroh/src; [SimOpen], [SimOpenSteps],
      [SimOpenSystem] two peers that dial each other.
    - [MemTransport] core/src/factories/mem_transport.rs.

    _The bootstrap server_ (bootstrap_srv/src) and its client.
    - [SrvStore] store.rs; [SrvSpace] parse.rs and space.rs; [SrvServer],
      [SrvRun] server.rs; [SrvThreads] its threads and shutdown; [SrvHttp],
      [SrvAccess] http.rs, auth.rs, relay_allowlist.rs, relay_access.rs;
      [RelayServer] iroh_relay_axum.rs and config.rs; [SrvDemo].
    - [BootClient] bootstrap_client/src/lib.rs; [Discovery] two nodes and the
      server together.

    A record has the fields of its struct, an inductive type the variants of its
    enum, and an operation the name of its function where that is free; else the
    name is prefixed by its component, as in [dht_update] and [tp_update].

    ** What is proved

    _Sharding._  Agents that shrink on views as old as their wait never take a
    sector below the target ([ShrinkSafety.patient_shrinks_safe]); one check of
    the controller cannot fail when the peer store answers and moves each level
    by one at most ([ControllerCheck.check_safe]); a peer that has just gone
    stops all shrinks ([storm_brake_holds]); grows and shrinks start only for the
    stated reasons ([ControllerTick.decisions_justified]).

    _DHT._  In every reachable state the hashes are those of the ops held
    ([Dht.dht_always_coherent]), so that equal contents compare as equal
    ([converged_identical]); two models that differ name, after the messages of
    the protocol, ops of the slices that differ, within the byte budget
    ([DhtExchange.disc_exchange], [ring_exchange]); the slices cover time without
    gaps ([TimeProperties.update_layout]).

    _Gossip._  Rounds keep their types and limits, peers cannot touch each other's
    rounds, what was not asked for is refused, exchanges end
    ([GossipSafety.rounds_always_ok], [peers_isolated], [unsolicited_refused],
    [exchange_bounded]); infos are stored only with a verified signature
    ([received_infos_authentic]); rounds start no faster than configured and
    expire ([GossipLoop.initiations_paced], [initiated_round_expires]).  Two orders
    of locking in the handlers are told apart: one that always finishes, and one
    that can block for ever ([RoundLocks]).

    _Modules._  What is requested of a peer that holds it arrives
    ([FetchDeliver.fetch_delivers]) and what is published too
    ([CorePublish.publish_delivers]); queues drain ([FetchRun.outgoing_drains]);
    an agent that left stays left unless an update is on its way
    ([SpaceProps.left_stays_left], and [late_update_undoes_leave] for the
    exception); blocked peers are shut out ([Access.blocked_peer_shut_out]);
    outages of the server are survived ([CoreBootstrap.outage_survived]); an info
    put by one node is found by another ([Discovery.put_is_discovered]);
    configuration updates reach their callbacks ([Config]); spaces are created
    and removed as told ([CoreKitsune], [Builder]).

    _Transports._  Two peers that dial each other end with one connection,
    whatever the order of their tasks ([SimOpenSystem]); data goes over the
    connection that holds the slot of the peer ([IrohSend.data_on_slot_holder]);
    frames are read as they were written ([IrohFrame.frames_roundtrip]); relays
    of spaces are accounted for ([IrohSpaces]); messages reach the handlers they
    are for ([Transport.message_arrives]); in the in-memory transport a message
    comes from the node its URL names ([MemTransport]).

    _Server._  The server holds for each space what its specification, a stack of
    entries, says, with threads that interleave ([SrvRun.put_refines_spec],
    [served_always_ok]); only fresh tokens pass ([SrvAccess]); relay frames are
    paced ([RelayServer]); the shutdown ends and requests are answered at most
    once ([SrvThreads]).

    Some theorems state what the code does against its intent: an error in the
    order of locks, an address lost between two locks, a peer URL taken on trust,
    a put lost to the prune thread, and others.

    ** Conventions

    - Integers of width w are [Z]; arithmetic that may wrap in the release profile
      is written with [wrap_u32] and the like, saturating and checked operations as
      such.  Bytes are lists of [Z], text is [string].
    - A call returns [Ok], [Err] or [Panic].  The workspace aborts on a panic: no
      later step sees the state of a panic.  An error keeps the changes made
      before it.  Error texts are kept without formatted values.
    - The order of a [HashMap] or [HashSet] is that of the model's map or an
      argument; no theorem on the program depends on a particular one unless it
      says so.
    - A step reads each clock once.  A handler, a turn of a task, a call under one
      lock is one step, and steps interleave.  Finer steps are modelled where
      the code's waits matter: the locks of gossip ([RoundLocks]), the tasks of
      fetch ([FetchRun]), the halves of an update of a server space ([SrvRun]) and
      its file writes ([SrvStore]), registration against new addresses
      ([Transport], [Builder]), futures of spaces ([CoreKitsune]), the tasks of
      two endpoints ([SimOpen]), of gossip ([GossipLoop]), of the server
      ([SrvThreads]) and of the in-memory transport ([MemTransport]).
    - Durations are whole microseconds; where nanoseconds and floats decide,
      [Recheck] has them.
    - Crates outside the workspace (prost, serde_json, ed25519, url, iroh, ureq,
      axum) are arguments or classes.  Laws they are held to are named classes,
      each with a concrete instance in the witnesses.

    Recursion is structural.  Two loops of the source have no structural measure
    and take fuel: the frames of a stream ([IrohFrame.read_data_frames]) get its
    length, as each frame read takes at least one byte; the trimming of the
    in-memory bootstrap store ([MemBootstrap.make_room]) gets the length of the
    store, as each turn removes an entry.

    ** Not modelled

    - Traits and documentation of the API without code of their own, re-exports,
      stubs and the report module: there is nothing to model.
    - The wrappers of iroh's connections, streams and endpoint, and TLS, QUIC and
      the binding of sockets in transport and server: each is one call of a
      library.  The same holds for the command line of the server, metrics and
      address discovery.
    - The routing table of the HTTP front and its limit on bodies, set up with
      axum.
    - The encodings of protobuf and JSON, which are generated code and libraries.
    - Tracing, everywhere.
    - Tests and their helpers, the showcase application, benchmarks and the tool
      that runs the protobuf compiler. *)

From Stdlib Require Export ZArith Lia String.
From stdpp Require Export base numbers list gmap fin_maps strings sorting.

#[global] Open Scope Z_scope.
#[global] Set Default Proof Using "Type".

(** ** Results of fallible code

    A call of the program either returns a value, returns an error (the
    [K2Error] of the API, kept as its message without the values formatted
    into it), or panics.  The workspace compiles with [panic = "abort"], so a
    panic ends the process and no handler observes it. *)

Inductive res (A : Type) : Type :=
  | Ok (a : A)
  | Err (msg : string)
  | Panic (msg : string).
Arguments Ok {A} a.
Arguments Err {A} msg.
Arguments Panic {A} msg.

Definition is_ok {A} (r : res A) : bool :=
  match r with Ok _ => true | _ => false end.

#[global] Instance res_ret : MRet res := fun A a => Ok a.
#[global] Instance res_bind : MBind res := fun A B f r =>
  match r with Ok a => f a | Err e => Err e | Panic e => Panic e end.
#[global] Instance res_fmap : FMap res := fun A B f r =>
  match r with Ok a => Ok (f a) | Err e => Err e | Panic e => Panic e end.

(** ** Stateful, fallible code

    A computation over a state [S].  The state reached is returned with an
    error too: an early return with [?] keeps the mutations made so far. *)

Definition M (S A : Type) : Type := S -> res A * S.

Definition ret {S A} (a : A) : M S A := fun s => (Ok a, s).

Definition bind {S A B} (m : M S A) (k : A -> M S B) : M S B := fun s =>
  match m s with
  | (Ok a, s') => k a s'
  | (Err e, s') => (Err e, s')
  | (Panic e, s') => (Panic e, s')
  end.

Definition fail {S A} (e : string) : M S A := fun s => (Err e, s).
Definition get {S} : M S S := fun s => (Ok s, s).
Definition put {S} (s : S) : M S unit := fun _ => (Ok tt, s).
Definition modify {S} (f : S -> S) : M S unit := fun s => (Ok tt, f s).

(** A read of a part of the state, and a call whose error is only logged: a
    panic still ends the process. *)
Definition gets {S A} (f : S -> A) : M S A := fun s => (Ok (f s), s).

Definition or_log {S A} (d : A) (m : M S A) : M S A := fun s =>
  match m s with (Err _, s') => (Ok d, s') | r => r end.

Lemma bind_inv {S A B} (m : M S A) (k : A -> M S B) s b s' :
  bind m k s = (Ok b, s') -> exists a s1, m s = (Ok a, s1) /\ k a s1 = (Ok b, s').
Proof. unfold bind. destruct (m s) as [[a|e|e] s1]; [eauto|done|done]. Qed.

Lemma bind_after {S A B} (m : M S A) (k : A -> M S B) s a s' : m s = (Ok a, s') -> bind m k s = k a s'.
Proof. unfold bind. by intros ->. Qed.
Lemma bind_err {S A B} (m : M S A) (k : A -> M S B) s e s' : m s = (Err e, s') -> bind m k s = (Err e, s').
Proof. unfold bind. by intros ->. Qed.
Lemma bind_assoc {S A B C} (m : M S A) (f : A -> M S B) (g : B -> M S C) s :
  bind (bind m f) g s = bind m (fun a => bind (f a) g) s.
Proof. unfold bind. by destruct (m s) as [[] ?]. Qed.
Lemma bind_ext {S A B} (m : M S A) (f g : A -> M S B) s : (forall a s, f a s = g a s) -> bind m f s = bind m g s.
Proof. intros Hf. unfold bind. by destruct (m s) as [[] ?]. Qed.

(** A pure fallible call inside stateful code. *)
Definition lift_res {S A} (r : res A) : M S A := fun s => (r, s).

(** A computation over the left (right) part of a pair of states: a method
    that works on [self], or only on the shared store. *)
Definition on_fst {S T A} (m : M S A) : M (S * T) A := fun st =>
  let (r, s') := m st.1 in (r, (s', st.2)).
Definition on_snd {S T A} (m : M T A) : M (S * T) A := fun st =>
  let (r, t') := m st.2 in (r, (st.1, t')).

Declare Scope k2_scope.
Delimit Scope k2_scope with k2.
Notation "'let*' x := m 'in' k" := (bind m (fun x => k))
  (at level 10, x pattern, m at level 100, k at level 200) : k2_scope.
Notation "m ;;* k" := (bind m (fun _ => k))
  (at level 100, k at level 200, right associativity) : k2_scope.
Notation "'let?' x := r 'in' k" := (mbind (M := res) (fun x => k) r)
  (at level 10, x pattern, r at level 100, k at level 200) : k2_scope.
#[global] Open Scope k2_scope.

(** A [for] loop over a list, left to right, stopping at the first error. *)
Fixpoint for_each {S A} (l : list A) (f : A -> M S unit) : M S unit :=
  match l with
  | [] => ret tt
  | x :: l => f x ;;* for_each l f
  end.

(** A [for] loop whose body also updates local variables [acc]. *)
Fixpoint fold_m {S A B} (f : B -> A -> M S B) (acc : B) (l : list A) : M S B :=
  match l with
  | [] => ret acc
  | x :: l => let* acc := f acc x in fold_m f acc l
  end.

(** A method that works on one element of a vector, [v[i].f()], a panic when
    the index is out of range. *)
Definition at_index {S A} (i : nat) (f : M (A * S) unit) : M (list A * S) unit := fun st =>
  match st.1 !! i with
  | None => (Panic "index out of bounds", st)
  | Some x => let '(r, (x', s')) := f (x, st.2) in (r, (<[ i := x' ]> st.1, s'))
  end.

(** A [for] loop over a vector's elements by mutable reference, which stops at
    the first error and keeps what it changed. *)
Fixpoint for_each_mut {S A} (f : M (A * S) unit) (l : list A) (s : S)
  : res unit * (list A * S) :=
  match l with
  | [] => (Ok tt, ([], s))
  | x :: l =>
      match f (x, s) with
      | (Ok _, (x', s')) => let '(r, (l', s'')) := for_each_mut f l s' in (r, (x' :: l', s''))
      | (Err e, (x', s')) => (Err e, (x' :: l, s'))
      | (Panic e, (x', s')) => (Panic e, (x' :: l, s'))
      end
  end.

(** ** Machine integers

    A value of a Rust integer type is the [Z] it denotes; the operations of
    the release profile wrap, and are written out. *)

Definition U32_MAX : Z := 4294967295.
Definition wrap_u32 (x : Z) : Z := x mod 2 ^ 32.
Definition wrap_u64 (x : Z) : Z := x mod 2 ^ 64.
(** [x as i64], and the wrap-around of i64 arithmetic. *)
Definition wrap_i64 (x : Z) : Z := (x + 2 ^ 63) mod 2 ^ 64 - 2 ^ 63.
Definition wrap_i32 (x : Z) : Z := (x + 2 ^ 31) mod 2 ^ 32 - 2 ^ 31.
Definition saturating_mul_u32 (a b : Z) : Z := Z.min U32_MAX (a * b).
Definition saturating_sub (a b : Z) : Z := Z.max 0 (a - b).

Definition is_u32 (x : Z) : Prop := 0 <= x < 2 ^ 32.
Definition is_u64 (x : Z) : Prop := 0 <= x < 2 ^ 64.
Definition is_i64 (x : Z) : Prop := - 2 ^ 63 <= x < 2 ^ 63.

#[global] Instance is_u32_dec x : Decision (is_u32 x).
Proof. unfold is_u32. apply _. Defined.

Lemma wrap_u32_id x : is_u32 x -> wrap_u32 x = x.
Proof. unfold is_u32, wrap_u32. intros. by apply Z.mod_small. Qed.
Lemma wrap_u64_id x : is_u64 x -> wrap_u64 x = x.
Proof. unfold is_u64, wrap_u64. intros. by apply Z.mod_small. Qed.
Lemma wrap_i64_id x : is_i64 x -> wrap_i64 x = x.
Proof. unfold is_i64, wrap_i64. intros. rewrite Z.mod_small; lia. Qed.
Lemma wrap_i32_id x : - 2 ^ 31 <= x < 2 ^ 31 -> wrap_i32 x = x.
Proof. unfold wrap_i32. intros. rewrite Z.mod_small; lia. Qed.
Lemma wrap_u32_range x : is_u32 (wrap_u32 x).
Proof. unfold is_u32, wrap_u32. apply Z.mod_pos_bound. lia. Qed.

(** [lo, lo + 1, .., hi - 1] *)
Definition zrange (lo hi : Z) : list Z := seqZ lo (hi - lo).

(** [trim_end_matches('/')] on the characters of a string. *)
Fixpoint trim_end_slashes (s : string) : string :=
  match s with
  | EmptyString => EmptyString
  | String c s' =>
      match trim_end_slashes s' with
      | EmptyString => if bool_decide (c = Ascii.ascii_of_nat 47) then EmptyString else String c EmptyString
      | t => String c t
      end
  end.

Create HintDb k2.

(** ** Lists *)

Lemma list_filter_bool {A} (f : A -> bool) (P : A -> Prop) `{!forall x, Decision (P x)} l :
  (forall x, f x = true <-> P x) -> List.filter f l = filter P l.
Proof.
  intros HP. induction l as [|x l IH]; [done|]. simpl. rewrite filter_cons, IH.
  destruct (f x) eqn:E; destruct (decide (P x)) as [HPx|HPx]; try done; exfalso.
  - apply HPx. by apply HP.
  - apply HP in HPx. congruence.
Qed.
