(* ===== verification/Arc.v ===== *)
(** Storage arcs of the 32-bit location space (crates/api/src/arc.rs):
    distance, containment, overlap and span, against the set of locations an
    arc denotes. *)

From S2P Require Import Prelude.

Inductive DhtArc : Type :=
  | Empty
  | Arc (arc_start arc_end : Z).

#[global] Instance DhtArc_eq_dec : EqDecision DhtArc.
Proof. solve_decision. Defined.
#[global] Instance DhtArc_countable : Countable DhtArc.
Proof.
  refine (inj_countable'
    (fun a => match a with Empty => None | Arc s e => Some (s, e) end)
    (fun o => match o with None => Empty | Some (s, e) => Arc s e end) _).
  by intros [].
Defined.

Definition FULL : DhtArc := Arc 0 U32_MAX.

Definition dist (self : DhtArc) (loc : Z) : Z :=
  match self with
  | Empty => U32_MAX
  | Arc arc_start arc_end =>
      if arc_end <? arc_start then
        if (arc_start <=? loc) || (loc <=? arc_end) then 0
        else Z.min (wrap_u32 (arc_start - loc)) (wrap_u32 (loc - arc_end))
      else if (arc_start <=? loc) && (loc <=? arc_end) then 0
      else if loc <? arc_start then
        Z.min (wrap_u32 (arc_start - loc))
              (wrap_u32 (U32_MAX - arc_end + loc + 1))
      else Z.min (wrap_u32 (U32_MAX - loc + arc_start + 1))
                 (wrap_u32 (loc - arc_end))
  end.

Definition contains (self : DhtArc) (loc : Z) : bool := dist self loc =? 0.

Definition overlaps (self other : DhtArc) : bool :=
  match self, other with
  | Empty, _ => false
  | _, Empty => false
  | Arc a_beg a_end, Arc b_beg b_end =>
      (dist self b_beg =? 0) || (dist self b_end =? 0)
      || (dist other a_beg =? 0) || (dist other a_end =? 0)
  end.

Definition arc_span (self : DhtArc) : Z :=
  match self with
  | Empty => 0
  | Arc start end_ =>
      if end_ <? start then wrap_u32 (U32_MAX - start + end_ + 1)
      else wrap_u32 (end_ - start)
  end.

Definition is_empty (self : DhtArc) : bool :=
  match self with Empty => true | Arc _ _ => false end.

(** ** What an arc denotes *)

(** The bounds of an arc are u32 values. *)
Definition arc_wf (a : DhtArc) : Prop :=
  match a with Empty => True | Arc s e => is_u32 s /\ is_u32 e end.

#[global] Instance arc_wf_dec a : Decision (arc_wf a).
Proof. destruct a; simpl; apply _. Defined.

(** The location is reached by walking at most [arc_span] steps clockwise from
    the start of the arc. *)
Definition in_arc (a : DhtArc) (loc : Z) : Prop :=
  match a with
  | Empty => False
  | Arc s _ => exists k, 0 <= k <= arc_span a /\ loc = (s + k) mod 2 ^ 32
  end.

(** The number of steps between two locations, in the shorter direction. *)
Definition ring_dist (x y : Z) : Z :=
  Z.min ((x - y) mod 2 ^ 32) ((y - x) mod 2 ^ 32).

(** Decides goals about u32 values and their wrap-around. *)
Ltac solve_u32 :=
  unfold wrap_u32, U32_MAX, is_u32 in *;
  change (2 ^ 32) with 4294967296 in *;
  Z.to_euclidean_division_equations; lia.

Lemma in_arc_u32 a loc : in_arc a loc -> is_u32 loc.
Proof.
  destruct a; [done|]. intros (k & _ & ->). apply Z.mod_pos_bound. lia.
Qed.

Lemma in_arc_Arc s e loc : arc_wf (Arc s e) -> is_u32 loc ->
  in_arc (Arc s e) loc <->
  (if e <? s then s <= loc \/ loc <= e else s <= loc <= e).
Proof.
  intros [Hs He] Hl. split.
  - intros (k & Hk & Hloc). unfold arc_span in Hk. destruct Hs, He.
    destruct (Z.ltb_spec e s); solve_u32.
  - intros H. exists ((loc - s) mod 2 ^ 32). unfold arc_span.
    destruct (Z.ltb_spec e s); solve_u32.
Qed.

Lemma contains_in_arc a loc : arc_wf a -> is_u32 loc ->
  contains a loc = true <-> in_arc a loc.
Proof.
  intros Ha Hl. unfold contains. rewrite Z.eqb_eq. destruct a as [|s e].
  - simpl. unfold U32_MAX. lia.
  - rewrite in_arc_Arc by done. destruct Ha as [Hs He]. unfold dist.
    destruct (Z.ltb_spec e s).
    + destruct (Z.leb_spec s loc), (Z.leb_spec loc e); simpl; solve_u32.
    + destruct (Z.leb_spec s loc), (Z.leb_spec loc e), (Z.ltb_spec loc s);
        simpl; solve_u32.
Qed.

#[global] Instance in_arc_dec a loc : arc_wf a -> is_u32 loc -> Decision (in_arc a loc).
Proof.
  intros. destruct (contains a loc) eqn:E.
  - left. by apply contains_in_arc.
  - right. rewrite <- contains_in_arc by done. by rewrite E.
Defined.

Lemma arc_start_in s e : arc_wf (Arc s e) -> in_arc (Arc s e) s.
Proof.
  intros W. pose proof W as [Hs He]. rewrite in_arc_Arc by done.
  destruct (Z.ltb_spec e s); lia.
Qed.

Lemma arc_end_in s e : arc_wf (Arc s e) -> in_arc (Arc s e) e.
Proof.
  intros W. pose proof W as [Hs He]. rewrite in_arc_Arc by done.
  destruct (Z.ltb_spec e s); lia.
Qed.

Lemma dist_attained s e loc : arc_wf (Arc s e) -> is_u32 loc ->
  dist (Arc s e) loc = 0 /\ in_arc (Arc s e) loc \/
  ~ in_arc (Arc s e) loc /\
  dist (Arc s e) loc = Z.min (ring_dist loc s) (ring_dist loc e).
Proof.
  intros W Hl. rewrite in_arc_Arc by done. destruct W as [Hs He].
  unfold dist, ring_dist. destruct (Z.ltb_spec e s).
  - destruct (Z.leb_spec s loc), (Z.leb_spec loc e); simpl;
      try (left; lia); right; split; [lia|]; solve_u32.
  - destruct (Z.leb_spec s loc), (Z.leb_spec loc e), (Z.ltb_spec loc s);
      simpl; try (left; lia); right; (split; [lia|]); solve_u32.
Qed.

Lemma ring_dist_endpoint s e loc x : arc_wf (Arc s e) -> is_u32 loc ->
  ~ in_arc (Arc s e) loc -> in_arc (Arc s e) x ->
  Z.min (ring_dist loc s) (ring_dist loc e) <= ring_dist loc x.
Proof.
  intros W Hl Hn Hx. pose proof (in_arc_u32 _ _ Hx) as Hx32.
  rewrite in_arc_Arc in Hn by done. rewrite in_arc_Arc in Hx by done.
  destruct W as [Hs He]. unfold ring_dist. revert Hn Hx.
  destruct (Z.ltb_spec e s); solve_u32.
Qed.

Lemma ring_dist_refl x : ring_dist x x = 0.
Proof. unfold ring_dist. rewrite Z.sub_diag. done. Qed.

Lemma ring_dist_nonneg x y : 0 <= ring_dist x y.
Proof. unfold ring_dist. Z.to_euclidean_division_equations; lia. Qed.

(** The distance from a location to a non-empty arc is the smallest number
    of steps, in either direction of the wrapping u32 space, to a location of
    the arc; it is attained. *)
Theorem dist_spec s e loc : arc_wf (Arc s e) -> is_u32 loc ->
  (exists x, in_arc (Arc s e) x /\ dist (Arc s e) loc = ring_dist loc x) /\
  (forall x, in_arc (Arc s e) x -> dist (Arc s e) loc <= ring_dist loc x).
Proof.
  intros W Hl. destruct (dist_attained s e loc W Hl) as [[-> Hin]|[Hn ->]].
  - split; [exists loc; by rewrite ring_dist_refl|].
    intros x _. apply ring_dist_nonneg.
  - split; [|intros x Hx; by apply ring_dist_endpoint].
    destruct (Z.min_spec (ring_dist loc s) (ring_dist loc e)) as [[_ ->]|[_ ->]].
    + exists s. split; [by apply arc_start_in|done].
    + exists e. split; [by apply arc_end_in|done].
Qed.

Lemma dist_spec_witness :
  dist (Arc 4294967000 10) 20 = 10 /\
  (forall x, in_arc (Arc 4294967000 10) x -> 10 <= ring_dist 20 x).
Proof.
  split; [reflexivity|]. apply (dist_spec 4294967000 10 20).
  - vm_compute. repeat split; discriminate.
  - vm_compute. split; [discriminate|reflexivity].
Defined.

Lemma shared_location s e s' e' loc :
  arc_wf (Arc s e) -> arc_wf (Arc s' e') -> is_u32 loc ->
  in_arc (Arc s e) loc -> in_arc (Arc s' e') loc ->
  in_arc (Arc s e) s' \/ in_arc (Arc s' e') s.
Proof.
  intros W W' Hl H H'. pose proof W as [Hs He]. pose proof W' as [Hs' He'].
  rewrite in_arc_Arc in H by done. rewrite in_arc_Arc in H' by done.
  rewrite !in_arc_Arc by done. repeat case_match; lia.
Qed.

Lemma overlaps_shared a b : arc_wf a -> arc_wf b ->
  overlaps a b = true <->
  exists loc, is_u32 loc /\ contains a loc = true /\ contains b loc = true.
Proof.
  intros Wa Wb. destruct a as [|s e]; [split; [done|by intros (?&_&?&_)]|].
  destruct b as [|s' e']; [split; [done|by intros (?&_&_&?)]|].
  pose proof Wa as [Hs He]. pose proof Wb as [Hs' He'].
  unfold overlaps. fold (contains (Arc s e) s') (contains (Arc s e) e')
    (contains (Arc s' e') s) (contains (Arc s' e') e).
  rewrite !orb_true_iff, !contains_in_arc by done. split.
  - pose proof (arc_start_in s e Wa). pose proof (arc_end_in s e Wa).
    pose proof (arc_start_in s' e' Wb). pose proof (arc_end_in s' e' Wb).
    intros [[[H'|H']|H']|H'];
      [exists s'|exists e'|exists s|exists e]; rewrite !contains_in_arc; auto.
  - intros (loc & Hl & H & H'). rewrite contains_in_arc in H by done.
    rewrite contains_in_arc in H' by done.
    destruct (shared_location s e s' e' loc) as [?|?]; auto.
Qed.

(** Two arcs overlap exactly when some location is contained in both. *)
Theorem overlaps_spec a b : arc_wf a -> arc_wf b ->
  overlaps a b = true <->
  exists loc, is_u32 loc /\ contains a loc = true /\ contains b loc = true.
Proof. apply overlaps_shared. Qed.

Lemma overlaps_spec_witness :
  exists loc, is_u32 loc /\ contains (Arc 4294967000 10) loc = true
                /\ contains (Arc 5 100) loc = true.
Proof.
  apply (overlaps_spec (Arc 4294967000 10) (Arc 5 100)).
  - vm_compute. repeat split; discriminate.
  - vm_compute. repeat split; discriminate.
  - reflexivity.
Defined.

Lemma overlaps_sym a b : overlaps a b = overlaps b a.
Proof.
  destruct a, b; simpl; try done.
  by destruct (_ =? 0), (_ =? 0), (_ =? 0), (_ =? 0).
Qed.

Lemma contains_FULL loc : is_u32 loc -> contains FULL loc = true.
Proof.
  intros H. apply contains_in_arc; [|done|].
  - vm_compute. repeat split; discriminate.
  - apply in_arc_Arc; [|done|].
    + vm_compute. repeat split; discriminate.
    + simpl. unfold is_u32, U32_MAX in *. lia.
Qed.

#[export] Hint Resolve arc_start_in arc_end_in : k2.
