(* ===== verification/Timestamp.v ===== *)
(** Timestamps and durations (crates/api/src/timestamp.rs) and the constants
    of the DHT model (crates/dht/src/constant.rs).

    A timestamp is an i64 count of microseconds since the epoch, a duration a
    non-negative count of microseconds (every duration of the DHT model is a
    whole number of seconds or a difference of timestamps). *)

From S2P Require Import Prelude Arc.

Definition Timestamp : Type := Z.
Definition Duration : Type := Z.

Definition UNIX_TIMESTAMP : Timestamp := 0.

Definition from_micros (micros : Z) : Timestamp := micros.
Definition as_micros (t : Timestamp) : Z := t.

(** [Duration::from_secs], [Duration::as_secs] and [Duration::as_micros]. *)
Definition MICROS : Z := 1000000.
Definition from_secs (secs : Z) : Duration := secs * MICROS.
Definition as_secs (d : Duration) : Z := d / MICROS.

(** [Timestamp + Duration]: the duration is cast to i64, then added. *)
Definition ts_add (t : Timestamp) (d : Duration) : Timestamp :=
  wrap_i64 (t + wrap_i64 d).

(** [Timestamp - Duration], [Err(())] below the duration. *)
Definition ts_sub_dur (t : Timestamp) (d : Duration) : option Timestamp :=
  if t <? wrap_i64 d then None else Some (wrap_i64 (t - wrap_i64 d)).

(** [Timestamp - Timestamp], [Err(())] when the result would be negative. *)
Definition ts_sub (t t' : Timestamp) : option Duration :=
  if t <? t' then None else Some (wrap_u64 (wrap_i64 (t - t'))).

Definition UNIT_TIME : Duration := from_secs (15 * 60).
Definition SECTOR_SIZE : Z := Z.shiftl 1 23.

(** Clock readings the theorems consider: from the epoch on, for some 146,000
    years, so that adding a slice of that age cannot wrap. *)
Definition ts_ok (t : Timestamp) : Prop := 0 <= t < 2 ^ 62.

#[global] Instance ts_ok_dec t : Decision (ts_ok t).
Proof. unfold ts_ok. apply _. Defined.

Lemma ts_add_exact t d : 0 <= t -> 0 <= d -> t + d < 2 ^ 63 -> ts_add t d = t + d.
Proof.
  intros. unfold ts_add. rewrite (wrap_i64_id d) by (unfold is_i64; lia).
  apply wrap_i64_id. unfold is_i64. lia.
Qed.

Lemma ts_sub_exact t t' : 0 <= t' <= t -> t < 2 ^ 63 -> ts_sub t t' = Some (t - t').
Proof.
  intros. unfold ts_sub. destruct (Z.ltb_spec t t'); [lia|].
  rewrite wrap_i64_id by (unfold is_i64; lia).
  rewrite wrap_u64_id by (unfold is_u64; lia). done.
Qed.

Lemma ts_sub_None t t' : t < t' -> ts_sub t t' = None.
Proof. intros. unfold ts_sub. destruct (Z.ltb_spec t t'); [done|lia]. Qed.

(** Subtracting a duration undoes adding it, and the difference of the sum
    and the start is the duration, as long as the sum is an i64. *)
Theorem ts_add_sub t d : 0 <= t -> 0 <= d -> t + d < 2 ^ 63 ->
  ts_sub_dur (ts_add t d) d = Some t /\ ts_sub (ts_add t d) t = Some d.
Proof.
  intros Ht Hd Hs. rewrite ts_add_exact by lia. split.
  - unfold ts_sub_dur. rewrite (wrap_i64_id d) by (unfold is_i64; lia).
    destruct (Z.ltb_spec (t + d) d); [lia|].
    rewrite wrap_i64_id by (unfold is_i64; lia). f_equal. lia.
  - rewrite ts_sub_exact by lia. f_equal. lia.
Qed.

Lemma ts_add_sub_witness :
  ts_sub_dur (ts_add 1731690797907204 UNIT_TIME) UNIT_TIME = Some 1731690797907204
  /\ ts_sub (ts_add 1731690797907204 UNIT_TIME) 1731690797907204 = Some UNIT_TIME.
Proof. apply ts_add_sub; vm_compute; [discriminate|discriminate|reflexivity]. Defined.

Lemma as_secs_from_secs n : as_secs (from_secs n) = n.
Proof. unfold as_secs, from_secs, MICROS. by rewrite Z.div_mul. Qed.
