(* ===== verification/Id.v ===== *)
(** Identities (crates/api/src/id.rs): byte strings with a location in the
    32-bit space.  The location callback can be replaced for the process, so
    the development is parametric in it, through the class [Location]; the
    default callback is an instance given where a concrete one is needed.  The
    callbacks of the process themselves, which are set once, are the state of
    the module [Process]. *)

From S2P Require Import Prelude.

Abbreviation bytes := (list Z).

Definition bytes_wf (b : bytes) : Prop := Forall (fun x => 0 <= x < 256) b.

#[global] Instance bytes_wf_dec b : Decision (bytes_wf b).
Proof. unfold bytes_wf. apply _. Defined.

(** [u32::from_le_bytes] *)
Definition from_le_bytes (b : bytes) : Z :=
  foldr (fun x acc => x + 256 * acc) 0 b.

(** [out[i % 4] ^= b[i]] for every index, then read as a little-endian u32. *)
Definition default_loc (b : bytes) : Z :=
  from_le_bytes
    (foldl (fun out '(i, x) => alter (fun o => Z.lxor o x) (i `mod` 4)%nat out)
       [0; 0; 0; 0] (imap pair b)).

(** [ID_LOC]/[OP_ID_LOC]: the callback, whose result is a u32. *)
Class Location := {
  loc : bytes -> Z;
  loc_u32 b : bytes_wf b -> is_u32 (loc b);
}.

Lemma lxor_byte a b : 0 <= a < 256 -> 0 <= b < 256 -> 0 <= Z.lxor a b < 256.
Proof.
  intros Ha Hb. split; [apply Z.lxor_nonneg; lia|].
  destruct (decide (Z.lxor a b = 0)) as [->|Hn]; [lia|].
  assert (0 <= Z.lxor a b) by (apply Z.lxor_nonneg; lia).
  change 256 with (2 ^ 8). apply Z.log2_lt_pow2; [lia|].
  apply Z.le_lt_trans with (Z.max (Z.log2 a) (Z.log2 b)).
  - apply Z.log2_lxor; lia.
  - assert (forall x, 0 <= x < 256 -> Z.log2 x < 8) as Hlog.
    { intros x Hx. destruct (decide (x = 0)) as [->|]; [done|].
      apply Z.log2_lt_pow2; lia. }
    pose proof (Hlog a Ha). pose proof (Hlog b Hb). lia.
Qed.

Lemma from_le_bytes_range b : bytes_wf b ->
  0 <= from_le_bytes b < 256 ^ Z.of_nat (length b).
Proof.
  induction 1 as [|x b Hx Hb IH]; [simpl; lia|].
  cbn [length from_le_bytes foldr] in *. unfold from_le_bytes in IH.
  rewrite Nat2Z.inj_succ, Z.pow_succ_r by lia. lia.
Qed.

Lemma default_loc_fold l (out : bytes) :
  Forall (fun x => 0 <= x.2 < 256) l -> bytes_wf out ->
  let r := foldl (fun out '(i, x) => alter (fun o => Z.lxor o x) (i `mod` 4)%nat out)
    out l in
  bytes_wf r /\ length r = length out.
Proof.
  intros Hl. revert out. induction Hl as [|[i x] l Hx _ IH]; intros out Hout.
  - done.
  - cbn [foldl]. simpl in Hx. destruct (IH (alter (fun o => Z.lxor o x) (i `mod` 4)%nat out))
      as [Hw Hlen].
    + unfold bytes_wf in *. apply Forall_alter; [done|].
      intros y Hy H. by apply lxor_byte.
    + split; [done|]. by rewrite Hlen, length_alter.
Qed.

Lemma Forall_imap_pair b : bytes_wf b ->
  Forall (fun x : nat * Z => 0 <= x.2 < 256) (imap pair b).
Proof.
  intros Hb. apply Forall_lookup_2. intros i [j x] H.
  rewrite list_lookup_imap in H. destruct (b !! i) eqn:E; simplify_eq/=.
  by apply (Forall_lookup_1 _ _ _ _ Hb E).
Qed.

(** The default location of an identity is a u32 for every byte string. *)
Lemma default_loc_u32 b : bytes_wf b -> is_u32 (default_loc b).
Proof.
  intros Hb. unfold default_loc, is_u32.
  edestruct (default_loc_fold (imap pair b) [0; 0; 0; 0]) as [Hw Hlen].
  - by apply Forall_imap_pair.
  - by repeat constructor.
  - apply from_le_bytes_range in Hw. rewrite Hlen in Hw. exact Hw.
Qed.

#[export] Instance DefaultLocation : Location := {|
  loc := default_loc;
  loc_u32 := default_loc_u32;
|}.

(** ** The callbacks of the process

    Each is a cell that is written once: by a call that sets it, or with the
    default by the first call that needs it. *)
Module Process.

Definition LocCb : Type := bytes -> Z.
Definition DisplayCb : Type := bytes -> string.

(** [OnceLock::set], which says whether the cell was empty, and
    [OnceLock::get_or_init]. *)
Definition once_set {A} (a : A) (cell : option A) : bool * option A :=
  match cell with Some _ => (false, cell) | None => (true, Some a) end.
Definition once_get {A} (init : A) (cell : option A) : A := default init cell.

Record Globals : Type := MkGlobals {
  id_loc : option LocCb;
  op_id_loc : option LocCb;
  agent_disp : option DisplayCb;
  space_disp : option DisplayCb;
  op_disp : option DisplayCb;
}.

Definition unset : Globals := MkGlobals None None None None None.

(** [Id::loc] and [Id::set_global_loc_callback]. *)
Definition loc_of_id (b : bytes) (g : Globals) : Z * Globals :=
  let cb := once_get default_loc (id_loc g) in
  (cb b, MkGlobals (Some cb) (op_id_loc g) (agent_disp g) (space_disp g) (op_disp g)).
Definition set_global_loc_callback (cb : LocCb) (g : Globals) : bool * Globals :=
  let (set, cell) := once_set cb (id_loc g) in
  (set, MkGlobals cell (op_id_loc g) (agent_disp g) (space_disp g) (op_disp g)).

(** [OpId::loc]: the cell of ops is filled from that of ids, which is filled
    too, but only when the former is empty. *)
Definition loc_of_op (b : bytes) (g : Globals) : Z * Globals :=
  match op_id_loc g with
  | Some cb => (cb b, g)
  | None =>
      let cb := once_get default_loc (id_loc g) in
      (cb b, MkGlobals (Some cb) (Some cb) (agent_disp g) (space_disp g) (op_disp g))
  end.
Definition set_loc_callback (cb : LocCb) (g : Globals) : bool * Globals :=
  let (set, cell) := once_set cb (op_id_loc g) in
  (set, MkGlobals (id_loc g) cell (agent_disp g) (space_disp g) (op_disp g)).

(** Display of the three kinds of id; the default is base64. *)
Inductive IdKind : Type := KAgent | KSpace | KOp.

Section display.
Variable default_display : DisplayCb.

Definition disp_cell (k : IdKind) (g : Globals) : option DisplayCb :=
  match k with KAgent => agent_disp g | KSpace => space_disp g | KOp => op_disp g end.
Definition set_disp_cell (k : IdKind) (c : option DisplayCb) (g : Globals) : Globals :=
  match k with
  | KAgent => MkGlobals (id_loc g) (op_id_loc g) c (space_disp g) (op_disp g)
  | KSpace => MkGlobals (id_loc g) (op_id_loc g) (agent_disp g) c (op_disp g)
  | KOp => MkGlobals (id_loc g) (op_id_loc g) (agent_disp g) (space_disp g) c
  end.

Definition display (k : IdKind) (b : bytes) (g : Globals) : string * Globals :=
  let cb := once_get default_display (disp_cell k g) in
  (cb b, set_disp_cell k (Some cb) g).
Definition set_global_display_callback (k : IdKind) (cb : DisplayCb) (g : Globals) : bool * Globals :=
  let (set, cell) := once_set cb (disp_cell k g) in (set, set_disp_cell k cell g).

(** The calls a process makes, and what it shows of their results. *)
Inductive Call : Type :=
  | Loc (b : bytes)
  | OpLoc (b : bytes)
  | SetLoc (cb : LocCb)
  | SetOpLoc (cb : LocCb)
  | Display (k : IdKind) (b : bytes)
  | SetDisplay (k : IdKind) (cb : DisplayCb).

Definition call (c : Call) (g : Globals) : Globals :=
  match c with
  | Loc b => (loc_of_id b g).2
  | OpLoc b => (loc_of_op b g).2
  | SetLoc cb => (set_global_loc_callback cb g).2
  | SetOpLoc cb => (set_loc_callback cb g).2
  | Display k b => (display k b g).2
  | SetDisplay k cb => (set_global_display_callback k cb g).2
  end.

Definition calls (l : list Call) (g : Globals) : Globals := foldl (fun g c => call c g) g l.

(** No cell changes once it is filled. *)
Definition keeps (g g' : Globals) : Prop :=
  (forall cb, id_loc g = Some cb -> id_loc g' = Some cb) /\
  (forall cb, op_id_loc g = Some cb -> op_id_loc g' = Some cb) /\
  (forall k cb, disp_cell k g = Some cb -> disp_cell k g' = Some cb).

#[global] Instance keeps_preorder : PreOrder keeps.
Proof.
  split; [by intros g; split_and!|].
  intros g1 g2 g3 (A & B & C) (A' & B' & C'). split_and!; eauto.
Qed.

Lemma call_keeps c g : keeps g (call c g).
Proof.
  destruct g as [i o a s d], c as [b|b|cb|cb|k b|k cb]; unfold keeps; cbn.
  - split_and!; try done. by intros cb ->.
  - destruct o; cbn; [done|]. split_and!; try done. by intros cb ->.
  - destruct i; cbn; by split_and!.
  - destruct o; cbn; by split_and!.
  - destruct k; cbn; (split_and!; [done..|]; intros [] cb; cbn; try done; by intros ->).
  - destruct k; cbn; [destruct a|destruct s|destruct d]; cbn; (split_and!; [done..|]; by intros [] cb').
Qed.

Lemma calls_keep l g : keeps g (calls l g).
Proof.
  revert g. induction l as [|c l IH]; intros g; [done|]. cbn. etrans; [apply (call_keeps c)|apply IH].
Qed.

(** What the process has once read of an identity never changes: whatever
    is called between two readings, callbacks set included, both show the same
    location, and so for the locations of ops and for what is displayed. *)
Theorem identity_read_stable g l b k :
  (loc_of_id b (calls l (loc_of_id b g).2)).1 = (loc_of_id b g).1 /\
  (loc_of_op b (calls l (loc_of_op b g).2)).1 = (loc_of_op b g).1 /\
  (display k b (calls l (display k b g).2)).1 = (display k b g).1.
Proof.
  split_and!.
  - destruct (calls_keep l (loc_of_id b g).2) as (Hk & _ & _). unfold loc_of_id at 1.
    by rewrite (Hk _ eq_refl).
  - destruct (calls_keep l (loc_of_op b g).2) as (_ & Hk & _). unfold loc_of_op at 1 3.
    destruct (op_id_loc g) as [cb|] eqn:E.
    + unfold loc_of_op in *. rewrite E in *. by rewrite (Hk cb E).
    + unfold loc_of_op in *. rewrite E in *. cbn in *. by rewrite (Hk _ eq_refl).
  - destruct (calls_keep l (display k b g).2) as (_ & _ & Hk). unfold display at 1.
    assert (disp_cell k (display k b g).2 = Some (once_get default_display (disp_cell k g))) as E by by destruct k.
    by rewrite (Hk _ _ E).
Qed.

(** Whether a call reads or sets the cell of ops. *)
Definition decides_op (c : Call) : bool := match c with OpLoc _ | SetOpLoc _ => true | _ => false end.

Lemma undecided_op l g : op_id_loc g = None -> forallb (fun c => negb (decides_op c)) l = true ->
  op_id_loc (calls l g) = None.
Proof.
  revert g. induction l as [|c l IH]; intros g Hg; [done|]. cbn. intros [Hc Hl]%andb_prop. apply IH; [|done].
  destruct g as [i o a s d], c as [b|b|cb|cb|k b|k cb]; cbn in *; try done.
  - by destruct i.
  - by destruct k.
  - by destruct k; cbn; [destruct a|destruct s|destruct d].
Qed.

(** The location of ops can be set until the first of them is read or set,
    whatever else the process did with ids; from then on the setting is
    refused.  Reading the location of one op also fixes that of all ids. *)
Theorem op_callback_set_once l cb b :
  (forallb (fun c => negb (decides_op c)) l = true ->
     (set_loc_callback cb (calls l unset)).1 = true /\
     forall l', (loc_of_op b (calls l' (set_loc_callback cb (calls l unset)).2)).1 = cb b) /\
  (forall l', (set_loc_callback cb (calls l' (loc_of_op b (calls l unset)).2)).1 = false) /\
  (op_id_loc (calls l unset) = None ->
     forall l', (set_global_loc_callback cb (calls l' (loc_of_op b (calls l unset)).2)).1 = false).
Proof.
  split_and!.
  - intros Hl. pose proof (undecided_op l unset eq_refl Hl) as E.
    unfold set_loc_callback, once_set. rewrite E. split; [done|]. intros l'.
    destruct (calls_keep l' (MkGlobals (id_loc (calls l unset)) (Some cb) (agent_disp (calls l unset))
      (space_disp (calls l unset)) (op_disp (calls l unset)))) as (_ & Hk & _).
    unfold loc_of_op. cbn in *. by rewrite (Hk cb eq_refl).
  - intros l'. destruct (calls_keep l' (loc_of_op b (calls l unset)).2) as (_ & Hk & _).
    assert (exists cb', op_id_loc (loc_of_op b (calls l unset)).2 = Some cb') as [cb' E].
    { unfold loc_of_op. destruct (op_id_loc (calls l unset)) eqn:E; eauto. }
    unfold set_loc_callback, once_set. by rewrite (Hk _ E).
  - intros E l'. destruct (calls_keep l' (loc_of_op b (calls l unset)).2) as (Hk & _).
    unfold set_global_loc_callback, once_set. unfold loc_of_op in *. rewrite E in *. cbn in *. by rewrite (Hk _ eq_refl).
Qed.
End display.

Lemma op_callback_set_once_witness :
  (set_loc_callback (fun _ => 7) (calls (fun _ => "") [Loc [1]; SetLoc (fun _ => 1)] unset)).1 = true /\
  (loc_of_op [1] (calls (fun _ => "") [OpLoc [2]] (set_loc_callback (fun _ => 7)
    (calls (fun _ => "") [Loc [1]; SetLoc (fun _ => 1)] unset)).2)).1 = 7.
Proof.
  destruct (op_callback_set_once (fun _ => "") [Loc [1]; SetLoc (fun _ => 1)] (fun _ => 7) [1]) as (Hset & _).
  destruct (Hset eq_refl) as [H1 H2]. split; [exact H1|exact (H2 [OpLoc [2]])].
Defined.
End Process.
