(* ===== verification/Combine.v ===== *)
(** Combining op hashes (crates/dht/src/combine.rs): the code's two routines,
    and the commutative monoid they compute in when the hashes have one length,
    which is what makes the incremental update of a slice hash and its
    recomputation from the stored ops agree. *)

From S2P Require Import Prelude Id.

(** [combine_hashes]: the new contents of [into]. *)
Definition combine_hashes (into other : bytes) : res bytes :=
  if bool_decide (into = []) && negb (bool_decide (other = [])) then Ok other
  else if negb (length into =? length other)%nat then
    Panic "Refusing to combine hashes of different lengths"
  else Ok (zip_with Z.lxor into other).

Fixpoint combine_each (out : bytes) (hashes : list bytes) : res bytes :=
  match hashes with
  | [] => Ok out
  | hash :: hashes => let? out := combine_hashes out hash in combine_each out hashes
  end.

Definition combine_op_hashes (hashes : list bytes) : res bytes :=
  match hashes with
  | [] => Ok []
  | first :: _ => combine_each (replicate (length first) 0) hashes
  end.

(** ** The monoid of hashes: xor, with the empty hash as unit *)

Definition hxor (a b : bytes) : bytes :=
  match a, b with
  | [], _ => b
  | _, [] => a
  | _, _ => zip_with Z.lxor a b
  end.

Definition xor_all (l : list bytes) : bytes := foldr hxor [] l.

Definition hash_len (n : nat) (b : bytes) : Prop := length b = n.

Lemma zip_with_lxor_comm a b : zip_with Z.lxor a b = zip_with Z.lxor b a.
Proof.
  revert b. induction a as [|x a IH]; intros [|y b]; simpl; try done.
  by rewrite Z.lxor_comm, IH.
Qed.

Lemma zip_with_lxor_assoc a b c :
  zip_with Z.lxor a (zip_with Z.lxor b c) = zip_with Z.lxor (zip_with Z.lxor a b) c.
Proof.
  revert b c. induction a as [|x a IH]; intros [|y b] [|z c]; simpl; try done.
  by rewrite Z.lxor_assoc, IH.
Qed.

Lemma hxor_nil_l b : hxor [] b = b. Proof. done. Qed.
Lemma hxor_nil_r a : hxor a [] = a. Proof. by destruct a. Qed.

#[global] Instance hxor_comm : Comm (=) hxor.
Proof.
  intros [|x a] [|y b]; simpl; try done. by rewrite Z.lxor_comm, zip_with_lxor_comm.
Qed.

#[global] Instance hxor_assoc : Assoc (=) hxor.
Proof.
  intros [|x a] [|y b] [|z c]; simpl; try done.
  by rewrite Z.lxor_assoc, zip_with_lxor_assoc.
Qed.

Lemma xor_all_cons a l : xor_all (a :: l) = hxor a (xor_all l). Proof. done. Qed.

Lemma xor_all_app l k : xor_all (l ++ k) = hxor (xor_all l) (xor_all k).
Proof.
  induction l as [|a l IH]; simpl; [done|]. by rewrite IH, (assoc_L hxor).
Qed.

#[global] Instance xor_all_perm : Proper ((≡ₚ) ==> (=)) xor_all.
Proof.
  induction 1 as [|a l k _ IH|a b l|l k m _ IH1 _ IH2]; simpl.
  - done.
  - by rewrite IH.
  - rewrite !(assoc_L hxor). by rewrite (comm_L hxor a b).
  - by rewrite IH1, IH2.
Qed.

Lemma hxor_len n a b : hash_len n a -> hash_len n b -> hash_len n (hxor a b).
Proof.
  unfold hash_len. destruct a as [|x a], b as [|y b]; simpl; intros; try done.
  rewrite length_zip_with. lia.
Qed.

Lemma hxor_len_nil n a b : (a = [] \/ hash_len n a) -> (b = [] \/ hash_len n b) ->
  hxor a b = [] \/ hash_len n (hxor a b).
Proof.
  intros [->|Ha] [->|Hb]; rewrite ?hxor_nil_l, ?hxor_nil_r; auto.
  right. by apply hxor_len.
Qed.

Lemma xor_all_len n l : Forall (hash_len n) l -> xor_all l = [] \/ hash_len n (xor_all l).
Proof.
  induction 1; simpl; [by left|]. apply hxor_len_nil; auto.
Qed.

Lemma hxor_nonempty n a b : (0 < n)%nat -> hash_len n a ->
  (b = [] \/ hash_len n b) -> hxor a b <> [].
Proof.
  intros Hn Ha [->|Hb] H.
  - rewrite hxor_nil_r in H. subst. unfold hash_len in Ha. simpl in Ha. lia.
  - pose proof (hxor_len n a b Ha Hb) as Hl. rewrite H in Hl.
    unfold hash_len in Hl. simpl in Hl. lia.
Qed.

Lemma xor_all_nonempty n l : (0 < n)%nat -> Forall (hash_len n) l ->
  xor_all l = [] <-> l = [].
Proof.
  intros Hn Hl. split; [|by intros ->]. destruct Hl as [|a l Ha Hl]; [done|].
  simpl. intros H. exfalso. revert H. apply (hxor_nonempty n); auto using xor_all_len.
Qed.

(** ** The code computes in the monoid *)

Lemma combine_hashes_spec n a b : (a = [] \/ hash_len n a) -> hash_len n b ->
  combine_hashes a b = Ok (hxor a b).
Proof.
  unfold hash_len, combine_hashes. intros Ha Hb. destruct a as [|x a]; simpl.
  - by destruct b.
  - destruct Ha as [Ha|Ha]; [done|]. simpl in Ha. subst n.
    destruct b as [|y b]; [done|]. simpl in Hb. injection Hb as Hb.
    simpl. rewrite Hb, Nat.eqb_refl. done.
Qed.

Lemma combine_each_spec n out l : (out = [] \/ hash_len n out) ->
  Forall (hash_len n) l -> combine_each out l = Ok (hxor out (xor_all l)).
Proof.
  intros Ho Hl. revert out Ho. induction Hl as [|a l Ha Hl IH]; intros out Ho; simpl.
  - by rewrite hxor_nil_r.
  - rewrite (combine_hashes_spec n) by done. simpl. rewrite IH.
    + by rewrite (assoc_L hxor).
    + apply hxor_len_nil; auto.
Qed.

Lemma hxor_zeros n b : hash_len n b -> hxor (replicate n 0) b = b.
Proof.
  unfold hash_len. intros <-. destruct b as [|x b]; [done|]. simpl.
  rewrite Z.lxor_0_l. f_equal. induction b as [|y b IH]; simpl; [done|].
  by rewrite Z.lxor_0_l, IH.
Qed.

Lemma combine_op_hashes_spec n l : Forall (hash_len n) l ->
  combine_op_hashes l = Ok (xor_all l).
Proof.
  intros Hl. destruct l as [|a l']; [done|]. unfold combine_op_hashes.
  pose proof (Forall_inv Hl) as Ha. rewrite Ha, (combine_each_spec n); [|by right; apply length_replicate|done].
  simpl. by rewrite (assoc_L hxor), hxor_zeros.
Qed.

(** Combining hashes of one length never panics, and its result is their
    xor: it does not depend on the order in which a store lists them. *)
Theorem combine_op_hashes_perm n l k : Forall (hash_len n) l -> l ≡ₚ k ->
  combine_op_hashes l = Ok (xor_all l) /\ combine_op_hashes k = Ok (xor_all l).
Proof.
  intros Hl Hp. split; [by apply (combine_op_hashes_spec n)|].
  rewrite Hp. apply (combine_op_hashes_spec n). by rewrite <- Hp.
Qed.

Lemma combine_op_hashes_perm_witness :
  combine_op_hashes [[1;2];[4;7];[255;0]] = Ok (xor_all [[1;2];[4;7];[255;0]]) /\
  combine_op_hashes [[255;0];[4;7];[1;2]] = Ok [250; 5].
Proof.
  apply (combine_op_hashes_perm 2 [[1;2];[4;7];[255;0]] [[255;0];[4;7];[1;2]]).
  - repeat constructor.
  - symmetry. apply (reverse_Permutation [[1;2];[4;7];[255;0]]).
Defined.
