(* ===== verification/ArcSet.v ===== *)
(** Sets of sectors (crates/dht/src/arc_set.rs): construction from arcs, the
    bitset encoding sent over the wire, and the conversion back to arcs. *)

From S2P Require Import Prelude Arc Timestamp.

Record ArcSet : Type := MkArcSet { inner : gset Z }.

(** The number of sectors, 512. *)
Definition factor : Z := U32_MAX / SECTOR_SIZE + 1.

(** One step of the loop that marks the sectors of an arc: mark the sector of
    [start], then move [start] to the next sector. *)
Definition cover_step (st : gset Z * Z) : gset Z * Z :=
  ({[ st.2 / SECTOR_SIZE ]} ∪ st.1, wrap_u32 (st.2 + SECTOR_SIZE)).

Definition num_sectors_covered (start end_ : Z) : Z :=
  if end_ <? start then
    let length := wrap_u32 (U32_MAX - start + end_ + 1) in
    length / SECTOR_SIZE + 1
  else (end_ - start) / SECTOR_SIZE + 1.

Fixpoint new_loop (acc : gset Z) (arcs : list DhtArc) : res (gset Z) :=
  match arcs with
  | [] => Ok acc
  | arc :: arcs =>
      if Z.of_nat (size acc) =? factor then Ok acc
      else match arc with
      | Empty => new_loop acc arcs
      | Arc start end_ =>
          let n := num_sectors_covered start end_ in
          let st := Nat.iter (Z.to_nat n) cover_step (acc, start) in
          if negb (st.2 =? wrap_u32 (end_ + 1))
             && negb ((end_ =? U32_MAX) && (st.2 =? 0))
          then Err "Invalid arc, expected end"
          else new_loop st.1 arcs
      end
  end.

Definition new (arcs : list DhtArc) : res ArcSet :=
  if (factor =? 0) || negb (Z.land factor (factor - 1) =? 0)
  then Err "Invalid size"
  else let? s := new_loop ∅ arcs in Ok (MkArcSet s).

Definition intersection (self other : ArcSet) : ArcSet :=
  MkArcSet (inner self ∩ inner other).

Definition covered_sector_count (self : ArcSet) : Z := Z.of_nat (size (inner self)).

(** [out[index] |= 1 << bit], a panic when the index is out of range. *)
Definition encode_sector (out : list Z) (sector : Z) : res (list Z) :=
  let index := Z.to_nat (sector / 32) in
  match out !! index with
  | None => Panic "index out of bounds"
  | Some w => Ok (<[ index := Z.lor w (Z.shiftl 1 (sector mod 32)) ]> out)
  end.

Fixpoint encode_loop (out : list Z) (sectors : list Z) : res (list Z) :=
  match sectors with
  | [] => Ok out
  | s :: sectors => let? out := encode_sector out s in encode_loop out sectors
  end.

Definition encode (self : ArcSet) : res (list Z) :=
  encode_loop (replicate 16 0) (elements (inner self)).

(** The bits set in the word at an index. *)
Definition decode_word (index value : Z) : list Z :=
  map (fun bit => index * 32 + bit)
    (List.filter (fun bit => negb (Z.land value (Z.shiftl 1 bit) =? 0)) (zrange 0 32)).

Fixpoint decode_loop (index : Z) (input : list Z) : gset Z :=
  match input with
  | [] => ∅
  | v :: input => list_to_set (decode_word index v) ∪ decode_loop (index + 1) input
  end.

Definition decode (input : list Z) : res ArcSet :=
  if negb (length input =? 16)%nat then Err "Invalid size for encoded arc set"
  else Ok (MkArcSet (decode_loop 0 input)).

Definition includes_sector_index (self : ArcSet) (value : Z) : bool :=
  bool_decide (value ∈ inner self).

Definition without_sector_indices (self : ArcSet) (remove : list Z) : ArcSet :=
  MkArcSet (foldl (fun acc sector => acc ∖ {[ sector ]}) (inner self) remove).

(** The arc of a run of consecutive sectors. *)
Definition run_arc (start_sector end_sector : Z) : DhtArc :=
  let top := saturating_mul_u32 (end_sector + 1) SECTOR_SIZE in
  Arc (start_sector * SECTOR_SIZE)
      (if top =? U32_MAX then U32_MAX else top - 1).

(** The scan over the sorted sectors, with the current run from [start] to
    [end_]. *)
Fixpoint runs (start end_ : Z) (sectors : list Z) : list DhtArc :=
  match sectors with
  | [] => [run_arc start end_]
  | s :: sectors =>
      if end_ + 1 =? s then runs start s sectors
      else run_arc start end_ :: runs s s sectors
  end.

Definition as_arcs (self : ArcSet) : list DhtArc :=
  if bool_decide (inner self = ∅) then []
  else if (size (inner self) =? 512)%nat then [FULL]
  else match merge_sort Z.le (elements (inner self)) with
       | [] => []
       | s :: sectors => runs s s sectors
       end.

(** Every member is a sector index. *)
Definition arc_set_wf (a : ArcSet) : Prop := forall x, x ∈ inner a -> 0 <= x < 512.

(** ** Lemmas on construction *)

(** The arc begins and ends on a sector boundary. *)
Definition aligned (a : DhtArc) : Prop :=
  match a with
  | Empty => True
  | Arc s e => is_u32 s /\ is_u32 e /\ s mod SECTOR_SIZE = 0
               /\ (e + 1) mod SECTOR_SIZE = 0
  end.

#[global] Instance aligned_dec a : Decision (aligned a).
Proof. destruct a; simpl; apply _. Defined.

(** The sectors from [a], [n] of them, clockwise. *)
Definition sectors_from (a n : Z) : gset Z :=
  list_to_set (map (fun i => (a + i) mod 512) (zrange 0 n)).

Lemma elem_of_zrange x lo hi : x ∈ zrange lo hi <-> lo <= x < hi.
Proof. unfold zrange. rewrite elem_of_seqZ. lia. Qed.

Lemma elem_of_sectors_from x a n :
  x ∈ sectors_from a n <-> exists i, 0 <= i < n /\ x = (a + i) mod 512.
Proof.
  unfold sectors_from. rewrite elem_of_list_to_set, list_elem_of_fmap.
  setoid_rewrite elem_of_zrange. naive_solver.
Qed.

Lemma SECTOR_SIZE_val : SECTOR_SIZE = 8388608. Proof. done. Qed.

Lemma cover_iter acc a n : 0 <= a < 512 ->
  Nat.iter n cover_step (acc, a * SECTOR_SIZE)
  = (sectors_from a (Z.of_nat n) ∪ acc, (a + Z.of_nat n) mod 512 * SECTOR_SIZE).
Proof.
  intros Ha. induction n as [|n IH].
  - change (sectors_from a (Z.of_nat 0)) with (∅ : gset Z). rewrite (left_id_L ∅ (∪)).
    simpl. f_equal. by rewrite Z.add_0_r, Z.mod_small.
  - rewrite Nat.iter_succ, IH. unfold cover_step. cbn [fst snd]. f_equal.
    + rewrite Z.div_mul by done. apply set_eq. intros x.
      rewrite !elem_of_union, elem_of_singleton, !elem_of_sectors_from. split.
      * intros [->|[(i & Hi & ->)|?]]; [left|left|by right].
        -- exists (Z.of_nat n). split; [lia|done].
        -- exists i. split; [lia|done].
      * intros [(i & Hi & ->)|?]; [|by right; right].
        destruct (decide (i = Z.of_nat n)) as [->|]; [by left|].
        right. left. exists i. split; [lia|done].
    + unfold wrap_u32. rewrite SECTOR_SIZE_val. rewrite Nat2Z.inj_succ.
      change (2 ^ 32) with 4294967296. Z.to_euclidean_division_equations. lia.
Qed.

(** An aligned arc covers its [num_sectors_covered] sectors, in whole. *)
Lemma aligned_count s e : aligned (Arc s e) ->
  let n := num_sectors_covered s e in
  1 <= n <= 512 /\ arc_span (Arc s e) + 1 = n * SECTOR_SIZE
  /\ (s / SECTOR_SIZE + n) mod 512 * SECTOR_SIZE = wrap_u32 (e + 1).
Proof.
  intros (Hs & He & Ms & Me). unfold num_sectors_covered, arc_span, wrap_u32, U32_MAX,
    is_u32 in *.
  rewrite SECTOR_SIZE_val in *. change (2 ^ 32) with 4294967296 in *.
  destruct (Z.ltb_spec e s); cbv zeta; Z.to_euclidean_division_equations; lia.
Qed.

Lemma new_loop_aligned acc s e arcs : aligned (Arc s e) ->
  Z.of_nat (size acc) <> factor ->
  new_loop acc (Arc s e :: arcs) =
  new_loop (sectors_from (s / SECTOR_SIZE) (num_sectors_covered s e) ∪ acc) arcs.
Proof.
  intros Ha Hf. destruct (aligned_count s e Ha) as (Hn & _ & Hend).
  destruct Ha as (Hs & He & Ms & Me).
  assert (0 <= s / SECTOR_SIZE < 512).
  { unfold is_u32 in Hs. rewrite SECTOR_SIZE_val. Z.to_euclidean_division_equations; lia. }
  cbn [new_loop]. rewrite (proj2 (Z.eqb_neq _ _) Hf). cbv zeta.
  assert (s = s / SECTOR_SIZE * SECTOR_SIZE) as Hsec
    by (rewrite SECTOR_SIZE_val in *; Z.to_euclidean_division_equations; lia).
  remember (num_sectors_covered s e) as n. remember (s / SECTOR_SIZE) as q.
  rewrite Hsec, cover_iter by done. rewrite Z2Nat.id by lia. cbn [fst snd].
  by rewrite Hend, Z.eqb_refl.
Qed.

Definition sectors_of (a : DhtArc) : gset Z :=
  match a with
  | Empty => ∅
  | Arc s e => sectors_from (s / SECTOR_SIZE) (num_sectors_covered s e)
  end.

Definition all_sectors : gset Z := list_to_set (zrange 0 512).

Lemma elem_of_all_sectors x : x ∈ all_sectors <-> 0 <= x < 512.
Proof. unfold all_sectors. by rewrite elem_of_list_to_set, elem_of_zrange. Qed.

Lemma all_sectors_size : size all_sectors = 512%nat.
Proof. vm_compute. done. Qed.

Lemma wf_subseteq s : arc_set_wf (MkArcSet s) <-> s ⊆ all_sectors.
Proof.
  unfold arc_set_wf. simpl. split; intros H x Hx.
  - apply elem_of_all_sectors. by apply H.
  - apply elem_of_all_sectors. by apply H.
Qed.

Lemma full_is_all s : s ⊆ all_sectors -> Z.of_nat (size s) = 512 -> s = all_sectors.
Proof.
  intros Hs Hsize. apply set_subseteq_size_eq; [done|].
  rewrite all_sectors_size. lia.
Qed.

Lemma sectors_of_wf a : sectors_of a ⊆ all_sectors.
Proof.
  intros x. rewrite elem_of_all_sectors. destruct a; simpl; [set_solver|].
  rewrite elem_of_sectors_from. intros (i & _ & ->). apply Z.mod_pos_bound. lia.
Qed.

Lemma new_loop_spec acc arcs : acc ⊆ all_sectors -> Forall aligned arcs ->
  new_loop acc arcs = Ok (⋃ (map sectors_of arcs) ∪ acc).
Proof.
  intros Hacc Hal. revert acc Hacc. induction Hal as [|a arcs Ha Hal IH]; intros acc Hacc.
  - simpl. by rewrite (left_id_L ∅ (∪)).
  - destruct (decide (Z.of_nat (size acc) = factor)) as [Hf|Hf].
    + cbn [new_loop]. rewrite Hf, Z.eqb_refl. f_equal.
      rewrite (full_is_all acc) by done. symmetry. apply subseteq_union_1_L.
      intros x. rewrite elem_of_union_list. intros (X & HX & Hx).
      apply list_elem_of_fmap in HX as (b & -> & _). by apply sectors_of_wf in Hx.
    + destruct a as [|s e].
      * cbn [new_loop]. rewrite (proj2 (Z.eqb_neq _ _) Hf), IH by done.
        f_equal. simpl. by rewrite (left_id_L ∅ (∪)).
      * rewrite new_loop_aligned by done. fold (sectors_of (Arc s e)).
        rewrite IH by (apply union_least; [apply sectors_of_wf|done]).
        f_equal. simpl map. rewrite union_list_cons.
        by rewrite (assoc_L (∪)), (comm_L (∪) (⋃ _) (sectors_of _)).
Qed.

Lemma new_spec arcs : Forall aligned arcs ->
  new arcs = Ok (MkArcSet (⋃ (map sectors_of arcs))).
Proof.
  intros H. unfold new. rewrite new_loop_spec by (apply empty_subseteq || done).
  change ((factor =? 0) || _) with false. cbn. by rewrite (right_id_L ∅ (∪)).
Qed.

Lemma sector_of_mod x : x mod 2 ^ 32 / SECTOR_SIZE = x / SECTOR_SIZE mod 512.
Proof.
  change (2 ^ 32) with (SECTOR_SIZE * 512). rewrite Z.rem_mul_r by done.
  rewrite Z.mul_comm, Z.div_add by done.
  rewrite (Z.div_small (x mod _)); [lia|]. by apply Z.mod_pos_bound.
Qed.

(** Location [l] of an aligned arc: its sector is one of the arc's. *)
Lemma sector_in_arc a l : aligned a -> is_u32 l ->
  l / SECTOR_SIZE ∈ sectors_of a <-> contains a l = true.
Proof.
  intros Ha Hl. destruct a as [|s e].
  { unfold contains. rewrite Z.eqb_eq. simpl. split; [set_solver|discriminate]. }
  rewrite contains_in_arc by (done || by destruct Ha as (?&?&_)).
  destruct (aligned_count s e Ha) as (Hn & Hspan & _).
  destruct Ha as (Hs & He & Ms & _). cbn [in_arc sectors_of].
  remember (num_sectors_covered s e) as n. rewrite elem_of_sectors_from.
  remember (arc_span (Arc s e)) as sp.
  assert (s = s / SECTOR_SIZE * SECTOR_SIZE) as Hq
    by (pose proof (Z_div_mod_eq_full s SECTOR_SIZE); lia).
  remember (s / SECTOR_SIZE) as q. split.
  - intros (i & Hi & Hli). exists ((l - s) mod 2 ^ 32).
    rewrite Zplus_mod_idemp_r. replace (s + (l - s)) with l by lia.
    rewrite (Z.mod_small l) by done. split; [|done].
    split; [apply Z.mod_pos_bound; lia|].
    assert ((l - s) mod 2 ^ 32 / SECTOR_SIZE = i) as Hd.
    { rewrite sector_of_mod, Hq.
      replace (l - q * SECTOR_SIZE) with (l + (- q) * SECTOR_SIZE) by lia.
      rewrite Z.div_add, Hli by done. rewrite Zplus_mod_idemp_l.
      rewrite Z.mod_small; lia. }
    pose proof (Z.mod_pos_bound ((l - s) mod 2 ^ 32) SECTOR_SIZE eq_refl).
    pose proof (Z_div_mod_eq_full ((l - s) mod 2 ^ 32) SECTOR_SIZE). nia.
  - intros (k & Hk & ->). exists (k / SECTOR_SIZE). split.
    + split; [apply Z.div_pos; done || lia|].
      apply Z.div_lt_upper_bound; [done|lia].
    + by rewrite sector_of_mod, Hq, Z.div_add_l.
Qed.

(** Building a set from sector-aligned arcs succeeds, every member is a
    sector index, and a location's sector is a member exactly when one of the
    arcs contains the location. *)
Theorem new_aligned arcs : Forall aligned arcs ->
  exists s, new arcs = Ok s /\ arc_set_wf s /\
  forall l, is_u32 l ->
    includes_sector_index s (l / SECTOR_SIZE) = true <->
    exists a, a ∈ arcs /\ contains a l = true.
Proof.
  intros H. eexists. split; [by apply new_spec|]. split.
  - apply wf_subseteq. intros x. rewrite elem_of_union_list.
    intros (X & HX & Hx). apply list_elem_of_fmap in HX as (b & -> & _).
    by apply sectors_of_wf in Hx.
  - intros l Hl. unfold includes_sector_index. rewrite bool_decide_eq_true.
    simpl. rewrite elem_of_union_list. split.
    + intros (X & HX & Hx). apply list_elem_of_fmap in HX as (b & -> & Hb).
      exists b. split; [done|]. apply sector_in_arc; [|done|done].
      by eapply Forall_forall in H.
    + intros (b & Hb & Hc). exists (sectors_of b). split.
      * apply list_elem_of_fmap. eauto.
      * apply sector_in_arc; [|done|done]. by eapply Forall_forall in H.
Qed.

Lemma new_aligned_witness :
  exists s, new [Arc (511 * SECTOR_SIZE) (2 * SECTOR_SIZE - 1)] = Ok s /\ arc_set_wf s /\
  forall l, is_u32 l ->
    includes_sector_index s (l / SECTOR_SIZE) = true <->
    exists a, a ∈ [Arc (511 * SECTOR_SIZE) (2 * SECTOR_SIZE - 1)] /\ contains a l = true.
Proof.
  apply new_aligned. constructor; [|constructor].
  vm_compute. repeat split; discriminate.
Defined.

(** ** Conversion back to arcs *)

Lemma run_arc_eq a b : 0 <= a <= b -> b < 512 ->
  run_arc a b = Arc (a * SECTOR_SIZE) ((b + 1) * SECTOR_SIZE - 1).
Proof.
  intros Ha Hb. unfold run_arc, saturating_mul_u32, U32_MAX. rewrite SECTOR_SIZE_val.
  destruct (Z.eqb_spec (Z.min 4294967295 ((b + 1) * 8388608)) 4294967295); f_equal; lia.
Qed.

Lemma run_arc_aligned a b : 0 <= a <= b -> b < 512 ->
  aligned (run_arc a b) /\
  sectors_of (run_arc a b) = list_to_set (zrange a (b + 1)).
Proof.
  intros Ha Hb.
  rewrite run_arc_eq by done.
  assert (num_sectors_covered (a * SECTOR_SIZE) ((b + 1) * SECTOR_SIZE - 1) = b + 1 - a)
    as Hn.
  { unfold num_sectors_covered. rewrite SECTOR_SIZE_val.
    destruct (Z.ltb_spec ((b + 1) * 8388608 - 1) (a * 8388608)); [lia|].
    Z.to_euclidean_division_equations; lia. }
  split.
  - unfold aligned, is_u32. rewrite SECTOR_SIZE_val. split_and!; try lia.
    + by rewrite Z.mod_mul.
    + rewrite Z.sub_add. by rewrite Z.mod_mul.
  - simpl. rewrite Hn, Z.div_mul by done. apply set_eq. intros x.
    rewrite elem_of_sectors_from, elem_of_list_to_set, elem_of_zrange. split.
    + intros (i & Hi & ->). rewrite Z.mod_small; lia.
    + intros Hx. exists (x - a). rewrite Z.mod_small; lia.
Qed.

Lemma runs_spec a b l : 0 <= a <= b -> StronglySorted Z.lt (b :: l) ->
  Forall (fun x => x < 512) (b :: l) ->
  Forall aligned (runs a b l) /\
  ⋃ (map sectors_of (runs a b l)) = list_to_set (zrange a (b + 1)) ∪ list_to_set l.
Proof.
  revert a b. induction l as [|c l IH]; intros a b Hab Hs Hf.
  - apply Forall_cons in Hf as [Hb _]. destruct (run_arc_aligned a b) as [Hr1 Hr2]; [done..|].
    split; [by apply Forall_singleton|]. cbn [runs map]. by rewrite union_list_cons, Hr2.
  - apply Forall_cons in Hf as [Hb Hf]. inversion_clear Hs as [|?? Hs' Hlt].
    apply Forall_cons in Hlt as [Hbc Hlt]. simpl runs.
    destruct (Z.eqb_spec (b + 1) c) as [<-|Hne].
    + destruct (IH a (b + 1)) as [H1 H2]; [lia|done..|]. split; [done|].
      rewrite H2. apply set_eq. intros x. simpl.
      rewrite !elem_of_union, elem_of_singleton, !elem_of_list_to_set, !elem_of_zrange.
      intuition lia.
    + destruct (IH c c) as [H1 H2]; [lia|done..|].
      destruct (run_arc_aligned a b) as [Hr1 Hr2]; [done..|].
      split; [by constructor|]. cbn [map]. rewrite union_list_cons, H2, Hr2.
      f_equal. apply set_eq. intros x. simpl.
      rewrite !elem_of_union, elem_of_singleton, !elem_of_list_to_set, !elem_of_zrange.
      intuition lia.
Qed.

Lemma StronglySorted_lt_of_le l : StronglySorted Z.le l -> NoDup l -> StronglySorted Z.lt l.
Proof.
  induction 1 as [|x l Hs IH Hx]; intros Hn; constructor.
  - apply IH. by inversion Hn.
  - apply NoDup_cons in Hn as [Hnx _]. apply Forall_forall. intros y Hy.
    eapply Forall_forall in Hx; [|done].
    destruct (decide (x = y)) as [->|]; [done|lia].
Qed.

Lemma FULL_aligned : aligned FULL /\ sectors_of FULL = all_sectors.
Proof.
  split; [vm_compute; repeat split; discriminate|].
  cbn [sectors_of FULL]. change (num_sectors_covered 0 U32_MAX) with 512.
  apply set_eq. intros x. rewrite elem_of_all_sectors, elem_of_sectors_from. split.
  - intros (i & Hi & ->). apply Z.mod_pos_bound. lia.
  - intros Hx. exists x. split; [done|]. by rewrite Z.add_0_l, Z.mod_small.
Qed.

Lemma as_arcs_spec s : arc_set_wf s ->
  Forall aligned (as_arcs s) /\ ⋃ (map sectors_of (as_arcs s)) = inner s.
Proof.
  intros Hw. unfold as_arcs. case_bool_decide as He; [by rewrite He|].
  destruct (Nat.eqb_spec (size (inner s)) 512) as [Hsz|Hsz].
  { rewrite (full_is_all (inner s)) by (destruct s; (by apply wf_subseteq) || (rewrite Hsz; lia)).
    destruct FULL_aligned as [H1 H2]. split; [by apply Forall_singleton|].
    cbn [map]. rewrite union_list_cons, union_list_nil, H2. by rewrite (right_id_L ∅ (∪)). }
  pose proof (merge_sort_Permutation Z.le (elements (inner s))) as Hp.
  pose proof (StronglySorted_merge_sort Z.le (elements (inner s))) as Hs.
  destruct (merge_sort Z.le (elements (inner s))) as [|a l] eqn:E.
  { exfalso. apply He. apply Permutation_nil_l in Hp.
    by apply leibniz_equiv, elements_empty_inv. }
  assert (forall x, x ∈ a :: l <-> x ∈ inner s) as Hel
    by (intros x; rewrite Hp; by apply elem_of_elements).
  assert (NoDup (a :: l)) as Hnd by (rewrite Hp; apply NoDup_elements).
  destruct (runs_spec a a l) as [H1 H2].
  - pose proof (Hw a (proj1 (Hel a) (list_elem_of_here _ _))). lia.
  - by apply StronglySorted_lt_of_le.
  - apply Forall_forall. intros x Hx. apply Hw. by apply Hel.
  - split; [done|]. rewrite H2. apply set_eq. intros x. rewrite <- Hel.
    rewrite elem_of_union, !elem_of_list_to_set, elem_of_zrange, elem_of_cons.
    intuition lia.
Qed.

(** Turning a sector set into arcs and building a set from those arcs
    gives the set back. *)
Theorem as_arcs_new s : arc_set_wf s -> new (as_arcs s) = Ok s.
Proof.
  intros Hw. destruct (as_arcs_spec s Hw) as [Ha Hu].
  rewrite new_spec by done. rewrite Hu. by destruct s.
Qed.

Lemma as_arcs_new_witness :
  let s := MkArcSet (list_to_set [0; 1; 7; 511]) in
  as_arcs s = [Arc 0 (2 * SECTOR_SIZE - 1); Arc (7 * SECTOR_SIZE) (8 * SECTOR_SIZE - 1);
               Arc (511 * SECTOR_SIZE) U32_MAX]
  /\ new (as_arcs s) = Ok s.
Proof.
  split; [vm_compute; done|]. apply as_arcs_new. apply wf_subseteq.
  apply (bool_decide_eq_true_1 _). vm_compute. done.
Defined.

(** ** The wire encoding *)

Lemma land_shiftl_1 v bit : 0 <= bit ->
  negb (Z.land v (Z.shiftl 1 bit) =? 0) = Z.testbit v bit.
Proof.
  intros Hb. destruct (Z.testbit v bit) eqn:E; destruct (Z.eqb_spec (Z.land v (Z.shiftl 1 bit)) 0) as [H|H]; try done; exfalso.
  - apply (f_equal (fun z => Z.testbit z bit)) in H. revert H.
    rewrite Z.land_spec, E, Z.shiftl_spec, Z.sub_diag, Z.bits_0 by lia. done.
  - apply H. apply Z.bits_inj. intros n. rewrite Z.bits_0, Z.land_spec.
    destruct (decide (n = bit)) as [->|Hn]; [by rewrite E|].
    destruct (decide (n < 0)) as [?|?]; [by rewrite Z.testbit_neg_r|].
    rewrite Z.shiftl_spec, andb_false_iff by lia. right.
    destruct (decide (n < bit)); [by rewrite Z.testbit_neg_r by lia|].
    rewrite (Z.bits_above_log2 1); [done|lia|]. simpl. lia.
Qed.

Definition word_bit (ws : list Z) (x : Z) : bool :=
  match ws !! Z.to_nat (x / 32) with
  | Some w => Z.testbit w (x mod 32)
  | None => false
  end.

Lemma elem_of_decode_word x i v :
  x ∈ decode_word i v <-> x / 32 = i /\ Z.testbit v (x mod 32) = true.
Proof.
  unfold decode_word. rewrite list_elem_of_In, in_map_iff.
  setoid_rewrite filter_In. setoid_rewrite <- list_elem_of_In.
  setoid_rewrite elem_of_zrange. split.
  - intros (b & <- & Hb & Ht). rewrite land_shiftl_1 in Ht by lia.
    rewrite Z.add_comm, Z.div_add, Z.mod_add, Z.div_small, Z.mod_small by lia. done.
  - intros [<- Ht]. exists (x mod 32).
    pose proof (Z.mod_pos_bound x 32 eq_refl). split; [|split; [lia|]].
    + pose proof (Z_div_mod_eq_full x 32). lia.
    + by rewrite land_shiftl_1 by lia.
Qed.

Lemma elem_of_decode_loop x i ws : 0 <= i ->
  x ∈ decode_loop i ws <->
  i <= x / 32 < i + Z.of_nat (length ws) /\ word_bit ws (x - 32 * i) = true.
Proof.
  revert i. induction ws as [|w ws IH]; intros i Hi; simpl.
  - split; [by intros ?%not_elem_of_empty|]. intros [? _]. lia.
  - rewrite elem_of_union, elem_of_list_to_set, elem_of_decode_word, IH by lia.
    unfold word_bit.
    replace ((x - 32 * i) / 32) with (x / 32 - i)
      by (Z.to_euclidean_division_equations; lia).
    replace ((x - 32 * i) mod 32) with (x mod 32)
      by (Z.to_euclidean_division_equations; lia).
    replace ((x - 32 * (i + 1)) / 32) with (x / 32 - i - 1)
      by (Z.to_euclidean_division_equations; lia).
    replace ((x - 32 * (i + 1)) mod 32) with (x mod 32)
      by (Z.to_euclidean_division_equations; lia).
    remember (x / 32) as q eqn:Hq. remember (x mod 32) as r eqn:Hr. clear Hq Hr.
    destruct (decide (q = i)) as [->|Hne].
    + rewrite Z.sub_diag. simpl. split; [intros [[_ H]|[H _]]|intros [_ H]].
      * split; [lia|done].
      * lia.
      * by left.
    + split.
      * intros [[? _]|[Hr Hb]]; [lia|]. split; [lia|].
        by replace (Z.to_nat (q - i)) with (S (Z.to_nat (q - i - 1))) by lia.
      * intros [Hr Hb]. right. split; [lia|].
        by replace (Z.to_nat (q - i)) with (S (Z.to_nat (q - i - 1))) in Hb by lia.
Qed.

Lemma encode_sector_spec ws x : length ws = 16%nat -> 0 <= x < 512 ->
  exists ws', encode_sector ws x = Ok ws' /\ length ws' = 16%nat /\
    (Forall is_u32 ws -> Forall is_u32 ws') /\
    forall y, 0 <= y -> word_bit ws' y = bool_decide (y = x) || word_bit ws y.
Proof.
  intros Hl Hx. unfold encode_sector.
  destruct (lookup_lt_is_Some_2 ws (Z.to_nat (x / 32))) as [w Hw].
  { rewrite Hl. Z.to_euclidean_division_equations; lia. }
  rewrite Hw. eexists. split; [done|]. rewrite length_insert. split; [done|].
  pose proof (Z.mod_pos_bound x 32 eq_refl) as Hm. split.
  - intros Hf. apply Forall_insert; [done|]. unfold is_u32.
    pose proof (Forall_lookup_1 _ _ _ _ Hf Hw) as Hw32. unfold is_u32 in Hw32.
    rewrite Z.shiftl_1_l. split.
    + apply Z.lor_nonneg. split; [lia|]. apply Z.pow_nonneg. lia.
    + apply Z.log2_lt_cancel. rewrite Z.log2_pow2 by lia.
      rewrite Z.log2_lor by (lia || (apply Z.pow_nonneg; lia)).
      rewrite Z.log2_pow2 by lia. apply Z.max_lub_lt; [|lia].
      destruct (decide (w = 0)) as [->|]; [done|]. apply Z.log2_lt_pow2; lia.
  - intros y Hy. unfold word_bit.
    destruct (decide (Z.to_nat (y / 32) = Z.to_nat (x / 32))) as [Heq|Hne].
    + assert (y / 32 = x / 32) as Hyx
        by (pose proof (Z.div_pos y 32); pose proof (Z.div_pos x 32); lia).
      rewrite Heq, Hw, list_lookup_insert_eq by (by eapply lookup_lt_Some).
      pose proof (Z.mod_pos_bound y 32 eq_refl) as Hmy.
      rewrite Z.lor_spec, Z.shiftl_1_l, orb_comm. f_equal.
      case_bool_decide as Hd.
      * subst. by rewrite Z.pow2_bits_true by lia.
      * apply Z.pow2_bits_false. intros Hmm. apply Hd.
        rewrite (Z_div_mod_eq_full y 32), (Z_div_mod_eq_full x 32). lia.
    + rewrite list_lookup_insert_ne by done. by rewrite bool_decide_false by (by intros ->).
Qed.

Lemma encode_loop_spec ws l : length ws = 16%nat -> Forall (fun x => 0 <= x < 512) l ->
  exists ws', encode_loop ws l = Ok ws' /\ length ws' = 16%nat /\
    (Forall is_u32 ws -> Forall is_u32 ws') /\
    forall y, 0 <= y -> word_bit ws' y = bool_decide (y ∈ l) || word_bit ws y.
Proof.
  intros Hl Hf. revert ws Hl. induction Hf as [|x l Hx Hf IH]; intros ws Hl.
  - exists ws. split_and!; [done..|]. intros y _. by rewrite bool_decide_false by apply not_elem_of_nil.
  - destruct (encode_sector_spec ws x Hl Hx) as (ws1 & E1 & Hl1 & Hr1 & Hb1).
    destruct (IH ws1 Hl1) as (ws2 & E2 & Hl2 & Hr2 & Hb2).
    exists ws2. simpl. rewrite E1. simpl. split_and!; [done..|by auto|].
    intros y Hy. rewrite Hb2, Hb1 by done. rewrite (orb_assoc _ _ (word_bit ws y)).
    f_equal. rewrite (bool_decide_ext (y ∈ x :: l) (y = x \/ y ∈ l)) by apply elem_of_cons.
    rewrite bool_decide_or. apply orb_comm.
Qed.

Lemma word_bit_zeros y : word_bit (replicate 16 0) y = false.
Proof.
  unfold word_bit. destruct (replicate 16 0 !! _) eqn:E; [|done].
  apply lookup_replicate in E as [-> _]. apply Z.bits_0.
Qed.

Lemma encode_spec s : arc_set_wf s ->
  exists ws, encode s = Ok ws /\ length ws = 16%nat /\ Forall is_u32 ws /\
    forall y, 0 <= y -> word_bit ws y = bool_decide (y ∈ inner s).
Proof.
  intros Hw. unfold encode.
  destruct (encode_loop_spec (replicate 16 0) (elements (inner s))) as (ws & -> & Hl & Hr & Hb).
  - done.
  - apply Forall_forall. intros x Hx. apply Hw. by apply elem_of_elements.
  - exists ws. split_and!; [done..| |].
    + apply Hr. by repeat constructor.
    + intros y Hy. rewrite Hb, word_bit_zeros, orb_false_r by done.
      apply bool_decide_ext. apply elem_of_elements.
Qed.

Lemma decode_spec ws : length ws = 16%nat ->
  exists s, decode ws = Ok s /\ arc_set_wf s /\
    forall x, x ∈ inner s <-> 0 <= x < 512 /\ word_bit ws x = true.
Proof.
  intros Hl. unfold decode. rewrite Hl, Nat.eqb_refl. eexists. split; [done|].
  assert (forall x, x ∈ decode_loop 0 ws <-> 0 <= x < 512 /\ word_bit ws x = true) as H.
  { intros x. rewrite elem_of_decode_loop by done. rewrite Z.mul_0_r, Z.sub_0_r, Hl.
    split; intros [Hx Hb]; (split; [|done]); Z.to_euclidean_division_equations; lia. }
  split; [|exact H]. intros x Hx. by apply H in Hx as [? _].
Qed.

Lemma word_bit_at ws j b : 0 <= b < 32 ->
  word_bit ws (32 * Z.of_nat j + b) = from_option (fun w => Z.testbit w b) false (ws !! j).
Proof.
  intros Hb. unfold word_bit.
  replace ((32 * Z.of_nat j + b) / 32) with (Z.of_nat j)
    by (Z.to_euclidean_division_equations; lia).
  replace ((32 * Z.of_nat j + b) mod 32) with b
    by (Z.to_euclidean_division_equations; lia).
  rewrite Nat2Z.id. by destruct (ws !! j).
Qed.

Lemma u32_bits_above w n : is_u32 w -> 32 <= n -> Z.testbit w n = false.
Proof.
  intros [H1 H2] Hn. destruct (decide (w = 0)) as [->|]; [apply Z.bits_0|].
  apply Z.bits_above_log2; [done|]. apply Z.lt_le_trans with 32; [|done].
  apply Z.log2_lt_pow2; lia.
Qed.

Lemma word_bit_ext ws ws' : length ws = length ws' -> Forall is_u32 ws -> Forall is_u32 ws' ->
  (forall y, 0 <= y -> word_bit ws y = word_bit ws' y) -> ws = ws'.
Proof.
  intros Hl Hr Hr' Hb. apply (list_eq_same_length _ _ (length ws')); [done..|].
  intros j w w' _ Hw Hw'. apply Z.bits_inj'. intros n Hn.
  destruct (decide (n < 32)) as [Hlt|Hge].
  - specialize (Hb (32 * Z.of_nat j + n)). rewrite !word_bit_at, Hw, Hw' in Hb by lia.
    apply Hb. lia.
  - rewrite !u32_bits_above; [done|..|lia]; try lia.
    + by apply (Forall_lookup_1 _ _ _ _ Hr' Hw').
    + by apply (Forall_lookup_1 _ _ _ _ Hr Hw).
Qed.

Lemma decode_encode s ws : arc_set_wf s -> encode s = Ok ws -> decode ws = Ok s.
Proof.
  intros Hw He. destruct (encode_spec s Hw) as (ws' & He' & Hl & _ & Hb).
  rewrite He in He'. injection He' as <-.
  destruct (decode_spec ws Hl) as (s' & -> & _ & Hs'). f_equal.
  destruct s as [i], s' as [i']. f_equal. apply set_eq. intros x. simpl in *.
  rewrite Hs'. split.
  - intros [Hx Hbit]. rewrite Hb in Hbit by lia. by apply bool_decide_eq_true in Hbit.
  - intros Hx. specialize (Hw x Hx). split; [done|]. rewrite Hb by lia.
    by apply bool_decide_eq_true.
Qed.

(** A set of sectors encodes to 16 words without panicking, decoding the
    words gives the set back, and every 16 words are the encoding of the set
    they decode to. *)
Theorem encode_decode_roundtrip s ws : arc_set_wf s ->
  length ws = 16%nat -> Forall is_u32 ws ->
  (exists out, encode s = Ok out /\ decode out = Ok s) /\
  (exists s', decode ws = Ok s' /\ encode s' = Ok ws).
Proof.
  intros Hw Hl Hr. split.
  - destruct (encode_spec s Hw) as (out & He & _). exists out.
    split; [done|by apply decode_encode].
  - destruct (decode_spec ws Hl) as (s' & Hd & Hw' & Hin). exists s'. split; [done|].
    destruct (encode_spec s' Hw') as (out & He & Hlo & Hro & Hb). rewrite He. f_equal.
    apply word_bit_ext; [lia|done..|]. intros y Hy. rewrite Hb by done.
    destruct (word_bit ws y) eqn:E.
    + apply bool_decide_eq_true. apply Hin. split; [|done]. unfold word_bit in E.
      destruct (ws !! Z.to_nat (y / 32)) eqn:Ew; [|done].
      apply lookup_lt_Some in Ew. rewrite Hl in Ew.
      Z.to_euclidean_division_equations; lia.
    + apply bool_decide_eq_false. intros Hi. apply Hin in Hi as [_ Hi]. congruence.
Qed.

Lemma encode_decode_roundtrip_witness :
  let s := MkArcSet (list_to_set [0; 33; 511]) in
  let ws := 6 :: replicate 15 2147483648 in
  (exists out, encode s = Ok out /\ decode out = Ok s) /\
  (exists s', decode ws = Ok s' /\ encode s' = Ok ws).
Proof.
  apply encode_decode_roundtrip.
  - apply wf_subseteq. apply (bool_decide_eq_true_1 _). vm_compute. done.
  - done.
  - apply (bool_decide_eq_true_1 _). vm_compute. done.
Defined.
