(* ===== verification/OpStore.v ===== *)
(** The interface between the DHT model and the host's op store
    (crates/api/src/op_store.rs): the operations of the trait as a class over
    the store's state, and a second class with what the DHT model relies on,
    stated against an abstract view of the store (the ops held and the slice
    hashes stored). *)

From S2P Require Import Prelude Arc Timestamp Id Combine.

Record MetaOp : Type := MkMetaOp { meta_op_id : bytes; meta_op_data : bytes }.

Record IncomingOp : Type := MkIncomingOp {
  inc_op_id : bytes;
  inc_op_data : bytes;
  inc_metadata : option bytes;
}.

Record StoredOp : Type := MkStoredOp { op_id : bytes; created_at : Timestamp }.

#[global] Instance StoredOp_eq_dec : EqDecision StoredOp.
Proof. solve_decision. Defined.

(** The trait [OpStore].  [process_incoming_ops] and [retrieve_op_ids_bounded]
    read the clock; the reading is an argument. *)
Class OpStore (St : Type) := {
  process_incoming_ops : Timestamp -> list IncomingOp -> M St (list bytes);
  retrieve_op_hashes_in_time_slice :
    DhtArc -> Timestamp -> Timestamp -> M St (list bytes * Z);
  retrieve_ops : list bytes -> M St (list MetaOp);
  filter_out_existing_ops : list bytes -> M St (list bytes);
  retrieve_op_ids_bounded :
    Timestamp -> DhtArc -> Timestamp -> Z -> M St (list bytes * Z * Timestamp);
  earliest_timestamp_in_arc : DhtArc -> M St (option Timestamp);
  store_slice_hash : DhtArc -> Z -> bytes -> M St unit;
  slice_hash_count : DhtArc -> M St Z;
  retrieve_slice_hash : DhtArc -> Z -> M St (option bytes);
  retrieve_slice_hashes : DhtArc -> M St (list (Z * bytes));
  query_total_op_count : M St Z;
}.

(** The length of an op id: the host refuses ids of another length. *)
Class OpIdLen := { op_id_len : nat; op_id_len_pos : (0 < op_id_len)%nat }.

Section ops.
Context `{Location} `{OpIdLen}.

(** What the host guarantees of the ops it holds. *)
Definition op_wf (op : StoredOp) : Prop :=
  hash_len op_id_len (op_id op) /\ bytes_wf (op_id op) /\ ts_ok (created_at op).

#[global] Instance op_wf_dec op : Decision (op_wf op).
Proof. unfold op_wf, hash_len. apply _. Defined.

(** The op was created in the slice [start, end) and lives in the arc. *)
Definition in_slice (arc : DhtArc) (start end_ : Timestamp) (op : StoredOp) : Prop :=
  contains arc (loc (op_id op)) = true /\ start <= created_at op < end_.

#[global] Instance in_slice_dec arc start end_ op : Decision (in_slice arc start end_ op).
Proof. unfold in_slice. apply _. Defined.

Definition slice_ids (arc : DhtArc) (start end_ : Timestamp) (ops : list StoredOp)
  : list bytes :=
  map op_id (filter (in_slice arc start end_) ops).

(** The combined hash of a slice, in the monoid of hashes. *)
Definition slice_hash (arc : DhtArc) (start end_ : Timestamp) (ops : list StoredOp)
  : bytes :=
  xor_all (slice_ids arc start end_ ops).

Definition in_constraint (arc : DhtArc) (op : StoredOp) : Prop :=
  contains arc (loc (op_id op)) = true.

#[global] Instance in_constraint_dec arc op : Decision (in_constraint arc op).
Proof. unfold in_constraint. apply _. Defined.
End ops.

(** The sum of the sizes of some ops. *)
Definition total_size (size : bytes -> Z) (ids : list bytes) : Z :=
  foldr (fun id acc => size id + acc) 0 ids.

(** What the DHT model relies on. *)
Class OpStoreSpec (St : Type) `{OpStore St} `{Location} `{OpIdLen} := {
  (** The abstract view. *)
  st_ops : St -> list StoredOp;
  st_slice : St -> DhtArc -> Z -> option bytes;
  st_wf : St -> Prop;
  (** The size of the data of an op held. *)
  st_size : St -> bytes -> Z;
  (** Laws. *)
  st_ops_wf s : st_wf s -> Forall op_wf (st_ops s);
  st_ops_nodup s : st_wf s -> NoDup (map op_id (st_ops s));
  retrieve_op_hashes_law s arc start end_ : st_wf s ->
    exists ids used,
      retrieve_op_hashes_in_time_slice arc start end_ s = (Ok (ids, used), s)
      /\ ids ≡ₚ slice_ids arc start end_ (st_ops s)
      /\ used = wrap_u32 (total_size (st_size s) ids);
  st_size_nonneg s id : st_wf s -> 0 <= st_size s id;
  earliest_law s arc : st_wf s ->
    exists t, earliest_timestamp_in_arc arc s = (Ok t, s) /\
    match t with
    | None => forall op, op ∈ st_ops s -> ~ in_constraint arc op
    | Some t =>
        (exists op, op ∈ st_ops s /\ in_constraint arc op /\ created_at op = t) /\
        (forall op, op ∈ st_ops s -> in_constraint arc op -> t <= created_at op)
    end;
  store_slice_hash_law s arc i h : st_wf s -> h <> [] -> 0 <= i < 2 ^ 63 ->
    exists s', store_slice_hash arc i h s = (Ok tt, s') /\ st_wf s' /\
      st_ops s' = st_ops s /\ st_size s' = st_size s /\
      forall arc' j, st_slice s' arc' j =
        if decide (arc' = arc /\ j = i) then Some h else st_slice s arc' j;
  retrieve_slice_hash_law s arc i : st_wf s ->
    retrieve_slice_hash arc i s = (Ok (st_slice s arc i), s);
  slice_hash_count_law s arc : st_wf s ->
    exists n, slice_hash_count arc s = (Ok n, s) /\ 0 <= n /\
      (n = 0 \/ is_Some (st_slice s arc (n - 1))) /\
      (forall i, is_Some (st_slice s arc i) -> 0 <= i < n);
  retrieve_slice_hashes_law s arc : st_wf s ->
    exists l, retrieve_slice_hashes arc s = (Ok l, s) /\
      StronglySorted Z.lt l.*1 /\
      (forall i h, (i, h) ∈ l <-> st_slice s arc i = Some h);
  query_total_op_count_law s : st_wf s ->
    query_total_op_count s = (Ok (Z.of_nat (length (st_ops s))), s);
}.

(** ** Lemmas on slices of ops *)

Section slices.
Context `{Location} `{OpIdLen}.

#[global] Instance slice_ids_perm arc a b : Proper ((≡ₚ) ==> (≡ₚ)) (slice_ids arc a b).
Proof. intros l k Hlk. unfold slice_ids. by rewrite Hlk. Qed.

#[global] Instance slice_hash_perm arc a b : Proper ((≡ₚ) ==> (=)) (slice_hash arc a b).
Proof. intros l k Hlk. unfold slice_hash. by rewrite Hlk. Qed.

Lemma slice_ids_app arc a b l k :
  slice_ids arc a b (l ++ k) = slice_ids arc a b l ++ slice_ids arc a b k.
Proof. unfold slice_ids. by rewrite filter_app, map_app. Qed.

Lemma slice_hash_app arc a b l k :
  slice_hash arc a b (l ++ k) = hxor (slice_hash arc a b l) (slice_hash arc a b k).
Proof. unfold slice_hash. by rewrite slice_ids_app, xor_all_app. Qed.

Lemma slice_hash_single_in arc a b op : in_slice arc a b op ->
  slice_hash arc a b [op] = op_id op.
Proof.
  intros Hin. unfold slice_hash, slice_ids. rewrite filter_cons_True by done.
  apply hxor_nil_r.
Qed.

Lemma slice_hash_single_out arc a b op : ~ in_slice arc a b op ->
  slice_hash arc a b [op] = [].
Proof.
  intros Hout. unfold slice_hash, slice_ids. by rewrite filter_cons_False by done.
Qed.

Lemma slice_ids_len arc a b ops : Forall op_wf ops ->
  Forall (hash_len op_id_len) (slice_ids arc a b ops).
Proof.
  intros Hw. unfold slice_ids. apply Forall_map. apply Forall_forall.
  intros op Hop. apply list_elem_of_filter in Hop as [_ Hop].
  by eapply Forall_forall in Hw as (? & _); [|done].
Qed.

Lemma slice_hash_len arc a b ops : Forall op_wf ops ->
  slice_hash arc a b ops = [] \/ hash_len op_id_len (slice_hash arc a b ops).
Proof. intros Hw. by apply xor_all_len, slice_ids_len. Qed.

Lemma slice_ids_nil arc a b ops :
  (forall op, op ∈ ops -> ~ in_slice arc a b op) -> slice_ids arc a b ops = [].
Proof.
  intros Hout. unfold slice_ids. destruct (filter _ ops) as [|op l] eqn:E; [done|].
  exfalso. assert (op ∈ filter (in_slice arc a b) ops) as Hop
    by (rewrite E; left).
  apply list_elem_of_filter in Hop as [H1 H2]. by apply (Hout op).
Qed.

(** Only the ops of the arc matter for its slices. *)
Lemma slice_ids_filter arc a b ops :
  slice_ids arc a b (filter (in_constraint arc) ops) = slice_ids arc a b ops.
Proof.
  unfold slice_ids. f_equal. rewrite list_filter_filter.
  apply list_filter_iff. intros op. unfold in_slice, in_constraint. tauto.
Qed.

Lemma combine_slice arc a b ops ids : Forall op_wf ops ->
  ids ≡ₚ slice_ids arc a b ops -> combine_op_hashes ids = Ok (slice_hash arc a b ops).
Proof.
  intros Hw Hp. rewrite (combine_op_hashes_spec op_id_len).
  - by rewrite Hp.
  - rewrite Hp. by apply slice_ids_len.
Qed.
End slices.

Lemma total_size_app size l k : total_size size (l ++ k) = total_size size l + total_size size k.
Proof. unfold total_size. induction l as [|id l IH]; simpl; [done|]. rewrite IH. lia. Qed.

#[global] Instance total_size_perm size : Proper ((≡ₚ) ==> (=)) (total_size size).
Proof. unfold total_size. induction 1; simpl; lia. Qed.

Lemma total_size_nonneg size l : (forall id, 0 <= size id) -> 0 <= total_size size l.
Proof.
  intros Hs. unfold total_size. induction l as [|id l IH]; simpl; [lia|].
  specialize (Hs id). lia.
Qed.
