(* ===== verification/MemOpStore.v ===== *)
(** The in-memory op store (crates/core/src/factories/mem_op_store.rs and
    mem_op_store/time_slice_hash_store.rs), as an instance of [OpStore], and
    the proof that it meets [OpStoreSpec]. *)

From S2P Require Import Prelude Arc Timestamp Id Combine OpStore.

(** ** TimeSliceHashStore *)

Module TimeSliceHashStore.
(** [HashMap<DhtArc, BTreeMap<u64, Bytes>>] *)
Record t : Type := mk { inner : gmap DhtArc (gmap Z bytes) }.

Definition insert (arc : DhtArc) (slice_id : Z) (hash : bytes) : M t unit := fun s =>
  if bool_decide (hash = []) then (Err "Cannot insert empty combined hash", s)
  else (Ok tt,
        mk (<[ arc := <[ slice_id := hash ]> (default ∅ (inner s !! arc)) ]> (inner s))).

Definition get (s : t) (arc : DhtArc) (slice_id : Z) : option bytes :=
  by_arc ← inner s !! arc; by_arc !! slice_id.

(** Iteration over a BTreeMap is by ascending key. *)
Definition by_key (x y : Z * bytes) : Prop := x.1 <= y.1.
#[global] Instance by_key_dec x y : Decision (by_key x y).
Proof. unfold by_key. apply _. Defined.

Definition btree_iter (m : gmap Z bytes) : list (Z * bytes) :=
  merge_sort by_key (map_to_list m).

Definition get_all (s : t) (arc : DhtArc) : list (Z * bytes) :=
  match inner s !! arc with Some by_arc => btree_iter by_arc | None => [] end.

Definition highest_stored_id (s : t) (arc : DhtArc) : option Z :=
  by_arc ← inner s !! arc; fst <$> last (btree_iter by_arc).
End TimeSliceHashStore.

(** ** The store *)

Record MemoryOp : Type := MkMemoryOp { mem_created_at : Timestamp; mem_op_data : bytes }.

(** The first 32 bytes of the data, padded with zeros. *)
Definition compute_op_id (self : MemoryOp) : bytes :=
  let value := take (32 `min` length (mem_op_data self))%nat (mem_op_data self) in
  resize 32 0 value.

(** [serde_json] is not part of the sources: reading an op's bytes, which
    panics on malformed input ([None]), and writing them. *)
Class OpCodec := {
  op_from_bytes : bytes -> option MemoryOp;
  op_to_bytes : MemoryOp -> bytes;
}.

Record MemoryOpRecord : Type := MkRecord {
  rec_op_id : bytes;
  rec_created_at : Timestamp;
  rec_stored_at : Timestamp;
  rec_op_data : bytes;
}.

(** Kitsune2MemoryOpStoreInner *)
Record MemStore : Type := MkMemStore {
  op_list : gmap bytes MemoryOpRecord;
  time_slice_hashes : TimeSliceHashStore.t;
}.

Definition mem_default : MemStore := MkMemStore ∅ (TimeSliceHashStore.mk ∅).

Section mem.
Context `{Location} `{OpCodec}.

Definition record_from_incoming (now : Timestamp) (value : IncomingOp)
  : res MemoryOpRecord :=
  match op_from_bytes (inc_op_data value) with
  | None => Panic "failed to deserialize MemoryOp from bytes"
  | Some inner =>
      Ok (MkRecord (inc_op_id value) (mem_created_at inner) now (mem_op_data inner))
  end.

Definition stored_from_memory (value : MemoryOp) : StoredOp :=
  MkStoredOp (compute_op_id value) (mem_created_at value).

Fixpoint records_from_incoming (now : Timestamp) (op_list : list IncomingOp)
  : res (list MemoryOpRecord) :=
  match op_list with
  | [] => Ok []
  | op :: ops =>
      let? r := record_from_incoming now op in
      let? rs := records_from_incoming now ops in
      Ok (r :: rs)
  end.

(** [entry(op_id).or_insert(record)] *)
Definition or_insert (m : gmap bytes MemoryOpRecord) (r : MemoryOpRecord)
  : gmap bytes MemoryOpRecord :=
  match m !! rec_op_id r with
  | Some _ => m
  | None => <[ rec_op_id r := r ]> m
  end.

Definition mem_process_incoming_ops (now : Timestamp) (ops : list IncomingOp)
  : M MemStore (list bytes) := fun s =>
  match records_from_incoming now ops with
  | Ok ops_to_add =>
      (Ok (map rec_op_id ops_to_add),
       MkMemStore (foldl or_insert (op_list s) ops_to_add) (time_slice_hashes s))
  | Err e => (Err e, s)
  | Panic e => (Panic e, s)
  end.

(** The values of the map, in the unspecified order of its iteration. *)
Definition records (s : MemStore) : list MemoryOpRecord :=
  (map_to_list (op_list s)).*2.

Definition by_created_at (x y : MemoryOpRecord) : Prop :=
  rec_created_at x <= rec_created_at y.
#[global] Instance by_created_at_dec x y : Decision (by_created_at x y).
Proof. unfold by_created_at. apply _. Defined.

Definition by_stored_at (x y : MemoryOpRecord) : Prop :=
  rec_stored_at x <= rec_stored_at y.
#[global] Instance by_stored_at_dec x y : Decision (by_stored_at x y).
Proof. unfold by_stored_at. apply _. Defined.

(** [op_data.len() as u32] *)
Definition data_len (r : MemoryOpRecord) : Z :=
  wrap_u32 (Z.of_nat (length (rec_op_data r))).

Definition in_time_slice (arc : DhtArc) (start end_ : Timestamp) (r : MemoryOpRecord)
  : bool :=
  (start <=? rec_created_at r) && (rec_created_at r <? end_)
  && contains arc (loc (rec_op_id r)).

Definition mem_retrieve_op_hashes_in_time_slice (arc : DhtArc) (start end_ : Timestamp)
  : M MemStore (list bytes * Z) := fun s =>
  let candidate_ops :=
    merge_sort by_created_at (List.filter (in_time_slice arc start end_) (records s)) in
  (Ok (map rec_op_id candidate_ops,
       foldl (fun used_bytes r => wrap_u32 (used_bytes + data_len r)) 0 candidate_ops),
   s).

Definition mem_retrieve_ops (op_ids : list bytes) : M MemStore (list MetaOp) := fun s =>
  (Ok (omap (fun id =>
         op ← op_list s !! id;
         Some (MkMetaOp (rec_op_id op)
                 (op_to_bytes (MkMemoryOp (rec_created_at op) (rec_op_data op)))))
       op_ids), s).

Definition mem_filter_out_existing_ops (op_ids : list bytes) : M MemStore (list bytes) :=
  fun s =>
  (Ok (List.filter (fun id => negb (bool_decide (is_Some (op_list s !! id)))) op_ids), s).

(** The [take_while] of [retrieve_op_ids_bounded]: the ops taken, their total
    size, and the storage time of the op that did not fit. *)
Fixpoint take_bounded (limit_bytes total_bytes : Z) (ops : list MemoryOpRecord)
  : list MemoryOpRecord * Z * option Timestamp :=
  match ops with
  | [] => ([], total_bytes, None)
  | op :: ops =>
      let sum := wrap_u32 (total_bytes + data_len op) in
      if sum <=? limit_bytes then
        let '(taken, total, last_op_timestamp) := take_bounded limit_bytes sum ops in
        (op :: taken, total, last_op_timestamp)
      else ([], total_bytes, Some (rec_stored_at op))
  end.

Definition mem_retrieve_op_ids_bounded (now : Timestamp) (arc : DhtArc)
  (start : Timestamp) (limit_bytes : Z) : M MemStore (list bytes * Z * Timestamp) :=
  fun s =>
  let new_start := now in
  let candidate_ops := merge_sort by_stored_at
    (List.filter (fun op => contains arc (loc (rec_op_id op))
                            && (start <=? rec_stored_at op)) (records s)) in
  let '(taken, total_bytes, last_op_timestamp) :=
    take_bounded limit_bytes 0 candidate_ops in
  (Ok (map rec_op_id taken, total_bytes, default new_start last_op_timestamp), s).

(** [Iterator::min] *)
Definition list_min (l : list Z) : option Z :=
  match l with [] => None | x :: l => Some (foldl Z.min x l) end.

Definition mem_earliest_timestamp_in_arc (arc : DhtArc) : M MemStore (option Timestamp) :=
  fun s =>
  (Ok (list_min (map rec_created_at
         (List.filter (fun op => contains arc (loc (rec_op_id op))) (records s)))), s).

Definition mem_store_slice_hash (arc : DhtArc) (slice_index : Z) (slice_hash : bytes)
  : M MemStore unit := fun s =>
  let (r, t') := TimeSliceHashStore.insert arc slice_index slice_hash
                   (time_slice_hashes s) in
  (r, MkMemStore (op_list s) t').

Definition mem_slice_hash_count (arc : DhtArc) : M MemStore Z := fun s =>
  (Ok (match TimeSliceHashStore.highest_stored_id (time_slice_hashes s) arc with
       | Some id => wrap_u64 (id + 1)
       | None => 0
       end), s).

Definition mem_retrieve_slice_hash (arc : DhtArc) (slice_index : Z)
  : M MemStore (option bytes) := fun s =>
  (Ok (TimeSliceHashStore.get (time_slice_hashes s) arc slice_index), s).

Definition mem_retrieve_slice_hashes (arc : DhtArc) : M MemStore (list (Z * bytes)) :=
  fun s => (Ok (TimeSliceHashStore.get_all (time_slice_hashes s) arc), s).

Definition mem_query_total_op_count : M MemStore Z := fun s =>
  (Ok (Z.of_nat (size (op_list s))), s).

#[export] Instance MemOpStore : OpStore MemStore := {|
  process_incoming_ops := mem_process_incoming_ops;
  retrieve_op_hashes_in_time_slice := mem_retrieve_op_hashes_in_time_slice;
  retrieve_ops := mem_retrieve_ops;
  filter_out_existing_ops := mem_filter_out_existing_ops;
  retrieve_op_ids_bounded := mem_retrieve_op_ids_bounded;
  earliest_timestamp_in_arc := mem_earliest_timestamp_in_arc;
  store_slice_hash := mem_store_slice_hash;
  slice_hash_count := mem_slice_hash_count;
  retrieve_slice_hash := mem_retrieve_slice_hash;
  retrieve_slice_hashes := mem_retrieve_slice_hashes;
  query_total_op_count := mem_query_total_op_count;
|}.
End mem.

(** ** Facts about the ordered iterations *)

#[global] Instance by_key_total : Total TimeSliceHashStore.by_key.
Proof. intros x y. unfold TimeSliceHashStore.by_key. lia. Qed.
#[global] Instance by_key_trans : Transitive TimeSliceHashStore.by_key.
Proof. intros x y z. unfold TimeSliceHashStore.by_key. lia. Qed.
#[global] Instance by_created_at_total : Total by_created_at.
Proof. intros x y. unfold by_created_at. lia. Qed.
#[global] Instance by_created_at_trans : Transitive by_created_at.
Proof. intros x y z. unfold by_created_at. lia. Qed.
#[global] Instance by_stored_at_total : Total by_stored_at.
Proof. intros x y. unfold by_stored_at. lia. Qed.
#[global] Instance by_stored_at_trans : Transitive by_stored_at.
Proof. intros x y z. unfold by_stored_at. lia. Qed.

Lemma btree_iter_perm m : TimeSliceHashStore.btree_iter m ≡ₚ map_to_list m.
Proof. apply merge_sort_Permutation. Qed.

Lemma elem_of_btree_iter m i h : (i, h) ∈ TimeSliceHashStore.btree_iter m <-> m !! i = Some h.
Proof. rewrite btree_iter_perm. apply elem_of_map_to_list. Qed.

Lemma sorted_keys (l : list (Z * bytes)) :
  StronglySorted TimeSliceHashStore.by_key l -> NoDup l.*1 -> StronglySorted Z.lt l.*1.
Proof.
  induction 1 as [|x l Hs IH Hx]; simpl; intros Hn; constructor.
  - apply IH. by inversion Hn.
  - apply NoDup_cons in Hn as [Hnx _]. apply Forall_fmap, Forall_forall. intros y Hy.
    assert (x.1 <> y.1) by (intros E; apply Hnx; rewrite E; by apply list_elem_of_fmap_2).
    eapply Forall_forall in Hx; [|done]. unfold TimeSliceHashStore.by_key in Hx.
    simpl. lia.
Qed.

Lemma btree_iter_sorted m : StronglySorted Z.lt (TimeSliceHashStore.btree_iter m).*1.
Proof.
  apply sorted_keys; [apply StronglySorted_merge_sort; apply _|].
  rewrite btree_iter_perm. apply NoDup_fst_map_to_list.
Qed.

Lemma sorted_last (l : list Z) n i : StronglySorted Z.lt l -> last l = Some n ->
  i ∈ l -> i <= n.
Proof.
  induction 1 as [|x l Hs IH Hx]; [done|]. intros Hl Hi.
  destruct l as [|y l]; simpl in Hl.
  - injection Hl as <-. apply list_elem_of_singleton in Hi. lia.
  - apply elem_of_cons in Hi as [->|Hi]; [|by apply IH].
    apply last_Some_elem_of in Hl. eapply Forall_forall in Hx; [|done]. lia.
Qed.

Lemma get_insert s arc i h arc' j : h <> [] ->
  TimeSliceHashStore.get (TimeSliceHashStore.insert arc i h s).2 arc' j =
    if decide (arc' = arc /\ j = i) then Some h else TimeSliceHashStore.get s arc' j.
Proof.
  intros Hh. unfold TimeSliceHashStore.insert. rewrite bool_decide_false by done.
  unfold TimeSliceHashStore.get. simpl. destruct (decide (arc' = arc)) as [->|Hne].
  - rewrite lookup_insert_eq. simpl. destruct (decide (j = i)) as [->|Hj].
    + rewrite lookup_insert_eq. by rewrite decide_True.
    + rewrite lookup_insert_ne by done. rewrite decide_False by naive_solver.
      destruct (TimeSliceHashStore.inner s !! arc); simpl; [done|]. by rewrite lookup_empty.
  - rewrite lookup_insert_ne by done. by rewrite decide_False by naive_solver.
Qed.

Lemma list_min_spec l : match list_min l with
  | None => l = []
  | Some m => m ∈ l /\ forall x, x ∈ l -> m <= x end.
Proof.
  destruct l as [|a l]; [done|]. simpl.
  assert (forall b, (foldl Z.min b l = b \/ foldl Z.min b l ∈ l)
    /\ foldl Z.min b l <= b /\ forall x, x ∈ l -> foldl Z.min b l <= x) as Hm.
  { induction l as [|c l IH]; intros b; simpl.
    - split_and!; [by left|lia|]. intros x Hx. by apply elem_of_nil in Hx.
    - destruct (IH (Z.min b c)) as (H1 & H2 & H3). split_and!.
      + destruct H1 as [->|H1].
        * destruct (Z.min_spec b c) as [[_ ->]|[_ ->]]; [by left|right; left].
        * right. by right.
      + lia.
      + intros x Hx. apply elem_of_cons in Hx as [->|Hx]; [lia|by apply H3]. }
  destruct (Hm a) as (H1 & H2 & H3). split.
  - destruct H1 as [->|H1]; [left|by right].
  - intros x Hx. apply elem_of_cons in Hx as [->|Hx]; auto.
Qed.

(** ** The store meets the interface *)

Section mem_spec.
Context `{Location} `{OpCodec} `{OpIdLen}.

Definition stored_op (r : MemoryOpRecord) : StoredOp :=
  MkStoredOp (rec_op_id r) (rec_created_at r).

Definition mem_ops (s : MemStore) : list StoredOp := map stored_op (records s).

Definition mem_slice (s : MemStore) (arc : DhtArc) (i : Z) : option bytes :=
  TimeSliceHashStore.get (time_slice_hashes s) arc i.

(** A record is filed under its id, its op is well formed, and the slice
    hashes have indices that fit. *)
Record mem_wf (s : MemStore) : Prop := {
  mem_key : map_Forall (fun k r => rec_op_id r = k) (op_list s);
  mem_op_ok : map_Forall (fun _ r => op_wf (stored_op r)) (op_list s);
  mem_index_ok : forall arc i, is_Some (mem_slice s arc i) -> 0 <= i < 2 ^ 63;
}.

Lemma elem_of_records s r : r ∈ records s -> exists k, op_list s !! k = Some r.
Proof.
  unfold records. intros Hr. apply list_elem_of_fmap in Hr as ([k r'] & -> & Hr).
  exists k. by apply elem_of_map_to_list in Hr.
Qed.

Lemma mem_ops_ids s : mem_wf s -> map op_id (mem_ops s) = (map_to_list (op_list s)).*1.
Proof.
  intros [Hk _ _]. unfold mem_ops, records.
  transitivity (map (fun p => rec_op_id p.2) (map_to_list (op_list s))).
  - change (@map) with (fun A B => @fmap list _ A B). simpl.
    by rewrite <- !list_fmap_compose.
  - apply map_ext_in. intros [k r] Hin. simpl. apply list_elem_of_In in Hin.
    apply elem_of_map_to_list in Hin. by apply (Hk k r).
Qed.

Lemma mem_ops_wf s : mem_wf s -> Forall op_wf (mem_ops s).
Proof.
  intros [_ Hw _]. unfold mem_ops. apply Forall_map, Forall_forall.
  intros r Hr. apply elem_of_records in Hr as [k Hr]. by apply (Hw k r).
Qed.

Lemma in_time_slice_spec arc a b r :
  in_time_slice arc a b r = true <-> in_slice arc a b (stored_op r).
Proof.
  unfold in_time_slice, in_slice. simpl.
  rewrite !andb_true_iff, Z.leb_le, Z.ltb_lt. tauto.
Qed.

Lemma slice_candidates arc a b s :
  map rec_op_id (List.filter (in_time_slice arc a b) (records s))
  = slice_ids arc a b (mem_ops s).
Proof.
  rewrite (list_filter_bool _ (fun r => in_slice arc a b (stored_op r)))
    by apply in_time_slice_spec.
  unfold slice_ids, mem_ops. induction (records s) as [|r l IH]; [done|].
  simpl map. rewrite !filter_cons. repeat case_decide; simpl; try done; by rewrite IH.
Qed.

Definition mem_size (s : MemStore) (id : bytes) : Z :=
  match op_list s !! id with Some r => data_len r | None => 0 end.

Lemma data_len_nonneg r : 0 <= data_len r.
Proof. unfold data_len. apply wrap_u32_range. Qed.

Lemma mem_size_nonneg s id : 0 <= mem_size s id.
Proof. unfold mem_size. destruct (_ !! _); [apply data_len_nonneg|done]. Qed.

Lemma used_bytes_total s rs acc : mem_wf s -> (forall r, r ∈ rs -> r ∈ records s) ->
  foldl (fun used_bytes r => wrap_u32 (used_bytes + data_len r)) (wrap_u32 acc) rs
  = wrap_u32 (acc + total_size (mem_size s) (map rec_op_id rs)).
Proof.
  intros Hw. revert acc. induction rs as [|r rs IH]; intros acc Hin; simpl.
  - by rewrite Z.add_0_r.
  - assert (mem_size s (rec_op_id r) = data_len r) as ->.
    { destruct (elem_of_records s r) as [k Hk]; [apply Hin; left|].
      unfold mem_size. by rewrite (mem_key s Hw k r Hk), Hk. }
    replace (wrap_u32 (wrap_u32 acc + data_len r)) with (wrap_u32 (acc + data_len r))
      by (unfold wrap_u32; by rewrite Zplus_mod_idemp_l).
    rewrite IH by (intros r' Hr'; apply Hin; by right). f_equal. lia.
Qed.

Lemma mem_retrieve_law s arc a b : mem_wf s ->
  exists ids used,
    mem_retrieve_op_hashes_in_time_slice arc a b s = (Ok (ids, used), s)
    /\ ids ≡ₚ slice_ids arc a b (mem_ops s)
    /\ used = wrap_u32 (total_size (mem_size s) ids).
Proof.
  intros Hw. eexists _, _. split; [reflexivity|]. split.
  - rewrite <- slice_candidates. apply Permutation_map, merge_sort_Permutation.
  - rewrite <- (Z.add_0_l (total_size _ _)). apply (used_bytes_total s _ 0); [done|].
    intros r Hr. rewrite merge_sort_Permutation in Hr.
    apply list_elem_of_In, filter_In in Hr as [Hr _]. by apply list_elem_of_In.
Qed.

Lemma mem_earliest_law s arc : 
  exists t, mem_earliest_timestamp_in_arc arc s = (Ok t, s) /\
  match t with
  | None => forall op, op ∈ mem_ops s -> ~ in_constraint arc op
  | Some t =>
      (exists op, op ∈ mem_ops s /\ in_constraint arc op /\ created_at op = t) /\
      (forall op, op ∈ mem_ops s -> in_constraint arc op -> t <= created_at op)
  end.
Proof.
  eexists. split; [reflexivity|].
  set (l := List.filter _ _).
  assert (forall r, r ∈ l <-> r ∈ records s /\ in_constraint arc (stored_op r)) as Hl.
  { intros r. unfold l. rewrite list_elem_of_In, filter_In, <- list_elem_of_In. done. }
  assert (forall op, op ∈ mem_ops s <-> exists r, op = stored_op r /\ r ∈ records s) as Ho
    by (intros op; apply list_elem_of_fmap).
  pose proof (list_min_spec (map rec_created_at l)) as Hm.
  destruct (list_min _) as [m|].
  - destruct Hm as [Hm1 Hm2]. apply list_elem_of_fmap in Hm1 as (r & -> & Hr). split.
    + exists (stored_op r). apply Hl in Hr as [? ?]. rewrite Ho. naive_solver.
    + intros op Hop Hc. apply Ho in Hop as (r' & -> & Hr'). apply Hm2.
      apply (list_elem_of_fmap_2 rec_created_at). by apply Hl.
  - intros op Hop Hc. apply Ho in Hop as (r & -> & Hr). apply map_eq_nil in Hm.
    assert (r ∈ l) as Hin by (by apply Hl). rewrite Hm in Hin.
    by apply elem_of_nil in Hin.
Qed.

Lemma mem_store_law s arc i h : mem_wf s -> h <> [] -> 0 <= i < 2 ^ 63 ->
  exists s', mem_store_slice_hash arc i h s = (Ok tt, s') /\ mem_wf s' /\
    mem_ops s' = mem_ops s /\ mem_size s' = mem_size s /\
    forall arc' j, mem_slice s' arc' j =
      if decide (arc' = arc /\ j = i) then Some h else mem_slice s arc' j.
Proof.
  intros Hw Hh Hi.
  set (t := (TimeSliceHashStore.insert arc i h (time_slice_hashes s)).2).
  exists (MkMemStore (op_list s) t).
  assert (forall arc' j, mem_slice (MkMemStore (op_list s) t) arc' j =
      if decide (arc' = arc /\ j = i) then Some h else mem_slice s arc' j) as Hs.
  { intros arc' j. by apply get_insert. }
  split_and!; [|split|done..].
  - unfold mem_store_slice_hash, t, TimeSliceHashStore.insert.
    by rewrite bool_decide_false.
  - apply Hw.
  - apply Hw.
  - intros arc' j. rewrite Hs. case_decide as Hd; [by destruct Hd as [-> ->]|].
    apply (mem_index_ok s Hw).
Qed.

Lemma mem_count_law s arc : mem_wf s ->
  exists n, mem_slice_hash_count arc s = (Ok n, s) /\ 0 <= n /\
    (n = 0 \/ is_Some (mem_slice s arc (n - 1))) /\
    (forall i, is_Some (mem_slice s arc i) -> 0 <= i < n).
Proof.
  intros Hw. eexists. split; [reflexivity|].
  unfold TimeSliceHashStore.highest_stored_id.
  pose proof (mem_index_ok s Hw arc) as Hidx. unfold mem_slice, TimeSliceHashStore.get in *.
  destruct (TimeSliceHashStore.inner (time_slice_hashes s) !! arc) as [m|]; simpl in *.
  2: { split_and!; [lia|by left|]. intros i Hi. by apply is_Some_None in Hi. }
  destruct (last (TimeSliceHashStore.btree_iter m)) as [[n h]|] eqn:El; simpl.
  - assert (m !! n = Some h) as Hn.
    { apply elem_of_btree_iter. by apply last_Some_elem_of. }
    destruct (Hidx n) as [H1' H2']; [by rewrite Hn|].
    rewrite wrap_u64_id by (unfold is_u64; lia). split_and!; [lia| |].
    + right. replace (n + 1 - 1) with n by lia. by rewrite Hn.
    + intros i [h' Hi]. split; [by apply Hidx; rewrite Hi|].
      enough (i <= n) by lia.
      apply (sorted_last (TimeSliceHashStore.btree_iter m).*1).
      * apply btree_iter_sorted.
      * by rewrite fmap_last, El.
      * apply elem_of_btree_iter in Hi. by apply (list_elem_of_fmap_2 fst) in Hi.
  - split_and!; [lia|by left|]. intros i [h Hi]. exfalso.
    apply elem_of_btree_iter in Hi. apply last_None in El. rewrite El in Hi.
    by apply elem_of_nil in Hi.
Qed.

Lemma mem_slices_law s arc :
  exists l, mem_retrieve_slice_hashes arc s = (Ok l, s) /\
    StronglySorted Z.lt l.*1 /\
    (forall i h, (i, h) ∈ l <-> mem_slice s arc i = Some h).
Proof.
  eexists. split; [reflexivity|].
  unfold TimeSliceHashStore.get_all, mem_slice, TimeSliceHashStore.get.
  destruct (TimeSliceHashStore.inner (time_slice_hashes s) !! arc) as [m|]; simpl.
  - split; [apply btree_iter_sorted|]. intros i h. apply elem_of_btree_iter.
  - split; [constructor|]. intros i h. split; [by intros ?%elem_of_nil|done].
Qed.

#[export] Instance MemOpStoreSpec : OpStoreSpec MemStore.
Proof.
  refine {| st_ops := mem_ops; st_slice := mem_slice; st_wf := mem_wf;
            st_size := mem_size |}.
  - apply mem_ops_wf.
  - intros s Hs. rewrite mem_ops_ids by done. apply NoDup_fst_map_to_list.
  - apply mem_retrieve_law.
  - intros s id _. apply mem_size_nonneg.
  - intros s arc _. apply mem_earliest_law.
  - apply mem_store_law.
  - done.
  - apply mem_count_law.
  - intros s arc _. apply mem_slices_law.
  - intros s _. unfold query_total_op_count. simpl. unfold mem_query_total_op_count.
    unfold mem_ops, records. by rewrite length_map, length_fmap, length_map_to_list.
Defined.
End mem_spec.

(** ** Concrete instances

    A codec (creation time first, then the data) and an id length, used where
    a theorem is applied to a concrete store. *)

Module Concrete.
#[export] Instance codec : OpCodec := {|
  op_from_bytes b := match b with [] => None | t :: data => Some (MkMemoryOp t data) end;
  op_to_bytes op := mem_created_at op :: mem_op_data op;
|}.

#[export] Instance id_len : OpIdLen := {| op_id_len := 4; op_id_len_pos := Nat.lt_0_succ 3 |}.

(** An op with the given id, creation time and data. *)
Definition incoming (id : bytes) (t : Timestamp) (data : bytes) : IncomingOp :=
  MkIncomingOp id (t :: data) None.

(** The store that processed the ops at the given time. *)
Definition store_of (now : Timestamp) (ops : list IncomingOp) : MemStore :=
  (mem_process_incoming_ops now ops mem_default).2.
End Concrete.

(** ** Properties *)

Section mem_properties.
Context `{Location} `{OpCodec} `{OpIdLen}.

Lemma merge_sort_created l : StronglySorted by_created_at (merge_sort by_created_at l).
Proof. apply StronglySorted_merge_sort; apply _. Qed.

(** The time slice query returns the ids of exactly the ops in the arc
    created from [start] on and before [end_], each as often as stored, in
    ascending order of creation, and does not change the store. *)
Theorem mem_time_slice_query s arc start end_ :
  exists rs used,
    retrieve_op_hashes_in_time_slice arc start end_ s = (Ok (map rec_op_id rs, used), s)
    /\ map rec_op_id rs ≡ₚ slice_ids arc start end_ (mem_ops s)
    /\ StronglySorted by_created_at rs
    /\ forall r, r ∈ rs <->
         r ∈ records s /\ start <= rec_created_at r < end_
         /\ contains arc (loc (rec_op_id r)) = true.
Proof.
  eexists _, _. split; [reflexivity|]. split; [|split].
  - rewrite <- slice_candidates. apply Permutation_map, merge_sort_Permutation.
  - apply merge_sort_created.
  - intros r. rewrite merge_sort_Permutation, list_elem_of_In, filter_In,
      <- list_elem_of_In, in_time_slice_spec. unfold in_slice. simpl. tauto.
Qed.

(** Storing a slice hash is read back from its slot and no other slot
    changes; an empty hash is refused and changes nothing. *)
Theorem mem_slice_hash_roundtrip s arc i h arc' j :
  retrieve_slice_hash arc' j (store_slice_hash arc i h s).2
  = (Ok (if decide (h <> [] /\ arc' = arc /\ j = i) then Some h
         else mem_slice s arc' j), (store_slice_hash arc i h s).2)
  /\ is_ok (store_slice_hash arc i h s).1 = negb (bool_decide (h = [])).
Proof.
  simpl. unfold mem_store_slice_hash, mem_retrieve_slice_hash.
  destruct (decide (h = [])) as [->|Hh].
  - rewrite decide_False by naive_solver. done.
  - pose proof (get_insert (time_slice_hashes s) arc i h arc' j Hh) as Hg.
    unfold TimeSliceHashStore.insert in *. rewrite bool_decide_false in * by done.
    simpl in *. rewrite Hg. split; [|done]. do 2 f_equal.
    destruct (decide (arc' = arc /\ j = i)); [by rewrite decide_True|].
    by rewrite decide_False by naive_solver.
Qed.

Lemma take_bounded_spec limit total ops taken total' ts :
  Forall (fun r => limit + data_len r < 2 ^ 32) ops ->
  0 <= total <= limit ->
  take_bounded limit total ops = (taken, total', ts) ->
  total' = total + foldr (fun r acc => data_len r + acc) 0 taken /\
  total <= total' <= limit /\
  exists rest, ops = taken ++ rest /\
    match ts with
    | None => rest = []
    | Some t => exists r rest', rest = r :: rest' /\ rec_stored_at r = t
                  /\ limit < total' + data_len r
    end.
Proof.
  intros Hf. revert total taken total' ts.
  induction Hf as [|r ops Hr Hf IH]; intros total taken total' ts Ht; simpl.
  - intros [= <- <- <-]. simpl. split_and!; [lia..|]. by exists [].
  - assert (0 <= data_len r) as Hd
      by (unfold data_len; pose proof (wrap_u32_range (Z.of_nat (length (rec_op_data r)))) as [? ?]; done).
    rewrite wrap_u32_id by (unfold is_u32; lia).
    destruct (Z.leb_spec (total + data_len r) limit) as [Hle|Hgt].
    + destruct (take_bounded limit (total + data_len r) ops) as [[tk tt'] ts'] eqn:E.
      intros [= <- <- <-]. destruct (IH (total + data_len r) tk tt' ts') as (H1' & H2' & rest & H3' & H4');
        [lia|done|]. simpl. split_and!; [lia..|]. exists rest. by rewrite H3'.
    + intros [= <- <- <-]. simpl. split_and!; [lia..|]. exists (r :: ops).
      split; [done|]. eauto.
Qed.

Lemma merge_sort_stored l : StronglySorted by_stored_at (merge_sort by_stored_at l).
Proof. apply StronglySorted_merge_sort; apply _. Qed.

Lemma StronglySorted_app_le (l k : list MemoryOpRecord) r x :
  StronglySorted by_stored_at (l ++ r :: k) -> x ∈ r :: k -> by_stored_at r x.
Proof.
  induction l as [|y l IH]; simpl; inversion_clear 1 as [|?? Hs Hx].
  - intros [->|Hin]%elem_of_cons; [unfold by_stored_at; lia|].
    by eapply Forall_forall in Hx.
  - by apply IH.
Qed.

(** A bounded query returns ops of the arc stored since [start] whose
    sizes add up to the reported total, within the limit; paging with the
    returned timestamp skips nothing: every other such op was stored at that
    timestamp or later. *)
Theorem mem_retrieve_bounded now arc start limit s :
  0 <= limit -> Forall (fun r => limit + data_len r < 2 ^ 32) (records s) ->
  exists rs total ts,
    retrieve_op_ids_bounded now arc start limit s
      = (Ok (map rec_op_id rs, total, ts), s) /\
    total = foldr (fun r acc => data_len r + acc) 0 rs /\ total <= limit /\
    Forall (fun r => r ∈ records s /\ contains arc (loc (rec_op_id r)) = true
                     /\ start <= rec_stored_at r) rs /\
    forall r, r ∈ records s -> contains arc (loc (rec_op_id r)) = true ->
      start <= rec_stored_at r -> r ∈ rs \/ ts <= rec_stored_at r.
Proof.
  intros Hlim Hsz. simpl. unfold mem_retrieve_op_ids_bounded.
  set (cands := merge_sort by_stored_at _).
  assert (forall r, r ∈ cands <-> r ∈ records s /\ contains arc (loc (rec_op_id r)) = true
            /\ start <= rec_stored_at r) as Hc.
  { intros r. unfold cands. rewrite merge_sort_Permutation, list_elem_of_In, filter_In,
      <- list_elem_of_In, andb_true_iff, Z.leb_le. done. }
  destruct (take_bounded limit 0 cands) as [[rs total] ts] eqn:E.
  destruct (take_bounded_spec limit 0 cands rs total ts) as (H1' & H2' & rest & H3' & H4').
  { apply Forall_forall. intros r Hr. apply Hc in Hr as [Hr _].
    by eapply Forall_forall in Hsz. }
  { lia. }
  { done. }
  exists rs, total, (default now ts). split_and!; [done|lia|lia| |].
  - apply Forall_forall. intros r Hr. apply Hc. rewrite H3'. apply elem_of_app. by left.
  - intros r Hr1 Hr2 Hr3. assert (r ∈ cands) as Hr by (by apply Hc).
    rewrite H3' in Hr. apply elem_of_app in Hr as [Hr|Hr]; [by left|right].
    destruct ts as [t|].
    + destruct H4' as (r0 & rest' & -> & <- & _). simpl.
      apply (StronglySorted_app_le rs rest' r0 r); [|done].
      rewrite <- H3'. apply merge_sort_stored.
    + subst rest. by apply elem_of_nil in Hr.
Qed.
End mem_properties.

Section mem_incoming.
Context `{Location} `{OpCodec} `{OpIdLen}.

(** The incoming bytes parse, to an op the host accepts. *)
Definition incoming_ok (op : IncomingOp) : Prop :=
  match op_from_bytes (inc_op_data op) with
  | Some i => op_wf (MkStoredOp (inc_op_id op) (mem_created_at i))
  | None => False
  end.

#[global] Instance incoming_ok_dec op : Decision (incoming_ok op).
Proof. unfold incoming_ok. destruct (op_from_bytes _); apply _. Defined.

Lemma records_from_incoming_ok now ops : Forall incoming_ok ops ->
  exists rs, records_from_incoming now ops = Ok rs
    /\ map rec_op_id rs = map inc_op_id ops
    /\ Forall (fun r => op_wf (stored_op r)) rs.
Proof.
  induction 1 as [|op ops Hop _ (rs & E & Hids & Hw)]; [by exists []|].
  unfold incoming_ok in Hop. simpl. unfold record_from_incoming.
  destruct (op_from_bytes (inc_op_data op)) as [i|]; [|done]. simpl. rewrite E.
  eexists. split; [reflexivity|]. simpl. rewrite Hids. split; [done|]. by constructor.
Qed.

Lemma or_insert_lookup m r k :
  or_insert m r !! k =
    match m !! k with
    | Some r' => Some r'
    | None => if decide (k = rec_op_id r) then Some r else None
    end.
Proof.
  unfold or_insert. destruct (m !! rec_op_id r) eqn:E.
  - destruct (m !! k) eqn:Ek; [done|]. rewrite decide_False; [done|]. congruence.
  - destruct (decide (k = rec_op_id r)) as [->|Hne].
    + by rewrite lookup_insert_eq, E.
    + rewrite lookup_insert_ne by done. by destruct (m !! k).
Qed.

Lemma or_insert_all rs m :
  (forall k r, m !! k = Some r -> foldl or_insert m rs !! k = Some r) /\
  (forall k r, foldl or_insert m rs !! k = Some r ->
     m !! k = Some r \/ r ∈ rs /\ rec_op_id r = k) /\
  (forall r, r ∈ rs -> is_Some (foldl or_insert m rs !! rec_op_id r)).
Proof.
  revert m. induction rs as [|r0 rs IH]; intros m; simpl.
  - split_and!; [done|by left|]. by intros r ?%elem_of_nil.
  - destruct (IH (or_insert m r0)) as (H1' & H2' & H3'). split_and!.
    + intros k r Hk. apply H1'. by rewrite or_insert_lookup, Hk.
    + intros k r Hk. destruct (H2' k r Hk) as [Hk'|[Hr Hid]].
      * rewrite or_insert_lookup in Hk'. destruct (m !! k); [by left|].
        case_decide; simplify_eq. right. split; [by left|done].
      * right. split; [by right|done].
    + intros r [->|Hr]%elem_of_cons; [|by apply H3'].
      assert (is_Some (or_insert m r0 !! rec_op_id r0)) as [r' Hr'].
      { rewrite or_insert_lookup. destruct (m !! _); [eauto|]. rewrite decide_True; eauto. }
      rewrite (H1' _ _ Hr'). eauto.
Qed.

Lemma or_insert_all_wf s rs : mem_wf s -> Forall (fun r => op_wf (stored_op r)) rs ->
  mem_wf (MkMemStore (foldl or_insert (op_list s) rs) (time_slice_hashes s)).
Proof.
  intros Hw Hrs. destruct (or_insert_all rs (op_list s)) as (_ & H2' & _). split; simpl.
  - intros k r Hk. apply H2' in Hk as [Hk|[_ ?]]; [|done]. by apply (mem_key s Hw k r).
  - intros k r Hk. apply H2' in Hk as [Hk|[Hr _]]; [by apply (mem_op_ok s Hw k r)|].
    by eapply Forall_forall in Hrs.
  - apply (mem_index_ok s Hw).
Qed.

Lemma process_incoming_wf now ops s : mem_wf s -> Forall incoming_ok ops ->
  mem_wf (mem_process_incoming_ops now ops s).2 /\
  time_slice_hashes (mem_process_incoming_ops now ops s).2 = time_slice_hashes s.
Proof.
  intros Hw Hops. destruct (records_from_incoming_ok now ops Hops) as (rs & E & _ & Hrs).
  unfold mem_process_incoming_ops. rewrite E. split; [|done]. by apply or_insert_all_wf.
Qed.

(** Processing incoming ops the host accepts returns their ids and keeps
    the store well formed; afterwards none of them is missing, ops held
    before are untouched (the first copy wins), and nothing else was added. *)
Theorem mem_process_incoming now ops s :
  mem_wf s -> Forall incoming_ok ops ->
  exists s', process_incoming_ops now ops s = (Ok (map inc_op_id ops), s') /\
    mem_wf s' /\
    filter_out_existing_ops (map inc_op_id ops) s' = (Ok [], s') /\
    (forall k r, op_list s !! k = Some r -> op_list s' !! k = Some r) /\
    (forall k, is_Some (op_list s' !! k) ->
       is_Some (op_list s !! k) \/ k ∈ map inc_op_id ops) /\
    time_slice_hashes s' = time_slice_hashes s.
Proof.
  intros Hw Hops.
  destruct (records_from_incoming_ok now ops Hops) as (rs & E & Hids & Hrs).
  destruct (or_insert_all rs (op_list s)) as (H1' & H2' & H3').
  eexists. simpl. unfold mem_process_incoming_ops. rewrite E, Hids.
  split; [done|]. rewrite <- Hids. split_and!.
  - by apply or_insert_all_wf.
  - unfold mem_filter_out_existing_ops. do 2 f_equal. simpl.
    destruct (List.filter _ (map rec_op_id rs)) as [|k l] eqn:El; [done|]. exfalso.
    assert (In k (k :: l)) as Hk by (by left). rewrite <- El in Hk.
    apply filter_In in Hk as [Hk Hb]. apply list_elem_of_In, list_elem_of_fmap in Hk
      as (r & -> & Hr).
    rewrite bool_decide_true in Hb; [done|]. by apply H3'.
  - exact H1'.
  - intros k [r Hk]. apply H2' in Hk as [Hk|[Hr <-]]; [left; eauto|right].
    by apply (list_elem_of_fmap_2 rec_op_id).
  - done.
Qed.

Lemma mem_default_wf : mem_wf mem_default.
Proof.
  split.
  - apply map_Forall_empty.
  - apply map_Forall_empty.
  - intros arc i Hi. unfold mem_slice, TimeSliceHashStore.get in Hi. simpl in Hi.
    rewrite lookup_empty in Hi. by apply is_Some_None in Hi.
Qed.

Lemma store_of_wf now ops : Forall incoming_ok ops ->
  mem_wf (mem_process_incoming_ops now ops mem_default).2.
Proof. intros Hops. apply process_incoming_wf; [apply mem_default_wf|done]. Qed.

Lemma store_of_slices now ops arc i : Forall incoming_ok ops ->
  mem_slice (mem_process_incoming_ops now ops mem_default).2 arc i = None.
Proof.
  intros Hops. destruct (process_incoming_wf now ops mem_default mem_default_wf Hops) as [_ E].
  unfold mem_slice. by rewrite E.
Qed.
End mem_incoming.

Import Concrete.

Lemma mem_process_incoming_witness :
  exists s', process_incoming_ops 70 [incoming [1;0;0;2] 50 [9;9]] mem_default
      = (Ok [[1;0;0;2]], s') /\
    mem_wf s' /\
    filter_out_existing_ops [[1;0;0;2]] s' = (Ok [], s') /\
    (forall k r, op_list mem_default !! k = Some r -> op_list s' !! k = Some r) /\
    (forall k, is_Some (op_list s' !! k) ->
       is_Some (op_list mem_default !! k) \/ k ∈ [[1;0;0;2]]) /\
    time_slice_hashes s' = time_slice_hashes mem_default.
Proof.
  apply (mem_process_incoming 70 [incoming [1;0;0;2] 50 [9;9]] mem_default).
  - apply mem_default_wf.
  - apply (bool_decide_eq_true_1 _). vm_compute. done.
Defined.

Lemma mem_retrieve_bounded_witness :
  let s := store_of 60 [incoming [1;0;0;2] 50 [9;9]; incoming [2;0;0;2] 40 [1;2;3]] in
  exists rs total ts,
    retrieve_op_ids_bounded 99 FULL 10 4 s = (Ok (map rec_op_id rs, total, ts), s) /\
    total = foldr (fun r acc => data_len r + acc) 0 rs /\ total <= 4 /\
    Forall (fun r => r ∈ records s /\ contains FULL (loc (rec_op_id r)) = true
                     /\ 10 <= rec_stored_at r) rs /\
    forall r, r ∈ records s -> contains FULL (loc (rec_op_id r)) = true ->
      10 <= rec_stored_at r -> r ∈ rs \/ ts <= rec_stored_at r.
Proof.
  apply mem_retrieve_bounded.
  - lia.
  - apply (bool_decide_eq_true_1 _). vm_compute. done.
Defined.
