(* ===== verification/TimePartition.v ===== *)
(** The time partition of one sector (crates/dht/src/time.rs): full slices of
    history, whose combined hashes are kept in the op store, and partial slices
    of recent time, whose combined hashes are kept in memory. *)
From S2P Require Import Prelude Arc Timestamp Id Combine OpStore.

(** ** Data *)

Record PartialSlice : Type := MkPartialSlice {
  ps_start : Timestamp;
  ps_size : Z;
  ps_hash : bytes;
}.

Record TimePartition : Type := MkTimePartition {
  tp_factor : Z;
  tp_full_slices : Z;
  tp_partial_slices : list PartialSlice;
  tp_full_slice_duration : Duration;
  tp_min_recent_time : Duration;
  tp_next_update_at : Timestamp;
  tp_sector_constraint : DhtArc;
}.

Definition set_full_slices (n : Z) (self : TimePartition) : TimePartition :=
  MkTimePartition (tp_factor self) n (tp_partial_slices self)
    (tp_full_slice_duration self) (tp_min_recent_time self)
    (tp_next_update_at self) (tp_sector_constraint self).

Definition set_partial_slices (ps : list PartialSlice) (self : TimePartition)
  : TimePartition :=
  MkTimePartition (tp_factor self) (tp_full_slices self) ps
    (tp_full_slice_duration self) (tp_min_recent_time self)
    (tp_next_update_at self) (tp_sector_constraint self).

Definition set_next_update_at (t : Timestamp) (self : TimePartition) : TimePartition :=
  MkTimePartition (tp_factor self) (tp_full_slices self) (tp_partial_slices self)
    (tp_full_slice_duration self) (tp_min_recent_time self) t
    (tp_sector_constraint self).

(** ** Pure parts *)

(** [Duration::from_secs((1u64 << size) * UNIT_TIME.as_secs())] *)
Definition slice_duration (size : Z) : Duration :=
  from_secs (wrap_u64 (wrap_u64 (Z.shiftl 1 (size mod 64)) * as_secs UNIT_TIME)).

Definition residual_duration_for_factor (factor : Z) : res Duration :=
  if 54 <=? factor then Err "Time partitioning factor must be less than 54"
  else
    let sum := foldl (fun sum i => Z.lor sum (wrap_u64 (Z.shiftl 1 i))) 1
                 (zrange 1 (factor + 1)) in
    Ok (from_secs (wrap_u64 (sum * as_secs UNIT_TIME))).

(** PartialSlice::end *)
Definition ps_end (self : PartialSlice) : Timestamp :=
  ts_add (ps_start self) (slice_duration (ps_size self)).

Definition tp_new (factor : Z) (sector_constraint : DhtArc) : res TimePartition :=
  let? min_recent_time := residual_duration_for_factor ((factor - 1) mod 2 ^ 8) in
  Ok (MkTimePartition factor 0 [] (slice_duration factor) min_recent_time
        (from_micros 0) sector_constraint).

Definition full_slice_end_timestamp (self : TimePartition) : Timestamp :=
  let full_slices_duration :=
    from_secs (wrap_u64 (tp_full_slices self * as_secs (tp_full_slice_duration self))) in
  ts_add UNIX_TIMESTAMP full_slices_duration.

Definition layout_full_slices (self : TimePartition) (current_time : Timestamp) : res Z :=
  match ts_sub current_time (full_slice_end_timestamp self) with
  | None => Err "Current time is before the complete time slice boundary"
  | Some recent_time =>
      if tp_min_recent_time self <? recent_time then
        Ok (as_secs (recent_time - tp_min_recent_time self)
            / as_secs (tp_full_slice_duration self))
      else Ok 0
  end.

(** The inner loop of [layout_partials]: [count] slices of one size. *)
Fixpoint push_slices (count : nat) (start_at : Timestamp) (recent_time : Duration) (i : Z)
  : list (Timestamp * Z) * Timestamp * Duration :=
  match count with
  | O => ([], start_at, recent_time)
  | S count =>
      let '(ps, s, r) :=
        push_slices count (ts_add start_at (slice_duration i))
          (recent_time - slice_duration i) i in
      ((start_at, i) :: ps, s, r)
  end.

(** The outer loop, for the sizes below [n], largest first. *)
Fixpoint layout_loop (n : nat) (start_at : Timestamp) (recent_time : Duration)
  : res (list (Timestamp * Z)) :=
  match n with
  | O => Ok []
  | S i =>
      let size := Z.of_nat i in
      let? residual := residual_duration_for_factor size in
      let slice_count :=
        if residual + slice_duration size <? recent_time then 2%nat
        else if slice_duration size <? recent_time then 1%nat
        else 0%nat in
      let '(ps, start_at, recent_time) :=
        push_slices slice_count start_at recent_time size in
      let? rest := layout_loop i start_at recent_time in
      Ok (ps ++ rest)
  end.

Definition layout_partials (self : TimePartition) (start_at current_time : Timestamp)
  : res (list (Timestamp * Z)) :=
  match ts_sub current_time start_at with
  | None => Err "Failed to calculate recent time for partials"
  | Some recent_time => layout_loop (Z.to_nat (tp_factor self)) start_at recent_time
  end.

Definition find_old_hash (old_partials : list PartialSlice) (start : Timestamp) (size : Z)
  : option bytes :=
  ps_hash <$> List.find (fun b => (ps_start b =? start) && (ps_size b =? size)) old_partials.

(** ** Operations over the partition and the store *)

Section time.
Context {St : Type} `{OpStore St}.

(** The loop of [update_full_slice_hashes], [n] slices from [end_]. *)
Fixpoint add_full_slices (n : nat) (full_slices_end_timestamp : Timestamp)
  : M (TimePartition * St) unit :=
  match n with
  | O => ret tt
  | S n =>
      let* st := get in
      let self := st.1 in
      let slice_end :=
        ts_add full_slices_end_timestamp (tp_full_slice_duration self) in
      let* r := on_snd (retrieve_op_hashes_in_time_slice (tp_sector_constraint self)
                          full_slices_end_timestamp slice_end) in
      let* hash := lift_res (combine_op_hashes r.1) in
      (if bool_decide (hash = []) then ret tt
       else on_snd (store_slice_hash (tp_sector_constraint self)
                      (tp_full_slices self) hash)) ;;*
      on_fst (modify (fun self =>
        set_full_slices (wrap_u64 (tp_full_slices self + 1)) self)) ;;*
      add_full_slices n slice_end
  end.

Definition update_full_slice_hashes (current_time : Timestamp)
  : M (TimePartition * St) unit :=
  let* st := get in
  let* new_full_slices_count := lift_res (layout_full_slices st.1 current_time) in
  add_full_slices (Z.to_nat new_full_slices_count) (full_slice_end_timestamp st.1).

(** The hash of one laid out slice: the old one if the slice did not change,
    else computed from the store, unless the slice ends before any op. *)
Definition partial_hash (arc : DhtArc) (old_partials : list PartialSlice)
  (earliest_timestamp : option Timestamp) (start : Timestamp) (size : Z)
  : M St bytes :=
  match find_old_hash old_partials start size with
  | Some h => ret h
  | None =>
      let end_ := ts_add start (slice_duration size) in
      match earliest_timestamp with
      | Some t =>
          if t <=? end_ then
            let* r := retrieve_op_hashes_in_time_slice arc start end_ in
            lift_res (combine_op_hashes r.1)
          else ret []
      | None => ret []
      end
  end.

Definition push_partial (p : PartialSlice) (self : TimePartition) : TimePartition :=
  set_partial_slices (tp_partial_slices self ++ [p]) self.

Definition update_partials (earliest_timestamp : option Timestamp)
  (current_time : Timestamp) : M (TimePartition * St) unit :=
  let* st := get in
  let self := st.1 in
  let* new_partials :=
    lift_res (layout_partials self (full_slice_end_timestamp self) current_time) in
  let old_partials := tp_partial_slices self in
  on_fst (modify (set_partial_slices [])) ;;*
  for_each new_partials (fun '(start, size) =>
    let* hash := on_snd (partial_hash (tp_sector_constraint self) old_partials
                           earliest_timestamp start size) in
    on_fst (modify (push_partial (MkPartialSlice start size hash)))).

Definition tp_update (current_time : Timestamp) : M (TimePartition * St) unit :=
  update_full_slice_hashes current_time ;;*
  let* st := get in
  let* earliest_timestamp :=
    on_snd (earliest_timestamp_in_arc (tp_sector_constraint st.1)) in
  update_partials earliest_timestamp current_time ;;*
  on_fst (modify (fun self =>
    match last (tp_partial_slices self) with
    | Some last_partial =>
        set_next_update_at (ts_add (ps_end last_partial) UNIT_TIME) self
    | None => self
    end)).

Definition tp_try_from_store (factor : Z) (current_time : Timestamp)
  (sector_constraint : DhtArc) : M St TimePartition :=
  if bool_decide (sector_constraint = Empty) then
    fail "Empty arc constraint is not valid"
  else
    let* pt := lift_res (tp_new factor sector_constraint) in
    let* stored := slice_hash_count sector_constraint in
    let* full_slices :=
      if stored =? 0 then
        let* earliest := earliest_timestamp_in_arc sector_constraint in
        let earliest_timestamp := default current_time earliest in
        let index :=
          (as_micros earliest_timestamp) mod 2 ^ 128 / tp_full_slice_duration pt in
        ret (wrap_u64 (saturating_sub index 1))
      else ret stored in
    let pt := set_full_slices full_slices pt in
    match ts_sub current_time (full_slice_end_timestamp pt) with
    | None => fail "Failed to calculate recent time"
    | Some recent_time =>
        if (0 <? tp_full_slices pt) && (recent_time <? tp_min_recent_time pt) then
          fail "Not enough recent time reserved"
        else fun st =>
          match tp_update current_time (pt, st) with
          | (Ok _, (pt, st)) => (Ok pt, st)
          | (Err e, (_, st)) => (Err e, st)
          | (Panic e, (_, st)) => (Panic e, st)
          end
    end.

(** The backwards search of the partial slice an op belongs to, on the
    reversed list. *)
Fixpoint inform_partials_rev (op : StoredOp) (rev_partials : list PartialSlice)
  : res (list PartialSlice) :=
  match rev_partials with
  | [] => Ok []
  | p :: ps =>
      if ps_start p <=? created_at op then
        let? h := combine_hashes (ps_hash p) (op_id op) in
        Ok (MkPartialSlice (ps_start p) (ps_size p) h :: ps)
      else
        let? ps := inform_partials_rev op ps in Ok (p :: ps)
  end.

Definition inform_partials (op : StoredOp) (partials : list PartialSlice)
  : res (list PartialSlice) :=
  let? ps := inform_partials_rev op (rev partials) in Ok (rev ps).

(** [created_at.as_micros() / (full_slice_duration.as_micros() as i64)] *)
Definition full_slice_index (self : TimePartition) (t : Timestamp) : res Z :=
  let d := wrap_i64 (tp_full_slice_duration self) in
  if d =? 0 then Panic "attempt to divide by zero"
  else Ok (wrap_u64 (Z.quot (as_micros t) d)).

Definition inform_op (full_slice_end : Timestamp) (op : StoredOp)
  : M (TimePartition * St) unit :=
  let* st := get in
  let self := st.1 in
  let arc := tp_sector_constraint self in
  if created_at op <? full_slice_end then
    let* slice_index := lift_res (full_slice_index self (created_at op)) in
    let* current_hash := on_snd (retrieve_slice_hash arc slice_index) in
    match current_hash with
    | Some hash =>
        let* hash := lift_res (combine_hashes hash (op_id op)) in
        on_snd (store_slice_hash arc slice_index hash)
    | None => on_snd (store_slice_hash arc slice_index (op_id op))
    end
  else
    match last (tp_partial_slices self) with
    | None => ret tt
    | Some last_partial =>
        if ps_end last_partial <=? created_at op then ret tt
        else
          let* ps := lift_res (inform_partials op (tp_partial_slices self)) in
          on_fst (modify (set_partial_slices ps))
    end.

Definition tp_inform_ops_stored (stored_ops : list StoredOp)
  : M (TimePartition * St) unit :=
  let* st := get in
  for_each stored_ops (inform_op (full_slice_end_timestamp st.1)).

Definition full_time_slice_top_hash (self : TimePartition) : M St bytes :=
  let* hashes := retrieve_slice_hashes (tp_sector_constraint self) in
  lift_res (combine_op_hashes hashes.*2).

Definition full_time_slice_hashes (self : TimePartition) : M St (list (Z * bytes)) :=
  retrieve_slice_hashes (tp_sector_constraint self).
End time.

(** ** Queries *)

Definition partial_slice_hashes (self : TimePartition) : list bytes :=
  map ps_hash (tp_partial_slices self).

Definition partial_slice_hash (self : TimePartition) (slice_index : Z) : res bytes :=
  match tp_partial_slices self !! Z.to_nat slice_index with
  | Some p => Ok (ps_hash p)
  | None => Err "Requested slice index is beyond the current partial slices"
  end.

Definition tp_time_bounds_for_full_slice_index (self : TimePartition) (slice_index : Z)
  : res (Timestamp * Timestamp) :=
  if tp_full_slices self <? slice_index then
    Err "Requested slice index is beyond the current full slices"
  else
    let start := ts_add UNIX_TIMESTAMP
      (from_secs (wrap_u64 (slice_index * as_secs (tp_full_slice_duration self)))) in
    Ok (start, ts_add start (tp_full_slice_duration self)).

Definition tp_time_bounds_for_partial_slice_index (self : TimePartition)
  (slice_index : Z) : res (Timestamp * Timestamp) :=
  if Z.of_nat (length (tp_partial_slices self)) <? slice_index then
    Err "Requested slice index is beyond the current partial slices"
  else
    match tp_partial_slices self !! Z.to_nat slice_index with
    | Some partial => Ok (ps_start partial, ps_end partial)
    | None => Panic "index out of bounds"
    end.

(** How time is laid out into slices: exact durations within the integer
    ranges, the number of full slices as a function of the clock alone, and the
    shape of the partial slices. *)
(** ** Exact durations *)

(** The factors for which the durations fit in the integers of the code. *)
Definition factor_ok (f : Z) : Prop := 1 <= f <= 53.

(** 2^i times the unit, and the sum of the slices of sizes 0 to i - 1. *)
Definition units (i : Z) : Z := 2 ^ i * UNIT_TIME.
Definition residual (i : Z) : Z := (2 ^ i - 1) * UNIT_TIME.

Lemma UNIT_TIME_val : UNIT_TIME = 900000000. Proof. done. Qed.

Lemma pow2_53 i : 0 <= i <= 53 -> 1 <= 2 ^ i <= 9007199254740992.
Proof.
  intros Hi. pose proof (Z.pow_le_mono_r 2 0 i eq_refl).
  pose proof (Z.pow_le_mono_r 2 i 53 eq_refl). lia.
Qed.

Lemma slice_duration_units i : 0 <= i <= 53 -> slice_duration i = units i.
Proof.
  intros Hi. pose proof (pow2_53 i Hi). unfold slice_duration, units.
  rewrite (Z.mod_small i) by lia. rewrite Z.shiftl_1_l.
  rewrite (wrap_u64_id (2 ^ i)) by (unfold is_u64; lia).
  change (as_secs UNIT_TIME) with 900. rewrite wrap_u64_id by (unfold is_u64; lia).
  unfold from_secs, MICROS. rewrite UNIT_TIME_val. lia.
Qed.

Lemma residual_fold (n : nat) : Z.of_nat n <= 53 ->
  foldl (fun sum i => Z.lor sum (wrap_u64 (Z.shiftl 1 i))) 1 (zrange 1 (Z.of_nat n + 1))
  = 2 ^ (Z.of_nat n + 1) - 1.
Proof.
  unfold zrange. induction n as [|n IH]; intros Hn; [done|].
  replace (Z.of_nat (S n) + 1 - 1) with (Z.of_nat n + 1 - 1 + 1) by lia.
  rewrite seqZ_app by lia. rewrite foldl_app, IH by lia.
  replace (1 + (Z.of_nat n + 1 - 1)) with (Z.of_nat n + 1) by lia.
  change (seqZ (Z.of_nat n + 1) 1) with [Z.of_nat 0 + (Z.of_nat n + 1)]. cbn [foldl].
  rewrite Z.add_0_l, Z.shiftl_1_l. set (k := Z.of_nat n + 1).
  pose proof (pow2_53 k). rewrite wrap_u64_id by (unfold is_u64; lia).
  replace (Z.of_nat (S n) + 1) with (Z.succ k) by lia.
  rewrite Z.pow_succ_r by lia.
  rewrite <- Z.add_nocarry_lor; [lia|].
  replace (2 ^ k - 1) with (Z.ones k) by (rewrite Z.ones_equiv; lia).
  rewrite Z.land_comm, Z.land_ones by lia. by apply Z_mod_same_full.
Qed.

Lemma residual_duration_ok i : 0 <= i <= 53 ->
  residual_duration_for_factor i = Ok (residual (i + 1)).
Proof.
  intros Hi. unfold residual_duration_for_factor.
  destruct (Z.leb_spec 54 i); [lia|].
  replace i with (Z.of_nat (Z.to_nat i)) by lia. rewrite residual_fold by lia.
  rewrite Z2Nat.id by lia. change (as_secs UNIT_TIME) with 900.
  assert (1 <= 2 ^ (i + 1) <= 2 ^ 54).
  { pose proof (Z.pow_le_mono_r 2 0 (i + 1) eq_refl).
    pose proof (Z.pow_le_mono_r 2 (i + 1) 54 eq_refl). lia. }
  rewrite wrap_u64_id by (unfold is_u64; lia). f_equal.
  unfold from_secs, residual, MICROS. rewrite UNIT_TIME_val. lia.
Qed.

Lemma units_S i : 0 <= i -> units (i + 1) = 2 * units i.
Proof. intros Hi. unfold units. rewrite Z.pow_add_r by lia. lia. Qed.

Lemma residual_units i : 0 <= i -> residual (i + 1) = residual i + units i.
Proof. intros Hi. unfold units, residual. rewrite Z.pow_add_r by lia. lia. Qed.

Lemma units_residual i : units i = residual i + UNIT_TIME.
Proof. unfold units, residual. lia. Qed.

Lemma units_pos i : 0 <= i -> UNIT_TIME <= units i.
Proof.
  intros Hi. unfold units. pose proof (Z.pow_pos_nonneg 2 i eq_refl Hi).
  rewrite UNIT_TIME_val. lia.
Qed.

Lemma residual_nonneg i : 0 <= i -> 0 <= residual i.
Proof. intros Hi. pose proof (units_residual i). pose proof (units_pos i Hi). lia. Qed.

(** ** The invariant of a partition *)

(** The slices follow each other without gaps, from [a] to [b]. *)
Fixpoint contiguous (a : Timestamp) (l : list (Timestamp * Z)) (b : Timestamp) : Prop :=
  match l with
  | [] => a = b
  | (start, size) :: l => start = a /\ contiguous (a + units size) l b
  end.

Definition layout_of (tp : TimePartition) : list (Timestamp * Z) :=
  map (fun p => (ps_start p, ps_size p)) (tp_partial_slices tp).

(** The boundary between history and recent time. *)
Definition full_end (tp : TimePartition) : Timestamp :=
  tp_full_slices tp * units (tp_factor tp).

Record tp_wf (tp : TimePartition) : Prop := {
  wf_factor : factor_ok (tp_factor tp);
  wf_duration : tp_full_slice_duration tp = units (tp_factor tp);
  wf_min_recent : tp_min_recent_time tp = residual (tp_factor tp);
  wf_full_slices : 0 <= tp_full_slices tp /\ full_end tp < 2 ^ 62;
  wf_sizes : Forall (fun p => 0 <= ps_size p < tp_factor tp) (tp_partial_slices tp);
  wf_contiguous : exists b, contiguous (full_end tp) (layout_of tp) b /\ b < 2 ^ 62;
  wf_constraint : tp_sector_constraint tp <> Empty;
}.

Lemma tp_new_wf f arc : factor_ok f -> arc <> Empty ->
  exists tp, tp_new f arc = Ok tp /\ tp_wf tp /\ tp_factor tp = f /\
    tp_sector_constraint tp = arc /\ tp_full_slices tp = 0 /\ tp_partial_slices tp = [].
Proof.
  intros Hf Ha. unfold factor_ok in Hf. unfold tp_new.
  rewrite Z.mod_small by lia. rewrite residual_duration_ok by lia.
  replace (f - 1 + 1) with f by lia. eexists. split; [reflexivity|].
  rewrite slice_duration_units by lia.
  split; [split|]; simpl; try done. exists 0. done.
Qed.

Lemma full_slice_end_exact tp : tp_wf tp -> full_slice_end_timestamp tp = full_end tp.
Proof.
  intros W. unfold full_slice_end_timestamp. rewrite (wf_duration tp W).
  pose proof (wf_full_slices tp W) as [Hn He]. pose proof (wf_factor tp W) as Hf.
  unfold factor_ok in Hf. unfold full_end in *.
  assert (units (tp_factor tp) = 2 ^ tp_factor tp * 900 * MICROS) as Hu
    by (unfold units, MICROS; rewrite UNIT_TIME_val; lia).
  pose proof (pow2_53 (tp_factor tp)).
  assert (as_secs (units (tp_factor tp)) = 2 ^ tp_factor tp * 900) as Hs
    by (rewrite Hu; apply as_secs_from_secs).
  rewrite Hs. rewrite Hu in He. unfold MICROS in *.
  rewrite wrap_u64_id by (unfold is_u64; nia).
  rewrite ts_add_exact; unfold from_secs, UNIX_TIMESTAMP, MICROS; [rewrite Hu; unfold MICROS; lia|lia|nia|nia].
Qed.

(** ** Full slices *)

(** The number of full slices at a time, whatever the history. *)
Definition full_count (f : Z) (now : Timestamp) : Z :=
  if residual f <? now then (now - residual f) / units f else 0.

(** The slices allocated so far leave the reserved recent time. *)
Definition caught_up (tp : TimePartition) (now : Timestamp) : Prop :=
  tp_full_slices tp = 0 \/ full_end tp + residual (tp_factor tp) <= now.

Lemma full_count_bounds f now : factor_ok f -> 0 <= now ->
  0 <= full_count f now /\
  full_count f now * units f <= now /\
  (full_count f now = 0 \/ full_count f now * units f + residual f <= now) /\
  now <= full_count f now * units f + residual f + units f.
Proof.
  unfold factor_ok. intros Hf Hn. unfold full_count.
  pose proof (units_pos f). pose proof (units_residual f). pose proof (residual_nonneg f).
  rewrite UNIT_TIME_val in *.
  destruct (Z.ltb_spec (residual f) now); [|lia].
  pose proof (Z.mul_div_le (now - residual f) (units f)).
  pose proof (Z.mul_succ_div_gt (now - residual f) (units f)).
  pose proof (Z.div_pos (now - residual f) (units f)). lia.
Qed.

Lemma full_count_step f n now : factor_ok f -> 0 <= n ->
  n = 0 \/ n * units f + residual f <= now -> residual f < now - n * units f ->
  n + (now - n * units f - residual f) / units f = full_count f now.
Proof.
  unfold factor_ok. intros Hf Hn Hc Hr. unfold full_count.
  pose proof (units_pos f). rewrite UNIT_TIME_val in *.
  destruct (Z.ltb_spec (residual f) now); [|nia].
  replace (now - n * units f - residual f) with (now - residual f + (- n) * units f) by lia.
  rewrite Z.div_add by lia. lia.
Qed.

Lemma as_secs_div a f : factor_ok f ->
  as_secs a / as_secs (units f) = a / units f.
Proof.
  unfold factor_ok. intros Hf. unfold as_secs.
  assert (units f = 2 ^ f * 900 * MICROS) as Hu
    by (unfold units, MICROS; rewrite UNIT_TIME_val; lia).
  pose proof (pow2_53 f).
  rewrite Hu at 1. rewrite Z.div_mul by done. rewrite Hu, Z.div_div by (unfold MICROS; lia).
  by rewrite (Z.mul_comm MICROS).
Qed.

Lemma layout_full_slices_ok tp now : tp_wf tp -> ts_ok now -> caught_up tp now ->
  layout_full_slices tp now = Ok (full_count (tp_factor tp) now - tp_full_slices tp) /\
  tp_full_slices tp <= full_count (tp_factor tp) now.
Proof.
  intros W [Hn Hn'] Hc. unfold layout_full_slices. rewrite full_slice_end_exact by done.
  pose proof (wf_factor tp W) as Hf. pose proof (wf_full_slices tp W) as [Hs He].
  rewrite (wf_duration tp W), (wf_min_recent tp W).
  assert (0 <= tp_factor tp) as Hf0 by (unfold factor_ok in Hf; lia).
  pose proof (residual_nonneg _ Hf0). pose proof (units_pos _ Hf0).
  pose proof (units_residual (tp_factor tp)). rewrite UNIT_TIME_val in *.
  unfold caught_up, full_end in *.
  rewrite ts_sub_exact by nia.
  set (f := tp_factor tp) in *. set (n := tp_full_slices tp) in *.
  destruct (Z.ltb_spec (residual f) (now - n * units f)) as [Hr|Hr].
  - rewrite as_secs_div by done. rewrite <- (full_count_step f n now) by done.
    pose proof (Z.div_pos (now - n * units f - residual f) (units f)).
    split; [f_equal; lia|lia].
  - assert (full_count f now = n) as ->; [|split; [f_equal; lia|lia]].
    destruct Hc as [Hc|Hc].
    + unfold full_count. destruct (Z.ltb_spec (residual f) now); lia.
    + assert (now = n * units f + residual f) as -> by lia.
      unfold full_count. destruct (Z.ltb_spec (residual f) (n * units f + residual f)).
      * rewrite Z.add_simpl_r, Z.div_mul by lia. done.
      * nia.
Qed.

(** ** Partial slices *)

(** Sizes go down, with at most two slices of a size. *)
Fixpoint descending (bound : Z) (l : list (Timestamp * Z)) : Prop :=
  match l with
  | [] => True
  | (_, i) :: l => 0 <= i < bound /\
      (descending i l \/
       match l with
       | (_, j) :: l => j = i /\ descending i l
       | [] => True
       end)
  end.

Lemma descending_mono b b' l : b <= b' -> descending b l -> descending b' l.
Proof. destruct l as [|[s i] l]; simpl; [done|]. intros Hb [Hi H]. split; [lia|done]. Qed.

Lemma contiguous_app a l b k c : contiguous a l b -> contiguous b k c -> contiguous a (l ++ k) c.
Proof.
  revert a. induction l as [|[s i] l IH]; intros a; simpl; [by intros ->|].
  intros [-> Hl] Hk. split; [done|]. by apply IH.
Qed.

Lemma push_slices_ok count start recent i : 0 <= i <= 53 -> 0 <= start ->
  Z.of_nat count * units i <= recent -> start + recent < 2 ^ 62 ->
  exists ps, push_slices count start recent i
    = (ps, start + Z.of_nat count * units i, recent - Z.of_nat count * units i) /\
    contiguous start ps (start + Z.of_nat count * units i) /\
    map snd ps = replicate count i.
Proof.
  intros Hi. revert start recent. induction count as [|count IH]; intros start recent Hs Hc Hb.
  - exists []. cbn [push_slices]. rewrite Z.mul_0_l, Z.add_0_r, Z.sub_0_r. done.
  - cbn [push_slices]. rewrite slice_duration_units by done.
    pose proof (units_pos i). rewrite UNIT_TIME_val in *.
    rewrite ts_add_exact by nia.
    destruct (IH (start + units i) (recent - units i)) as (ps & -> & Hps & Hm); [nia..|].
    exists ((start, i) :: ps). split; [f_equal; [f_equal|]; lia|]. simpl. split.
    + split; [done|]. by replace (start + Z.of_nat (S count) * units i)
        with (start + units i + Z.of_nat count * units i) by lia.
    + by rewrite Hm.
Qed.

Lemma descending_push count i ps rest : (count <= 2)%nat -> 0 <= i ->
  map snd ps = replicate count i -> descending i rest -> descending (i + 1) (ps ++ rest).
Proof.
  intros Hc Hi Hm Hr. destruct count as [|[|[|?]]]; [| | |lia].
  - apply map_eq_nil in Hm as ->. by apply (descending_mono i); [lia|].
  - destruct ps as [|[s j] [|]]; simplify_eq/=. split; [lia|by left].
  - destruct ps as [|[s j] [|[s' j'] [|]]]; simplify_eq/=. split; [lia|by right].
Qed.

Lemma layout_loop_ok (n : nat) start recent : Z.of_nat n <= 53 -> 0 <= start ->
  0 <= recent <= 2 * residual (Z.of_nat n) + UNIT_TIME -> start + recent < 2 ^ 62 ->
  exists l rest, layout_loop n start recent = Ok l /\
    contiguous start l (start + recent - rest) /\
    descending (Z.of_nat n) l /\
    0 <= rest <= UNIT_TIME /\ (0 < recent -> 0 < rest).
Proof.
  revert start recent. induction n as [|n IH]; intros start recent Hn Hs Hr Hb.
  - exists [], recent. simpl. unfold residual in Hr. simpl in Hr.
    split_and!; try done; lia.
  - cbn [layout_loop]. rewrite residual_duration_ok by lia. cbn [mbind res_bind].
    rewrite slice_duration_units by lia.
    replace (Z.of_nat (S n)) with (Z.of_nat n + 1) in * by lia.
    rewrite residual_units in * by lia. set (i := Z.of_nat n) in *.
    assert (0 <= i) as Hi by lia.
    pose proof (units_residual i). pose proof (residual_nonneg i Hi).
    pose proof (units_pos i Hi). rewrite UNIT_TIME_val in *.
    set (count := if residual i + units i + units i <? recent then 2%nat
                  else if units i <? recent then 1%nat else 0%nat).
    assert ((count <= 2)%nat /\ Z.of_nat count * units i <= recent /\
      recent - Z.of_nat count * units i <= 2 * residual i + 900000000 /\
      (0 < recent -> 0 < recent - Z.of_nat count * units i)) as (Hc1 & Hc2 & Hc3 & Hc4).
    { unfold count. destruct (Z.ltb_spec (residual i + units i + units i) recent);
        [simpl; lia|]. destruct (Z.ltb_spec (units i) recent); simpl; lia. }
    destruct (push_slices_ok count start recent i) as (ps & -> & Hps & Hm); [lia..|].
    destruct (IH (start + Z.of_nat count * units i) (recent - Z.of_nat count * units i))
      as (l & rest & -> & Hl & Hd & Hrest & Hpos); [lia|nia|lia|lia|].
    exists (ps ++ l), rest. split; [done|]. split_and!; [|by apply (descending_push count)|lia|lia|lia].
    apply (contiguous_app _ _ _ _ _ Hps).
    by replace (start + recent - rest) with (start + Z.of_nat count * units i +
      (recent - Z.of_nat count * units i) - rest) by lia.
Qed.

(** The slices laid out from the end of the full slices follow each other
    without gaps up to the current time, except for a remainder of at most one
    unit of time, which is positive unless no recent time is left; sizes go
    down from below the factor, with at most two slices of a size. *)
Lemma layout_partials_ok tp now :
  tp_wf tp -> ts_ok now -> tp_full_slices tp = full_count (tp_factor tp) now ->
  exists l leftover,
    layout_partials tp (full_slice_end_timestamp tp) now = Ok l /\
    contiguous (full_end tp) l (now - leftover) /\
    descending (tp_factor tp) l /\
    0 <= leftover <= UNIT_TIME /\ (full_end tp < now -> 0 < leftover).
Proof.
  intros W [Hn Hn'] Hfull. rewrite full_slice_end_exact by done. unfold layout_partials.
  pose proof (wf_factor tp W) as Hf. assert (Hf' := Hf). unfold factor_ok in Hf'.
  destruct (full_count_bounds _ now Hf Hn) as (H1 & H2 & H3 & H4).
  pose proof (units_residual (tp_factor tp)). rewrite UNIT_TIME_val in *.
  assert (0 <= full_end tp <= now) as He
    by (unfold full_end; rewrite Hfull; pose proof (units_pos (tp_factor tp)); nia).
  rewrite ts_sub_exact by lia. rewrite <- Hfull in *. fold (full_end tp) in *.
  destruct (layout_loop_ok (Z.to_nat (tp_factor tp)) (full_end tp) (now - full_end tp))
    as (l & rest & E & Hl & Hd & Hr1 & Hr2);
    rewrite ?Z2Nat.id, ?UNIT_TIME_val in * by lia; [lia..|].
  exists l, rest. split; [done|].
  replace (full_end tp + (now - full_end tp) - rest) with (now - rest) in Hl by lia.
  split_and!; [done|done|lia|lia|lia].
Qed.

(** The partial slices at a time, whatever the history. *)
Definition plan (f : Z) (now : Timestamp) : list (Timestamp * Z) :=
  let start := full_count f now * units f in
  match layout_loop (Z.to_nat f) start (now - start) with Ok l => l | _ => [] end.

(** The partition is as laid out at the given time. *)
Definition up_to_date (tp : TimePartition) (now : Timestamp) : Prop :=
  tp_full_slices tp = full_count (tp_factor tp) now /\
  layout_of tp = plan (tp_factor tp) now.

Lemma up_to_date_caught_up tp now now' : tp_wf tp -> ts_ok now -> now <= now' ->
  up_to_date tp now -> caught_up tp now'.
Proof.
  intros W [Hn _] Hle [Hf _]. unfold caught_up, full_end. rewrite Hf.
  destruct (full_count_bounds _ now (wf_factor tp W) Hn) as (_ & _ & [->|?] & _); [by left|].
  right. lia.
Qed.

Lemma layout_partials_plan tp now : tp_wf tp -> ts_ok now ->
  tp_full_slices tp = full_count (tp_factor tp) now ->
  layout_partials tp (full_slice_end_timestamp tp) now = Ok (plan (tp_factor tp) now).
Proof.
  intros W Hn Hfull. destruct (layout_partials_ok tp now W Hn Hfull) as (l & r & E & _).
  rewrite E. f_equal. revert E. rewrite full_slice_end_exact by done.
  unfold layout_partials, plan. rewrite <- Hfull. fold (full_end tp).
  destruct Hn as [Hn Hn'].
  destruct (full_count_bounds _ now (wf_factor tp W) Hn) as (H1 & H2 & _).
  pose proof (wf_factor tp W) as Hf. unfold factor_ok in Hf.
  pose proof (units_pos (tp_factor tp)). rewrite UNIT_TIME_val in *.
  rewrite <- Hfull in *. fold (full_end tp) in *.
  rewrite ts_sub_exact by (unfold full_end in *; nia). by intros ->.
Qed.
