(* ===== verification/TimeCoherence.v ===== *)
(** The combined hashes a time partition keeps, in memory and in the store,
    are at every moment those of the ops held: after construction, after an
    update at a later time, and after incremental notice of newly stored ops. *)

From S2P Require Import Prelude Arc Timestamp Id Combine OpStore.
From S2P Require Import TimePartition.

Section coherence.
Context {St : Type} `{OpStoreSpec St}.

(** ** Coherence *)

(** The combined hash of the ops in full slice [i]. *)
Definition full_hash (f : Z) (arc : DhtArc) (ops : list StoredOp) (i : Z) : bytes :=
  slice_hash arc (i * units f) ((i + 1) * units f) ops.

(** The stored slice hashes are those of the first [n] full slices, the empty
    ones left out. *)
Definition slices_ok (f : Z) (arc : DhtArc) (n : Z) (ops : list StoredOp)
  (sl : Z -> option bytes) : Prop :=
  forall i, sl i =
    if decide (0 <= i < n /\ full_hash f arc ops i <> []) then Some (full_hash f arc ops i)
    else None.

Definition partial_ok (arc : DhtArc) (ops : list StoredOp) (p : PartialSlice) : Prop :=
  ps_hash p = slice_hash arc (ps_start p) (ps_start p + units (ps_size p)) ops.

Record coherent (tp : TimePartition) (ops : list StoredOp) (sl : Z -> option bytes)
  : Prop := {
  coh_full : slices_ok (tp_factor tp) (tp_sector_constraint tp) (tp_full_slices tp) ops sl;
  coh_partial : Forall (partial_ok (tp_sector_constraint tp) ops) (tp_partial_slices tp);
}.

(** Only slice hashes of [arc] changed in the store. *)
Record frame (arc : DhtArc) (s s' : St) : Prop := {
  frame_wf : st_wf s';
  frame_ops : st_ops s' = st_ops s;
  frame_size : st_size s' = st_size s;
  frame_other : forall arc' i, arc' <> arc -> st_slice s' arc' i = st_slice s arc' i;
}.

Lemma frame_refl arc s : st_wf s -> frame arc s s.
Proof. by split. Qed.

Lemma frame_trans arc s1 s2 s3 : frame arc s1 s2 -> frame arc s2 s3 -> frame arc s1 s3.
Proof.
  intros [W2 O2 Z2 S2] [W3 O3 Z3 S3]. split; [done|congruence..|].
  intros arc' i Hne. by rewrite S3, S2.
Qed.

(** The same partition, but for the hashes and the counts. *)
Definition same_config (tp tp' : TimePartition) : Prop :=
  tp_factor tp' = tp_factor tp /\
  tp_full_slice_duration tp' = tp_full_slice_duration tp /\
  tp_min_recent_time tp' = tp_min_recent_time tp /\
  tp_sector_constraint tp' = tp_sector_constraint tp.

Lemma retrieve_slice_ok s arc a b : st_wf s ->
  exists r, retrieve_op_hashes_in_time_slice arc a b s = (Ok r, s) /\
    combine_op_hashes r.1 = Ok (slice_hash arc a b (st_ops s)).
Proof.
  intros W. destruct (retrieve_op_hashes_law s arc a b W) as (ids & used & E & Hp & _).
  exists (ids, used). split; [done|]. simpl. apply combine_slice; [|done].
  by apply st_ops_wf.
Qed.

(** ** Full slices *)

Lemma slices_ok_step f arc n ops sl sl' :
  0 <= n -> slices_ok f arc n ops sl ->
  (forall i, sl' i = if decide (i = n /\ full_hash f arc ops n <> [])
                     then Some (full_hash f arc ops n) else sl i) ->
  slices_ok f arc (n + 1) ops sl'.
Proof.
  intros Hn Hs Hsl i. rewrite Hsl, Hs.
  destruct (decide (full_hash f arc ops i = [])) as [He|He].
  - rewrite (decide_False (P := 0 <= i < n /\ _)) by tauto.
    rewrite (decide_False (P := 0 <= i < n + 1 /\ _)) by tauto.
    rewrite decide_False; [done|]. intros [-> ?]. done.
  - destruct (decide (i = n)) as [->|Hne].
    + rewrite !decide_True; [done|..]; split; (done || lia).
    + rewrite (decide_False (P := i = n /\ _)) by tauto.
      destruct (decide (0 <= i < n)).
      * rewrite !decide_True; [done|..]; split; (done || lia).
      * rewrite !decide_False; [done|..]; intros [? _]; lia.
Qed.

Lemma add_full_slices_ok n tp s :
  tp_wf tp -> st_wf s ->
  (tp_full_slices tp + Z.of_nat n) * units (tp_factor tp) < 2 ^ 62 ->
  slices_ok (tp_factor tp) (tp_sector_constraint tp) (tp_full_slices tp) (st_ops s)
    (st_slice s (tp_sector_constraint tp)) ->
  exists s',
    add_full_slices n (full_end tp) (tp, s)
      = (Ok tt, (set_full_slices (tp_full_slices tp + Z.of_nat n) tp, s')) /\
    frame (tp_sector_constraint tp) s s' /\
    slices_ok (tp_factor tp) (tp_sector_constraint tp)
      (tp_full_slices tp + Z.of_nat n) (st_ops s') (st_slice s' (tp_sector_constraint tp)).
Proof.
  intros W. pose proof (wf_full_slices tp W) as [Hn0 _].
  pose proof (wf_duration tp W) as Hdur. pose proof (wf_factor tp W) as Hf.
  clear W. unfold full_end, factor_ok in *. revert tp s Hn0 Hdur Hf.
  induction n as [|n IH]; intros tp s Hn0 Hdur Hf Ws Hb Hs.
  - exists s. simpl. rewrite Z.add_0_r. split_and!; [by destruct tp|by apply frame_refl|done].
  - set (f := tp_factor tp) in *. set (arc := tp_sector_constraint tp) in *.
    set (k := tp_full_slices tp) in *.
    assert (0 <= f) as Hf0 by lia. pose proof (units_pos f Hf0). rewrite UNIT_TIME_val in *.
    assert (ts_add (k * units f) (units f) = (k + 1) * units f) as Hend
      by (rewrite ts_add_exact; nia).
    destruct (retrieve_slice_ok s arc (k * units f) ((k + 1) * units f) Ws) as (r & Er & Ec).
    fold (full_hash f arc (st_ops s) k) in Ec.
    cbn [add_full_slices]. unfold bind at 1, get. cbn [fst snd].
    fold arc k. rewrite Hdur, Hend.
    unfold bind at 1, on_snd at 1. cbn [fst snd]. rewrite Er.
    unfold bind at 1, lift_res at 1. rewrite Ec.
    assert (exists s1,
      (if bool_decide (full_hash f arc (st_ops s) k = []) then ret tt
       else on_snd (store_slice_hash arc k (full_hash f arc (st_ops s) k)))
        (tp, s) = (Ok tt, (tp, s1)) /\ frame arc s s1 /\
      forall i, st_slice s1 arc i =
        if decide (i = k /\ full_hash f arc (st_ops s) k <> [])
        then Some (full_hash f arc (st_ops s) k) else st_slice s arc i)
      as (s1 & E1 & F1 & S1).
    { case_bool_decide as He.
      - exists s. split_and!; [done|by apply frame_refl|]. intros i.
        by rewrite decide_False by tauto.
      - destruct (store_slice_hash_law s arc k _ Ws He) as (s1 & E1 & W1 & O1 & Z1 & S1); [nia|].
        exists s1. unfold on_snd. cbn [fst snd]. rewrite E1. split_and!; [done| |].
        + split; [done..|]. intros arc' i Hne. rewrite S1. by rewrite decide_False by tauto.
        + intros i. rewrite S1. destruct (decide (i = k)) as [->|Hne].
          * by rewrite !decide_True.
          * by rewrite !decide_False by tauto. }
    unfold bind at 1. rewrite E1. unfold bind at 1, on_fst, modify. cbn [fst snd].
    fold k. rewrite wrap_u64_id by (unfold is_u64; nia).
    destruct (IH (set_full_slices (k + 1) tp) s1) as (s2 & E2 & F2 & S2).
    + simpl. lia.
    + done.
    + done.
    + apply F1.
    + simpl. fold f. replace (k + 1 + Z.of_nat n) with (k + Z.of_nat (S n)) by lia. done.
    + simpl. fold f arc. rewrite (frame_ops _ _ _ F1). by apply (slices_ok_step f arc k (st_ops s) (st_slice s arc)).
    + simpl in E2, S2. fold f arc in E2, S2. exists s2.
      replace (k + 1 + Z.of_nat n) with (k + Z.of_nat (S n)) in E2, S2 by lia.
      split_and!; [done|by apply (frame_trans _ _ s1)|done].
Qed.

(** ** Partial slices *)

(** What the store says of the earliest op of the arc. *)
Definition earliest_ok (arc : DhtArc) (ops : list StoredOp) (t : option Timestamp) : Prop :=
  forall op, op ∈ ops -> in_constraint arc op ->
    match t with Some t => t <= created_at op | None => False end.

Lemma earliest_query_ok s arc : st_wf s ->
  exists t, earliest_timestamp_in_arc arc s = (Ok t, s) /\ earliest_ok arc (st_ops s) t
    /\ match t with Some t => ts_ok t | None => True end.
Proof.
  intros W. destruct (earliest_law s arc W) as (t & E & Ht). exists t.
  split; [done|]. unfold earliest_ok. destruct t as [t|].
  - destruct Ht as [(op & Hop & _ & <-) Hmin]. split; [done|].
    pose proof (st_ops_wf s W) as Hw. by eapply Forall_forall in Hw as (_ & _ & ?).
  - split; [|done]. intros op Hop Hin. by apply (Ht op).
Qed.

Lemma no_ops_before arc ops t a b : earliest_ok arc ops t ->
  match t with Some t => b <= t | None => True end -> slice_hash arc a b ops = [].
Proof.
  intros He Ht. unfold slice_hash. rewrite slice_ids_nil; [done|].
  intros op Hop [Hc Hr]. specialize (He op Hop Hc). destruct t; [lia|done].
Qed.

Lemma find_old_hash_ok arc ops old start size h :
  Forall (partial_ok arc ops) old -> find_old_hash old start size = Some h ->
  h = slice_hash arc start (start + units size) ops.
Proof.
  intros Hold. unfold find_old_hash. destruct (List.find _ old) as [p|] eqn:E; [|done].
  intros [= <-]. apply find_some in E as [Hin Hb].
  apply andb_true_iff in Hb as [Hb1 Hb2]. apply Z.eqb_eq in Hb1, Hb2. subst.
  apply list_elem_of_In in Hin. by eapply Forall_forall in Hold.
Qed.

Lemma partial_hash_ok arc old t start size s :
  st_wf s -> 0 <= size <= 53 -> 0 <= start -> start + units size < 2 ^ 63 ->
  Forall (partial_ok arc (st_ops s)) old -> earliest_ok arc (st_ops s) t ->
  partial_hash arc old t start size s
    = (Ok (slice_hash arc start (start + units size) (st_ops s)), s).
Proof.
  intros W Hsz Hst Hb Hold He. unfold partial_hash.
  destruct (find_old_hash old start size) as [h|] eqn:E.
  { unfold ret. by rewrite (find_old_hash_ok _ _ _ _ _ _ Hold E). }
  pose proof (units_pos size) as Hu. rewrite UNIT_TIME_val in Hu.
  rewrite slice_duration_units, ts_add_exact by (done || lia).
  destruct t as [t|].
  - destruct (Z.leb_spec t (start + units size)).
    + destruct (retrieve_slice_ok s arc start (start + units size) W) as (r & Er & Ec).
      unfold bind. rewrite Er. unfold lift_res. by rewrite Ec.
    + unfold ret. by rewrite (no_ops_before arc (st_ops s) (Some t)) by (done || lia).
  - unfold ret. by rewrite (no_ops_before arc (st_ops s) None).
Qed.

(** The slices with the hashes of the ops. *)
Definition hashed (arc : DhtArc) (ops : list StoredOp) (l : list (Timestamp * Z))
  : list PartialSlice :=
  map (fun '(start, size) =>
    MkPartialSlice start size (slice_hash arc start (start + units size) ops)) l.

Lemma hashed_ok arc ops l : Forall (partial_ok arc ops) (hashed arc ops l).
Proof. unfold hashed. apply Forall_map, Forall_true. by intros [start size]. Qed.

Lemma hashed_layout arc ops l :
  map (fun p => (ps_start p, ps_size p)) (hashed arc ops l) = l.
Proof. induction l as [|[start size] l IH]; simpl; [done|]. by rewrite IH. Qed.

Lemma contiguous_bounds a l b : contiguous a l b ->
  Forall (fun '(_, size) => 0 <= size) l -> a <= b.
Proof.
  revert a. induction l as [|[st size] l IH]; intros a; simpl.
  - intros ->. lia.
  - intros [_ Hc] Hl. apply Forall_cons in Hl as [Hs Hl].
    specialize (IH _ Hc Hl). pose proof (units_pos size Hs). rewrite UNIT_TIME_val in *. lia.
Qed.

Lemma push_partials_ok arc old t l tp s a b :
  st_wf s -> tp_sector_constraint tp = arc -> 0 <= a -> b < 2 ^ 63 ->
  contiguous a l b -> Forall (fun '(_, size) => 0 <= size <= 53) l ->
  Forall (partial_ok arc (st_ops s)) old -> earliest_ok arc (st_ops s) t ->
  for_each l (fun '(start, size) =>
    let* hash := on_snd (partial_hash arc old t start size) in
    on_fst (modify (push_partial (MkPartialSlice start size hash)))) (tp, s)
  = (Ok tt, (set_partial_slices (tp_partial_slices tp ++ hashed arc (st_ops s) l) tp, s)).
Proof.
  intros W Harc Ha Hb Hc Hl Hold He. revert tp a Harc Ha Hc.
  induction Hl as [|[start size] l Hsz Hl IH]; intros tp a Harc Ha Hc.
  - simpl. rewrite app_nil_r. by destruct tp.
  - destruct Hc as [-> Hc].
    pose proof (units_pos size) as Hu. rewrite UNIT_TIME_val in Hu.
    assert (a + units size <= b) as Hle.
    { apply (contiguous_bounds _ _ _ Hc). eapply Forall_impl; [exact Hl|].
      intros [? ?]. lia. }
    cbn [for_each]. unfold bind at 1 2, on_snd at 1. cbn [fst snd].
    rewrite partial_hash_ok by (done || lia).
    unfold on_fst at 1, modify at 1. cbn [fst snd].
    rewrite (IH _ (a + units size)) by (done || lia).
    unfold push_partial, set_partial_slices. simpl. by rewrite <- app_assoc.
Qed.

Lemma descending_sizes bound l : descending bound l ->
  Forall (fun '(_, size) => 0 <= size < bound) l.
Proof.
  revert bound. induction l as [l IH] using (induction_ltof1 _ (@length _)); unfold ltof in IH.
  intros bound. destruct l as [|[s i] l]; [by constructor|]. simpl.
  intros [Hi Hd]. constructor; [done|]. destruct Hd as [Hd|Hd].
  - eapply Forall_impl; [apply (IH l) with (bound := i); [simpl; lia|done]|].
    intros [? ?]. lia.
  - destruct l as [|[s' j] l]; [by constructor|]. destruct Hd as [-> Hd].
    constructor; [done|]. eapply Forall_impl;
      [apply (IH l) with (bound := i); [simpl; lia|done]|]. intros [? ?]. lia.
Qed.

(** ** Update *)

Lemma tp_wf_set_full n tp : tp_wf tp -> 0 <= n -> n * units (tp_factor tp) < 2 ^ 62 ->
  tp_wf (set_partial_slices [] (set_full_slices n tp)).
Proof.
  intros W Hn Hb. split; simpl; try apply W; try done.
  exists (n * units (tp_factor tp)). by unfold full_end.
Qed.

Lemma layout_full_end tp n : tp_wf tp -> full_end (set_full_slices n tp) = n * units (tp_factor tp).
Proof. done. Qed.

Lemma update_full_ok tp s now :
  tp_wf tp -> st_wf s -> ts_ok now -> caught_up tp now ->
  coherent tp (st_ops s) (st_slice s (tp_sector_constraint tp)) ->
  let n := full_count (tp_factor tp) now in
  exists s',
    update_full_slice_hashes now (tp, s) = (Ok tt, (set_full_slices n tp, s')) /\
    frame (tp_sector_constraint tp) s s' /\
    slices_ok (tp_factor tp) (tp_sector_constraint tp) n (st_ops s')
      (st_slice s' (tp_sector_constraint tp)).
Proof.
  intros W Ws Hn Hcu Hcoh. cbv zeta.
  destruct (layout_full_slices_ok tp now W Hn Hcu) as [El Hle].
  pose proof (wf_full_slices tp W) as [Hn0 _].
  destruct (full_count_bounds _ now (wf_factor tp W) (proj1 Hn)) as (_ & Hb & _).
  set (n := full_count (tp_factor tp) now) in *.
  destruct (add_full_slices_ok (Z.to_nat (n - tp_full_slices tp)) tp s)
    as (s' & E & F & S); [done|done| |apply Hcoh|].
  { rewrite Z2Nat.id by lia. destruct Hn as [_ Hn].
    replace (tp_full_slices tp + (n - tp_full_slices tp)) with n by lia. lia. }
  rewrite Z2Nat.id in E, S by lia.
  replace (tp_full_slices tp + (n - tp_full_slices tp)) with n in E, S by lia.
  exists s'. split_and!; [|done|done].
  unfold update_full_slice_hashes. unfold bind at 1, get. cbn [fst snd].
  unfold bind, lift_res. rewrite El. by rewrite full_slice_end_exact.
Qed.

Lemma update_partials_ok tp s t now :
  tp_wf (set_partial_slices [] tp) -> st_wf s -> ts_ok now ->
  tp_full_slices tp = full_count (tp_factor tp) now ->
  Forall (partial_ok (tp_sector_constraint tp) (st_ops s)) (tp_partial_slices tp) ->
  earliest_ok (tp_sector_constraint tp) (st_ops s) t ->
  let tp' := set_partial_slices
    (hashed (tp_sector_constraint tp) (st_ops s) (plan (tp_factor tp) now)) tp in
  update_partials t now (tp, s) = (Ok tt, (tp', s)) /\ tp_wf tp'.
Proof.
  intros W Ws Hn Hfull Hold He. cbv zeta.
  destruct (layout_partials_ok _ now W Hn Hfull) as (l & r & El & Hc & Hd & Hr & _).
  pose proof (layout_partials_plan _ now W Hn Hfull) as El'.
  rewrite El in El'. injection El' as Hl. simpl in Hl.
  change (layout_partials (set_partial_slices [] tp)
    (full_slice_end_timestamp (set_partial_slices [] tp)) now)
    with (layout_partials tp (full_slice_end_timestamp tp) now) in El.
  change (full_end (set_partial_slices [] tp)) with (full_end tp) in Hc.
  pose proof (wf_factor _ W) as Hf. simpl in Hf, Hd. unfold factor_ok in Hf.
  apply descending_sizes in Hd. rewrite UNIT_TIME_val in Hr. destruct Hn as [Hn Hn'].
  assert (0 <= full_end tp) as Hfe.
  { destruct (wf_full_slices _ W) as [Hn0 _]. simpl in Hn0. unfold full_end.
    pose proof (units_pos (tp_factor tp)). rewrite UNIT_TIME_val in *. nia. }
  split.
  - unfold update_partials. unfold bind at 1, get. cbn [fst snd].
    unfold bind at 1, lift_res. rewrite El. unfold bind at 1, on_fst at 1, modify at 1.
    cbn [fst snd]. rewrite (push_partials_ok (tp_sector_constraint tp)
      (tp_partial_slices tp) t l (set_partial_slices [] tp) s (full_end tp) (now - r));
      try done; [by rewrite <- Hl|lia|].
    eapply Forall_impl; [exact Hd|]. intros [? ?]. lia.
  - pose proof W as W'. destruct W' as [? ? ? ? _ _ ?]. split; simpl in *; try done.
    + rewrite <- Hl. unfold hashed. apply Forall_map.
      eapply Forall_impl; [exact Hd|]. intros [? ?]. simpl. lia.
    + exists (now - r). split; [|lia]. unfold layout_of. simpl.
      rewrite hashed_layout, <- Hl. exact Hc.
Qed.

(** What an update leaves behind. *)
Record updated (now : Timestamp) (tp : TimePartition) (s : St)
  (tp' : TimePartition) (s' : St) : Prop := {
  upd_wf : tp_wf tp';
  upd_coherent : coherent tp' (st_ops s') (st_slice s' (tp_sector_constraint tp'));
  upd_frame : frame (tp_sector_constraint tp) s s';
  upd_config : same_config tp tp';
  upd_layout : up_to_date tp' now;
}.

Lemma tp_update_ok tp s now :
  tp_wf tp -> st_wf s -> ts_ok now -> caught_up tp now ->
  coherent tp (st_ops s) (st_slice s (tp_sector_constraint tp)) ->
  exists tp' s', tp_update now (tp, s) = (Ok tt, (tp', s')) /\ updated now tp s tp' s' /\
    (forall p, last (tp_partial_slices tp') = Some p ->
       tp_next_update_at tp' = ts_add (ps_end p) UNIT_TIME).
Proof.
  intros W Ws Hn Hcu Hcoh.
  destruct (update_full_ok tp s now W Ws Hn Hcu Hcoh) as (s' & E & F & S).
  set (n := full_count (tp_factor tp) now) in *.
  pose proof (frame_wf _ _ _ F) as Ws'.
  destruct (full_count_bounds _ now (wf_factor tp W) (proj1 Hn)) as (Hn0 & Hb & _).
  fold n in Hn0, Hb.
  assert (tp_wf (set_partial_slices [] (set_full_slices n tp))) as W1
    by (destruct Hn; apply tp_wf_set_full; (done || lia)).
  destruct (earliest_query_ok s' (tp_sector_constraint tp) Ws') as (t & Et & He & _).
  destruct (update_partials_ok (set_full_slices n tp) s' t now) as [Ep W2]; try done.
  { rewrite (frame_ops _ _ _ F). apply Hcoh. }
  set (tp1 := set_partial_slices _ _) in Ep, W2. simpl in tp1.
  set (tp2 := match last (tp_partial_slices tp1) with
    | Some p => set_next_update_at (ts_add (ps_end p) UNIT_TIME) tp1 | None => tp1 end).
  exists tp2, s'.
  assert (forall (P : TimePartition -> Prop), P tp1 ->
    (forall u, P (set_next_update_at u tp1)) -> P tp2) as Hcase
    by (intros P Hp1 Hp2; unfold tp2; by destruct (last _)).
  split_and!.
  - unfold tp_update. unfold bind at 1. rewrite E. unfold bind at 1, get.
    cbn [fst snd]. unfold bind at 1, on_snd at 1. cbn [fst snd tp_sector_constraint set_full_slices].
    rewrite Et. unfold bind at 1. rewrite Ep. done.
  - assert (coherent tp1 (st_ops s') (st_slice s' (tp_sector_constraint tp1))) as C1
      by (split; [exact S|apply hashed_ok]).
    split.
    + apply (Hcase tp_wf W2). intros u. destruct W2. by split.
    + apply (Hcase (fun x => coherent x (st_ops s') (st_slice s' (tp_sector_constraint x))) C1).
      intros u. destruct C1. by split.
    + done.
    + by apply (Hcase (same_config tp)).
    + assert (up_to_date tp1 now) as U
        by (split; [done|unfold layout_of; simpl; by rewrite hashed_layout]).
      by apply (Hcase (fun x => up_to_date x now) U).
  - intros p. unfold tp2. destruct (last (tp_partial_slices tp1)) eqn:El; simpl.
    + intros Hp. simpl in El. rewrite El in Hp. by injection Hp as ->.
    + intros Hp. simpl in El. rewrite El in Hp. done.
Qed.

(** ** Construction *)

(** The slice hashes in the store are those of a number of full slices that
    leave the reserved recent time: what any earlier run leaves behind. *)
Definition history_ok (f : Z) (arc : DhtArc) (now : Timestamp) (s : St) : Prop :=
  exists n, 0 <= n /\ (n = 0 \/ n * units f + residual f <= now) /\
    slices_ok f arc n (st_ops s) (st_slice s arc).

Lemma slices_ok_count f arc n s k : st_wf s -> 0 <= k <= n ->
  (forall i, is_Some (st_slice s arc i) -> 0 <= i < k) ->
  slices_ok f arc n (st_ops s) (st_slice s arc) ->
  slices_ok f arc k (st_ops s) (st_slice s arc).
Proof.
  intros W Hk Hc Hs i. pose proof (Hs i) as Hi.
  destruct (decide (0 <= i < k)) as [Hik|Hik].
  - rewrite Hi. destruct (decide (full_hash f arc (st_ops s) i = [])).
    + rewrite !decide_False by tauto. done.
    + rewrite !decide_True; [done|..]; split; (done || lia).
  - rewrite decide_False by tauto. destruct (st_slice s arc i) eqn:E; [|done].
    exfalso. apply Hik, Hc. by rewrite E.
Qed.

Lemma count_le f arc n k s : st_wf s -> 0 <= n ->
  slices_ok f arc n (st_ops s) (st_slice s arc) ->
  k = 0 \/ is_Some (st_slice s arc (k - 1)) -> k <= n.
Proof.
  intros W Hn Hs [->|[h Hk]]; [lia|]. rewrite Hs in Hk.
  case_decide as Hd; [|done]. lia.
Qed.

(** The number of full slices a fresh partition starts from. *)
Lemma initial_slices_ok f arc now s t :
  factor_ok f -> st_wf s -> ts_ok now -> earliest_ok arc (st_ops s) t ->
  match t with Some t => 0 <= t <= now | None => True end ->
  (forall i, st_slice s arc i = None) ->
  let e := saturating_sub (default now t / units f) 1 in
  0 <= e /\ e * units f <= now /\ (e = 0 \/ e * units f + residual f <= now) /\
  slices_ok f arc e (st_ops s) (st_slice s arc).
Proof.
  intros Hf W [Hn Hn'] He Ht Hnone e. unfold factor_ok in Hf.
  pose proof (units_pos f) as Hu. pose proof (units_residual f) as Hur.
  rewrite UNIT_TIME_val in *.
  set (t' := default now t) in *. assert (0 <= t' <= now) as Ht' by (destruct t; simpl in *; lia).
  pose proof (Z.mul_div_le t' (units f)) as Hq. pose proof (Z.div_pos t' (units f)) as Hq0.
  assert (e = 0 \/ e + 1 = t' / units f) as Hcase by (unfold e, saturating_sub; lia).
  assert (0 <= e) as He0 by (unfold e, saturating_sub; lia).
  split_and!; [done|nia|destruct Hcase; [by left|right; nia]|].
  intros i. rewrite Hnone. rewrite decide_False; [done|]. intros [Hi Hne]. apply Hne.
  unfold full_hash. apply (no_ops_before arc (st_ops s) t); [done|].
  destruct t as [t|]; [|done]. simpl in t'. subst t'. destruct Hcase; nia.
Qed.

Lemma tp_try_from_store_ok f now arc s :
  factor_ok f -> arc <> Empty -> st_wf s -> ts_ok now -> history_ok f arc now s ->
  (forall op, op ∈ st_ops s -> in_constraint arc op -> created_at op <= now) ->
  exists tp s', tp_try_from_store f now arc s = (Ok tp, s') /\
    tp_wf tp /\ tp_factor tp = f /\ tp_sector_constraint tp = arc /\
    coherent tp (st_ops s') (st_slice s' arc) /\ up_to_date tp now /\ frame arc s s' /\
    (forall p, last (tp_partial_slices tp) = Some p ->
       tp_next_update_at tp = ts_add (ps_end p) UNIT_TIME).
Proof.
  intros Hf Harc W Hn (m & Hm0 & Hm & Hms) Hops.
  destruct (tp_new_wf f arc Hf Harc) as (pt & Ept & Wpt & Hptf & Hpta & _ & Hptp).
  destruct (slice_hash_count_law s arc W) as (k & Ek & Hk0 & Hk1 & Hk2).
  pose proof (count_le f arc m k s W Hm0 Hms Hk1) as Hkm.
  destruct (earliest_query_ok s arc W) as (t & Et & Hearl & Htok).
  assert (exists e, (if k =? 0 then
      let* earliest := earliest_timestamp_in_arc arc in
      ret (wrap_u64 (saturating_sub (as_micros (default now earliest) mod 2 ^ 128
             / tp_full_slice_duration pt) 1))
    else ret k) s = (Ok e, s) /\ 0 <= e /\ e * units f <= now /\
    (e = 0 \/ e * units f + residual f <= now) /\
    slices_ok f arc e (st_ops s) (st_slice s arc)) as (e & Ee & He0 & Heb & Hec & Hes).
  { assert (0 <= f) as Hf0 by (unfold factor_ok in Hf; lia).
    pose proof (units_pos f Hf0) as Hu. pose proof (residual_nonneg f Hf0) as Hr0.
    rewrite UNIT_TIME_val in Hu. destruct Hn as [Hn Hn'].
    destruct (Z.eqb_spec k 0) as [->|Hk].
    - destruct (initial_slices_ok f arc now s t) as (He0 & Heb & Hec & Hes); try done.
      { destruct t as [t|]; [|done]. split; [apply Htok|].
        destruct (earliest_law s arc W) as (t' & Et' & Hlaw).
        rewrite Et in Et'. injection Et' as <-.
        destruct Hlaw as [(op & Hop & Hin & <-) _]. by apply Hops. }
      { intros i. destruct (st_slice s arc i) eqn:E; [|done].
        destruct (Hk2 i); [by rewrite E|lia]. }
      eexists. split.
      + unfold bind. rewrite Et. unfold ret. rewrite (wf_duration pt Wpt), Hptf.
        unfold as_micros. rewrite Z.mod_small
          by (destruct t as [t|]; simpl; [destruct Htok|]; lia).
        rewrite wrap_u64_id; [reflexivity|]. unfold is_u64. nia.
      + done.
    - exists k. split; [done|]. split; [done|].
      assert (k * units f + residual f <= now) by nia.
      split_and!; [lia|by right|]. by apply (slices_ok_count f arc m). }
  pose proof (tp_wf_set_full e pt Wpt He0) as W1. rewrite Hptf in W1.
  assert (set_partial_slices [] (set_full_slices e pt) = set_full_slices e pt) as Hset
    by (destruct pt; simpl in *; by subst).
  rewrite Hset in W1. destruct Hn as [Hn Hn']. specialize (W1 ltac:(lia)).
  destruct (tp_update_ok (set_full_slices e pt) s now) as (tp & s' & Eu & U & Hnext).
  { done. } { done. } { done. }
  { unfold caught_up, full_end. simpl. by rewrite Hptf. }
  { split; simpl; [by rewrite Hptf, Hpta|by rewrite Hptp]. }
  exists tp, s'.
  destruct (upd_config _ _ _ _ _ U) as (C1 & _ & _ & C4). simpl in C1, C4.
  pose proof (upd_frame _ _ _ _ _ U) as F. pose proof (upd_coherent _ _ _ _ _ U) as C.
  simpl in F. rewrite C4, Hpta in C. rewrite Hpta in F.
  split; [|split_and!; try done; [apply U|congruence|congruence|apply U]].
  unfold tp_try_from_store. rewrite bool_decide_false by done.
  unfold bind at 1, lift_res. rewrite Ept. unfold bind at 1. rewrite Ek.
  unfold bind at 1. rewrite Ee. rewrite full_slice_end_exact by done.
  unfold full_end.
  cbn [tp_full_slices tp_factor tp_min_recent_time set_full_slices]. rewrite Hptf.
  pose proof (residual_nonneg f). pose proof (units_pos f). unfold factor_ok in Hf.
  rewrite UNIT_TIME_val in *.
  rewrite ts_sub_exact by nia.
  rewrite (wf_min_recent pt Wpt), Hptf.
  destruct ((0 <? e) && (now - e * units f <? residual f)) eqn:Eb.
  { apply andb_true_iff in Eb as [Eb1 Eb2]. apply Z.ltb_lt in Eb1, Eb2. lia. }
  by rewrite Eu.
Qed.

(** ** Notice of newly stored ops *)

(** The same slices, with other hashes. *)
Record same_layout (tp tp' : TimePartition) : Prop := {
  sl_config : same_config tp tp';
  sl_full : tp_full_slices tp' = tp_full_slices tp;
  sl_partial : layout_of tp' = layout_of tp;
  sl_next : tp_next_update_at tp' = tp_next_update_at tp;
}.

Lemma same_layout_wf tp tp' : tp_wf tp -> same_layout tp tp' -> tp_wf tp'.
Proof.
  intros [? ? ? ? Hsz Hc ?] [(C1 & C2 & C3 & C4) L1 L2 _].
  split; unfold full_end in *; rewrite ?C1, ?C2, ?C3, ?C4, ?L1, ?L2; try done.
  assert (Forall (fun x : Timestamp * Z => 0 <= x.2 < tp_factor tp) (layout_of tp)) as Hl
    by (unfold layout_of; by apply Forall_map).
  rewrite <- L2 in Hl. unfold layout_of in Hl. by apply Forall_map in Hl.
Qed.

Lemma contiguous_snoc a l st size b : contiguous a (l ++ [(st, size)]) b <->
  contiguous a l st /\ b = st + units size.
Proof.
  revert a. induction l as [|[st' size'] l IH]; intros a; simpl.
  - split; [intros [-> ->]; done|intros [-> ->]; done].
  - rewrite IH. tauto.
Qed.

(** The partial slice with the op added. *)
Definition add_op (arc : DhtArc) (op : StoredOp) (p : PartialSlice) : PartialSlice :=
  if decide (in_slice arc (ps_start p) (ps_start p + units (ps_size p)) op)
  then MkPartialSlice (ps_start p) (ps_size p) (hxor (ps_hash p) (op_id op)) else p.

Lemma add_op_later arc op a l b :
  contiguous a (map (fun p => (ps_start p, ps_size p)) l) b ->
  Forall (fun p => 0 <= ps_size p) l -> b <= created_at op ->
  map (add_op arc op) l = l.
Proof.
  revert a. induction l as [|p l IH]; intros a; simpl; [done|].
  intros [<- Hc] Hs Hb. apply Forall_cons in Hs as [Hp Hs].
  rewrite (IH _ Hc Hs Hb). f_equal. unfold add_op. rewrite decide_False; [done|].
  intros [_ Hr]. enough (ps_start p + units (ps_size p) <= b) by lia.
  apply (contiguous_bounds _ _ _ Hc). apply Forall_map.
  eapply Forall_impl; [exact Hs|]. done.
Qed.

Lemma inform_partials_spec arc op ops l a b :
  contiguous a (map (fun p => (ps_start p, ps_size p)) l) b ->
  Forall (fun p => 0 <= ps_size p) l -> Forall (partial_ok arc ops) l ->
  Forall op_wf ops -> op_wf op -> in_constraint arc op -> a <= created_at op < b ->
  inform_partials op l = Ok (map (add_op arc op) l).
Proof.
  intros Hc Hs Hp Hops Hop Hin. revert b Hc Hs Hp.
  unfold inform_partials. induction l as [|p l IH] using rev_ind; intros b Hc Hs Hp Hr.
  - simpl in Hc. lia.
  - rewrite map_app in Hc. simpl in Hc. apply contiguous_snoc in Hc as [Hc ->].
    apply Forall_app in Hs as [Hs Hs1]. apply Forall_app in Hp as [Hp Hp1].
    rewrite Forall_singleton in Hs1, Hp1.
    rewrite rev_app_distr, map_app. simpl.
    destruct (Z.leb_spec (ps_start p) (created_at op)) as [Hle|Hgt].
    + rewrite (combine_hashes_spec op_id_len).
      * simpl. rewrite rev_involutive, (add_op_later _ _ _ _ _ Hc Hs Hle).
        unfold add_op. rewrite decide_True; [done|]. split; [done|lia].
      * rewrite Hp1. by apply slice_hash_len.
      * apply Hop.
    + specialize (IH _ Hc Hs Hp ltac:(lia)).
      destruct (inform_partials_rev op (rev l)) as [l'| |]; [|done..].
      simpl in *. injection IH as IH. rewrite IH. do 2 f_equal.
      unfold add_op. rewrite decide_False by (intros [_ ?]; lia). done.
Qed.

Lemma partial_ok_add arc ops op p : partial_ok arc ops p ->
  partial_ok arc (ops ++ [op]) (add_op arc op p).
Proof.
  unfold partial_ok, add_op. intros Hp. case_decide as Hd; simpl.
  - by rewrite slice_hash_app, slice_hash_single_in, Hp.
  - by rewrite slice_hash_app, slice_hash_single_out, hxor_nil_r, Hp.
Qed.

Lemma add_op_layout arc op l :
  map (fun p => (ps_start p, ps_size p)) (map (add_op arc op) l)
  = map (fun p => (ps_start p, ps_size p)) l.
Proof.
  rewrite map_map. apply map_ext. intros p. unfold add_op. by case_decide.
Qed.

Lemma slices_ok_out f arc n ops op sl :
  (forall i, 0 <= i < n -> ~ in_slice arc (i * units f) ((i + 1) * units f) op) ->
  slices_ok f arc n ops sl -> slices_ok f arc n (ops ++ [op]) sl.
Proof.
  intros Hout Hs i. rewrite Hs. destruct (decide (0 <= i < n)) as [Hi|Hi].
  - assert (full_hash f arc (ops ++ [op]) i = full_hash f arc ops i) as ->; [|done].
    unfold full_hash. rewrite slice_hash_app, slice_hash_single_out by auto.
    apply hxor_nil_r.
  - by rewrite !decide_False by tauto.
Qed.

Lemma slices_ok_add f arc n ops op sl sl' k :
  0 <= f -> Forall op_wf ops -> op_wf op -> in_constraint arc op ->
  k = created_at op / units f -> 0 <= k < n ->
  slices_ok f arc n ops sl ->
  (forall i, sl' i = if decide (i = k) then Some (hxor (default [] (sl k)) (op_id op))
                     else sl i) ->
  slices_ok f arc n (ops ++ [op]) sl'.
Proof.
  intros Hf Hops Hop Hin Hk Hkn Hs Hsl i. rewrite Hsl.
  pose proof (units_pos f Hf) as Hu. rewrite UNIT_TIME_val in Hu.
  pose proof (Z.mul_div_le (created_at op) (units f) ltac:(lia)).
  pose proof (Z.mul_succ_div_gt (created_at op) (units f) ltac:(lia)).
  destruct (decide (i = k)) as [->|Hne].
  - assert (full_hash f arc (ops ++ [op]) k = hxor (full_hash f arc ops k) (op_id op)) as ->.
    { unfold full_hash. rewrite slice_hash_app, slice_hash_single_in; [done|].
      split; [done|]. rewrite Hk. lia. }
    assert (default [] (sl k) = full_hash f arc ops k) as ->.
    { rewrite Hs. destruct (decide (full_hash f arc ops k = [])) as [->|].
      - by rewrite decide_False by tauto.
      - by rewrite decide_True. }
    rewrite decide_True; [done|]. split; [done|]. rewrite (comm_L hxor).
    apply (hxor_nonempty op_id_len); [apply op_id_len_pos|apply Hop|].
    by apply slice_hash_len.
  - rewrite Hs.
    assert (full_hash f arc (ops ++ [op]) i = full_hash f arc ops i) as ->; [|done].
    unfold full_hash. rewrite slice_hash_app, slice_hash_single_out; [apply hxor_nil_r|].
    intros [_ Hr]. apply Hne. rewrite Hk. apply (Z.div_unique_pos _ _ _ (created_at op - units f * i)); lia.
Qed.

Lemma last_contiguous a l b p :
  contiguous a (map (fun p => (ps_start p, ps_size p)) l) b -> last l = Some p ->
  b = ps_start p + units (ps_size p).
Proof.
  intros Hc Hl. apply last_Some in Hl as [l' ->]. rewrite map_app in Hc. simpl in Hc.
  by apply contiguous_snoc in Hc as [_ ->].
Qed.

Lemma ps_end_exact tp p b : tp_wf tp -> contiguous (full_end tp) (layout_of tp) b ->
  b < 2 ^ 62 -> last (tp_partial_slices tp) = Some p -> ps_end p = b.
Proof.
  intros W Hc Hb Hl. pose proof (last_contiguous _ _ _ _ Hc Hl) as ->.
  pose proof (wf_factor tp W) as Hf. unfold factor_ok in Hf.
  apply last_Some in Hl as [l' Hl]. pose proof (wf_sizes tp W) as Hs. rewrite Hl in Hs.
  apply Forall_app in Hs as [Hs Hp]. rewrite Forall_singleton in Hp.
  unfold layout_of in Hc. rewrite Hl, map_app in Hc. simpl in Hc.
  apply contiguous_snoc in Hc as [Hc _]. apply contiguous_bounds in Hc.
  - unfold ps_end. rewrite slice_duration_units by lia.
    destruct (wf_full_slices tp W) as [Hn0 _]. unfold full_end in Hc.
    pose proof (units_pos (ps_size p)). pose proof (units_pos (tp_factor tp)).
    rewrite UNIT_TIME_val in *. rewrite ts_add_exact by nia. done.
  - apply Forall_map. eapply Forall_impl; [exact Hs|]. simpl. lia.
Qed.

Lemma full_slice_index_ok tp t : tp_wf tp -> 0 <= t < full_end tp ->
  full_slice_index tp t = Ok (t / units (tp_factor tp)) /\
  0 <= t / units (tp_factor tp) < tp_full_slices tp.
Proof.
  intros W Ht. unfold full_slice_index. rewrite (wf_duration tp W).
  destruct (wf_full_slices tp W) as [Hn0 Hb]. pose proof (wf_factor tp W) as Hf.
  unfold factor_ok in Hf. pose proof (units_pos (tp_factor tp) ltac:(lia)) as Hu.
  rewrite UNIT_TIME_val in Hu. unfold full_end in *.
  set (u := units (tp_factor tp)) in *.
  pose proof (Z.mul_div_le t u ltac:(lia)). pose proof (Z.div_pos t u).
  assert (1 <= tp_full_slices tp) by (destruct (decide (tp_full_slices tp = 0)) as [E|]; [rewrite E in Ht; lia|lia]).
  assert (u < 2 ^ 62) by nia. assert (t / u <= t) by nia.
  rewrite wrap_i64_id by (unfold is_i64; lia). rewrite (proj2 (Z.eqb_neq u 0)) by lia.
  unfold as_micros. rewrite Z.quot_div_nonneg by lia.
  rewrite wrap_u64_id by (unfold is_u64; nia). split; [done|].
  split; [lia|]. apply Z.div_lt_upper_bound; lia.
Qed.

Lemma inform_historical tp s op ops :
  tp_wf tp -> st_wf s -> Forall op_wf ops -> op_wf op ->
  in_constraint (tp_sector_constraint tp) op -> created_at op < full_end tp ->
  coherent tp ops (st_slice s (tp_sector_constraint tp)) ->
  exists s', inform_op (full_end tp) op (tp, s) = (Ok tt, (tp, s')) /\
    frame (tp_sector_constraint tp) s s' /\
    coherent tp (ops ++ [op]) (st_slice s' (tp_sector_constraint tp)).
Proof.
  intros W Ws Hops Hop Hin Hlt [Cf Cp]. set (arc := tp_sector_constraint tp) in *.
  pose proof Hop as (Hlen & _ & Ht0 & _).
  destruct (full_slice_index_ok tp (created_at op) W) as [Ei Hi]; [done|].
  set (k := created_at op / units (tp_factor tp)) in *.
  destruct (wf_full_slices tp W) as [Hn0 Hb]. pose proof (wf_factor tp W) as Hf.
  unfold factor_ok in Hf. pose proof (units_pos (tp_factor tp) ltac:(lia)) as Hu.
  rewrite UNIT_TIME_val in Hu.
  assert (op_id op <> []) as Hne.
  { intros E. unfold hash_len in Hlen. rewrite E in Hlen. simpl in Hlen.
    pose proof op_id_len_pos. lia. }
  set (h := hxor (default [] (st_slice s arc k)) (op_id op)).
  assert (st_slice s arc k = None \/
    exists h0, st_slice s arc k = Some h0 /\ (h0 = [] \/ hash_len op_id_len h0)) as Hk.
  { pose proof (Cf k) as Ek. destruct (decide _) in Ek; [right|by left].
    eexists. split; [exact Ek|]. unfold full_hash. by apply slice_hash_len. }
  assert (h <> []) as Hh.
  { unfold h. rewrite (comm_L hxor). apply (hxor_nonempty op_id_len); [apply op_id_len_pos|done|].
    destruct Hk as [->|(h0 & -> & Hh0)]; [by left|exact Hh0]. }
  destruct (store_slice_hash_law s arc k h Ws Hh) as (s' & Es & Ws' & Os & Zs & Ss);
    [unfold full_end in Hb; nia|].
  exists s'. split; [|split].
  - unfold inform_op. unfold bind at 1, get. cbn [fst snd].
    destruct (Z.ltb_spec (created_at op) (full_end tp)); [|lia].
    unfold bind at 1, lift_res at 1. rewrite Ei. fold arc.
    unfold bind at 1, on_snd at 1. cbn [fst snd]. rewrite retrieve_slice_hash_law by done.
    unfold h in Es. destruct Hk as [Hk|(h0 & Hk & Hh0)]; rewrite Hk in *; simpl in Es.
    + unfold on_snd. cbn [fst snd]. by rewrite Es.
    + unfold bind at 1, lift_res. rewrite (combine_hashes_spec op_id_len) by done.
      unfold on_snd. cbn [fst snd]. by rewrite Es.
  - split; [done..|]. intros arc' i Hne'. rewrite Ss. by rewrite decide_False by tauto.
  - split.
    + apply (slices_ok_add (tp_factor tp) arc _ ops op (st_slice s arc) _ k);
        try done; [lia|]. intros i. rewrite Ss.
      destruct (decide (i = k)) as [->|]; [by rewrite decide_True|].
      by rewrite decide_False by tauto.
    + pose proof (wf_contiguous tp W) as (b & Hc & _). pose proof (wf_sizes tp W) as Hs.
      assert (map (add_op arc op) (tp_partial_slices tp) = tp_partial_slices tp) as Hm.
      { assert (forall a l, contiguous a (map (fun p => (ps_start p, ps_size p)) l) b ->
          Forall (fun p => 0 <= ps_size p < tp_factor tp) l -> created_at op < a ->
          map (add_op arc op) l = l) as Hearlier.
        { intros a l. revert a. induction l as [|p l IH]; intros a; simpl; [done|].
          intros [<- Hc'] Hs' Hlt'. apply Forall_cons in Hs' as [Hp Hs'].
          pose proof (units_pos (ps_size p)). rewrite UNIT_TIME_val in *.
          rewrite (IH _ Hc' Hs' ltac:(lia)). f_equal. unfold add_op.
          rewrite decide_False; [done|]. intros [_ ?]. lia. }
        by apply (Hearlier (full_end tp)). }
      rewrite <- Hm. apply Forall_map. eapply Forall_impl; [exact Cp|].
      intros p. apply partial_ok_add.
Qed.

Lemma same_layout_refl tp : same_layout tp tp.
Proof. by split. Qed.

Lemma same_layout_trans tp1 tp2 tp3 :
  same_layout tp1 tp2 -> same_layout tp2 tp3 -> same_layout tp1 tp3.
Proof.
  intros [(A1 & A2 & A3 & A4) B1 C1 D1] [(A1' & A2' & A3' & A4') B2 C2 D2].
  split; [|congruence..]. unfold same_config. repeat split; congruence.
Qed.

Lemma recent_not_historical tp op n ops sl : tp_wf tp -> full_end tp <= created_at op ->
  n = tp_full_slices tp ->
  slices_ok (tp_factor tp) (tp_sector_constraint tp) n ops sl ->
  slices_ok (tp_factor tp) (tp_sector_constraint tp) n (ops ++ [op]) sl.
Proof.
  intros W Hge -> Hs. apply slices_ok_out; [|done]. intros i Hi [_ Hr].
  pose proof (wf_factor tp W) as Hf. unfold factor_ok in Hf.
  pose proof (units_pos (tp_factor tp) ltac:(lia)). rewrite UNIT_TIME_val in *.
  unfold full_end in Hge. nia.
Qed.

Lemma inform_recent tp s op ops :
  tp_wf tp -> st_wf s -> Forall op_wf ops -> op_wf op ->
  in_constraint (tp_sector_constraint tp) op -> full_end tp <= created_at op ->
  coherent tp ops (st_slice s (tp_sector_constraint tp)) ->
  exists tp', inform_op (full_end tp) op (tp, s) = (Ok tt, (tp', s)) /\
    same_layout tp tp' /\
    coherent tp' (ops ++ [op]) (st_slice s (tp_sector_constraint tp)).
Proof.
  intros W Ws Hops Hop Hin Hge [Cf Cp]. set (arc := tp_sector_constraint tp) in *.
  pose proof (wf_contiguous tp W) as (b & Hc & Hb). pose proof (wf_sizes tp W) as Hsz.
  assert (Forall (fun p => 0 <= ps_size p) (tp_partial_slices tp)) as Hsz0
    by (eapply Forall_impl; [exact Hsz|]; simpl; lia).
  pose proof (recent_not_historical tp op _ ops _ W Hge eq_refl Cf) as Cf'.
  assert (map (add_op arc op) (tp_partial_slices tp) = tp_partial_slices tp ->
    coherent tp (ops ++ [op]) (st_slice s arc)) as Hsame.
  { intros Hm. split; [done|]. rewrite <- Hm. apply Forall_map.
    eapply Forall_impl; [exact Cp|]. intros p. apply partial_ok_add. }
  unfold inform_op, bind at 1, get. cbn [fst snd].
  destruct (Z.ltb_spec (created_at op) (full_end tp)); [lia|].
  destruct (last (tp_partial_slices tp)) as [p|] eqn:El.
  - rewrite (ps_end_exact tp p b W Hc Hb El).
    destruct (Z.leb_spec b (created_at op)) as [Hle|Hgt].
    + exists tp. split_and!; [done|by apply same_layout_refl|].
      apply Hsame. by apply (add_op_later _ _ (full_end tp) _ b).
    + unfold bind, lift_res.
      rewrite (inform_partials_spec arc op ops _ (full_end tp) b) by (done || lia).
      exists (set_partial_slices (map (add_op arc op) (tp_partial_slices tp)) tp).
      split_and!; [done| |].
      * split; try done. unfold layout_of. simpl. apply add_op_layout.
      * split; [done|]. simpl. apply Forall_map. eapply Forall_impl; [exact Cp|].
        intros q. apply partial_ok_add.
  - exists tp. split_and!; [done|by apply same_layout_refl|].
    apply Hsame. apply last_None in El. by rewrite El.
Qed.

Lemma inform_ops_ok tp s new ops :
  tp_wf tp -> st_wf s -> Forall op_wf ops -> Forall op_wf new ->
  Forall (in_constraint (tp_sector_constraint tp)) new ->
  coherent tp ops (st_slice s (tp_sector_constraint tp)) ->
  exists tp' s', tp_inform_ops_stored new (tp, s) = (Ok tt, (tp', s')) /\
    tp_wf tp' /\ same_layout tp tp' /\ frame (tp_sector_constraint tp) s s' /\
    coherent tp' (ops ++ new) (st_slice s' (tp_sector_constraint tp)).
Proof.
  intros W Ws Hops Hnew Hin Hcoh. unfold tp_inform_ops_stored, bind at 1, get. cbn [fst snd].
  rewrite full_slice_end_exact by done. revert tp s ops W Ws Hops Hcoh Hin.
  induction Hnew as [|op new Hop Hnew IH]; intros tp s ops W Ws Hops Hcoh Hin.
  - exists tp, s. rewrite app_nil_r.
    split_and!; [done..|by apply same_layout_refl|by apply frame_refl|done].
  - apply Forall_cons in Hin as [Hin1 Hin].
    assert (exists tp1 s1, inform_op (full_end tp) op (tp, s) = (Ok tt, (tp1, s1)) /\
      same_layout tp tp1 /\ frame (tp_sector_constraint tp) s s1 /\
      coherent tp1 (ops ++ [op]) (st_slice s1 (tp_sector_constraint tp)))
      as (tp1 & s1 & E1 & L1 & F1 & C1).
    { destruct (decide (created_at op < full_end tp)) as [Hlt|Hge].
      - destruct (inform_historical tp s op ops) as (s1 & E & F & C); try done.
        exists tp, s1. split_and!; [done|by apply same_layout_refl|done..].
      - destruct (inform_recent tp s op ops) as (tp1 & E & L & C); try (done || lia).
        exists tp1, s. split_and!; [done..|by apply frame_refl|done]. }
    pose proof (sl_config _ _ L1) as (G1 & _ & _ & G4).
    assert (full_end tp1 = full_end tp) as Hfe
      by (unfold full_end; by rewrite (sl_full _ _ L1), G1).
    destruct (IH tp1 s1 (ops ++ [op])) as (tp2 & s2 & E2 & W2 & L2 & F2 & C2).
    { by apply (same_layout_wf tp). }
    { apply F1. }
    { apply Forall_app. split; [done|]. by apply Forall_singleton. }
    { by rewrite G4. }
    { by rewrite G4. }
    rewrite Hfe in E2. rewrite G4 in F2, C2. exists tp2, s2.
    split_and!; [|done|by apply (same_layout_trans _ tp1)|by apply (frame_trans _ _ s1)|].
    + cbn [for_each]. unfold bind at 1. by rewrite E1.
    + by rewrite <- app_assoc in C2.
Qed.

Lemma coherent_perm tp ops ops' sl : ops ≡ₚ ops' -> coherent tp ops sl -> coherent tp ops' sl.
Proof.
  intros Hp [Cf Cp]. split.
  - intros i. rewrite Cf.
    assert (full_hash (tp_factor tp) (tp_sector_constraint tp) ops i
      = full_hash (tp_factor tp) (tp_sector_constraint tp) ops' i) as ->; [|done].
    unfold full_hash. by rewrite Hp.
  - eapply Forall_impl; [exact Cp|]. intros p. unfold partial_ok. by rewrite Hp.
Qed.
End coherence.
