(* ===== verification/TimeProperties.v ===== *)
(** The properties of a time partition: coherence of its hashes through
    construction, update and notice of new ops, and the shape and timing of
    its slices.  Each is applied to the in-memory store. *)

From S2P Require Import Prelude Arc Timestamp Id Combine OpStore MemOpStore.
From S2P Require Import TimePartition TimeCoherence.

Section properties.
Context {St : Type} `{OpStoreSpec St}.

(** When a partition's hashes are those of the ops known so far and new
    ops have been put in the store, noticing them incrementally makes every
    hash, in memory and in the store, the one recomputed from all ops held;
    it does not move a slice boundary or touch another sector's slices. *)
Theorem inform_ops_stored_coherent tp s known new :
  tp_wf tp -> st_wf s -> Forall (in_constraint (tp_sector_constraint tp)) new ->
  st_ops s ≡ₚ known ++ new ->
  coherent tp known (st_slice s (tp_sector_constraint tp)) ->
  exists tp' s', tp_inform_ops_stored new (tp, s) = (Ok tt, (tp', s')) /\
    tp_wf tp' /\ same_layout tp tp' /\ frame (tp_sector_constraint tp) s s' /\
    coherent tp' (st_ops s') (st_slice s' (tp_sector_constraint tp)).
Proof.
  intros W Ws Hin Hp Hcoh.
  pose proof (st_ops_wf s Ws) as Hw. rewrite Hp in Hw. apply Forall_app in Hw as [Hk Hn].
  destruct (inform_ops_ok tp s new known) as (tp' & s' & E & W' & L & F & C); try done.
  exists tp', s'. split_and!; try done.
  rewrite (frame_ops _ _ _ F). by apply (coherent_perm _ (known ++ new)).
Qed.

(** An update succeeds whenever the clock has not gone back behind the
    reserved recent time; every hash is then that of the ops held, the number
    of full slices and the partial slices are those of the current time, and
    neither the ops nor other sectors' slice hashes are touched. *)
Theorem update_coherent tp s now :
  tp_wf tp -> st_wf s -> ts_ok now -> caught_up tp now ->
  coherent tp (st_ops s) (st_slice s (tp_sector_constraint tp)) ->
  exists tp' s', tp_update now (tp, s) = (Ok tt, (tp', s')) /\
    tp_wf tp' /\ same_config tp tp' /\ up_to_date tp' now /\
    frame (tp_sector_constraint tp) s s' /\
    coherent tp' (st_ops s') (st_slice s' (tp_sector_constraint tp')).
Proof.
  intros W Ws Hn Hc Hcoh.
  destruct (tp_update_ok tp s now W Ws Hn Hc Hcoh) as (tp' & s' & E & [] & _).
  by exists tp', s'.
Qed.

(** Opening a partition over a store that holds no op of the future, and
    whose slice hashes are those an earlier run left (or none), succeeds, and
    every hash is that of the ops held. *)
Theorem try_from_store_coherent f now arc s :
  factor_ok f -> arc <> Empty -> st_wf s -> ts_ok now -> history_ok f arc now s ->
  (forall op, op ∈ st_ops s -> in_constraint arc op -> created_at op <= now) ->
  exists tp s', tp_try_from_store f now arc s = (Ok tp, s') /\
    tp_wf tp /\ tp_sector_constraint tp = arc /\ up_to_date tp now /\
    frame arc s s' /\ coherent tp (st_ops s') (st_slice s' arc).
Proof.
  intros Hf Ha Ws Hn Hh Hops.
  destruct (tp_try_from_store_ok f now arc s Hf Ha Ws Hn Hh Hops)
    as (tp & s' & E & W & _ & Harc & C & U & F & _).
  by exists tp, s'.
Qed.

Lemma coherent_partials tp1 tp2 ops sl1 sl2 :
  tp_sector_constraint tp1 = tp_sector_constraint tp2 ->
  layout_of tp1 = layout_of tp2 -> coherent tp1 ops sl1 -> coherent tp2 ops sl2 ->
  tp_partial_slices tp1 = tp_partial_slices tp2.
Proof.
  intros Ha Hl [_ C1] [_ C2]. rewrite Ha in C1. unfold layout_of in Hl.
  revert Hl C1 C2. generalize (tp_partial_slices tp2) as l2.
  induction (tp_partial_slices tp1) as [|[st1 sz1 h1] l1 IH]; intros [|[st2 sz2 h2] l2];
    simpl; try done. intros [= -> -> Hl] C1 C2.
  apply Forall_cons in C1 as [D1 C1]. apply Forall_cons in C2 as [D2 C2].
  unfold partial_ok in D1, D2. simpl in D1, D2. rewrite D1, D2. f_equal. by apply IH.
Qed.

(** Restarting is transparent: a partition opened over the store of a
    running, up to date one has the same full slice count and the same
    partial slices, hashes included, and the stored slice hashes stay what
    they were. *)
Theorem restart_equivalent tp s now :
  tp_wf tp -> st_wf s -> ts_ok now -> up_to_date tp now ->
  coherent tp (st_ops s) (st_slice s (tp_sector_constraint tp)) ->
  (forall op, op ∈ st_ops s -> in_constraint (tp_sector_constraint tp) op ->
     created_at op <= now) ->
  exists tp' s',
    tp_try_from_store (tp_factor tp) now (tp_sector_constraint tp) s = (Ok tp', s') /\
    tp_full_slices tp' = tp_full_slices tp /\
    tp_partial_slices tp' = tp_partial_slices tp /\
    forall arc i, st_slice s' arc i = st_slice s arc i.
Proof.
  intros W Ws Hn U C Hops.
  destruct (tp_try_from_store_ok (tp_factor tp) now (tp_sector_constraint tp) s)
    as (tp' & s' & E & W' & Hf' & Ha' & C' & U' & F & _); try done.
  { apply W. } { apply W. }
  { exists (tp_full_slices tp). split; [apply W|]. split; [|apply C].
    by apply (up_to_date_caught_up tp now now). }
  destruct U as [U1 U2], U' as [U1' U2']. rewrite Hf' in U1', U2'.
  assert (tp_full_slices tp' = tp_full_slices tp) as Hfull by congruence.
  exists tp', s'. split_and!; [done|done| |].
  - apply (coherent_partials _ _ (st_ops s') (st_slice s' (tp_sector_constraint tp))
      (st_slice s (tp_sector_constraint tp))); [done|congruence|done|].
    by rewrite (frame_ops _ _ _ F).
  - intros arc i. destruct (decide (arc = tp_sector_constraint tp)) as [->|Hne];
      [|by apply (frame_other _ _ _ F)].
    rewrite (coh_full _ _ _ C'), (coh_full _ _ _ C).
    by rewrite Hfull, Hf', Ha', (frame_ops _ _ _ F).
Qed.

(** C10: after an update the partial slices run without gaps from the end of
    the full slices to within one unit of the current time; at least the
    reserved recent time (all of it, early on) and less than a full slice
    more is left to them; the next update is due within one unit. *)
Theorem update_layout tp s now :
  tp_wf tp -> st_wf s -> ts_ok now -> caught_up tp now ->
  coherent tp (st_ops s) (st_slice s (tp_sector_constraint tp)) ->
  exists tp' s' leftover, tp_update now (tp, s) = (Ok tt, (tp', s')) /\
    contiguous (full_end tp') (layout_of tp') (now - leftover) /\
    descending (tp_factor tp') (layout_of tp') /\
    0 <= leftover <= UNIT_TIME /\
    (tp_full_slices tp' = 0 \/ full_end tp' + residual (tp_factor tp') <= now) /\
    now <= full_end tp' + residual (tp_factor tp') + units (tp_factor tp') /\
    (tp_partial_slices tp' <> [] -> tp_next_update_at tp' = now + (UNIT_TIME - leftover)).
Proof.
  intros W Ws Hn Hc Hcoh.
  destruct (tp_update_ok tp s now W Ws Hn Hc Hcoh) as (tp' & s' & E & U & Hnext).
  destruct U as [W' _ _ _ [U1 U2]].
  destruct (layout_partials_ok tp' now W' Hn U1) as (l & r & El & Hcont & Hd & Hr & _).
  rewrite layout_partials_plan, <- U2 in El by done. injection El as <-.
  destruct (full_count_bounds (tp_factor tp') now (wf_factor tp' W') (proj1 Hn))
    as (_ & B2 & B3 & B4). rewrite <- U1 in *. fold (full_end tp') in *.
  exists tp', s', r. split_and!; try done; try lia.
  intros Hne. destruct (last (tp_partial_slices tp')) as [p|] eqn:El;
    [|by apply last_None in El].
  rewrite (Hnext p eq_refl). rewrite UNIT_TIME_val in *. destruct Hn as [Hn Hn'].
  pose proof (wf_full_slices tp' W') as [Hf0 _].
  rewrite (ps_end_exact tp' p (now - r) W' Hcont) by (done || lia).
  assert (0 <= full_end tp').
  { unfold full_end. pose proof (wf_factor tp' W') as Hf. unfold factor_ok in Hf.
    pose proof (units_pos (tp_factor tp') ltac:(lia)). rewrite UNIT_TIME_val in *. nia. }
  assert (full_end tp' <= now - r).
  { apply (contiguous_bounds _ _ _ Hcont). unfold layout_of. apply Forall_map.
    eapply Forall_impl; [apply (wf_sizes tp' W')|]. simpl. lia. }
  rewrite ts_add_exact by lia. lia.
Qed.
End properties.

(** Asking a partition for the bounds of the partial slice just past the
    last one passes the bounds test and panics on the index. *)
Theorem partial_bounds_off_by_one tp :
  tp_time_bounds_for_partial_slice_index tp (Z.of_nat (length (tp_partial_slices tp)))
  = Panic "index out of bounds"
  /\ forall i, 0 <= i < Z.of_nat (length (tp_partial_slices tp)) ->
       is_ok (tp_time_bounds_for_partial_slice_index tp i) = true.
Proof.
  unfold tp_time_bounds_for_partial_slice_index. split.
  - destruct (Z.ltb_spec (Z.of_nat (length (tp_partial_slices tp)))
      (Z.of_nat (length (tp_partial_slices tp)))); [lia|].
    rewrite Nat2Z.id. by rewrite lookup_ge_None_2 by lia.
  - intros i Hi. destruct (Z.ltb_spec (Z.of_nat (length (tp_partial_slices tp))) i); [lia|].
    destruct (lookup_lt_is_Some_2 (tp_partial_slices tp) (Z.to_nat i)) as [p ->]; [lia|done].
Qed.

(** ** At a concrete store *)

Import MemOpStore.Concrete.

Definition w_arc : DhtArc := Arc 0 (SECTOR_SIZE - 1).
Definition w_now : Timestamp := 1200000000000.
Definition w_old : list IncomingOp :=
  [incoming [1;0;0;0] 30000000000 [7]; incoming [2;0;0;0] 900000000000 [8;8]].
Definition w_new : list IncomingOp :=
  [incoming [3;0;0;0] 40000000000 [7]; incoming [5;0;0;0] 950000000000 [9]].
Definition w_store : MemStore := store_of 5 w_old.

Lemma w_store_wf : st_wf w_store.
Proof. apply store_of_wf. apply (bool_decide_eq_true_1 _). vm_compute. done. Qed.

Lemma w_history : history_ok 9 w_arc w_now w_store.
Proof.
  exists 0. split; [done|]. split; [by left|]. intros i.
  rewrite decide_False by lia. done.
Qed.

Lemma w_past : forall op, op ∈ st_ops w_store -> in_constraint w_arc op ->
  created_at op <= w_now.
Proof.
  intros op Hop _. revert op Hop. apply Forall_forall.
  apply (bool_decide_eq_true_1 _). vm_compute. done.
Qed.

Lemma w_now_ok : ts_ok w_now.
Proof. apply (bool_decide_eq_true_1 _). vm_compute. done. Qed.

Lemma w_open : exists tp s', tp_try_from_store 9 w_now w_arc w_store = (Ok tp, s') /\
  tp_wf tp /\ tp_factor tp = 9 /\ tp_sector_constraint tp = w_arc /\
  coherent tp (st_ops s') (st_slice s' w_arc) /\ up_to_date tp w_now /\
  frame w_arc w_store s' /\
  (forall p, last (tp_partial_slices tp) = Some p ->
     tp_next_update_at tp = ts_add (ps_end p) UNIT_TIME).
Proof.
  apply tp_try_from_store_ok; [by unfold factor_ok|done|apply w_store_wf
    |apply w_now_ok|apply w_history|apply w_past].
Qed.

(** The opened partition and the store it left, evaluated. *)
Definition w_opened : res TimePartition * MemStore :=
  tp_try_from_store 9 w_now w_arc w_store.
Definition w_tp : TimePartition :=
  match w_opened.1 with Ok tp => tp | _ => MkTimePartition 0 0 [] 0 0 0 Empty end.

Lemma w_tp_ok : tp_wf w_tp /\ st_wf w_opened.2 /\ tp_sector_constraint w_tp = w_arc /\
  up_to_date w_tp w_now /\ st_ops w_opened.2 = st_ops w_store /\
  coherent w_tp (st_ops w_opened.2) (st_slice w_opened.2 w_arc).
Proof.
  destruct w_open as (tp & s' & E & W & _ & A & C & U & F & _).
  unfold w_tp. fold w_opened in E. rewrite E. cbn [fst snd].
  split; [exact W|]. split; [exact (frame_wf _ _ _ F)|]. split; [exact A|].
  split; [exact U|]. split; [exact (frame_ops _ _ _ F)|exact C].
Qed.

(** The store after it processed [w_new] as well. *)
Definition w_store2 : MemStore := (mem_process_incoming_ops 6 w_new w_opened.2).2.

Lemma w_store2_wf : st_wf w_store2.
Proof.
  apply process_incoming_wf; [apply w_tp_ok|].
  apply (bool_decide_eq_true_1 _). vm_compute. done.
Qed.

Definition w_new_ops : list StoredOp :=
  [MkStoredOp [3;0;0;0] 40000000000; MkStoredOp [5;0;0;0] 950000000000].

Lemma w_store2_ops : st_ops w_store2 ≡ₚ st_ops w_opened.2 ++ w_new_ops.
Proof. vm_compute. solve_Permutation. Qed.

Lemma inform_ops_stored_coherent_witness :
  exists tp' s', tp_inform_ops_stored w_new_ops (w_tp, w_store2) = (Ok tt, (tp', s')) /\
    tp_wf tp' /\ same_layout w_tp tp' /\ frame (tp_sector_constraint w_tp) w_store2 s' /\
    coherent tp' (st_ops s') (st_slice s' (tp_sector_constraint w_tp)).
Proof.
  destruct w_tp_ok as (W & _ & A & _ & O & C).
  apply (inform_ops_stored_coherent w_tp w_store2 (st_ops w_opened.2) w_new_ops).
  - exact W.
  - apply w_store2_wf.
  - rewrite A. apply (bool_decide_eq_true_1 _). vm_compute. done.
  - apply w_store2_ops.
  - rewrite A. exact C.
Defined.

Lemma update_coherent_witness :
  exists tp' s', tp_update (w_now + 500000000000) (w_tp, w_opened.2) = (Ok tt, (tp', s')) /\
    tp_wf tp' /\ same_config w_tp tp' /\ up_to_date tp' (w_now + 500000000000) /\
    frame (tp_sector_constraint w_tp) w_opened.2 s' /\
    coherent tp' (st_ops s') (st_slice s' (tp_sector_constraint tp')).
Proof.
  destruct w_tp_ok as (W & Ws & A & U & O & C).
  apply update_coherent.
  - exact W.
  - exact Ws.
  - apply (bool_decide_eq_true_1 _). vm_compute. done.
  - apply (up_to_date_caught_up w_tp w_now); [exact W|apply w_now_ok|done|exact U].
  - rewrite A. exact C.
Defined.

Lemma try_from_store_coherent_witness :
  exists tp s', tp_try_from_store 9 w_now w_arc w_store = (Ok tp, s') /\
    tp_wf tp /\ tp_sector_constraint tp = w_arc /\ up_to_date tp w_now /\
    frame w_arc w_store s' /\ coherent tp (st_ops s') (st_slice s' w_arc).
Proof.
  apply try_from_store_coherent; [by unfold factor_ok|done|apply w_store_wf
    |apply w_now_ok|apply w_history|apply w_past].
Defined.

Lemma restart_equivalent_witness :
  exists tp' s',
    tp_try_from_store (tp_factor w_tp) w_now (tp_sector_constraint w_tp) w_opened.2
      = (Ok tp', s') /\
    tp_full_slices tp' = tp_full_slices w_tp /\
    tp_partial_slices tp' = tp_partial_slices w_tp /\
    forall arc i, st_slice s' arc i = st_slice w_opened.2 arc i.
Proof.
  destruct w_tp_ok as (W & Ws & A & U & O & C).
  apply restart_equivalent.
  - exact W.
  - exact Ws.
  - apply w_now_ok.
  - exact U.
  - rewrite A. exact C.
  - rewrite O, A. apply w_past.
Defined.

Lemma update_layout_witness :
  exists tp' s' leftover,
    tp_update (w_now + 500000000000) (w_tp, w_opened.2) = (Ok tt, (tp', s')) /\
    contiguous (full_end tp') (layout_of tp') (w_now + 500000000000 - leftover) /\
    descending (tp_factor tp') (layout_of tp') /\
    0 <= leftover <= UNIT_TIME /\
    (tp_full_slices tp' = 0 \/
     full_end tp' + residual (tp_factor tp') <= w_now + 500000000000) /\
    w_now + 500000000000 <= full_end tp' + residual (tp_factor tp') + units (tp_factor tp') /\
    (tp_partial_slices tp' <> [] ->
     tp_next_update_at tp' = w_now + 500000000000 + (UNIT_TIME - leftover)).
Proof.
  destruct w_tp_ok as (W & Ws & A & U & O & C).
  apply update_layout.
  - exact W.
  - exact Ws.
  - apply (bool_decide_eq_true_1 _). vm_compute. done.
  - apply (up_to_date_caught_up w_tp w_now); [exact W|apply w_now_ok|done|exact U].
  - rewrite A. exact C.
Defined.
