(* ===== verification/HashPartition.v ===== *)
(** The partition of the location space into 512 sectors, each with its time
    partition (crates/dht/src/hash.rs). *)
From S2P Require Import Prelude Arc Timestamp Id Combine ArcSet OpStore TimePartition.
From S2P Require Import TimeCoherence.

Record HashPartition : Type := MkHashPartition {
  hp_size : Z;
  hp_sectors : list TimePartition;
}.

(** [HashMap<u32, HashMap<u32, Bytes>>] *)
Abbreviation PartialTimeSliceDetails := (gmap Z (gmap Z bytes)).

Definition num_partitions : Z := U32_MAX / SECTOR_SIZE + 1.

(** The arcs [try_from_store] gives its sectors: all but the last, then the
    last, which takes the remainder of the space. *)
Definition first_sector_arc (i : Z) : DhtArc :=
  Arc (i * SECTOR_SIZE) (saturating_mul_u32 (i + 1) SECTOR_SIZE - 1).
Definition last_sector_arc : DhtArc :=
  Arc ((num_partitions - 1) * SECTOR_SIZE) U32_MAX.

Section hash.
Context {St : Type} `{OpStore St} `{Location}.

Definition hp_try_from_store (time_factor : Z) (current_time : Timestamp)
  : M St HashPartition :=
  let* sectors := fold_m (fun sectors i =>
      let* tp := tp_try_from_store time_factor current_time (first_sector_arc i) in
      ret (sectors ++ [tp])) [] (zrange 0 (num_partitions - 1)) in
  let* tp := tp_try_from_store time_factor current_time last_sector_arc in
  ret (MkHashPartition SECTOR_SIZE (sectors ++ [tp])).

Definition hp_next_update_at (self : HashPartition) : res Timestamp :=
  match hp_sectors self with
  | [] => Panic "Always at least one sector"
  | first :: _ => Ok (tp_next_update_at first)
  end.

(** The sectors of the partition by mutable reference. *)
Definition on_sectors (m : M (list TimePartition * St) unit) : M (HashPartition * St) unit :=
  fun st =>
  let '(r, (sectors, s')) := m (hp_sectors st.1, st.2) in
  (r, (MkHashPartition (hp_size st.1) sectors, s')).

Definition hp_update (current_time : Timestamp) : M (HashPartition * St) unit :=
  on_sectors (fun st => for_each_mut (tp_update current_time) st.1 st.2).

Definition by_location (size : Z) (stored_ops : list StoredOp) : gmap Z (list StoredOp) :=
  foldl (fun acc op =>
    let location := loc (op_id op) / size in
    <[ location := default [] (acc !! location) ++ [op] ]> acc) ∅ stored_ops.

Definition hp_inform_ops_stored (stored_ops : list StoredOp)
  : M (HashPartition * St) unit := fun st =>
  on_sectors (for_each (map_to_list (by_location (hp_size st.1) stored_ops))
    (fun '(location, ops) =>
       at_index (Z.to_nat location) (tp_inform_ops_stored ops))) st.

(** The sectors of the partition that are in the arc set, with their indices. *)
Definition included (self : HashPartition) (arc_set : ArcSet) : list (Z * TimePartition) :=
  List.filter (fun p => includes_sector_index arc_set p.1)
    (imap (fun i tp => (Z.of_nat i, tp)) (hp_sectors self)).

(** [self.sectors[0].full_slice_end_timestamp()] *)
Definition disc_boundary (self : HashPartition) : res Timestamp :=
  match hp_sectors self with
  | [] => Panic "index out of bounds"
  | first :: _ => Ok (full_slice_end_timestamp first)
  end.

(** [if !hash.is_empty() { combine_hashes(&mut combined, hash) }] *)
Definition combine_nonempty (combined hash : bytes) : res bytes :=
  if bool_decide (hash = []) then Ok combined else combine_hashes combined hash.

Definition disc_top_hash (self : HashPartition) (arc_set : ArcSet)
  : M St (bytes * Timestamp) :=
  let* combined := fold_m (fun combined '(_, sector) =>
      let* hash := full_time_slice_top_hash sector in
      lift_res (combine_nonempty combined hash)) [] (included self arc_set) in
  let* timestamp := lift_res (disc_boundary self) in
  ret (combined, timestamp).

Fixpoint combine_all_nonempty (combined : bytes) (hashes : list bytes) : res bytes :=
  match hashes with
  | [] => Ok combined
  | h :: hashes =>
      let? combined := combine_nonempty combined h in combine_all_nonempty combined hashes
  end.

(** [n] rounds of the [while] loop: combine the next hash of every iterator,
    an exhausted iterator giving none. *)
Fixpoint ring_loop (n : nat) (partials : list (list bytes)) : res (list bytes) :=
  match n with
  | O => Ok []
  | S n =>
      let? combined := combine_all_nonempty [] (omap head partials) in
      let? rest := ring_loop n (map tail partials) in
      Ok (combined :: rest)
  end.

(** The loop runs while the first iterator has a next hash. *)
Definition ring_top_hashes (self : HashPartition) (arc_set : ArcSet) : res (list bytes) :=
  let partials := map (fun p => partial_slice_hashes p.2) (included self arc_set) in
  ring_loop (match partials with [] => O | first :: _ => length first end) partials.

Definition disc_sector_hashes (self : HashPartition) (arc_set : ArcSet)
  : M St (gmap Z bytes * Timestamp) :=
  let* out := fold_m (fun out '(sector_index, sector) =>
      let* hash := full_time_slice_top_hash sector in
      ret (if bool_decide (hash = []) then out else <[ sector_index := hash ]> out))
      ∅ (included self arc_set) in
  let* timestamp := lift_res (disc_boundary self) in
  ret (out, timestamp).

Definition disc_sector_sector_details (self : HashPartition) (arc_set : ArcSet)
  (sector_indices : list Z) : M St (gmap Z (gmap Z bytes) * Timestamp) :=
  let* out := fold_m (fun out '(sector_index, sector) =>
      if bool_decide (sector_index ∈ sector_indices) then
        let* hashes := full_time_slice_hashes sector in
        ret (<[ sector_index := list_to_map hashes ]> out)
      else ret out)
      ∅ (included self arc_set) in
  let* timestamp := lift_res (disc_boundary self) in
  ret (out, timestamp).

(** One ring of one sector: the entry is made even for an empty hash. *)
Definition ring_entry (out : PartialTimeSliceDetails) (ring_index sector_index : Z)
  (hash : bytes) : PartialTimeSliceDetails :=
  let entry := default ∅ (out !! ring_index) in
  <[ ring_index := if bool_decide (hash = []) then entry
                   else <[ sector_index := hash ]> entry ]> out.

Fixpoint ring_details_sector (out : PartialTimeSliceDetails) (sector_index : Z)
  (sector : TimePartition) (ring_indices : list Z) : res PartialTimeSliceDetails :=
  match ring_indices with
  | [] => Ok out
  | ring_index :: ring_indices =>
      let? hash := partial_slice_hash sector ring_index in
      ring_details_sector (ring_entry out ring_index sector_index hash)
        sector_index sector ring_indices
  end.

Fixpoint ring_details_loop (out : PartialTimeSliceDetails)
  (sectors : list (Z * TimePartition)) (ring_indices : list Z)
  : res PartialTimeSliceDetails :=
  match sectors with
  | [] => Ok out
  | (i, sector) :: sectors =>
      let? out := ring_details_sector out i sector ring_indices in
      ring_details_loop out sectors ring_indices
  end.

Definition ring_details (self : HashPartition) (arc_set : ArcSet)
  (ring_indices : list Z) : res (PartialTimeSliceDetails * Timestamp) :=
  let? out := ring_details_loop ∅ (included self arc_set) ring_indices in
  let? timestamp := disc_boundary self in
  Ok (out, timestamp).

Definition dht_arc_for_sector_index (self : HashPartition) (sector_index : Z)
  : res DhtArc :=
  if Z.of_nat (length (hp_sectors self)) <=? sector_index then
    Err "Sector index out of bounds"
  else match hp_sectors self !! Z.to_nat sector_index with
       | Some tp => Ok (tp_sector_constraint tp)
       | None => Panic "index out of bounds"
       end.

Definition hp_time_bounds_for_full_slice_index (self : HashPartition) (slice_index : Z)
  : res (Timestamp * Timestamp) :=
  match hp_sectors self with
  | [] => Panic "index out of bounds"
  | first :: _ => tp_time_bounds_for_full_slice_index first slice_index
  end.

Definition hp_time_bounds_for_partial_slice_index (self : HashPartition) (slice_index : Z)
  : res (Timestamp * Timestamp) :=
  match hp_sectors self with
  | [] => Panic "index out of bounds"
  | first :: _ => tp_time_bounds_for_partial_slice_index first slice_index
  end.
End hash.

(** The hash partition keeps its 512 time partitions in lockstep and coherent
    with the ops held; the disc and ring hashes it reports are functions of the
    ops in the sectors asked for and of the time alone. *)
(** ** Sector arcs *)

Definition sector_arc (i : Z) : DhtArc :=
  if i =? 511 then last_sector_arc else first_sector_arc i.

Definition is_sector (i : Z) : Prop := 0 <= i < 512.

Lemma sector_arc_bounds i : is_sector i ->
  sector_arc i = Arc (i * SECTOR_SIZE) ((i + 1) * SECTOR_SIZE - 1).
Proof.
  unfold is_sector, sector_arc, last_sector_arc, first_sector_arc, saturating_mul_u32.
  intros Hi. destruct (Z.eqb_spec i 511) as [->|Hne]; [done|].
  rewrite SECTOR_SIZE_val. unfold U32_MAX. f_equal. lia.
Qed.

Lemma sector_arc_contains i l : is_sector i -> is_u32 l ->
  contains (sector_arc i) l = true <-> l / SECTOR_SIZE = i.
Proof.
  intros Hi Hl. pose proof Hi as Hi'. unfold is_sector in Hi'.
  rewrite sector_arc_bounds by done. rewrite contains_in_arc, in_arc_Arc; try done.
  2, 3: unfold arc_wf, is_u32; rewrite SECTOR_SIZE_val; lia.
  rewrite SECTOR_SIZE_val. destruct (Z.ltb_spec ((i + 1) * 8388608 - 1) (i * 8388608)); [lia|].
  split; intros; Z.to_euclidean_division_equations; lia.
Qed.

Lemma sector_arc_inj i j : is_sector i -> is_sector j -> sector_arc i = sector_arc j -> i = j.
Proof.
  intros Hi Hj. rewrite !sector_arc_bounds by done. rewrite SECTOR_SIZE_val.
  intros [= E _]. lia.
Qed.

Lemma sector_arc_nonempty i : is_sector i -> sector_arc i <> Empty.
Proof. intros Hi. by rewrite sector_arc_bounds. Qed.

(** The arcs [try_from_store] passes, in order. *)
Lemma sector_arcs_in_order :
  map first_sector_arc (zrange 0 (num_partitions - 1)) ++ [last_sector_arc]
  = map sector_arc (zrange 0 512).
Proof. vm_compute. done. Qed.

Section hash_coherence.
Context {St : Type} `{OpStoreSpec St}.

(** The sector an op belongs to. *)
Definition sector_of (op : StoredOp) : Z := loc (op_id op) / SECTOR_SIZE.

Lemma sector_of_range op : op_wf op -> is_sector (sector_of op).
Proof.
  intros (_ & Hb & _). pose proof (loc_u32 _ Hb) as [? ?]. unfold is_sector, sector_of.
  rewrite SECTOR_SIZE_val. Z.to_euclidean_division_equations; lia.
Qed.

Lemma in_constraint_sector i op : is_sector i -> op_wf op ->
  in_constraint (sector_arc i) op <-> sector_of op = i.
Proof.
  intros Hi (_ & Hb & _). unfold in_constraint. by apply sector_arc_contains, loc_u32.
Qed.

(** ** Coherence of the sectors *)

(** Sector [i]: its time partition is well formed, has the factor and the
    arc, is laid out for the time, and is coherent with the ops. *)
Record sector_ok (f : Z) (now : Timestamp) (ops : list StoredOp) (s : St)
  (i : Z) (tp : TimePartition) : Prop := {
  so_wf : tp_wf tp;
  so_factor : tp_factor tp = f;
  so_arc : tp_sector_constraint tp = sector_arc i;
  so_layout : up_to_date tp now;
  so_coherent : coherent tp ops (st_slice s (sector_arc i));
}.

Definition sectors_ok (f : Z) (now : Timestamp) (ops : Z -> list StoredOp) (s : St)
  (l : list TimePartition) : Prop :=
  length l = 512%nat /\
  forall i tp, l !! i = Some tp -> sector_ok f now (ops (Z.of_nat i)) s (Z.of_nat i) tp.

(** The whole partition, against all ops. *)
Record hp_ok (f : Z) (now : Timestamp) (ops : list StoredOp) (s : St)
  (hp : HashPartition) : Prop := {
  hp_size_ok : hp_size hp = SECTOR_SIZE;
  hp_sectors_ok : sectors_ok f now (fun _ => ops) s (hp_sectors hp);
}.

Lemma coherent_ext tp ops sl sl' : (forall i, sl' i = sl i) ->
  coherent tp ops sl -> coherent tp ops sl'.
Proof. intros He [Cf Cp]. split; [|done]. intros i. by rewrite He. Qed.

Lemma coherent_filter tp ops ops' sl :
  filter (in_constraint (tp_sector_constraint tp)) ops
  = filter (in_constraint (tp_sector_constraint tp)) ops' ->
  coherent tp ops sl -> coherent tp ops' sl.
Proof.
  intros Hf. assert (forall a b, slice_hash (tp_sector_constraint tp) a b ops
    = slice_hash (tp_sector_constraint tp) a b ops') as Hs.
  { intros a b. unfold slice_hash.
    by rewrite <- slice_ids_filter, Hf, slice_ids_filter. }
  intros [Cf Cp]. split.
  - intros i. rewrite Cf. unfold full_hash. by rewrite Hs.
  - eapply Forall_impl; [exact Cp|]. intros p. unfold partial_ok. by rewrite Hs.
Qed.

Lemma is_sector_lookup (l : list TimePartition) i tp : length l = 512%nat ->
  l !! i = Some tp -> is_sector (Z.of_nat i).
Proof. intros Hl Hi. apply lookup_lt_Some in Hi. unfold is_sector. lia. Qed.

Lemma sector_ok_frame f now ops s s' arc i tp : frame arc s s' -> arc <> sector_arc i ->
  sector_ok f now ops s i tp -> sector_ok f now ops s' i tp.
Proof.
  intros F Hne []. split; try done. apply (coherent_ext _ _ (st_slice s (sector_arc i))); [|done].
  intros j. apply (frame_other _ _ _ F). congruence.
Qed.

(** ** Notice of newly stored ops *)

Lemma up_to_date_same_layout tp tp' now : same_layout tp tp' ->
  up_to_date tp now -> up_to_date tp' now.
Proof.
  intros [(C1 & _) Hf Hl _] [U1 U2]. split; congruence.
Qed.

(** The ops of the groups filed under sector [i]. *)
Definition group_of (groups : list (Z * list StoredOp)) (i : Z) : list StoredOp :=
  concat (map snd (filter (fun g => g.1 = i) groups)).

Lemma inform_groups_ok f now groups : forall ops s l,
  st_wf s -> (forall i, Forall op_wf (ops i)) ->
  Forall (fun g => is_sector g.1 /\
    Forall (fun op => op_wf op /\ in_constraint (sector_arc g.1) op) g.2) groups ->
  sectors_ok f now ops s l ->
  exists l' s',
    for_each groups (fun '(location, ops) =>
      at_index (Z.to_nat location) (tp_inform_ops_stored ops)) (l, s)
      = (Ok tt, (l', s')) /\
    st_wf s' /\ st_ops s' = st_ops s /\
    sectors_ok f now (fun i => ops i ++ group_of groups i) s' l'.
Proof.
  induction groups as [|[k g] groups IH]; intros ops s l Ws Hops Hg [Hl Hs].
  - exists l, s. split_and!; [done..|]. split; [done|]. intros i tp Hi.
    unfold group_of. simpl. rewrite app_nil_r. by apply Hs.
  - apply Forall_cons in Hg as [[Hk Hgk] Hg]. simpl in Hk, Hgk.
    apply Forall_and in Hgk as [Hgw Hgc].
    destruct (lookup_lt_is_Some_2 l (Z.to_nat k)) as [tp Htp];
      [unfold is_sector in Hk; lia|].
    pose proof (Hs _ _ Htp) as [W Hf Ha U C].
    rewrite Z2Nat.id in * by (unfold is_sector in Hk; lia).
    destruct (inform_ops_ok tp s g (ops k)) as (tp' & s1 & E & W' & L & F & C').
    { done. } { done. } { done. } { done. } { by rewrite Ha. } { by rewrite Ha. }
    rewrite Ha in F, C'.
    set (ops1 := fun i => if decide (i = k) then ops i ++ g else ops i).
    destruct (IH ops1 s1 (<[Z.to_nat k := tp']> l)) as (l2 & s2 & E2 & W2 & O2 & [Hl2 S2]).
    { apply F. }
    { intros i. unfold ops1. case_decide; [|done]. by apply Forall_app. }
    { done. }
    { split; [by rewrite length_insert|]. intros i tpi Hi. unfold ops1.
      destruct (decide (i = Z.to_nat k)) as [->|Hne].
      - rewrite list_lookup_insert_eq in Hi by (apply lookup_lt_Some in Htp; done).
        injection Hi as <-. rewrite Z2Nat.id by (unfold is_sector in Hk; lia).
        rewrite decide_True by done. destruct (sl_config _ _ L) as (C1 & _ & _ & C4).
        split; [done|congruence|congruence| |done].
        by apply (up_to_date_same_layout tp).
      - rewrite list_lookup_insert_ne in Hi by done.
        pose proof (is_sector_lookup _ _ _ Hl Hi) as Hsi.
        unfold is_sector in Hk, Hsi. rewrite decide_False by lia.
        apply (sector_ok_frame _ _ _ s _ (sector_arc k)); [done| |by apply Hs].
        intros Heq. apply sector_arc_inj in Heq; (done || lia). }
    exists l2, s2. split_and!; [|done|by rewrite O2, (frame_ops _ _ _ F)|].
    + cbn [for_each]. unfold bind at 1. unfold at_index at 1. cbn [fst snd].
      rewrite Htp, E. done.
    + split; [done|]. intros i tpi Hi. pose proof (S2 _ _ Hi) as Hok. revert Hok.
      unfold ops1, group_of. rewrite filter_cons. cbn [fst].
      repeat case_decide; simplify_eq; try done. simpl. by rewrite <- app_assoc.
Qed.

Lemma by_location_lookup size ops i :
  by_location size ops !! i =
    match filter (fun op => loc (op_id op) / size = i) ops with
    | [] => None
    | l => Some l
    end.
Proof.
  unfold by_location.
  assert (forall m : gmap Z (list StoredOp), foldl (fun acc op =>
      let location := loc (op_id op) / size in
      <[ location := default [] (acc !! location) ++ [op] ]> acc) m ops !! i
    = match filter (fun op => loc (op_id op) / size = i) ops with
      | [] => m !! i
      | l => Some (default [] (m !! i) ++ l)
      end) as Hm; [|by rewrite Hm, lookup_empty; destruct (filter _ _)].
  induction ops as [|op ops IH]; intros m; [done|]. cbn [foldl]. rewrite IH, filter_cons.
  destruct (decide (loc (op_id op) / size = i)) as [<-|Hne].
  - rewrite lookup_insert_eq. simpl.
    destruct (filter _ ops); [done|]. by rewrite <- app_assoc.
  - by rewrite lookup_insert_ne.
Qed.

Lemma group_of_by_location size ops i :
  group_of (map_to_list (by_location size ops)) i
  = filter (fun op => loc (op_id op) / size = i) ops.
Proof.
  pose proof (by_location_lookup size ops i) as Hi.
  set (m := by_location size ops) in *.
  assert (filter (fun g : Z * list StoredOp => g.1 = i) (map_to_list m)
    = match m !! i with Some l => [(i, l)] | None => [] end) as Hf.
  { pose proof (NoDup_fst_map_to_list m) as Hnd.
    assert (forall l, (i, l) ∈ map_to_list m <-> m !! i = Some l) as Hin
      by (intros l; apply elem_of_map_to_list).
    destruct (m !! i) as [l|].
    - apply Permutation_singleton_r, NoDup_Permutation.
      + apply NoDup_filter, NoDup_map_to_list.
      + apply NoDup_singleton.
      + intros [k l']. rewrite list_elem_of_filter, list_elem_of_singleton. simpl. split.
        * intros [-> Hl]. apply Hin in Hl. congruence.
        * intros [= -> ->]. split; [done|by apply Hin].
    - destruct (filter _ (map_to_list m)) as [|[k l] r] eqn:E; [reflexivity|]. exfalso.
      assert ((k, l) ∈ filter (fun g : Z * list StoredOp => g.1 = i) (map_to_list m)) as Hk
        by (rewrite E; left).
      apply list_elem_of_filter in Hk as [Hk1 Hk2]. simpl in Hk1. subst k.
      apply Hin in Hk2. done. }
  unfold group_of. rewrite Hf, Hi. destruct (filter _ ops); simpl; [done|].
  by rewrite app_nil_r.
Qed.

Lemma filter_sector_of i ops : is_sector i -> Forall op_wf ops ->
  filter (fun op => loc (op_id op) / SECTOR_SIZE = i) ops
  = filter (in_constraint (sector_arc i)) ops.
Proof.
  intros Hi. induction 1 as [|op ops Hop _ IH]; [done|]. rewrite !filter_cons, IH.
  pose proof (in_constraint_sector i op Hi Hop) as Hiff. unfold sector_of in Hiff.
  repeat case_decide; tauto || done.
Qed.

Lemma by_location_groups ops : Forall op_wf ops ->
  Forall (fun g => is_sector g.1 /\
    Forall (fun op => op_wf op /\ in_constraint (sector_arc g.1) op) g.2)
    (map_to_list (by_location SECTOR_SIZE ops)).
Proof.
  intros Hw. apply Forall_forall. intros [k g] Hg. simpl.
  apply elem_of_map_to_list in Hg. rewrite by_location_lookup in Hg.
  assert (g = filter (fun op => loc (op_id op) / SECTOR_SIZE = k) ops) as Hgf
    by (destruct (filter _ ops); by simplify_eq).
  assert (forall op, op ∈ g -> sector_of op = k /\ op_wf op) as Hin.
  { intros op Hop. rewrite Hgf in Hop. apply list_elem_of_filter in Hop as [? Hop].
    split; [done|]. by eapply Forall_forall in Hw. }
  assert (is_sector k) as Hk.
  { destruct g as [|op g]; [by destruct (filter _ ops)|].
    destruct (Hin op) as [<- Hop]; [left|]. by apply sector_of_range. }
  split; [done|]. apply Forall_forall. intros op Hop. destruct (Hin op Hop) as [Hs Hwf].
  split; [done|]. by apply in_constraint_sector.
Qed.

Lemma hp_inform_ok f now known new s hp :
  st_wf s -> st_ops s ≡ₚ known ++ new -> hp_ok f now known s hp ->
  exists hp' s', hp_inform_ops_stored new (hp, s) = (Ok tt, (hp', s')) /\
    st_wf s' /\ st_ops s' = st_ops s /\ hp_ok f now (st_ops s') s' hp'.
Proof.
  intros Ws Hp [Hsz Hsec].
  pose proof (st_ops_wf s Ws) as Hw. rewrite Hp in Hw. apply Forall_app in Hw as [Hk Hn].
  destruct (inform_groups_ok f now (map_to_list (by_location SECTOR_SIZE new))
    (fun _ => known) s (hp_sectors hp)) as (l' & s' & E & W' & O' & [Hl' S']).
  { done. } { done. } { by apply by_location_groups. } { done. }
  exists (MkHashPartition SECTOR_SIZE l'), s'. split_and!; [|done..|].
  - unfold hp_inform_ops_stored, on_sectors. cbn [fst snd]. rewrite Hsz, E. done.
  - split; [done|]. split; [done|]. intros i tp Hi. pose proof (S' i tp Hi) as [W1 F1 A1 U1 C1].
    split; try done. apply (coherent_perm tp (known ++ new)); [by rewrite O'|].
    pose proof (is_sector_lookup _ _ _ Hl' Hi) as Hsi.
    apply (coherent_filter tp (known ++ group_of
      (map_to_list (by_location SECTOR_SIZE new)) (Z.of_nat i))); [|done].
    rewrite group_of_by_location, filter_sector_of by done. rewrite A1, !filter_app.
    f_equal. rewrite list_filter_filter. apply list_filter_iff. tauto.
Qed.

(** ** Update *)

Lemma update_sectors_ok f now now' l : forall k s,
  st_wf s -> ts_ok now -> ts_ok now' -> now <= now' ->
  0 <= k -> k + Z.of_nat (length l) <= 512 ->
  (forall j tp, l !! j = Some tp -> sector_ok f now (st_ops s) s (k + Z.of_nat j) tp) ->
  exists l' s', for_each_mut (tp_update now') l s = (Ok tt, (l', s')) /\
    st_wf s' /\ st_ops s' = st_ops s /\ length l' = length l /\
    (forall j tp, l' !! j = Some tp -> sector_ok f now' (st_ops s') s' (k + Z.of_nat j) tp) /\
    (forall i a, 0 <= i < k -> st_slice s' (sector_arc i) a = st_slice s (sector_arc i) a).
Proof.
  induction l as [|tp l IH]; intros k s Ws Hn Hn' Hle Hk Hlen Hs.
  - exists [], s. done.
  - simpl in Hlen. pose proof (Hs 0%nat tp eq_refl) as [W Hf Ha U C].
    rewrite Z.add_0_r in *.
    destruct (tp_update_ok tp s now' W Ws Hn') as (tp' & s1 & E & [W1 C1 F1 G1 U1] & _).
    { by apply (up_to_date_caught_up tp now). }
    { by rewrite Ha. }
    destruct G1 as (G1 & _ & _ & G4). rewrite Ha in F1, G4. rewrite G4 in C1.
    destruct (IH (k + 1) s1) as (l' & s2 & E2 & W2 & O2 & L2 & S2 & R2); try (done || lia).
    { apply F1. }
    { intros j tpj Hj. rewrite (frame_ops _ _ _ F1).
      replace (k + 1 + Z.of_nat j) with (k + Z.of_nat (S j)) by lia.
      apply (sector_ok_frame _ _ _ s _ (sector_arc k)); [done| |by apply Hs].
      intros Heq. apply lookup_lt_Some in Hj. apply sector_arc_inj in Heq; unfold is_sector; lia. }
    exists (tp' :: l'), s2. split_and!; [|done|by rewrite O2, (frame_ops _ _ _ F1)|simpl; lia| |].
    + cbn [for_each_mut]. by rewrite E, E2.
    + intros [|j] tpj Hj.
      * injection Hj as <-. rewrite Z.add_0_r.
        split; [done|congruence|congruence|done|].
        rewrite O2. apply (coherent_ext _ _ (st_slice s1 (sector_arc k))); [|done].
        intros a. apply R2. lia.
      * replace (k + Z.of_nat (S j)) with (k + 1 + Z.of_nat j) by lia. by apply S2.
    + intros i a Hi. rewrite R2 by lia. apply (frame_other _ _ _ F1).
      intros Heq. apply sector_arc_inj in Heq; unfold is_sector; lia.
Qed.

Lemma hp_update_ok f now now' s hp :
  st_wf s -> ts_ok now -> ts_ok now' -> now <= now' -> hp_ok f now (st_ops s) s hp ->
  exists hp' s', hp_update now' (hp, s) = (Ok tt, (hp', s')) /\
    st_wf s' /\ st_ops s' = st_ops s /\ hp_ok f now' (st_ops s') s' hp'.
Proof.
  intros Ws Hn Hn' Hle [Hsz [Hl Hs]].
  destruct (update_sectors_ok f now now' (hp_sectors hp) 0 s) as (l' & s' & E & W & O & L & S & _);
    try (done || lia).
  exists (MkHashPartition (hp_size hp) l'), s'. split_and!; [|done..|].
  - unfold hp_update, on_sectors. cbn [fst snd]. by rewrite E.
  - split; [done|]. split; [simpl; congruence|]. intros i tp Hi.
    specialize (S i tp Hi). by rewrite Z.add_0_l in S.
Qed.

(** ** Construction *)

(** The first [k] sectors have been opened. *)
Record opened (f : Z) (now : Timestamp) (ops : list StoredOp)
  (sz : bytes -> Z) (k : Z) (acc : list TimePartition) (s : St) : Prop := {
  op_st_wf : st_wf s;
  op_ops : st_ops s = ops;
  op_size : st_size s = sz;
  op_len : Z.of_nat (length acc) = k;
  op_sectors : forall i tp, acc !! i = Some tp -> sector_ok f now ops s (Z.of_nat i) tp;
  op_rest : forall j, k <= j < 512 -> history_ok f (sector_arc j) now s;
}.

Lemma history_ok_frame f now s s' arc arc' : frame arc s s' -> arc' <> arc ->
  history_ok f arc' now s -> history_ok f arc' now s'.
Proof.
  intros F Hne (n & Hn & Hb & Hs). exists n. split; [done|]. split; [done|].
  intros i. rewrite (frame_other _ _ _ F), (frame_ops _ _ _ F) by done. apply Hs.
Qed.

Lemma open_sector f now ops sz k acc s :
  factor_ok f -> ts_ok now -> Forall (fun op => created_at op <= now) ops ->
  opened f now ops sz k acc s -> k < 512 ->
  exists tp s', tp_try_from_store f now (sector_arc k) s = (Ok tp, s') /\
    opened f now ops sz (k + 1) (acc ++ [tp]) s'.
Proof.
  intros Hf Hn Hops [W O Z L S R] Hk.
  assert (is_sector k) as Hsk by (unfold is_sector; lia).
  destruct (tp_try_from_store_ok f now (sector_arc k) s)
    as (tp & s' & E & W' & F' & A' & C' & U' & Fr & _); try done.
  { by apply sector_arc_nonempty. }
  { apply R. lia. }
  { intros op Hop _. rewrite O in Hop. by eapply Forall_forall in Hops. }
  exists tp, s'. split; [done|]. split.
  - apply Fr.
  - by rewrite (frame_ops _ _ _ Fr).
  - by rewrite (frame_size _ _ _ Fr).
  - rewrite length_app. simpl. lia.
  - intros i tpi Hi. apply lookup_app_Some in Hi as [Hi|[Hge Hi]].
    + apply (sector_ok_frame _ _ _ s _ (sector_arc k)); [done| |by apply S].
      intros Heq. apply lookup_lt_Some in Hi. apply sector_arc_inj in Heq; unfold is_sector; lia.
    + apply list_lookup_singleton_Some in Hi as [Hi <-].
      replace (Z.of_nat i) with k by lia.
      split; [done..|]. by rewrite (frame_ops _ _ _ Fr), O in C'.
  - intros j Hj. apply (history_ok_frame _ _ s _ (sector_arc k)); [done| |apply R; lia].
    intros Heq. apply sector_arc_inj in Heq; unfold is_sector; lia.
Qed.

Lemma open_sectors f now ops sz n : forall k acc s,
  factor_ok f -> ts_ok now -> Forall (fun op => created_at op <= now) ops ->
  opened f now ops sz k acc s -> 0 <= k -> k + Z.of_nat n <= 511 ->
  exists acc' s',
    fold_m (fun sectors i =>
      let* tp := tp_try_from_store f now (first_sector_arc i) in
      ret (sectors ++ [tp])) acc (zrange k (k + Z.of_nat n)) s = (Ok acc', s') /\
    opened f now ops sz (k + Z.of_nat n) acc' s'.
Proof.
  induction n as [|n IH]; intros k acc s Hf Hn Hops Hop Hk Hb.
  - exists acc, s. unfold zrange. rewrite Z.add_0_r, Z.sub_diag. done.
  - destruct (open_sector f now ops sz k acc s) as (tp & s1 & E1 & Hop1); try (done || lia).
    destruct (IH (k + 1) (acc ++ [tp]) s1) as (acc' & s' & E & Hop'); try (done || lia).
    replace (k + Z.of_nat (S n)) with (k + 1 + Z.of_nat n) by lia.
    exists acc', s'. split; [|done].
    unfold zrange in *. replace (k + 1 + Z.of_nat n - k) with (Z.succ (Z.of_nat n)) by lia.
    rewrite seqZ_cons by lia. replace (k + 1 + Z.of_nat n - (k + 1)) with (Z.of_nat n) in E by lia.
    rewrite Z.pred_succ, <- Z.add_1_r. cbn [fold_m]. unfold bind at 1.
    unfold sector_arc in E1. destruct (Z.eqb_spec k 511); [lia|].
    unfold bind at 1. rewrite E1. exact E.
Qed.

Lemma hp_try_from_store_ok f now s :
  factor_ok f -> ts_ok now -> st_wf s ->
  Forall (fun op => created_at op <= now) (st_ops s) ->
  (forall i, is_sector i -> history_ok f (sector_arc i) now s) ->
  exists hp s', hp_try_from_store f now s = (Ok hp, s') /\
    st_wf s' /\ st_ops s' = st_ops s /\ st_size s' = st_size s /\ hp_ok f now (st_ops s') s' hp.
Proof.
  intros Hf Hn Ws Hops Hh.
  assert (opened f now (st_ops s) (st_size s) 0 [] s) as Hop0.
  { by split. }
  destruct (open_sectors f now (st_ops s) (st_size s) 511 0 [] s) as (acc & s1 & E1 & Hop1); try (done || lia).
  destruct (open_sector f now (st_ops s) (st_size s) 511 acc s1) as (tp & s2 & E2 & [W2 O2 Z2 L2 S2 _]);
    try (done || lia).
  exists (MkHashPartition SECTOR_SIZE (acc ++ [tp])), s2. split_and!; [|done..|].
  - unfold hp_try_from_store. unfold bind at 1.
    change (num_partitions - 1) with (0 + Z.of_nat 511). rewrite E1.
    unfold bind at 1. change last_sector_arc with (sector_arc 511). by rewrite E2.
  - split; [done|]. split; [simpl in *; lia|]. intros i tpi Hi. rewrite O2. by apply S2.
Qed.
End hash_coherence.
