(* ===== verification/HashQueries.v ===== *)
(** The hashes a hash partition reports, as functions of the ops held, the
    sectors asked for and the time alone. *)

From S2P Require Import Prelude Arc Timestamp Id Combine ArcSet OpStore.
From S2P Require Import TimePartition TimeCoherence HashPartition.

Section queries.
Context {St : Type} `{OpStoreSpec St}.

(** The combined hash of the ops of the sectors in the set, created in the
    given time. *)
Definition in_region (set : ArcSet) (a b : Timestamp) (op : StoredOp) : Prop :=
  sector_of op ∈ inner set /\ a <= created_at op < b.

#[global] Instance in_region_dec set a b op : Decision (in_region set a b op).
Proof. unfold in_region. apply _. Defined.

Definition region_hash (set : ArcSet) (a b : Timestamp) (ops : list StoredOp) : bytes :=
  xor_all (map op_id (filter (in_region set a b) ops)).

(** ** Adding up slices *)

Lemma slice_hash_cons arc a b op ops :
  slice_hash arc a b (op :: ops)
  = hxor (if decide (in_slice arc a b op) then op_id op else []) (slice_hash arc a b ops).
Proof.
  unfold slice_hash, slice_ids. rewrite filter_cons. by case_decide.
Qed.

Lemma region_hash_cons set a b op ops :
  region_hash set a b (op :: ops)
  = hxor (if decide (in_region set a b op) then op_id op else []) (region_hash set a b ops).
Proof. unfold region_hash. rewrite filter_cons. by case_decide. Qed.

Lemma hxor_interchange a b c d : hxor (hxor a b) (hxor c d) = hxor (hxor a c) (hxor b d).
Proof.
  rewrite <- !(assoc_L hxor). f_equal. rewrite !(assoc_L hxor). by rewrite (comm_L hxor b c).
Qed.

Lemma slice_hash_split arc a b c ops : a <= b <= c ->
  slice_hash arc a c ops = hxor (slice_hash arc a b ops) (slice_hash arc b c ops).
Proof.
  intros Hb. induction ops as [|op ops IH]; [done|].
  rewrite !slice_hash_cons, IH, hxor_interchange. f_equal.
  unfold in_slice. repeat case_decide; rewrite ?hxor_nil_r; try done; exfalso;
    intuition lia.
Qed.

Lemma xor_all_map_hxor {A} (f g : A -> bytes) l :
  xor_all (map (fun x => hxor (f x) (g x)) l) = hxor (xor_all (map f l)) (xor_all (map g l)).
Proof.
  induction l as [|x l IH]; [done|]. simpl. by rewrite IH, hxor_interchange.
Qed.

Lemma xor_all_indicator (P : Z -> Prop) `{!forall x, Decision (P x)} k h (l : list Z) :
  NoDup l ->
  xor_all (map (fun i => if decide (i = k /\ P i) then h else []) l)
  = if decide (k ∈ l /\ P k) then h else [].
Proof.
  induction 1 as [|i l Hi Hl IH].
  - case_decide as Hd; [|done]. by destruct Hd as [?%elem_of_nil _].
  - cbn [map]. rewrite xor_all_cons, IH. destruct (decide (i = k)) as [->|Hne].
    + rewrite (decide_False (P := k ∈ l /\ _)) by tauto. rewrite hxor_nil_r.
      repeat case_decide; try done; exfalso; set_solver.
    + rewrite (decide_False (P := i = k /\ _)) by tauto. rewrite hxor_nil_l.
      rewrite (decide_ext (k ∈ l /\ P k) (k ∈ i :: l /\ P k)); [done|].
      rewrite elem_of_cons. naive_solver.
Qed.

Definition set_sectors (set : ArcSet) : list Z :=
  filter (fun i => i ∈ inner set) (zrange 0 512).

Lemma elem_of_set_sectors set i : i ∈ set_sectors set <-> is_sector i /\ i ∈ inner set.
Proof.
  unfold set_sectors. rewrite list_elem_of_filter, elem_of_zrange. unfold is_sector. tauto.
Qed.

Lemma NoDup_zrange a b : NoDup (zrange a b).
Proof. apply NoDup_seqZ. Qed.

Lemma NoDup_set_sectors set : NoDup (set_sectors set).
Proof. apply NoDup_filter, NoDup_zrange. Qed.

(** Summing the sectors of a set is taking the region at once. *)
Lemma region_hash_sectors set a b ops : Forall op_wf ops ->
  xor_all (map (fun i => slice_hash (sector_arc i) a b ops) (set_sectors set))
  = region_hash set a b ops.
Proof.
  induction 1 as [|op ops Hop _ IH].
  - induction (set_sectors set) as [|i l IHl]; [done|]. simpl. by rewrite IHl.
  - rewrite region_hash_cons, <- IH.
    erewrite map_ext_in; [|intros i _; apply slice_hash_cons].
    rewrite xor_all_map_hxor. f_equal.
    transitivity (xor_all (map (fun i => if decide (i = sector_of op /\
      a <= created_at op < b) then op_id op else []) (set_sectors set))).
    + f_equal. apply map_ext_in. intros i Hi. apply list_elem_of_In, elem_of_set_sectors in Hi.
      destruct Hi as [Hi _]. pose proof (in_constraint_sector i op Hi Hop) as Hc.
      unfold in_constraint in Hc. unfold in_slice.
      repeat case_decide; try done; exfalso; naive_solver.
    + rewrite (xor_all_indicator (fun _ => a <= created_at op < b)) by apply NoDup_set_sectors.
      unfold in_region. pose proof (elem_of_set_sectors set (sector_of op)).
      pose proof (sector_of_range op Hop).
      repeat case_decide; try done; exfalso; naive_solver.
Qed.

(** ** The top hash of one sector *)

(** The end of the full slices, at a time. *)
Definition boundary (f : Z) (now : Timestamp) : Timestamp := full_count f now * units f.

Lemma xor_full_slices f arc ops (n : nat) : 0 <= f ->
  (forall op, op ∈ ops -> 0 <= created_at op) ->
  xor_all (map (full_hash f arc ops) (zrange 0 (Z.of_nat n)))
  = slice_hash arc 0 (Z.of_nat n * units f) ops.
Proof.
  intros Hf Hops. pose proof (units_pos f Hf). rewrite UNIT_TIME_val in *.
  unfold zrange. rewrite Z.sub_0_r. induction n as [|n IH].
  - simpl. unfold slice_hash. rewrite slice_ids_nil; [done|]. intros op _ [_ ?]. lia.
  - replace (Z.of_nat (S n)) with (Z.of_nat n + 1) by lia.
    rewrite seqZ_app, map_app, xor_all_app, IH by lia.
    rewrite (slice_hash_split arc 0 (Z.of_nat n * units f) ((Z.of_nat n + 1) * units f)) by nia.
    f_equal. change (seqZ (0 + Z.of_nat n) 1) with [Z.of_nat 0 + (0 + Z.of_nat n)].
    cbn [map]. rewrite xor_all_cons, !Z.add_0_l. apply hxor_nil_r.
Qed.

Definition nonempty_hash (p : Z * bytes) : Prop := p.2 <> [].

#[global] Instance nonempty_hash_dec p : Decision (nonempty_hash p).
Proof. unfold nonempty_hash. apply _. Defined.

Lemma stored_hashes_perm f arc n ops (sl : Z -> option bytes) (l : list (Z * bytes)) :
  slices_ok f arc n ops sl -> StronglySorted Z.lt l.*1 ->
  (forall i h, (i, h) ∈ l <-> sl i = Some h) ->
  l ≡ₚ filter nonempty_hash (map (fun i => (i, full_hash f arc ops i)) (zrange 0 n)).
Proof.
  intros Hs Hsort Hin. apply NoDup_Permutation.
  - apply (NoDup_fmap_1 fst). clear Hin. induction Hsort as [|x k Hk IH Hx]; constructor; [|done].
    intros Hxk. eapply Forall_forall in Hx; [|exact Hxk]. lia.
  - apply NoDup_filter. apply (NoDup_fmap_1 fst).
    change (@map Z (Z * bytes)) with (@fmap list _ Z (Z * bytes)).
    rewrite <- list_fmap_compose. simpl. rewrite list_fmap_id. apply NoDup_zrange.
  - intros [i h]. rewrite Hin, Hs, list_elem_of_filter. unfold nonempty_hash. simpl.
    rewrite list_elem_of_fmap. setoid_rewrite elem_of_zrange. split.
    + intros Hi. case_decide as Hd; [|done]. injection Hi as <-. split; [tauto|].
      exists i. tauto.
    + intros [Hne (j & [= -> ->] & Hj)]. by rewrite decide_True.
Qed.

Lemma xor_all_filter_nonempty (l : list (Z * bytes)) :
  xor_all (filter nonempty_hash l).*2 = xor_all l.*2.
Proof.
  induction l as [|[i h] l IH]; [done|]. rewrite filter_cons.
  case_decide as Hd; rewrite ?fmap_cons, ?xor_all_cons, IH; [done|]. simpl.
  unfold nonempty_hash in Hd. simpl in Hd.
  destruct (decide (h = [])) as [->|]; [done|tauto].
Qed.

Lemma top_hash_ok f now ops s i tp :
  st_wf s -> Forall op_wf ops -> sector_ok f now ops s i tp ->
  full_time_slice_top_hash tp s = (Ok (slice_hash (sector_arc i) 0 (boundary f now) ops), s).
Proof.
  intros Ws Hops [W Hf Ha [U _] [Cf _]]. unfold full_time_slice_top_hash, bind.
  rewrite Ha in *. destruct (retrieve_slice_hashes_law s (sector_arc i) Ws) as (l & E & Hsort & Hin).
  rewrite E. unfold lift_res.
  pose proof (stored_hashes_perm _ _ _ _ _ l Cf Hsort Hin) as Hp.
  assert (0 <= tp_full_slices tp) as Hn0 by apply W.
  assert (0 <= tp_factor tp) as Hf0.
  { pose proof (wf_factor tp W) as Hfok. unfold factor_ok in Hfok. lia. }
  assert (xor_all l.*2 = slice_hash (sector_arc i) 0 (boundary f now) ops) as Hx.
  { rewrite Hp, xor_all_filter_nonempty.
    change (@map Z (Z * bytes)) with (@fmap list _ Z (Z * bytes)).
    rewrite <- list_fmap_compose. unfold compose. simpl.
    rewrite <- (Z2Nat.id (tp_full_slices tp)) by done.
    etransitivity; [apply (xor_full_slices (tp_factor tp)); [done|]|].
    - intros op Hop. eapply Forall_forall in Hops as (_ & _ & ? & _); [|done]. done.
    - rewrite Z2Nat.id by done. unfold boundary. by rewrite U, Hf. }
  rewrite (combine_op_hashes_spec op_id_len); [by rewrite Hx|].
  rewrite Hp. apply Forall_fmap, Forall_forall. intros [j h] Hj.
  apply list_elem_of_filter in Hj as [Hne Hj]. simpl in *.
  apply list_elem_of_fmap in Hj as (j' & [= -> ->] & _).
  by destruct (slice_hash_len (sector_arc i) (j' * units (tp_factor tp))
    ((j' + 1) * units (tp_factor tp)) ops Hops).
Qed.

(** ** The sectors visited *)

Lemma included_fst hp set : length (hp_sectors hp) = 512%nat ->
  map fst (included hp set) = set_sectors set.
Proof.
  intros Hl. unfold included, set_sectors.
  rewrite (list_filter_bool _ (fun p => p.1 ∈ inner set))
    by (intros p; apply bool_decide_eq_true).
  assert (map fst (imap (fun i tp => (Z.of_nat i, tp)) (hp_sectors hp)) = zrange 0 512) as <-.
  { change (@map (Z * TimePartition) Z) with (@fmap list _ (Z * TimePartition) Z).
    rewrite fmap_imap. apply list_eq. intros i. rewrite list_lookup_imap.
    unfold zrange. destruct (decide (i < 512)%nat).
    - destruct (lookup_lt_is_Some_2 (hp_sectors hp) i) as [tp ->]; [lia|]. simpl.
      symmetry. apply lookup_seqZ. lia.
    - rewrite (lookup_ge_None_2 (hp_sectors hp)) by lia. simpl. symmetry.
      apply lookup_seqZ_ge. lia. }
  generalize (imap (fun i tp => (Z.of_nat i, tp)) (hp_sectors hp)) as l.
  induction l as [|[i tp] l IH]; [done|]. cbn [map]. rewrite !filter_cons. cbn [fst].
  repeat case_decide; try done. cbn [map fst]. by rewrite IH.
Qed.

Lemma included_ok f now ops s hp set : hp_ok f now ops s hp ->
  Forall (fun p => sector_ok f now ops s p.1 p.2) (included hp set).
Proof.
  intros [_ [_ Hs]]. apply Forall_forall. intros [i tp] Hp. unfold included in Hp.
  apply list_elem_of_In, filter_In in Hp as [Hp _]. apply list_elem_of_In in Hp.
  apply list_elem_of_lookup in Hp as [j Hj]. rewrite list_lookup_imap in Hj.
  destruct (hp_sectors hp !! j) eqn:E; simplify_eq/=. by apply Hs.
Qed.

Lemma disc_boundary_ok f now ops s hp : hp_ok f now ops s hp ->
  disc_boundary hp = Ok (boundary f now).
Proof.
  intros [_ [Hl Hs]]. unfold disc_boundary.
  destruct (hp_sectors hp) as [|tp l]; [done|].
  destruct (Hs 0%nat tp eq_refl) as [W Hf _ [U _] _].
  rewrite full_slice_end_exact by done. unfold full_end, boundary. by rewrite U, Hf.
Qed.

(** ** Disc top hash *)

Definition ok_hash (h : bytes) : Prop := h = [] \/ hash_len op_id_len h.

Lemma combine_nonempty_ok a h : ok_hash a -> ok_hash h ->
  combine_nonempty a h = Ok (hxor a h) /\ ok_hash (hxor a h).
Proof.
  intros Ha Hh. unfold combine_nonempty. split; [|by apply hxor_len_nil].
  case_bool_decide as E.
  - by rewrite E, hxor_nil_r.
  - destruct Hh as [?|Hh]; [done|]. by apply (combine_hashes_spec op_id_len).
Qed.

Lemma disc_fold_ok f now ops s l : st_wf s -> Forall op_wf ops ->
  Forall (fun p => sector_ok f now ops s p.1 p.2) l -> forall acc, ok_hash acc ->
  fold_m (fun combined '(_, sector) =>
      let* hash := full_time_slice_top_hash sector in
      lift_res (combine_nonempty combined hash)) acc l s
  = (Ok (hxor acc (xor_all (map (fun i => slice_hash (sector_arc i) 0 (boundary f now) ops)
                                (map fst l)))), s).
Proof.
  intros Ws Hops. induction 1 as [|[i tp] l Hp Hl IH]; intros acc Ha.
  - simpl. by rewrite hxor_nil_r.
  - cbn [fold_m]. unfold bind at 1 2. simpl in Hp.
    rewrite (top_hash_ok f now ops s i tp) by done. unfold lift_res at 1.
    destruct (combine_nonempty_ok acc (slice_hash (sector_arc i) 0 (boundary f now) ops))
      as [-> Hok]; [done|by apply slice_hash_len|].
    rewrite IH by done. cbn [map fst]. by rewrite xor_all_cons, (assoc_L hxor).
Qed.

Lemma disc_top_hash_ok f now ops s hp set : st_wf s -> Forall op_wf ops ->
  hp_ok f now ops s hp ->
  disc_top_hash hp set s = (Ok (region_hash set 0 (boundary f now) ops, boundary f now), s).
Proof.
  intros Ws Hops Hhp. unfold disc_top_hash. unfold bind at 1.
  rewrite (disc_fold_ok f now ops) by
    (done || by apply (included_ok f now ops s) || by left).
  rewrite (disc_boundary_ok f now ops s) by done.
  rewrite included_fst by apply Hhp. by rewrite region_hash_sectors.
Qed.

(** ** Ring top hashes *)

Lemma combine_all_nonempty_ok hs : Forall ok_hash hs -> forall acc, ok_hash acc ->
  combine_all_nonempty acc hs = Ok (hxor acc (xor_all hs)).
Proof.
  induction 1 as [|h hs Hh Hhs IH]; intros acc Ha; simpl.
  - by rewrite hxor_nil_r.
  - destruct (combine_nonempty_ok acc h Ha Hh) as [-> Hok]. simpl.
    rewrite IH by done. by rewrite (assoc_L hxor).
Qed.

Lemma ring_loop_ok (g : Z -> Timestamp * Z -> bytes) (l : list Z) (R : list (Timestamp * Z)) :
  (forall i r, ok_hash (g i r)) ->
  ring_loop (length R) (map (fun i => map (g i) R) l)
  = Ok (map (fun r => xor_all (map (fun i => g i r) l)) R).
Proof.
  intros Hg. induction R as [|r R IH]; [done|]. cbn [length ring_loop].
  assert (omap head (map (fun i => map (g i) (r :: R)) l) = map (fun i => g i r) l) as ->.
  { clear. induction l as [|i l IH]; [done|]. cbn [map]. simpl. f_equal. exact IH. }
  assert (map tail (map (fun i => map (g i) (r :: R)) l) = map (fun i => map (g i) R) l) as ->.
  { clear. by rewrite map_map. }
  rewrite combine_all_nonempty_ok; [|by apply Forall_map, Forall_true|by left].
  cbn [mbind res_bind]. rewrite IH. done.
Qed.

Definition ring_hash (ops : list StoredOp) (i : Z) (r : Timestamp * Z) : bytes :=
  slice_hash (sector_arc i) r.1 (r.1 + units r.2) ops.

Lemma partial_hashes_ok f now ops s i tp : sector_ok f now ops s i tp ->
  partial_slice_hashes tp = map (ring_hash ops i) (plan f now).
Proof.
  intros [W Hf Ha [_ U] [_ Cp]]. rewrite <- Hf, <- U. unfold partial_slice_hashes, layout_of.
  rewrite map_map. apply map_ext_in. intros p Hp. apply list_elem_of_In in Hp.
  eapply Forall_forall in Cp; [|exact Hp]. unfold partial_ok in Cp. by rewrite Ha in Cp.
Qed.

(** The ring hashes of a set of sectors, at a time. *)
Definition rings (f : Z) (now : Timestamp) (set : ArcSet) (ops : list StoredOp)
  : list bytes :=
  match set_sectors set with
  | [] => []
  | _ => map (fun r => region_hash set r.1 (r.1 + units r.2) ops) (plan f now)
  end.

Lemma ring_top_hashes_ok f now ops s hp set : Forall op_wf ops -> hp_ok f now ops s hp ->
  ring_top_hashes hp set = Ok (rings f now set ops).
Proof.
  intros Hops Hhp. unfold ring_top_hashes.
  assert (map (fun p => partial_slice_hashes p.2) (included hp set)
    = map (fun i => map (ring_hash ops i) (plan f now)) (set_sectors set)) as ->.
  { rewrite <- (included_fst hp) by apply Hhp. rewrite map_map. apply map_ext_in.
    intros p Hp. apply list_elem_of_In in Hp.
    pose proof (included_ok f now ops s hp set Hhp) as Hall.
    eapply Forall_forall in Hall; [|exact Hp]. by apply (partial_hashes_ok f now ops s). }
  assert (forall r, xor_all (map (fun i => ring_hash ops i r) (set_sectors set))
    = region_hash set r.1 (r.1 + units r.2) ops) as Hr
    by (intros r; by apply region_hash_sectors).
  unfold rings. destruct (set_sectors set) as [|i l] eqn:E; [done|].
  cbn [map]. rewrite length_map. change (map (ring_hash ops i) (plan f now)
    :: map (fun i => map (ring_hash ops i) (plan f now)) l)
    with (map (fun i => map (ring_hash ops i) (plan f now)) (i :: l)).
  rewrite ring_loop_ok by (intros; by apply slice_hash_len).
  f_equal. apply map_ext. exact Hr.
Qed.

(** ** Details by sector *)

(** The non-empty hashes of some indices, as a map. *)
Definition tabulate (g : Z -> bytes) (l : list Z) : gmap Z bytes :=
  foldl (fun out i => if bool_decide (g i = []) then out else <[ i := g i ]> out) ∅ l.

Lemma tabulate_lookup g l i :
  tabulate g l !! i = if decide (i ∈ l /\ g i <> []) then Some (g i) else None.
Proof.
  unfold tabulate.
  assert (forall m : gmap Z bytes,
    foldl (fun out i => if bool_decide (g i = []) then out else <[ i := g i ]> out) m l !! i
    = if decide (i ∈ l /\ g i <> []) then Some (g i) else m !! i) as Hm;
    [|by rewrite Hm, lookup_empty].
  induction l as [|j l IH]; intros m; cbn [foldl].
  - rewrite decide_False; [done|]. intros [Hi _]. by apply elem_of_nil in Hi.
  - rewrite IH. destruct (decide (g i = [])) as [He|He].
    + rewrite !decide_False by tauto. case_bool_decide as Hj; [done|].
      rewrite lookup_insert_ne; [done|]. intros ->. done.
    + destruct (decide (i = j)) as [->|Hne].
      * rewrite (decide_True (P := j ∈ j :: l /\ _)) by (split; [left|done]).
        case_decide; [done|]. rewrite bool_decide_false by done. by rewrite lookup_insert_eq.
      * rewrite (decide_ext (i ∈ j :: l /\ g i <> []) (i ∈ l /\ g i <> []))
          by (rewrite elem_of_cons; tauto).
        case_decide; [done|]. case_bool_decide; [done|]. by rewrite lookup_insert_ne.
Qed.

Lemma disc_sectors_fold_ok f now ops s l : st_wf s -> Forall op_wf ops ->
  Forall (fun p => sector_ok f now ops s p.1 p.2) l -> forall acc : gmap Z bytes,
  fold_m (fun out '(sector_index, sector) =>
      let* hash := full_time_slice_top_hash sector in
      ret (if bool_decide (hash = []) then out else <[ sector_index := hash ]> out))
    acc l s
  = (Ok (foldl (fun out i =>
      if bool_decide (slice_hash (sector_arc i) 0 (boundary f now) ops = []) then out
      else <[ i := slice_hash (sector_arc i) 0 (boundary f now) ops ]> out) acc (map fst l)), s).
Proof.
  intros Ws Hops. induction 1 as [|[i tp] l Hp Hl IH]; intros acc; [done|].
  cbn [fold_m]. unfold bind at 1 2. simpl in Hp.
  rewrite (top_hash_ok f now ops s i tp) by done. unfold ret at 1. rewrite IH. done.
Qed.

Definition sector_hashes (f : Z) (now : Timestamp) (set : ArcSet) (ops : list StoredOp)
  : gmap Z bytes :=
  tabulate (fun i => slice_hash (sector_arc i) 0 (boundary f now) ops) (set_sectors set).

Lemma disc_sector_hashes_ok f now ops s hp set : st_wf s -> Forall op_wf ops ->
  hp_ok f now ops s hp ->
  disc_sector_hashes hp set s = (Ok (sector_hashes f now set ops, boundary f now), s).
Proof.
  intros Ws Hops Hhp. unfold disc_sector_hashes. unfold bind at 1.
  rewrite (disc_sectors_fold_ok f now ops) by
    (done || by apply (included_ok f now ops s)).
  rewrite (disc_boundary_ok f now ops s) by done.
  rewrite included_fst by apply Hhp. done.
Qed.

(** The hashes of one sector's full slices. *)
Definition slice_details (f : Z) (now : Timestamp) (ops : list StoredOp) (i : Z)
  : gmap Z bytes :=
  tabulate (full_hash f (sector_arc i) ops) (zrange 0 (full_count f now)).

Lemma full_hashes_ok f now ops s i tp : st_wf s -> sector_ok f now ops s i tp ->
  exists l, full_time_slice_hashes tp s = (Ok l, s) /\
    list_to_map l = slice_details f now ops i.
Proof.
  intros Ws [W Hf Ha [U _] [Cf _]]. unfold full_time_slice_hashes. rewrite Ha in *.
  destruct (retrieve_slice_hashes_law s (sector_arc i) Ws) as (l & E & Hsort & Hin).
  exists l. split; [done|]. apply map_eq. intros j. unfold slice_details.
  rewrite tabulate_lookup.
  assert (NoDup l.*1) as Hnd.
  { clear Hin E. induction Hsort as [|x k Hk IH Hx]; constructor; [|done].
    intros Hxk. eapply Forall_forall in Hx; [|exact Hxk]. lia. }
  transitivity (st_slice s (sector_arc i) j).
  - destruct (st_slice s (sector_arc i) j) as [h|] eqn:Ej.
    + apply elem_of_list_to_map_1; [done|]. by apply Hin.
    + apply not_elem_of_list_to_map_1. intros Hj.
      apply list_elem_of_fmap in Hj as ([j' h] & -> & Hj). apply Hin in Hj.
      simpl in *. congruence.
  - rewrite Cf, U, Hf. apply decide_ext. by rewrite elem_of_zrange.
Qed.

(** Sector details: an entry per sector asked for, empty or not. *)
Definition sector_details (f : Z) (now : Timestamp) (set : ArcSet) (indices : list Z)
  (ops : list StoredOp) : gmap Z (gmap Z bytes) :=
  foldl (fun out i => if bool_decide (i ∈ indices)
                      then <[ i := slice_details f now ops i ]> out else out)
    ∅ (set_sectors set).

Lemma sector_details_lookup f now set indices ops i :
  sector_details f now set indices ops !! i =
    if decide (i ∈ set_sectors set /\ i ∈ indices)
    then Some (slice_details f now ops i) else None.
Proof.
  unfold sector_details.
  assert (forall l (m : gmap Z (gmap Z bytes)),
    foldl (fun out i => if bool_decide (i ∈ indices)
      then <[ i := slice_details f now ops i ]> out else out) m l !! i
    = if decide (i ∈ l /\ i ∈ indices) then Some (slice_details f now ops i) else m !! i)
    as Hm; [|by rewrite Hm, lookup_empty].
  induction l as [|j l IH]; intros m; cbn [foldl].
  - rewrite decide_False; [done|]. intros [Hi _]. by apply elem_of_nil in Hi.
  - rewrite IH. destruct (decide (i = j)) as [->|Hne].
    + case_bool_decide as Hj.
      * rewrite lookup_insert_eq. rewrite (decide_True (P := j ∈ j :: l /\ _)) by (split; [left|done]).
        by case_decide.
      * by rewrite !decide_False by tauto.
    + rewrite (decide_ext (i ∈ j :: l /\ i ∈ indices) (i ∈ l /\ i ∈ indices))
        by (rewrite elem_of_cons; tauto).
      case_decide; [done|]. case_bool_decide; [|done]. by rewrite lookup_insert_ne.
Qed.

Lemma disc_details_fold_ok f now ops s (indices : list Z) l : st_wf s ->
  Forall (fun p => sector_ok f now ops s p.1 p.2) l ->
  forall acc : gmap Z (gmap Z bytes),
  fold_m (fun out '(sector_index, sector) =>
      if bool_decide (sector_index ∈ indices) then
        let* hashes := full_time_slice_hashes sector in
        ret (<[ sector_index := list_to_map hashes ]> out)
      else ret out) acc l s
  = (Ok (foldl (fun out i => if bool_decide (i ∈ indices)
                      then <[ i := slice_details f now ops i ]> out else out)
      acc (map fst l)), s).
Proof.
  intros Ws. induction 1 as [|[i tp] l Hp Hl IH]; intros acc; [done|].
  simpl in Hp. destruct (full_hashes_ok f now ops s i tp Ws Hp) as (h & Eh & Hm).
  cbn [fold_m map foldl fst]. unfold bind at 1. case_bool_decide.
  - unfold bind at 1. rewrite Eh. unfold ret at 1. rewrite Hm. apply IH.
  - unfold ret at 1. apply IH.
Qed.

Lemma disc_sector_details_ok f now ops s hp set indices : st_wf s ->
  hp_ok f now ops s hp ->
  disc_sector_sector_details hp set indices s
  = (Ok (sector_details f now set indices ops, boundary f now), s).
Proof.
  intros Ws Hhp. unfold disc_sector_sector_details. unfold bind at 1.
  rewrite (disc_details_fold_ok f now ops) by
    (done || by apply (included_ok f now ops s)).
  rewrite (disc_boundary_ok f now ops s) by done.
  rewrite included_fst by apply Hhp. done.
Qed.

(** ** Details by ring *)

(** The hash of a ring in a sector. *)
Definition ring_at (f : Z) (now : Timestamp) (ops : list StoredOp) (r i : Z) : bytes :=
  match plan f now !! Z.to_nat r with Some x => ring_hash ops i x | None => [] end.

Definition set_entry (i : Z) (h : bytes) (entry : gmap Z bytes) : gmap Z bytes :=
  if bool_decide (h = []) then entry else <[ i := h ]> entry.

Definition ring_row (f : Z) (now : Timestamp) (ops : list StoredOp) (rs : list Z) (i : Z)
  (out : PartialTimeSliceDetails) : PartialTimeSliceDetails :=
  foldl (fun out r => ring_entry out r i (ring_at f now ops r i)) out rs.

Definition ring_table (f : Z) (now : Timestamp) (set : ArcSet) (rs : list Z)
  (ops : list StoredOp) : PartialTimeSliceDetails :=
  foldl (fun out i => ring_row f now ops rs i out) ∅ (set_sectors set).

Lemma ring_row_lookup f now ops rs i out r :
  ring_row f now ops rs i out !! r =
    if decide (r ∈ rs) then Some (set_entry i (ring_at f now ops r i) (default ∅ (out !! r)))
    else out !! r.
Proof.
  unfold ring_row. revert out. induction rs as [|r' rs IH]; intros out; cbn [foldl].
  - rewrite decide_False; [done|]. apply not_elem_of_nil.
  - rewrite IH. unfold ring_entry. destruct (decide (r = r')) as [->|Hne].
    + rewrite lookup_insert_eq. rewrite (decide_True (P := r' ∈ r' :: rs)) by left.
      unfold set_entry. case_decide; [|done]. simpl. case_bool_decide; [done|].
      by rewrite insert_insert_eq.
    + rewrite lookup_insert_ne by done.
      rewrite (decide_ext (r ∈ r' :: rs) (r ∈ rs)); [done|].
      rewrite elem_of_cons. tauto.
Qed.

(** Row [r] of the table has the non-empty hashes of that ring by sector. *)
Lemma ring_table_lookup f now set rs ops r :
  ring_table f now set rs ops !! r =
    if decide (r ∈ rs /\ set_sectors set <> [])
    then Some (tabulate (ring_at f now ops r) (set_sectors set)) else None.
Proof.
  unfold ring_table, tabulate.
  assert (forall l (m : PartialTimeSliceDetails),
    foldl (fun out i => ring_row f now ops rs i out) m l !! r
    = if decide (r ∈ rs /\ l <> [])
      then Some (foldl (fun out i => if bool_decide (ring_at f now ops r i = []) then out
             else <[ i := ring_at f now ops r i ]> out) (default ∅ (m !! r)) l)
      else m !! r) as Hm; [|by rewrite Hm, lookup_empty].
  induction l as [|i l IH]; intros m; cbn [foldl].
  - by rewrite decide_False by tauto.
  - rewrite IH, ring_row_lookup. destruct (decide (r ∈ rs)) as [Hr|Hr].
    + rewrite (decide_True (P := r ∈ rs /\ i :: l <> [])) by done.
      destruct l as [|j l]; [by rewrite decide_False by tauto|].
      by rewrite decide_True by done.
    + by rewrite !decide_False by tauto.
Qed.

Lemma partial_slice_hash_ok f now ops s i tp r : sector_ok f now ops s i tp -> 0 <= r ->
  partial_slice_hash tp r =
    if decide (r < Z.of_nat (length (plan f now))) then Ok (ring_at f now ops r i)
    else Err "Requested slice index is beyond the current partial slices".
Proof.
  intros Hok Hr. pose proof (partial_hashes_ok f now ops s i tp Hok) as Hp.
  unfold partial_slice_hash, ring_at. unfold partial_slice_hashes in Hp.
  assert ((ps_hash <$> tp_partial_slices tp !! Z.to_nat r)
    = (ring_hash ops i <$> plan f now !! Z.to_nat r)) as Hl.
  { rewrite <- !list_lookup_fmap. by f_equal. }
  destruct (tp_partial_slices tp !! Z.to_nat r) as [p|],
    (plan f now !! Z.to_nat r) as [x|] eqn:Ex; simplify_eq/=.
  - apply lookup_lt_Some in Ex. rewrite decide_True by lia. congruence.
  - apply lookup_ge_None in Ex. by rewrite decide_False by lia.
Qed.

Lemma ring_details_sector_ok f now ops s i tp rs : sector_ok f now ops s i tp ->
  Forall (fun r => 0 <= r < Z.of_nat (length (plan f now))) rs -> forall out,
  ring_details_sector out i tp rs = Ok (ring_row f now ops rs i out).
Proof.
  intros Hok. unfold ring_row. induction 1 as [|r rs Hr Hrs IH]; intros out; [done|].
  cbn [ring_details_sector foldl].
  rewrite (partial_slice_hash_ok f now ops s i) by (done || lia).
  rewrite decide_True by lia. cbn [mbind res_bind]. apply IH.
Qed.

Lemma ring_details_loop_ok f now ops s l rs :
  Forall (fun p => sector_ok f now ops s p.1 p.2) l ->
  Forall (fun r => 0 <= r < Z.of_nat (length (plan f now))) rs -> forall out,
  ring_details_loop out l rs
  = Ok (foldl (fun out i => ring_row f now ops rs i out) out (map fst l)).
Proof.
  intros Hl Hrs. induction Hl as [|[i tp] l Hp Hl IH]; intros out; [done|]. simpl in Hp.
  cbn [ring_details_loop map foldl fst].
  rewrite (ring_details_sector_ok f now ops s) by done. cbn [mbind res_bind]. apply IH.
Qed.

Lemma ring_details_ok f now ops s hp set rs : hp_ok f now ops s hp ->
  Forall (fun r => 0 <= r < Z.of_nat (length (plan f now))) rs ->
  ring_details hp set rs = Ok (ring_table f now set rs ops, boundary f now).
Proof.
  intros Hhp Hrs. unfold ring_details.
  rewrite (ring_details_loop_ok f now ops s) by
    (done || by apply (included_ok f now ops s)).
  cbn [mbind res_bind]. rewrite (disc_boundary_ok f now ops s) by done.
  cbn [mbind res_bind]. by rewrite included_fst by apply Hhp.
Qed.

(** A ring beyond the partial slices is an error, not a panic. *)
Lemma ring_details_sector_err f now ops s i tp rs : sector_ok f now ops s i tp ->
  Forall (fun r => 0 <= r) rs -> ~ Forall (fun r => r < Z.of_nat (length (plan f now))) rs ->
  forall out, ring_details_sector out i tp rs
    = Err "Requested slice index is beyond the current partial slices".
Proof.
  intros Hok Hpos Hbad out. revert out Hbad. induction Hpos as [|r rs Hr Hrs IH]; intros out Hbad.
  - destruct Hbad. constructor.
  - cbn [ring_details_sector]. rewrite (partial_slice_hash_ok f now ops s i) by (done || lia).
    case_decide as Hd; [|done]. cbn [mbind res_bind]. apply IH.
    intros Hall. apply Hbad. by constructor.
Qed.

Lemma ring_details_err f now ops s hp set rs : hp_ok f now ops s hp ->
  set_sectors set <> [] -> Forall (fun r => 0 <= r) rs ->
  ~ Forall (fun r => r < Z.of_nat (length (plan f now))) rs ->
  ring_details hp set rs = Err "Requested slice index is beyond the current partial slices".
Proof.
  intros Hhp Hne Hpos Hbad. unfold ring_details.
  pose proof (included_ok f now ops s hp set Hhp) as Hincl.
  pose proof (included_fst hp set) as Hfst.
  destruct (included hp set) as [|[i tp] l].
  - destruct Hne. rewrite <- Hfst by apply Hhp. done.
  - apply Forall_cons in Hincl as [Hp _]. cbn [ring_details_loop].
    by rewrite (ring_details_sector_err f now ops s).
Qed.
End queries.
