(* ===== verification/Snapshot.v ===== *)
(** Snapshots of the DHT state and their comparison
    (crates/dht/src/dht/snapshot.rs). *)

From S2P Require Import Prelude Arc Timestamp Id.

(** ** Data *)

Inductive DhtSnapshot : Type :=
  | Minimal (disc_top_hash : bytes) (disc_boundary : Timestamp)
      (ring_top_hashes : list bytes)
  | DiscSectors (disc_sector_top_hashes : gmap Z bytes) (disc_boundary : Timestamp)
  | DiscSectorDetails (disc_sector_hashes : gmap Z (gmap Z bytes))
      (disc_boundary : Timestamp)
  | RingSectorDetails (ring_sector_hashes : gmap Z (gmap Z bytes))
      (disc_boundary : Timestamp).

#[global] Instance DhtSnapshot_eq_dec : EqDecision DhtSnapshot.
Proof. solve_decision. Defined.

Inductive SnapshotDiff : Type :=
  | Identical
  | CannotCompare
  | DiscMismatch
  | DiscSectorMismatches (mismatched_sectors : list Z)
  | DiscSectorSliceMismatches (mismatched_slices : gmap Z (list Z))
  | RingMismatches (mismatched_rings : list Z)
  | RingSectorMismatches (mismatched_sectors : gmap Z (list Z)).

(** ** Comparison *)

(** The indices of the positions where two lists differ, as far as both go. *)
Fixpoint hash_mismatch_from (idx : Z) (ls rs : list bytes) : list Z :=
  match ls, rs with
  | l :: ls, r :: rs =>
      if bool_decide (l = r) then hash_mismatch_from (idx + 1) ls rs
      else wrap_u32 idx :: hash_mismatch_from (idx + 1) ls rs
  | _, _ => []
  end.

Definition hash_mismatch_indices (left_ right_ : list bytes) : list Z :=
  hash_mismatch_from 0 left_ right_.

Definition symmetric_difference (a b : gset Z) : gset Z := (a ∖ b) ∪ (b ∖ a).

(** The keys one of the maps lacks, then the common keys with different values. *)
Definition mismatched_keys (our other : gmap Z bytes) : list Z :=
  elements (symmetric_difference (dom our) (dom other))
  ++ List.filter (fun k => negb (bool_decide (our !! k = other !! k)))
       (elements (dom our ∩ dom other)).

Definition keys {A} (m : gmap Z A) : list Z := elements (dom m).

(** The sectors one side lacks, each with all the slices the other side has. *)
Definition lacking_sectors (our other : gmap Z (gmap Z bytes)) : gmap Z (list Z) :=
  list_to_map (map (fun i =>
      (i, match our !! i with
          | Some m => keys m
          | None => match other !! i with Some m => keys m | None => [] end
          end))
    (elements (symmetric_difference (dom our) (dom other)))).

Definition inner_map (m : gmap Z (gmap Z bytes)) (i : Z) : gmap Z bytes :=
  match m !! i with Some x => x | None => ∅ end.

Definition compare (self other : DhtSnapshot) : SnapshotDiff :=
  if bool_decide (self = other) then Identical
  else match self, other with
  | Minimal our_disc_top_hash our_disc_boundary our_ring_top_hashes,
    Minimal other_disc_top_hash other_disc_boundary other_ring_top_hashes =>
      if negb (our_disc_boundary =? other_disc_boundary) then CannotCompare
      else if negb (bool_decide (our_disc_top_hash = other_disc_top_hash)) then DiscMismatch
      else if negb (length our_ring_top_hashes =? length other_ring_top_hashes)%nat
      then CannotCompare
      else RingMismatches (hash_mismatch_indices our_ring_top_hashes other_ring_top_hashes)
  | DiscSectors our our_disc_boundary, DiscSectors other other_disc_boundary =>
      if negb (our_disc_boundary =? other_disc_boundary) then CannotCompare
      else DiscSectorMismatches (mismatched_keys our other)
  | DiscSectorDetails our our_disc_boundary, DiscSectorDetails other other_disc_boundary =>
      if negb (our_disc_boundary =? other_disc_boundary) then CannotCompare
      else DiscSectorSliceMismatches
        (foldl (fun acc i =>
          let mismatched_slice_indices :=
            mismatched_keys (inner_map our i) (inner_map other i) in
          if bool_decide (mismatched_slice_indices = []) then acc
          else <[ i := match acc !! i with Some l => l | None => [] end
                       ++ mismatched_slice_indices ]> acc)
          (lacking_sectors our other) (elements (dom our ∩ dom other)))
  | RingSectorDetails our our_disc_boundary, RingSectorDetails other other_disc_boundary =>
      if negb (our_disc_boundary =? other_disc_boundary) then CannotCompare
      else if negb (size (dom our) =? size (dom other))%nat
              || negb (bool_decide (dom our = dom other)) then CannotCompare
      else RingSectorMismatches
        (foldl (fun acc i =>
          <[ i := mismatched_keys (inner_map our i) (inner_map other i) ]> acc)
          ∅ (elements (dom our ∩ dom other)))
  | _, _ => CannotCompare
  end.

(** ** Lemmas *)

Lemma elem_of_symmetric_difference k a b :
  k ∈ symmetric_difference a b <-> (k ∈ a /\ k ∉ b) \/ (k ∈ b /\ k ∉ a).
Proof. unfold symmetric_difference. set_solver. Qed.

Lemma elem_of_mismatched_keys k our other :
  k ∈ mismatched_keys our other <-> our !! k <> other !! k.
Proof.
  unfold mismatched_keys. rewrite elem_of_app, elem_of_elements, elem_of_symmetric_difference.
  rewrite list_elem_of_In, filter_In, <- list_elem_of_In, elem_of_elements, elem_of_intersection.
  rewrite negb_true_iff, bool_decide_eq_false, !elem_of_dom, <- !eq_None_not_Some.
  destruct (our !! k) as [x|], (other !! k) as [y|]; split; intros Hk; try done.
  - destruct Hk as [[[_ ?]|[_ ?]]|[_ ?]]; done.
  - right. split; [split; eauto|done].
  - left. left. eauto.
  - left. right. eauto.
  - exfalso. destruct Hk as [[[[? ?] _]|[[? ?] _]]|[[[? ?] _] _]]; done.
Qed.

Lemma NoDup_mismatched_keys our other : NoDup (mismatched_keys our other).
Proof.
  unfold mismatched_keys. apply NoDup_app. split_and!.
  - apply NoDup_elements.
  - intros k Hk Hk'. apply elem_of_elements, elem_of_symmetric_difference in Hk.
    apply list_elem_of_In, filter_In in Hk' as [Hk' _].
    apply list_elem_of_In, elem_of_elements in Hk'. set_solver.
  - rewrite (list_filter_bool _ (fun k => our !! k <> other !! k)).
    + apply NoDup_filter, NoDup_elements.
    + intros k. by rewrite negb_true_iff, bool_decide_eq_false.
Qed.

(** The value of a key of an inner map. *)
Definition lookup2 (m : gmap Z (gmap Z bytes)) (i j : Z) : option bytes := inner_map m i !! j.

(** The index pair is listed. *)
Definition listed (m : gmap Z (list Z)) (i j : Z) : Prop := exists l, m !! i = Some l /\ j ∈ l.

Lemma elem_of_keys {A} (m : gmap Z A) k : k ∈ keys m <-> is_Some (m !! k).
Proof. unfold keys. by rewrite elem_of_elements, elem_of_dom. Qed.

Lemma lacking_sectors_lookup our other i :
  lacking_sectors our other !! i =
    match our !! i, other !! i with
    | Some m, None => Some (keys m)
    | None, Some m => Some (keys m)
    | _, _ => None
    end.
Proof.
  unfold lacking_sectors. set (f := fun i => match our !! i with Some m => keys m
    | None => match other !! i with Some m => keys m | None => [] end end).
  assert (NoDup (map (fun i => (i, f i)) (elements (symmetric_difference (dom our) (dom other)))).*1)
    as Hnd.
  { change (@map Z (Z * list Z)) with (@fmap list _ Z (Z * list Z)).
    rewrite <- list_fmap_compose. unfold compose. simpl. rewrite list_fmap_id. apply NoDup_elements. }
  destruct (decide (i ∈ symmetric_difference (dom our) (dom other))) as [Hi|Hi].
  - rewrite (elem_of_list_to_map_1 _ i (f i)); [|done|].
    + apply elem_of_symmetric_difference in Hi. rewrite !elem_of_dom in Hi.
      rewrite <- !eq_None_not_Some in Hi. unfold f.
      destruct (our !! i), (other !! i); destruct Hi as [[[? ?] ?]|[[? ?] ?]]; done.
    + apply list_elem_of_fmap. exists i. split; [done|]. by apply elem_of_elements.
  - rewrite not_elem_of_list_to_map_1.
    + rewrite elem_of_symmetric_difference, !elem_of_dom, <- !eq_None_not_Some in Hi.
      destruct (our !! i), (other !! i); try done; exfalso; apply Hi; eauto.
    + intros Hk. apply list_elem_of_fmap in Hk as ([k l] & -> & Hk).
      apply list_elem_of_fmap in Hk as (k' & [= -> ->] & Hk). by apply elem_of_elements in Hk.
Qed.

Lemma lookup2_keys our i j m : our !! i = Some m -> j ∈ keys m <-> is_Some (lookup2 our i j).
Proof. intros Hi. unfold lookup2, inner_map. rewrite Hi. apply elem_of_keys. Qed.

(** One step of the loop over the common sectors. *)
Definition add_mismatches (our other : gmap Z (gmap Z bytes)) (acc : gmap Z (list Z)) (i : Z)
  : gmap Z (list Z) :=
  let l := mismatched_keys (inner_map our i) (inner_map other i) in
  if bool_decide (l = []) then acc
  else <[ i := match acc !! i with Some l => l | None => [] end ++ l ]> acc.

Lemma add_mismatches_lookup our other l acc i : NoDup l ->
  (forall k, k ∈ l -> acc !! k = None) ->
  foldl (add_mismatches our other) acc l !! i =
    if decide (i ∈ l /\ mismatched_keys (inner_map our i) (inner_map other i) <> [])
    then Some (mismatched_keys (inner_map our i) (inner_map other i)) else acc !! i.
Proof.
  intros Hnd. revert acc. induction Hnd as [|k l Hk Hnd IH]; intros acc Hacc.
  - rewrite decide_False; [done|]. intros [Hi _]. by apply elem_of_nil in Hi.
  - cbn [foldl]. rewrite IH.
    + unfold add_mismatches at 1. rewrite (Hacc k) by left. cbv zeta.
      destruct (decide (i = k)) as [->|Hne].
      * rewrite (decide_False (P := k ∈ l /\ _)) by tauto. case_bool_decide as Hm.
        -- rewrite decide_False by tauto. done.
        -- rewrite lookup_insert_eq, decide_True; [done|]. split; [left|done].
      * rewrite (decide_ext (i ∈ k :: l /\ _) (i ∈ l /\
          mismatched_keys (inner_map our i) (inner_map other i) <> []))
          by (rewrite elem_of_cons; tauto).
        case_decide; [done|]. case_bool_decide; [done|]. by rewrite lookup_insert_ne.
    + intros k' Hk'. unfold add_mismatches. cbv zeta. case_bool_decide.
      * apply Hacc. by right.
      * rewrite lookup_insert_ne by (intros ->; done). apply Hacc. by right.
Qed.

Lemma lookup2_None our i j : our !! i = None -> lookup2 our i j = None.
Proof. intros Hi. unfold lookup2, inner_map. rewrite Hi. apply lookup_empty. Qed.

(** A pair is listed exactly when the two sides disagree on its hash. *)
Lemma slice_mismatches_spec our other i j :
  listed (foldl (add_mismatches our other) (lacking_sectors our other)
            (elements (dom our ∩ dom other))) i j
  <-> lookup2 our i j <> lookup2 other i j.
Proof.
  unfold listed. rewrite add_mismatches_lookup; [|apply NoDup_elements|].
  2: { intros k Hk. apply elem_of_elements, elem_of_intersection in Hk as [Hk Hk'].
       apply elem_of_dom in Hk as [x Hx], Hk' as [y Hy].
       rewrite lacking_sectors_lookup, Hx, Hy. done. }
  rewrite lacking_sectors_lookup.
  destruct (our !! i) as [x|] eqn:Ex, (other !! i) as [y|] eqn:Ey.
  - assert (i ∈ elements (dom our ∩ dom other)) as Hin.
    { apply elem_of_elements, elem_of_intersection. rewrite !elem_of_dom. eauto. }
    pose proof (elem_of_mismatched_keys j (inner_map our i) (inner_map other i)) as Hm.
    unfold lookup2. case_decide as Hd; rewrite <- Hm.
    + split; [intros (l & [= <-] & ?); done|eauto].
    + split; [intros (l & [=] & _)|]. intros Hj. exfalso. apply Hd. split; [done|].
      intros E. rewrite E in Hj. by apply elem_of_nil in Hj.
  - rewrite decide_False by (rewrite elem_of_elements, elem_of_intersection, !elem_of_dom, Ey;
      intros [[_ [? ?]] _]; done).
    rewrite (lookup2_None other) by done. pose proof (lookup2_keys our i j x Ex) as Hk.
    rewrite not_eq_None_Some, <- Hk. split; [intros (l & [= <-] & ?); done|eauto].
  - rewrite decide_False by (rewrite elem_of_elements, elem_of_intersection, !elem_of_dom, Ex;
      intros [[[? ?] _] _]; done).
    rewrite (lookup2_None our) by done. pose proof (lookup2_keys other i j y Ey) as Hk.
    split.
    + intros (l & [= <-] & Hj). apply Hk in Hj as [h Hh]. by rewrite Hh.
    + intros Hne. eexists. split; [done|]. apply Hk.
      destruct (lookup2 other i j); [eauto|done].
  - rewrite decide_False by (rewrite elem_of_elements, elem_of_intersection, !elem_of_dom, Ex;
      intros [[[? ?] _] _]; done).
    rewrite !lookup2_None by done. split; [intros (l & [=] & _)|done].
Qed.

Lemma ring_mismatches_lookup our other l (acc : gmap Z (list Z)) i :
  foldl (fun acc i => <[ i := mismatched_keys (inner_map our i) (inner_map other i) ]> acc)
    acc l !! i
  = if decide (i ∈ l) then Some (mismatched_keys (inner_map our i) (inner_map other i))
    else acc !! i.
Proof.
  revert acc. induction l as [|k l IH]; intros acc; cbn [foldl].
  - rewrite decide_False; [done|]. apply not_elem_of_nil.
  - rewrite IH. destruct (decide (i = k)) as [->|Hne].
    + rewrite lookup_insert_eq, (decide_True (P := k ∈ k :: l)) by left. by case_decide.
    + rewrite lookup_insert_ne by done.
      rewrite (decide_ext (i ∈ k :: l) (i ∈ l)); [done|]. rewrite elem_of_cons. tauto.
Qed.

Lemma ring_mismatches_spec our other r i : dom our = dom other ->
  listed (foldl (fun acc i =>
      <[ i := mismatched_keys (inner_map our i) (inner_map other i) ]> acc)
      ∅ (elements (dom our ∩ dom other))) r i
  <-> lookup2 our r i <> lookup2 other r i.
Proof.
  intros Hd. unfold listed. rewrite ring_mismatches_lookup, lookup_empty.
  pose proof (elem_of_mismatched_keys i (inner_map our r) (inner_map other r)) as Hm.
  unfold lookup2. rewrite <- Hm. case_decide as Hr.
  - split; [intros (l & [= <-] & ?); done|eauto].
  - rewrite elem_of_elements, Hd in Hr.
    assert (r ∉ dom our) as Hr1 by (by rewrite Hd; set_solver).
    assert (r ∉ dom other) as Hr2 by set_solver. apply not_elem_of_dom in Hr1, Hr2.
    assert (inner_map our r = ∅) as -> by (unfold inner_map; by rewrite Hr1).
    assert (inner_map other r = ∅) as -> by (unfold inner_map; by rewrite Hr2).
    split; [intros (l & [=] & _)|]. by intros Hi%elem_of_mismatched_keys.
Qed.

Lemma hash_mismatch_spec ls rs idx k : 0 <= idx ->
  idx + Z.of_nat (length ls) <= 2 ^ 32 -> length ls = length rs ->
  k ∈ hash_mismatch_from idx ls rs <->
  exists n : nat, k = idx + Z.of_nat n /\ ls !! n <> rs !! n.
Proof.
  revert rs idx k. induction ls as [|l ls IH]; intros [|r rs] idx k Hi Hb Hlen; simpl in *; try done.
  - split; [by intros ?%elem_of_nil|]. by intros (n & _ & Hn).
  - assert (forall k, k ∈ hash_mismatch_from (idx + 1) ls rs <->
      exists n : nat, k = idx + Z.of_nat (S n) /\ ls !! n <> rs !! n) as IH'.
    { intros k'. rewrite IH by lia. split; intros (n & -> & Hn); exists n; split; (done || lia). }
    case_bool_decide as E; rewrite ?elem_of_cons, IH'.
    + split; [intros (n & -> & Hn); by exists (S n)|].
      intros ([|n] & -> & Hn); [simpl in Hn; congruence|by exists n].
    + rewrite wrap_u32_id by (unfold is_u32; lia). split.
      * intros [->|(n & -> & Hn)]; [exists 0%nat; split; [lia|simpl; congruence]|by exists (S n)].
      * intros ([|n] & -> & Hn); [left; lia|right; by exists n].
Qed.

Lemma differ_some {A} (x y : option A) : x <> y -> is_Some x \/ is_Some y.
Proof. destruct x, y; naive_solver. Qed.

(** What the entries of a mismatch map name. *)
Lemma slice_mismatch_entry our other i l :
  foldl (add_mismatches our other) (lacking_sectors our other)
    (elements (dom our ∩ dom other)) !! i = Some l ->
  (is_Some (our !! i) \/ is_Some (other !! i)) /\ NoDup l /\
  forall j, j ∈ l -> is_Some (lookup2 our i j) \/ is_Some (lookup2 other i j).
Proof.
  intros Hl.
  assert (forall j, j ∈ l -> is_Some (lookup2 our i j) \/ is_Some (lookup2 other i j)) as Hj.
  { intros j Hj. apply differ_some, slice_mismatches_spec. by exists l. }
  rewrite add_mismatches_lookup in Hl; [|apply NoDup_elements|].
  2: { intros k Hk. apply elem_of_elements, elem_of_intersection in Hk as [Hk Hk'].
       apply elem_of_dom in Hk as [x Hx], Hk' as [y Hy].
       rewrite lacking_sectors_lookup, Hx, Hy. done. }
  split_and!; [| |done].
  - case_decide as Hd.
    + destruct Hd as [Hd _]. apply elem_of_elements, elem_of_intersection in Hd as [Hd _].
      left. by apply elem_of_dom.
    + rewrite lacking_sectors_lookup in Hl.
      destruct (our !! i), (other !! i); naive_solver.
  - case_decide as Hd; [injection Hl as <-; apply NoDup_mismatched_keys|].
    rewrite lacking_sectors_lookup in Hl.
    destruct (our !! i), (other !! i); simplify_eq; apply NoDup_elements.
Qed.

Lemma ring_mismatch_entry our other r l : dom our = dom other ->
  foldl (fun acc i =>
      <[ i := mismatched_keys (inner_map our i) (inner_map other i) ]> acc)
      (∅ : gmap Z (list Z)) (elements (dom our ∩ dom other)) !! r = Some l ->
  is_Some (our !! r) /\ NoDup l /\
  forall i, i ∈ l -> is_Some (lookup2 our r i) \/ is_Some (lookup2 other r i).
Proof.
  intros Hd Hl.
  assert (forall i, i ∈ l -> is_Some (lookup2 our r i) \/ is_Some (lookup2 other r i)) as Hi.
  { intros i Hi. apply differ_some, ring_mismatches_spec; [done|]. by exists l. }
  rewrite ring_mismatches_lookup, lookup_empty in Hl. case_decide as Hr; [|done].
  injection Hl as <-. split_and!; [|apply NoDup_mismatched_keys|done].
  apply elem_of_dom. by apply elem_of_elements, elem_of_intersection in Hr as [? _].
Qed.

(** ** Properties of the comparison *)

(** What a comparison reports is exactly how the two snapshots differ:
    identical only when equal, and otherwise the sectors, slices, rings or ring
    sectors listed are those whose hashes differ, one side lacking a hash
    included; different kinds or time boundaries are never compared further. *)
Theorem compare_exact a b :
  match compare a b with
  | Identical => a = b
  | CannotCompare => a <> b
  | DiscMismatch => exists h h' t r r', a = Minimal h t r /\ b = Minimal h' t r' /\ h <> h'
  | DiscSectorMismatches l => exists m m' t,
      a = DiscSectors m t /\ b = DiscSectors m' t /\ NoDup l /\
      forall k, k ∈ l <-> m !! k <> m' !! k
  | DiscSectorSliceMismatches l => exists m m' t,
      a = DiscSectorDetails m t /\ b = DiscSectorDetails m' t /\
      forall i j, listed l i j <-> lookup2 m i j <> lookup2 m' i j
  | RingMismatches l => exists h t r r',
      a = Minimal h t r /\ b = Minimal h t r' /\ length r = length r' /\
      (Z.of_nat (length r) <= 2 ^ 32 ->
       forall k, k ∈ l <-> exists n : nat, k = Z.of_nat n /\ r !! n <> r' !! n)
  | RingSectorMismatches l => exists m m' t,
      a = RingSectorDetails m t /\ b = RingSectorDetails m' t /\ dom m = dom m' /\
      forall r i, listed l r i <-> lookup2 m r i <> lookup2 m' r i
  end.
Proof.
  unfold compare. case_bool_decide as Hab; [done|].
  destruct a as [h t r|m t|m t|m t], b as [h' t' r'|m' t'|m' t'|m' t']; try done;
    (destruct (Z.eqb_spec t t') as [<-|]; [|done]); simpl.
  - case_bool_decide as Hh; simpl; [subst h'|by exists h, h', t, r, r'].
    destruct (Nat.eqb_spec (length r) (length r')) as [Hl|]; [|done]. simpl.
    exists h, t, r, r'. split_and!; [done..|]. intros Hb k.
    unfold hash_mismatch_indices. rewrite hash_mismatch_spec by (done || lia).
    by setoid_rewrite Z.add_0_l.
  - exists m, m', t. split_and!; [done..|apply NoDup_mismatched_keys|].
    intros k. apply elem_of_mismatched_keys.
  - exists m, m', t. split_and!; [done..|]. intros i j. apply slice_mismatches_spec.
  - case_bool_decide as Hd; [|by rewrite orb_true_r].
    assert ((size (dom m) =? size (dom m'))%nat = true) as -> by (by rewrite Hd, Nat.eqb_refl).
    simpl. exists m, m', t. split_and!; [done..|].
    intros r i. by apply ring_mismatches_spec.
Qed.

(** The same difference, up to the order in which it is listed. *)
Definition diff_equiv (d d' : SnapshotDiff) : Prop :=
  match d, d' with
  | Identical, Identical | CannotCompare, CannotCompare | DiscMismatch, DiscMismatch => True
  | DiscSectorMismatches l, DiscSectorMismatches l' => forall k, k ∈ l <-> k ∈ l'
  | RingMismatches l, RingMismatches l' => l = l'
  | DiscSectorSliceMismatches l, DiscSectorSliceMismatches l'
  | RingSectorMismatches l, RingSectorMismatches l' =>
      forall i j, listed l i j <-> listed l' i j
  | _, _ => False
  end.

Lemma hash_mismatch_from_sym idx ls rs :
  hash_mismatch_from idx ls rs = hash_mismatch_from idx rs ls.
Proof.
  revert idx rs. induction ls as [|l ls IH]; intros idx [|r rs]; simpl; try done.
  rewrite IH. by rewrite (bool_decide_ext (l = r) (r = l)) by done.
Qed.

(** Comparing is symmetric: both parties find the same difference. *)
Theorem compare_symmetric a b : diff_equiv (compare a b) (compare b a).
Proof.
  unfold compare. rewrite (bool_decide_ext (b = a) (a = b)) by done.
  case_bool_decide as Hab; [done|].
  destruct a as [h t r|m t|m t|m t], b as [h' t' r'|m' t'|m' t'|m' t']; try done;
    rewrite (Z.eqb_sym t' t); (destruct (Z.eqb_spec t t') as [<-|]; [|done]); simpl.
  - rewrite (bool_decide_ext (h' = h) (h = h')) by done.
    case_bool_decide; simpl; [|done]. rewrite (Nat.eqb_sym (length r')).
    destruct (length r =? length r')%nat; simpl; [|done]. apply hash_mismatch_from_sym.
  - intros k. rewrite !elem_of_mismatched_keys. naive_solver.
  - intros i j. fold (add_mismatches m m') (add_mismatches m' m).
    rewrite !slice_mismatches_spec. naive_solver.
  - rewrite (bool_decide_ext (dom m' = dom m) (dom m = dom m')) by done.
    case_bool_decide as Hd; [|by rewrite !orb_true_r].
    assert ((size (dom m) =? size (dom m'))%nat = true) as -> by (by rewrite Hd, Nat.eqb_refl).
    assert ((size (dom m') =? size (dom m))%nat = true) as -> by (by rewrite Hd, Nat.eqb_refl).
    simpl. intros r i. rewrite !ring_mismatches_spec by done. naive_solver.
Qed.
