(* ===== verification/Dht.v ===== *)
(** The DHT model (crates/dht/src/dht.rs): the hash partition with its count of
    ops, the snapshots it produces, and the handling of another party's
    snapshot. *)
From S2P Require Import Prelude Arc Timestamp Id Combine ArcSet OpStore TimePartition.
From S2P Require Import TimeCoherence HashPartition HashQueries Snapshot.

(** The store of the [Dht] record is the state of the computations. *)
Record Dht : Type := MkDht { partition : HashPartition; op_count : Z }.

Inductive DhtSnapshotNextAction : Type :=
  | ActIdentical
  | ActCannotCompare
  | NewSnapshot (snapshot : DhtSnapshot)
  | NewSnapshotAndHashList (snapshot : DhtSnapshot) (ids : list bytes)
  | HashList (ids : list bytes).

(** [sort_by_key] on the entries of a map. *)
Definition by_fst {A} (x y : Z * A) : Prop := x.1 <= y.1.
#[global] Instance by_fst_dec {A} (x y : Z * A) : Decision (by_fst x y).
Proof. unfold by_fst. apply _. Defined.

Section dht.
Context {St : Type} `{OpStore St} `{Location}.

Definition dht_next_update_at (self : Dht) : res Timestamp :=
  hp_next_update_at (partition self).

(** The partition of the model by mutable reference. *)
Definition on_partition (m : M (HashPartition * St) unit) : M (Dht * St) unit := fun st =>
  let '(r, (p, s')) := m (partition st.1, st.2) in
  (r, (MkDht p (op_count st.1), s')).

Definition dht_update (current_time : Timestamp) : M (Dht * St) unit :=
  on_partition (hp_update current_time).

Definition dht_inform_ops_stored (stored_ops : list StoredOp) : M (Dht * St) unit :=
  let count := Z.of_nat (length stored_ops) in
  on_partition (hp_inform_ops_stored stored_ops) ;;*
  on_fst (modify (fun self =>
    MkDht (partition self) (wrap_u64 (op_count self + count)))).

Definition dht_try_from_store (current_time : Timestamp) : M St Dht :=
  let* op_count := query_total_op_count in
  let* partition := hp_try_from_store 9 current_time in
  ret (MkDht partition op_count).

Definition snapshot_minimal (self : Dht) (arc_set : ArcSet) : M St DhtSnapshot :=
  if covered_sector_count arc_set =? 0 then fail "No arcs to snapshot"
  else
    let* (disc_top_hash, disc_boundary) := disc_top_hash (partition self) arc_set in
    let* ring_top_hashes := lift_res (ring_top_hashes (partition self) arc_set) in
    ret (Minimal disc_top_hash disc_boundary ring_top_hashes).

Definition snapshot_ring_sector_details (self : Dht) (mismatched_rings : list Z)
  (arc_set : ArcSet) : res DhtSnapshot :=
  let? (ring_sector_hashes, disc_boundary) :=
    ring_details (partition self) arc_set mismatched_rings in
  Ok (RingSectorDetails ring_sector_hashes disc_boundary).

Definition snapshot_disc_sectors (self : Dht) (arc_set : ArcSet) : M St DhtSnapshot :=
  let* (disc_sector_top_hashes, disc_boundary) :=
    disc_sector_hashes (partition self) arc_set in
  ret (DiscSectors disc_sector_top_hashes disc_boundary).

Definition snapshot_disc_sector_details (self : Dht) (mismatched_sector_indices : list Z)
  (arc_set : ArcSet) : M St DhtSnapshot :=
  let* (disc_sector_hashes, disc_boundary) :=
    disc_sector_sector_details (partition self) arc_set mismatched_sector_indices in
  ret (DiscSectorDetails disc_sector_hashes disc_boundary).

(** One batch of op hashes, taken if it fits: the hashes and bytes so far. *)
Definition take_batch (max_op_data_bytes : Z) (acc : list bytes * Z) (arc : DhtArc)
  (bounds : Timestamp * Timestamp) : M St (list bytes * Z) :=
  let* (op_ids, ub) := retrieve_op_hashes_in_time_slice arc bounds.1 bounds.2 in
  let used := wrap_u32 (acc.2 + ub) in
  ret (if wrap_i32 used <=? max_op_data_bytes then (acc.1 ++ op_ids, used) else acc).

(** The slices of one disc sector, in order. *)
Fixpoint disc_slices_loop (self : Dht) (max_op_data_bytes : Z) (arc : DhtArc)
  (missing_slices : list Z) (acc : list bytes * Z) : M St (list bytes * Z) :=
  match missing_slices with
  | [] => ret acc
  | missing_slice :: missing_slices =>
      match hp_time_bounds_for_full_slice_index (partition self) missing_slice with
      | Ok bounds =>
          let* acc := take_batch max_op_data_bytes acc arc bounds in
          disc_slices_loop self max_op_data_bytes arc missing_slices acc
      | Err _ => disc_slices_loop self max_op_data_bytes arc missing_slices acc
      | Panic e => lift_res (Panic e)
      end
  end.

(** The disc sectors, in order, until the budget is used up. *)
Fixpoint disc_sectors_loop (self : Dht) (max_op_data_bytes : Z)
  (mismatched : list (Z * list Z)) (acc : list bytes * Z) : M St (list bytes * Z) :=
  match mismatched with
  | [] => ret acc
  | (sector_index, missing_slices) :: mismatched =>
      if max_op_data_bytes <=? wrap_i32 acc.2 then ret acc
      else match dht_arc_for_sector_index (partition self) sector_index with
      | Ok arc =>
          let* acc := disc_slices_loop self max_op_data_bytes arc
                        (merge_sort Z.le missing_slices) acc in
          disc_sectors_loop self max_op_data_bytes mismatched acc
      | Err _ => disc_sectors_loop self max_op_data_bytes mismatched acc
      | Panic e => lift_res (Panic e)
      end
  end.

(** The sectors of one ring, in order; [true] when the budget is used up and
    the outer loop is left. *)
Fixpoint ring_sectors_loop (self : Dht) (max_op_data_bytes : Z) (ring_index : Z)
  (missing_sectors : list Z) (acc : list bytes * Z) : M St (list bytes * Z * bool) :=
  match missing_sectors with
  | [] => ret (acc, false)
  | sector_index :: missing_sectors =>
      if max_op_data_bytes <=? wrap_i32 acc.2 then ret (acc, true)
      else match dht_arc_for_sector_index (partition self) sector_index with
      | Ok arc =>
          match hp_time_bounds_for_partial_slice_index (partition self) ring_index with
          | Ok bounds =>
              let* acc := take_batch max_op_data_bytes acc arc bounds in
              ring_sectors_loop self max_op_data_bytes ring_index missing_sectors acc
          | Err _ => ring_sectors_loop self max_op_data_bytes ring_index missing_sectors acc
          | Panic e => lift_res (Panic e)
          end
      | Err _ => ring_sectors_loop self max_op_data_bytes ring_index missing_sectors acc
      | Panic e => lift_res (Panic e)
      end
  end.

Fixpoint rings_loop (self : Dht) (max_op_data_bytes : Z)
  (mismatched : list (Z * list Z)) (acc : list bytes * Z) : M St (list bytes * Z) :=
  match mismatched with
  | [] => ret acc
  | (ring_index, missing_sectors) :: mismatched =>
      let* (acc, stop) := ring_sectors_loop self max_op_data_bytes ring_index
                             (merge_sort Z.le missing_sectors) acc in
      if stop : bool then ret acc
      else rings_loop self max_op_data_bytes mismatched acc
  end.

Definition is_final (our_previous_snapshot : option DhtSnapshot) : bool :=
  match our_previous_snapshot with
  | Some (DiscSectorDetails _ _) | Some (RingSectorDetails _ _) => true
  | _ => false
  end.

(** The snapshot of ours that matches the kind of theirs. *)
Definition our_snapshot_for (self : Dht) (their_snapshot : DhtSnapshot)
  (our_previous_snapshot : option DhtSnapshot) (arc_set : ArcSet) : M St DhtSnapshot :=
  match their_snapshot with
  | Minimal _ _ _ => snapshot_minimal self arc_set
  | DiscSectors _ _ => snapshot_disc_sectors self arc_set
  | DiscSectorDetails disc_sector_hashes _ =>
      match our_previous_snapshot with
      | Some (DiscSectorDetails _ _ as snapshot) => ret snapshot
      | _ => snapshot_disc_sector_details self (keys disc_sector_hashes) arc_set
      end
  | RingSectorDetails ring_sector_hashes _ =>
      match our_previous_snapshot with
      | Some (RingSectorDetails _ _ as snapshot) => ret snapshot
      | _ => lift_res (snapshot_ring_sector_details self (keys ring_sector_hashes) arc_set)
      end
  end.

(** The last message of a comparison, or the last but one. *)
Definition hash_list_action (final : bool) (our_snapshot : DhtSnapshot)
  (acc : list bytes * Z) : DhtSnapshotNextAction * Z :=
  (if final then HashList acc.1 else NewSnapshotAndHashList our_snapshot acc.1, acc.2).

Definition handle_snapshot (self : Dht) (their_snapshot : DhtSnapshot)
  (our_previous_snapshot : option DhtSnapshot) (arc_set : ArcSet)
  (max_op_data_bytes : Z) : M St (DhtSnapshotNextAction * Z) :=
  if covered_sector_count arc_set =? 0 then fail "No arcs to snapshot"
  else
    let final := is_final our_previous_snapshot in
    let* our_snapshot :=
      our_snapshot_for self their_snapshot our_previous_snapshot arc_set in
    match compare our_snapshot their_snapshot with
    | Identical => ret (ActIdentical, 0)
    | CannotCompare => ret (ActCannotCompare, 0)
    | DiscMismatch =>
        let* snapshot := snapshot_disc_sectors self arc_set in
        ret (NewSnapshot snapshot, 0)
    | DiscSectorMismatches mismatched_sectors =>
        let* snapshot := snapshot_disc_sector_details self mismatched_sectors arc_set in
        ret (NewSnapshot snapshot, 0)
    | DiscSectorSliceMismatches mismatched_slice_indices =>
        let* acc := disc_sectors_loop self max_op_data_bytes
          (merge_sort by_fst (map_to_list mismatched_slice_indices)) ([], 0) in
        ret (hash_list_action final our_snapshot acc)
    | RingMismatches mismatched_rings =>
        let* snapshot := lift_res
          (snapshot_ring_sector_details self mismatched_rings arc_set) in
        ret (NewSnapshot snapshot, 0)
    | RingSectorMismatches mismatched_sectors =>
        let* acc := rings_loop self max_op_data_bytes
          (merge_sort by_fst (map_to_list mismatched_sectors)) ([], 0) in
        ret (hash_list_action final our_snapshot acc)
    end.
End dht.

(** The DHT model through its life: opening, updates and notice of stored ops
    as a transition system, its invariant, and the snapshots it produces as
    functions of the ops held. *)
(** The time factor the DHT is created with. *)
Definition FACTOR : Z := 9.

Section dht_state.
Context {St : Type} `{OpStoreSpec St}.

(** Every hash of the model, in memory and in the store, is that of the ops,
    and all sectors are laid out for the same time. *)
Definition dht_ok (now : Timestamp) (ops : list StoredOp) (s : St) (d : Dht) : Prop :=
  hp_ok FACTOR now ops s (partition d).

Lemma FACTOR_ok : factor_ok FACTOR.
Proof. by unfold factor_ok, FACTOR. Qed.

Lemma dht_inform_ok now known new s d :
  st_wf s -> st_ops s ≡ₚ known ++ new -> dht_ok now known s d ->
  exists d' s', dht_inform_ops_stored new (d, s) = (Ok tt, (d', s')) /\
    st_wf s' /\ st_ops s' = st_ops s /\ dht_ok now (st_ops s') s' d' /\
    op_count d' = wrap_u64 (op_count d + Z.of_nat (length new)).
Proof.
  intros Ws Hp Hd.
  destruct (hp_inform_ok FACTOR now known new s (partition d) Ws Hp Hd)
    as (hp' & s' & E & W' & O' & Hhp').
  exists (MkDht hp' (wrap_u64 (op_count d + Z.of_nat (length new)))), s'.
  split_and!; try done. unfold dht_inform_ops_stored. unfold bind at 1, on_partition.
  cbn [fst snd]. by rewrite E.
Qed.

Lemma dht_update_ok now now' s d :
  st_wf s -> ts_ok now -> ts_ok now' -> now <= now' -> dht_ok now (st_ops s) s d ->
  exists d' s', dht_update now' (d, s) = (Ok tt, (d', s')) /\
    st_wf s' /\ st_ops s' = st_ops s /\ dht_ok now' (st_ops s') s' d' /\
    op_count d' = op_count d.
Proof.
  intros Ws Hn Hn' Hle Hd.
  destruct (hp_update_ok FACTOR now now' s (partition d) Ws Hn Hn' Hle Hd)
    as (hp' & s' & E & W' & O' & Hhp').
  exists (MkDht hp' (op_count d)), s'. split_and!; try done.
  unfold dht_update, on_partition. cbn [fst snd]. by rewrite E.
Qed.

(** What an earlier run, or none, leaves in the store. *)
Definition store_ready (now : Timestamp) (s : St) : Prop :=
  st_wf s /\ Forall (fun op => created_at op <= now) (st_ops s) /\
  forall i, is_sector i -> history_ok FACTOR (sector_arc i) now s.

Lemma dht_try_from_store_ok now s : ts_ok now -> store_ready now s ->
  exists d s', dht_try_from_store now s = (Ok d, s') /\
    st_wf s' /\ st_ops s' = st_ops s /\ st_size s' = st_size s /\
    dht_ok now (st_ops s') s' d /\ op_count d = Z.of_nat (length (st_ops s)).
Proof.
  intros Hn (Ws & Hops & Hh).
  destruct (hp_try_from_store_ok FACTOR now s FACTOR_ok Hn Ws Hops Hh)
    as (hp & s' & E & W' & O' & Z' & Hhp).
  exists (MkDht hp (Z.of_nat (length (st_ops s)))), s'. split_and!; try done.
  unfold dht_try_from_store. unfold bind at 1. rewrite query_total_op_count_law by done.
  unfold bind at 1. change 9 with FACTOR. by rewrite E.
Qed.

(** ** The transition system *)

(** The time of the last update, the model and the store. *)
Definition dht_state : Type := Timestamp * Dht * St.

(** New ops enter the store and the model is told; or the clock advances and
    the model is updated.  The host may do the first at any time, with any
    ops it did not hold. *)
Inductive dht_step : dht_state -> dht_state -> Prop :=
  | step_stored now d s new s1 d' s' :
      st_wf s1 -> st_ops s1 ≡ₚ st_ops s ++ new ->
      (forall arc i, st_slice s1 arc i = st_slice s arc i) ->
      dht_inform_ops_stored new (d, s1) = (Ok tt, (d', s')) ->
      dht_step (now, d, s) (now, d', s')
  | step_update now now' d s d' s' :
      ts_ok now' -> now <= now' ->
      dht_update now' (d, s) = (Ok tt, (d', s')) ->
      dht_step (now, d, s) (now', d', s').

(** States reached from opening the model over a ready store. *)
Inductive dht_reachable : dht_state -> Prop :=
  | reach_open now s d s' :
      ts_ok now -> store_ready now s -> dht_try_from_store now s = (Ok d, s') ->
      dht_reachable (now, d, s')
  | reach_step x y : dht_reachable x -> dht_step x y -> dht_reachable y.

Definition dht_inv (x : dht_state) : Prop :=
  ts_ok x.1.1 /\ st_wf x.2 /\ dht_ok x.1.1 (st_ops x.2) x.2 x.1.2.

Lemma dht_ok_slices now ops s s' d :
  (forall arc i, st_slice s' arc i = st_slice s arc i) ->
  dht_ok now ops s d -> dht_ok now ops s' d.
Proof.
  intros He [Hsz [Hl Hs]]. split; [done|]. split; [done|]. intros i tp Hi.
  destruct (Hs i tp Hi) as [? ? ? ? C]. split; try done.
  apply (coherent_ext _ _ (st_slice s (sector_arc (Z.of_nat i)))); [|done].
  intros j. apply He.
Qed.

Lemma dht_step_inv x y : dht_inv x -> dht_step x y -> dht_inv y.
Proof.
  intros (Hn & Ws & Hd) Hstep. destruct Hstep as [now d s new s1 d' s' W1 Hp Hsl E
    | now now' d s d' s' Hn' Hle E]; simpl in *.
  - destruct (dht_inform_ok now (st_ops s) new s1 d) as (d2 & s2 & E2 & W2 & O2 & D2 & _);
      [done|done|by apply (dht_ok_slices now _ s)|].
    rewrite E in E2. by injection E2 as <- <-.
  - destruct (dht_update_ok now now' s d) as (d2 & s2 & E2 & W2 & O2 & D2 & _); try done.
    rewrite E in E2. by injection E2 as <- <-.
Qed.

Lemma dht_reachable_inv x : dht_reachable x -> dht_inv x.
Proof.
  induction 1 as [now s d s' Hn Hr E|x y _ IH Hstep]; [|by apply (dht_step_inv x)].
  destruct (dht_try_from_store_ok now s Hn Hr) as (d2 & s2 & E2 & W2 & _ & _ & D2 & _).
  rewrite E in E2. injection E2 as <- <-. done.
Qed.


(** ** Snapshots as functions of the ops *)

Definition minimal_of (now : Timestamp) (set : ArcSet) (ops : list StoredOp) : DhtSnapshot :=
  Minimal (region_hash set 0 (boundary FACTOR now) ops) (boundary FACTOR now)
    (rings FACTOR now set ops).

Definition disc_sectors_of (now : Timestamp) (set : ArcSet) (ops : list StoredOp)
  : DhtSnapshot :=
  DiscSectors (sector_hashes FACTOR now set ops) (boundary FACTOR now).

Definition disc_details_of (now : Timestamp) (set : ArcSet) (indices : list Z)
  (ops : list StoredOp) : DhtSnapshot :=
  DiscSectorDetails (sector_details FACTOR now set indices ops) (boundary FACTOR now).

Definition ring_details_of (now : Timestamp) (set : ArcSet) (indices : list Z)
  (ops : list StoredOp) : DhtSnapshot :=
  RingSectorDetails (ring_table FACTOR now set indices ops) (boundary FACTOR now).

(** The set is not empty and names sectors only. *)
Definition set_ok (set : ArcSet) : Prop := arc_set_wf set /\ inner set <> ∅.

Lemma covered_nonzero set : set_ok set -> (covered_sector_count set =? 0) = false.
Proof.
  intros [_ Hne]. unfold covered_sector_count. apply Z.eqb_neq.
  intros E. apply Hne. apply leibniz_equiv, size_empty_inv. lia.
Qed.

Lemma set_sectors_nonempty set : set_ok set -> set_sectors set <> [].
Proof.
  intros [Hw Hne] E. apply Hne. apply leibniz_equiv. intros i. split; [|set_solver].
  intros Hi. assert (i ∈ set_sectors set) as Hin
    by (apply elem_of_set_sectors; split; [by apply Hw|done]).
  rewrite E in Hin. by apply elem_of_nil in Hin.
Qed.

Section at_a_state.
Variables (now : Timestamp) (s : St) (d : Dht) (set : ArcSet).
Hypothesis Ws : st_wf s.
Hypothesis Hd : dht_ok now (st_ops s) s d.

Lemma snapshot_minimal_ok : set_ok set ->
  snapshot_minimal d set s = (Ok (minimal_of now set (st_ops s)), s).
Proof using Ws Hd.
  intros Hset. unfold snapshot_minimal. rewrite covered_nonzero by done.
  pose proof (st_ops_wf s Ws) as Hops.
  unfold bind at 1. rewrite (disc_top_hash_ok FACTOR now (st_ops s)) by done.
  unfold bind at 1, lift_res.
  by rewrite (ring_top_hashes_ok FACTOR now (st_ops s) s).
Qed.

Lemma snapshot_disc_sectors_ok :
  snapshot_disc_sectors d set s = (Ok (disc_sectors_of now set (st_ops s)), s).
Proof using Ws Hd.
  unfold snapshot_disc_sectors, bind. pose proof (st_ops_wf s Ws) as Hops.
  by rewrite (disc_sector_hashes_ok FACTOR now (st_ops s)).
Qed.

Lemma snapshot_disc_details_ok indices :
  snapshot_disc_sector_details d indices set s
  = (Ok (disc_details_of now set indices (st_ops s)), s).
Proof using Ws Hd.
  unfold snapshot_disc_sector_details, bind.
  by rewrite (disc_sector_details_ok FACTOR now (st_ops s)).
Qed.

Lemma snapshot_ring_details_ok indices :
  Forall (fun r => 0 <= r < Z.of_nat (length (plan FACTOR now))) indices ->
  snapshot_ring_sector_details d indices set
  = Ok (ring_details_of now set indices (st_ops s)).
Proof using Hd.
  intros Hi. unfold snapshot_ring_sector_details.
  by rewrite (ring_details_ok FACTOR now (st_ops s) s).
Qed.
End at_a_state.

(** ** Two models over the same ops *)

Definition in_set (set : ArcSet) (op : StoredOp) : Prop := sector_of op ∈ inner set.

#[global] Instance in_set_dec set op : Decision (in_set set op).
Proof. unfold in_set. apply _. Defined.

(** The two collections hold the same ops of the set's sectors. *)
Definition same_ops (set : ArcSet) (ops ops' : list StoredOp) : Prop :=
  filter (in_set set) ops ≡ₚ filter (in_set set) ops'.

Lemma region_hash_filter set a b ops :
  region_hash set a b (filter (in_set set) ops) = region_hash set a b ops.
Proof.
  unfold region_hash. f_equal. f_equal. rewrite list_filter_filter.
  apply list_filter_iff. intros op. unfold in_region, in_set. tauto.
Qed.

Lemma region_hash_same set a b ops ops' : same_ops set ops ops' ->
  region_hash set a b ops = region_hash set a b ops'.
Proof.
  intros Hs. rewrite <- region_hash_filter, <- (region_hash_filter set a b ops').
  unfold region_hash. unfold same_ops in Hs. by rewrite Hs.
Qed.

Lemma rings_same now set ops ops' : same_ops set ops ops' ->
  rings FACTOR now set ops = rings FACTOR now set ops'.
Proof.
  intros Hs. unfold rings. destruct (set_sectors set); [done|].
  apply map_ext. intros r. by apply region_hash_same.
Qed.

Lemma minimal_same now set ops ops' : same_ops set ops ops' ->
  minimal_of now set ops = minimal_of now set ops'.
Proof.
  intros Hs. unfold minimal_of. by rewrite (region_hash_same _ _ _ _ _ Hs), (rings_same _ _ _ _ Hs).
Qed.

(** C9: two models that hold the same ops in the sectors compared, laid out
    for the same time, produce the same minimal snapshot, and each takes the
    other's as identical to its own, whatever their histories, the order in
    which ops arrived, and the ops they hold elsewhere. *)
Theorem converged_identical now s d s' d' set prev max :
  st_wf s -> dht_ok now (st_ops s) s d ->
  st_wf s' -> dht_ok now (st_ops s') s' d' ->
  set_ok set -> same_ops set (st_ops s) (st_ops s') ->
  exists m, snapshot_minimal d set s = (Ok m, s) /\
    snapshot_minimal d' set s' = (Ok m, s') /\
    handle_snapshot d' m prev set max s' = (Ok (ActIdentical, 0), s').
Proof.
  intros Ws Hd Ws' Hd' Hset Hsame. exists (minimal_of now set (st_ops s)).
  pose proof (snapshot_minimal_ok now s' d' set Ws' Hd' Hset) as E'.
  rewrite <- (minimal_same now set _ _ Hsame) in E'.
  split; [by apply snapshot_minimal_ok|]. split; [done|].
  unfold handle_snapshot. rewrite covered_nonzero by done.
  unfold bind at 1, our_snapshot_for. simpl. unfold minimal_of in *. rewrite E'.
  unfold compare. by rewrite bool_decide_true.
Qed.
End dht_state.
