(* ===== verification/DhtSync.v ===== *)
(** The end of a comparison: the op hashes a model lists for the slices that
    differ, within the byte budget, and the whole exchange of snapshots between
    two models. *)

From S2P Require Import Prelude Arc Timestamp Id Combine ArcSet OpStore.
From S2P Require Import TimePartition TimeCoherence HashPartition.
From S2P Require Import HashQueries Snapshot Dht.

(** ** Index pairs of a mismatch *)

Definition pairs_of (L : list (Z * list Z)) : list (Z * Z) :=
  concat (map (fun p => map (pair p.1) p.2) L).

Lemma elem_of_pairs_of L i j : (i, j) ∈ pairs_of L <-> exists l, (i, l) ∈ L /\ j ∈ l.
Proof.
  unfold pairs_of. rewrite list_elem_of_In, in_concat. setoid_rewrite in_map_iff. split.
  - intros (x & ([i' l] & <- & Hl) & Hx). simpl in Hx. apply in_map_iff in Hx as (j' & [= -> ->] & Hj).
    exists l. by rewrite !list_elem_of_In.
  - intros (l & Hl & Hj). apply list_elem_of_In in Hl. apply list_elem_of_In in Hj.
    exists (map (pair i) l). split; [by exists (i, l)|]. by apply in_map.
Qed.

Lemma NoDup_pairs_of L : NoDup L.*1 -> Forall (fun p => NoDup p.2) L -> NoDup (pairs_of L).
Proof.
  induction L as [|[i l] L IH]; [constructor|]. simpl. intros Hnd Hl.
  apply NoDup_cons in Hnd as [Hi Hnd]. apply Forall_cons in Hl as [Hl1 Hl].
  unfold pairs_of. cbn [map concat fst snd]. rewrite NoDup_app.
  split; [|split; [intros [i' j]|by apply IH]].
  - by apply (NoDup_fmap_2 (pair i)).
  - intros Hx Hy. apply list_elem_of_fmap in Hx as (j' & [= -> ->] & _).
    fold (pairs_of L) in Hy. apply elem_of_pairs_of in Hy as (l' & Hl' & _).
    apply Hi. by apply (list_elem_of_fmap_2 fst) in Hl'.
Qed.

(** The entries of a map by key, each list sorted. *)
Definition sorted_entries (m : gmap Z (list Z)) : list (Z * list Z) :=
  map (fun p => (p.1, merge_sort Z.le p.2)) (merge_sort by_fst (map_to_list m)).

Lemma elem_of_sorted_entries m i j : (i, j) ∈ pairs_of (sorted_entries m) <-> listed m i j.
Proof.
  rewrite elem_of_pairs_of. unfold sorted_entries, listed. split.
  - intros (l & Hl & Hj). apply list_elem_of_fmap in Hl as ([i' l'] & [= -> ->] & Hl).
    rewrite merge_sort_Permutation in Hl. apply elem_of_map_to_list in Hl.
    exists l'. split; [done|]. simpl in Hj. by rewrite merge_sort_Permutation in Hj.
  - intros (l & Hl & Hj). exists (merge_sort Z.le l). split.
    + apply list_elem_of_fmap. exists (i, l). split; [done|].
      rewrite merge_sort_Permutation. by apply elem_of_map_to_list.
    + by rewrite merge_sort_Permutation.
Qed.

Lemma NoDup_sorted_entries m : map_Forall (fun _ l => NoDup l) m ->
  NoDup (pairs_of (sorted_entries m)).
Proof.
  intros Hm. apply NoDup_pairs_of.
  - unfold sorted_entries. change (@map (Z * list Z) (Z * list Z))
      with (@fmap list _ (Z * list Z) (Z * list Z)).
    rewrite <- list_fmap_compose. unfold compose. simpl.
    rewrite merge_sort_Permutation. apply NoDup_fst_map_to_list.
  - unfold sorted_entries. apply Forall_map, Forall_forall. intros [i l] Hl. simpl.
    rewrite merge_sort_Permutation in Hl. apply elem_of_map_to_list in Hl.
    rewrite merge_sort_Permutation. by apply (Hm i).
Qed.

Section sync.
Context {St : Type} `{OpStoreSpec St}.

(** ** Taking batches within the budget *)

Abbreviation batch := (DhtArc * (Timestamp * Timestamp))%type.

Definition batch_ids (ops : list StoredOp) (b : batch) : list bytes :=
  slice_ids b.1 b.2.1 b.2.2 ops.

Section at_a_state.
Variables (s : St) (max : Z).
Hypothesis Ws : st_wf s.
(** The store holds less than the integers of the accounting can count. *)
Hypothesis Hmax : 0 <= max /\ total_size (st_size s) (map op_id (st_ops s)) + max < 2 ^ 31.

Definition ids_size (ids : list bytes) : Z := total_size (st_size s) ids.

Definition batches_size (bs : list batch) : Z :=
  foldr (fun b acc => ids_size (batch_ids (st_ops s) b) + acc) 0 bs.

Lemma ids_size_nonneg ids : 0 <= ids_size ids.
Proof using Ws. apply total_size_nonneg. intros id. by apply st_size_nonneg. Qed.

Lemma batches_size_nonneg bs : 0 <= batches_size bs.
Proof using Ws.
  unfold batches_size. induction bs as [|b bs IH]; simpl; [lia|].
  pose proof (ids_size_nonneg (batch_ids (st_ops s) b)). lia.
Qed.

Lemma slice_size_le arc a b :
  ids_size (slice_ids arc a b (st_ops s)) <= ids_size (map op_id (st_ops s)).
Proof using Ws.
  clear Hmax. unfold slice_ids. induction (st_ops s) as [|op ops IH]; [simpl; lia|].
  rewrite filter_cons. pose proof (st_size_nonneg s (op_id op) Ws).
  unfold ids_size, total_size in *. case_decide; cbn [map foldr]; lia.
Qed.

(** The hashes and bytes so far agree and are within the budget. *)
Definition within (acc : list bytes * Z) : Prop :=
  acc.2 = ids_size acc.1 /\ acc.2 <= max.

(** From [acc], batches of [bs] were taken: all of them if they leave room. *)
Record took (bs : list batch) (acc acc' : list bytes * Z) : Prop := {
  took_within : within acc';
  took_from : exists extra, acc'.1 = acc.1 ++ extra /\
    Forall (fun id => exists b, b ∈ bs /\ id ∈ batch_ids (st_ops s) b) extra;
  took_all : acc.2 + batches_size bs < max ->
    acc'.1 ≡ₚ acc.1 ++ concat (map (batch_ids (st_ops s)) bs);
}.

Lemma took_nil acc : within acc -> took [] acc acc.
Proof using Type.
  intros Hw. split; [done| |by rewrite app_nil_r].
  exists []. by rewrite app_nil_r.
Qed.

Lemma took_full bs acc : within acc -> max <= acc.2 -> took bs acc acc.
Proof using Ws.
  intros Hw Hm. split; [done| |].
  - exists []. by rewrite app_nil_r.
  - pose proof (batches_size_nonneg bs). lia.
Qed.

Lemma batches_size_app bs bs' : batches_size (bs ++ bs') = batches_size bs + batches_size bs'.
Proof using Type.
  unfold batches_size. induction bs as [|b bs IH]; simpl; [done|]. rewrite IH. lia.
Qed.

Lemma ids_size_concat bs :
  ids_size (concat (map (batch_ids (st_ops s)) bs)) = batches_size bs.
Proof using Type.
  unfold batches_size. induction bs as [|b bs IH]; [done|]. simpl.
  unfold ids_size in *. rewrite total_size_app. lia.
Qed.

Lemma took_app bs bs' acc acc1 acc2 : within acc ->
  took bs acc acc1 -> took bs' acc1 acc2 -> took (bs ++ bs') acc acc2.
Proof using Ws.
  intros [Hw _] [[W1 M1] (e1 & E1 & F1) A1] [W2 (e2 & E2 & F2) A2]. split; [done| |].
  - exists (e1 ++ e2). split; [by rewrite E2, E1, app_assoc|].
    apply Forall_app. split; (eapply Forall_impl; [eassumption|]).
    + intros id (b & Hb & Hid). exists b. rewrite elem_of_app. auto.
    + intros id (b & Hb & Hid). exists b. rewrite elem_of_app. auto.
  - rewrite batches_size_app. intros Hlt. pose proof (batches_size_nonneg bs').
    specialize (A1 ltac:(lia)).
    assert (acc1.2 = acc.2 + batches_size bs) as Hs.
    { rewrite W1. unfold ids_size. rewrite A1, total_size_app.
      rewrite Hw. f_equal. apply ids_size_concat. }
    rewrite A2 by lia. rewrite A1, map_app, concat_app. by rewrite app_assoc.
Qed.

Lemma take_batch_ok acc b : within acc ->
  exists acc', take_batch max acc b.1 b.2 s = (Ok acc', s) /\ took [b] acc acc'.
Proof using Ws Hmax.
  intros [Hw Hm]. unfold take_batch.
  destruct (retrieve_op_hashes_law s b.1 b.2.1 b.2.2 Ws) as (ids & used & E & Hp & Hu).
  fold (batch_ids (st_ops s) b) in Hp. fold (ids_size ids) in Hu.
  unfold bind. rewrite E.
  assert (ids_size ids = ids_size (batch_ids (st_ops s) b)) as Hsz
    by (unfold ids_size; by rewrite Hp).
  pose proof (slice_size_le b.1 b.2.1 b.2.2) as Hle. fold (batch_ids (st_ops s) b) in Hle.
  unfold ids_size at 2 in Hle.
  pose proof (ids_size_nonneg ids). pose proof (ids_size_nonneg acc.1).
  rewrite wrap_u32_id in Hu by (unfold is_u32; lia).
  rewrite (wrap_u32_id (acc.2 + used)) by (unfold is_u32; lia).
  rewrite wrap_i32_id by lia.
  eexists. split; [reflexivity|]. split.
  - destruct (Z.leb_spec (acc.2 + used) max); [|done]. split; [|done]. simpl.
    unfold ids_size in *. rewrite total_size_app. lia.
  - destruct (Z.leb_spec (acc.2 + used) max); [exists ids|exists []].
    + split; [done|]. apply Forall_forall. intros id Hid. exists b.
      rewrite Hp in Hid. split; [left|done].
    + by rewrite app_nil_r.
  - unfold batches_size. simpl. rewrite app_nil_r. intros Hlt.
    destruct (Z.leb_spec (acc.2 + used) max); [|lia]. simpl. by rewrite Hp.
Qed.
End at_a_state.

Lemma dht_arc_ok now ops s d i : dht_ok now ops s d -> is_sector i ->
  dht_arc_for_sector_index (partition d) i = Ok (sector_arc i).
Proof.
  intros [_ [Hl Hs]] Hi. unfold is_sector in Hi. unfold dht_arc_for_sector_index. rewrite Hl.
  destruct (Z.leb_spec (Z.of_nat 512) i); [lia|].
  destruct (lookup_lt_is_Some_2 (hp_sectors (partition d)) (Z.to_nat i)) as [tp E]; [lia|].
  rewrite E. destruct (Hs _ _ E) as [_ _ Ha _ _]. by rewrite Ha, Z2Nat.id by lia.
Qed.

(** The bounds of full slice [j]. *)
Definition full_bounds (j : Z) : Timestamp * Timestamp :=
  (j * units FACTOR, (j + 1) * units FACTOR).

Lemma first_sector now ops s d : dht_ok now ops s d ->
  exists tp l, hp_sectors (partition d) = tp :: l /\ sector_ok FACTOR now ops s 0 tp.
Proof.
  intros [_ [Hl Hs]]. destruct (hp_sectors (partition d)) as [|tp l] eqn:E; [done|].
  exists tp, l. split; [done|]. by apply (Hs 0%nat).
Qed.

Lemma units_FACTOR : units FACTOR = 460800000000. Proof. done. Qed.

Lemma full_bounds_ok now ops s d j : dht_ok now ops s d ->
  0 <= j < full_count FACTOR now ->
  hp_time_bounds_for_full_slice_index (partition d) j = Ok (full_bounds j).
Proof.
  intros Hd Hj. destruct (first_sector now ops s d Hd) as (tp & l & E & [W Hf _ [U _] _]).
  unfold hp_time_bounds_for_full_slice_index. rewrite E.
  unfold tp_time_bounds_for_full_slice_index. rewrite U, Hf.
  destruct (Z.ltb_spec (full_count FACTOR now) j); [lia|].
  rewrite (wf_duration tp W), Hf. pose proof (wf_full_slices tp W) as [_ Hb].
  unfold full_end in Hb. rewrite U, Hf in Hb. rewrite units_FACTOR in *.
  change (as_secs 460800000000) with 460800.
  rewrite wrap_u64_id by (unfold is_u64; lia).
  unfold from_secs, UNIX_TIMESTAMP, MICROS. unfold full_bounds. rewrite units_FACTOR.
  rewrite (ts_add_exact 0) by lia. rewrite ts_add_exact by lia.
  f_equal. f_equal; lia.
Qed.

(** The bounds of a ring. *)
Definition ring_bounds (now : Timestamp) (r : Z) : Timestamp * Timestamp :=
  match plan FACTOR now !! Z.to_nat r with
  | Some (start, size) => (start, start + units size)
  | None => (0, 0)
  end.

Lemma ring_bounds_eq now r st sz : plan FACTOR now !! Z.to_nat r = Some (st, sz) ->
  ring_bounds now r = (st, st + units sz).
Proof.
  intros E. exact (f_equal (fun o => match o with
    | Some (start, size) => (start, start + units size) | None => (0, 0) end) E).
Qed.

Lemma ring_bounds_ok now ops s d r : dht_ok now ops s d ->
  0 <= r < Z.of_nat (length (plan FACTOR now)) ->
  hp_time_bounds_for_partial_slice_index (partition d) r = Ok (ring_bounds now r).
Proof.
  intros Hd Hr. destruct (first_sector now ops s d Hd) as (tp & l & E & [W Hf _ [_ U] _]).
  unfold hp_time_bounds_for_partial_slice_index. rewrite E.
  unfold tp_time_bounds_for_partial_slice_index. rewrite Hf in U.
  assert (length (tp_partial_slices tp) = length (plan FACTOR now)) as Hl
    by (rewrite <- U; unfold layout_of; by rewrite length_map).
  rewrite Hl. destruct (Z.ltb_spec (Z.of_nat (length (plan FACTOR now))) r); [lia|].
  destruct (lookup_lt_is_Some_2 (tp_partial_slices tp) (Z.to_nat r)) as [p Hp]; [lia|].
  rewrite Hp. unfold ring_bounds. rewrite <- U. unfold layout_of.
  change (@map PartialSlice (Timestamp * Z)) with (@fmap list _ PartialSlice (Timestamp * Z)).
  rewrite list_lookup_fmap, Hp. simpl.
  pose proof (wf_sizes tp W) as Hsz. rewrite Hf in Hsz.
  pose proof (Forall_lookup_1 _ _ _ _ Hsz Hp) as Hpz. simpl in Hpz.
  destruct (wf_contiguous tp W) as (b & Hc & Hb). unfold layout_of in Hc.
  assert (0 <= ps_start p /\ ps_start p + units (ps_size p) <= b) as [Hp0 Hpb].
  { apply list_elem_of_lookup_2, list_elem_of_split in Hp as (l1 & l2 & El).
    rewrite El in Hc, Hsz. apply Forall_app in Hsz as [Hs1 Hs2].
    apply Forall_cons in Hs2 as [_ Hs2].
    assert (forall l, Forall (fun p => 0 <= ps_size p < FACTOR) l ->
      Forall (fun '(_, size) => 0 <= size) (map (fun p => (ps_start p, ps_size p)) l)) as Hpos.
    { intros l'. intros Hl'. apply Forall_map. eapply Forall_impl; [exact Hl'|]. simpl. lia. }
    rewrite map_app in Hc. simpl in Hc.
    assert (forall a k1 k2 c, contiguous a (k1 ++ k2) c ->
      exists m, contiguous a k1 m /\ contiguous m k2 c) as Hsplit.
    { clear. intros a k1. revert a. induction k1 as [|[x z] k1 IH]; intros a k2 c; simpl.
      - intros Hk. by exists a.
      - intros [-> Hk]. destruct (IH _ _ _ Hk) as (m & Hm1 & Hm2). exists m. done. }
    apply Hsplit in Hc as (m & Hc1 & Hc2). simpl in Hc2. destruct Hc2 as [<- Hc2].
    apply contiguous_bounds in Hc1; [|by apply Hpos].
    apply contiguous_bounds in Hc2; [|by apply Hpos].
    destruct (wf_full_slices tp W) as [Hn0 _]. unfold full_end in Hc1.
    rewrite Hf, units_FACTOR in Hc1. lia. }
  do 2 f_equal. unfold ps_end. unfold FACTOR in Hpz. rewrite slice_duration_units by lia.
  pose proof (units_pos (ps_size p) ltac:(lia)). rewrite UNIT_TIME_val in *.
  rewrite ts_add_exact by lia. done.
Qed.

(** ** The loops *)

Section loops.
Variables (now : Timestamp) (s : St) (d : Dht) (max : Z).
Hypothesis Ws : st_wf s.
Hypothesis Hd : dht_ok now (st_ops s) s d.
Hypothesis Hmax : 0 <= max /\ total_size (st_size s) (map op_id (st_ops s)) + max < 2 ^ 31.

Definition disc_batch (p : Z * Z) : batch := (sector_arc p.1, full_bounds p.2).
Definition ring_batch (p : Z * Z) : batch := (sector_arc p.2, ring_bounds now p.1).

Lemma within_i32 acc : within s max acc -> wrap_i32 acc.2 = acc.2.
Proof using Ws Hmax.
  intros [Hw1 Hw2]. pose proof (ids_size_nonneg s Ws acc.1).
  pose proof (ids_size_nonneg s Ws (map op_id (st_ops s))) as Ht. unfold ids_size in Ht.
  apply wrap_i32_id. lia.
Qed.

Lemma disc_slices_took i l acc : is_sector i ->
  Forall (fun j => 0 <= j < full_count FACTOR now) l -> within s max acc ->
  exists acc', disc_slices_loop d max (sector_arc i) l acc s = (Ok acc', s) /\
    took s max (map disc_batch (map (pair i) l)) acc acc'.
Proof using Ws Hd Hmax.
  intros Hi Hl. revert acc. induction Hl as [|j l Hj Hl IH]; intros acc Hw.
  - exists acc. split; [done|]. by apply took_nil.
  - destruct (take_batch_ok s max Ws Hmax acc (disc_batch (i, j)) Hw) as (acc1 & E1 & T1).
    destruct (IH acc1 (took_within _ _ _ _ _ T1)) as (acc2 & E2 & T2).
    exists acc2. split.
    + cbn [disc_slices_loop]. rewrite (full_bounds_ok now (st_ops s) s) by done.
      unfold bind. simpl in E1. rewrite E1. done.
    + simpl. by apply (took_app s max Ws [_] _ acc acc1).
Qed.

(** Every entry names a sector and full slices. *)
Definition disc_entries_ok (L : list (Z * list Z)) : Prop :=
  Forall (fun p => is_sector p.1 /\ Forall (fun j => 0 <= j < full_count FACTOR now) p.2) L.

Lemma disc_sectors_took L acc : disc_entries_ok L -> within s max acc ->
  exists acc', disc_sectors_loop d max L acc s = (Ok acc', s) /\
    took s max (map disc_batch (pairs_of
      (map (fun p => (p.1, merge_sort Z.le p.2)) L))) acc acc'.
Proof using Ws Hd Hmax.
  intros HL. revert acc. induction HL as [|[i l] L [Hi Hl] HL IH]; intros acc Hw.
  - exists acc. split; [done|]. by apply took_nil.
  - cbn [disc_sectors_loop]. rewrite within_i32 by done.
    destruct (Z.leb_spec max acc.2) as [Hle|Hlt].
    + exists acc. split; [done|]. by apply took_full.
    + rewrite (dht_arc_ok now (st_ops s) s) by done.
      destruct (disc_slices_took i (merge_sort Z.le l) acc) as (acc1 & E1 & T1); [done| |done|].
      { by rewrite merge_sort_Permutation. }
      destruct (IH acc1 (took_within _ _ _ _ _ T1)) as (acc2 & E2 & T2).
      exists acc2. split; [unfold bind; by rewrite E1|].
      unfold pairs_of in *. cbn [map concat fst snd]. rewrite map_app.
      by apply (took_app s max Ws _ _ acc acc1).
Qed.

Lemma ring_sectors_took r l acc : 0 <= r < Z.of_nat (length (plan FACTOR now)) ->
  Forall is_sector l -> within s max acc ->
  exists acc' stop, ring_sectors_loop d max r l acc s = (Ok (acc', stop), s) /\
    took s max (map ring_batch (map (pair r) l)) acc acc' /\
    (stop = true -> max <= acc'.2).
Proof using Ws Hd Hmax.
  intros Hr Hl. revert acc. induction Hl as [|i l Hi Hl IH]; intros acc Hw.
  - exists acc, false. split; [done|]. split; [by apply took_nil|done].
  - cbn [ring_sectors_loop]. rewrite within_i32 by done.
    destruct (Z.leb_spec max acc.2) as [Hle|Hlt].
    + exists acc, true. split; [done|]. split; [by apply took_full|done].
    + rewrite (dht_arc_ok now (st_ops s) s), (ring_bounds_ok now (st_ops s) s) by done.
      destruct (take_batch_ok s max Ws Hmax acc (ring_batch (r, i)) Hw) as (acc1 & E1 & T1).
      destruct (IH acc1 (took_within _ _ _ _ _ T1)) as (acc2 & stop & E2 & T2 & Hs).
      exists acc2, stop. split; [|split; [|done]].
      * unfold bind. simpl in E1. rewrite E1. done.
      * simpl. by apply (took_app s max Ws [_] _ acc acc1).
Qed.

Definition ring_entries_ok (L : list (Z * list Z)) : Prop :=
  Forall (fun p => 0 <= p.1 < Z.of_nat (length (plan FACTOR now)) /\ Forall is_sector p.2) L.

Lemma rings_took L acc : ring_entries_ok L -> within s max acc ->
  exists acc', rings_loop d max L acc s = (Ok acc', s) /\
    took s max (map ring_batch (pairs_of
      (map (fun p => (p.1, merge_sort Z.le p.2)) L))) acc acc'.
Proof using Ws Hd Hmax.
  intros HL. revert acc. induction HL as [|[r l] L [Hr Hl] HL IH]; intros acc Hw.
  - exists acc. split; [done|]. by apply took_nil.
  - cbn [rings_loop].
    destruct (ring_sectors_took r (merge_sort Z.le l) acc) as (acc1 & stop & E1 & T1 & Hs);
      [done|by rewrite merge_sort_Permutation|done|].
    unfold bind. rewrite E1.
    destruct (IH acc1 (took_within _ _ _ _ _ T1)) as (acc2 & E2 & T2).
    unfold pairs_of in *. cbn [map concat fst snd]. rewrite map_app.
    destruct stop.
    + exists acc1. split; [done|]. apply (took_app s max Ws _ _ acc acc1); [done..|].
      apply took_full; [done|apply T1|by apply Hs].
    + exists acc2. split; [done|]. by apply (took_app s max Ws _ _ acc acc1).
Qed.
End loops.

(** ** Distinct batches hold distinct ops *)

Lemma batches_le s (f : Z * Z -> batch) P : st_wf s -> NoDup P ->
  (forall p q op, p ∈ P -> q ∈ P -> op ∈ st_ops s ->
     in_slice (f p).1 (f p).2.1 (f p).2.2 op -> in_slice (f q).1 (f q).2.1 (f q).2.2 op ->
     p = q) ->
  batches_size s (map f P) <= total_size (st_size s) (map op_id (st_ops s)).
Proof.
  intros Ws Hnd Hdis. unfold batches_size, batch_ids, ids_size, slice_ids.
  generalize dependent (st_ops s). intros ops Hdis. induction ops as [|op ops IH].
  - clear. induction P as [|p P IH]; simpl in *; lia.
  - specialize (IH ltac:(intros p q op' Hp Hq Hop'; apply Hdis; [done..|by right])).
    assert (forall Q, NoDup Q -> (forall p, p ∈ Q -> p ∈ P) ->
      foldr (fun b acc => total_size (st_size s)
          (map op_id (filter (in_slice b.1 b.2.1 b.2.2) (op :: ops))) + acc) 0 (map f Q)
      <= foldr (fun b acc => total_size (st_size s)
          (map op_id (filter (in_slice b.1 b.2.1 b.2.2) ops)) + acc) 0 (map f Q)
         + st_size s (op_id op) /\
      (Forall (fun p => ~ in_slice (f p).1 (f p).2.1 (f p).2.2 op) Q ->
       foldr (fun b acc => total_size (st_size s)
          (map op_id (filter (in_slice b.1 b.2.1 b.2.2) (op :: ops))) + acc) 0 (map f Q)
       = foldr (fun b acc => total_size (st_size s)
          (map op_id (filter (in_slice b.1 b.2.1 b.2.2) ops)) + acc) 0 (map f Q))) as Hq.
    { pose proof (st_size_nonneg s (op_id op) Ws) as Hsz.
      induction 1 as [|p Q Hp HQ IHQ]; intros HPQ; [split; [simpl; lia|done]|].
      destruct IHQ as [IH1 IH2]; [intros q Hq; apply HPQ; by right|].
      cbn [map foldr]. rewrite filter_cons. case_decide as Hin.
      - unfold total_size at 1 3. cbn [map foldr]. fold (total_size (st_size s)).
        rewrite IH2; [split; [|rewrite Forall_cons; tauto]|].
        + unfold total_size. lia.
        + apply Forall_forall. intros q Hq Hinq.
          assert (p = q) as ->; [|done].
          apply (Hdis p q op); try done; [apply HPQ; left|apply HPQ; by right|left].
      - split; [lia|]. rewrite Forall_cons. intros [_ HQ']. by rewrite IH2. }
    destruct (Hq P Hnd ltac:(done)) as [Hle _].
    unfold total_size at 2. cbn [map foldr]. fold (total_size (st_size s)).
    unfold total_size in *. lia.
Qed.

Lemma contiguous_disjoint a l b n m st1 sz1 st2 sz2 t :
  contiguous a l b -> Forall (fun '(_, size) => 0 <= size) l ->
  l !! n = Some (st1, sz1) -> l !! m = Some (st2, sz2) ->
  st1 <= t < st1 + units sz1 -> st2 <= t < st2 + units sz2 -> n = m.
Proof.
  assert (forall l a b n st sz, contiguous a l b -> Forall (fun '(_, size) => 0 <= size) l ->
    l !! n = Some (st, sz) -> a <= st) as Hge.
  { clear. induction l as [|[s z] l IH]; intros a b n st sz; [done|]. simpl.
    intros [-> Hc] Hf Hn. apply Forall_cons in Hf as [Hz Hf].
    destruct n as [|n]; [simpl in Hn; injection Hn as -> ->; lia|].
    specialize (IH _ _ _ _ _ Hc Hf Hn). pose proof (units_pos z Hz).
    rewrite UNIT_TIME_val in *. lia. }
  revert a n m. induction l as [|[s z] l IH]; intros a n m; [done|]. simpl.
  intros [-> Hc] Hf Hn Hm Ht1 Ht2. apply Forall_cons in Hf as [Hz Hf].
  destruct n as [|n], m as [|m]; simpl in Hn, Hm; simplify_eq; try done.
  - specialize (Hge _ _ _ _ _ _ Hc Hf Hm). lia.
  - specialize (Hge _ _ _ _ _ _ Hc Hf Hn). lia.
  - f_equal. by apply (IH _ n m Hc Hf).
Qed.

Section disjoint.
Variables (now : Timestamp) (s : St) (d : Dht).
Hypothesis Ws : st_wf s.
Hypothesis Hd : dht_ok now (st_ops s) s d.

Lemma in_disc_batch i j op : is_sector i -> op ∈ st_ops s ->
  in_slice (sector_arc i) (full_bounds j).1 (full_bounds j).2 op <->
  i = sector_of op /\ j = created_at op / units FACTOR.
Proof using Ws.
  intros Hi Hop. pose proof (st_ops_wf s Ws) as Hw.
  eapply Forall_forall in Hw; [|exact Hop].
  pose proof (in_constraint_sector i op Hi Hw) as Hc. unfold in_constraint in Hc.
  unfold in_slice, full_bounds. cbn [fst snd]. rewrite Hc, units_FACTOR. split.
  - intros [<- Hr]. split; [done|]. apply (Z.div_unique_pos _ _ _ (created_at op - j * 460800000000)); lia.
  - intros [-> ->]. split; [done|].
    pose proof (Z.mul_div_le (created_at op) 460800000000 eq_refl).
    pose proof (Z.mul_succ_div_gt (created_at op) 460800000000 eq_refl). lia.
Qed.

Lemma plan_shape : exists b, contiguous (boundary FACTOR now) (plan FACTOR now) b /\
  Forall (fun '(_, size) => 0 <= size) (plan FACTOR now).
Proof using Hd.
  destruct (first_sector now (st_ops s) s d Hd) as (tp & l & _ & [W Hf _ [U1 U2] _]).
  rewrite Hf in U1, U2. destruct (wf_contiguous tp W) as (b & Hc & _).
  unfold full_end in Hc. rewrite U1, U2, Hf in Hc. exists b. split; [done|].
  rewrite <- U2. unfold layout_of. apply Forall_map.
  eapply Forall_impl; [apply (wf_sizes tp W)|]. simpl. lia.
Qed.

Lemma disc_batches_le P : NoDup P -> Forall (fun p => is_sector p.1) P ->
  batches_size s (map disc_batch P) <= total_size (st_size s) (map op_id (st_ops s)).
Proof using Ws.
  intros Hnd Hsec. apply batches_le; [done..|]. intros [i j] [i' j'] op Hp Hq Hop H1' H2'.
  eapply Forall_forall in Hp; [|exact Hsec]. eapply Forall_forall in Hq; [|exact Hsec].
  unfold disc_batch in H1', H2'. cbn [fst snd] in *.
  apply in_disc_batch in H1' as [-> ->]; [|done..]. by apply in_disc_batch in H2' as [-> ->].
Qed.

Lemma ring_batches_le P : NoDup P ->
  Forall (fun p => 0 <= p.1 < Z.of_nat (length (plan FACTOR now)) /\ is_sector p.2) P ->
  batches_size s (map (ring_batch now) P) <= total_size (st_size s) (map op_id (st_ops s)).
Proof using Ws Hd.
  intros Hnd Hsec. apply batches_le; [done..|]. intros [r i] [r' i'] op Hp Hq Hop.
  eapply Forall_forall in Hp; [|exact Hsec]. eapply Forall_forall in Hq; [|exact Hsec].
  simpl in Hp, Hq. destruct Hp as [Hr Hi], Hq as [Hr' Hi'].
  unfold in_slice, ring_batch. cbn [fst snd].
  destruct (lookup_lt_is_Some_2 (plan FACTOR now) (Z.to_nat r)) as [[st sz] E]; [lia|].
  destruct (lookup_lt_is_Some_2 (plan FACTOR now) (Z.to_nat r')) as [[st' sz'] E']; [lia|].
  rewrite (ring_bounds_eq _ _ _ _ E), (ring_bounds_eq _ _ _ _ E').
  cbn [fst snd]. intros [Hc Ht] [Hc' Ht'].
  pose proof (st_ops_wf s Ws) as Hw. eapply Forall_forall in Hw; [|exact Hop].
  apply (in_constraint_sector i op Hi Hw) in Hc. apply (in_constraint_sector i' op Hi' Hw) in Hc'.
  destruct plan_shape as (b & Hcont & Hsz).
  pose proof (contiguous_disjoint _ _ _ _ _ _ _ _ _ _ Hcont Hsz E E' Ht Ht').
  f_equal; [lia|congruence].
Qed.
End disjoint.

(** ** The listed hashes *)

Lemma elem_of_batch_ids ops b id :
  id ∈ batch_ids ops b <-> exists op, op ∈ ops /\ op_id op = id /\ in_slice b.1 b.2.1 b.2.2 op.
Proof.
  unfold batch_ids, slice_ids. rewrite list_elem_of_fmap. setoid_rewrite list_elem_of_filter.
  naive_solver.
Qed.

Lemma elem_of_all_batches ops bs id :
  id ∈ concat (map (batch_ids ops) bs) <-> exists b, b ∈ bs /\ id ∈ batch_ids ops b.
Proof.
  rewrite list_elem_of_In, in_concat. setoid_rewrite in_map_iff.
  setoid_rewrite <- list_elem_of_In. naive_solver.
Qed.

Section listing.
Variables (now : Timestamp) (s : St) (d : Dht) (max : Z) (L : gmap Z (list Z)).
Hypothesis Ws : st_wf s.
Hypothesis Hd : dht_ok now (st_ops s) s d.
Hypothesis Hmax : 0 <= max /\ total_size (st_size s) (map op_id (st_ops s)) + max < 2 ^ 31.

Let total := total_size (st_size s) (map op_id (st_ops s)).

(** The outcome of a hash list: [wanted] are the ops of differing slices. *)
Definition lists (wanted : StoredOp -> Prop) (ids : list bytes) (used : Z) : Prop :=
  used = total_size (st_size s) ids /\ used <= max /\
  (forall id, id ∈ ids -> exists op, op ∈ st_ops s /\ op_id op = id /\ wanted op) /\
  (total_size (st_size s) (map op_id (st_ops s)) < max ->
   forall op, op ∈ st_ops s -> wanted op -> op_id op ∈ ids).

Lemma took_lists wanted bs acc :
  (forall op, op ∈ st_ops s ->
     wanted op <-> exists b, b ∈ bs /\ in_slice b.1 b.2.1 b.2.2 op) ->
  batches_size s bs <= total -> took s max bs ([], 0) acc ->
  lists wanted acc.1 acc.2.
Proof using Type.
  intros Hw Hle [[W1 W2] (extra & E & F) A]. simpl in E, A. subst total.
  split_and!; [exact W1|exact W2| |].
  - intros id Hid. rewrite E in Hid. eapply Forall_forall in F as (b & Hb & Hin); [|exact Hid].
    apply elem_of_batch_ids in Hin as (op & Hop & <- & Hin). exists op.
    split_and!; [done..|]. apply Hw; [done|]. eauto.
  - intros Hlt op Hop Hwant. rewrite A by lia. apply elem_of_all_batches.
    apply Hw in Hwant as (b & Hb & Hin); [|done]. exists b. split; [done|].
    apply elem_of_batch_ids. eauto.
Qed.

Lemma within_start : within s max ([], 0).
Proof using Hmax. split; [done|]. simpl. lia. Qed.

Lemma disc_lists :
  map_Forall (fun i l => is_sector i /\ NoDup l /\
    Forall (fun j => 0 <= j < full_count FACTOR now) l) L ->
  exists acc, disc_sectors_loop d max (merge_sort by_fst (map_to_list L)) ([], 0) s
    = (Ok acc, s) /\
    lists (fun op => listed L (sector_of op) (created_at op / units FACTOR)) acc.1 acc.2.
Proof using Ws Hd Hmax.
  intros HL.
  destruct (disc_sectors_took now s d max Ws Hd Hmax
    (merge_sort by_fst (map_to_list L)) ([], 0)) as (acc & E & T).
  { unfold disc_entries_ok. rewrite merge_sort_Permutation. apply Forall_forall.
    intros [i l] Hl. apply elem_of_map_to_list in Hl. destruct (HL i l Hl) as (? & _ & ?). done. }
  { apply within_start. }
  exists acc. split; [done|]. fold (sorted_entries L) in T.
  assert (Forall (fun p => is_sector p.1) (pairs_of (sorted_entries L))) as Hsec.
  { apply Forall_forall. intros [i j] Hp. apply elem_of_sorted_entries in Hp as (l & Hl & _).
    by destruct (HL i l Hl). }
  apply (took_lists _ (map disc_batch (pairs_of (sorted_entries L)))); [| |done].
  - intros op Hop. rewrite <- elem_of_sorted_entries. split.
    + intros Hp. exists (disc_batch (sector_of op, created_at op / units FACTOR)). split.
      * by apply list_elem_of_fmap_2.
      * pose proof Hp as Hp'. eapply Forall_forall in Hp'; [|exact Hsec].
        by apply (in_disc_batch s Ws).
    + intros (b & Hb & Hin). apply list_elem_of_fmap in Hb as ([i j] & -> & Hp).
      pose proof Hp as Hp'. eapply Forall_forall in Hp'; [|exact Hsec].
      unfold disc_batch in Hin. cbn [fst snd] in *.
      by apply (in_disc_batch s Ws) in Hin as [-> ->].
  - apply disc_batches_le; [done| |done]. apply NoDup_sorted_entries.
    intros i l Hl. by destruct (HL i l Hl) as (_ & ? & _).
Qed.

(** The op is in a ring and sector that is listed. *)
Definition ring_listed (op : StoredOp) : Prop :=
  exists r, listed L r (sector_of op) /\
    (ring_bounds now r).1 <= created_at op < (ring_bounds now r).2.

Lemma ring_lists :
  map_Forall (fun r l => 0 <= r < Z.of_nat (length (plan FACTOR now)) /\ NoDup l /\
    Forall is_sector l) L ->
  exists acc, rings_loop d max (merge_sort by_fst (map_to_list L)) ([], 0) s
    = (Ok acc, s) /\ lists ring_listed acc.1 acc.2.
Proof using Ws Hd Hmax.
  intros HL.
  destruct (rings_took now s d max Ws Hd Hmax
    (merge_sort by_fst (map_to_list L)) ([], 0)) as (acc & E & T).
  { unfold ring_entries_ok. rewrite merge_sort_Permutation. apply Forall_forall.
    intros [r l] Hl. apply elem_of_map_to_list in Hl. destruct (HL r l Hl) as (? & _ & ?). done. }
  { apply within_start. }
  exists acc. split; [done|]. fold (sorted_entries L) in T.
  assert (Forall (fun p => 0 <= p.1 < Z.of_nat (length (plan FACTOR now)) /\ is_sector p.2)
    (pairs_of (sorted_entries L))) as Hsec.
  { apply Forall_forall. intros [r i] Hp. apply elem_of_sorted_entries in Hp as (l & Hl & Hi).
    destruct (HL r l Hl) as (? & _ & Hf). split; [done|]. by eapply Forall_forall in Hf. }
  apply (took_lists _ (map (ring_batch now) (pairs_of (sorted_entries L)))); [| |done].
  - intros op Hop. pose proof (st_ops_wf s Ws) as Hw.
    eapply Forall_forall in Hw; [|exact Hop]. unfold ring_listed. split.
    + intros (r & Hr & Ht). apply elem_of_sorted_entries in Hr.
      exists (ring_batch now (r, sector_of op)). split; [by apply list_elem_of_fmap_2|].
      split; [|done]. apply in_constraint_sector; [|done|done]. by apply sector_of_range.
    + intros (b & Hb & Hin & Ht). apply list_elem_of_fmap in Hb as ([r i] & -> & Hp).
      pose proof Hp as Hp'. eapply Forall_forall in Hp'; [|exact Hsec]. destruct Hp' as [_ Hi].
      apply (in_constraint_sector i op Hi Hw) in Hin. exists r. rewrite Hin.
      split; [by apply elem_of_sorted_entries|done].
  - apply (ring_batches_le now s d); [done|done| |done]. apply NoDup_sorted_entries.
    intros r l Hl. by destruct (HL r l Hl) as (_ & ? & _).
Qed.
End listing.

(** ** Tables of two models *)

Lemma lookup2_sector_details now set indices ops i j :
  lookup2 (sector_details FACTOR now set indices ops) i j
  = if decide ((i ∈ set_sectors set /\ i ∈ indices) /\
               0 <= j < full_count FACTOR now /\ full_hash FACTOR (sector_arc i) ops j <> [])
    then Some (full_hash FACTOR (sector_arc i) ops j) else None.
Proof.
  unfold lookup2, inner_map. rewrite sector_details_lookup.
  destruct (decide (i ∈ set_sectors set /\ i ∈ indices)) as [Hi|Hi].
  - unfold slice_details. rewrite tabulate_lookup.
    apply decide_ext. rewrite elem_of_zrange. tauto.
  - rewrite lookup_empty, decide_False by tauto. done.
Qed.

Lemma some_or_empty_ext (P Q : Prop) `{!Decision P} `{!Decision Q} (a b : bytes) :
  (P <-> a <> []) -> (Q <-> b <> []) ->
  (if decide P then Some a else None) = (if decide Q then Some b else None) <-> a = b.
Proof.
  intros HP HQ. destruct (decide P) as [HP'|HP'], (decide Q) as [HQ'|HQ'].
  - split; congruence.
  - split; [done|]. intros ->. tauto.
  - split; [done|]. intros ->. tauto.
  - split; [|done]. intros _. destruct (decide (a = [])) as [->|]; [|tauto].
    destruct (decide (b = [])) as [->|]; [done|tauto].
Qed.

(** A slice is a mismatch exactly when its combined hashes differ. *)
Lemma sector_details_differ now set indices ops ops' i j :
  i ∈ set_sectors set -> i ∈ indices -> 0 <= j < full_count FACTOR now ->
  lookup2 (sector_details FACTOR now set indices ops) i j
  <> lookup2 (sector_details FACTOR now set indices ops') i j <->
  full_hash FACTOR (sector_arc i) ops j <> full_hash FACTOR (sector_arc i) ops' j.
Proof.
  intros Hi Hi' Hj. rewrite !lookup2_sector_details, some_or_empty_ext by tauto. done.
Qed.

Lemma lookup2_ring_table now set rs ops r i :
  lookup2 (ring_table FACTOR now set rs ops) r i
  = if decide ((r ∈ rs /\ set_sectors set <> []) /\
               i ∈ set_sectors set /\ ring_at FACTOR now ops r i <> [])
    then Some (ring_at FACTOR now ops r i) else None.
Proof.
  unfold lookup2, inner_map. rewrite ring_table_lookup.
  destruct (decide (r ∈ rs /\ set_sectors set <> [])) as [Hr|Hr].
  - rewrite tabulate_lookup. apply decide_ext. tauto.
  - rewrite lookup_empty, decide_False by tauto. done.
Qed.

Lemma ring_table_differ now set rs ops ops' r i :
  r ∈ rs -> i ∈ set_sectors set ->
  lookup2 (ring_table FACTOR now set rs ops) r i
  <> lookup2 (ring_table FACTOR now set rs ops') r i <->
  ring_at FACTOR now ops r i <> ring_at FACTOR now ops' r i.
Proof.
  intros Hr Hi. assert (set_sectors set <> []) by (intros E; rewrite E in Hi; by apply elem_of_nil in Hi).
  rewrite !lookup2_ring_table, some_or_empty_ext by tauto. done.
Qed.

(** The keys of a details snapshot ask for the same sectors again. *)
Lemma sector_details_keys now set indices ops ops' :
  sector_details FACTOR now set (keys (sector_details FACTOR now set indices ops)) ops'
  = sector_details FACTOR now set indices ops'.
Proof.
  apply map_eq. intros i. rewrite !sector_details_lookup. apply decide_ext.
  rewrite elem_of_keys, sector_details_lookup.
  destruct (decide (i ∈ set_sectors set /\ i ∈ indices)) as [Hi|Hi].
  - split; [tauto|]. intros _. split; [tauto|eauto].
  - split; [intros [_ [? [=]]]|tauto].
Qed.

Lemma ring_table_keys now set rs ops ops' :
  ring_table FACTOR now set (keys (ring_table FACTOR now set rs ops)) ops'
  = ring_table FACTOR now set rs ops'.
Proof.
  apply map_eq. intros r. rewrite !ring_table_lookup. apply decide_ext.
  rewrite elem_of_keys, ring_table_lookup.
  destruct (decide (r ∈ rs /\ set_sectors set <> [])) as [Hr|Hr].
  - split; [tauto|]. intros _. split; [eauto|tauto].
  - split; [intros [[? [=]] _]|tauto].
Qed.

Lemma ring_table_dom now set rs ops ops' :
  dom (ring_table FACTOR now set rs ops) = dom (ring_table FACTOR now set rs ops').
Proof.
  apply set_eq. intros r. rewrite !elem_of_dom, !ring_table_lookup. by case_decide.
Qed.
End sync.
