(* ===== verification/DhtExchange.v ===== *)
(** The exchange of snapshots between two models, message by message: which
    snapshot answers which, and that the hash lists at the end name the ops of
    the slices that differ, within the byte budget. *)
From S2P Require Import Prelude Arc Timestamp Id Combine ArcSet OpStore MemOpStore.
From S2P Require Import TimePartition TimeCoherence HashPartition HashQueries Snapshot Dht.
From S2P Require Import Dht DhtSync.

Section exchange.
Context {St : Type} `{OpStoreSpec St}.

(** A model, its store, and the budget it answers within. *)
Record party (now : Timestamp) (max : Z) (s : St) (d : Dht) : Prop := {
  party_wf : st_wf s;
  party_ok : dht_ok now (st_ops s) s d;
  party_max : 0 <= max /\ total_size (st_size s) (map op_id (st_ops s)) + max < 2 ^ 31;
}.

Definition sector_hash (now : Timestamp) (ops : list StoredOp) (i : Z) : bytes :=
  slice_hash (sector_arc i) 0 (boundary FACTOR now) ops.

Lemma sector_hashes_differ now set ops ops' i :
  sector_hashes FACTOR now set ops !! i <> sector_hashes FACTOR now set ops' !! i <->
  i ∈ set_sectors set /\ sector_hash now ops i <> sector_hash now ops' i.
Proof.
  unfold sector_hashes. rewrite !tabulate_lookup.
  fold (sector_hash now ops i) (sector_hash now ops' i).
  destruct (decide (i ∈ set_sectors set)).
  - rewrite some_or_empty_ext by tauto. tauto.
  - rewrite !decide_False by tauto. tauto.
Qed.

Lemma exists_differing_sector now set ops ops' : Forall op_wf ops -> Forall op_wf ops' ->
  region_hash set 0 (boundary FACTOR now) ops <> region_hash set 0 (boundary FACTOR now) ops' ->
  exists i, i ∈ set_sectors set /\ sector_hash now ops i <> sector_hash now ops' i.
Proof.
  intros Hw Hw' Hne.
  destruct (decide (Forall (fun i => sector_hash now ops i = sector_hash now ops' i)
    (set_sectors set))) as [Hall|Hex].
  - exfalso. apply Hne. rewrite <- !region_hash_sectors by done. f_equal.
    apply map_ext_in. intros i Hi. apply list_elem_of_In in Hi.
    by eapply Forall_forall in Hall.
  - apply not_Forall_Exists in Hex; [|apply _]. apply Exists_exists in Hex as (i & Hi & Hd).
    by exists i.
Qed.

(** Equal details of a sector have equal top hashes. *)
Lemma details_determine_sector now set indices ops ops' i :
  Forall op_wf ops -> Forall op_wf ops' -> 0 <= full_count FACTOR now ->
  i ∈ set_sectors set -> i ∈ indices ->
  sector_details FACTOR now set indices ops = sector_details FACTOR now set indices ops' ->
  sector_hash now ops i = sector_hash now ops' i.
Proof.
  intros Hw Hw' Hn Hi Hi' He. unfold sector_hash, boundary.
  assert (forall ops, Forall op_wf ops -> forall op, op ∈ ops -> 0 <= created_at op) as Hpos.
  { intros l Hl op Hop. by eapply Forall_forall in Hl as (_ & _ & ? & _). }
  rewrite <- (Z2Nat.id (full_count FACTOR now)) by done.
  rewrite <- !xor_full_slices by (done || by apply Hpos).
  f_equal. apply map_ext_in. intros j Hj. apply list_elem_of_In, elem_of_zrange in Hj.
  rewrite Z2Nat.id in Hj by done.
  destruct (decide (full_hash FACTOR (sector_arc i) ops j
    = full_hash FACTOR (sector_arc i) ops' j)) as [|Hne]; [done|exfalso].
  apply (sector_details_differ now set indices) in Hne; [|done..]. by rewrite He in Hne.
Qed.

(** ** Historical ops *)

(** The op belongs to a full slice whose combined hash differs, in a sector
    of the set whose top hash differs. *)
Definition disc_wanted (now : Timestamp) (set : ArcSet) (ops ops' : list StoredOp)
  (op : StoredOp) : Prop :=
  let i := sector_of op in
  let j := created_at op / units FACTOR in
  sector_of op ∈ inner set /\ created_at op < boundary FACTOR now /\
  sector_hash now ops i <> sector_hash now ops' i /\
  full_hash FACTOR (sector_arc i) ops j <> full_hash FACTOR (sector_arc i) ops' j.

Lemma slice_of_historical now op : 0 <= created_at op ->
  created_at op < boundary FACTOR now <-> 0 <= created_at op / units FACTOR < full_count FACTOR now.
Proof.
  intros Hc. unfold boundary. rewrite units_FACTOR.
  pose proof (Z.mul_div_le (created_at op) 460800000000 eq_refl).
  pose proof (Z.mul_succ_div_gt (created_at op) 460800000000 eq_refl).
  pose proof (Z.div_pos (created_at op) 460800000000). split; intros; [|lia]. split; lia.
Qed.

Definition disc_mismatches (our other : gmap Z (gmap Z bytes)) : gmap Z (list Z) :=
  foldl (add_mismatches our other) (lacking_sectors our other) (elements (dom our ∩ dom other)).

Lemma disc_mismatches_valid now set idx ops ops' :
  map_Forall (fun i l => is_sector i /\ NoDup l /\
    Forall (fun j => 0 <= j < full_count FACTOR now) l)
    (disc_mismatches (sector_details FACTOR now set idx ops)
                     (sector_details FACTOR now set idx ops')).
Proof.
  intros i l Hl. apply slice_mismatch_entry in Hl as (Hi & Hnd & Hj). split_and!; [|done|].
  - rewrite !sector_details_lookup in Hi.
    destruct (decide (i ∈ set_sectors set /\ i ∈ idx)) as [[Hs _]|]; [|destruct Hi as [[? ?]|[? ?]]; done].
    by apply elem_of_set_sectors in Hs as [? _].
  - apply Forall_forall. intros j Hj'. apply Hj in Hj'. rewrite !lookup2_sector_details in Hj'.
    destruct Hj' as [Hj'|Hj']; case_decide; try (by destruct Hj' as [? [=]]); tauto.
Qed.

Lemma disc_listed_wanted now set ops ops' l op : op_wf op ->
  (forall k, k ∈ l <-> k ∈ set_sectors set /\ sector_hash now ops k <> sector_hash now ops' k) ->
  listed (disc_mismatches (sector_details FACTOR now set l ops)
                          (sector_details FACTOR now set l ops'))
    (sector_of op) (created_at op / units FACTOR)
  <-> disc_wanted now set ops ops' op.
Proof.
  intros Hop Hl. unfold disc_mismatches. rewrite slice_mismatches_spec. unfold disc_wanted. cbv zeta.
  pose proof (sector_of_range op Hop) as Hsec. pose proof Hop as (_ & _ & Hc & _).
  pose proof (slice_of_historical now op Hc) as Hhist.
  set (i := sector_of op) in *. set (j := created_at op / units FACTOR) in *.
  assert (i ∈ inner set <-> i ∈ set_sectors set) as Hin
    by (rewrite elem_of_set_sectors; tauto).
  rewrite Hin, Hhist. split.
  - intros Hne. pose proof Hne as Hne2. rewrite !lookup2_sector_details in Hne2.
    destruct (decide ((i ∈ set_sectors set /\ i ∈ l) /\ 0 <= j < full_count FACTOR now))
      as [[[Hi Hi'] Hj]|Hno]; [|exfalso; apply Hne2; rewrite !decide_False; tauto].
    apply sector_details_differ in Hne; [|done..].
    pose proof (proj1 (Hl i) Hi') as [_ Hsh]. done.
  - intros (Hi & Hj & Hsh & Hfh). apply sector_details_differ; try done. by apply Hl.
Qed.

Lemma final_answer now max s d L our (P : StoredOp -> Prop) final :
  party now max s d ->
  map_Forall (fun i l => is_sector i /\ NoDup l /\
    Forall (fun j => 0 <= j < full_count FACTOR now) l) L ->
  (forall op, op ∈ st_ops s ->
     listed L (sector_of op) (created_at op / units FACTOR) <-> P op) ->
  exists acc,
    (let* acc := disc_sectors_loop d max (merge_sort by_fst (map_to_list L)) ([], 0) in
     ret (hash_list_action final our acc)) s
    = (Ok (hash_list_action final our acc), s) /\ lists s max P acc.1 acc.2.
Proof.
  intros [Ws Hd Hm] HL HP.
  destruct (disc_lists now s d max L Ws Hd Hm HL) as (acc & E & H1' & H2' & H3' & H4').
  exists acc. split; [unfold bind; by rewrite E|]. split_and!; [done..| |].
  - intros id Hid. destruct (H3' id Hid) as (op & Hop & Hid' & Hl). exists op.
    split_and!; [done..|]. by apply HP.
  - intros Hlt op Hop Hw. apply H4'; [done..|]. by apply HP.
Qed.

Lemma ret_bind {S A B} (a : A) (k : A -> M S B) s : bind (ret a) k s = k a s.
Proof. done. Qed.

Lemma compare_minimal_disc h h' t r r' : h <> h' ->
  compare (Minimal h t r) (Minimal h' t r') = DiscMismatch.
Proof.
  intros Hne. unfold compare. rewrite bool_decide_false by congruence.
  rewrite Z.eqb_refl. simpl. by rewrite bool_decide_false.
Qed.

Lemma compare_disc_sectors m m' t : m <> m' ->
  compare (DiscSectors m t) (DiscSectors m' t) = DiscSectorMismatches (mismatched_keys m m').
Proof.
  intros Hne. unfold compare. rewrite bool_decide_false by congruence. by rewrite Z.eqb_refl.
Qed.

Lemma compare_disc_details m m' t : m <> m' ->
  compare (DiscSectorDetails m t) (DiscSectorDetails m' t)
  = DiscSectorSliceMismatches (disc_mismatches m m').
Proof.
  intros Hne. unfold compare. rewrite bool_decide_false by congruence. by rewrite Z.eqb_refl.
Qed.

(** ** The answers to the messages *)

Lemma minimal_answered now max s d set ops' : party now max s d -> set_ok set ->
  region_hash set 0 (boundary FACTOR now) ops' <> region_hash set 0 (boundary FACTOR now) (st_ops s) ->
  handle_snapshot d (minimal_of now set ops') None set max s =
    (Ok (NewSnapshot (disc_sectors_of now set (st_ops s)), 0), s).
Proof.
  intros [W Hd _] Hset Hne. unfold handle_snapshot. rewrite covered_nonzero by done.
  unfold our_snapshot_for, bind at 1, minimal_of at 1.
  rewrite (snapshot_minimal_ok now s d set W Hd Hset). unfold minimal_of.
  rewrite compare_minimal_disc by (intros E; by apply Hne). unfold bind.
  by rewrite (snapshot_disc_sectors_ok now s d set W Hd).
Qed.

Lemma sectors_answered now max s d set ops' : party now max s d -> set_ok set ->
  sector_hashes FACTOR now set (st_ops s) <> sector_hashes FACTOR now set ops' ->
  handle_snapshot d (disc_sectors_of now set ops') None set max s =
    (Ok (NewSnapshot (disc_details_of now set
       (mismatched_keys (sector_hashes FACTOR now set (st_ops s)) (sector_hashes FACTOR now set ops')) (st_ops s)), 0), s).
Proof.
  intros [W Hd _] Hset Hne. unfold handle_snapshot. rewrite covered_nonzero by done.
  unfold our_snapshot_for, bind at 1, disc_sectors_of at 1.
  rewrite (snapshot_disc_sectors_ok now s d set W Hd). unfold disc_sectors_of.
  rewrite compare_disc_sectors by done. unfold bind.
  by rewrite (snapshot_disc_details_ok now s d set W Hd).
Qed.

Lemma lists_ext s max (P Q : StoredOp -> Prop) ids used : (forall op, P op <-> Q op) ->
  lists s max P ids used -> lists s max Q ids used.
Proof.
  intros Hpq (Hu & Hm & Hin & Hall). split_and!; [done..| |].
  - intros id Hid. destruct (Hin id Hid) as (op & ? & ? & ?). exists op. split_and!; [done..|by apply Hpq].
  - intros Hlt op Hop Hq. apply Hall; [done..|by apply Hpq].
Qed.

Lemma disc_wanted_sym now set ops ops' op : disc_wanted now set ops ops' op <-> disc_wanted now set ops' ops op.
Proof. unfold disc_wanted. naive_solver. Qed.

(** The details of the sectors [l] that differ are answered by hashes: with
    our details, or as the last message when these were sent before. *)
Section details.
Variables (now max : Z) (s : St) (d : Dht) (set : ArcSet) (ops' : list StoredOp) (l : list Z).
Hypothesis Hp : party now max s d.
Hypothesis Hset : set_ok set.
Hypothesis Hl : forall k, k ∈ l <-> k ∈ set_sectors set /\ sector_hash now (st_ops s) k <> sector_hash now ops' k.
Hypothesis Hne : sector_details FACTOR now set l (st_ops s) <> sector_details FACTOR now set l ops'.

Lemma details_listed final : exists acc,
  (let* acc := disc_sectors_loop d max (merge_sort by_fst (map_to_list
     (disc_mismatches (sector_details FACTOR now set l (st_ops s)) (sector_details FACTOR now set l ops')))) ([], 0) in
   ret (hash_list_action final (disc_details_of now set l (st_ops s)) acc)) s
    = (Ok (hash_list_action final (disc_details_of now set l (st_ops s)) acc), s) /\
  lists s max (disc_wanted now set (st_ops s) ops') acc.1 acc.2.
Proof using Hp Hl.
  pose proof (st_ops_wf s (party_wf _ _ _ _ Hp)) as Hw.
  apply final_answer with now; [done|apply disc_mismatches_valid|].
  intros op Hop. eapply Forall_forall in Hw; [|exact Hop]. by apply disc_listed_wanted.
Qed.

Lemma details_answered : exists ids used,
  handle_snapshot d (disc_details_of now set l ops') None set max s =
    (Ok (NewSnapshotAndHashList (disc_details_of now set l (st_ops s)) ids, used), s) /\
  lists s max (disc_wanted now set (st_ops s) ops') ids used.
Proof using Hp Hset Hl Hne.
  destruct (details_listed false) as (acc & E & HL). exists acc.1, acc.2. split; [|done].
  unfold handle_snapshot. rewrite covered_nonzero by done.
  unfold our_snapshot_for, bind at 1, disc_details_of at 1.
  rewrite (snapshot_disc_details_ok now s d set (party_wf _ _ _ _ Hp) (party_ok _ _ _ _ Hp)).
  unfold disc_details_of in E |- *. rewrite !sector_details_keys, compare_disc_details by done. exact E.
Qed.

Lemma details_ended : exists ids used,
  handle_snapshot d (disc_details_of now set l ops') (Some (disc_details_of now set l (st_ops s))) set max s =
    (Ok (HashList ids, used), s) /\
  lists s max (disc_wanted now set (st_ops s) ops') ids used.
Proof using Hp Hset Hl Hne.
  destruct (details_listed true) as (acc & E & HL). exists acc.1, acc.2. split; [|done].
  unfold handle_snapshot. rewrite covered_nonzero by done.
  unfold our_snapshot_for, disc_details_of in E |- *. cbv iota. rewrite ret_bind.
  rewrite compare_disc_details by done. exact E.
Qed.
End details.

(** When the historical ops of the set differ, so do the sector hashes, and the
    details of the sectors whose hashes differ. *)
Lemma history_differs now s d set ops' : dht_ok now (st_ops s) s d -> Forall op_wf (st_ops s) -> Forall op_wf ops' ->
  region_hash set 0 (boundary FACTOR now) (st_ops s) <> region_hash set 0 (boundary FACTOR now) ops' ->
  let l := mismatched_keys (sector_hashes FACTOR now set (st_ops s)) (sector_hashes FACTOR now set ops') in
  (forall k, k ∈ l <-> k ∈ set_sectors set /\ sector_hash now (st_ops s) k <> sector_hash now ops' k) /\
  sector_hashes FACTOR now set (st_ops s) <> sector_hashes FACTOR now set ops' /\
  sector_details FACTOR now set l (st_ops s) <> sector_details FACTOR now set l ops'.
Proof.
  intros Hd Hw Hw' Hreg l.
  assert (Hl : forall k, k ∈ l <-> k ∈ set_sectors set /\ sector_hash now (st_ops s) k <> sector_hash now ops' k)
    by (intros k; unfold l; by rewrite elem_of_mismatched_keys, sector_hashes_differ).
  destruct (exists_differing_sector now set _ _ Hw Hw' Hreg) as (i0 & Hi0 & Hd0).
  assert (Hin : i0 ∈ l) by by apply Hl. split_and!; [done| |].
  - intros He. unfold l in Hin. rewrite He in Hin. by apply elem_of_mismatched_keys in Hin.
  - intros He. apply Hd0. apply (details_determine_sector now set l); try done.
    destruct (first_sector now (st_ops s) s d Hd) as (tp & ? & _ & [W Hf _ [U _] _]).
    rewrite Hf in U. rewrite <- U. apply W.
Qed.

(** C7: the exchange for history.  When the combined hashes of two models'
    historical ops in the common sectors differ, each message is answered by
    the next kind of snapshot and the exchange ends after both sides listed
    hashes: each lists, within its byte budget, only ops it holds in slices
    that differ, and all of them when its whole store is smaller than the
    budget. *)
Theorem disc_exchange now max sA dA sB dB set :
  party now max sA dA -> party now max sB dB -> set_ok set ->
  region_hash set 0 (boundary FACTOR now) (st_ops sA)
    <> region_hash set 0 (boundary FACTOR now) (st_ops sB) ->
  exists minimal sectors_B details_A details_B ids_A used_A ids_B used_B,
    snapshot_minimal dA set sA = (Ok minimal, sA) /\
    handle_snapshot dB minimal None set max sB
      = (Ok (NewSnapshot sectors_B, 0), sB) /\
    handle_snapshot dA sectors_B None set max sA
      = (Ok (NewSnapshot details_A, 0), sA) /\
    handle_snapshot dB details_A None set max sB
      = (Ok (NewSnapshotAndHashList details_B ids_B, used_B), sB) /\
    handle_snapshot dA details_B (Some details_A) set max sA
      = (Ok (HashList ids_A, used_A), sA) /\
    lists sB max (disc_wanted now set (st_ops sA) (st_ops sB)) ids_B used_B /\
    lists sA max (disc_wanted now set (st_ops sA) (st_ops sB)) ids_A used_A.
Proof.
  intros PA PB Hset Hreg.
  pose proof (st_ops_wf sA (party_wf _ _ _ _ PA)) as OA. pose proof (st_ops_wf sB (party_wf _ _ _ _ PB)) as OB.
  destruct (history_differs now sA dA set (st_ops sB) (party_ok _ _ _ _ PA) OA OB Hreg) as (Hl & Hs & Hm).
  set (l := mismatched_keys _ _) in *.
  destruct (details_answered now max sB dB set (st_ops sA) l PB Hset) as (idsB & usedB & EB & LB);
    [intros k; rewrite Hl; naive_solver|congruence|].
  destruct (details_ended now max sA dA set (st_ops sB) l PA Hset Hl Hm) as (idsA & usedA & EA & LA).
  exists (minimal_of now set (st_ops sA)), (disc_sectors_of now set (st_ops sB)),
    (disc_details_of now set l (st_ops sA)), (disc_details_of now set l (st_ops sB)), idsA, usedA, idsB, usedB.
  split_and!; [apply snapshot_minimal_ok; [apply PA..|done]|by apply minimal_answered|by apply sectors_answered|done|done| |done].
  eapply lists_ext; [|exact LB]. intros op. apply disc_wanted_sym.
Qed.
End exchange.

(** The exchange of snapshots between two models whose historical ops agree
    and whose recent ops differ. *)
Lemma push_slices_length n start recent size :
  (length (push_slices n start recent size).1.1 <= n)%nat.
Proof.
  revert start recent. induction n as [|n IH]; intros start recent; simpl; [lia|].
  specialize (IH (ts_add start (slice_duration size)) (recent - slice_duration size)).
  destruct (push_slices n _ _ size) as [[l ?] ?]. simpl in *. lia.
Qed.

Lemma layout_loop_length n start recent l :
  layout_loop n start recent = Ok l -> (length l <= 2 * n)%nat.
Proof.
  revert start recent l. induction n as [|n IH]; intros start recent l; cbn [layout_loop].
  - intros [= <-]. simpl. lia.
  - destruct (residual_duration_for_factor (Z.of_nat n)) as [x|e|e]; try discriminate.
    cbn [mbind res_bind]. set (c := if _ <? _ then _ else _).
    pose proof (push_slices_length c start recent (Z.of_nat n)) as Hl.
    destruct (push_slices c start recent (Z.of_nat n)) as [[ps st] rt]. simpl in Hl.
    destruct (layout_loop n st rt) as [rest|e|e] eqn:E; try discriminate.
    intros [= <-]. apply IH in E. rewrite length_app.
    assert (c <= 2)%nat by (unfold c; repeat case_match; lia). lia.
Qed.

Lemma plan_length now : (length (plan FACTOR now) <= 18)%nat.
Proof.
  unfold plan. destruct (layout_loop _ _ _) as [l|e|e] eqn:E; simpl; [|lia..].
  apply layout_loop_length in E. unfold FACTOR in E. lia.
Qed.

Section rings.
Context {St : Type} `{OpStoreSpec St}.

Definition ring_top (now : Timestamp) (set : ArcSet) (ops : list StoredOp) (r : Z) : bytes :=
  region_hash set (ring_bounds now r).1 (ring_bounds now r).2 ops.

Lemma rings_lookup now set ops (n : nat) : set_sectors set <> [] ->
  rings FACTOR now set ops !! n =
    if decide (n < length (plan FACTOR now))%nat
    then Some (ring_top now set ops (Z.of_nat n)) else None.
Proof.
  intros Hne. unfold rings. destruct (set_sectors set) as [|i l] eqn:E; [done|].
  change (@map (Timestamp * Z) bytes) with (@fmap list _ (Timestamp * Z) bytes).
  rewrite list_lookup_fmap. unfold ring_top, ring_bounds. rewrite Nat2Z.id.
  destruct (plan FACTOR now !! n) as [[st sz]|] eqn:Ep.
  - apply lookup_lt_Some in Ep. by rewrite decide_True.
  - apply lookup_ge_None in Ep. by rewrite decide_False by lia.
Qed.

Lemma length_rings now set ops : set_sectors set <> [] ->
  length (rings FACTOR now set ops) = length (plan FACTOR now).
Proof.
  intros Hne. unfold rings. destruct (set_sectors set) as [|i l] eqn:E; [done|].
  by rewrite length_map.
Qed.

(** The rings whose hashes differ. *)
Definition differing_rings (now : Timestamp) (set : ArcSet) (ops ops' : list StoredOp)
  : list Z :=
  hash_mismatch_indices (rings FACTOR now set ops) (rings FACTOR now set ops').

Lemma elem_of_differing_rings now set ops ops' r : set_sectors set <> [] ->
  r ∈ differing_rings now set ops ops' <->
  0 <= r < Z.of_nat (length (plan FACTOR now)) /\
  ring_top now set ops r <> ring_top now set ops' r.
Proof.
  intros Hne. pose proof (plan_length now) as Hp.
  unfold differing_rings, hash_mismatch_indices.
  rewrite hash_mismatch_spec; [|lia|rewrite length_rings by done; lia|by rewrite !length_rings].
  setoid_rewrite rings_lookup; [|done..]. split.
  - intros (n & -> & Hn). rewrite Z.add_0_l. case_decide; [|done].
    split; [lia|]. intros E. by rewrite E in Hn.
  - intros [Hr Hd]. exists (Z.to_nat r). split; [lia|].
    rewrite Z2Nat.id, !decide_True by lia. congruence.
Qed.

Lemma differing_rings_sym now set ops ops' :
  differing_rings now set ops ops' = differing_rings now set ops' ops.
Proof. apply hash_mismatch_from_sym. Qed.

Lemma ring_top_sectors now set ops r : Forall op_wf ops ->
  0 <= r < Z.of_nat (length (plan FACTOR now)) ->
  xor_all (map (ring_at FACTOR now ops r) (set_sectors set)) = ring_top now set ops r.
Proof.
  intros Hw Hr. unfold ring_top, ring_at.
  destruct (lookup_lt_is_Some_2 (plan FACTOR now) (Z.to_nat r)) as [[st sz] Hp]; [lia|].
  rewrite (ring_bounds_eq _ _ _ _ Hp), Hp. exact (region_hash_sectors set st (st + units sz) ops Hw).
Qed.

(** A ring that differs does so in some sector. *)
Lemma differing_ring_sector now set ops ops' r : Forall op_wf ops -> Forall op_wf ops' ->
  0 <= r < Z.of_nat (length (plan FACTOR now)) ->
  ring_top now set ops r <> ring_top now set ops' r ->
  exists i, i ∈ set_sectors set /\
    ring_at FACTOR now ops r i <> ring_at FACTOR now ops' r i.
Proof.
  intros Hw Hw' Hr Hne.
  destruct (decide (Forall (fun i => ring_at FACTOR now ops r i = ring_at FACTOR now ops' r i)
    (set_sectors set))) as [Hall|Hex].
  - exfalso. apply Hne. rewrite <- !ring_top_sectors by done. f_equal.
    apply map_ext_in. intros i Hi. apply list_elem_of_In in Hi.
    by eapply Forall_forall in Hall.
  - apply not_Forall_Exists in Hex; [|apply _]. apply Exists_exists in Hex as (i & Hi & Hd).
    by exists i.
Qed.

(** The op belongs to a ring whose hash differs, in a sector of the set where
    the ring's hash differs. *)
Definition ring_wanted (now : Timestamp) (set : ArcSet) (ops ops' : list StoredOp)
  (op : StoredOp) : Prop :=
  sector_of op ∈ inner set /\ exists r,
    0 <= r < Z.of_nat (length (plan FACTOR now)) /\
    (ring_bounds now r).1 <= created_at op < (ring_bounds now r).2 /\
    ring_top now set ops r <> ring_top now set ops' r /\
    ring_at FACTOR now ops r (sector_of op) <> ring_at FACTOR now ops' r (sector_of op).

Definition ring_mismatches (our other : gmap Z (gmap Z bytes)) : gmap Z (list Z) :=
  foldl (fun acc i => <[ i := mismatched_keys (inner_map our i) (inner_map other i) ]> acc)
    ∅ (elements (dom our ∩ dom other)).

Lemma ring_mismatches_valid now set rs ops ops' :
  Forall (fun r => 0 <= r < Z.of_nat (length (plan FACTOR now))) rs ->
  map_Forall (fun r l => 0 <= r < Z.of_nat (length (plan FACTOR now)) /\ NoDup l /\
    Forall is_sector l)
    (ring_mismatches (ring_table FACTOR now set rs ops) (ring_table FACTOR now set rs ops')).
Proof.
  intros Hrs r l Hl. apply ring_mismatch_entry in Hl as (Hr & Hnd & Hi);
    [|apply ring_table_dom]. split_and!; [..|done|].
  1,2: rewrite ring_table_lookup in Hr; case_decide as Hd; [|by destruct Hr];
    destruct Hd as [Hd _]; eapply Forall_forall in Hrs; [|exact Hd]; lia.
  apply Forall_forall. intros i Hi'. apply Hi in Hi'. rewrite !lookup2_ring_table in Hi'.
  assert (i ∈ set_sectors set) as Hin
    by (destruct Hi' as [Hi'|Hi']; case_decide; try (by destruct Hi' as [? [=]]); tauto).
  by apply elem_of_set_sectors in Hin as [? _].
Qed.

Lemma ring_listed_wanted now set ops ops' op : op_wf op -> set_sectors set <> [] ->
  ring_listed now
    (ring_mismatches (ring_table FACTOR now set (differing_rings now set ops ops') ops)
                     (ring_table FACTOR now set (differing_rings now set ops ops') ops')) op
  <-> ring_wanted now set ops ops' op.
Proof.
  intros Hop Hne. unfold ring_listed, ring_wanted, ring_mismatches.
  setoid_rewrite ring_mismatches_spec; [|apply ring_table_dom].
  pose proof (sector_of_range op Hop) as Hsec.
  assert (sector_of op ∈ inner set <-> sector_of op ∈ set_sectors set) as ->
    by (rewrite elem_of_set_sectors; tauto).
  set (rs := differing_rings now set ops ops'). set (i := sector_of op) in *.
  assert (forall r, r ∈ rs <-> 0 <= r < Z.of_nat (length (plan FACTOR now)) /\
    ring_top now set ops r <> ring_top now set ops' r) as Hrs
    by (intros r; by apply elem_of_differing_rings).
  split.
  - intros (r & Hd & Ht). assert (r ∈ rs /\ i ∈ set_sectors set) as [Hr Hi].
    { rewrite !lookup2_ring_table in Hd.
      destruct (decide (r ∈ rs /\ i ∈ set_sectors set)); [done|exfalso].
      apply Hd. rewrite !decide_False by tauto. done. }
    apply ring_table_differ in Hd; [|done..]. split; [done|]. exists r.
    apply Hrs in Hr as [? ?]. done.
  - intros (Hi & r & Hr & Ht & Htop & Hat). exists r. split; [|done].
    apply ring_table_differ; [|done..]. by apply Hrs.
Qed.

Lemma final_ring_answer now max s d L our (P : StoredOp -> Prop) final :
  party now max s d ->
  map_Forall (fun r l => 0 <= r < Z.of_nat (length (plan FACTOR now)) /\ NoDup l /\
    Forall is_sector l) L ->
  (forall op, op ∈ st_ops s -> ring_listed now L op <-> P op) ->
  exists acc,
    (let* acc := rings_loop d max (merge_sort by_fst (map_to_list L)) ([], 0) in
     ret (hash_list_action final our acc)) s
    = (Ok (hash_list_action final our acc), s) /\ lists s max P acc.1 acc.2.
Proof.
  intros [Ws Hd Hm] HL HP.
  destruct (ring_lists now s d max L Ws Hd Hm HL) as (acc & E & H1' & H2' & H3' & H4').
  exists acc. split; [unfold bind; by rewrite E|]. split_and!; [done..| |].
  - intros id Hid. destruct (H3' id Hid) as (op & Hop & Hid' & Hl). exists op.
    split_and!; [done..|]. by apply HP.
  - intros Hlt op Hop Hw. apply H4'; [done..|]. by apply HP.
Qed.

Lemma compare_minimal_rings h t r r' : r <> r' -> length r = length r' ->
  compare (Minimal h t r) (Minimal h t r') = RingMismatches (hash_mismatch_indices r r').
Proof.
  intros Hne Hl. unfold compare. rewrite bool_decide_false by congruence.
  rewrite Z.eqb_refl, (bool_decide_true (h = h)) by done. simpl.
  by rewrite Hl, Nat.eqb_refl.
Qed.

Lemma compare_ring_details m m' t : m <> m' -> dom m = dom m' ->
  compare (RingSectorDetails m t) (RingSectorDetails m' t)
  = RingSectorMismatches (ring_mismatches m m').
Proof.
  intros Hne Hd. unfold compare. rewrite bool_decide_false by congruence.
  rewrite Z.eqb_refl. simpl. rewrite Hd, Nat.eqb_refl, bool_decide_true by done. simpl.
  unfold ring_mismatches. by rewrite Hd.
Qed.

Lemma rings_differ_tables now set ops ops' : Forall op_wf ops -> Forall op_wf ops' ->
  set_sectors set <> [] -> rings FACTOR now set ops <> rings FACTOR now set ops' ->
  ring_table FACTOR now set (differing_rings now set ops ops') ops
  <> ring_table FACTOR now set (differing_rings now set ops ops') ops'.
Proof.
  intros Hw Hw' Hne Hr He.
  destruct (differing_rings now set ops ops') as [|r l] eqn:E.
  { apply Hr. apply list_eq. intros n. rewrite !rings_lookup by done.
    case_decide; [|done]. f_equal.
    destruct (decide (ring_top now set ops (Z.of_nat n) = ring_top now set ops' (Z.of_nat n)))
      as [|Hd]; [done|exfalso].
    assert (Z.of_nat n ∈ differing_rings now set ops ops') as Hin
      by (apply elem_of_differing_rings; [done|]; split; [lia|done]).
    rewrite E in Hin. by apply elem_of_nil in Hin. }
  assert (r ∈ differing_rings now set ops ops') as Hin by (rewrite E; left).
  rewrite <- E in He. apply elem_of_differing_rings in Hin as Hin'; [|done].
  destruct Hin' as [Hb Ht].
  destruct (differing_ring_sector now set ops ops' r Hw Hw' Hb Ht) as (i & Hi & Hd).
  apply (ring_table_differ now set (differing_rings now set ops ops')) in Hd; [|done..].
  by rewrite He in Hd.
Qed.

(** ** The answers to the messages

    [ours] and [theirs] are the details of the rings that differ. *)
Section ring_details.
Variables (now max : Z) (s : St) (d : Dht) (set : ArcSet) (ops' : list StoredOp).
Hypothesis Hp : party now max s d.
Hypothesis Hset : set_ok set.
Hypothesis Hw' : Forall op_wf ops'.
Hypothesis Hne : rings FACTOR now set (st_ops s) <> rings FACTOR now set ops'.
Let l := differing_rings now set (st_ops s) ops'.
Let ours := ring_details_of now set l (st_ops s).
Let theirs := ring_details_of now set l ops'.

Lemma differing_rings_valid : Forall (fun r => 0 <= r < Z.of_nat (length (plan FACTOR now))) l.
Proof using Hset.
  apply Forall_forall. intros r Hr.
  apply elem_of_differing_rings in Hr as [? _]; [done|by apply set_sectors_nonempty].
Qed.

Lemma ring_tables_differ : ring_table FACTOR now set l (st_ops s) <> ring_table FACTOR now set l ops'.
Proof using Hp Hset Hw' Hne.
  pose proof (st_ops_wf s (party_wf _ _ _ _ Hp)). pose proof (set_sectors_nonempty set Hset).
  by apply rings_differ_tables.
Qed.

Lemma rings_answered : region_hash set 0 (boundary FACTOR now) (st_ops s) = region_hash set 0 (boundary FACTOR now) ops' ->
  handle_snapshot d (minimal_of now set ops') None set max s = (Ok (NewSnapshot ours, 0), s).
Proof using Hp Hset Hw' Hne.
  intros Hreg. pose proof (set_sectors_nonempty set Hset).
  unfold handle_snapshot. rewrite covered_nonzero by done. unfold our_snapshot_for, bind at 1, minimal_of at 1.
  rewrite (snapshot_minimal_ok now s d set (party_wf _ _ _ _ Hp) (party_ok _ _ _ _ Hp) Hset). unfold minimal_of.
  rewrite <- Hreg. rewrite compare_minimal_rings by (done || by rewrite !length_rings).
  fold (differing_rings now set (st_ops s) ops'). fold l.
  rewrite (snapshot_ring_details_ok now s d set (party_ok _ _ _ _ Hp)); [done|apply differing_rings_valid].
Qed.

Lemma ring_details_listed final : exists acc,
  (let* acc := rings_loop d max (merge_sort by_fst (map_to_list
     (ring_mismatches (ring_table FACTOR now set l (st_ops s)) (ring_table FACTOR now set l ops')))) ([], 0) in
   ret (hash_list_action final ours acc)) s = (Ok (hash_list_action final ours acc), s) /\
  lists s max (ring_wanted now set (st_ops s) ops') acc.1 acc.2.
Proof using Hp Hset Hw' Hne.
  pose proof (st_ops_wf s (party_wf _ _ _ _ Hp)) as Hw. pose proof (set_sectors_nonempty set Hset).
  apply final_ring_answer with now; [done| |].
  - apply ring_mismatches_valid, differing_rings_valid.
  - intros op Hop. eapply Forall_forall in Hw; [|exact Hop]. by apply ring_listed_wanted.
Qed.

Lemma ring_details_answered : exists ids used,
  handle_snapshot d theirs None set max s = (Ok (NewSnapshotAndHashList ours ids, used), s) /\
  lists s max (ring_wanted now set (st_ops s) ops') ids used.
Proof using Hp Hset Hw' Hne.
  destruct (ring_details_listed false) as (acc & E & HL). exists acc.1, acc.2. split; [|done].
  unfold handle_snapshot. rewrite covered_nonzero by done.
  unfold our_snapshot_for, theirs, ring_details_of at 1. cbv iota. unfold ring_details_of at 1.
  rewrite (snapshot_ring_details_ok now s d set (party_ok _ _ _ _ Hp)).
  2: { pose proof differing_rings_valid as Hv. apply Forall_forall. intros r [x Hr]%elem_of_keys.
       rewrite ring_table_lookup in Hr. case_decide as Hd; [|done]. eapply Forall_forall in Hv; [|apply Hd]. lia. }
  unfold ours, ring_details_of in E |- *. rewrite ring_table_keys. unfold lift_res. unfold bind at 1.
  rewrite compare_ring_details by (apply ring_tables_differ || by apply ring_table_dom). exact E.
Qed.

Lemma ring_details_ended : exists ids used,
  handle_snapshot d theirs (Some ours) set max s = (Ok (HashList ids, used), s) /\
  lists s max (ring_wanted now set (st_ops s) ops') ids used.
Proof using Hp Hset Hw' Hne.
  destruct (ring_details_listed true) as (acc & E & HL). exists acc.1, acc.2. split; [|done].
  unfold handle_snapshot. rewrite covered_nonzero by done.
  unfold our_snapshot_for, ours, theirs, ring_details_of in E |- *. cbv iota. rewrite ret_bind.
  rewrite compare_ring_details by (apply ring_tables_differ || by apply ring_table_dom). exact E.
Qed.
End ring_details.

(** C8: the exchange for recent ops.  When two models agree on the historical
    ops of the common sectors and a ring's combined hashes differ, the
    comparison goes straight to the rings' details and ends after both sides
    listed hashes: each lists, within its byte budget, only ops it holds in
    rings and sectors that differ, and all of them when its whole store is
    smaller than the budget. *)
Theorem ring_exchange now max sA dA sB dB set :
  party now max sA dA -> party now max sB dB -> set_ok set ->
  region_hash set 0 (boundary FACTOR now) (st_ops sA)
    = region_hash set 0 (boundary FACTOR now) (st_ops sB) ->
  rings FACTOR now set (st_ops sA) <> rings FACTOR now set (st_ops sB) ->
  exists minimal details_A details_B ids_A used_A ids_B used_B,
    snapshot_minimal dA set sA = (Ok minimal, sA) /\
    handle_snapshot dB minimal None set max sB
      = (Ok (NewSnapshot details_B, 0), sB) /\
    handle_snapshot dA details_B None set max sA
      = (Ok (NewSnapshotAndHashList details_A ids_A, used_A), sA) /\
    handle_snapshot dB details_A (Some details_B) set max sB
      = (Ok (HashList ids_B, used_B), sB) /\
    lists sA max (ring_wanted now set (st_ops sA) (st_ops sB)) ids_A used_A /\
    lists sB max (ring_wanted now set (st_ops sB) (st_ops sA)) ids_B used_B.
Proof.
  intros PA PB Hset Hreg Hrings.
  pose proof (st_ops_wf sA (party_wf _ _ _ _ PA)) as OA. pose proof (st_ops_wf sB (party_wf _ _ _ _ PB)) as OB.
  pose proof (differing_rings_sym now set (st_ops sB) (st_ops sA)) as Hsym.
  destruct (ring_details_answered now max sA dA set (st_ops sB) PA Hset OB Hrings) as (idsA & usedA & EA & LA).
  destruct (ring_details_ended now max sB dB set (st_ops sA) PB Hset OA) as (idsB & usedB & EB & LB); [congruence|].
  exists (minimal_of now set (st_ops sA)),
    (ring_details_of now set (differing_rings now set (st_ops sA) (st_ops sB)) (st_ops sA)),
    (ring_details_of now set (differing_rings now set (st_ops sA) (st_ops sB)) (st_ops sB)), idsA, usedA, idsB, usedB.
  rewrite Hsym in EB.
  split_and!; [apply snapshot_minimal_ok; [apply PA..|done]| |done|done|done|done].
  rewrite <- Hsym. apply rings_answered; (done || congruence).
Qed.
End rings.
