(* ===== verification/DhtWitness.v ===== *)
(** The theorems on the model's life and on the exchange, applied to models
    opened over concrete in-memory stores. *)

From S2P Require Import Prelude Arc Timestamp Id Combine ArcSet OpStore MemOpStore.
From S2P Require Import TimePartition TimeCoherence TimeProperties.
From S2P Require Import HashPartition HashQueries.
From S2P Require Import Snapshot Dht DhtSync DhtExchange.
Import Concrete.

(** A model opened over a store that processed the ops. *)
Definition opened_over (ops : list IncomingOp) : Dht * MemStore :=
  match dht_try_from_store w_now (store_of 5 ops) with
  | (Ok d, s) => (d, s)
  | (_, s) => (MkDht (MkHashPartition 0 []) 0, s)
  end.

Definition past_ops (ops : list IncomingOp) : Prop :=
  Forall incoming_ok ops /\
  Forall (fun op => created_at op <= w_now) (st_ops (store_of 5 ops)).

#[global] Instance past_ops_dec ops : Decision (past_ops ops).
Proof. unfold past_ops. apply _. Defined.

Lemma store_of_ready ops : past_ops ops -> store_ready w_now (store_of 5 ops).
Proof.
  intros [Hw Hp]. split; [by apply store_of_wf|]. split; [done|].
  intros i _. exists 0. split; [done|]. split; [by left|]. intros j.
  rewrite decide_False by lia. by apply store_of_slices.
Qed.

Lemma opened_over_ok ops : past_ops ops ->
  dht_try_from_store w_now (store_of 5 ops) = (Ok (opened_over ops).1, (opened_over ops).2) /\
  st_wf (opened_over ops).2 /\ st_ops (opened_over ops).2 = st_ops (store_of 5 ops) /\
  st_size (opened_over ops).2 = st_size (store_of 5 ops) /\
  dht_ok w_now (st_ops (opened_over ops).2) (opened_over ops).2 (opened_over ops).1.
Proof.
  intros Hp. destruct (dht_try_from_store_ok w_now (store_of 5 ops) w_now_ok (store_of_ready ops Hp))
    as (d & s & E & W & O & Z & D & _).
  unfold opened_over. rewrite E. done.
Qed.

Definition small_ops (ops : list IncomingOp) (max : Z) : Prop :=
  0 <= max /\ total_size (st_size (store_of 5 ops)) (map op_id (st_ops (store_of 5 ops))) + max
    < 2 ^ 31.

#[global] Instance small_ops_dec ops max : Decision (small_ops ops max).
Proof. unfold small_ops. apply _. Defined.

Lemma opened_over_party ops max : past_ops ops -> small_ops ops max ->
  party w_now max (opened_over ops).2 (opened_over ops).1.
Proof.
  intros Hp Hm. destruct (opened_over_ok ops Hp) as (_ & W & O & Z & D).
  split; [done|done|]. rewrite Z, O. exact Hm.
Qed.

(** The first sector of every loaded arc. *)
Definition w_set : ArcSet := MkArcSet {[ 0 ]}.

Lemma w_set_ok : set_ok w_set.
Proof.
  split.
  - intros i Hi. cbn [inner w_set] in Hi.
    apply elem_of_singleton in Hi as ->. done.
  - apply (bool_decide_eq_true_1 (_ <> _)). vm_compute. done.
Qed.

(** Three collections: [ops_b] differs from [ops_a] in recent ops only, [ops_c]
    in a historical one. *)
Definition ops_a : list IncomingOp :=
  [incoming [1;0;0;0] 30000000000 [7]; incoming [2;0;0;0] 900000000000 [8;8]].
Definition ops_b : list IncomingOp :=
  [incoming [1;0;0;0] 30000000000 [7]; incoming [6;0;0;0] 900000000000 [8;8]].
Definition ops_c : list IncomingOp :=
  [incoming [9;0;0;0] 40000000000 [7]; incoming [2;0;0;0] 900000000000 [8;8]].

Lemma ops_past : past_ops ops_a /\ past_ops ops_b /\ past_ops ops_c.
Proof. apply (bool_decide_eq_true_1 _). vm_compute. done. Qed.

Lemma ops_small : small_ops ops_a 1000 /\ small_ops ops_b 1000 /\ small_ops ops_c 1000.
Proof. apply (bool_decide_eq_true_1 _). vm_compute. done. Qed.

Definition dht_a : Dht := (opened_over ops_a).1.
Definition store_a : MemStore := (opened_over ops_a).2.
Definition dht_b : Dht := (opened_over ops_b).1.
Definition store_b : MemStore := (opened_over ops_b).2.
Definition dht_c : Dht := (opened_over ops_c).1.
Definition store_c : MemStore := (opened_over ops_c).2.
(** The same ops as [ops_a], processed in the other order. *)
Definition dht_r : Dht := (opened_over (rev ops_a)).1.
Definition store_r : MemStore := (opened_over (rev ops_a)).2.

Lemma ops_r_past : past_ops (rev ops_a).
Proof. apply (bool_decide_eq_true_1 _). vm_compute. done. Qed.


Lemma converged_identical_witness :
  exists m, snapshot_minimal dht_a w_set store_a = (Ok m, store_a) /\
    snapshot_minimal dht_r w_set store_r = (Ok m, store_r) /\
    handle_snapshot dht_r m None w_set 1000 store_r = (Ok (ActIdentical, 0), store_r).
Proof.
  destruct (opened_over_ok ops_a) as (_ & Wa & Oa & _ & Da); [apply ops_past|].
  destruct (opened_over_ok (rev ops_a)) as (_ & Wr & Or & _ & Dr); [apply ops_r_past|].
  apply (converged_identical w_now store_a dht_a store_r dht_r w_set None 1000);
    [exact Wa|exact Da|exact Wr|exact Dr|exact w_set_ok|].
  unfold same_ops, store_a, store_r. rewrite Oa, Or. vm_compute. reflexivity.
Defined.

Lemma disc_exchange_witness :
  exists minimal sectors_B details_A details_B ids_A used_A ids_B used_B,
    snapshot_minimal dht_a w_set store_a = (Ok minimal, store_a) /\
    handle_snapshot dht_c minimal None w_set 1000 store_c
      = (Ok (NewSnapshot sectors_B, 0), store_c) /\
    handle_snapshot dht_a sectors_B None w_set 1000 store_a
      = (Ok (NewSnapshot details_A, 0), store_a) /\
    handle_snapshot dht_c details_A None w_set 1000 store_c
      = (Ok (NewSnapshotAndHashList details_B ids_B, used_B), store_c) /\
    handle_snapshot dht_a details_B (Some details_A) w_set 1000 store_a
      = (Ok (HashList ids_A, used_A), store_a) /\
    lists store_c 1000 (disc_wanted w_now w_set (st_ops store_a) (st_ops store_c)) ids_B used_B /\
    lists store_a 1000 (disc_wanted w_now w_set (st_ops store_a) (st_ops store_c)) ids_A used_A.
Proof.
  destruct (opened_over_ok ops_a) as (_ & _ & Oa & _); [apply ops_past|].
  destruct (opened_over_ok ops_c) as (_ & _ & Oc & _); [apply ops_past|].
  apply (disc_exchange w_now 1000 store_a dht_a store_c dht_c w_set).
  - apply opened_over_party; [apply ops_past|apply ops_small].
  - apply opened_over_party; [apply ops_past|apply ops_small].
  - exact w_set_ok.
  - unfold store_a, store_c. rewrite Oa, Oc. apply (bool_decide_eq_true_1 (_ <> _)).
    vm_compute. reflexivity.
Defined.

Lemma ring_exchange_witness :
  exists minimal details_A details_B ids_A used_A ids_B used_B,
    snapshot_minimal dht_a w_set store_a = (Ok minimal, store_a) /\
    handle_snapshot dht_b minimal None w_set 1000 store_b
      = (Ok (NewSnapshot details_B, 0), store_b) /\
    handle_snapshot dht_a details_B None w_set 1000 store_a
      = (Ok (NewSnapshotAndHashList details_A ids_A, used_A), store_a) /\
    handle_snapshot dht_b details_A (Some details_B) w_set 1000 store_b
      = (Ok (HashList ids_B, used_B), store_b) /\
    lists store_a 1000 (ring_wanted w_now w_set (st_ops store_a) (st_ops store_b)) ids_A used_A /\
    lists store_b 1000 (ring_wanted w_now w_set (st_ops store_b) (st_ops store_a)) ids_B used_B.
Proof.
  destruct (opened_over_ok ops_a) as (_ & _ & Oa & _); [apply ops_past|].
  destruct (opened_over_ok ops_b) as (_ & _ & Ob & _); [apply ops_past|].
  apply (ring_exchange w_now 1000 store_a dht_a store_b dht_b w_set).
  - apply opened_over_party; [apply ops_past|apply ops_small].
  - apply opened_over_party; [apply ops_past|apply ops_small].
  - exact w_set_ok.
  - unfold store_a, store_b. rewrite Oa, Ob. apply (bool_decide_eq_true_1 (_ = _)).
    vm_compute. reflexivity.
  - unfold store_a, store_b. rewrite Oa, Ob. apply (bool_decide_eq_true_1 (_ <> _)).
    vm_compute. reflexivity.
Defined.
