(* ===== verification/Blocks.v ===== *)
(** The block math of storage arcs (crates/gossip/src/sharding/blocks.rs):
    aligned power-of-two blocks of sectors. *)

From S2P Require Import Prelude Arc Timestamp ArcSet.

Definition wrap_u8 (x : Z) : Z := x mod 2 ^ 8.

(** [u32::trailing_zeros], looked for among the low [n] bits. *)
Fixpoint trailing_zeros_from (n : nat) (i x : Z) : Z :=
  match n with
  | O => i
  | S n => if Z.testbit x i then i else trailing_zeros_from n (i + 1) x
  end.
Definition trailing_zeros_u32 (x : Z) : Z := trailing_zeros_from 32 0 x.

(** A half-open range of sector indices. *)
Definition range : Type := Z * Z.

Definition NUM_SECTORS : Z := U32_MAX / SECTOR_SIZE + 1.
Definition MAX_LEVEL : Z := wrap_u8 (trailing_zeros_u32 NUM_SECTORS).

Definition home_sector (loc : Z) : Z := loc / SECTOR_SIZE.

Definition block (home level : Z) : range :=
  if MAX_LEVEL <=? level then (0, NUM_SECTORS)
  else
    let size := wrap_u32 (Z.shiftl 1 level) in
    let start := wrap_u32 (Z.shiftl (Z.shiftr home level) level) in
    (start, wrap_u32 (start + size)).

Definition sibling_half (home level : Z) : range :=
  let '(parent_start, parent_end) := block home (wrap_u8 (level + 1)) in
  let '(cur_start, cur_end) := block home level in
  if parent_start =? cur_start then (cur_end, parent_end) else (parent_start, cur_start).

Definition vacate_half (home level : Z) : range :=
  let '(cur_start, cur_end) := block home level in
  let '(keep_start, keep_end) := block home (wrap_u8 (level - 1)) in
  if cur_start =? keep_start then (keep_end, cur_end) else (cur_start, keep_start).

(** The assertion on the bounds is compiled in debug builds only. *)
Definition sectors_to_arc (start end_ : Z) : DhtArc :=
  if (start =? 0) && (end_ =? NUM_SECTORS) then FULL
  else Arc (wrap_u32 (start * SECTOR_SIZE))
           (wrap_u32 (wrap_u32 (wrap_u32 (end_ - 1) * SECTOR_SIZE) + (SECTOR_SIZE - 1))).

Definition block_arc (home level : Z) : DhtArc :=
  let '(start, end_) := block home level in sectors_to_arc start end_.

(** ** Lemmas *)

Definition home_ok (home : Z) : Prop := 0 <= home < 512.
Definition level_ok (level : Z) : Prop := 0 <= level <= 9.

(** The sector lies in the range. *)
Definition in_range (s : Z) (r : range) : Prop := r.1 <= s < r.2.

#[global] Instance in_range_dec s r : Decision (in_range s r).
Proof. unfold in_range. apply _. Defined.

Lemma NUM_SECTORS_val : NUM_SECTORS = 512.
Proof. done. Qed.
Lemma MAX_LEVEL_val : MAX_LEVEL = 9.
Proof. done. Qed.

Lemma home_sector_ok loc : is_u32 loc -> home_ok (home_sector loc).
Proof.
  unfold is_u32, home_ok, home_sector. rewrite SECTOR_SIZE_val. intros Hl. split.
  - apply Z.div_pos; lia.
  - apply Z.div_lt_upper_bound; lia.
Qed.

(** The first sector of the block of [2 ^ level] sectors around [home]. *)
Definition block_start (home level : Z) : Z := home / 2 ^ level * 2 ^ level.

Lemma level_pow level : level_ok level -> 1 <= 2 ^ level <= 512 /\ (2 ^ level | 512).
Proof.
  unfold level_ok. intros Hl. split.
  - split; [apply (Z.pow_le_mono_r 2 0); lia|change 512 with (2 ^ 9); apply Z.pow_le_mono_r; lia].
  - exists (2 ^ (9 - level)). rewrite <- Z.pow_add_r by lia. by replace (9 - level + level) with 9 by lia.
Qed.

Lemma block_start_bounds home level : level_ok level -> home_ok home ->
  0 <= block_start home level /\ block_start home level <= home < block_start home level + 2 ^ level
  /\ block_start home level + 2 ^ level <= 512.
Proof.
  intros Hl Hh. destruct (level_pow level Hl) as [Hp [k Hk]]. unfold home_ok in Hh.
  unfold block_start. pose proof (Z.mul_div_le home (2 ^ level)).
  pose proof (Z.mul_succ_div_gt home (2 ^ level)). pose proof (Z.div_pos home (2 ^ level)).
  split; [nia|]. split; [lia|]. set (q := home / 2 ^ level) in *.
  assert (q < k) by nia. rewrite Hk. nia.
Qed.

(** The block holds [2 ^ level] sectors from a multiple of that number. *)
Lemma block_eq home level : level_ok level -> home_ok home ->
  block home level = (block_start home level, block_start home level + 2 ^ level).
Proof.
  intros Hl Hh. pose proof (block_start_bounds home level Hl Hh) as (Hb0 & Hb1 & Hb2).
  destruct (level_pow level Hl) as [Hp _]. unfold block. rewrite MAX_LEVEL_val, NUM_SECTORS_val.
  destruct (Z.leb_spec 9 level) as [Hge|Hlt].
  - replace level with 9 in * by (unfold level_ok in *; lia).
    change (2 ^ 9) with 512 in *. assert (block_start home 9 = 0) as -> by lia. done.
  - unfold level_ok in Hl. rewrite Z.shiftl_1_l, Z.shiftl_mul_pow2, Z.shiftr_div_pow2 by lia.
    fold (block_start home level).
    rewrite (wrap_u32_id (block_start home level)) by (unfold is_u32; lia).
    rewrite (wrap_u32_id (2 ^ level)) by (unfold is_u32; lia).
    by rewrite wrap_u32_id by (unfold is_u32; lia).
Qed.

Lemma wrap_u8_id x : 0 <= x < 256 -> wrap_u8 x = x.
Proof. intros. unfold wrap_u8. by apply Z.mod_small. Qed.

(** A block is one of the halves of its parent. *)
Lemma block_start_parent home level : 0 <= level ->
  block_start home (level + 1) = block_start home level \/
  block_start home (level + 1) = block_start home level - 2 ^ level.
Proof.
  intros Hl. unfold block_start. rewrite Z.pow_add_r by lia. change (2 ^ 1) with 2.
  assert (0 < 2 ^ level) by (apply Z.pow_pos_nonneg; lia).
  rewrite <- Z.div_div by lia. set (q := home / 2 ^ level).
  pose proof (Z.div_mod q 2 ltac:(lia)) as Hq. pose proof (Z.mod_pos_bound q 2 ltac:(lia)).
  assert (q mod 2 = 0 \/ q mod 2 = 1) as [Hr|Hr] by lia; rewrite Hr in Hq; [left|right];
    rewrite Hq at 2; ring.
Qed.

Lemma sibling_half_eq home level : home_ok home -> 0 <= level < 9 ->
  let p := block_start home (level + 1) in let c := block_start home level in
  sibling_half home level = if p =? c then (c + 2 ^ level, c + 2 ^ (level + 1)) else (p, c).
Proof.
  intros Hh Hl. cbv zeta. unfold sibling_half. rewrite wrap_u8_id by lia.
  rewrite !block_eq by (done || unfold level_ok; lia).
  destruct (Z.eqb_spec (block_start home (level + 1)) (block_start home level)) as [->|]; done.
Qed.

Lemma vacate_half_eq home level : home_ok home -> 0 < level <= 9 ->
  vacate_half home level = sibling_half home (level - 1).
Proof.
  intros Hh Hl. unfold vacate_half, sibling_half. rewrite !wrap_u8_id by lia.
  replace (level - 1 + 1) with level by lia.
  destruct (block home level) as [a b], (block home (level - 1)) as [c d]. done.
Qed.

Lemma sibling_disjoint home level s : home_ok home -> 0 <= level < 9 ->
  in_range s (block home level) -> in_range s (sibling_half home level) -> False.
Proof.
  intros Hh Hl. rewrite sibling_half_eq by done. cbv zeta.
  rewrite !block_eq by (done || unfold level_ok; lia). unfold in_range.
  assert (0 < 2 ^ level) by (apply Z.pow_pos_nonneg; lia).
  pose proof (block_start_parent home level) as [Hp|Hp]; [lia|..]; rewrite Hp.
  - rewrite Z.eqb_refl. cbn [fst snd]. lia.
  - destruct (Z.eqb_spec (block_start home level - 2 ^ level) (block_start home level)); [lia|].
    cbn [fst snd]. lia.
Qed.

(** A sector of a block is in one half or the other, never both. *)
Lemma sibling_split home level s : home_ok home -> 0 <= level < 9 ->
  in_range s (block home (level + 1)) <->
  (in_range s (block home level) /\ ~ in_range s (sibling_half home level)) \/
  (in_range s (sibling_half home level) /\ ~ in_range s (block home level)).
Proof.
  intros Hh Hl. rewrite sibling_half_eq by done. cbv zeta.
  rewrite !block_eq by (done || unfold level_ok; lia). unfold in_range.
  assert (0 < 2 ^ level) by (apply Z.pow_pos_nonneg; lia).
  pose proof (block_start_parent home level) as [Hp|Hp]; [lia|..];
    rewrite Hp; rewrite Z.pow_add_r by lia; change (2 ^ 1) with 2.
  - rewrite Z.eqb_refl. cbn [fst snd]. lia.
  - destruct (Z.eqb_spec (block_start home level - 2 ^ level) (block_start home level)); [lia|].
    cbn [fst snd]. lia.
Qed.

Lemma sibling_size home level : home_ok home -> 0 <= level < 9 ->
  0 <= (sibling_half home level).1 /\ (sibling_half home level).2 <= 512 /\
  (sibling_half home level).2 - (sibling_half home level).1 = 2 ^ level.
Proof.
  intros Hh Hl. rewrite sibling_half_eq by done. cbv zeta.
  destruct (block_start_bounds home level) as (Hb0 & Hb1 & Hb2); [unfold level_ok; lia|done|].
  destruct (block_start_bounds home (level + 1)) as (Hc0 & Hc1 & Hc2); [unfold level_ok; lia|done|].
  pose proof (block_start_parent home level) as [Hp|Hp]; [lia|..];
    rewrite Z.pow_add_r in * by lia; change (2 ^ 1) with 2 in *;
    destruct (Z.eqb_spec (block_start home (level + 1)) (block_start home level)); cbn [fst snd]; lia.
Qed.

Lemma SECTOR_SIZE_pos : 0 < SECTOR_SIZE.
Proof. by rewrite SECTOR_SIZE_val. Qed.

(** The arc of a range of sectors holds the locations of those sectors. *)
Lemma sectors_to_arc_contains start end_ loc : 0 <= start < end_ -> end_ <= 512 -> is_u32 loc ->
  contains (sectors_to_arc start end_) loc = true <-> in_range (home_sector loc) (start, end_).
Proof.
  intros Hs He Hl. unfold sectors_to_arc, in_range, home_sector. cbn [fst snd].
  rewrite NUM_SECTORS_val, SECTOR_SIZE_val.
  pose proof Hl as Hl'. unfold is_u32 in Hl'.
  assert (0 <= loc / 8388608 < 512) as Hd.
  { split; [apply Z.div_pos; lia|apply Z.div_lt_upper_bound; lia]. }
  destruct ((start =? 0) && (end_ =? 512)) eqn:E.
  - apply andb_true_iff in E as [E1 E2]. apply Z.eqb_eq in E1, E2. subst.
    rewrite contains_FULL by done. split; [done|by intros _].
  - rewrite (wrap_u32_id (end_ - 1)) by (unfold is_u32; lia).
    rewrite (wrap_u32_id (start * _)) by (unfold is_u32; lia).
    rewrite (wrap_u32_id ((end_ - 1) * _)) by (unfold is_u32; lia).
    rewrite wrap_u32_id by (unfold is_u32; lia).
    assert (arc_wf (Arc (start * 8388608) ((end_ - 1) * 8388608 + (8388608 - 1)))) as Hw
      by (split; unfold is_u32; lia).
    rewrite contains_in_arc by done. rewrite in_arc_Arc by done.
    destruct (Z.ltb_spec ((end_ - 1) * 8388608 + (8388608 - 1)) (start * 8388608)); [lia|].
    pose proof (Z.mul_div_le loc 8388608). pose proof (Z.mul_succ_div_gt loc 8388608). lia.
Qed.

(** ** Properties *)

(** The blocks of any two agents at any two levels are nested or share no
    sector. *)
Theorem blocks_nested home home' level level' :
  home_ok home -> home_ok home' -> level_ok level -> level_ok level' -> level <= level' ->
  (forall s, in_range s (block home level) -> in_range s (block home' level')) \/
  (forall s, in_range s (block home level) -> ~ in_range s (block home' level')).
Proof.
  intros Hh Hh' Hl Hl' Hle. rewrite !block_eq by done. unfold in_range, block_start. cbn [fst snd].
  assert (2 ^ level' = 2 ^ (level' - level) * 2 ^ level) as Hp.
  { unfold level_ok in *. rewrite <- Z.pow_add_r by lia. by replace (level' - level + level) with level' by lia. }
  destruct (level_pow level Hl) as [Hp1 _]. destruct (level_pow level' Hl') as [Hp2 _].
  set (a := home / 2 ^ level). set (b := home' / 2 ^ level').
  set (k := 2 ^ (level' - level)) in *. set (u := 2 ^ level) in *.
  assert (1 <= k) by nia. rewrite Hp, Z.mul_assoc.
  replace (b * k * u + k * u) with ((b * k + k) * u) by ring.
  set (c := b * k). replace (a * u + u) with ((a + 1) * u) by ring.
  destruct (decide (c <= a /\ a + 1 <= c + k)) as [[H1' H2']|Hout].
  - left. intros s Hs. apply (Z.mul_le_mono_nonneg_r _ _ u) in H1', H2'; lia.
  - right. intros s Hs Hs'. apply Hout. split.
    + apply Z.lt_succ_r, (Z.mul_lt_mono_pos_r u); lia.
    + apply Z.le_succ_l, (Z.mul_lt_mono_pos_r u); lia.
Qed.

Lemma blocks_nested_witness :
  (forall s, in_range s (block 5 2) -> in_range s (block 300 9)) \/
  (forall s, in_range s (block 5 2) -> ~ in_range s (block 300 9)).
Proof. apply (blocks_nested 5 300 2 9); unfold home_ok, level_ok; lia. Defined.

(** Shrinking by one level and growing by one level are inverse: the half
    given up at a level is the half taken back from the level below, the block
    is the disjoint union of the kept block and that half, of equal sizes, and
    the home sector is always kept. *)
Theorem shrink_grow_halves home level : home_ok home -> 0 < level <= 9 ->
  vacate_half home level = sibling_half home (level - 1) /\
  (forall s, in_range s (block home level) <->
     in_range s (block home (level - 1)) \/ in_range s (vacate_half home level)) /\
  (forall s, in_range s (block home (level - 1)) -> ~ in_range s (vacate_half home level)) /\
  in_range home (block home (level - 1)) /\
  (vacate_half home level).2 - (vacate_half home level).1 = 2 ^ (level - 1).
Proof.
  intros Hh Hl. rewrite vacate_half_eq by done. split; [done|].
  assert (0 <= level - 1 < 9) as Hl' by lia.
  split_and!.
  - intros s. pose proof (sibling_split home (level - 1) s Hh Hl') as Hs.
    replace (level - 1 + 1) with level in Hs by lia. rewrite Hs. destruct (decide (in_range s (block home (level - 1)))),
      (decide (in_range s (sibling_half home (level - 1)))); try tauto.
    exfalso. pose proof (sibling_disjoint home (level - 1) s Hh Hl'). tauto.
  - intros s H1' H2'. by apply (sibling_disjoint home (level - 1) s).
  - rewrite block_eq by (done || unfold level_ok; lia).
    destruct (block_start_bounds home (level - 1)) as (_ & ? & _); [unfold level_ok; lia|done|done].
  - by apply sibling_size.
Qed.

Lemma shrink_grow_halves_witness :
  vacate_half 5 3 = sibling_half 5 (3 - 1) /\
  (forall s, in_range s (block 5 3) <->
     in_range s (block 5 (3 - 1)) \/ in_range s (vacate_half 5 3)) /\
  (forall s, in_range s (block 5 (3 - 1)) -> ~ in_range s (vacate_half 5 3)) /\
  in_range 5 (block 5 (3 - 1)) /\
  (vacate_half 5 3).2 - (vacate_half 5 3).1 = 2 ^ (3 - 1).
Proof. apply (shrink_grow_halves 5 3); unfold home_ok; lia. Defined.

(** An agent's arc at a level holds exactly the locations whose sector lies
    in its block, its own location among them. *)
Theorem block_arc_locations loc level x : is_u32 loc -> level_ok level -> is_u32 x ->
  (contains (block_arc (home_sector loc) level) x = true <->
   in_range (home_sector x) (block (home_sector loc) level)) /\
  contains (block_arc (home_sector loc) level) loc = true.
Proof.
  intros Hloc Hl Hx. pose proof (home_sector_ok loc Hloc) as Hh. unfold block_arc.
  rewrite block_eq by done.
  destruct (block_start_bounds _ level Hl Hh) as (Hb0 & Hb1 & Hb2).
  destruct (level_pow level Hl) as [Hp _].
  split; apply sectors_to_arc_contains; done || lia.
Qed.

Lemma block_arc_locations_witness :
  (contains (block_arc (home_sector 70000000) 2) 70000001 = true <->
   in_range (home_sector 70000001) (block (home_sector 70000000) 2)) /\
  contains (block_arc (home_sector 70000000) 2) 70000000 = true.
Proof. apply block_arc_locations; unfold is_u32, level_ok; lia. Defined.
