(* ===== verification/Agent.v ===== *)
(** Agent infos (crates/api/src/agent.rs), and the order of agent ids. *)
From S2P Require Import Prelude Arc Timestamp Id.

(** Ids are byte strings; a peer's URL is kept as its text. *)
Abbreviation AgentId := bytes (only parsing).
Abbreviation SpaceId := bytes (only parsing).
Abbreviation Url := string (only parsing).

Record AgentInfo : Type := MkAgentInfo {
  ai_agent : AgentId;
  ai_space : SpaceId;
  ai_created_at : Timestamp;
  ai_expires_at : Timestamp;
  ai_is_tombstone : bool;
  ai_url : option Url;
  ai_storage_arc : DhtArc;
}.

(** An agent info as it was signed; it dereferences to the info. *)
Record AgentInfoSigned : Type := MkAgentInfoSigned {
  agent_info :> AgentInfo;
  ai_encoded : string;
  ai_signature : bytes;
}.

#[global] Instance AgentInfo_eq_dec : EqDecision AgentInfo.
Proof. solve_decision. Defined.
#[global] Instance AgentInfoSigned_eq_dec : EqDecision AgentInfoSigned.
Proof. solve_decision. Defined.

(** What is used of a local agent: the arc it declares and the arc it is to
    grow to. *)
Record LocalAgent : Type := MkLocalAgent {
  la_agent : AgentId;
  cur_storage_arc : DhtArc;
  tgt_storage_arc : DhtArc;
}.

(** The derived order of ids: that of their bytes, lexicographically. *)
Fixpoint id_lt (a b : bytes) : bool :=
  match a, b with
  | _, [] => false
  | [], _ :: _ => true
  | x :: a, y :: b => if x <? y then true else if x =? y then id_lt a b else false
  end.

Lemma id_lt_irrefl a : id_lt a a = false.
Proof. induction a as [|x a IH]; [done|]. simpl. by rewrite Z.ltb_irrefl, Z.eqb_refl. Qed.

Lemma id_lt_trans a b c : id_lt a b = true -> id_lt b c = true -> id_lt a c = true.
Proof.
  revert b c. induction a as [|x a IH]; intros [|y b] [|z c]; simpl; try done.
  destruct (Z.ltb_spec x y), (Z.ltb_spec y z), (Z.eqb_spec x y), (Z.eqb_spec y z);
    intros; try done; destruct (Z.ltb_spec x z), (Z.eqb_spec x z); try done; try lia; eauto.
Qed.

Lemma id_lt_total a b : id_lt a b = true \/ a = b \/ id_lt b a = true.
Proof.
  revert b. induction a as [|x a IH]; intros [|y b]; simpl; [tauto..|].
  destruct (Z.ltb_spec x y), (Z.ltb_spec y x), (Z.eqb_spec x y), (Z.eqb_spec y x); try lia; try tauto.
  subst. destruct (IH b) as [?|[->|?]]; tauto.
Qed.

Lemma id_lt_asym a b : id_lt a b = true -> id_lt b a = false.
Proof.
  intros H1. destruct (id_lt b a) eqn:E; [|done].
  pose proof (id_lt_trans _ _ _ H1 E) as Ht. by rewrite id_lt_irrefl in Ht.
Qed.

(** Signed agent infos as bytes (crates/api/src/agent.rs): signing, encoding
    and verified decoding.  The JSON of serde_json and the host's signer and
    verifier are parameters. *)
(** serde_json on the types concerned, and the host's [Verifier].  A [Ref] is
    the encoded info with its signature. *)
Class AgentJson := {
  info_to_json : AgentInfo -> option string;
  info_from_json : string -> option AgentInfo;
  ref_to_json : string * bytes -> option bytes;
  ref_from_json : bytes -> option (string * bytes);
  ref_list_from_json : bytes -> option (list (string * bytes));
  verify : AgentInfo -> string -> bytes -> bool;
}.

(** serde_json reads back what it wrote. *)
Class AgentJsonLaws `{AgentJson} := {
  info_from_to info s : info_to_json info = Some s -> info_from_json s = Some info;
  ref_from_to r b : ref_to_json r = Some b -> ref_from_json b = Some r;
}.

Definition ok_or {A} (msg : string) (o : option A) : res A :=
  match o with Some a => Ok a | None => Err msg end.

Section codec.
Context `{AgentJson}.

(** The signer may fail. *)
Definition sign (signer : AgentInfo -> string -> res bytes) (info : AgentInfo)
  : res AgentInfoSigned :=
  let? encoded := ok_or "encoding agent_info" (info_to_json info) in
  match signer info encoded with
  | Ok signature => Ok (MkAgentInfoSigned info encoded signature)
  | Err _ => Err "signing agent_info"
  | Panic e => Panic e
  end.

Definition inner_decode_one (encoded : string) (signature : bytes) : res AgentInfoSigned :=
  let? info := ok_or "decoding inner agent_info" (info_from_json encoded) in
  if negb (verify info encoded signature) then Err "InvalidSignature"
  else Ok (MkAgentInfoSigned info encoded signature).

Definition decode_info (encoded : bytes) : res AgentInfoSigned :=
  let? v := ok_or "decoding agent_info" (ref_from_json encoded) in
  inner_decode_one v.1 v.2.

Definition decode_list (encoded : bytes) : res (list (res AgentInfoSigned)) :=
  let? v := ok_or "decoding agent_info" (ref_list_from_json encoded) in
  Ok (map (fun r => inner_decode_one r.1 r.2) v).

Definition encode_info (a : AgentInfoSigned) : res bytes :=
  ok_or "encoding agent_info" (ref_to_json (ai_encoded a, ai_signature a)).

(** A signed info as its fields say: the encoded text is that of the info and
    the signature is the host's. *)
Definition authentic (a : AgentInfoSigned) : Prop :=
  info_from_json (ai_encoded a) = Some (agent_info a) /\
  verify (agent_info a) (ai_encoded a) (ai_signature a) = true.

Lemma inner_decode_authentic encoded signature a :
  inner_decode_one encoded signature = Ok a -> authentic a.
Proof.
  unfold inner_decode_one, ok_or, authentic. destruct (info_from_json encoded) eqn:E; [|done].
  cbn. destruct (verify _ _ _) eqn:V; intros; simplify_eq/=. by split.
Qed.

Lemma decode_info_authentic b a : decode_info b = Ok a -> authentic a.
Proof.
  unfold decode_info, ok_or. destruct (ref_from_json b); [|done].
  apply inner_decode_authentic.
Qed.

(** A signed info that is encoded and decoded again is the same info, when
    the host's verifier accepts what its signer signed; with any other
    signature decoding refuses it. *)
Theorem sign_encode_decode `{!AgentJsonLaws} signer info a b :
  sign signer info = Ok a -> encode_info a = Ok b ->
  decode_info b =
    (if verify info (ai_encoded a) (ai_signature a) then Ok a else Err "InvalidSignature").
Proof.
  unfold sign, encode_info, decode_info, ok_or.
  destruct (info_to_json info) eqn:E; [|done]. cbn.
  destruct (signer info s); intros; simplify_eq/=.
  destruct (ref_to_json _) eqn:R; simplify_eq/=.
  rewrite (ref_from_to _ _ R). cbn. unfold inner_decode_one, ok_or. cbn.
  rewrite (info_from_to _ _ E). cbn. by destruct (verify _ _ _).
Qed.
End codec.

(** ** A witness: one agent info, whose signature is the byte 7 *)

Definition lone_info : AgentInfo := MkAgentInfo [1] [2] 0 10 false None Empty.

Definition lone_json : AgentJson := {|
  info_to_json info := if bool_decide (info = lone_info) then Some "lone"%string else None;
  info_from_json s := if bool_decide (s = "lone"%string) then Some lone_info else None;
  ref_to_json r := if bool_decide (r.1 = "lone"%string) then Some r.2 else None;
  ref_from_json b := Some ("lone"%string, b);
  ref_list_from_json b := None;
  verify _ _ signature := bool_decide (signature = [7]);
|}.

Lemma lone_json_laws : @AgentJsonLaws lone_json.
Proof.
  split.
  - intros info s. cbn. case_bool_decide; intros; by simplify_eq/=.
  - intros [e g] b. cbn. case_bool_decide; intros; by simplify_eq/=.
Qed.

Lemma sign_encode_decode_witness :
  let a := MkAgentInfoSigned lone_info "lone" [7] in
  @sign lone_json (fun _ _ => Ok [7]) lone_info = Ok a /\
  @encode_info lone_json a = Ok [7] /\ @decode_info lone_json [7] = Ok a.
Proof.
  split; [vm_compute; reflexivity|]. split; [vm_compute; reflexivity|].
  refine (eq_trans (@sign_encode_decode lone_json lone_json_laws (fun _ _ => Ok [7]) lone_info _ [7] _ _) _);
    vm_compute; reflexivity.
Defined.
