(* ===== verification/StorageArc.v ===== *)
(** The growth of local agents' storage arcs by gossip
    (crates/gossip/src/storage_arc.rs). *)

From S2P Require Import Prelude Arc Timestamp Id Combine ArcSet Agent Snapshot.

(** The sectors a ring comparison reported as differing. *)
Definition mismatched_of (snapshot : DhtSnapshot) : option (list Z) :=
  match snapshot with
  | Minimal _ _ _ => Some []
  | RingSectorDetails ring_sector_hashes _ =>
      Some (flat_map (fun kv => (map_to_list kv.2).*1) (map_to_list ring_sector_hashes))
  | _ => None
  end.

(** [max_by_key] on the span: the last of the largest. *)
Definition max_by_span (arcs : list DhtArc) : option DhtArc :=
  foldl (fun best arc =>
    match best with
    | None => Some arc
    | Some b => if arc_span b <=? arc_span arc then Some arc else Some b
    end) None arcs.

(** The new current arc of an agent, if it changes.  [sharding] is the crate's
    feature of that name. *)
Definition new_storage_arc (sharding : bool) (synced_arcs : list DhtArc)
  (target current : DhtArc) : res (option DhtArc) :=
  if bool_decide (target = current) then Ok None
  else
    let? target_set := ArcSet.new [target] in
    let? synced_set := ArcSet.new (synced_arcs ++ [current]) in
    let new_arcs := as_arcs (intersection synced_set target_set) in
    Ok (if sharding then
          if bool_decide (current = Empty) then max_by_span new_arcs
          else List.find (fun arc =>
            (arc_span current <? arc_span arc) && overlaps arc current) new_arcs
        else if existsb (fun arc => bool_decide (arc = FULL)) new_arcs then Some FULL else None).

(** The loop over the local agents.  It stops at the first error, with the
    agents before it updated; the ids of the updated agents, whose callback is
    invoked, are returned in order. *)
Fixpoint update_loop (sharding : bool) (synced_arcs : list DhtArc) (local_agents : list LocalAgent)
  : res unit * (list LocalAgent * list AgentId) :=
  match local_agents with
  | [] => (Ok tt, ([], []))
  | a :: rest =>
      match new_storage_arc sharding synced_arcs (tgt_storage_arc a) (cur_storage_arc a) with
      | Ok new_arc =>
          let '(r, (rest', ids)) := update_loop sharding synced_arcs rest in
          match new_arc with
          | Some arc => (r, (MkLocalAgent (la_agent a) arc (tgt_storage_arc a) :: rest',
                             la_agent a :: ids))
          | None => (r, (a :: rest', ids))
          end
      | Err e => (Err e, (a :: rest, []))
      | Panic e => (Panic e, (a :: rest, []))
      end
  end.

Definition update_storage_arcs (sharding : bool) (snapshot : DhtSnapshot)
  (local_agents : list LocalAgent) (common_arc_set : ArcSet)
  : res unit * (list LocalAgent * list AgentId) :=
  match mismatched_of snapshot with
  | None => (Ok tt, (local_agents, []))
  | Some mismatched =>
      update_loop sharding (as_arcs (without_sector_indices common_arc_set mismatched)) local_agents
  end.

(** ** Runs of sectors *)

(** A run holds, with a sector, its neighbours in the set. *)
Lemma runs_closed a b l r x y : 0 <= a <= b -> StronglySorted Z.lt (b :: l) ->
  Forall (fun x => x < 512) (b :: l) ->
  r ∈ runs a b l -> x ∈ sectors_of r -> y = x + 1 \/ y = x - 1 ->
  (a <= y <= b \/ y ∈ l) -> y ∈ sectors_of r.
Proof.
  revert a b. induction l as [|c l IH]; intros a b Hab Hs Hf Hr Hx Hy Hin.
  - apply Forall_cons in Hf as [Hb _]. simpl in Hr. apply list_elem_of_singleton in Hr as ->.
    destruct (run_arc_aligned a b Hab Hb) as [_ ->]. apply elem_of_list_to_set, elem_of_zrange.
    destruct Hin as [?|?%elem_of_nil]; [lia|done].
  - pose proof Hf as Hf0. apply Forall_cons in Hf as [Hb Hf]. inversion_clear Hs as [|?? Hs' Hlt].
    apply Forall_cons in Hlt as [Hbc Hlt]. rewrite elem_of_cons in Hin. simpl runs in Hr.
    destruct (Z.eqb_spec (b + 1) c) as [<-|Hne].
    + apply (IH a (b + 1)); try done; [lia|]. destruct Hin as [?|[->|?]]; [left; lia|left; lia|by right].
    + assert (forall z, z ∈ l -> c < z) as Hcl.
      { inversion_clear Hs' as [|?? _ Hc]. intros z Hz. by eapply Forall_forall in Hc. }
      apply elem_of_cons in Hr as [->|Hr].
      * destruct (run_arc_aligned a b Hab Hb) as [_ Er]. rewrite Er in *.
        apply elem_of_list_to_set, elem_of_zrange in Hx. apply elem_of_list_to_set, elem_of_zrange.
        destruct Hin as [?|[->|Hz]]; [lia|lia|]. specialize (Hcl y Hz). lia.
      * assert (c <= x) as Hcx.
        { destruct (runs_spec c c l) as [_ Hu]; [lia|done..|].
          assert (x ∈ ⋃ (map sectors_of (runs c c l))) as Hxu.
          { apply elem_of_union_list. exists (sectors_of r). split; [|done].
            by apply (list_elem_of_fmap_2 sectors_of). }
          rewrite Hu, elem_of_union, !elem_of_list_to_set, elem_of_zrange in Hxu.
          destruct Hxu as [?|Hxl]; [lia|]. specialize (Hcl x Hxl). lia. }
        apply (IH c c); try done; [lia|]. destruct Hin as [?|[->|?]]; [lia|left; lia|by right].
Qed.

Lemma as_arcs_part s r : arc_set_wf s -> r ∈ as_arcs s -> aligned r /\ sectors_of r ⊆ inner s.
Proof.
  intros Hw Hr. destruct (as_arcs_spec s Hw) as [Ha Hu]. split; [by eapply Forall_forall in Ha|].
  rewrite <- Hu. intros x Hx. apply elem_of_union_list. exists (sectors_of r). split; [|done].
  by apply (list_elem_of_fmap_2 sectors_of).
Qed.

Lemma as_arcs_closed s r x y : arc_set_wf s -> r ∈ as_arcs s -> x ∈ sectors_of r ->
  y = x + 1 \/ y = x - 1 -> y ∈ inner s -> y ∈ sectors_of r.
Proof.
  intros Hw Hr Hx Hy Hin. unfold as_arcs in Hr. case_bool_decide as He; [by apply elem_of_nil in Hr|].
  destruct (Nat.eqb_spec (size (inner s)) 512) as [Hsz|Hsz].
  { apply list_elem_of_singleton in Hr as ->. rewrite (proj2 FULL_aligned).
    apply elem_of_all_sectors. by apply Hw. }
  pose proof (merge_sort_Permutation Z.le (elements (inner s))) as Hp.
  pose proof (StronglySorted_merge_sort Z.le (elements (inner s))) as Hs.
  destruct (merge_sort Z.le (elements (inner s))) as [|a l]; [by apply elem_of_nil in Hr|].
  assert (forall z, z ∈ a :: l <-> z ∈ inner s) as Hel
    by (intros z; rewrite Hp; by apply elem_of_elements).
  assert (NoDup (a :: l)) as Hnd by (rewrite Hp; apply NoDup_elements).
  apply (runs_closed a a l r x y); try done.
  - pose proof (Hw a (proj1 (Hel a) (list_elem_of_here _ _))). lia.
  - by apply StronglySorted_lt_of_le.
  - apply Forall_forall. intros z Hz. apply Hw. by apply Hel.
  - apply Hel, elem_of_cons in Hin as [->|?]; [left; lia|by right].
Qed.

(** A property kept between neighbours in an interval holds on all of it. *)
Lemma interval_closed (P : Z -> Prop) p q x0 : p <= x0 <= q -> P x0 ->
  (forall x y, P x -> y = x + 1 \/ y = x - 1 -> p <= y <= q -> P y) ->
  forall y, p <= y <= q -> P y.
Proof.
  intros Hx0 H0 Hstep y Hy.
  assert (forall n : nat, forall y, p <= y <= q -> Z.abs (y - x0) = Z.of_nat n -> P y) as Hn.
  { induction n as [|n IH]; intros z Hz Habs; [by replace z with x0 by lia|].
    destruct (Z.lt_ge_cases x0 z).
    - apply (Hstep (z - 1)); [apply IH; lia|lia|done].
    - apply (Hstep (z + 1)); [apply IH; lia|lia|done]. }
  apply (Hn (Z.to_nat (Z.abs (y - x0)))); [done|lia].
Qed.

(** The sectors of an arc that does not wrap. *)
Lemma straight_sectors s e x : aligned (Arc s e) -> s <= e ->
  x ∈ sectors_of (Arc s e) <-> s / SECTOR_SIZE <= x <= e / SECTOR_SIZE.
Proof.
  intros (Hs & He & Ms & Me) Hle. cbn [sectors_of]. rewrite elem_of_sectors_from.
  unfold num_sectors_covered. destruct (Z.ltb_spec e s); [lia|]. unfold is_u32 in *.
  rewrite SECTOR_SIZE_val in *.
  assert ((e - s) / 8388608 = e / 8388608 - s / 8388608) as -> by (Z.to_euclidean_division_equations; lia).
  assert (0 <= s / 8388608 /\ e / 8388608 < 512) by (Z.to_euclidean_division_equations; lia). split.
  - intros (i & Hi & ->). rewrite Z.mod_small; lia.
  - intros Hx. exists (x - s / 8388608). rewrite Z.mod_small; lia.
Qed.

(** Overlapping aligned arcs share a sector. *)
Lemma overlap_sector a b : aligned a -> aligned b -> overlaps a b = true ->
  exists x, x ∈ sectors_of a /\ x ∈ sectors_of b.
Proof.
  intros Ha Hb Ho.
  assert (forall c, aligned c -> arc_wf c) as Hwf by (intros [|? ?]; simpl; tauto).
  apply overlaps_shared in Ho as (l & Hl & Hla & Hlb); [|by apply Hwf..].
  exists (l / SECTOR_SIZE). by split; apply sector_in_arc.
Qed.

(** ** What a growth of an arc rests on *)

Definition straight (arc : DhtArc) : Prop := match arc with Empty => True | Arc s e => s <= e end.

#[global] Instance straight_dec arc : Decision (straight arc).
Proof. destruct arc; simpl; apply _. Defined.

(** The sectors a snapshot shows to be in sync. *)
Definition synced (common : ArcSet) (mismatched : list Z) (x : Z) : Prop :=
  x ∈ inner common /\ (x ∉ mismatched).

(** What becomes of one agent. *)
Record grown (common : ArcSet) (mismatched : list Z) (a : LocalAgent) (arc : DhtArc) : Prop := {
  gr_aligned : aligned arc;
  gr_target x : x ∈ sectors_of arc -> x ∈ sectors_of (tgt_storage_arc a);
  gr_held x : x ∈ sectors_of arc ->
    x ∈ sectors_of (cur_storage_arc a) \/ synced common mismatched x;
  gr_keeps x : straight (cur_storage_arc a) ->
    sectors_of (cur_storage_arc a) ⊆ sectors_of (tgt_storage_arc a) ->
    x ∈ sectors_of (cur_storage_arc a) -> x ∈ sectors_of arc;
}.

Lemma without_inner s l x : x ∈ inner (without_sector_indices s l) <-> synced s l x.
Proof.
  unfold without_sector_indices, synced. cbn [inner]. generalize (inner s) as acc.
  induction l as [|y l IH]; intros acc; cbn [foldl].
  - split; [intros; split; [done|apply not_elem_of_nil]|by intros [? _]].
  - rewrite IH, elem_of_difference, elem_of_singleton, not_elem_of_cons. tauto.
Qed.

Lemma synced_wf common m : arc_set_wf common -> arc_set_wf (without_sector_indices common m).
Proof. intros Hw x Hx. apply Hw. by apply without_inner in Hx as [? _]. Qed.

(** The set the new arc is taken from. *)
Lemma candidates_spec common m target current :
  arc_set_wf common -> aligned target -> aligned current ->
  exists t s, ArcSet.new [target] = Ok t /\
    ArcSet.new (as_arcs (without_sector_indices common m) ++ [current]) = Ok s /\
    arc_set_wf (intersection s t) /\
    forall x, x ∈ inner (intersection s t) <->
      (synced common m x \/ x ∈ sectors_of current) /\ x ∈ sectors_of target.
Proof.
  intros Hw Ht Hc. destruct (as_arcs_spec _ (synced_wf common m Hw)) as [Ha Hu].
  rewrite new_spec by (by apply Forall_singleton).
  rewrite new_spec by (apply Forall_app; split; [done|by apply Forall_singleton]).
  rewrite map_app, union_list_app_L, Hu. cbn [map].
  rewrite !union_list_cons, union_list_nil, !(right_id_L ∅ (∪)).
  eexists _, _. split; [done|]. split; [done|].
  assert (forall x, x ∈ (inner (without_sector_indices common m) ∪ sectors_of current) ∩ sectors_of target
    <-> (synced common m x \/ x ∈ sectors_of current) /\ x ∈ sectors_of target) as Hmem
    by (intros x; by rewrite elem_of_intersection, elem_of_union, without_inner).
  split; [|done]. intros x Hx. apply Hmem in Hx as [_ Hx].
  by apply sectors_of_wf, elem_of_all_sectors in Hx.
Qed.

Lemma max_by_span_in l arc : max_by_span l = Some arc -> arc ∈ l.
Proof.
  unfold max_by_span. assert (forall (best : option DhtArc) l' , (forall b, best = Some b -> b ∈ l) ->
    (forall x, x ∈ l' -> x ∈ l) -> forall arc, foldl (fun best arc => match best with
      | None => Some arc
      | Some b => if arc_span b <=? arc_span arc then Some arc else Some b end) best l' = Some arc ->
    arc ∈ l) as Hgen.
  { intros best l'. revert best. induction l' as [|x l' IH]; intros best Hb Hl a; cbn [foldl]; [auto|].
    apply IH; [|intros y Hy; apply Hl; by right]. intros b. destruct best as [b0|].
    - destruct (_ <=? _); intros [= <-]; [apply Hl; left|by apply Hb].
    - intros [= <-]. apply Hl. left. }
  apply Hgen; [done|auto].
Qed.

(** The new arc, when there is one, is a run of the candidates; a growing
    agent's overlaps what it had. *)
Lemma new_storage_arc_cases sharding common m target current s t :
  ArcSet.new [target] = Ok t ->
  ArcSet.new (as_arcs (without_sector_indices common m) ++ [current]) = Ok s ->
  exists r, new_storage_arc sharding (as_arcs (without_sector_indices common m)) target current = Ok r /\
    forall arc, r = Some arc -> arc ∈ as_arcs (intersection s t) /\
      (current = Empty \/ overlaps arc current = true \/ arc = FULL).
Proof.
  intros Et Es. unfold new_storage_arc. destruct (bool_decide_reflect (target = current)).
  { exists None. split; [done|]. intros arc [=]. }
  rewrite Et, Es. cbn. eexists. split; [reflexivity|]. intros arc. destruct sharding.
  - destruct (bool_decide_reflect (current = Empty)) as [He|He].
    + intros Hm. apply max_by_span_in in Hm. auto.
    + intros Hf. apply find_some in Hf as [Hin Hb]. apply andb_true_iff in Hb as [_ Ho].
      split; [by apply list_elem_of_In|auto].
  - destruct (existsb _ _) eqn:Ex; [|done]. intros [= <-].
    apply existsb_exists in Ex as (x & Hx & Hb). apply bool_decide_eq_true in Hb as ->.
    split; [by apply list_elem_of_In|auto].
Qed.

Lemma new_storage_arc_grown sharding common m a : arc_set_wf common ->
  aligned (tgt_storage_arc a) -> aligned (cur_storage_arc a) ->
  exists r, new_storage_arc sharding (as_arcs (without_sector_indices common m))
      (tgt_storage_arc a) (cur_storage_arc a) = Ok r /\
    forall arc, r = Some arc -> grown common m a arc.
Proof.
  intros Hw Ht Hc. destruct (candidates_spec common m _ _ Hw Ht Hc) as (t & s & Et & Es & Hwf & Hmem).
  destruct (new_storage_arc_cases sharding common m _ _ s t Et Es) as (r & Er & Hr).
  exists r. split; [done|]. intros arc Ha. destruct (Hr arc Ha) as [Hin Hcase].
  destruct (as_arcs_part _ arc Hwf Hin) as [Hal Hsub]. split; [done| | |].
  - intros x Hx. by apply Hsub, Hmem in Hx as [_ ?].
  - intros x Hx. apply Hsub, Hmem in Hx as [[?|?] _]; auto.
  - intros x Hst Hsubt Hx. destruct Hcase as [He|[Ho|Hfull]].
    + rewrite He in Hx. by apply elem_of_empty in Hx.
    + destruct (overlap_sector _ _ Hal Hc Ho) as (x0 & Hx0 & Hx0c).
      destruct (cur_storage_arc a) as [|p q] eqn:Ecur; [by apply elem_of_empty in Hx|].
      simpl in Hst. rewrite straight_sectors in Hx, Hx0c by done.
      apply (interval_closed (fun y => y ∈ sectors_of arc) _ _ x0 Hx0c Hx0); [|exact Hx].
      intros y z Hy Hz Hzr. apply (as_arcs_closed _ arc y z Hwf Hin Hy Hz).
      apply Hmem. rewrite <- straight_sectors in Hzr by done. split; [by right|by apply Hsubt].
    + rewrite Hfull, (proj2 FULL_aligned). by apply sectors_of_wf in Hx.
Qed.

(** ** The update of all local agents *)

(** An agent before and after an update. *)
Definition updated (common : ArcSet) (m : list Z) (ids : list AgentId) (a a' : LocalAgent) : Prop :=
  la_agent a' = la_agent a /\ tgt_storage_arc a' = tgt_storage_arc a /\
  (cur_storage_arc a' = cur_storage_arc a \/
   (la_agent a ∈ ids /\ grown common m a (cur_storage_arc a'))).

Definition agent_aligned (a : LocalAgent) : Prop :=
  aligned (tgt_storage_arc a) /\ aligned (cur_storage_arc a).

#[global] Instance aligned_dec arc : Decision (aligned arc).
Proof. destruct arc; simpl; unfold is_u32; apply _. Defined.
#[global] Instance agent_aligned_dec a : Decision (agent_aligned a).
Proof. unfold agent_aligned. apply _. Defined.

Lemma updated_ids common m ids ids' a a' : (forall x, x ∈ ids -> x ∈ ids') ->
  updated common m ids a a' -> updated common m ids' a a'.
Proof. intros Hs (? & ? & [?|[? ?]]); unfold updated; auto 6. Qed.

Lemma update_loop_sound sharding common m l : arc_set_wf common -> Forall agent_aligned l ->
  exists l' ids,
    update_loop sharding (as_arcs (without_sector_indices common m)) l = (Ok tt, (l', ids)) /\
    Forall2 (updated common m ids) l l'.
Proof.
  intros Hw Hl. induction Hl as [|a l [Ht Hc] Hl IH]; cbn [update_loop]; [by eexists _, []|].
  destruct IH as (l' & ids & E & Hf).
  destruct (new_storage_arc_grown sharding common m a Hw Ht Hc) as (r & Er & Hr). rewrite Er, E.
  destruct r as [arc|].
  - eexists _, _. split; [reflexivity|]. constructor.
    + split; [done|]. split; [done|]. right. split; [left|by apply Hr].
    + eapply Forall2_impl; [exact Hf|]. intros x y. apply updated_ids. intros z ?. by right.
  - eexists _, _. split; [reflexivity|]. constructor; [|exact Hf]. split; [done|]. split; [done|by left].
Qed.


(** ** Reaching the target *)

Lemma runs_interval a b c : 0 <= a <= b -> b <= c ->
  runs a b (zrange (b + 1) (c + 1)) = [run_arc a c].
Proof.
  intros Ha Hbc. remember (Z.to_nat (c - b)) as n eqn:En. revert b Ha Hbc En.
  induction n as [|n IH]; intros b Ha Hbc En; unfold zrange.
  - rewrite seqZ_nil by lia. simpl. by replace b with c by lia.
  - rewrite seqZ_cons by lia. cbn [runs]. rewrite Z.eqb_refl.
    replace (Z.succ (b + 1)) with (b + 1 + 1) by lia.
    replace (Z.pred (c + 1 - (b + 1))) with (c + 1 - (b + 1 + 1)) by lia.
    apply (IH (b + 1)); lia.
Qed.

Lemma zrange_sorted a c : StronglySorted Z.le (zrange a c).
Proof.
  remember (Z.to_nat (c - a)) as n eqn:En. revert a En.
  induction n as [|n IH]; intros a En; unfold zrange.
  - rewrite seqZ_nil by lia. constructor.
  - rewrite seqZ_cons by lia. constructor.
    + replace (Z.pred (c - a)) with (c - Z.succ a) by lia. apply IH. lia.
    + apply Forall_forall. intros x Hx. apply elem_of_seqZ in Hx. lia.
Qed.

(** A set that is the sectors of an arc turns into that arc. *)
Lemma as_arcs_straight s p e : arc_set_wf s -> aligned (Arc p e) -> p <= e ->
  (forall x, x ∈ inner s <-> x ∈ sectors_of (Arc p e)) -> as_arcs s = [Arc p e].
Proof.
  intros Hw Ha Hle Hs. pose proof Ha as (Hp & He & Mp & Me).
  assert (0 <= p / SECTOR_SIZE <= e / SECTOR_SIZE /\ e / SECTOR_SIZE < 512 /\
    p = p / SECTOR_SIZE * SECTOR_SIZE /\ e = (e / SECTOR_SIZE + 1) * SECTOR_SIZE - 1) as (Hb & Hb2 & Ep & Ee).
  { unfold is_u32 in *. rewrite SECTOR_SIZE_val in *. Z.to_euclidean_division_equations; lia. }
  set (a := p / SECTOR_SIZE) in *. set (b := e / SECTOR_SIZE) in *.
  assert (Permutation (elements (inner s)) (zrange a (b + 1))) as Hperm.
  { apply NoDup_Permutation; [apply NoDup_elements|apply NoDup_seqZ|].
    intros x. rewrite elem_of_elements, Hs, straight_sectors, elem_of_zrange by done. lia. }
  unfold as_arcs. case_bool_decide as Hempty.
  { exfalso. assert (a ∈ inner s) as Hin; [|rewrite Hempty in Hin; by apply elem_of_empty in Hin].
    apply Hs, straight_sectors; [done|done|]. fold a b. lia. }
  assert (length (elements (inner s)) = Z.to_nat (b + 1 - a)) as Hlen.
  { rewrite Hperm. unfold zrange. apply length_seqZ. }
  change (size (inner s)) with (length (elements (inner s))). rewrite Hlen.
  destruct (Nat.eqb_spec (Z.to_nat (b + 1 - a)) 512) as [Hfull|_].
  { unfold FULL, U32_MAX. rewrite Ep, Ee, SECTOR_SIZE_val. repeat f_equal; lia. }
  assert (merge_sort Z.le (elements (inner s)) = zrange a (b + 1)) as ->.
  { apply (StronglySorted_unique Z.le).
    - apply StronglySorted_merge_sort; apply _.
    - apply zrange_sorted.
    - by rewrite merge_sort_Permutation. }
  unfold zrange. rewrite seqZ_cons by lia. replace (Z.succ a) with (a + 1) by lia.
  replace (Z.pred (b + 1 - a)) with (b + 1 - (a + 1)) by lia.
  fold (zrange (a + 1) (b + 1)). rewrite runs_interval by lia. by rewrite run_arc_eq, <- Ep, <- Ee by lia.
Qed.

Lemma straight_span s e : is_u32 s -> is_u32 e -> s <= e -> arc_span (Arc s e) = e - s.
Proof.
  intros Hs He Hle. unfold arc_span. destruct (Z.ltb_spec e s); [lia|].
  apply wrap_u32_id. unfold is_u32 in *. lia.
Qed.

(** A straight arc within another one, not equal to it, is shorter and overlaps
    it. *)
Lemma straight_within p e s t : aligned (Arc p e) -> p <= e -> aligned (Arc s t) -> s <= t ->
  sectors_of (Arc s t) ⊆ sectors_of (Arc p e) -> Arc p e <> Arc s t ->
  (arc_span (Arc s t) <? arc_span (Arc p e)) && overlaps (Arc p e) (Arc s t) = true.
Proof.
  intros Ha Hle Hc Hle' Hsub Hne. pose proof Ha as (Hp & He & Mp & Me). pose proof Hc as (Hs & Ht & Ms & Mt).
  assert (forall x, s / SECTOR_SIZE <= x <= t / SECTOR_SIZE -> p / SECTOR_SIZE <= x <= e / SECTOR_SIZE) as Hin.
  { intros x Hx. rewrite <- straight_sectors by done. apply Hsub. by apply straight_sectors. }
  assert (s / SECTOR_SIZE <= t / SECTOR_SIZE) as Hst by (apply Z.div_le_mono; [rewrite SECTOR_SIZE_val|]; lia).
  pose proof (Hin (s / SECTOR_SIZE)). pose proof (Hin (t / SECTOR_SIZE)).
  assert (p <= s /\ t <= e) as [Hps Hte].
  { unfold is_u32 in *. rewrite SECTOR_SIZE_val in *. Z.to_euclidean_division_equations; lia. }
  apply andb_true_iff. split.
  - rewrite !straight_span by done. apply Z.ltb_lt. assert (p <> s \/ e <> t); [|lia].
    destruct (Z.eq_dec p s) as [->|]; [|tauto]. right. intros ->. done.
  - apply overlaps_shared; [done..|]. exists s. split; [done|].
    assert (forall arc, aligned arc -> s / SECTOR_SIZE ∈ sectors_of arc -> contains arc s = true) as Hcont
      by (intros arc Harc; by apply sector_in_arc).
    split; apply Hcont; try done; apply straight_sectors; try done; lia.
Qed.

(** Synced arcs reach their target. With sharding, once every sector of an
    agent's target arc is held already or in sync, one update gives the agent
    exactly its target arc and invokes its callback. *)
Theorem storage_arc_reaches_target snapshot common m a p e :
  arc_set_wf common -> mismatched_of snapshot = Some m ->
  tgt_storage_arc a = Arc p e -> aligned (Arc p e) -> p <= e ->
  aligned (cur_storage_arc a) -> straight (cur_storage_arc a) ->
  sectors_of (cur_storage_arc a) ⊆ sectors_of (Arc p e) -> cur_storage_arc a <> Arc p e ->
  (forall x, x ∈ sectors_of (Arc p e) -> synced common m x \/ x ∈ sectors_of (cur_storage_arc a)) ->
  update_storage_arcs true snapshot [a] common
  = (Ok tt, ([MkLocalAgent (la_agent a) (Arc p e) (Arc p e)], [la_agent a])).
Proof.
  intros Hw Hm Et Ht Hle Hc Hst Hsub Hne Hall. unfold update_storage_arcs. rewrite Hm.
  cbn [update_loop]. rewrite Et.
  destruct (candidates_spec common m _ _ Hw Ht Hc) as (t & s & E1 & E2 & Hwf & Hmem).
  unfold new_storage_arc. rewrite bool_decide_false by done. rewrite E1, E2. cbn [mbind res_bind].
  rewrite (as_arcs_straight _ p e Hwf Ht Hle).
  - destruct (cur_storage_arc a) as [|q r]; [reflexivity|].
    rewrite bool_decide_false by done. cbn [List.find]. by rewrite straight_within.
  - intros x. rewrite Hmem. split; [by intros [_ ?]|]. intros Hx. split; [by apply Hall|done].
Qed.

(** An agent whose arc wraps around is not so lucky: its runs are cut at zero,
    and the run that replaces its arc need not hold all of it. *)
Definition wrapping_agent : LocalAgent :=
  MkLocalAgent [1] (Arc (511 * SECTOR_SIZE) (1 * SECTOR_SIZE - 1))
    (Arc (511 * SECTOR_SIZE) (3 * SECTOR_SIZE - 1)).

Definition three_sectors : ArcSet := MkArcSet (list_to_set [0; 1; 2; 511]).

Definition in_sync : DhtSnapshot := Minimal [] 0 [].

(** Growing an arc that wraps around zero can give up sectors. A local
    agent holding sectors 511 and 0, with sectors 511 to 2 in its target and in
    sync, is left with sectors 0 to 2. *)
Theorem wrapping_arc_loses_sector :
  update_storage_arcs true in_sync [wrapping_agent] three_sectors
  = (Ok tt, ([MkLocalAgent [1] (Arc 0 (3 * SECTOR_SIZE - 1)) (tgt_storage_arc wrapping_agent)], [[1]])) /\
  contains (cur_storage_arc wrapping_agent) (511 * SECTOR_SIZE) = true /\
  contains (tgt_storage_arc wrapping_agent) (511 * SECTOR_SIZE) = true /\
  contains (Arc 0 (3 * SECTOR_SIZE - 1)) (511 * SECTOR_SIZE) = false.
Proof. vm_compute. auto. Qed.

(** ** Concrete inputs *)

Definition growing_agent : LocalAgent :=
  MkLocalAgent [1] (Arc 0 (1 * SECTOR_SIZE - 1)) (Arc 0 (4 * SECTOR_SIZE - 1)).
Definition four_sectors : ArcSet := MkArcSet (list_to_set [0; 1; 2; 3]).
Definition one_mismatch : DhtSnapshot := RingSectorDetails {[ 0 := {[ 2 := [9] ]} ]} 0.

Lemma four_sectors_wf : arc_set_wf four_sectors.
Proof. apply wf_subseteq. apply (bool_decide_eq_true_1 _). vm_compute. done. Qed.


Example one_mismatch_grows :
  update_storage_arcs true one_mismatch [growing_agent] four_sectors
  = (Ok tt, ([MkLocalAgent [1] (Arc 0 (2 * SECTOR_SIZE - 1)) (Arc 0 (4 * SECTOR_SIZE - 1))], [[1]])).
Proof. vm_compute. reflexivity. Qed.

Lemma storage_arc_reaches_target_witness :
  update_storage_arcs true in_sync [growing_agent] four_sectors
  = (Ok tt, ([MkLocalAgent [1] (Arc 0 (4 * SECTOR_SIZE - 1)) (Arc 0 (4 * SECTOR_SIZE - 1))], [[1]])).
Proof.
  apply (storage_arc_reaches_target in_sync four_sectors [] growing_agent 0 (4 * SECTOR_SIZE - 1)).
  - apply four_sectors_wf.
  - reflexivity.
  - reflexivity.
  - apply (bool_decide_eq_true_1 _). vm_compute. done.
  - vm_compute. discriminate.
  - apply (bool_decide_eq_true_1 _). vm_compute. done.
  - vm_compute. discriminate.
  - apply (bool_decide_eq_true_1 _). vm_compute. done.
  - discriminate.
  - intros x Hx. left. split; [|apply not_elem_of_nil].
    assert (sectors_of (Arc 0 (4 * SECTOR_SIZE - 1)) ⊆ inner four_sectors) as Hs
      by (apply (bool_decide_eq_true_1 _); vm_compute; done).
    by apply Hs.
Defined.
