(* ===== verification/RoundLocks.v ===== *)
(** The locks the gossip message handlers take
    (crates/gossip/src/respond/*.rs, initiate.rs, gossip.rs and timeout.rs).

    Each incoming message is handled in a task of its own.  The tasks share the
    mutex of the initiated round, the read-write lock of the map of accepted
    rounds, and a mutex per accepted round.  A handler is modelled by the
    sequence of its lock operations on a path through it; a task waits in an
    acquisition until the lock is free. *)

From S2P Require Import Prelude Arc Timestamp Id Agent.

Inductive LockOp : Type :=
  | LockInitiated | DropInitiated
  | ReadMap | DropRead
  | WriteMap | DropWrite
  | LockRound (round : Url) | DropRound (round : Url).

#[global] Instance LockOp_eq_dec : EqDecision LockOp.
Proof. solve_decision. Defined.

(** A task: the operations to come, and the guards it holds. *)
Record Task : Type := MkTask {
  todo : list LockOp;
  holds_initiated : bool;
  holds_read : bool;
  holds_write : bool;
  holds_rounds : list Url;
}.

Definition task_of (ops : list LockOp) : Task := MkTask ops false false false [].

#[global] Instance Task_eq_dec : EqDecision Task.
Proof. solve_decision. Defined.

(** ** The handlers *)

(** The state check of the acceptor's diff handlers: the map's read guard is
    held, by the scrutinee of the [match], until the round is locked. *)
Definition check_accepted (u : Url) : list LockOp := [ReadMap; LockRound u; DropRead].

(** The accepted round is removed while its guard is held. *)
Definition remove_locked (u : Url) : list LockOp := [WriteMap; DropWrite; DropRound u].

Definition disc_sectors_diff_final (u : Url) : list LockOp := check_accepted u ++ remove_locked u.
Definition disc_sectors_diff_next (u : Url) : list LockOp := check_accepted u ++ [DropRound u].
Definition details_diff_response (u : Url) : list LockOp := check_accepted u ++ remove_locked u.
Definition ring_details_diff_final (u : Url) : list LockOp := check_accepted u ++ remove_locked u.

Definition hashes_as_acceptor (u : Url) : list LockOp :=
  [LockInitiated; DropInitiated; ReadMap; DropRead; LockRound u] ++ remove_locked u.

Definition terminate_as_acceptor (u : Url) : list LockOp :=
  [LockInitiated; DropInitiated; ReadMap; LockRound u; DropRound u; DropRead; WriteMap; DropWrite].

Definition no_diff (u : Url) : list LockOp :=
  [ReadMap; DropRead; LockRound u; DropRound u; WriteMap; DropWrite].

(** Accepting an initiation: the round's mutex is new. *)
Definition initiate_accepted (u : Url) : list LockOp :=
  [LockInitiated; DropInitiated; ReadMap; DropRead; WriteMap; LockRound u; DropWrite; DropRound u].

(** The handlers of the initiator, and the accept handler. *)
Definition as_initiator : list LockOp := [LockInitiated; DropInitiated].

Definition initiate_gossip : list LockOp := [LockInitiated; ReadMap; DropRead; DropInitiated].

(** The timeout task, which only tries the locks of the rounds. *)
Definition remove_timed_out_rounds : list LockOp := [LockInitiated; DropInitiated; WriteMap; DropWrite].

(** ** Execution *)

Definition without (u : Url) (l : list Url) : list Url := filter (fun v => v <> u) l.

(** A task past its next operation. *)
Definition advance (t : Task) : option (LockOp * Task) :=
  match todo t with
  | [] => None
  | op :: rest => Some (op,
      match op with
      | LockInitiated => MkTask rest true (holds_read t) (holds_write t) (holds_rounds t)
      | DropInitiated => MkTask rest false (holds_read t) (holds_write t) (holds_rounds t)
      | ReadMap => MkTask rest (holds_initiated t) true (holds_write t) (holds_rounds t)
      | DropRead => MkTask rest (holds_initiated t) false (holds_write t) (holds_rounds t)
      | WriteMap => MkTask rest (holds_initiated t) (holds_read t) true (holds_rounds t)
      | DropWrite => MkTask rest (holds_initiated t) (holds_read t) false (holds_rounds t)
      | LockRound u => MkTask rest (holds_initiated t) (holds_read t) (holds_write t) (u :: holds_rounds t)
      | DropRound u =>
          MkTask rest (holds_initiated t) (holds_read t) (holds_write t) (without u (holds_rounds t))
      end)
  end.

(** The other task does not stand in the way of the operation.  With [queued],
    readers wait behind a waiting writer, as tokio's lock does. *)
Definition allows (queued : bool) (op : LockOp) (other : Task) : bool :=
  match op with
  | LockInitiated => negb (holds_initiated other)
  | ReadMap => negb (holds_write other)
      && negb (queued && bool_decide (head (todo other) = Some WriteMap))
  | WriteMap => negb (holds_read other) && negb (holds_write other)
  | LockRound u => negb (bool_decide (u ∈ holds_rounds other))
  | _ => true
  end.

Definition enabled (queued : bool) (ts : list Task) (i : nat) (op : LockOp) : Prop :=
  forall j t, ts !! j = Some t -> j <> i -> allows queued op t = true.

Inductive lock_step (queued : bool) : list Task -> list Task -> Prop :=
  | lock_step_at ts i t op t' :
      ts !! i = Some t -> advance t = Some (op, t') -> enabled queued ts i op ->
      lock_step queued ts (<[ i := t' ]> ts).

Definition finished (t : Task) : Prop := todo t = [].

(** ** The deadlock *)

(** The sector comparison of a round is about to remove the round, and a
    termination of the same round waits for its lock. *)
Definition remover (u : Url) : Task := MkTask (remove_locked u) false false false [u].
Definition terminator (u : Url) : Task :=
  MkTask [LockRound u; DropRound u; DropRead; WriteMap; DropWrite] false true false [].

Lemma blocked_step queued u rest ts' : lock_step queued (remover u :: terminator u :: rest) ts' ->
  exists rest', ts' = remover u :: terminator u :: rest'.
Proof.
  intros Hs. inversion Hs as [ts i t op t' Hi Ha He]; subst. destruct i as [|[|i]].
  - cbn in Hi. injection Hi as <-. cbn in Ha. injection Ha as <- <-.
    specialize (He 1%nat (terminator u) eq_refl ltac:(lia)). done.
  - cbn in Hi. injection Hi as <-. cbn in Ha. injection Ha as <- <-.
    specialize (He 0%nat (remover u) eq_refl ltac:(lia)). cbn in He.
    rewrite bool_decide_true in He by (left). done.
  - by eexists.
Qed.

Lemma blocked_steps queued u rest ts' :
  rtc (lock_step queued) (remover u :: terminator u :: rest) ts' ->
  exists rest', ts' = remover u :: terminator u :: rest'.
Proof.
  intros Hs. remember (remover u :: terminator u :: rest) as ts eqn:E. revert rest E.
  induction Hs as [ts|ts ts1 ts2 H1 H2 IH]; intros rest E; subst; [by eexists|].
  apply blocked_step in H1 as [rest' ->]. by eapply IH.
Qed.

(** The steps of the first task of a list. *)
Lemma step_first queued t t' op rest : advance t = Some (op, t') ->
  (forall x, x ∈ rest -> allows queued op x = true) ->
  lock_step queued (t :: rest) (t' :: rest).
Proof.
  intros Ha Hall. apply (lock_step_at queued (t :: rest) 0 t op t'); [done|done|].
  intros [|j] x Hx Hj; [done|]. apply Hall. by apply (list_elem_of_lookup_2 rest j).
Qed.

Lemma step_second queued t0 t t' op rest : advance t = Some (op, t') ->
  allows queued op t0 = true -> (forall x, x ∈ rest -> allows queued op x = true) ->
  lock_step queued (t0 :: t :: rest) (t0 :: t' :: rest).
Proof.
  intros Ha H0 Hall. apply (lock_step_at queued (t0 :: t :: rest) 1 t op t'); [done|done|].
  intros [|[|j]] x Hx Hj; [by injection Hx as <-|done|].
  apply Hall. by apply (list_elem_of_lookup_2 rest j).
Qed.

(** A task that has not started stands in nobody's way. *)
Definition idle (t : Task) : Prop :=
  holds_initiated t = false /\ holds_read t = false /\ holds_write t = false /\
  holds_rounds t = [] /\ head (todo t) <> Some WriteMap.

Lemma idle_allows queued op t : idle t -> allows queued op t = true.
Proof.
  intros (H1 & H2 & H3 & H4 & H5). destruct op; cbn; rewrite ?H1, ?H2, ?H3, ?H4; try done.
  - rewrite bool_decide_false by done. by rewrite andb_false_r.
Qed.

(** C18: the handlers of one round can block each other for good. When a peer's
    sector comparison and its termination of the same round are handled at the
    same time, with any other handlers not yet started, a state is reachable
    after which neither handler ever takes another step, whatever the other
    tasks do; and then no task ever gets the map of accepted rounds for
    writing, and, behind the waiting writer, none for reading. *)
Theorem accepted_rounds_freeze queued u rest : Forall idle rest ->
  exists ts, rtc (lock_step queued)
      (task_of (disc_sectors_diff_final u) :: task_of (terminate_as_acceptor u) :: rest) ts /\
    forall ts', rtc (lock_step queued) ts ts' ->
      (exists rest', ts' = remover u :: terminator u :: rest') /\
      (forall i t, ts' !! i = Some t -> todo t <> [] -> head (todo t) = Some WriteMap ->
         ~ enabled queued ts' i WriteMap) /\
      (forall i t, ts' !! i = Some t -> head (todo t) = Some ReadMap -> queued = true ->
         ~ enabled queued ts' i ReadMap).
Proof.
  intros Hidle. rewrite Forall_forall in Hidle. exists (remover u :: terminator u :: rest). split.
  - assert (forall op x, x ∈ rest -> allows queued op x = true) as Hrest
      by (intros op x Hx; by apply idle_allows, Hidle).
    unfold disc_sectors_diff_final, terminate_as_acceptor.
    do 2 (eapply rtc_l; [eapply step_second; [reflexivity|by destruct queued|by apply Hrest]|]).
    do 2 (eapply rtc_l; [eapply step_first; [reflexivity|];
      intros x [->|Hx]%elem_of_cons; [by destruct queued|by apply Hrest]|]).
    eapply rtc_l; [eapply step_second; [reflexivity|by destruct queued|by apply Hrest]|].
    eapply rtc_l; [eapply step_first; [reflexivity|];
      intros x [->|Hx]%elem_of_cons; [by destruct queued|by apply Hrest]|].
    apply rtc_refl.
  - intros ts' Hs. apply blocked_steps in Hs as [rest' ->]. split; [by eexists|]. split.
    + intros i t Hi _ Hh He. destruct (decide (i = 1%nat)) as [->|Hne].
      * cbn in Hi. injection Hi as <-. cbn in Hh. done.
      * by specialize (He 1%nat (terminator u) eq_refl ltac:(lia)).
    + intros i t Hi Hh -> He. destruct (decide (i = 0%nat)) as [->|Hne].
      * cbn in Hi. injection Hi as <-. cbn in Hh. done.
      * by specialize (He 0%nat (remover u) eq_refl ltac:(lia)).
Qed.

Lemma accepted_rounds_freeze_witness :
  let rest := [task_of (no_diff "ws://b"); task_of as_initiator; task_of initiate_gossip] in
  exists ts, rtc (lock_step true)
      (task_of (disc_sectors_diff_final "ws://a") :: task_of (terminate_as_acceptor "ws://a") :: rest) ts /\
    forall ts', rtc (lock_step true) ts ts' ->
      (exists rest', ts' = remover "ws://a" :: terminator "ws://a" :: rest') /\
      (forall i t, ts' !! i = Some t -> todo t <> [] -> head (todo t) = Some WriteMap ->
         ~ enabled true ts' i WriteMap) /\
      (forall i t, ts' !! i = Some t -> head (todo t) = Some ReadMap -> true = true ->
         ~ enabled true ts' i ReadMap).
Proof. apply (accepted_rounds_freeze true "ws://a"). by repeat constructor. Defined.

(** ** Handlers that keep the lock order *)

(** The operations never acquire a lock while a later one is held, in the order
    of the initiated round, the map and the rounds, and they release all. *)
Fixpoint ordered (i r w : bool) (m : list Url) (ops : list LockOp) : bool :=
  match ops with
  | [] => negb i && negb r && negb w && bool_decide (m = [])
  | LockInitiated :: ops => negb (i || r || w) && bool_decide (m = []) && ordered true r w m ops
  | DropInitiated :: ops => i && ordered false r w m ops
  | ReadMap :: ops => negb (r || w) && bool_decide (m = []) && ordered i true w m ops
  | DropRead :: ops => r && ordered i false w m ops
  | WriteMap :: ops => negb (r || w) && bool_decide (m = []) && ordered i r true m ops
  | DropWrite :: ops => w && ordered i r false m ops
  | LockRound u :: ops => bool_decide (m = []) && ordered i r w [u] ops
  | DropRound u :: ops => bool_decide (u ∈ m) && ordered i r w (without u m) ops
  end.

Definition in_order (t : Task) : Prop :=
  ordered (holds_initiated t) (holds_read t) (holds_write t) (holds_rounds t) (todo t) = true.

Lemma in_order_advance t op t' : in_order t -> advance t = Some (op, t') -> in_order t'.
Proof.
  unfold in_order, advance. destruct t as [[|o ops] i r w m]; [done|]. cbn.
  intros Ho [= <- <-]. destruct o; cbn;
    repeat match goal with
    | H : _ && _ = true |- _ => apply andb_true_iff in H as [? H]
    | H : bool_decide _ = true |- _ => apply bool_decide_eq_true in H
    end; subst; done.
Qed.

Lemma in_order_step queued ts ts' : Forall in_order ts -> lock_step queued ts ts' -> Forall in_order ts'.
Proof.
  intros Ho Hs. destruct Hs as [ts i t op t' Hi Ha _]. apply Forall_insert; [done|].
  eapply in_order_advance; [|exact Ha]. by eapply Forall_lookup_1.
Qed.

(** What a task in order can be about to do, by what it holds. *)
Lemma in_order_next t : in_order t -> todo t <> [] ->
  exists op t', advance t = Some (op, t') /\
    (holds_rounds t <> [] ->
       op <> LockInitiated /\ op <> ReadMap /\ op <> WriteMap /\ forall u, op <> LockRound u) /\
    (holds_read t || holds_write t = true -> op <> LockInitiated /\ op <> ReadMap /\ op <> WriteMap) /\
    (holds_initiated t = true -> op <> LockInitiated).
Proof.
  unfold in_order, advance. destruct t as [[|o ops] i r w m]; [done|]. cbn. intros Ho _.
  eexists _, _. split; [reflexivity|]. destruct o; cbn in *;
    repeat match goal with
    | H : _ && _ = true |- _ => apply andb_true_iff in H as [? H]
    | H : bool_decide _ = true |- _ => apply bool_decide_eq_true in H
    | H : negb _ = true |- _ => apply negb_true_iff in H
    end; destruct i, r, w; cbn in *; subst; try done; repeat split; done.
Qed.

Lemma finished_dec_list (ts : list Task) : Forall finished ts \/ exists (i : nat) t, ts !! i = Some t /\ todo t <> [].
Proof.
  induction ts as [|t ts IH]; [by left|]. destruct (todo t) as [|o ops] eqn:Et.
  - destruct IH as [Hf|(i & t' & Hi & Ht)]; [left; by constructor|right]. by exists (S i), t'.
  - right. exists 0%nat, t. split; [done|]. by rewrite Et.
Qed.

(** Whether some task of the list satisfies a boolean test. *)
Lemma some_task (f : Task -> bool) (ts : list Task) :
  (exists (i : nat) t, ts !! i = Some t /\ f t = true) \/ forall t, t ∈ ts -> f t = false.
Proof.
  destruct (existsb f ts) eqn:E.
  - left. apply existsb_exists in E as (t & Ht & Hf). apply list_elem_of_In in Ht.
    apply list_elem_of_lookup_1 in Ht as [i Hi]. by exists i, t.
  - right. intros t Ht. destruct (f t) eqn:Ef; [|done]. rewrite <- E.
    symmetry. apply existsb_exists. exists t. split; [by apply list_elem_of_In|done].
Qed.

Definition holds_some (t : Task) : bool :=
  holds_initiated t || holds_read t || holds_write t || negb (bool_decide (holds_rounds t = [])).

Lemma holder_unfinished t : in_order t -> holds_some t = true -> todo t <> [].
Proof.
  unfold in_order, holds_some. intros Ho Hh Ht. rewrite Ht in Ho. cbn in Ho.
  destruct (holds_initiated t), (holds_read t), (holds_write t); try done.
  cbn in *. by rewrite Ho in Hh.
Qed.

(** Some task can always go on: one that holds the last lock in the order. *)
Section progress.
Variables (queued : bool) (ts : list Task).
Hypothesis Ho : Forall in_order ts.

Lemma task_in_order i t : ts !! i = Some t -> in_order t.
Proof using Ho. by apply Forall_lookup_1. Qed.

Lemma enabled_steps i t : ts !! i = Some t -> todo t <> [] ->
  (forall op t', advance t = Some (op, t') -> enabled queued ts i op) -> exists ts', lock_step queued ts ts'.
Proof using Ho.
  intros Hi Ht He. destruct (in_order_next t (task_in_order i t Hi) Ht) as (op & t' & Ea & _).
  eexists. by apply (lock_step_at queued ts i t op t'); [..|apply (He op t')].
Qed.

(** A task that holds a round can go on. *)
Lemma round_holder_steps i t : ts !! i = Some t -> holds_rounds t <> [] -> exists ts', lock_step queued ts ts'.
Proof using Ho.
  intros Hi Hm. assert (todo t <> []) as Ht.
  { apply holder_unfinished; [by eapply task_in_order|]. unfold holds_some.
    rewrite (bool_decide_eq_false_2 _ Hm). by rewrite orb_true_r. }
  apply (enabled_steps i t Hi Ht). intros op t' Ea j tj Hj Hne.
  destruct (in_order_next t (task_in_order i t Hi) Ht) as (op' & t2 & Ea' & Hround & _).
  rewrite Ea in Ea'. injection Ea' as <- <-.
  destruct (Hround Hm) as (H1 & H2 & H3 & H4). destruct op; try done. by destruct (H4 round).
Qed.

(** When none holds a round, a task that holds the map can. *)
Hypothesis Hm : forall j tj, ts !! j = Some tj -> holds_rounds tj = [].

Lemma map_holder_steps i t : ts !! i = Some t -> holds_read t || holds_write t = true ->
  exists ts', lock_step queued ts ts'.
Proof using Ho Hm.
  intros Hi Hrw. assert (todo t <> []) as Ht.
  { apply holder_unfinished; [by eapply task_in_order|]. unfold holds_some.
    by destruct (holds_initiated t), (holds_read t), (holds_write t). }
  apply (enabled_steps i t Hi Ht). intros op t' Ea j tj Hj Hne.
  destruct (in_order_next t (task_in_order i t Hi) Ht) as (op' & t2 & Ea' & _ & Hmap & _).
  rewrite Ea in Ea'. injection Ea' as <- <-. destruct (Hmap Hrw) as (H1 & H2 & H3).
  destruct op; try done. cbn. rewrite (Hm j tj Hj). by rewrite bool_decide_false by apply not_elem_of_nil.
Qed.

(** When none holds the map either, one that waits to write it can. *)
Hypothesis Hrw : forall j tj, ts !! j = Some tj -> holds_read tj = false /\ holds_write tj = false.

Lemma map_free op j tj : ts !! j = Some tj -> op <> LockInitiated -> op <> ReadMap -> allows queued op tj = true.
Proof using Hm Hrw.
  intros Hj H1 H2. destruct (Hrw j tj Hj) as [Er Ew]. destruct op; try done; cbn.
  - by rewrite Er, Ew.
  - rewrite (Hm j tj Hj). by rewrite bool_decide_false by apply not_elem_of_nil.
Qed.

Lemma writer_steps i t : ts !! i = Some t -> head (todo t) = Some WriteMap -> exists ts', lock_step queued ts ts'.
Proof using Ho Hm Hrw.
  intros Hi Hw. apply (enabled_steps i t Hi); [by intros E; rewrite E in Hw|].
  intros op t' Ea j tj Hj Hne. apply (map_free op j tj Hj); unfold advance in Ea;
    destruct (todo t) as [|o ops]; try done; cbn in Hw; congruence.
Qed.

(** When none waits to write it, one that holds our round can, and any one
    when none does. *)
Hypothesis Hread : forall j tj, ts !! j = Some tj -> allows queued ReadMap tj = true.

Lemma initiated_holder_steps i t : ts !! i = Some t -> holds_initiated t = true -> exists ts', lock_step queued ts ts'.
Proof using Ho Hm Hrw Hread.
  intros Hi Hini. assert (todo t <> []) as Ht
    by (apply holder_unfinished; [by eapply task_in_order|]; unfold holds_some; by rewrite Hini).
  apply (enabled_steps i t Hi Ht). intros op t' Ea j tj Hj Hne.
  destruct (in_order_next t (task_in_order i t Hi) Ht) as (op' & t2 & Ea' & _ & _ & Hno).
  rewrite Ea in Ea'. injection Ea' as <- <-.
  destruct (decide (op = ReadMap)) as [->|Hnr]; [by apply (Hread j)|]. apply (map_free op j tj Hj); [by apply Hno|done].
Qed.

Lemma any_steps i t : (forall j tj, ts !! j = Some tj -> holds_initiated tj = false) -> ts !! i = Some t ->
  todo t <> [] -> exists ts', lock_step queued ts ts'.
Proof using Ho Hm Hrw Hread.
  intros Hnoi Hi Ht. apply (enabled_steps i t Hi Ht). intros op t' Ea j tj Hj Hne.
  destruct (decide (op = ReadMap)) as [->|Hnr]; [by apply (Hread j)|].
  destruct (decide (op = LockInitiated)) as [->|Hni]; [|by apply (map_free op j)].
  cbn. by rewrite (Hnoi j tj Hj).
Qed.
End progress.

Lemma in_order_progress queued ts : Forall in_order ts -> Forall finished ts \/
  exists ts', lock_step queued ts ts'.
Proof.
  intros Ho. destruct (finished_dec_list ts) as [Hf|(i0 & t0 & Hi0 & Ht0)]; [by left|right].
  destruct (some_task (fun t => negb (bool_decide (holds_rounds t = []))) ts) as [(i & t & Hi & Hm)|Hnom].
  { apply negb_true_iff, bool_decide_eq_false in Hm. by eapply round_holder_steps. }
  assert (forall j tj, ts !! j = Some tj -> holds_rounds tj = []) as Hm.
  { intros j tj Hj%list_elem_of_lookup_2%Hnom. by apply negb_false_iff, bool_decide_eq_true in Hj. }
  destruct (some_task (fun t => holds_read t || holds_write t) ts) as [(i & t & Hi & Hrw)|Hnorw];
    [by eapply map_holder_steps|].
  assert (forall j tj, ts !! j = Some tj -> holds_read tj = false /\ holds_write tj = false) as Hrw.
  { intros j tj Hj%list_elem_of_lookup_2%Hnorw. by apply orb_false_iff in Hj. }
  destruct (some_task (fun t => bool_decide (head (todo t) = Some WriteMap)) ts) as [(i & t & Hi & Hw)|Hnow].
  { apply bool_decide_eq_true in Hw. by eapply writer_steps. }
  assert (forall j tj, ts !! j = Some tj -> allows queued ReadMap tj = true) as Hread.
  { intros j tj Hj. cbn. rewrite (proj2 (Hrw j tj Hj)). apply list_elem_of_lookup_2 in Hj.
    rewrite (Hnow tj Hj). by rewrite andb_false_r. }
  destruct (some_task holds_initiated ts) as [(i & t & Hi & Hini)|Hnoi]; [by eapply initiated_holder_steps|].
  eapply any_steps; try done. intros j tj Hj%list_elem_of_lookup_2. by apply Hnoi.
Qed.

(** The operations still to come. *)
Definition work (ts : list Task) : nat := sum_list (map (fun t => length (todo t)) ts).

Lemma work_insert ts i t t' : ts !! i = Some t -> length (todo t) = S (length (todo t')) ->
  work ts = S (work (<[ i := t' ]> ts)).
Proof.
  unfold work. revert i. induction ts as [|x ts IH]; intros [|i] Hi Hl; try done.
  - injection Hi as ->. simpl. lia.
  - specialize (IH i Hi Hl). simpl in *. lia.
Qed.

Lemma step_work queued ts ts' : lock_step queued ts ts' -> work ts = S (work ts').
Proof.
  intros Hs. destruct Hs as [ts i t op t' Hi Ha _]. apply (work_insert ts i t t' Hi).
  unfold advance in Ha. destruct (todo t) as [|o ops]; [done|]. injection Ha as <- <-. by destruct o.
Qed.

Lemma in_order_finish queued ts : Forall in_order ts ->
  exists ts', rtc (lock_step queued) ts ts' /\ Forall finished ts'.
Proof.
  remember (work ts) as n eqn:En. revert ts En. induction n as [|n IH]; intros ts En Ho.
  - destruct (in_order_progress queued ts Ho) as [Hf|[ts' Hs]]; [by exists ts|].
    apply step_work in Hs. lia.
  - destruct (in_order_progress queued ts Ho) as [Hf|[ts' Hs]]; [by exists ts|].
    pose proof (step_work _ _ _ Hs). destruct (IH ts') as (ts2 & H2 & Hf); [lia|by eapply in_order_step|].
    exists ts2. split; [by eapply rtc_l|done].
Qed.

(** The handlers whose operations are in order. *)
Inductive ordered_handler : list LockOp -> Prop :=
  | oh_initiator : ordered_handler as_initiator
  | oh_initiate_gossip : ordered_handler initiate_gossip
  | oh_timeouts : ordered_handler remove_timed_out_rounds
  | oh_initiate u : ordered_handler (initiate_accepted u)
  | oh_no_diff u : ordered_handler (no_diff u)
  | oh_terminate u : ordered_handler (terminate_as_acceptor u)
  | oh_next u : ordered_handler (disc_sectors_diff_next u).

Lemma ordered_handler_in_order ops : ordered_handler ops -> in_order (task_of ops).
Proof.
  assert (forall u : Url, bool_decide (u ∈ [u]) = true) as Hin
    by (intros u; apply bool_decide_eq_true; left).
  assert (forall u : Url, without u [u] = []) as Hno.
  { intros u. unfold without. rewrite filter_cons.
    destruct (decide (u <> u)) as [Hne|]; [by destruct Hne|done]. }
  destruct 1; try reflexivity; unfold in_order;
    cbn -[without bool_decide]; rewrite ?Hin; cbn -[without]; by rewrite ?Hno.
Qed.

(** C19: without the handlers that remove a round while holding it, nothing
    blocks. However many initiations, terminations, final messages without a
    difference, answered sector comparisons and timeouts are handled at once, in
    any interleaving: from every state they reach, all of them can still
    finish, and no execution has more steps than they have operations. *)
Theorem ordered_handlers_finish queued hs ts : Forall ordered_handler hs ->
  rtc (lock_step queued) (map task_of hs) ts ->
  (exists ts', rtc (lock_step queued) ts ts' /\ Forall finished ts') /\
  (Forall finished ts \/ exists ts', lock_step queued ts ts') /\
  (forall n ts', nsteps (lock_step queued) n ts ts' -> (n <= work (map task_of hs))%nat).
Proof.
  intros Hh Hs.
  assert (Forall in_order (map task_of hs)) as Ho.
  { apply Forall_map. eapply Forall_impl; [exact Hh|]. apply ordered_handler_in_order. }
  assert (Forall in_order ts /\ (work ts <= work (map task_of hs))%nat) as [Hts Hw].
  { induction Hs as [x|x y z H1 _ IH]; [done|].
    destruct IH as [? ?]; [by eapply in_order_step|]. apply step_work in H1. split; [done|lia]. }
  split; [by apply in_order_finish|]. split; [by apply in_order_progress|].
  intros n ts' Hn. assert (forall x, nsteps (lock_step queued) n x ts' -> (n <= work x)%nat) as Hgen.
  { clear. induction n as [|n IH]; intros x Hn; [lia|]. inversion Hn as [|? ? y ? H1 H2]; subst.
    apply step_work in H1. apply IH in H2. lia. }
  apply Hgen in Hn. lia.
Qed.

Lemma ordered_handlers_finish_witness :
  let hs := [terminate_as_acceptor "ws://a"; no_diff "ws://a"; initiate_accepted "ws://b";
             disc_sectors_diff_next "ws://a"; remove_timed_out_rounds; initiate_gossip] in
  (exists ts', rtc (lock_step true) (map task_of hs) ts' /\ Forall finished ts') /\
  (Forall finished (map task_of hs) \/ exists ts', lock_step true (map task_of hs) ts') /\
  (forall n ts', nsteps (lock_step true) n (map task_of hs) ts' -> (n <= work (map task_of hs))%nat).
Proof.
  intros hs. apply (ordered_handlers_finish true hs); [|apply rtc_refl].
  repeat (constructor; [constructor|]). constructor.
Defined.
