(* ===== verification/GossipProtocol.v ===== *)
(** The messages of the gossip protocol (crates/gossip/proto/gen/kitsune2.gossip.rs
    and crates/gossip/src/protocol.rs) and the conversion of snapshots. *)

From S2P Require Import Prelude Arc Timestamp Id Agent Snapshot.

(** ** Messages *)

Record SnapshotMinimalMessage : Type := MkSnapshotMinimal {
  sm_disc_boundary : Z;
  sm_disc_top_hash : bytes;
  sm_ring_top_hashes : list bytes;
}.

Record SnapshotDiscSectorsMessage : Type := MkSnapshotDiscSectors {
  sds_disc_boundary : Z;
  sds_disc_sectors : list Z;
  sds_disc_sector_hashes : list bytes;
}.

Record DiscSliceHashes : Type := MkDiscSliceHashes {
  dsh_slice_indices : list Z;
  dsh_hashes : list bytes;
}.

Record SnapshotDiscSectorDetailsMessage : Type := MkSnapshotDiscSectorDetails {
  sdd_disc_boundary : Z;
  sdd_sector_indices : list Z;
  sdd_disc_slice_hashes : list DiscSliceHashes;
}.

Record RingSectorHashes : Type := MkRingSectorHashes {
  rsh_sector_indices : list Z;
  rsh_hashes : list bytes;
}.

Record SnapshotRingSectorDetailsMessage : Type := MkSnapshotRingSectorDetails {
  srd_disc_boundary : Z;
  srd_ring_indices : list Z;
  srd_ring_sector_hashes : list RingSectorHashes;
}.

Record AcceptResponseMessage : Type := MkAcceptResponse {
  ar_missing_agents : list bytes;
  ar_provided_agents : list bytes;
  ar_new_ops : list bytes;
  ar_updated_new_since : Z;
}.

Record K2GossipInitiateMessage : Type := MkInitiate {
  in_session_id : bytes;
  in_participating_agents : list bytes;
  in_arc_set : option (list Z);
  in_tie_breaker : Z;
  in_new_since : Z;
  in_max_op_data_bytes : Z;
  in_dht_op_count : option Z;
}.

Record K2GossipAcceptMessage : Type := MkAccept {
  ac_session_id : bytes;
  ac_participating_agents : list bytes;
  ac_arc_set : option (list Z);
  ac_missing_agents : list bytes;
  ac_new_since : Z;
  ac_max_op_data_bytes : Z;
  ac_new_ops : list bytes;
  ac_updated_new_since : Z;
  ac_dht_op_count : option Z;
  ac_snapshot : option SnapshotMinimalMessage;
}.

Record K2GossipNoDiffMessage : Type := MkNoDiff {
  nd_session_id : bytes;
  nd_accept_response : option AcceptResponseMessage;
  nd_cannot_compare : bool;
}.

Record K2GossipDiscSectorsDiffMessage : Type := MkDiscSectorsDiff {
  ds_session_id : bytes;
  ds_accept_response : option AcceptResponseMessage;
  ds_snapshot : option SnapshotDiscSectorsMessage;
}.

Record K2GossipDiscSectorDetailsDiffMessage : Type := MkDiscSectorDetailsDiff {
  dd_session_id : bytes;
  dd_provided_agents : list bytes;
  dd_snapshot : option SnapshotDiscSectorDetailsMessage;
}.

Record K2GossipDiscSectorDetailsDiffResponseMessage : Type := MkDiscSectorDetailsDiffResponse {
  dr_session_id : bytes;
  dr_missing_ids : list bytes;
  dr_snapshot : option SnapshotDiscSectorDetailsMessage;
}.

Record K2GossipRingSectorDetailsDiffMessage : Type := MkRingSectorDetailsDiff {
  rd_session_id : bytes;
  rd_accept_response : option AcceptResponseMessage;
  rd_snapshot : option SnapshotRingSectorDetailsMessage;
}.

Record K2GossipRingSectorDetailsDiffResponseMessage : Type := MkRingSectorDetailsDiffResponse {
  rr_session_id : bytes;
  rr_missing_ids : list bytes;
  rr_snapshot : option SnapshotRingSectorDetailsMessage;
}.

Record K2GossipHashesMessage : Type := MkHashes {
  ha_session_id : bytes;
  ha_missing_ids : list bytes;
}.

Record K2GossipAgentsMessage : Type := MkAgents {
  ag_session_id : bytes;
  ag_provided_agents : list bytes;
}.

Record K2GossipBusyMessage : Type := MkBusy { bu_session_id : bytes }.

Record K2GossipTerminateMessage : Type := MkTerminate {
  te_session_id : bytes;
  te_reason : string;
}.

Inductive GossipMessage : Type :=
  | Initiate (m : K2GossipInitiateMessage)
  | Accept (m : K2GossipAcceptMessage)
  | NoDiff (m : K2GossipNoDiffMessage)
  | DiscSectorsDiff (m : K2GossipDiscSectorsDiffMessage)
  | DiscSectorDetailsDiff (m : K2GossipDiscSectorDetailsDiffMessage)
  | DiscSectorDetailsDiffResponse (m : K2GossipDiscSectorDetailsDiffResponseMessage)
  | RingSectorDetailsDiff (m : K2GossipRingSectorDetailsDiffMessage)
  | RingSectorDetailsDiffResponse (m : K2GossipRingSectorDetailsDiffResponseMessage)
  | Hashes (m : K2GossipHashesMessage)
  | Agents (m : K2GossipAgentsMessage)
  | Busy (m : K2GossipBusyMessage)
  | Terminate (m : K2GossipTerminateMessage).

(** ** Snapshots as messages

    The keys and the values of a map are listed in the same order. *)

Definition map_keys {A} (m : gmap Z A) : list Z := (map_to_list m).*1.
Definition map_values {A} (m : gmap Z A) : list A := (map_to_list m).*2.

(** Collecting pairs into a map: a later pair replaces an earlier one. *)
Definition collect_map {A} (l : list (Z * A)) : gmap Z A :=
  foldl (fun m kv => <[ kv.1 := kv.2 ]> m) ∅ l.

Definition minimal_to_message (value : DhtSnapshot) : res SnapshotMinimalMessage :=
  match value with
  | Minimal disc_top_hash disc_boundary ring_top_hashes =>
      Ok (MkSnapshotMinimal (as_micros disc_boundary) disc_top_hash ring_top_hashes)
  | _ => Err "Only DhtSnapshot::Minimal can be converted to a SnapshotMinimalMessage"
  end.

Definition minimal_from_message (value : SnapshotMinimalMessage) : DhtSnapshot :=
  Minimal (sm_disc_top_hash value) (from_micros (sm_disc_boundary value)) (sm_ring_top_hashes value).

Definition disc_sectors_to_message (value : DhtSnapshot) : res SnapshotDiscSectorsMessage :=
  match value with
  | DiscSectors hashes disc_boundary =>
      Ok (MkSnapshotDiscSectors (as_micros disc_boundary) (map_keys hashes) (map_values hashes))
  | _ => Err "Only DhtSnapshot::DiscSectors can be converted to a SnapshotDiscSectorsMessage"
  end.

Definition disc_sectors_from_message (value : SnapshotDiscSectorsMessage) : res DhtSnapshot :=
  if negb (length (sds_disc_sectors value) =? length (sds_disc_sector_hashes value))%nat
  then Err "Mismatched disc sector and hash lengths"
  else Ok (DiscSectors (collect_map (zip (sds_disc_sectors value) (sds_disc_sector_hashes value)))
             (from_micros (sds_disc_boundary value))).

(** The inner maps of the two kinds of details: rows of indices and hashes. *)
Definition zip_row (mismatch : string) (row : list Z * list bytes) : res (gmap Z bytes) :=
  if negb (length row.1 =? length row.2)%nat then Err mismatch
  else Ok (collect_map (zip row.1 row.2)).

(** Collecting fallible pairs stops at the first error. *)
Fixpoint collect_rows (mismatch : string) (rows : list (Z * (list Z * list bytes)))
  (acc : gmap Z (gmap Z bytes)) : res (gmap Z (gmap Z bytes)) :=
  match rows with
  | [] => Ok acc
  | (k, row) :: rows =>
      let? m := zip_row mismatch row in
      collect_rows mismatch rows (<[ k := m ]> acc)
  end.

Definition disc_details_to_message (value : DhtSnapshot) : res SnapshotDiscSectorDetailsMessage :=
  match value with
  | DiscSectorDetails hashes disc_boundary =>
      Ok (MkSnapshotDiscSectorDetails (as_micros disc_boundary) (map_keys hashes)
            (map (fun m => MkDiscSliceHashes (map_keys m) (map_values m)) (map_values hashes)))
  | _ => Err "Only DhtSnapshot::DiscSectorDetails can be converted to a SnapshotDiscSectorDetailsMessage"
  end.

Definition disc_details_from_message (value : SnapshotDiscSectorDetailsMessage) : res DhtSnapshot :=
  if negb (length (sdd_sector_indices value) =? length (sdd_disc_slice_hashes value))%nat
  then Err "Mismatched sector and hash lengths"
  else
    let? hashes := collect_rows "Mismatched slice and hash lengths"
      (zip (sdd_sector_indices value)
        (map (fun r => (dsh_slice_indices r, dsh_hashes r)) (sdd_disc_slice_hashes value))) ∅ in
    Ok (DiscSectorDetails hashes (from_micros (sdd_disc_boundary value))).

Definition ring_details_to_message (value : DhtSnapshot) : res SnapshotRingSectorDetailsMessage :=
  match value with
  | RingSectorDetails hashes disc_boundary =>
      Ok (MkSnapshotRingSectorDetails (as_micros disc_boundary) (map_keys hashes)
            (map (fun m => MkRingSectorHashes (map_keys m) (map_values m)) (map_values hashes)))
  | _ => Err "Only DhtSnapshot::RingSectorDetails can be converted to a SnapshotRingSectorDetailsMessage"
  end.

Definition ring_details_from_message (value : SnapshotRingSectorDetailsMessage) : res DhtSnapshot :=
  if negb (length (srd_ring_indices value) =? length (srd_ring_sector_hashes value))%nat
  then Err "Mismatched ring sector and hash lengths"
  else
    let? hashes := collect_rows "Mismatched sector and hash lengths"
      (zip (srd_ring_indices value)
        (map (fun r => (rsh_sector_indices r, rsh_hashes r)) (srd_ring_sector_hashes value))) ∅ in
    Ok (RingSectorDetails hashes (from_micros (srd_disc_boundary value))).

(** ** Lemmas *)

Lemma collect_map_lookup {A} (l : list (Z * A)) (m0 : gmap Z A) : NoDup l.*1 -> (forall k v, (k, v) ∈ l -> m0 !! k = None) ->
  forall k, foldl (fun m kv => <[ kv.1 := kv.2 ]> m) m0 l !! k
    = match (list_to_map l : gmap Z A) !! k with Some v => Some v | None => m0 !! k end.
Proof.
  revert m0. induction l as [|[k0 v0] l IH]; intros m0 Hnd Hm k; cbn [foldl list_to_map foldr].
  - unfold list_to_map. simpl. by rewrite lookup_empty.
  - rewrite fmap_cons in Hnd. apply NoDup_cons in Hnd as [Hk0 Hnd]. cbn [fst snd] in *.
    assert (forall v, ((k0, v) ∉ l)) as Hnot
      by (intros v Hin; apply Hk0; apply list_elem_of_fmap; by exists (k0, v)).
    rewrite IH; [|done|].
    + change (list_to_map ((k0, v0) :: l)) with (<[ k0 := v0 ]> (list_to_map l : gmap Z A)).
      destruct (decide (k = k0)) as [->|Hne].
      * rewrite !lookup_insert_eq. by rewrite (not_elem_of_list_to_map_1 l k0) by done.
      * by rewrite !lookup_insert_ne by done.
    + intros k1 v1 Hin. rewrite lookup_insert_ne.
      * apply (Hm k1 v1). by right.
      * intros <-. by apply (Hnot v1).
Qed.

Lemma zip_keys_values {A} (m : gmap Z A) : zip (map_keys m) (map_values m) = map_to_list m.
Proof. unfold map_keys, map_values. apply zip_fst_snd. Qed.

Lemma keys_values_length {A} (m : gmap Z A) : length (map_keys m) = length (map_values m).
Proof. unfold map_keys, map_values. by rewrite !length_fmap. Qed.

Lemma collect_map_to_list {A} (m : gmap Z A) : collect_map (map_to_list m) = m.
Proof.
  apply map_eq. intros k. unfold collect_map. rewrite collect_map_lookup.
  - rewrite list_to_map_to_list. destruct (m !! k); [done|]. apply lookup_empty.
  - apply NoDup_fst_map_to_list.
  - intros k0 v _. apply lookup_empty.
Qed.

Lemma zip_row_of_map e m : zip_row e (map_keys m, map_values m) = Ok m.
Proof.
  unfold zip_row. cbn [fst snd]. rewrite keys_values_length, Nat.eqb_refl. cbn [negb].
  by rewrite zip_keys_values, collect_map_to_list.
Qed.

Lemma collect_rows_of_maps e (l : list (Z * gmap Z bytes)) acc :
  collect_rows e (zip l.*1 (map (fun m => (map_keys m, map_values m)) l.*2)) acc
  = Ok (foldl (fun m kv => <[ kv.1 := kv.2 ]> m) acc l).
Proof.
  revert acc. induction l as [|[k m] l IH]; intros acc; [done|].
  cbn [fmap list_fmap map zip zip_with collect_rows fst snd]. rewrite zip_row_of_map. cbn [mbind res_bind].
  apply IH.
Qed.

Lemma collect_rows_map e (m : gmap Z (gmap Z bytes)) :
  collect_rows e (zip (map_keys m) (map (fun m => (map_keys m, map_values m)) (map_values m))) ∅ = Ok m.
Proof.
  unfold map_keys at 1, map_values at 2. rewrite collect_rows_of_maps. f_equal.
  apply collect_map_to_list.
Qed.

(** A snapshot sent is the snapshot received. Each kind of snapshot
    converts to its message and to no other, and the message converts back to
    the snapshot. *)
Theorem snapshot_message_roundtrip s :
  match s with
  | Minimal _ _ _ => exists m, minimal_to_message s = Ok m /\ minimal_from_message m = s
  | DiscSectors _ _ => exists m, disc_sectors_to_message s = Ok m /\ disc_sectors_from_message m = Ok s
  | DiscSectorDetails _ _ =>
      exists m, disc_details_to_message s = Ok m /\ disc_details_from_message m = Ok s
  | RingSectorDetails _ _ =>
      exists m, ring_details_to_message s = Ok m /\ ring_details_from_message m = Ok s
  end.
Proof.
  destruct s as [h b r|m b|m b|m b]; (eexists; split; [reflexivity|]).
  - done.
  - unfold disc_sectors_from_message. cbn -[collect_map collect_rows map_keys map_values zip]. rewrite keys_values_length, Nat.eqb_refl. cbn -[collect_map collect_rows map_keys map_values zip].
    by rewrite zip_keys_values, collect_map_to_list.
  - unfold disc_details_from_message. cbn -[collect_map collect_rows map_keys map_values zip]. rewrite keys_values_length, length_map, Nat.eqb_refl. cbn -[collect_map collect_rows map_keys map_values zip].
    rewrite map_map. cbn -[collect_rows map_keys map_values zip]. by rewrite collect_rows_map.
  - unfold ring_details_from_message. cbn -[collect_map collect_rows map_keys map_values zip]. rewrite keys_values_length, length_map, Nat.eqb_refl. cbn -[collect_map collect_rows map_keys map_values zip].
    rewrite map_map. cbn -[collect_rows map_keys map_values zip]. by rewrite collect_rows_map.
Qed.
