(* ===== verification/Coverage.v ===== *)
(** Redundancy counts per sector (crates/gossip/src/sharding/coverage.rs) and
    the counting helpers of the controller (controller.rs). *)

From S2P Require Import Prelude Arc Timestamp Id ArcSet Agent Blocks.

(** One count per sector. *)
Abbreviation Cov := (list Z) (only parsing).

Definition covers_sector (arc : DhtArc) (sector : Z) : bool :=
  let start := wrap_u32 (wrap_u32 sector * SECTOR_SIZE) in
  let end_ := wrap_u32 (start + (SECTOR_SIZE - 1)) in
  contains arc start && contains arc end_.

Definition add_arc (cov : Cov) (arc : DhtArc) : Cov :=
  match arc with
  | Empty => cov
  | Arc _ _ =>
      imap (fun sector c => if covers_sector arc (Z.of_nat sector) then wrap_u32 (c + 1) else c) cov
  end.

(** [add_cur_arc] of the controller repeats [add_arc]. *)
Definition add_cur_arc (cov : Cov) (arc : DhtArc) : Cov :=
  if bool_decide (arc = Empty) then cov
  else imap (fun sector c => if covers_sector arc (Z.of_nat sector) then wrap_u32 (c + 1) else c) cov.

Definition others_coverage (peers : list AgentInfoSigned) (exclude : gset AgentId) : Cov :=
  foldl (fun cov (peer : AgentInfoSigned) =>
      if ai_is_tombstone peer || bool_decide (ai_agent peer ∈ exclude) then cov
      else add_arc cov (ai_storage_arc peer))
    (replicate (Z.to_nat NUM_SECTORS) 0) peers.

(** The elements at the positions [start, end), counted from [i]. *)
Definition map_sectors (f : Z -> Z) (cov : Cov) (start end_ : Z) : Cov :=
  imap (fun i c =>
    if (start <=? Z.of_nat i) && (Z.of_nat i <? start + wrap_u32 (end_ - start)) then f c else c) cov.

Definition subtract_sectors (cov : Cov) (start end_ : Z) : Cov :=
  map_sectors (fun c => saturating_sub c 1) cov start end_.

Definition add_sectors (cov : Cov) (start end_ : Z) : Cov :=
  map_sectors (fun c => wrap_u32 (c + 1)) cov start end_.

(** The slice is a panic when it is reversed or passes the end. *)
Definition min_over (cov : Cov) (start end_ : Z) : res Z :=
  if end_ <? start then Panic "slice index starts after it ends"
  else if Z.of_nat (length cov) <? end_ then Panic "range end index out of range"
  else
    match take (Z.to_nat (end_ - start)) (drop (Z.to_nat start) cov) with
    | [] => Ok 0
    | c :: l => Ok (foldl Z.min c l)
    end.

(** ** Lemmas *)

Definition cov_ok (cov : Cov) : Prop := length cov = 512%nat.

Lemma foldl_min_spec c l m : foldl Z.min c l = m ->
  m ∈ c :: l /\ Forall (fun x => m <= x) (c :: l).
Proof.
  revert c. induction l as [|x l IH]; intros c; simpl.
  - intros <-. split; [left|by repeat constructor].
  - intros E. destruct (IH (Z.min c x) E) as [Hin Hall]. apply Forall_cons in Hall as [Hm Hall].
    split; [|repeat constructor; [lia..|done]].
    apply elem_of_cons in Hin as [->|Hin]; [|by do 2 right].
    destruct (Z.min_spec c x) as [[_ ->]|[_ ->]]; [left|right; left].
Qed.

Lemma elem_of_segment {A} (l : list A) (a n : nat) x :
  x ∈ take n (drop a l) <-> exists i, l !! i = Some x /\ (a <= i < a + n)%nat.
Proof.
  rewrite list_elem_of_lookup. split.
  - intros [j Hj]. apply lookup_take_Some in Hj as [Hj Hlt]. rewrite lookup_drop in Hj.
    exists (a + j)%nat. split; [done|lia].
  - intros (i & Hi & Hb). exists (i - a)%nat. rewrite lookup_take_lt by lia.
    rewrite lookup_drop. by replace (a + (i - a))%nat with i by lia.
Qed.

(** The minimum over a non-empty range of sectors. *)
Lemma min_over_spec cov start end_ : cov_ok cov -> 0 <= start < end_ -> end_ <= 512 ->
  exists m, min_over cov start end_ = Ok m /\
    (forall s c, start <= s < end_ -> cov !! Z.to_nat s = Some c -> m <= c) /\
    (exists s, start <= s < end_ /\ cov !! Z.to_nat s = Some m).
Proof.
  intros Hl Hs He. unfold cov_ok in Hl. unfold min_over.
  destruct (Z.ltb_spec end_ start); [lia|]. rewrite Hl.
  destruct (Z.ltb_spec (Z.of_nat 512) end_); [lia|].
  pose proof (elem_of_segment cov (Z.to_nat start) (Z.to_nat (end_ - start))) as Hseg.
  assert (length (take (Z.to_nat (end_ - start)) (drop (Z.to_nat start) cov)) <> 0%nat) as Hne
    by (rewrite length_take, length_drop; lia).
  destruct (take _ _) as [|c l]; [done|].
  exists (foldl Z.min c l). split; [done|].
  destruct (foldl_min_spec c l _ eq_refl) as [Hin Hall]. split.
  - intros s x Hsr Hx. eapply Forall_forall in Hall; [exact Hall|]. apply Hseg.
    exists (Z.to_nat s). split; [done|lia].
  - apply Hseg in Hin as (i & Hi & Hb). exists (Z.of_nat i). rewrite Nat2Z.id. split; [lia|done].
Qed.

Lemma min_over_ge cov start end_ r : cov_ok cov -> 0 <= start < end_ -> end_ <= 512 ->
  exists m, min_over cov start end_ = Ok m /\
    (r <= m <-> forall s c, start <= s < end_ -> cov !! Z.to_nat s = Some c -> r <= c).
Proof.
  intros Hl Hs He. destruct (min_over_spec cov start end_ Hl Hs He) as (m & E & Hle & s0 & Hs0 & Hm).
  exists m. split; [done|]. split.
  - intros Hr s c Hsr Hc. specialize (Hle s c Hsr Hc). lia.
  - intros Hall. by apply (Hall s0).
Qed.

Lemma map_sectors_lookup f cov start end_ s : 0 <= s -> start <= end_ -> is_u32 (end_ - start) ->
  map_sectors f cov start end_ !! Z.to_nat s =
    (fun c => if decide (start <= s < end_) then f c else c)
    <$> (cov !! Z.to_nat s).
Proof.
  intros Hs Hse Hb. unfold map_sectors. rewrite list_lookup_imap, Z2Nat.id by done.
  rewrite wrap_u32_id by done.
  destruct (cov !! Z.to_nat s) as [c|]; simpl; [|done]. f_equal.
  destruct (Z.leb_spec start s), (Z.ltb_spec s (start + (end_ - start))), (decide _); simpl; lia || done.
Qed.

Lemma map_sectors_length f cov start end_ : length (map_sectors f cov start end_) = length cov.
Proof. apply length_imap. Qed.

Lemma subtract_ok cov start end_ : cov_ok cov -> cov_ok (subtract_sectors cov start end_).
Proof. unfold cov_ok, subtract_sectors. by rewrite map_sectors_length. Qed.

Lemma add_sectors_ok cov start end_ : cov_ok cov -> cov_ok (add_sectors cov start end_).
Proof. unfold cov_ok, add_sectors. by rewrite map_sectors_length. Qed.

Lemma add_arc_ok cov arc : cov_ok cov -> cov_ok (add_arc cov arc).
Proof. unfold cov_ok. destruct arc; simpl; [done|]. by rewrite length_imap. Qed.

Lemma add_cur_arc_eq cov arc : add_cur_arc cov arc = add_arc cov arc.
Proof. unfold add_cur_arc. destruct arc; by case_bool_decide. Qed.

(** The peer is counted for the sector. *)
Definition counted (exclude : gset AgentId) (s : Z) (peer : AgentInfoSigned) : Prop :=
  ai_is_tombstone peer = false /\ (ai_agent peer ∉ exclude) /\
  covers_sector (ai_storage_arc peer) s = true.

#[global] Instance counted_dec exclude s peer : Decision (counted exclude s peer).
Proof. unfold counted. apply _. Defined.

Lemma add_arc_lookup cov arc s : add_arc cov arc !! s =
  (fun c => if covers_sector arc (Z.of_nat s) then wrap_u32 (c + 1) else c) <$> cov !! s.
Proof.
  destruct arc as [|a b]; simpl; [|by rewrite list_lookup_imap]. by destruct (cov !! s).
Qed.

Definition coverage_step (exclude : gset AgentId) (cov : Cov) (peer : AgentInfoSigned) : Cov :=
  if ai_is_tombstone peer || bool_decide (ai_agent peer ∈ exclude) then cov
  else add_arc cov (ai_storage_arc peer).

Lemma coverage_step_lookup exclude cov peer (s : nat) :
  coverage_step exclude cov peer !! s =
    (fun c => if decide (counted exclude (Z.of_nat s) peer) then wrap_u32 (c + 1) else c)
    <$> cov !! s.
Proof.
  unfold coverage_step. destruct (ai_is_tombstone peer || bool_decide (ai_agent peer ∈ exclude)) eqn:Eb.
  - destruct (cov !! s) as [c|]; [|done]. cbn [fmap option_fmap option_map].
    destruct (decide _) as [Hc|_]; [|done]. destruct Hc as (Ht & Hx & _).
    by rewrite Ht, bool_decide_false in Eb by done.
  - apply orb_false_iff in Eb as [Ht Hx]. apply bool_decide_eq_false in Hx.
    rewrite add_arc_lookup. destruct (cov !! s) as [c|]; [|done].
    cbn [fmap option_fmap option_map]. f_equal. destruct (decide _) as [Hc|Hc].
    + destruct Hc as (_ & _ & ->). done.
    + destruct (covers_sector _ _) eqn:Ec; [|done]. by destruct Hc.
Qed.

Lemma others_coverage_fold exclude peers cov (s : nat) c :
  cov !! s = Some c -> 0 <= c -> c + Z.of_nat (length peers) < 2 ^ 32 ->
  foldl (coverage_step exclude) cov peers !! s =
    Some (c + Z.of_nat (length (filter (counted exclude (Z.of_nat s)) peers))).
Proof.
  revert cov c. induction peers as [|peer peers IH]; intros cov c Hc Hc0 Hb; cbn [foldl].
  - rewrite Hc. f_equal. simpl. lia.
  - cbn [length] in Hb. rewrite filter_cons.
    assert (coverage_step exclude cov peer !! s =
      Some (c + (if decide (counted exclude (Z.of_nat s) peer) then 1 else 0))) as Hs.
    { rewrite coverage_step_lookup, Hc. simpl. case_decide; f_equal; [|lia].
      apply wrap_u32_id. unfold is_u32. lia. }
    erewrite IH; [|exact Hs|case_decide; lia|case_decide; lia].
    case_decide; cbn [length]; f_equal; lia.
Qed.

Lemma foldl_coverage_ok exclude peers cov :
  cov_ok cov -> cov_ok (foldl (coverage_step exclude) cov peers).
Proof.
  revert cov. induction peers as [|peer peers IH]; intros cov Hc; cbn [foldl]; [done|].
  apply IH. unfold coverage_step. destruct (_ || _); [done|]. by apply add_arc_ok.
Qed.

Lemma others_coverage_ok peers exclude : cov_ok (others_coverage peers exclude).
Proof. unfold others_coverage. by apply (foldl_coverage_ok exclude). Qed.

(** The count of a sector is the number of peers that declare it, without
    tombstones and excluded agents. *)
Theorem others_coverage_counts peers exclude s :
  Z.of_nat (length peers) < 2 ^ 32 -> 0 <= s < 512 ->
  others_coverage peers exclude !! Z.to_nat s
  = Some (Z.of_nat (length (filter (counted exclude s) peers))).
Proof.
  intros Hl Hs. unfold others_coverage. change (foldl _ ?x peers) with (foldl (coverage_step exclude) x peers).
  rewrite (others_coverage_fold exclude peers _ (Z.to_nat s) 0); [by rewrite Z2Nat.id by lia| |done|lia].
  apply lookup_replicate. split; [done|]. rewrite NUM_SECTORS_val. lia.
Qed.

(** A peer declaring the arc, for the concrete inputs below. *)
Definition peer_with (id : bytes) (url : option Url) (arc : DhtArc) : AgentInfoSigned :=
  MkAgentInfoSigned (MkAgentInfo id [] 0 (2 ^ 60) false url arc) "" [].

Lemma others_coverage_counts_witness :
  others_coverage [peer_with [1] None (block_arc 3 2); peer_with [2] None FULL] {[ [2] ]}
    !! Z.to_nat 3
  = Some (Z.of_nat (length (filter (counted {[ [2] ]} 3)
      [peer_with [1] None (block_arc 3 2); peer_with [2] None FULL]))).
Proof. apply others_coverage_counts; simpl; lia. Defined.

(** For a sector-aligned arc the two bounds decide the whole sector: the
    sector is counted exactly when every one of its locations is in the arc. *)
Theorem covers_sector_exact arc s : aligned arc -> 0 <= s < 512 ->
  covers_sector arc s = true <->
  forall loc, is_u32 loc -> home_sector loc = s -> contains arc loc = true.
Proof.
  intros Ha Hs. unfold covers_sector. rewrite SECTOR_SIZE_val.
  rewrite (wrap_u32_id s) by (unfold is_u32; lia).
  rewrite (wrap_u32_id (s * _)) by (unfold is_u32; lia).
  rewrite wrap_u32_id by (unfold is_u32; lia). rewrite andb_true_iff. split.
  - intros [Hlo _] loc Hl Hh. apply sector_in_arc; [done|done|]. unfold home_sector in Hh.
    rewrite Hh. apply sector_in_arc in Hlo; [|done|unfold is_u32; lia].
    by rewrite SECTOR_SIZE_val, Z.div_mul in Hlo.
  - intros Hall. split; apply Hall; unfold is_u32, home_sector; rewrite ?SECTOR_SIZE_val; try lia.
    + by apply Z.div_mul.
    + rewrite Z.div_add_l by lia. by rewrite (Z.div_small (8388608 - 1)), Z.add_0_r by lia.
Qed.

Lemma covers_sector_exact_witness :
  covers_sector (sectors_to_arc 4 8) 5 = true <->
  forall loc, is_u32 loc -> home_sector loc = 5 -> contains (sectors_to_arc 4 8) loc = true.
Proof.
  apply (covers_sector_exact (sectors_to_arc 4 8) 5); [|lia].
  apply (bool_decide_eq_true_1 _). vm_compute. done.
Defined.
