(* ===== verification/Intents.v ===== *)
(** Announced shrink intents (crates/gossip/src/sharding/intents.rs), and how a
    received announcement is filed (controller.rs, [receive_intent]). *)

From S2P Require Import Prelude Arc Timestamp Id ArcSet Agent Blocks Coverage.

Record ShrinkIntent : Type := MkShrinkIntent {
  vacate : range;
  expires_at : Timestamp;
  from : option Url;
}.

#[global] Instance ShrinkIntent_eq_dec : EqDecision ShrinkIntent.
Proof. solve_decision. Defined.

Module IntentTable.

Record t : Type := mk { inner : gmap (AgentId * option Url) ShrinkIntent }.

Definition default : t := mk ∅.

Definition insert (self : t) (agent : AgentId) (intent : ShrinkIntent) : t :=
  mk (<[ (agent, from intent) := intent ]> (inner self)).

Definition remove (self : t) (agent : AgentId) : t :=
  mk (delete (agent, None) (inner self)).

Definition withdraw (self : t) (agent : AgentId) (from : option Url) (expires : Timestamp)
  : bool * t :=
  match inner self !! (agent, from) with
  | Some i => if expires_at i =? expires then (true, mk (delete (agent, from) (inner self)))
              else (false, self)
  | None => (false, self)
  end.

Definition live (self : t) (now : Timestamp) : list (AgentId * ShrinkIntent) * t :=
  let inner' := filter (fun kv => now < expires_at kv.2) (inner self) in
  (map (fun kv => (kv.1.1, kv.2)) (map_to_list inner'), mk inner').

End IntentTable.

(** What the peer store declares of an agent: its arc and URL. *)
Abbreviation Declared := (gmap AgentId (DhtArc * option Url)) (only parsing).

Definition arc_contains_sectors (arc : DhtArc) (r : range) : bool :=
  let '(start, end_) := r in
  if (end_ <=? start) || (NUM_SECTORS <? end_) then false
  else forallb (fun sector =>
    let lo := wrap_u32 (sector * SECTOR_SIZE) in
    contains arc lo && contains arc (wrap_u32 (lo + (SECTOR_SIZE - 1)))) (zrange start end_).

(** [u32::is_power_of_two]. *)
Definition is_power_of_two (x : Z) : bool := (0 <? x) && (Z.land x (x - 1) =? 0).

Definition is_sibling_of (arc : DhtArc) (r : range) : bool :=
  let '(start, end_) := r in
  match arc with
  | Empty => false
  | Arc a b =>
      if (b <? a) || (end_ <=? start) || (NUM_SECTORS <? end_) then false
      else
        let s := a / SECTOR_SIZE in
        let e := wrap_u32 (b / SECTOR_SIZE + 1) in
        let len := wrap_u32 (e - s) in
        if negb (wrap_u32 (end_ - start) =? len) || negb (is_power_of_two len) then false
        else
          let parent := wrap_u32 (len * 2) in
          let lo := Z.min s start in
          ((start =? e) || (end_ =? s)) && (lo mod parent =? 0)
  end.

(** The filter of both kinds of intents, with the check of the range. *)
Definition retain_checked (check : DhtArc -> range -> bool)
  (live : list (AgentId * ShrinkIntent)) (declared : Declared) (own_ids : gset AgentId)
  : list (AgentId * ShrinkIntent) :=
  List.filter (fun ai =>
    let '(agent, intent) := ai in
    if bool_decide (agent ∈ own_ids) then bool_decide (from intent = None)
    else match declared !! agent with
         | Some (arc, url) =>
             negb (bool_decide (url = None)) && bool_decide (url = from intent)
             && check arc (vacate intent)
         | None => false
         end) live.

Definition retain_declared := retain_checked arc_contains_sectors.
Definition retain_growers := retain_checked is_sibling_of.

(** The announcement as it arrives. *)
Record K2ShardingShrinkIntentMessage : Type := MkShrinkIntentMessage {
  msg_agent_id : bytes;
  msg_vacate_start : Z;
  msg_vacate_end : Z;
  msg_expires_at_us : Z;
  msg_withdrawn : bool;
  msg_grow : bool;
}.

(** The effect of an announcement on the table it belongs to. *)
Definition file_intent (now : Timestamp) (table : IntentTable.t) (peer : Url)
  (intent : K2ShardingShrinkIntentMessage) : IntentTable.t :=
  let expires := from_micros (msg_expires_at_us intent) in
  if msg_withdrawn intent then
    (IntentTable.withdraw table (msg_agent_id intent) (Some peer) expires).2
  else if expires <=? now then table
  else if msg_vacate_end intent <? msg_vacate_start intent then table
  else
    let vacated := (msg_vacate_start intent / SECTOR_SIZE,
                    wrap_u32 (msg_vacate_end intent / SECTOR_SIZE + 1)) in
    if NUM_SECTORS / 2 <? wrap_u32 (vacated.2 - vacated.1) then table
    else IntentTable.insert table (msg_agent_id intent)
           (MkShrinkIntent vacated expires (Some peer)).

(** The shrink table and the grow table after an announcement. *)
Definition receive_intent (now : Timestamp) (intents grow_intents : IntentTable.t) (peer : Url)
  (intent : K2ShardingShrinkIntentMessage) : IntentTable.t * IntentTable.t :=
  if msg_grow intent then (intents, file_intent now grow_intents peer intent)
  else (file_intent now intents peer intent, grow_intents).

(** ** Lemmas *)

Lemma arc_contains_sectors_spec arc start end_ : 0 <= start ->
  arc_contains_sectors arc (start, end_) = true <->
  start < end_ /\ end_ <= 512 /\ forall s, start <= s < end_ -> covers_sector arc s = true.
Proof.
  intros Hs. unfold arc_contains_sectors. rewrite NUM_SECTORS_val.
  destruct (Z.leb_spec end_ start); simpl; [split; [done|lia]|].
  destruct (Z.ltb_spec 512 end_); simpl; [split; [done|lia]|].
  rewrite forallb_forall. unfold covers_sector. split.
  - intros Hall. split_and!; [done..|]. intros s Hr. rewrite (wrap_u32_id s) by (unfold is_u32; lia).
    apply Hall, list_elem_of_In, elem_of_zrange. lia.
  - intros (_ & _ & Hall) s Hin. apply list_elem_of_In, elem_of_zrange in Hin.
    specialize (Hall s Hin). by rewrite (wrap_u32_id s) in Hall by (unfold is_u32; lia).
Qed.

Lemma elem_of_retain check live declared own_ids agent intent :
  (agent, intent) ∈ retain_checked check live declared own_ids <->
  (agent, intent) ∈ live /\
  ((agent ∈ own_ids /\ from intent = None) \/
   (agent ∉ own_ids) /\ exists arc url, declared !! agent = Some (arc, Some url) /\
     from intent = Some url /\ check arc (vacate intent) = true).
Proof.
  unfold retain_checked. rewrite list_elem_of_In, filter_In, <- list_elem_of_In.
  case_bool_decide as Ho.
  - rewrite bool_decide_eq_true. naive_solver.
  - destruct (declared !! agent) as [[arc [url|]]|] eqn:Ed; simpl.
    + rewrite andb_true_iff, bool_decide_eq_true. split.
      * intros (Hin & Hf & Hc). split; [done|]. right. split; [done|]. by exists arc, url.
      * intros (Hin & [[? _]|(_ & arc' & url' & [= <- <-] & Hf & Hc)]); done.
    + naive_solver.
    + naive_solver.
Qed.

Lemma elem_of_live table now agent intent :
  (agent, intent) ∈ (IntentTable.live table now).1 <->
  exists f, IntentTable.inner table !! (agent, f) = Some intent /\ now < expires_at intent.
Proof.
  unfold IntentTable.live. cbn [fst]. rewrite list_elem_of_fmap. split.
  - intros ([[a f] i] & [= -> ->] & Hin). apply elem_of_map_to_list, map_lookup_filter_Some in Hin.
    by exists f.
  - intros (f & Hi & Hlt). exists ((agent, f), intent). split; [done|].
    by apply elem_of_map_to_list, map_lookup_filter_Some.
Qed.

Lemma is_power_of_two_spec x : is_power_of_two x = true -> x = 2 ^ Z.log2 x.
Proof.
  unfold is_power_of_two. rewrite andb_true_iff, Z.ltb_lt, Z.eqb_eq. intros [Hpos Hl].
  destruct (Z.log2_spec x Hpos) as [Hlo Hhi]. set (n := Z.log2 x) in *.
  destruct (decide (x = 2 ^ n)) as [|Hne]; [done|exfalso].
  assert (Z.log2 (x - 1) = n) as Hn.
  { apply Z.log2_unique; [apply Z.log2_nonneg|]. lia. }
  assert (Z.testbit (Z.land x (x - 1)) n = true) as Hb.
  { rewrite Z.land_spec. unfold n at 1. rewrite Z.bit_log2 by done.
    rewrite <- Hn, Z.bit_log2; [done|]. pose proof (Z.pow_pos_nonneg 2 n ltac:(lia) (Z.log2_nonneg x)). lia. }
  by rewrite Hl, Z.bits_0 in Hb.
Qed.

Lemma is_power_of_two_pow n : 0 <= n -> is_power_of_two (2 ^ n) = true.
Proof.
  intros Hn. unfold is_power_of_two. rewrite andb_true_iff, Z.ltb_lt, Z.eqb_eq.
  split; [by apply Z.pow_pos_nonneg|]. rewrite Z.sub_1_r, <- Z.ones_equiv, Z.land_ones by done.
  apply Z_mod_same_full.
Qed.

(** The bounds of an aligned arc that does not wrap, in sectors. *)
Lemma aligned_sectors a b : aligned (Arc a b) -> a <= b ->
  let s := a / SECTOR_SIZE in let e := b / SECTOR_SIZE + 1 in
  0 <= s < e /\ e <= 512 /\ a = s * SECTOR_SIZE /\ b = e * SECTOR_SIZE - 1.
Proof.
  unfold aligned, is_u32. rewrite SECTOR_SIZE_val. intros (Ha & Hb & Ma & Mb) Hab. cbv zeta.
  apply Z.div_exact in Ma; [|done]. rewrite Z.add_mod in Mb by done.
  pose proof (Z.div_mod b 8388608 ltac:(done)) as Db. pose proof (Z.mod_pos_bound b 8388608 ltac:(done)).
  assert (b mod 8388608 = 8388607) as Hmb.
  { rewrite <- Z.add_mod in Mb by done. apply Z.mod_divide in Mb as [q Hq]; [|done]. lia. }
  lia.
Qed.

Lemma sectors_to_arc_aligned s e : 0 <= s < e -> e <= 512 -> (s <> 0 \/ e <> 512) ->
  sectors_to_arc s e = Arc (s * SECTOR_SIZE) (e * SECTOR_SIZE - 1).
Proof.
  intros Hs He Hne. unfold sectors_to_arc. rewrite NUM_SECTORS_val, SECTOR_SIZE_val.
  destruct (Z.eqb_spec s 0), (Z.eqb_spec e 512); simpl; try lia.
  all: rewrite (wrap_u32_id (e - 1)), (wrap_u32_id (s * _)), (wrap_u32_id ((e - 1) * _)), wrap_u32_id
    by (unfold is_u32; lia); f_equal; lia.
Qed.

(** A range that adjoins [s, s + len) within the aligned block twice as large
    is the sibling of the block at [s]. *)
Lemma sibling_of_block s level : 0 <= level < 9 -> home_ok s ->
  block_start s level = s ->
  sibling_half s level = if block_start s (level + 1) =? s
    then (s + 2 ^ level, s + 2 ^ (level + 1)) else (block_start s (level + 1), s).
Proof.
  intros Hl Hs Hb. pose proof (sibling_half_eq s level Hs Hl) as E. cbv zeta in E.
  by rewrite Hb in E.
Qed.

Lemma block_start_multiple s level m : 0 <= level -> (2 ^ level | m) ->
  m <= s < m + 2 ^ level -> block_start s level = m.
Proof.
  intros Hl [q Hq] Hs. unfold block_start.
  assert (0 < 2 ^ level) by (apply Z.pow_pos_nonneg; lia).
  replace (s / 2 ^ level) with q; [lia|].
  apply Z.div_unique with (s - m); lia.
Qed.

Lemma is_sibling_blocks home level : home_ok home -> 0 <= level < 9 ->
  is_sibling_of (block_arc home level) (sibling_half home level) = true.
Proof.
  intros Hh Hl. unfold block_arc. rewrite block_eq by (done || unfold level_ok; lia).
  destruct (block_start_bounds home level) as (Hb0 & Hb1 & Hb2); [unfold level_ok; lia|done|].
  destruct (sibling_size home level Hh Hl) as (Hs0 & Hs1 & Hs2).
  destruct (level_pow level) as [Hp _]; [unfold level_ok; lia|].
  assert (2 ^ level <= 256) as Hp' by (change 256 with (2 ^ 8); apply Z.pow_le_mono_r; lia).
  rewrite sectors_to_arc_aligned by lia. pose proof SECTOR_SIZE_val as Hss.
  set (c := block_start home level) in *. unfold is_sibling_of.
  pose proof (sibling_half_eq home level Hh Hl) as Esib. cbv zeta in Esib. fold c in Esib.
  destruct (sibling_half home level) as [start end_]. cbn [fst snd] in *.
  replace (((c + 2 ^ level) * SECTOR_SIZE - 1) / SECTOR_SIZE) with (c + 2 ^ level - 1)
    by (rewrite Hss; apply Z.div_unique with 8388607; lia).
  rewrite Z.div_mul, NUM_SECTORS_val by lia.
  replace (c + 2 ^ level - 1 + 1) with (c + 2 ^ level) by lia.
  rewrite (wrap_u32_id (c + 2 ^ level)), Hs2 by (unfold is_u32; lia).
  replace (c + 2 ^ level - c) with (2 ^ level) by lia.
  rewrite (wrap_u32_id (2 ^ level)), (wrap_u32_id (2 ^ level * 2)) by (unfold is_u32; lia).
  rewrite is_power_of_two_pow, Z.eqb_refl by lia.
  destruct (Z.ltb_spec ((c + 2 ^ level) * SECTOR_SIZE - 1) (c * SECTOR_SIZE)); [nia|].
  destruct (Z.leb_spec end_ start); [lia|]. destruct (Z.ltb_spec 512 end_); [lia|]. simpl.
  assert (Z.min c start = block_start home (level + 1) /\ (start = c + 2 ^ level \/ end_ = c)) as [-> Hadj].
  { pose proof (block_start_parent home level) as [Hpar|Hpar]; [lia|..]; fold c in Hpar;
      rewrite Hpar in *;
      [rewrite Z.eqb_refl in Esib|destruct (Z.eqb_spec (c - 2 ^ level) c) in Esib; [lia|]];
      injection Esib as -> ->; lia. }
  rewrite andb_true_iff, orb_true_iff, !Z.eqb_eq. split; [tauto|].
  unfold block_start. rewrite Z.pow_add_r by lia. apply Z_mod_mult.
Qed.

(** The only range a grow announcement can name for an agent is the one its
    controller would take: for a sector-aligned arc the check accepts exactly
    the sibling half of the block the arc is. *)
Theorem is_sibling_of_exact arc r : aligned arc -> is_u32 r.1 -> is_u32 r.2 ->
  is_sibling_of arc r = true <->
  exists home level, home_ok home /\ 0 <= level < 9 /\
    arc = block_arc home level /\ r = sibling_half home level.
Proof.
  intros Ha Hr1 Hr2. split; [|by intros (home & level & Hh & Hl & -> & ->); apply is_sibling_blocks].
  destruct r as [start end_]. unfold is_u32 in Hr1, Hr2. cbn [fst snd] in Hr1, Hr2.
  unfold is_sibling_of. destruct arc as [|a b]; [done|]. rewrite NUM_SECTORS_val.
  destruct (Z.ltb_spec b a); simpl; [done|]. destruct (Z.leb_spec end_ start); simpl; [done|].
  destruct (Z.ltb_spec 512 end_); simpl; [done|].
  destruct (aligned_sectors a b Ha) as (Hs & He & Ea & Eb); [lia|].
  set (s := a / SECTOR_SIZE) in *. set (e := b / SECTOR_SIZE + 1) in *.
  rewrite (wrap_u32_id e), (wrap_u32_id (e - s)), (wrap_u32_id (end_ - start)),
    (wrap_u32_id ((e - s) * 2)) by (unfold is_u32; lia).
  destruct (Z.eqb_spec (end_ - start) (e - s)) as [El|]; simpl; [|done].
  destruct (is_power_of_two (e - s)) eqn:Hpow; simpl; [|done].
  apply is_power_of_two_spec in Hpow. set (level := Z.log2 (e - s)) in *.
  pose proof (Z.log2_nonneg (e - s)) as Hl0. fold level in Hl0. rewrite Hpow.
  rewrite andb_true_iff, orb_true_iff, !Z.eqb_eq. intros [Hadj Hmod].
  assert (0 < 2 ^ level) as Hpos by lia.
  assert (level < 9) as Hl9.
  { apply (Z.pow_lt_mono_r_iff 2); [lia..|]. change (2 ^ 9) with 512. lia. }
  assert (2 ^ (level + 1) = 2 ^ level * 2) as Hdbl by (rewrite Z.pow_add_r by lia; done).
  apply Z.mod_divide in Hmod; [|lia]. exists s, level.
  assert (block_start s (level + 1) = Z.min s start) as Hparent.
  { apply block_start_multiple; [lia|by rewrite Hdbl|lia]. }
  assert (block_start s level = s) as Hstart.
  { apply block_start_multiple; [done| |lia]. destruct Hmod as [q Hq].
    destruct Hadj as [Hadj|Hadj].
    - exists (q * 2). lia.
    - exists (q * 2 + 1). lia. }
  split; [unfold home_ok; lia|]. split; [lia|]. split.
  - unfold block_arc. rewrite block_eq, Hstart by (unfold home_ok, level_ok; lia).
    rewrite sectors_to_arc_aligned by lia. f_equal; lia.
  - rewrite sibling_of_block, Hparent by (done || unfold home_ok; lia).
    destruct (Z.eqb_spec (Z.min s start) s); f_equal; lia.
Qed.

Lemma is_sibling_of_exact_witness :
  is_sibling_of (block_arc 5 2) (0, 4) = true <->
  exists home level, home_ok home /\ 0 <= level < 9 /\
    block_arc 5 2 = block_arc home level /\ (0, 4) = sibling_half home level.
Proof.
  apply (is_sibling_of_exact (block_arc 5 2) (0, 4)).
  - apply (bool_decide_eq_true_1 _). vm_compute. done.
  - unfold is_u32. simpl. lia.
  - unfold is_u32. simpl. lia.
Defined.

(** The table of the kind of announcement. *)
Definition table_of (grow : bool) (tables : IntentTable.t * IntentTable.t) : IntentTable.t :=
  if grow then tables.2 else tables.1.

Definition entry (t : IntentTable.t) (agent : AgentId) (f : option Url) : option ShrinkIntent :=
  IntentTable.inner t !! (agent, f).

(** An announcement that is filed: not a withdrawal, not expired, and a
    plausible range. *)
Definition plausible (now : Timestamp) (m : K2ShardingShrinkIntentMessage) : Prop :=
  msg_withdrawn m = false /\ now < msg_expires_at_us m /\
  msg_vacate_start m <= msg_vacate_end m /\
  msg_vacate_end m / SECTOR_SIZE + 1 - msg_vacate_start m / SECTOR_SIZE <= 256.

#[global] Instance plausible_dec now m : Decision (plausible now m).
Proof. unfold plausible. apply _. Defined.

Definition filed_intent (peer : Url) (m : K2ShardingShrinkIntentMessage) : ShrinkIntent :=
  MkShrinkIntent (msg_vacate_start m / SECTOR_SIZE, msg_vacate_end m / SECTOR_SIZE + 1)
    (msg_expires_at_us m) (Some peer).

(** The intent, if any, lapses at the given time. *)
Definition lapses_at (old : option ShrinkIntent) (expires : Timestamp) : Prop :=
  match old with Some i => expires_at i = expires | None => False end.

#[global] Instance lapses_at_dec old expires : Decision (lapses_at old expires).
Proof. unfold lapses_at. destruct old; apply _. Defined.

(** The withdrawal names the announcement in the table. *)
Definition withdraws (m : K2ShardingShrinkIntentMessage) (old : option ShrinkIntent) : Prop :=
  msg_withdrawn m = true /\ lapses_at old (msg_expires_at_us m).

#[global] Instance withdraws_dec m old : Decision (withdraws m old).
Proof. unfold withdraws. apply _. Defined.

Lemma sector_bounds loc : is_u32 loc -> 0 <= loc / SECTOR_SIZE < 512.
Proof. exact (home_sector_ok loc). Qed.

Lemma withdraw_entry t agent from expires a f :
  entry (IntentTable.withdraw t agent from expires).2 a f =
    if decide ((a, f) = (agent, from) /\ lapses_at (entry t a f) expires)
    then None else entry t a f.
Proof.
  unfold IntentTable.withdraw, entry. destruct (decide ((a, f) = (agent, from))) as [[= -> ->]|Hne].
  - destruct (IntentTable.inner t !! (agent, from)) as [i|] eqn:Ei.
    + destruct (Z.eqb_spec (expires_at i) expires) as [Ex|Ex]; simpl.
      * by rewrite lookup_delete_eq, decide_True.
      * rewrite Ei, decide_False; [done|]. naive_solver.
    + simpl. rewrite Ei, decide_False; [done|]. naive_solver.
  - rewrite decide_False by naive_solver.
    destruct (IntentTable.inner t !! (agent, from)) as [i|]; simpl; [|done].
    destruct (expires_at i =? expires); simpl; [|done]. by rewrite lookup_delete_ne.
Qed.

(** The effect on one entry of the table the message belongs to. *)
Lemma file_intent_entry now t peer m agent f :
  is_u32 (msg_vacate_start m) -> is_u32 (msg_vacate_end m) ->
  entry (file_intent now t peer m) agent f =
    if decide (agent = msg_agent_id m /\ f = Some peer /\ plausible now m)
    then Some (filed_intent peer m)
    else if decide (agent = msg_agent_id m /\ f = Some peer /\ withdraws m (entry t agent f))
    then None else entry t agent f.
Proof.
  intros Hs He. pose proof (sector_bounds _ Hs). pose proof (sector_bounds _ He).
  unfold file_intent, from_micros. destruct (msg_withdrawn m) eqn:Ew.
  - rewrite (decide_False (P := _ /\ _ /\ plausible now m)) by (intros (_ & _ & Hp & _); congruence).
    rewrite withdraw_entry. apply decide_ext. unfold withdraws.
    split; [intros [[= -> ->] ?]|intros (-> & -> & _ & ?)]; done.
  - rewrite (decide_False (P := _ /\ _ /\ withdraws m _)) by (intros (_ & _ & Hp & _); congruence).
    unfold plausible.
    destruct (Z.leb_spec (msg_expires_at_us m) now);
      [by rewrite decide_False by (intros (_ & _ & _ & ? & _); lia)|].
    destruct (Z.ltb_spec (msg_vacate_end m) (msg_vacate_start m));
      [by rewrite decide_False by (intros (_ & _ & _ & _ & ? & _); lia)|].
    assert (msg_vacate_start m / SECTOR_SIZE <= msg_vacate_end m / SECTOR_SIZE) as Hle
      by (apply Z.div_le_mono; [apply SECTOR_SIZE_pos|lia]).
    cbn [fst snd]. rewrite NUM_SECTORS_val. change (512 / 2) with 256.
    rewrite (wrap_u32_id (msg_vacate_end m / SECTOR_SIZE + 1)) by (unfold is_u32; lia).
    rewrite wrap_u32_id by (unfold is_u32; lia).
    destruct (Z.ltb_spec 256 (msg_vacate_end m / SECTOR_SIZE + 1 - msg_vacate_start m / SECTOR_SIZE));
      [by rewrite decide_False by (intros (_ & _ & _ & _ & _ & ?); lia)|].
    fold (filed_intent peer m). unfold entry, IntentTable.insert. cbn [IntentTable.inner from filed_intent].
    destruct (decide ((agent, f) = (msg_agent_id m, Some peer))) as [[= -> ->]|Hne].
    + by rewrite lookup_insert_eq, decide_True.
    + rewrite lookup_insert_ne by done. rewrite decide_False by naive_solver. done.
Qed.

(** A message changes at most one entry, that of the agent it names and the
    peer it came from, in the table of its kind: a plausible announcement is
    filed there, a withdrawal with the same expiry removes it, and in every
    other case nothing changes; no message touches what arrived from another
    peer, or a local agent's own intents. *)
Theorem receive_intent_exact now intents grows peer m grow agent f :
  is_u32 (msg_vacate_start m) -> is_u32 (msg_vacate_end m) ->
  let old := entry (table_of grow (intents, grows)) agent f in
  let named := grow = msg_grow m /\ agent = msg_agent_id m /\ f = Some peer in
  entry (table_of grow (receive_intent now intents grows peer m)) agent f =
    if decide (named /\ plausible now m) then Some (filed_intent peer m)
    else if decide (named /\ withdraws m old) then None else old.
Proof.
  intros Hs He. cbv zeta. unfold receive_intent.
  destruct (decide (grow = msg_grow m)) as [Hg|Hg].
  - assert (table_of grow (if msg_grow m then (intents, file_intent now grows peer m)
        else (file_intent now intents peer m, grows))
      = file_intent now (table_of grow (intents, grows)) peer m) as -> by (subst; by destruct (msg_grow m)).
    rewrite file_intent_entry by done.
    rewrite (decide_ext (_ /\ plausible now m) (agent = msg_agent_id m /\ f = Some peer /\ plausible now m)) by tauto.
    destruct (decide _); [done|]. apply decide_ext. tauto.
  - rewrite !decide_False by tauto. destruct grow, (msg_grow m); done.
Qed.

(** A withdrawal and the announcement it takes back, for the concrete inputs. *)
Definition sample_intent (withdrawn : bool) : K2ShardingShrinkIntentMessage :=
  MkShrinkIntentMessage [1; 2] 0 (4 * SECTOR_SIZE - 1) 500 withdrawn false.

Definition sample_table : IntentTable.t :=
  (receive_intent 10 IntentTable.default IntentTable.default "ws://a" (sample_intent false)).1.

Lemma receive_intent_exact_witness :
  let old := entry (table_of false (sample_table, IntentTable.default)) [1; 2] (Some "ws://a") in
  let named := false = false /\ [1; 2] = [1; 2] /\ Some "ws://a" = Some "ws://a" in
  entry (table_of false (receive_intent 20 sample_table IntentTable.default "ws://a"
           (sample_intent true))) [1; 2] (Some "ws://a") =
    if decide (named /\ plausible 20 (sample_intent true))
    then Some (filed_intent "ws://a" (sample_intent true))
    else if decide (named /\ withdraws (sample_intent true) old) then None else old.
Proof.
  apply (receive_intent_exact 20 sample_table IntentTable.default "ws://a" (sample_intent true)).
  - unfold is_u32. simpl. lia.
  - apply (bool_decide_eq_true_1 _). vm_compute. done.
Defined.

(** Intents are filed under the peer they came from. *)
Definition table_wf (t : IntentTable.t) : Prop :=
  forall agent f i, entry t agent f = Some i -> from i = f.

Lemma table_wf_insert t agent i : table_wf t -> table_wf (IntentTable.insert t agent i).
Proof.
  intros Hw a f j. unfold entry, IntentTable.insert. cbn [IntentTable.inner].
  rewrite lookup_insert_Some. intros [[[= <- <-] <-]|[_ Hj]]; [done|]. by apply (Hw a).
Qed.

Lemma table_wf_remove t agent : table_wf t -> table_wf (IntentTable.remove t agent).
Proof.
  intros Hw a f j. unfold entry, IntentTable.remove. cbn [IntentTable.inner].
  rewrite lookup_delete_Some. intros [_ Hj]. by apply (Hw a).
Qed.

Lemma table_wf_live t now : table_wf t -> table_wf (IntentTable.live t now).2.
Proof.
  intros Hw a f j. unfold entry, IntentTable.live. cbn [snd IntentTable.inner].
  rewrite map_lookup_filter_Some. intros [Hj _]. by apply (Hw a).
Qed.

Lemma kept_entry check t now declared own agent i arc url : table_wf t ->
  (agent ∉ own) -> declared !! agent = Some (arc, Some url) ->
  (agent, i) ∈ retain_checked check (IntentTable.live t now).1 declared own <->
  entry t agent (Some url) = Some i /\ now < expires_at i /\ check arc (vacate i) = true.
Proof.
  intros Hw Ho Hd. rewrite elem_of_retain, elem_of_live. split.
  - intros [(f & Hf & Hlt) [[? _]|(_ & arc' & url' & Hd' & Hfrom & Hc)]]; [done|].
    rewrite Hd in Hd'. injection Hd' as <- <-. pose proof (Hw agent f i Hf) as Hk.
    rewrite Hfrom in Hk. by subst f.
  - intros (He & Hlt & Hc). split; [by exists (Some url)|]. right. split; [done|].
    exists arc, url. split_and!; try done. by apply (Hw agent (Some url)).
Qed.

Lemma receive_wf now intents grows peer m :
  table_wf intents -> table_wf grows ->
  table_wf (receive_intent now intents grows peer m).1 /\
  table_wf (receive_intent now intents grows peer m).2.
Proof.
  intros Hi Hg. assert (forall t, table_wf t -> table_wf (file_intent now t peer m)) as Hf.
  { intros t Ht. unfold file_intent. destruct (msg_withdrawn m).
    - intros a f i. rewrite withdraw_entry. case_decide; [done|]. apply Ht.
    - repeat (case_match; [done|]). by apply table_wf_insert. }
  unfold receive_intent. destruct (msg_grow m); split; try done; by apply Hf.
Qed.

(** A forged announcement or withdrawal has no effect: whatever message
    arrives from a peer other than the one an agent declares as its own, the
    intents counted for that agent, when shrinking or growing, stay the same. *)
Theorem forged_intent_ineffective now now' intents grows peer m declared own agent arc url i :
  is_u32 (msg_vacate_start m) -> is_u32 (msg_vacate_end m) ->
  table_wf intents -> table_wf grows ->
  (agent ∉ own) -> declared !! agent = Some (arc, Some url) -> url <> peer ->
  let after := receive_intent now intents grows peer m in
  ((agent, i) ∈ retain_declared (IntentTable.live after.1 now').1 declared own <->
   (agent, i) ∈ retain_declared (IntentTable.live intents now').1 declared own) /\
  ((agent, i) ∈ retain_growers (IntentTable.live after.2 now').1 declared own <->
   (agent, i) ∈ retain_growers (IntentTable.live grows now').1 declared own).
Proof.
  intros Hs He Hi Hg Ho Hd Hne. cbv zeta.
  destruct (receive_wf now intents grows peer m Hi Hg) as [Hi' Hg'].
  assert (forall t, entry (file_intent now t peer m) agent (Some url) = entry t agent (Some url)) as Hf.
  { intros t. rewrite file_intent_entry by done. rewrite !decide_False; [done|..];
      intros (_ & [= ->] & _); done. }
  unfold retain_declared, retain_growers.
  rewrite !(kept_entry _ _ _ _ _ _ _ _ _ Hi' Ho Hd), !(kept_entry _ _ _ _ _ _ _ _ _ Hg' Ho Hd),
    !(kept_entry _ _ _ _ _ _ _ _ _ Hi Ho Hd), !(kept_entry _ _ _ _ _ _ _ _ _ Hg Ho Hd).
  unfold receive_intent. destruct (msg_grow m); cbn [fst snd]; rewrite Hf; done.
Qed.

Lemma forged_intent_ineffective_witness :
  let declared : Declared := {[ [1; 2] := (block_arc 0 3, Some "ws://a") ]} in
  let i := filed_intent "ws://a" (sample_intent false) in
  let after := receive_intent 20 sample_table IntentTable.default "ws://b" (sample_intent true) in
  (([1; 2], i) ∈ retain_declared (IntentTable.live after.1 30).1 declared ∅ <->
   ([1; 2], i) ∈ retain_declared (IntentTable.live sample_table 30).1 declared ∅) /\
  (([1; 2], i) ∈ retain_growers (IntentTable.live after.2 30).1 declared ∅ <->
   ([1; 2], i) ∈ retain_growers (IntentTable.live IntentTable.default 30).1 declared ∅).
Proof.
  cbv zeta. eapply (forged_intent_ineffective 20 30 sample_table IntentTable.default "ws://b").
  - unfold is_u32. simpl. lia.
  - apply (bool_decide_eq_true_1 _). vm_compute. done.
  - apply receive_wf; intros a f j Hj; unfold entry in Hj; simpl in Hj; by rewrite lookup_empty in Hj.
  - intros a f j Hj. unfold entry in Hj. simpl in Hj. by rewrite lookup_empty in Hj.
  - apply (bool_decide_eq_true_1 (_ ∉ _)). vm_compute. done.
  - vm_compute. reflexivity.
  - done.
Defined.
