(* ===== verification/Recheck.v ===== *)
(** Rust's [Duration] with its nanoseconds, and [Duration::mul_f64]: a factor
    of the configuration is a 64-bit IEEE float, computed with the
    specification of floats of the Standard Library. *)
From Stdlib Require Import SpecFloat.
From S2P Require Import Prelude Arc Timestamp Id ArcSet Blocks Coverage Intents Agent.

(** A duration, in nanoseconds. *)
Definition Nanos : Type := Z.
Definition NANOS_PER_SEC : Z := 1000000000.

Definition from_millis (ms : Z) : Nanos := ms * 1000000.
(** [Duration::as_micros], and the duration between two timestamps. *)
Definition nanos_micros (d : Nanos) : Duration := d / 1000.
Definition from_duration (d : Duration) : Nanos := d * 1000.

(** [Timestamp + Duration]. *)
Definition ts_plus (t : Timestamp) (d : Nanos) : Timestamp := ts_add t (nanos_micros d).
(** [(now - t).unwrap_or_default()]. *)
Definition age (now t : Timestamp) : Nanos :=
  match ts_sub now t with Some d => from_duration d | None => 0 end.

Abbreviation f64 := spec_float (only parsing).

(** [x as f64] of an integer. *)
Definition f64_of_Z (x : Z) : f64 := binary_normalize 53 1024 x 0 false.
Definition f64_mul : f64 -> f64 -> f64 := SFmul 53 1024.
Definition f64_add : f64 -> f64 -> f64 := SFadd 53 1024.
Definition f64_div : f64 -> f64 -> f64 := SFdiv 53 1024.

Definition as_secs_f64 (d : Nanos) : f64 :=
  f64_add (f64_of_Z (d / NANOS_PER_SEC))
    (f64_div (f64_of_Z (d mod NANOS_PER_SEC)) (f64_of_Z NANOS_PER_SEC)).

(** [n / d], to the nearest integer, ties to even. *)
Definition round_half_even (n d : Z) : Z :=
  let q := n / d in
  let r := n mod d in
  if 2 * r <? d then q
  else if d <? 2 * r then q + 1
  else if Z.even q then q else q + 1.

(** [Duration::from_secs_f64], a panic when the value is negative, not finite
    or past [u64] seconds. *)
Definition from_secs_f64 (x : f64) : res Nanos :=
  match x with
  | S754_zero _ => Ok 0
  | S754_finite false m e =>
      if 64 <=? e + 52 then Panic "value is either too big or NaN"
      else if 0 <=? e then Ok (Zpos m * 2 ^ e * NANOS_PER_SEC)
      else Ok (round_half_even (Zpos m * NANOS_PER_SEC) (2 ^ (- e)))
  | S754_finite true _ _ => Panic "value is negative"
  | S754_infinity true => Panic "value is negative"
  | S754_infinity false | S754_nan => Panic "value is either too big or NaN"
  end.

Definition mul_f64 (self : Nanos) (rhs : f64) : res Nanos :=
  from_secs_f64 (f64_mul rhs (as_secs_f64 self)).

(** ** Lemmas *)

(** The float [n / d] of two small integers. *)
Definition f64_ratio (n d : Z) : f64 := f64_div (f64_of_Z n) (f64_of_Z d).

Example mul_f64_two_and_a_half : mul_f64 (from_millis 300000) (f64_ratio 5 2) = Ok (from_millis 750000).
Proof. vm_compute. reflexivity. Qed.

Example mul_f64_tenth : mul_f64 (from_millis 1000) (f64_ratio 1 10) = Ok (from_millis 100).
Proof. vm_compute. reflexivity. Qed.

Example mul_f64_negative : is_ok (mul_f64 (from_millis 1000) (f64_ratio (-1) 1)) = false.
Proof. vm_compute. reflexivity. Qed.

Lemma round_half_even_nonneg n d : 0 <= n -> 0 < d -> 0 <= round_half_even n d.
Proof.
  intros Hn Hd. unfold round_half_even. pose proof (Z.div_pos n d Hn Hd).
  destruct (2 * (n mod d) <? d); [done|]. destruct (d <? 2 * (n mod d)); [lia|].
  destruct (Z.even (n / d)); lia.
Qed.

(** A duration is never negative. *)
Lemma mul_f64_nonneg d x r : mul_f64 d x = Ok r -> 0 <= r.
Proof.
  unfold mul_f64, from_secs_f64. destruct (f64_mul x (as_secs_f64 d)) as [b|b| |[] m e]; try done.
  - by intros [= <-].
  - by destruct b.
  - destruct (64 <=? e + 52); [done|]. destruct (Z.leb_spec 0 e); intros [= <-].
    + unfold NANOS_PER_SEC. pose proof (Z.pow_pos_nonneg 2 e). lia.
    + apply round_half_even_nonneg; [unfold NANOS_PER_SEC; lia|]. apply Z.pow_pos_nonneg; lia.
Qed.

(** The decision rules of the sharding controller that do not touch its state
    (crates/gossip/src/sharding/controller.rs, the functions after the impl):
    the re-checks of announced shrinks and grows, and their timing. *)
(** Intents in force, by agent. *)
Abbreviation Live := (list (AgentId * ShrinkIntent)) (only parsing).

Definition overlaps (a b : range) : bool := Z.max a.1 b.1 <? Z.min a.2 b.2.

(** The loop of every re-check: the intents the rule counts as gone are
    subtracted from a copy of the coverage. *)
Definition subtract_counted (counts : AgentId -> ShrinkIntent -> bool) (cov : Cov) (live : Live)
  : Cov :=
  foldl (fun eff (ai : AgentId * ShrinkIntent) =>
    if counts ai.1 ai.2 then subtract_sectors eff (vacate ai.2).1 (vacate ai.2).2 else eff) cov live.

Definition shrink_recheck (cov : Cov) (live_intents : Live) (own_id : AgentId) (vacated : range)
  (target_redundancy : Z) : res bool :=
  let eff := subtract_counted (fun id _ => id_lt id own_id) cov live_intents in
  let? m := min_over eff vacated.1 vacated.2 in
  Ok (target_redundancy <=? m).

Definition refreshed_expiry (expires : Timestamp) (next_check : Timestamp) (wait : Nanos)
  : option Timestamp :=
  if expires <? ts_plus next_check wait then Some (ts_plus (ts_plus next_check wait) wait)
  else None.

Inductive Recheck : Type := Proceed | Wait | StandDown.

#[global] Instance Recheck_eq_dec : EqDecision Recheck.
Proof. solve_decision. Defined.

Definition lower_racer (live_intents : Live) (own_id : AgentId) (vacated : range) : bool :=
  existsb (fun ai => id_lt ai.1 own_id && overlaps (vacate ai.2) vacated) live_intents.

Definition intent_times (now : Timestamp) (wait : Nanos) : Timestamp * Timestamp :=
  let execute_at := ts_plus now wait in (execute_at, ts_plus execute_at wait).

Definition is_critical (eff : Cov) (r : range) : res bool :=
  let? m := min_over eff r.1 r.2 in Ok (m <=? 1).

Definition grow_view (cov : Cov) (live_intents : Live) (own_id : AgentId) : Cov :=
  subtract_counted (fun id _ => negb (bool_decide (id = own_id))) cov live_intents.

Definition grow_recheck (cov : Cov) (live_intents live_grows : Live) (own_id : AgentId)
  (r : range) (target_redundancy : Z) : res bool :=
  let eff := foldl (fun eff (ai : AgentId * ShrinkIntent) =>
      if id_lt ai.1 own_id && overlaps (vacate ai.2) r
      then add_sectors eff (vacate ai.2).1 (vacate ai.2).2 else eff)
    (grow_view cov live_intents own_id) live_grows in
  let? m := min_over eff r.1 r.2 in
  Ok (m <? target_redundancy).

Definition probe_due (last : option Timestamp) (now : Timestamp) (interval : Nanos) : bool :=
  match last with None => true | Some t => interval <=? age now t end.

Definition room_alongside (cov : Cov) (live_intents : Live) (own_id : AgentId) (vacated : range)
  (target_redundancy : Z) : res bool :=
  let eff := subtract_counted
    (fun id i => id_lt id own_id && overlaps (vacate i) vacated) cov live_intents in
  let? m := min_over eff vacated.1 vacated.2 in
  Ok (target_redundancy <=? m).

(** An intender the patient rule counts as gone. *)
Definition counts_as_gone (own_id : AgentId) (vacated : range) (id : AgentId) (i : ShrinkIntent)
  : bool :=
  negb (bool_decide (id = own_id) || negb (overlaps (vacate i) vacated)).

Definition patient_recheck (cov : Cov) (live_intents : Live) (own_id : AgentId) (vacated : range)
  (target_redundancy : Z) : res Recheck :=
  let eff := subtract_counted (counts_as_gone own_id vacated) cov live_intents in
  let higher := existsb (fun ai =>
    counts_as_gone own_id vacated ai.1 ai.2 && id_lt own_id ai.1) live_intents in
  let? m := min_over eff vacated.1 vacated.2 in
  Ok (if target_redundancy <=? m then Proceed
      else if higher && negb (lower_racer live_intents own_id vacated) then Wait
      else StandDown).

(** ** Lemmas *)

Lemma ranges_overlap_spec a b : overlaps a b = true <-> exists s, in_range s a /\ in_range s b.
Proof.
  unfold overlaps, in_range. rewrite Z.ltb_lt. split.
  - intros Hlt. exists (Z.max a.1 b.1). lia.
  - intros (s & ? & ?). lia.
Qed.

(** Ranges as intents carry them. *)
Definition range_ok (r : range) : Prop := 0 <= r.1 <= r.2 /\ r.2 <= 512.

#[global] Instance range_ok_dec r : Decision (range_ok r).
Proof. unfold range_ok. apply _. Defined.

Definition live_ok (live : Live) : Prop := Forall (fun ai => range_ok (vacate ai.2)) live.

(** The intents counted as gone that cover the sector. *)
Definition gone_over (counts : AgentId -> ShrinkIntent -> bool) (s : Z) (live : Live) : Live :=
  filter (fun ai => counts ai.1 ai.2 = true /\ in_range s (vacate ai.2)) live.

Lemma subtract_counted_ok counts cov live : cov_ok cov -> cov_ok (subtract_counted counts cov live).
Proof.
  unfold subtract_counted. revert cov. induction live as [|ai live IH]; intros cov Hc; simpl; [done|].
  apply IH. destruct (counts _ _); [by apply subtract_ok|done].
Qed.

Lemma subtract_counted_lookup counts cov live s c : 0 <= s -> live_ok live ->
  cov !! Z.to_nat s = Some c -> 0 <= c ->
  subtract_counted counts cov live !! Z.to_nat s
  = Some (Z.max 0 (c - Z.of_nat (length (gone_over counts s live)))).
Proof.
  intros Hs Hl. revert cov c. unfold subtract_counted, gone_over.
  induction Hl as [|ai live Hai Hl IH]; intros cov c Hc H0c; cbn [foldl].
  - rewrite Hc. f_equal. simpl. lia.
  - rewrite filter_cons. destruct Hai as [Hr1 Hr2].
    assert (forall cov', cov' !! Z.to_nat s = Some c -> subtract_sectors cov' (vacate ai.2).1 (vacate ai.2).2
      !! Z.to_nat s = Some (if decide (in_range s (vacate ai.2)) then Z.max 0 (c - 1) else c)) as Hsub.
    { intros cov' Hc'. unfold subtract_sectors. rewrite map_sectors_lookup by (unfold is_u32; lia).
      rewrite Hc'. cbn [fmap option_fmap option_map]. reflexivity. }
    destruct (counts ai.1 ai.2) eqn:Ec.
    + rewrite (IH _ _ (Hsub cov Hc)) by (case_decide; lia). f_equal.
      destruct (decide (in_range s (vacate ai.2))) as [Hin|Hin].
      * rewrite (decide_True (P := true = true /\ _)) by done. cbn [length]. lia.
      * rewrite (decide_False (P := true = true /\ _)) by tauto. lia.
    + rewrite (IH _ _ Hc) by done. rewrite decide_False by (intros [? _]; done). done.
Qed.

(** The test every shrink rule makes, sector by sector. *)
Lemma subtract_min_spec counts cov live r target : cov_ok cov -> Forall (fun c => 0 <= c) cov ->
  live_ok live -> range_ok r -> r.1 < r.2 -> 0 < target ->
  exists m, min_over (subtract_counted counts cov live) r.1 r.2 = Ok m /\
    (target <= m <-> forall s c, in_range s r -> cov !! Z.to_nat s = Some c ->
       target + Z.of_nat (length (gone_over counts s live)) <= c).
Proof.
  intros Hc Hpos Hl [Hr1 Hr2] Hlt Ht.
  destruct (min_over_ge (subtract_counted counts cov live) r.1 r.2 target) as (m & E & Hm);
    [by apply subtract_counted_ok|lia|done|].
  exists m. split; [done|]. rewrite Hm. unfold in_range. split.
  - intros Hall s c Hs Hcs. pose proof (Forall_lookup_1 _ _ _ _ Hpos Hcs) as H0c. simpl in H0c.
    pose proof (Hall s _ Hs (subtract_counted_lookup counts cov live s c ltac:(lia) Hl Hcs H0c)). lia.
  - intros Hall s c' Hs Hc'. unfold cov_ok in Hc.
    destruct (lookup_lt_is_Some_2 cov (Z.to_nat s)) as [c Hcs]; [lia|].
    pose proof (Forall_lookup_1 _ _ _ _ Hpos Hcs) as H0c. simpl in H0c.
    rewrite (subtract_counted_lookup counts cov live s c) in Hc' by (done || lia).
    injection Hc' as <-. specialize (Hall s c Hs Hcs). lia.
Qed.

(** Its negation: a sector that would be left with too few. *)
Lemma subtract_lt_spec counts cov live r target : cov_ok cov -> Forall (fun c => 0 <= c) cov ->
  live_ok live -> range_ok r -> r.1 < r.2 -> 0 < target ->
  exists m, min_over (subtract_counted counts cov live) r.1 r.2 = Ok m /\
    (m < target <-> exists s c, in_range s r /\ cov !! Z.to_nat s = Some c /\
       c - Z.of_nat (length (gone_over counts s live)) < target).
Proof.
  intros Hc Hpos Hl Hr Hlt Ht.
  destruct (subtract_min_spec counts cov live r target Hc Hpos Hl Hr Hlt Ht) as (m & E & Hm).
  exists m. split; [done|]. split.
  - intros Hless. destruct Hr as [Hr1 Hr2].
    destruct (min_over_spec (subtract_counted counts cov live) r.1 r.2) as (m' & E' & _ & s & Hs & Hsm);
      [by apply subtract_counted_ok|lia|done|].
    replace m' with m in Hsm by congruence. unfold cov_ok in Hc.
    destruct (lookup_lt_is_Some_2 cov (Z.to_nat s)) as [c Hcs]; [lia|].
    pose proof (Forall_lookup_1 _ _ _ _ Hpos Hcs) as H0c. simpl in H0c.
    rewrite (subtract_counted_lookup counts cov live s c) in Hsm by (done || lia).
    injection Hsm as Hsm. exists s, c. split; [exact Hs|]. split; [done|lia].
  - intros (s & c & Hs & Hcs & Hless). destruct (Z.lt_ge_cases m target) as [|Hge]; [done|].
    rewrite Hm in Hge. specialize (Hge s c Hs Hcs). lia.
Qed.
