(* ===== verification/ShrinkSafety.v ===== *)
(** Why announced shrinks are safe: agents that act on views of the network up
    to one announcement wait old never take a sector's redundancy below the
    target (crates/gossip/src/sharding/controller.rs, the re-checks). *)

From S2P Require Import Prelude Arc Timestamp Id ArcSet Agent Blocks Coverage Intents.
From S2P Require Import Recheck.

Lemma list_filter_none {A} (P : A -> Prop) `{!forall x, Decision (P x)} l :
  (forall x, ~ P x) -> filter P l = [].
Proof. intros HP. induction l as [|x l IH]; [done|]. by rewrite filter_cons_False. Qed.

Lemma filter_length_diff {A} (P Q : A -> Prop) `{!forall x, Decision (P x)} `{!forall x, Decision (Q x)} l :
  (length (filter P l) <= length (filter Q l) + length (filter (fun x => P x /\ ~ Q x) l))%nat.
Proof.
  induction l as [|x l IH]; [done|]. rewrite !filter_cons.
  destruct (decide (P x)), (decide (Q x)).
  - rewrite (decide_False (P := P x /\ ~ Q x)) by tauto. simpl. lia.
  - rewrite (decide_True (P := P x /\ ~ Q x)) by tauto. simpl. lia.
  - rewrite (decide_False (P := P x /\ ~ Q x)) by tauto. simpl. lia.
  - rewrite (decide_False (P := P x /\ ~ Q x)) by tauto. lia.
Qed.

Lemma NoDup_length_le {A} (l k : list A) : NoDup l -> (forall x, x ∈ l -> x ∈ k) ->
  (length l <= length k)%nat.
Proof. intros Hnd Hin. apply submseteq_length. by apply NoDup_submseteq. Qed.

(** A shrink that was carried out: who gave up what, when it was announced and
    carried out, and the view of the network it was decided on. *)
Record execution : Type := MkExecution {
  ex_agent : AgentId;
  ex_vacate : range;
  ex_announced : Timestamp;
  ex_executed : Timestamp;
  ex_view : Timestamp;
  ex_cov : Cov;
  ex_live : Live;
}.

Section run.
(** Which agent holds which sector when, among the agents of the network. *)
Variable agents : list AgentId.
Variable holds : Timestamp -> AgentId -> Z -> bool.

Definition holds_other (t : Timestamp) (own : AgentId) (s : Z) (j : AgentId) : Prop :=
  j <> own /\ holds t j s = true.

#[global] Instance holds_other_dec t own s j : Decision (holds_other t own s j).
Proof. unfold holds_other. apply _. Defined.

(** The copies of a sector, and those held by others than [own]. *)
Definition copies (t : Timestamp) (s : Z) : Z :=
  Z.of_nat (length (filter (fun j => holds t j s = true) agents)).
Definition copies_without (t : Timestamp) (own : AgentId) (s : Z) : Z :=
  Z.of_nat (length (filter (holds_other t own s) agents)).

(** Every shrink of the history was announced at least one wait before, passed
    the re-check on the coverage at its view's time, which is at most one wait
    old and knows the shrinks announced by then and still to come; and sectors
    are given up in no other way.  Agents may take sectors at any time. *)
Record polite_run (wait : Nanos) (target : Z) (history : list execution) : Prop := {
  run_nodup : NoDup agents;
  run_wait : 0 <= wait /\ nanos_micros wait < 2 ^ 62;
  run_times e : e ∈ history ->
    ts_ok (ex_announced e) /\ ts_ok (ex_view e) /\ ex_view e <= ex_executed e;
  run_losses t t' j s : t <= t' -> holds t j s = true -> holds t' j s = false ->
    exists e, e ∈ history /\ ex_agent e = j /\ in_range s (ex_vacate e) /\ t < ex_executed e <= t';
  run_range e : e ∈ history -> range_ok (ex_vacate e) /\ (ex_vacate e).1 < (ex_vacate e).2;
  run_announced e : e ∈ history -> (intent_times (ex_announced e) wait).1 <= ex_executed e;
  run_fresh e : e ∈ history -> ex_executed e <= ts_plus (ex_view e) wait;
  run_cov e : e ∈ history -> cov_ok (ex_cov e) /\
    forall s, 0 <= s < 512 ->
      ex_cov e !! Z.to_nat s = Some (copies_without (ex_view e) (ex_agent e) s);
  run_live e : e ∈ history -> live_ok (ex_live e) /\
    forall e', e' ∈ history -> ex_announced e' <= ex_view e < ex_executed e' ->
      exists i, (ex_agent e', i) ∈ ex_live e /\ vacate i = ex_vacate e';
  run_check e : e ∈ history ->
    patient_recheck (ex_cov e) (ex_live e) (ex_agent e) (ex_vacate e) target = Ok Proceed;
}.

Lemma ts_plus_exact t d : ts_ok t -> 0 <= d -> nanos_micros d < 2 ^ 62 ->
  ts_plus t d = t + nanos_micros d.
Proof.
  intros Ht Hd Hb. unfold ts_ok in Ht. unfold ts_plus. apply ts_add_exact; [lia| |lia].
  unfold nanos_micros. apply Z.div_pos; lia.
Qed.

Lemma cov_nonneg wait target history e : polite_run wait target history -> e ∈ history ->
  Forall (fun c => 0 <= c) (ex_cov e).
Proof.
  intros R He. destruct (run_cov _ _ _ R e He) as [Hok Hc]. apply Forall_lookup_2.
  intros n c Hn. pose proof (lookup_lt_Some _ _ _ Hn) as Hlt. unfold cov_ok in Hok.
  specialize (Hc (Z.of_nat n)). rewrite Nat2Z.id, Hn in Hc.
  injection Hc as ->; [unfold copies_without; lia|lia].
Qed.

(** Right after a shrink the other agents hold enough copies of every sector
    given up, whoever else has left since the view. *)
Lemma enough_after wait target history e s : 0 < target ->
  polite_run wait target history -> e ∈ history -> in_range s (ex_vacate e) ->
  target <= copies_without (ex_executed e) (ex_agent e) s.
Proof.
  intros Ht R He Hs. destruct (run_range _ _ _ R e He) as [Hr Hlt].
  destruct (run_cov _ _ _ R e He) as [Hok Hc]. destruct (run_live _ _ _ R e He) as [Hl Hseen].
  set (own := ex_agent e) in *. set (T := ex_executed e) in *. set (V := ex_view e) in *.
  destruct (subtract_min_spec (counts_as_gone own (ex_vacate e)) (ex_cov e) (ex_live e)
    (ex_vacate e) target Hok (cov_nonneg _ _ _ _ R He) Hl Hr Hlt Ht) as (m & Em & Hm).
  pose proof (run_check _ _ _ R e He) as Hchk. unfold patient_recheck in Hchk. fold own in Hchk.
  rewrite Em in Hchk. simpl in Hchk. destruct (Z.leb_spec target m) as [Hle|].
  2: { destruct (_ && _) in Hchk; discriminate. }
  assert (0 <= s < 512) as Hsb by (unfold in_range, range_ok in *; lia).
  pose proof (proj1 Hm Hle s _ Hs (Hc s Hsb)) as Hcount. clear Hm Hchk Em Hle m.
  assert (length (filter (fun j => holds_other V own s j /\ ~ holds_other T own s j) agents)
    <= length (gone_over (counts_as_gone own (ex_vacate e)) s (ex_live e)))%nat as Hlost.
  { rewrite <- (length_map fst (gone_over _ _ _)). apply NoDup_length_le.
    { apply NoDup_filter, R. }
    intros j Hj. apply list_elem_of_filter in Hj as [[[Hne Hh] Hnot] _].
    destruct (run_times _ _ _ R e He) as (_ & HV & HVT). fold V T in HV, HVT.
    destruct (run_losses _ _ _ R V T j s) as (e' & He' & <- & Hin & Hex); [done|done| |].
    { destruct (holds T j s) eqn:E; [|done]. by destruct Hnot. }
    destruct (run_times _ _ _ R e' He') as (Ha' & _ & _). destruct (run_wait _ _ _ R) as [Hw0 Hw1].
    pose proof (run_announced _ _ _ R e' He') as Hann. pose proof (run_fresh _ _ _ R e He) as Hfr.
    fold T V in Hfr. unfold intent_times in Hann. cbn [fst] in Hann.
    rewrite ts_plus_exact in Hann, Hfr by done.
    destruct (Hseen e' He') as (i & Hi & Hv); [lia|].
    apply list_elem_of_fmap. exists (ex_agent e', i). split; [done|].
    apply list_elem_of_filter. split; [|done]. cbn [fst snd]. rewrite Hv. split; [|done].
    unfold counts_as_gone. rewrite bool_decide_false by done. rewrite Hv. simpl.
    rewrite negb_involutive. apply ranges_overlap_spec. by exists s. }
  pose proof (filter_length_diff (holds_other V own s) (holds_other T own s) agents).
  unfold copies_without in *. lia.
Qed.

Lemma filter_length_le (P Q : AgentId -> Prop) `{!forall x, Decision (P x)}
  `{!forall x, Decision (Q x)} : (forall j, P j -> Q j) ->
  (length (filter P agents) <= length (filter Q agents))%nat.
Proof.
  intros Hpq. pose proof (filter_length_diff P Q agents) as Hd.
  assert (filter (fun x => P x /\ ~ Q x) agents = []) as Hnil.
  { apply list_filter_none. naive_solver. }
  rewrite Hnil in Hd. simpl in Hd. lia.
Qed.

Lemma copies_without_le t own s : copies_without t own s <= copies t s.
Proof. apply inj_le, filter_length_le. by intros j [_ ?]. Qed.

Lemma last_execution (P : execution -> Prop) `{!forall e, Decision (P e)} l :
  Exists P l -> exists e, e ∈ l /\ P e /\ forall e', e' ∈ l -> P e' -> ex_executed e' <= ex_executed e.
Proof.
  induction l as [|x l IH]; [by intros ?%Exists_nil|].
  intros Hex. destruct (decide (Exists P l)) as [Hl|Hl].
  - destruct (IH Hl) as (e & He & HP & Hmax).
    destruct (decide (P x /\ ex_executed e < ex_executed x)) as [[HPx Hlt]|Hno].
    + exists x. split; [left|]. split; [done|]. intros e' He' HP'.
      apply elem_of_cons in He' as [->|He']; [lia|]. specialize (Hmax e' He' HP'). lia.
    + exists e. split; [by right|]. split; [done|]. intros e' He' HP'.
      apply elem_of_cons in He' as [->|He']; [|by apply Hmax].
      destruct (decide (ex_executed e < ex_executed x)); [tauto|lia].
  - apply Exists_cons in Hex as [HPx|?]; [|done]. exists x. split; [left|]. split; [done|].
    intros e' He' HP'. apply elem_of_cons in He' as [->|He']; [lia|]. exfalso. apply Hl.
    apply Exists_exists. by exists e'.
Qed.

(** C1: shrinks under the patient rule never take a sector below the target:
    over any period its redundancy stays at the target or at what it was,
    whichever is less, however the shrinks of the network interleave and
    although every one is decided on a view up to a wait old. *)
Theorem patient_shrinks_safe wait target history t t' s :
  polite_run wait target history -> 0 < target -> t <= t' ->
  Z.min target (copies t s) <= copies t' s.
Proof.
  intros R Ht Htt.
  destruct (decide (Exists (fun e => in_range s (ex_vacate e) /\ t < ex_executed e <= t') history))
    as [Hex|Hno].
  - destruct (last_execution _ _ Hex) as (e & He & [Hs Hb] & Hmax).
    pose proof (enough_after wait target history e s Ht R He Hs) as Henough.
    pose proof (copies_without_le (ex_executed e) (ex_agent e) s).
    assert (copies (ex_executed e) s <= copies t' s) as Hle; [|lia].
    apply inj_le, filter_length_le. intros j Hj. destruct (holds t' j s) eqn:E; [done|exfalso].
    destruct (run_losses _ _ _ R (ex_executed e) t' j s) as (e' & He' & _ & Hs' & Hb'); [lia|done..|].
    specialize (Hmax e' He' ltac:(split; [done|lia])). lia.
  - assert (copies t s <= copies t' s) as Hle; [|lia].
    apply inj_le, filter_length_le. intros j Hj. destruct (holds t' j s) eqn:E; [done|exfalso].
    destruct (run_losses _ _ _ R t t' j s) as (e & He & _ & Hs & Hb); [done..|].
    apply Hno, Exists_exists. by exists e.
Qed.
End run.

(** Two agents hold the whole ring; the first shrinks to the lower half ten
    seconds after it announced that it would. *)
Definition run_agents : list AgentId := [[1]; [2]].
Definition run_holds (t : Timestamp) (j : AgentId) (s : Z) : bool :=
  negb (bool_decide (j = [1]) && (256 <=? s) && (s <? 512) && (15000000 <=? t)).
Definition run_execution : execution :=
  MkExecution [1] (vacate_half 3 9) 0 15000000 14000000 (replicate 512 1)
    [([1], MkShrinkIntent (vacate_half 3 9) 30000000 None)].

Lemma run_polite : polite_run run_agents run_holds (from_millis 10000) 1 [run_execution].
Proof.
  assert (forall e, e ∈ [run_execution] -> e = run_execution) as Hone
    by (intros e He; by apply list_elem_of_singleton in He).
  split.
  - by repeat constructor; set_solver.
  - done.
  - intros e ->%Hone. done.
  - intros t t' j s Htt H1' H2'. exists run_execution. split; [left|].
    unfold run_holds in *. apply negb_false_iff in H2'.
    rewrite !andb_true_iff, bool_decide_eq_true, !Z.leb_le, Z.ltb_lt in H2'.
    destruct H2' as [[[-> H3'] H4'] H5']. split; [done|]. split; [done|]. split; [|done].
    apply Z.nle_gt. intros Hle. apply negb_true_iff in H1'.
    rewrite bool_decide_true in H1' by done. simpl in H1'.
    destruct (Z.leb_spec 256 s), (Z.ltb_spec s 512), (Z.leb_spec 15000000 t); simpl in H1';
      try done; simpl in Hle; lia.
  - intros e ->%Hone. done.
  - intros e ->%Hone. done.
  - intros e ->%Hone. done.
  - intros e ->%Hone. split; [done|]. intros s Hs. cbn [ex_cov run_execution].
    rewrite lookup_replicate_2 by lia. reflexivity.
  - intros e ->%Hone. split; [apply (bool_decide_eq_true_1 _); vm_compute; done|].
    intros e' ->%Hone _. eexists. split; [left|done].
  - intros e ->%Hone. vm_compute. done.
Qed.

Lemma patient_shrinks_safe_witness :
  Z.min 1 (copies run_agents run_holds 0 300) <= copies run_agents run_holds 20000000 300.
Proof. apply (patient_shrinks_safe _ _ (from_millis 10000) 1 [run_execution]); [apply run_polite|lia..]. Defined.

(** ** The default rule, when all act at once *)

(** A shrink about to be carried out: who gives up what, on which coverage and
    with which announcements in view. *)
Record proposal : Type := MkProposal {
  pr_agent : AgentId;
  pr_vacate : range;
  pr_cov : Cov;
  pr_live : Live;
}.

(** The proposals that give up the sector. *)
Definition leaving (s : Z) (ps : list proposal) : list proposal :=
  filter (fun p => in_range s (pr_vacate p)) ps.

(** All agents see the same coverage [total], each without itself, and the
    announcements of the lower ids. *)
Record lockstep (target : Z) (total : Z -> Z) (ps : list proposal) : Prop := {
  ls_ids : NoDup (map pr_agent ps);
  ls_range p : p ∈ ps -> range_ok (pr_vacate p) /\ (pr_vacate p).1 < (pr_vacate p).2;
  ls_cov p : p ∈ ps -> cov_ok (pr_cov p) /\ Forall (fun c => 0 <= c) (pr_cov p) /\
    forall s, in_range s (pr_vacate p) -> pr_cov p !! Z.to_nat s = Some (total s - 1);
  ls_live p : p ∈ ps -> live_ok (pr_live p) /\
    forall q, q ∈ ps -> id_lt (pr_agent q) (pr_agent p) = true ->
      exists i, (pr_agent q, i) ∈ pr_live p /\ vacate i = pr_vacate q;
  ls_check p : p ∈ ps ->
    shrink_recheck (pr_cov p) (pr_live p) (pr_agent p) (pr_vacate p) target = Ok true;
}.

Lemma highest_proposal ps : ps <> [] -> exists p, p ∈ ps /\
  forall q, q ∈ ps -> pr_agent q = pr_agent p \/ id_lt (pr_agent q) (pr_agent p) = true.
Proof.
  induction ps as [|x ps IH]; [done|]. intros _. destruct ps as [|y ps].
  { exists x. split; [left|]. intros q ->%list_elem_of_singleton. by left. }
  destruct IH as (p & Hp & Hmax); [done|].
  destruct (id_lt_total (pr_agent x) (pr_agent p)) as [Hlt|[Heq|Hgt]].
  - exists p. split; [by right|]. intros q [->|Hq]%elem_of_cons; [by right|by apply Hmax].
  - exists p. split; [by right|]. intros q [->|Hq]%elem_of_cons; [by left|by apply Hmax].
  - exists x. split; [left|]. intros q [->|Hq]%elem_of_cons; [by left|]. right.
    destruct (Hmax q Hq) as [->|Hlt]; [done|]. by apply (id_lt_trans _ (pr_agent p)).
Qed.

Lemma NoDup_map_filter ps s : NoDup (map pr_agent ps) -> NoDup (map pr_agent (leaving s ps)).
Proof.
  unfold leaving. induction ps as [|x ps IH]; [done|]. simpl. intros [Hx Hnd]%NoDup_cons.
  rewrite filter_cons. case_decide; [|by apply IH]. simpl. apply NoDup_cons. split; [|by apply IH].
  intros Hin. apply Hx. apply list_elem_of_fmap in Hin as (q & -> & Hq).
  apply list_elem_of_filter in Hq as [_ Hq]. by apply list_elem_of_fmap_2.
Qed.

(** Under the default rule agents that announced and re-check on the same
    view can all leave at once: when every proposal that passes is carried out
    together, each sector given up keeps the target redundancy. *)
Theorem simultaneous_shrinks_safe target total ps s : 0 < target ->
  lockstep target total ps -> leaving s ps <> [] ->
  target <= total s - Z.of_nat (length (leaving s ps)).
Proof.
  intros Ht L Hne. destruct (highest_proposal _ Hne) as (p & Hp & Hmax).
  apply list_elem_of_filter in Hp as Hp'. destruct Hp' as [Hs Hin].
  destruct (ls_range _ _ _ L p Hin) as [Hr Hlt]. destruct (ls_cov _ _ _ L p Hin) as (Hok & Hpos & Hc).
  destruct (ls_live _ _ _ L p Hin) as [Hl Hseen].
  destruct (subtract_min_spec (fun id _ => id_lt id (pr_agent p)) (pr_cov p) (pr_live p)
    (pr_vacate p) target Hok Hpos Hl Hr Hlt Ht) as (m & Em & Hm).
  pose proof (ls_check _ _ _ L p Hin) as Hchk. unfold shrink_recheck in Hchk.
  rewrite Em in Hchk. injection Hchk as Hle%Z.leb_le.
  pose proof (proj1 Hm Hle s _ Hs (Hc s Hs)) as Hcount.
  set (gone := gone_over _ _ _) in Hcount.
  assert (length (leaving s ps) <= S (length gone))%nat as Hlen; [|lia].
  rewrite <- (length_map pr_agent (leaving s ps)), <- (length_map fst gone).
  change (S (length (map fst gone))) with (length (pr_agent p :: map fst gone)).
  apply NoDup_length_le; [apply NoDup_map_filter, L|].
  intros j (q & -> & Hq)%list_elem_of_fmap. destruct (Hmax q Hq) as [->|Hlow]; [left|right].
  apply list_elem_of_filter in Hq as [Hsq Hq].
  destruct (Hseen q Hq Hlow) as (i & Hi & Hv). apply list_elem_of_fmap.
  exists (pr_agent q, i). split; [done|]. apply list_elem_of_filter. split; [|done].
  cbn [fst snd]. by rewrite Hv.
Qed.

(** Three holders of the ring and a target of one: the lowest two leave the
    upper half together. *)
Definition two_leave : list proposal :=
  [MkProposal [1] (256, 512) (replicate 512 2) [];
   MkProposal [2] (256, 512) (replicate 512 2) [([1], MkShrinkIntent (256, 512) 100 None)]].

Lemma two_leave_cases p : p ∈ two_leave ->
  p = MkProposal [1] (256, 512) (replicate 512 2) [] \/
  p = MkProposal [2] (256, 512) (replicate 512 2) [([1], MkShrinkIntent (256, 512) 100 None)].
Proof. intros [->|[->|Hp%elem_of_nil]%elem_of_cons]%elem_of_cons; tauto. Qed.

Lemma simultaneous_shrinks_safe_witness :
  1 <= 3 - Z.of_nat (length (leaving 300 two_leave)).
Proof.
  apply (simultaneous_shrinks_safe 1 (fun _ => 3) two_leave 300); [lia| |vm_compute; done].
  split.
  - apply (bool_decide_eq_true_1 _). vm_compute. done.
  - by intros p [->| ->]%two_leave_cases.
  - intros p [->| ->]%two_leave_cases; (split; [done|]; split; [by apply Forall_replicate|]); intros s Hs;
      unfold in_range in Hs; cbn [pr_cov pr_vacate fst snd] in *; by rewrite lookup_replicate_2 by lia.
  - intros p [->| ->]%two_leave_cases.
    + split; [by constructor|]. by intros q [->| ->]%two_leave_cases.
    + split; [apply (bool_decide_eq_true_1 _); vm_compute; done|].
      intros q [->| ->]%two_leave_cases; [|done]. intros _. eexists. split; [left|done].
  - intros p [->| ->]%two_leave_cases; vm_compute; done.
Defined.

(** ** What a re-check answers *)

(** The patient re-check on every branch: it proceeds exactly when every
    sector given up keeps the target with all racers gone; otherwise the agent
    with the lowest id among the racers waits for the others, and every other
    one, or an agent with no racer left, stands down. *)
Theorem patient_recheck_exact cov live own vacated target :
  cov_ok cov -> Forall (fun c => 0 <= c) cov -> live_ok live -> range_ok vacated ->
  vacated.1 < vacated.2 -> 0 < target ->
  let racer id i := (id, i) ∈ live /\ id <> own /\ exists s, in_range s (vacate i) /\ in_range s vacated in
  exists r, patient_recheck cov live own vacated target = Ok r /\
    (r = Proceed <-> forall s c, in_range s vacated -> cov !! Z.to_nat s = Some c ->
       target + Z.of_nat (length (gone_over (counts_as_gone own vacated) s live)) <= c) /\
    (r = Wait -> (exists id i, racer id i /\ id_lt own id = true) /\
       forall id i, racer id i -> id_lt id own = false) /\
    (r = StandDown -> (exists id i, racer id i /\ id_lt id own = true) \/
       forall id i, racer id i -> id_lt own id = false).
Proof.
  intros Hok Hpos Hl Hr Hlt Ht. cbv zeta.
  destruct (subtract_min_spec (counts_as_gone own vacated) cov live vacated target Hok Hpos Hl Hr Hlt Ht)
    as (m & Em & Hm).
  assert (forall id i, counts_as_gone own vacated id i = true <->
    id <> own /\ exists s, in_range s (vacate i) /\ in_range s vacated) as Hcnt.
  { intros id i. unfold counts_as_gone. rewrite negb_true_iff, orb_false_iff, bool_decide_eq_false,
      negb_false_iff, ranges_overlap_spec. done. }
  unfold patient_recheck. rewrite Em. simpl. eexists. split; [reflexivity|].
  destruct (Z.leb_spec target m) as [Hle|Hgt].
  { split; [|done]. split; [|done]. intros _. by apply Hm. }
  split. { split; [|intros Hall; apply Hm in Hall; lia]. by destruct (_ && _). }
  destruct (existsb _ live) eqn:Eh; simpl.
  - apply existsb_exists in Eh as ([id i] & Hin & Hb). apply list_elem_of_In in Hin.
    apply andb_true_iff in Hb as [Hb Hid]. apply Hcnt in Hb as [Hne Hov].
    destruct (lower_racer live own vacated) eqn:El; simpl; (split; [done || intros _|done || intros _]).
    + left. apply existsb_exists in El as ([id' i'] & Hin' & Hb'). apply list_elem_of_In in Hin'.
      apply andb_true_iff in Hb' as [Hlow Hov']. apply ranges_overlap_spec in Hov'. simpl in Hlow.
      exists id', i'. split; [|done]. split; [done|]. split; [|done].
      intros ->. by rewrite id_lt_irrefl in Hlow.
    + split; [by exists id, i|]. intros id' i' (Hin' & _ & Hov').
      destruct (id_lt id' own) eqn:E; [|done]. exfalso.
      assert (lower_racer live own vacated = true) as Hx; [|congruence].
      apply existsb_exists. exists (id', i'). split; [by apply list_elem_of_In|].
      apply andb_true_iff. split; [done|]. by apply ranges_overlap_spec.
  - split; [done|]. intros _. right. intros id i (Hin & Hne & Hov).
    destruct (id_lt own id) eqn:E; [|done]. exfalso.
    assert (existsb (fun ai => counts_as_gone own vacated ai.1 ai.2 && id_lt own ai.1) live = true)
      as Hx; [|congruence].
    apply existsb_exists. exists (id, i). split; [by apply list_elem_of_In|].
    apply andb_true_iff. split; [by apply Hcnt|done].
Qed.

Lemma patient_recheck_exact_witness :
  let live := [([2], MkShrinkIntent (256, 512) 100 None)] in
  let racer id i := (id, i) ∈ live /\ id <> [1] /\
    exists s, in_range s (vacate i) /\ in_range s (256, 512) in
  exists r, patient_recheck (replicate 512 1) live [1] (256, 512) 1 = Ok r /\
    (r = Proceed <-> forall s c, in_range s (256, 512) -> replicate 512 1 !! Z.to_nat s = Some c ->
       1 + Z.of_nat (length (gone_over (counts_as_gone [1] (256, 512)) s live)) <= c) /\
    (r = Wait -> (exists id i, racer id i /\ id_lt [1] id = true) /\
       forall id i, racer id i -> id_lt id [1] = false) /\
    (r = StandDown -> (exists id i, racer id i /\ id_lt id [1] = true) \/
       forall id i, racer id i -> id_lt [1] id = false).
Proof.
  apply (patient_recheck_exact (replicate 512 1) [([2], MkShrinkIntent (256, 512) 100 None)] [1]
    (256, 512) 1); [done|by apply Forall_replicate| | | |lia];
    apply (bool_decide_eq_true_1 _); vm_compute; done.
Defined.

(** An announced intent stays in force at peers for at least one wait after
    every re-check, the first and each one a waiting racer adds. *)
Theorem intent_outlives_recheck now expires next_check wait :
  ts_ok now -> ts_ok next_check -> 0 <= wait -> nanos_micros wait < 2 ^ 60 ->
  (intent_times now wait).2 = (intent_times now wait).1 + nanos_micros wait /\
  (intent_times now wait).1 = now + nanos_micros wait /\
  let expires' := default expires (refreshed_expiry expires next_check wait) in
  next_check + nanos_micros wait <= expires' /\ expires <= expires'.
Proof.
  intros Hn Hc Hw Hb. unfold ts_ok in *. assert (0 <= nanos_micros wait) by (apply Z.div_pos; lia).
  assert (forall t, 0 <= t < 2 ^ 62 + 2 ^ 60 -> ts_plus t wait = t + nanos_micros wait) as Hp
    by (intros t Ht; unfold ts_plus; apply ts_add_exact; lia).
  unfold intent_times, refreshed_expiry. cbn [fst snd].
  rewrite (Hp now), (Hp (now + _)), (Hp next_check), (Hp (next_check + _)) by lia.
  split; [done|]. split; [done|]. cbv zeta.
  destruct (Z.ltb_spec expires (next_check + nanos_micros wait)); simpl; lia.
Qed.

Lemma intent_outlives_recheck_witness :
  (intent_times 100 (from_millis 10000)).2
    = (intent_times 100 (from_millis 10000)).1 + nanos_micros (from_millis 10000) /\
  (intent_times 100 (from_millis 10000)).1 = 100 + nanos_micros (from_millis 10000) /\
  let expires' := default 500 (refreshed_expiry 500 (2 ^ 40) (from_millis 10000)) in
  2 ^ 40 + nanos_micros (from_millis 10000) <= expires' /\ 500 <= expires'.
Proof. apply intent_outlives_recheck; (apply (bool_decide_eq_true_1 _); vm_compute; done) || done. Defined.
