(* ===== verification/Controller.v ===== *)
(** The sharding controller (crates/gossip/src/sharding/controller.rs and
    config.rs): its state, and one tick over all local agents.

    A tick is one step: the peer store and the peer meta store do not change
    while it runs, and messages arrive between ticks. *)

From Stdlib Require Import SpecFloat.
From S2P Require Import Prelude Arc Timestamp Id ArcSet Agent Blocks Coverage Intents.
From S2P Require Import Recheck.

Record K2ShardingConfig : Type := MkConfig {
  target_redundancy : Z;
  clamp_min_peers : Z;
  check_interval_ms : Z;
  grow_persistence : f64;
  shrink_persistence : f64;
  intent_wait : f64;
  intent_min_wait_ms : Z;
  lag_floor_ms : Z;
  lag_ceiling_ms : Z;
  agentinfo_encoding : bool;
  patient_lowest : bool;
  withdraw_on_stand_down : bool;
  require_recent_contact : bool;
  announce_alongside : bool;
  coordinated_growth : bool;
  critical_repair : bool;
  pinned : bool;
  probe_sibling_holders : bool;
  probe_interval_ms : Z;
}.

Definition default_config : K2ShardingConfig := {|
  target_redundancy := 5;
  clamp_min_peers := 25;
  check_interval_ms := 5000;
  grow_persistence := f64_of_Z 1;
  shrink_persistence := f64_of_Z 4;
  intent_wait := f64_ratio 5 2;
  intent_min_wait_ms := 10000;
  lag_floor_ms := 1000;
  lag_ceiling_ms := 300000;
  agentinfo_encoding := false;
  patient_lowest := true;
  withdraw_on_stand_down := true;
  require_recent_contact := true;
  announce_alongside := true;
  coordinated_growth := false;
  critical_repair := true;
  pinned := false;
  probe_sibling_holders := true;
  probe_interval_ms := 10000;
|}.

Definition check_interval (cfg : K2ShardingConfig) : Nanos := from_millis (check_interval_ms cfg).

Record PendingShrink : Type := MkPendingShrink {
  pend_execute_at : Timestamp;
  pend_vacate : range;
  pend_expires_at : Timestamp;
  pend_wait : Nanos;
}.

Record AgentControl : Type := MkAgentControl {
  home : Z;
  declared_level : Z;
  target_level : Z;
  grow_acc : Nanos;
  shrink_acc : Nanos;
  pending : option PendingShrink;
  pending_grow : option PendingShrink;
}.

(** What leaves the node: an announcement or probe to peers, and an agent's
    callback, which signs and publishes its new arc. *)
Inductive Event : Type :=
  | SendIntent (to : list Url) (msg : K2ShardingShrinkIntentMessage)
  | SendProbe (to : list Url)
  | InvokeCb (agent : AgentId).

(** The state of the module, the local agents, and what was sent, oldest
    first. *)
Record Node : Type := MkNode {
  intents : IntentTable.t;
  grow_intents : IntentTable.t;
  states : gmap AgentId AgentControl;
  last_gone : gset AgentId;
  contact : gmap Url (Z * option Timestamp);
  last_probe : gmap Url Timestamp;
  local_agents : list LocalAgent;
  sent : list Event;
}.

(** What the node sees of the rest during a tick: the answers of the peer store
    and the peer meta store, and whether the transport is still there.  A
    failed query of the meta store reads as no answer. *)
Record World : Type := MkWorld {
  w_now : Timestamp;
  w_peers : res (list AgentInfoSigned);
  w_unresponsive : Url -> option Timestamp;
  w_completed_rounds : Url -> option Z;
  w_last_gossip : Url -> option Timestamp;
  w_transport : bool;
}.

(** ** Updates of the records *)

Definition set_intents (t : IntentTable.t) (n : Node) : Node :=
  MkNode t (grow_intents n) (states n) (last_gone n) (contact n) (last_probe n)
    (local_agents n) (sent n).
Definition set_grow_intents (t : IntentTable.t) (n : Node) : Node :=
  MkNode (intents n) t (states n) (last_gone n) (contact n) (last_probe n)
    (local_agents n) (sent n).
Definition set_states (m : gmap AgentId AgentControl) (n : Node) : Node :=
  MkNode (intents n) (grow_intents n) m (last_gone n) (contact n) (last_probe n)
    (local_agents n) (sent n).
Definition set_last_gone (g : gset AgentId) (n : Node) : Node :=
  MkNode (intents n) (grow_intents n) (states n) g (contact n) (last_probe n)
    (local_agents n) (sent n).
Definition set_contact (c : gmap Url (Z * option Timestamp)) (n : Node) : Node :=
  MkNode (intents n) (grow_intents n) (states n) (last_gone n) c (last_probe n)
    (local_agents n) (sent n).
Definition set_last_probe (p : gmap Url Timestamp) (n : Node) : Node :=
  MkNode (intents n) (grow_intents n) (states n) (last_gone n) (contact n) p
    (local_agents n) (sent n).
Definition set_local_agents (l : list LocalAgent) (n : Node) : Node :=
  MkNode (intents n) (grow_intents n) (states n) (last_gone n) (contact n) (last_probe n)
    l (sent n).
Definition push_event (e : Event) (n : Node) : Node :=
  MkNode (intents n) (grow_intents n) (states n) (last_gone n) (contact n) (last_probe n)
    (local_agents n) (sent n ++ [e]).

Definition set_declared (l : Z) (c : AgentControl) : AgentControl :=
  MkAgentControl (home c) l (target_level c) (grow_acc c) (shrink_acc c) (pending c) (pending_grow c).
Definition set_target (l : Z) (c : AgentControl) : AgentControl :=
  MkAgentControl (home c) (declared_level c) l (grow_acc c) (shrink_acc c) (pending c) (pending_grow c).
Definition set_grow_acc (d : Nanos) (c : AgentControl) : AgentControl :=
  MkAgentControl (home c) (declared_level c) (target_level c) d (shrink_acc c) (pending c) (pending_grow c).
Definition set_shrink_acc (d : Nanos) (c : AgentControl) : AgentControl :=
  MkAgentControl (home c) (declared_level c) (target_level c) (grow_acc c) d (pending c) (pending_grow c).
Definition set_pending (p : option PendingShrink) (c : AgentControl) : AgentControl :=
  MkAgentControl (home c) (declared_level c) (target_level c) (grow_acc c) (shrink_acc c) p (pending_grow c).
Definition set_pending_grow (p : option PendingShrink) (c : AgentControl) : AgentControl :=
  MkAgentControl (home c) (declared_level c) (target_level c) (grow_acc c) (shrink_acc c) (pending c) p.

(** ** Calls on shared objects *)

(** One agent's method: its control record and the node. *)
Definition T : Type := M (AgentControl * Node) unit.

Definition on_ctl (f : AgentControl -> AgentControl) : T := on_fst (modify f).
Definition on_node (f : Node -> Node) : T := on_snd (modify f).

Definition map_agent (agent : AgentId) (f : LocalAgent -> LocalAgent) (l : list LocalAgent)
  : list LocalAgent :=
  map (fun a => if bool_decide (la_agent a = agent) then f a else a) l.

Definition set_tgt_storage_arc_hint (agent : AgentId) (arc : DhtArc) (n : Node) : Node :=
  set_local_agents (map_agent agent (fun a => MkLocalAgent (la_agent a) (cur_storage_arc a) arc)
    (local_agents n)) n.
Definition set_cur_storage_arc (agent : AgentId) (arc : DhtArc) (n : Node) : Node :=
  set_local_agents (map_agent agent (fun a => MkLocalAgent (la_agent a) arc (tgt_storage_arc a))
    (local_agents n)) n.
Definition invoke_cb (agent : AgentId) (n : Node) : Node := push_event (InvokeCb agent) n.

(** The arc the agent declares. *)
Definition get_cur_storage_arc (agent : AgentId) (n : Node) : DhtArc :=
  match List.find (fun a => bool_decide (la_agent a = agent)) (local_agents n) with
  | Some a => cur_storage_arc a
  | None => Empty
  end.

(** Publish an arc as target and current arc. *)
Definition publish_arc (agent : AgentId) (arc : DhtArc) (n : Node) : Node :=
  invoke_cb agent (set_cur_storage_arc agent arc (set_tgt_storage_arc_hint agent arc n)).

Definition intents_insert (agent : AgentId) (i : ShrinkIntent) (n : Node) : Node :=
  set_intents (IntentTable.insert (intents n) agent i) n.
Definition intents_remove (agent : AgentId) (n : Node) : Node :=
  set_intents (IntentTable.remove (intents n) agent) n.
Definition grow_intents_insert (agent : AgentId) (i : ShrinkIntent) (n : Node) : Node :=
  set_grow_intents (IntentTable.insert (grow_intents n) agent i) n.
Definition grow_intents_remove (agent : AgentId) (n : Node) : Node :=
  set_grow_intents (IntentTable.remove (grow_intents n) agent) n.

Section controller.
Context `{Location}.
Variable cfg : K2ShardingConfig.
Variable w : World.

Definition own_ids_of (n : Node) : gset AgentId := list_to_set (map la_agent (local_agents n)).

(** ** Messages *)

(** The peers a message goes to. *)
Definition broadcast_targets (peers : list AgentInfoSigned) (own_ids : gset AgentId) : list Url :=
  omap (fun peer : AgentInfoSigned =>
    if ai_is_tombstone peer || bool_decide (ai_agent peer ∈ own_ids) then None
    else match ai_url peer with
         | None => None
         | Some url => match w_unresponsive w url with Some _ => None | None => Some url end
         end) peers.

Definition broadcast (msg : K2ShardingShrinkIntentMessage) (n : Node) : Node :=
  if negb (w_transport w) then n
  else match w_peers w with
  | Ok peers => push_event (SendIntent (broadcast_targets peers (own_ids_of n)) msg) n
  | _ => n
  end.

Definition send_intent (agent : AgentId) (vacated : Z * Z) (expires : Timestamp)
  (withdrawn grow : bool) (n : Node) : Node :=
  broadcast (MkShrinkIntentMessage agent vacated.1 vacated.2 (as_micros expires) withdrawn grow) n.

Definition publish_intent (agent : AgentId) (vacated : range) (expires : Timestamp) (n : Node)
  : Node :=
  match sectors_to_arc vacated.1 vacated.2 with
  | Arc vacate_start vacate_end =>
      send_intent agent (vacate_start, vacate_end) expires false false
        (intents_insert agent (MkShrinkIntent vacated expires None) n)
  | Empty => n
  end.

Definition withdraw_intent (agent : AgentId) (vacated : range) (expires : Timestamp) (n : Node)
  : Node :=
  match sectors_to_arc vacated.1 vacated.2 with
  | Arc vacate_start vacate_end =>
      send_intent agent (vacate_start, vacate_end) expires true false n
  | Empty => n
  end.

(** ** Growing *)

Definition start_grow (agent : AgentId) : T :=
  on_ctl (fun c => set_target (wrap_u8 (declared_level c + 1)) c) ;;*
  on_ctl (set_grow_acc 0) ;;*
  on_ctl (set_shrink_acc 0) ;;*
  on_ctl (set_pending None) ;;*
  on_ctl (set_pending_grow None) ;;*
  on_node (intents_remove agent) ;;*
  on_node (grow_intents_remove agent) ;;*
  let* st := get in
  on_node (set_tgt_storage_arc_hint agent (block_arc (home st.1) (target_level st.1))).

Definition wait_for (lag : Nanos) : res Nanos :=
  let? wait := mul_f64 lag (intent_wait cfg) in
  Ok (Z.max wait (from_millis (intent_min_wait_ms cfg))).

Definition grow (agent : AgentId) (cov : Cov) (live_intents : Live) (lag : Nanos)
  (now : Timestamp) : T :=
  if negb (coordinated_growth cfg) then start_grow agent
  else
    let* st := get in
    let r := sibling_half (home st.1) (declared_level st.1) in
    let* critical :=
      if critical_repair cfg then lift_res (is_critical (grow_view cov live_intents agent) r)
      else ret false in
    if critical : bool then start_grow agent
    else
      let* wait := lift_res (wait_for lag) in
      let '(execute_at, expires) := intent_times now wait in
      match sectors_to_arc r.1 r.2 with
      | Empty => start_grow agent
      | Arc start end_ =>
          on_ctl (set_pending_grow (Some (MkPendingShrink execute_at r expires wait))) ;;*
          on_ctl (set_grow_acc 0) ;;*
          on_node (grow_intents_insert agent (MkShrinkIntent r expires None)) ;;*
          on_node (send_intent agent (start, end_) expires false true)
      end.

Definition execute_grow (agent : AgentId) (cov : Cov) (live_intents live_grows : Live) : T :=
  let* st := get in
  match pending_grow st.1 with
  | None => ret tt
  | Some p =>
      on_ctl (set_pending_grow None) ;;*
      on_node (grow_intents_remove agent) ;;*
      let r := pend_vacate p in
      let* short := lift_res
        (grow_recheck cov live_intents live_grows agent r (target_redundancy cfg)) in
      if short : bool then start_grow agent
      else
        on_ctl (set_grow_acc 0) ;;*
        match sectors_to_arc r.1 r.2 with
        | Arc start end_ =>
            on_node (send_intent agent (start, end_) (pend_expires_at p) true true)
        | Empty => ret tt
        end
  end.

(** ** Shrinking *)

Definition announce_shrink (agent : AgentId) (lag : Nanos) (now : Timestamp) : T :=
  let* wait := lift_res (wait_for lag) in
  let '(execute_at, expires) := intent_times now wait in
  let* st := get in
  let vacated := vacate_half (home st.1) (declared_level st.1) in
  match sectors_to_arc vacated.1 vacated.2 with
  | Empty => ret tt
  | Arc _ _ =>
      on_ctl (set_pending (Some (MkPendingShrink execute_at vacated expires wait))) ;;*
      if agentinfo_encoding cfg then
        let arc := block_arc (home st.1) (wrap_u8 (declared_level st.1 - 1)) in
        on_node (publish_arc agent arc)
      else on_node (publish_intent agent vacated expires)
  end.

Definition patient : bool := patient_lowest cfg && negb (agentinfo_encoding cfg).

(** The lowest racer keeps its intent up and looks again next interval. *)
Definition keep_waiting (agent : AgentId) (p : PendingShrink) (now : Timestamp) : T :=
  let execute_at := ts_plus now (check_interval cfg) in
  match refreshed_expiry (pend_expires_at p) execute_at (pend_wait p) with
  | Some expires =>
      on_node (publish_intent agent (pend_vacate p) expires) ;;*
      on_ctl (set_pending (Some (MkPendingShrink execute_at (pend_vacate p) expires (pend_wait p))))
  | None =>
      on_ctl (set_pending
        (Some (MkPendingShrink execute_at (pend_vacate p) (pend_expires_at p) (pend_wait p))))
  end.

(** What follows a re-check that did not wait. *)
Definition conclude_shrink (agent : AgentId) (p : PendingShrink) (proceed : bool) : T :=
  on_node (intents_remove agent) ;;*
  if proceed then
    on_ctl (fun c => set_declared (wrap_u8 (declared_level c - 1)) c) ;;*
    on_ctl (fun c => set_target (declared_level c) c) ;;*
    on_ctl (set_grow_acc 0) ;;*
    on_ctl (set_shrink_acc 0) ;;*
    let* st := get in
    let arc := block_arc (home st.1) (declared_level st.1) in
    if agentinfo_encoding cfg then ret tt else on_node (publish_arc agent arc)
  else
    on_ctl (set_shrink_acc 0) ;;*
    (if withdraw_on_stand_down cfg && negb (agentinfo_encoding cfg)
     then on_node (withdraw_intent agent (pend_vacate p) (pend_expires_at p)) else ret tt) ;;*
    let* st := get in
    if agentinfo_encoding cfg
    then on_node (publish_arc agent (block_arc (home st.1) (declared_level st.1)))
    else ret tt.

Definition execute_intent (agent : AgentId) (cov : Cov) (live_intents : Live) (now : Timestamp)
  : T :=
  let* st := get in
  match pending st.1 with
  | None => ret tt
  | Some p =>
      on_ctl (set_pending None) ;;*
      let r := target_redundancy cfg in
      if patient then
        let* outcome := lift_res (patient_recheck cov live_intents agent (pend_vacate p) r) in
        match outcome with
        | Proceed => conclude_shrink agent p true
        | StandDown => conclude_shrink agent p false
        | Wait => keep_waiting agent p now
        end
      else
        let* proceed := lift_res (shrink_recheck cov live_intents agent (pend_vacate p) r) in
        conclude_shrink agent p proceed
  end.

(** ** The decision rules for one agent *)

(** Hold the full arc: one level up while it is not reached. *)
Definition hold_full (agent : AgentId) : T :=
  let* st := get in
  if declared_level st.1 <? MAX_LEVEL then start_grow agent else ret tt.

(** Whether the sibling half would be under-covered, announced vacates counted
    as gone. *)
Definition grow_condition (agent : AgentId) (ctl : AgentControl) (grow_cov : Cov)
  (live_intents : Live) : res bool :=
  if declared_level ctl <? MAX_LEVEL then
    let eff := grow_view grow_cov live_intents agent in
    let r := sibling_half (home ctl) (declared_level ctl) in
    let? m := min_over eff r.1 r.2 in
    let? _ := min_over grow_cov r.1 r.2 in
    Ok (m <? target_redundancy cfg)
  else Ok false.

(** Whether the half to drop stays above the target without this agent. *)
Definition shrink_condition (ctl : AgentControl) (shrink_cov : Cov) : res bool :=
  if 0 <? declared_level ctl then
    let r := vacate_half (home ctl) (declared_level ctl) in
    let? m := min_over shrink_cov r.1 r.2 in
    Ok (target_redundancy cfg <? m)
  else Ok false.

(** A lower id races this agent for the half, and there is no room for both. *)
Definition yields (agent : AgentId) (ctl : AgentControl) (shrink_cov : Cov) (live_intents : Live)
  : res bool :=
  if patient then
    let r := vacate_half (home ctl) (declared_level ctl) in
    if lower_racer live_intents agent r then
      if announce_alongside cfg then
        let? room := room_alongside shrink_cov live_intents agent r (target_redundancy cfg) in
        Ok (negb room)
      else Ok true
    else Ok false
  else Ok false.

(** The decision once the arc held is the one aimed for. *)
Definition decide_arc (agent : AgentId) (shrink_cov grow_cov : Cov) (live_intents : Live)
  (lag : Nanos) (now : Timestamp) (elapsed : Nanos) : T :=
  let* st := get in
  let* grow_cond := lift_res (grow_condition agent st.1 grow_cov live_intents) in
  let* shrink_cond := lift_res (shrink_condition st.1 shrink_cov) in
  on_ctl (fun c => set_grow_acc (if grow_cond then grow_acc c + elapsed else 0) c) ;;*
  on_ctl (fun c => set_shrink_acc (if shrink_cond then shrink_acc c + elapsed else 0) c) ;;*
  let* grow_need := lift_res (mul_f64 lag (grow_persistence cfg)) in
  let* shrink_need := lift_res (mul_f64 lag (shrink_persistence cfg)) in
  let* st := get in
  if grow_cond && (grow_need <=? grow_acc st.1) then
    grow agent grow_cov live_intents lag now
  else if shrink_cond && (shrink_need <=? shrink_acc st.1) then
    let* waits := lift_res (yields agent st.1 shrink_cov live_intents) in
    if waits : bool then ret tt else announce_shrink agent lag now
  else ret tt.

Definition tick_agent (agent : AgentId) (shrink_cov grow_cov : Cov) (live_intents live_grows : Live)
  (visible_peers : Z) (lag : Nanos) (now : Timestamp) (elapsed : Nanos) : T :=
  let* st := get in
  match pending st.1, pending_grow st.1 with
  | Some p, _ =>
      if pend_execute_at p <=? now then execute_intent agent shrink_cov live_intents now else ret tt
  | None, Some p =>
      if pend_execute_at p <=? now then execute_grow agent grow_cov live_intents live_grows
      else ret tt
  | None, None =>
      if negb (bool_decide (get_cur_storage_arc agent st.2
                            = block_arc (home st.1) (target_level st.1))) then ret tt
      else
        on_ctl (fun c => set_declared (target_level c) c) ;;*
        if pinned cfg then hold_full agent
        else if wrap_u32 visible_peers <? clamp_min_peers cfg then hold_full agent
        else decide_arc agent shrink_cov grow_cov live_intents lag now elapsed
  end.

(** ** What a tick computes from the stores *)

(** Local agents, and the peers marked unresponsive. *)
Definition gone_peers (peers : list AgentInfoSigned) (own_ids : gset AgentId) : gset AgentId :=
  foldl (fun gone (peer : AgentInfoSigned) =>
    if ai_is_tombstone peer || bool_decide (ai_agent peer ∈ gone) then gone
    else match ai_url peer with
         | None => gone
         | Some url =>
             match w_unresponsive w url with
             | Some _ => {[ ai_agent peer ]} ∪ gone
             | None => gone
             end
         end) own_ids peers.

(** A later entry for the same agent replaces an earlier one. *)
Definition declared_arcs (peers : list AgentInfoSigned) : Declared :=
  foldl (fun m (peer : AgentInfoSigned) =>
    if ai_is_tombstone peer then m
    else <[ ai_agent peer := (ai_storage_arc peer, ai_url peer) ]> m) ∅ peers.

(** The URLs of the peers that are not gone, with the agent. *)
Definition present_peers (peers : list AgentInfoSigned) (gone : gset AgentId)
  : list (AgentId * Url) :=
  omap (fun peer : AgentInfoSigned =>
    if ai_is_tombstone peer || bool_decide (ai_agent peer ∈ gone) then None
    else match ai_url peer with None => None | Some url => Some (ai_agent peer, url) end) peers.

Definition lag_estimate (peers : list AgentInfoSigned) (exclude : gset AgentId) (now : Timestamp)
  : res Nanos :=
  let floor := from_millis (lag_floor_ms cfg) in
  let ceiling := from_millis (lag_ceiling_ms cfg) in
  let staleness := omap (fun au : AgentId * Url =>
    match w_last_gossip w au.2 with Some ts => Some (age now ts) | None => None end)
    (present_peers peers exclude) in
  match staleness with
  | [] => Ok ceiling
  | _ =>
      let sorted := merge_sort Z.le staleness in
      let len := Z.of_nat (length sorted) in
      let idx := Z.min (len * 9 / 10) (len - 1) in
      match sorted !! Z.to_nat idx with
      | None => Panic "index out of bounds"
      | Some d =>
          if ceiling <? floor then Panic "assertion failed: min <= max"
          else Ok (Z.min (Z.max d floor) ceiling)
      end
  end.

(** The peers not heard from within the current wait, and the record of
    contacts. *)
Definition silent_step (lease : Nanos) (now : Timestamp)
  (acc : gmap Url (Z * option Timestamp) * gset AgentId) (au : AgentId * Url)
  : gmap Url (Z * option Timestamp) * gset AgentId :=
  let '(contacts, silent) := acc in
  let '(agent, url) := au in
  let n := default 0 (w_completed_rounds w url) in
  let entry := default (n, None) (contacts !! url) in
  let entry := if entry.1 <? n then (n, Some now) else entry in
  let fresh := match entry.2 with Some heard => age now heard <? lease | None => false end in
  (<[ url := entry ]> contacts, if fresh : bool then silent else {[ agent ]} ∪ silent).

Definition silent_peers (peers : list AgentInfoSigned) (gone : gset AgentId) (lag : Nanos)
  (now : Timestamp) : M Node (gset AgentId) :=
  let* lease := lift_res (wait_for lag) in
  let* n := get in
  let '(contacts, silent) :=
    foldl (silent_step lease now) (contact n, ∅) (present_peers peers gone) in
  modify (set_contact contacts) ;;*
  ret silent.

Definition holds_any (arc : DhtArc) (halves : list range) : bool :=
  existsb (fun r => existsb (covers_sector arc) (zrange r.1 r.2)) halves.

Definition probe_step (halves : list range) (gone : gset AgentId) (now : Timestamp)
  (acc : gmap Url Timestamp * list Url) (peer : AgentInfoSigned) : gmap Url Timestamp * list Url :=
  let '(last, due) := acc in
  if ai_is_tombstone peer || bool_decide (ai_agent peer ∈ gone) then (last, due)
  else match ai_url peer with
  | None => (last, due)
  | Some url =>
      if negb (holds_any (ai_storage_arc peer) halves) then (last, due)
      else if negb (probe_due (last !! url) now (from_millis (probe_interval_ms cfg)))
      then (last, due)
      else (<[ url := now ]> last, due ++ [url])
  end.

Definition probe_holders (peers : list AgentInfoSigned) (gone : gset AgentId)
  (halves : list range) (now : Timestamp) (n : Node) : Node :=
  if bool_decide (halves = []) || negb (w_transport w) then n
  else
    let '(last, due) := foldl (probe_step halves gone now) (last_probe n, []) peers in
    let n := set_last_probe last n in
    if bool_decide (due = []) then n else push_event (SendProbe due) n.

(** ** One tick *)

(** A pending shrink cancelled because a peer was lost. *)
Definition cancel_pending (n : Node) (kv : AgentId * AgentControl) : Node :=
  let '(agent, ctl) := kv in
  match pending ctl with
  | None => n
  | Some _ =>
      let n := set_states (<[ agent := set_shrink_acc 0 (set_pending None ctl) ]> (states n)) n in
      let n := intents_remove agent n in
      if agentinfo_encoding cfg
         && existsb (fun a => bool_decide (la_agent a = agent)) (local_agents n)
      then publish_arc agent (block_arc (home ctl) (declared_level ctl)) n
      else n
  end.

(** A peer, other than a local agent, is newly gone. *)
Definition newly_gone (gone own_ids : gset AgentId) (n : Node) : bool :=
  negb (bool_decide ((gone ∖ last_gone n) ∖ own_ids = ∅)).

Definition storm_brake (gone own_ids : gset AgentId) (n : Node) : Node :=
  let brake := newly_gone gone own_ids n in
  let n := set_last_gone gone n in
  if brake then foldl cancel_pending n (map_to_list (states n)) else n.

(** A new agent starts at the full arc. *)
Definition fresh_control (agent : AgentId) : AgentControl :=
  MkAgentControl (home_sector (loc agent)) MAX_LEVEL MAX_LEVEL 0 0 None None.

(** The coverage an agent sees: that of the peers and of its siblings. *)
Definition sibling_coverage (agent : AgentId) (base : Cov) (n : Node) : Cov :=
  foldl (fun cov other =>
    if bool_decide (la_agent other = agent) then cov
    else add_cur_arc cov (cur_storage_arc other)) base (local_agents n).

(** One agent's part of the tick. *)
Definition tick_one (shrink_base grow_base : Cov) (live_intents live_grows : Live)
  (visible_peers : Z) (lag : Nanos) (now : Timestamp) (elapsed : Nanos) (agent : AgentId)
  : M Node unit := fun n =>
  let shrink_cov := sibling_coverage agent shrink_base n in
  let grow_cov := sibling_coverage agent grow_base n in
  let '(ctl, n) := match states n !! agent with
    | Some ctl => (ctl, n)
    | None => (fresh_control agent, set_tgt_storage_arc_hint agent FULL n)
    end in
  let '(r, (ctl, n)) := tick_agent agent shrink_cov grow_cov live_intents live_grows
    visible_peers lag now elapsed (ctl, n) in
  (r, set_states (<[ agent := ctl ]> (states n)) n).

(** Agents that left the space are forgotten. *)
Definition forget_agents (own_ids : gset AgentId) (n : Node) : Node :=
  set_states (filter (fun kv => kv.1 ∈ own_ids) (states n)) n.

Definition probe_halves (n : Node) : list range :=
  map (fun kv => sibling_half (home kv.2) (declared_level kv.2))
    (List.filter (fun kv => declared_level kv.2 <? MAX_LEVEL) (map_to_list (states n))).

Definition visible_count (peers : list AgentInfoSigned) (gone : gset AgentId) (n : Node) : Z :=
  Z.of_nat (length (List.filter (fun p : AgentInfoSigned =>
      negb (ai_is_tombstone p) && negb (bool_decide (ai_agent p ∈ gone))) peers)
    + length (local_agents n)).

Definition check (elapsed : Nanos) : M Node unit :=
  let* n := get in
  if bool_decide (local_agents n = []) then ret tt
  else
    let* peers := lift_res (w_peers w) in
    let now := w_now w in
    let '(live_intents, table) := IntentTable.live (intents n) now in
    modify (set_intents table) ;;*
    let '(live_grows, table) := IntentTable.live (grow_intents n) now in
    modify (set_grow_intents table) ;;*
    let own_ids := own_ids_of n in
    let gone := gone_peers peers own_ids in
    let base_cov := others_coverage peers gone in
    let visible_peers := visible_count peers gone n in
    let declared := declared_arcs peers in
    let live_intents := retain_declared live_intents declared own_ids in
    let live_grows := retain_growers live_grows declared own_ids in
    let* lag := lift_res (lag_estimate peers gone now) in
    let* shrink_base_cov :=
      if require_recent_contact cfg then
        let* silent := silent_peers peers gone lag now in
        ret (others_coverage peers (gone ∪ silent))
      else ret base_cov in
    modify (storm_brake gone own_ids) ;;*
    for_each (map la_agent (local_agents n))
      (tick_one shrink_base_cov base_cov live_intents live_grows visible_peers lag now elapsed) ;;*
    modify (forget_agents own_ids) ;;*
    if probe_sibling_holders cfg then
      let* n := get in
      modify (probe_holders peers gone (probe_halves n) now)
    else ret tt.
End controller.

(** A message from a peer on the module's channel. *)
Definition recv_shrink_intent (now : Timestamp) (peer : Url) (m : K2ShardingShrinkIntentMessage)
  (n : Node) : Node :=
  let '(i, g) := receive_intent now (intents n) (grow_intents n) peer m in
  set_grow_intents g (set_intents i n).
