(* ===== verification/ControllerStep.v ===== *)
(** One agent's tick: it never fails, keeps its control record consistent, and
    changes the agent's arc only as the rules say. *)

From Stdlib Require Import SpecFloat.
From S2P Require Import Prelude Arc Timestamp Id ArcSet Agent Blocks Coverage Intents.
From S2P Require Import Recheck ShrinkSafety Controller.

(** ** Total correctness of a stateful computation *)

Definition wp {S A} (m : M S A) (Q : A -> S -> Prop) (s : S) : Prop :=
  match m s with (Ok a, s') => Q a s' | _ => False end.

Lemma wp_ret {S A} (a : A) Q (s : S) : Q a s -> wp (ret a) Q s.
Proof. done. Qed.
Lemma wp_get {S} Q (s : S) : Q s s -> wp get Q s.
Proof. done. Qed.
Lemma wp_bind {S A B} (m : M S A) (k : A -> M S B) Q s :
  wp m (fun a s' => wp (k a) Q s') s -> wp (bind m k) Q s.
Proof. unfold wp, bind. by destruct (m s) as [[a|e|e] s']. Qed.
Lemma wp_lift {S A} (r : res A) a Q (s : S) : r = Ok a -> Q a s -> wp (lift_res r) Q s.
Proof. by intros ->. Qed.
Lemma wp_modify {S} (f : S -> S) Q s : Q tt (f s) -> wp (modify f) Q s.
Proof. done. Qed.
Lemma wp_mono {S A} (m : M S A) (Q Q' : A -> S -> Prop) s :
  (forall a s', Q a s' -> Q' a s') -> wp m Q s -> wp m Q' s.
Proof. unfold wp. destruct (m s) as [[a|e|e] s']; naive_solver. Qed.
Lemma wp_on_ctl f Q c n : Q tt (f c, n) -> wp (on_ctl f) Q (c, n).
Proof. done. Qed.
Lemma wp_on_node f Q c n : Q tt (c, f n) -> wp (on_node f) Q (c, n).
Proof. done. Qed.

Ltac wp_step :=
  lazymatch goal with
  | |- wp (bind _ _) _ _ => apply wp_bind
  | |- wp (on_ctl _) _ _ => apply wp_on_ctl
  | |- wp (on_node _) _ _ => apply wp_on_node
  | |- wp get _ _ => apply wp_get
  | |- wp (ret _) _ _ => apply wp_ret
  | |- wp (modify _) _ _ => apply wp_modify
  end; cbn [fst snd].

(** ** The invariant of a control record *)

Record ctl_ok (c : AgentControl) : Prop := {
  ctl_home : home_ok (home c);
  ctl_levels : 0 <= declared_level c <= target_level c /\
    target_level c <= declared_level c + 1 /\ target_level c <= 9;
  ctl_pending p : pending c = Some p ->
    pending_grow c = None /\ target_level c = declared_level c /\ 0 < declared_level c /\
    pend_vacate p = vacate_half (home c) (declared_level c);
  ctl_pending_grow p : pending_grow c = Some p ->
    target_level c = declared_level c /\ declared_level c < 9 /\
    pend_vacate p = sibling_half (home c) (declared_level c);
}.

(** The configuration's factors give durations for every lag within its
    bounds. *)
Record config_ok (cfg : K2ShardingConfig) : Prop := {
  cfg_lag : 0 <= from_millis (lag_floor_ms cfg) <= from_millis (lag_ceiling_ms cfg);
  cfg_factor x d : x = grow_persistence cfg \/ x = shrink_persistence cfg \/ x = intent_wait cfg ->
    from_millis (lag_floor_ms cfg) <= d <= from_millis (lag_ceiling_ms cfg) ->
    exists r, mul_f64 d x = Ok r;
}.

Definition lag_ok (cfg : K2ShardingConfig) (lag : Nanos) : Prop :=
  from_millis (lag_floor_ms cfg) <= lag <= from_millis (lag_ceiling_ms cfg).

(** ** The frame of an agent's step *)

(** The rest of the node is untouched, and intents stay filed under their
    sender. *)
Record same_node (n n' : Node) : Prop := {
  sn_states : states n' = states n;
  sn_last_gone : last_gone n' = last_gone n;
  sn_contact : contact n' = contact n;
  sn_last_probe : last_probe n' = last_probe n;
  sn_intents : table_wf (intents n) -> table_wf (intents n');
  sn_grows : table_wf (grow_intents n) -> table_wf (grow_intents n');
}.

Lemma same_node_refl n : same_node n n.
Proof. by split. Qed.

Lemma same_node_trans n1 n2 n3 : same_node n1 n2 -> same_node n2 n3 -> same_node n1 n3.
Proof.
  intros [? ? ? ? ? ?] [? ? ? ? ? ?]. split; try congruence; auto.
Qed.

(** The agent's entry among the local agents, before and after. *)
Definition agent_entry (agent : AgentId) (g : LocalAgent -> LocalAgent) (n n' : Node) : Prop :=
  local_agents n' = map_agent agent g (local_agents n) /\ (forall a, la_agent (g a) = la_agent a).

Lemma map_agent_id agent l : map_agent agent (fun a => a) l = l.
Proof. unfold map_agent. rewrite <- (map_id l) at 2. apply map_ext. intros a. by destruct (bool_decide _). Qed.

Lemma map_agent_compose agent g h l : (forall a, la_agent (g a) = la_agent a) ->
  map_agent agent h (map_agent agent g l) = map_agent agent (fun a => h (g a)) l.
Proof.
  intros Hg. unfold map_agent. rewrite map_map. apply map_ext. intros a.
  destruct (bool_decide (la_agent a = agent)) eqn:E; rewrite ?Hg, E; done.
Qed.

Lemma map_agent_ids agent g l : (forall a, la_agent (g a) = la_agent a) ->
  map la_agent (map_agent agent g l) = map la_agent l.
Proof.
  intros Hg. unfold map_agent. rewrite map_map. apply map_ext. intros a.
  destruct (bool_decide _); [apply Hg|done].
Qed.

Section messages.
Variable w : World.

Lemma broadcast_frame msg n : same_node n (broadcast w msg n) /\
  local_agents (broadcast w msg n) = local_agents n.
Proof. unfold broadcast. destruct (negb _); [done|]. by destruct (w_peers w). Qed.

Lemma publish_intent_frame agent v e n : same_node n (publish_intent w agent v e n) /\
  local_agents (publish_intent w agent v e n) = local_agents n.
Proof.
  unfold publish_intent. destruct (sectors_to_arc _ _) as [|a b]; [done|].
  unfold send_intent. destruct (broadcast_frame
    (MkShrinkIntentMessage agent (a, b).1 (a, b).2 (as_micros e) false false)
    (intents_insert agent (MkShrinkIntent v e None) n)) as [F1 F2].
  split; [|by rewrite F2]. refine (same_node_trans _ _ _ _ F1). split; try done.
  simpl. apply table_wf_insert.
Qed.

Lemma withdraw_intent_frame agent v e n : same_node n (withdraw_intent w agent v e n) /\
  local_agents (withdraw_intent w agent v e n) = local_agents n.
Proof.
  unfold withdraw_intent. destruct (sectors_to_arc _ _); [done|]. apply broadcast_frame.
Qed.

Lemma remove_frame agent n : same_node n (intents_remove agent n).
Proof. split; try done. apply table_wf_remove. Qed.
Lemma grow_remove_frame agent n : same_node n (grow_intents_remove agent n).
Proof. split; try done. apply table_wf_remove. Qed.
Lemma grow_insert_frame agent i n : same_node n (grow_intents_insert agent i n).
Proof. split; try done. apply table_wf_insert. Qed.
Lemma set_agents_frame l n : same_node n (set_local_agents l n).
Proof. by split. Qed.
Lemma push_frame e n : same_node n (push_event e n).
Proof. by split. Qed.

End messages.
#[global] Hint Resolve same_node_refl remove_frame grow_remove_frame grow_insert_frame
  set_agents_frame push_frame : k2.

Section step.
Context `{Location}.
Variable cfg : K2ShardingConfig.
Variable w : World.
Hypothesis Hcfg : config_ok cfg.

(** The agent's arcs after a step, in the encoding that announces by message:
    the arc aimed for follows the target level, and the arc declared is what it
    was, or the block of the level the agent shrank to. *)
Definition arcs_follow (c c' : AgentControl) (g : LocalAgent -> LocalAgent) : Prop :=
  agentinfo_encoding cfg = false -> forall a,
    (tgt_storage_arc a = block_arc (home c) (target_level c) ->
     tgt_storage_arc (g a) = block_arc (home c') (target_level c')) /\
    (cur_storage_arc (g a) = cur_storage_arc a \/
     declared_level c' < declared_level c /\
     cur_storage_arc (g a) = block_arc (home c') (declared_level c')).

(** A step of the agent, up to the change of its level. *)
Record agent_step (agent : AgentId) (c : AgentControl) (n : Node) (c' : AgentControl) (n' : Node)
  : Prop := {
  as_ok : ctl_ok c';
  as_home : home c' = home c;
  as_node : same_node n n';
  as_entry : exists g, agent_entry agent g n n' /\ arcs_follow c c' g;
}.

(** A step that leaves the level alone. *)
Record steady (agent : AgentId) (c : AgentControl) (n : Node) (c' : AgentControl) (n' : Node)
  : Prop := {
  sd_step : agent_step agent c n c' n';
  sd_level : declared_level c' = declared_level c;
}.

Lemma agent_entry_id agent n n' : local_agents n' = local_agents n ->
  agent_entry agent (fun a => a) n n'.
Proof. intros E. split; [|done]. by rewrite E, map_agent_id. Qed.

(** Nothing but the record's counters and pending actions, intents and
    messages changed. *)
Lemma steady_same agent c n c' n' : ctl_ok c' -> home c' = home c ->
  declared_level c' = declared_level c -> target_level c' = target_level c ->
  same_node n n' -> local_agents n' = local_agents n -> steady agent c n c' n'.
Proof.
  intros Hok Hh Hd Ht Hn Hl. split; [|done]. split; try done.
  exists (fun a => a). split; [by apply agent_entry_id|]. intros _ a. rewrite Hh, Ht. tauto.
Qed.

(** The same, from a step that set the counters first. *)
Lemma steady_pre agent c n c1 n1 c' n' :
  home c1 = home c -> declared_level c1 = declared_level c -> target_level c1 = target_level c ->
  same_node n n1 -> local_agents n1 = local_agents n ->
  steady agent c1 n1 c' n' -> steady agent c n c' n'.
Proof.
  intros Hh Hd Ht Hn Hl [[Hok Hh' Hn' (g & [Hg Hid] & Ha)] Hlev]. split; [|congruence].
  split; [done|congruence|by apply (same_node_trans _ n1)|].
  exists g. split; [split; [by rewrite Hg, Hl|done]|].
  intros He a. destruct (Ha He a) as [Ha1 Ha2]. rewrite Hh, Ht, Hd in *. done.
Qed.

Lemma start_grow_ok agent c n : ctl_ok c -> target_level c = declared_level c ->
  declared_level c < 9 ->
  wp (start_grow agent) (fun _ st => steady agent c n st.1 st.2 /\
    target_level st.1 = declared_level c + 1 /\ pending st.1 = None) (c, n).
Proof.
  intros [Hh Hl _ _] Ht Hlt. unfold start_grow. repeat wp_step.
  rewrite wrap_u8_id by lia. split; [|by split]. split; [|done]. split; try done.
  - split; simpl; try done. lia.
  - eapply same_node_trans; [apply remove_frame|]. eapply same_node_trans; [apply grow_remove_frame|].
    apply set_agents_frame.
  - eexists. split; [split; [reflexivity|done]|]. intros _ a. simpl. by split; [|left].
Qed.

Lemma hold_full_ok agent c n : ctl_ok c -> target_level c = declared_level c ->
  wp (hold_full agent) (fun _ st => steady agent c n st.1 st.2) (c, n).
Proof.
  intros Hc Ht. unfold hold_full. repeat wp_step. rewrite MAX_LEVEL_val.
  destruct (Z.ltb_spec (declared_level c) 9).
  - eapply wp_mono; [|by apply start_grow_ok]. by intros _ st [? _].
  - apply wp_ret. apply steady_same; auto with k2.
Qed.

Lemma wait_for_ok lag : lag_ok cfg lag -> exists r, wait_for cfg lag = Ok r.
Proof using Hcfg.
  intros Hl. unfold wait_for. destruct (cfg_factor cfg Hcfg (intent_wait cfg) lag) as [r ->];
    [tauto|done|]. by eexists.
Qed.

Lemma min_over_ok cov r : cov_ok cov -> range_ok r -> r.1 < r.2 -> exists m, min_over cov r.1 r.2 = Ok m.
Proof.
  intros Hc [Hr1 Hr2] Hlt. destruct (min_over_spec cov r.1 r.2) as (m & E & _); [done|lia|done|].
  by exists m.
Qed.

Lemma sibling_range_ok c : ctl_ok c -> declared_level c < 9 ->
  range_ok (sibling_half (home c) (declared_level c)) /\
  (sibling_half (home c) (declared_level c)).1 < (sibling_half (home c) (declared_level c)).2.
Proof.
  intros [Hh Hl _ _] Hlt. destruct (sibling_size (home c) (declared_level c)) as (H1' & H2' & H3');
    [done|lia|]. assert (0 < 2 ^ declared_level c) by (apply Z.pow_pos_nonneg; lia).
  unfold range_ok. lia.
Qed.

Lemma vacate_range_ok c : ctl_ok c -> 0 < declared_level c ->
  range_ok (vacate_half (home c) (declared_level c)) /\
  (vacate_half (home c) (declared_level c)).1 < (vacate_half (home c) (declared_level c)).2.
Proof.
  intros [Hh Hl _ _] Hlt. rewrite vacate_half_eq by (done || lia).
  destruct (sibling_size (home c) (declared_level c - 1)) as (H1' & H2' & H3'); [done|lia|].
  assert (0 < 2 ^ (declared_level c - 1)) by (apply Z.pow_pos_nonneg; lia). unfold range_ok. lia.
Qed.

(** The re-checks give a verdict on every range the controller announces. *)
Lemma min_over_subtract_ok counts cov live r : cov_ok cov -> range_ok r -> r.1 < r.2 ->
  exists m, min_over (subtract_counted counts cov live) r.1 r.2 = Ok m.
Proof. intros. apply min_over_ok; [by apply subtract_counted_ok|done|done]. Qed.

Lemma grow_ok agent cov live lag now c n : ctl_ok c -> target_level c = declared_level c ->
  declared_level c < 9 -> pending c = None -> cov_ok cov -> lag_ok cfg lag ->
  wp (grow cfg w agent cov live lag now)
    (fun _ st => steady agent c n st.1 st.2 /\ pending st.1 = None) (c, n).
Proof using Hcfg.
  intros Hc Ht Hlt Hp Hcov Hlag.
  assert (wp (start_grow agent) (fun _ st => steady agent c n st.1 st.2 /\ pending st.1 = None) (c, n))
    as Hstart by (eapply wp_mono; [|by apply start_grow_ok]; by intros _ st (? & _ & ?)).
  unfold grow. destruct (coordinated_growth cfg); cbn [negb]; [|exact Hstart]. wp_step. wp_step.
  destruct (sibling_range_ok c Hc Hlt) as [Hr Hrlt].
  remember (sibling_half (home c) (declared_level c)) as r eqn:Er.
  wp_step. assert (exists b, (if critical_repair cfg then lift_res (is_critical (grow_view cov live agent) r)
    else ret false) (c, n) = (Ok b, (c, n))) as [b Eb].
  { destruct (critical_repair cfg); [|by exists false]. unfold is_critical, grow_view.
    destruct (min_over_subtract_ok (fun id _ => negb (bool_decide (id = agent))) cov live r)
      as [m Em]; [done..|]. rewrite Em. by eexists. }
  unfold wp at 1. rewrite Eb. destruct b; [exact Hstart|].
  wp_step. destruct (wait_for_ok lag Hlag) as [wait Ew]. eapply wp_lift; [exact Ew|].
  unfold intent_times. destruct (sectors_to_arc r.1 r.2) as [|a b]; [exact Hstart|]. repeat wp_step.
  split; [|exact Hp]. apply steady_same; [|reflexivity..| |].
  - destruct Hc as [Hh Hl _ _]. split; cbn; [exact Hh|exact Hl|by rewrite Hp|].
    intros p [= <-]. by rewrite <- Er.
  - eapply same_node_trans; [apply grow_insert_frame|]. apply broadcast_frame.
  - unfold send_intent. exact (proj2 (broadcast_frame _ _ _)).
Qed.
Lemma grow_recheck_ok cov live grows own r target : cov_ok cov -> range_ok r -> r.1 < r.2 ->
  exists b, grow_recheck cov live grows own r target = Ok b.
Proof.
  intros Hc Hr Hlt. unfold grow_recheck.
  match goal with |- context [min_over ?e _ _] => assert (cov_ok e) as He end.
  { generalize (subtract_counted_ok (fun id _ => negb (bool_decide (id = own))) cov live Hc).
    fold (grow_view cov live own). generalize (grow_view cov live own).
    induction grows as [|ai grows IH]; intros e He; simpl; [done|].
    apply IH. destruct (_ && _); [by apply add_sectors_ok|done]. }
  destruct (min_over_ok _ r He Hr Hlt) as [m ->]. by eexists.
Qed.

Lemma execute_grow_ok agent cov live grows c n p : ctl_ok c -> pending_grow c = Some p ->
  cov_ok cov ->
  wp (execute_grow cfg w agent cov live grows) (fun _ st => steady agent c n st.1 st.2) (c, n).
Proof.
  intros Hc Hp Hcov. unfold execute_grow. wp_step. wp_step. rewrite Hp.
  destruct (ctl_pending_grow c Hc p Hp) as (Ht & Hlt & Hv).
  destruct (sibling_range_ok c Hc Hlt) as [Hr Hrlt]. rewrite <- Hv in Hr, Hrlt.
  destruct (grow_recheck_ok cov live grows agent (pend_vacate p) (target_redundancy cfg) Hcov Hr Hrlt)
    as [b Eb].
  do 5 wp_step. eapply wp_lift; [exact Eb|].
  assert (ctl_ok (set_pending_grow None c)) as Hc1.
  { destruct Hc as [Hh Hl Hs _]. split; cbn; [exact Hh|exact Hl| |discriminate]. intros q Hq. destruct (Hs q Hq); tauto. }
  destruct b.
  - eapply wp_mono; [|by apply start_grow_ok]. intros _ st [Hst _].
    eapply steady_pre; [..|exact Hst]; auto with k2.
  - wp_step. wp_step.
    assert (forall n', same_node n n' -> local_agents n' = local_agents n ->
      steady agent c n (set_grow_acc 0 (set_pending_grow None c)) n') as Hend.
    { intros n' Hn Hl. apply steady_same; auto. by destruct Hc1. }
    destruct (sectors_to_arc _ _) as [|a b]; repeat wp_step; apply Hend; auto with k2.
    + eapply same_node_trans; [apply grow_remove_frame|]. apply broadcast_frame.
    + unfold send_intent. by rewrite (proj2 (broadcast_frame _ _ _)).
Qed.

End step.
