(* ===== verification/ControllerTick.v ===== *)
(** Shrinking, and the decisions of one agent's tick: what every call of
    [tick_agent] does to the agent's level, arcs and records. *)
From Stdlib Require Import SpecFloat.
From S2P Require Import Prelude Arc Timestamp Id ArcSet Blocks Agent Coverage Intents.
From S2P Require Import Recheck ShrinkSafety Controller ControllerStep.

Section tick.
Context `{Location}.
Variable cfg : K2ShardingConfig.
Variable w : World.
Hypothesis Hcfg : config_ok cfg.

(** The re-check of a due shrink, for the rule in force, said to proceed. *)
Definition shrink_cleared (cov : Cov) (live : Live) (agent : AgentId) (vacated : range) : Prop :=
  if patient cfg then patient_recheck cov live agent vacated (target_redundancy cfg) = Ok Proceed
  else shrink_recheck cov live agent vacated (target_redundancy cfg) = Ok true.

(** A step that gave up one level, on a pending shrink whose time had come. *)
Record shrank (agent : AgentId) (cov : Cov) (live : Live) (now : Timestamp)
  (c : AgentControl) (n : Node) (c' : AgentControl) (n' : Node) : Prop := {
  sk_step : agent_step cfg agent c n c' n';
  sk_level : declared_level c' = declared_level c - 1;
  sk_pending : exists p, pending c = Some p /\ pend_execute_at p <= now;
  sk_cleared : shrink_cleared cov live agent (vacate_half (home c) (declared_level c));
}.

Lemma announce_shrink_ok agent lag now c n : ctl_ok c -> target_level c = declared_level c ->
  0 < declared_level c -> pending_grow c = None -> lag_ok cfg lag ->
  wp (announce_shrink cfg w agent lag now)
    (fun _ st => steady cfg agent c n st.1 st.2 /\ target_level st.1 = target_level c) (c, n).
Proof using Hcfg.
  intros Hc Ht Hlt Hp Hlag. unfold announce_shrink. wp_step.
  destruct (wait_for_ok cfg Hcfg lag Hlag) as [wait Ew]. eapply wp_lift; [exact Ew|].
  unfold intent_times. wp_step. wp_step.
  remember (vacate_half (home c) (declared_level c)) as r eqn:Er.
  destruct (sectors_to_arc r.1 r.2) as [|a b] eqn:Ea.
  { apply wp_ret. split; [|reflexivity]. by apply steady_same. }
  wp_step. wp_step.
  set (c1 := set_pending _ c). assert (ctl_ok c1) as Hc1.
  { destruct Hc as [Hh Hl _ Hg]. subst c1. split; cbn; [exact Hh|exact Hl| |].
    - intros p [= <-]. by rewrite <- Er.
    - intros p Hp'. congruence. }
  destruct (agentinfo_encoding cfg) eqn:Ee; wp_step; (split; [|reflexivity]).
  - split; [|reflexivity]. split; [exact Hc1|reflexivity| |].
    + unfold publish_arc, invoke_cb. eapply same_node_trans; [|apply push_frame].
      eapply same_node_trans; apply set_agents_frame.
    + eexists. split; [split; [|]|intros He; congruence].
      * cbn. apply map_agent_compose. reflexivity.
      * reflexivity.
  - destruct (publish_intent_frame w agent r (ts_plus (ts_plus now wait) wait) n) as [F1 F2].
    by apply steady_same.
Qed.

Lemma keep_waiting_ok agent p now c n c0 : ctl_ok c0 -> pending c0 = Some p ->
  c = set_pending None c0 ->
  wp (keep_waiting cfg w agent p now) (fun _ st => steady cfg agent c0 n st.1 st.2) (c, n).
Proof.
  intros Hc Hp ->. unfold keep_waiting. destruct (ctl_pending c0 Hc p Hp) as (Hg & Ht & Hlt & Hv).
  assert (forall q, pend_vacate q = pend_vacate p -> ctl_ok (set_pending (Some q) (set_pending None c0)))
    as Hok.
  { intros q Hq. destruct Hc as [Hh Hl _ _]. split; cbn; [exact Hh|exact Hl| |].
    - intros q' [= <-]. by rewrite Hq.
    - intros q' Hq'. congruence. }
  destruct (refreshed_expiry _ _ _) as [e|]; repeat wp_step.
  - destruct (publish_intent_frame w agent (pend_vacate p) e n) as [F1 F2].
    apply steady_same; [by apply Hok|reflexivity..|done|done].
  - apply steady_same; [by apply Hok|reflexivity..|by apply same_node_refl|done].
Qed.

Lemma set_pending_none_ok c : ctl_ok c -> ctl_ok (set_pending None c).
Proof. intros [Hh Hl _ Hg]. split; cbn; [exact Hh|exact Hl|discriminate|]. intros p Hp. destruct (Hg p Hp); tauto. Qed.

(** Publishing an arc changes the agent's entry only. *)
Lemma publish_arc_frame agent arc n : same_node n (publish_arc agent arc n) /\
  agent_entry agent (fun a => MkLocalAgent (la_agent a) arc arc) n (publish_arc agent arc n).
Proof.
  split.
  - unfold publish_arc, invoke_cb. eapply same_node_trans; [|apply push_frame].
    eapply same_node_trans; apply set_agents_frame.
  - split; [|reflexivity]. cbn. apply map_agent_compose. reflexivity.
Qed.

Lemma agent_entry_after agent g n n1 n' : local_agents n1 = local_agents n ->
  agent_entry agent g n1 n' -> agent_entry agent g n n'.
Proof. intros E [Hg Hid]. split; [by rewrite Hg, E|done]. Qed.

Lemma conclude_stand_down_ok agent p c0 n : ctl_ok c0 -> pending c0 = Some p ->
  wp (conclude_shrink cfg w agent p false) (fun _ st => steady cfg agent c0 n st.1 st.2)
    (set_pending None c0, n).
Proof.
  intros Hc Hp. unfold conclude_shrink. do 4 wp_step.
  destruct (ctl_pending c0 Hc p Hp) as (Hg & Ht & Hlt & Hv).
  assert (ctl_ok (set_shrink_acc 0 (set_pending None c0))) as Hok
    by (destruct (set_pending_none_ok c0 Hc); by split).
  destruct (agentinfo_encoding cfg) eqn:Ee.
  - rewrite andb_false_r. repeat wp_step.
    destruct (publish_arc_frame agent (block_arc (home c0) (declared_level c0))
      (intents_remove agent n)) as [F1 F2].
    split; [|reflexivity]. split; [exact Hok|reflexivity| |].
    + eapply same_node_trans; [apply remove_frame|exact F1].
    + eexists. split; [by eapply agent_entry_after; [|exact F2]|intros He; congruence].
  - rewrite andb_true_r. wp_step. destruct (withdraw_on_stand_down cfg); repeat wp_step.
    + destruct (withdraw_intent_frame w agent (pend_vacate p) (pend_expires_at p)
        (intents_remove agent n)) as [F1 F2].
      apply steady_same; [exact Hok|reflexivity..| |by rewrite F2].
      eapply same_node_trans; [apply remove_frame|exact F1].
    + apply steady_same; [exact Hok|reflexivity..|apply remove_frame|reflexivity].
Qed.

Lemma conclude_proceed_ok agent p c0 n Q : ctl_ok c0 -> pending c0 = Some p ->
  (forall c' n', agent_step cfg agent c0 n c' n' -> declared_level c' = declared_level c0 - 1 ->
    Q tt (c', n')) ->
  wp (conclude_shrink cfg w agent p true) Q (set_pending None c0, n).
Proof.
  intros Hc Hp HQ. unfold conclude_shrink. repeat wp_step.
  destruct (ctl_pending c0 Hc p Hp) as (Hg & Ht & Hlt & Hv). destruct Hc as [Hh Hl _ _].
  assert (wrap_u8 (declared_level c0 - 1) = declared_level c0 - 1) as Ew by (apply wrap_u8_id; lia).
  set (c' := set_shrink_acc 0 _). assert (ctl_ok c') as Hok.
  { subst c'. split; cbn; rewrite ?Ew; [exact Hh|lia|discriminate|]. intros q Hq. congruence. }
  assert (declared_level c' = declared_level c0 - 1) as Ed by exact Ew.
  assert (target_level c' = declared_level c') as Et by reflexivity.
  assert (home c' = home c0) as Eh by reflexivity.
  destruct (agentinfo_encoding cfg) eqn:Ee; repeat wp_step; apply HQ; try exact Ed.
  - split; [exact Hok|exact Eh|apply remove_frame|].
    exists (fun a => a). split; [by apply agent_entry_id|intros He; congruence].
  - destruct (publish_arc_frame agent (block_arc (home c') (declared_level c'))
      (intents_remove agent n)) as [F1 F2].
    split; [exact Hok|exact Eh|by eapply same_node_trans; [apply remove_frame|exact F1]|].
    eexists. split; [by eapply agent_entry_after; [|exact F2]|].
    intros _ a. rewrite Et. split; [reflexivity|]. right. split; [lia|reflexivity].
Qed.

Lemma patient_recheck_ok cov live own r target : cov_ok cov -> range_ok r -> r.1 < r.2 ->
  exists v, patient_recheck cov live own r target = Ok v.
Proof.
  intros Hc Hr Hlt. unfold patient_recheck.
  destruct (min_over_subtract_ok (counts_as_gone own r) cov live r Hc Hr Hlt) as [m ->]. by eexists.
Qed.

Lemma shrink_recheck_ok cov live own r target : cov_ok cov -> range_ok r -> r.1 < r.2 ->
  exists v, shrink_recheck cov live own r target = Ok v.
Proof.
  intros Hc Hr Hlt. unfold shrink_recheck.
  destruct (min_over_subtract_ok (fun id _ => id_lt id own) cov live r Hc Hr Hlt) as [m ->].
  by eexists.
Qed.

Lemma execute_intent_ok agent cov live now c n p : ctl_ok c -> pending c = Some p ->
  pend_execute_at p <= now -> cov_ok cov ->
  wp (execute_intent cfg w agent cov live now) (fun _ st =>
    steady cfg agent c n st.1 st.2 \/ shrank agent cov live now c n st.1 st.2) (c, n).
Proof.
  intros Hc Hp Hdue Hcov. unfold execute_intent. wp_step. wp_step. rewrite Hp. wp_step. wp_step.
  destruct (ctl_pending c Hc p Hp) as (Hg & Ht & Hlt & Hv).
  destruct (vacate_range_ok c Hc Hlt) as [Hr Hrlt]. rewrite <- Hv in Hr, Hrlt.
  assert (forall st, steady cfg agent c n st.1 st.2 ->
    steady cfg agent c n st.1 st.2 \/ shrank agent cov live now c n st.1 st.2) as Hleft by auto.
  assert (shrink_cleared cov live agent (pend_vacate p) -> wp (conclude_shrink cfg w agent p true)
    (fun _ st => steady cfg agent c n st.1 st.2 \/ shrank agent cov live now c n st.1 st.2)
    (set_pending None c, n)) as Hshrank.
  { intros Hclear. apply conclude_proceed_ok; [done..|]. intros c' n' Hs Hd. right.
    split; [exact Hs|exact Hd|by exists p|by rewrite <- Hv]. }
  assert (wp (conclude_shrink cfg w agent p false)
    (fun _ st => steady cfg agent c n st.1 st.2 \/ shrank agent cov live now c n st.1 st.2)
    (set_pending None c, n)) as Hstand.
  { eapply wp_mono; [|by apply conclude_stand_down_ok]. auto. }
  unfold shrink_cleared in Hshrank. destruct (patient cfg); wp_step.
  - destruct (patient_recheck_ok cov live agent (pend_vacate p) (target_redundancy cfg) Hcov Hr Hrlt)
      as [v Ev]. eapply wp_lift; [exact Ev|]. destruct v.
    + by apply Hshrank.
    + eapply wp_mono; [|by apply (keep_waiting_ok agent p now _ n c)]. auto.
    + exact Hstand.
  - destruct (shrink_recheck_ok cov live agent (pend_vacate p) (target_redundancy cfg) Hcov Hr Hrlt)
      as [v Ev]. eapply wp_lift; [exact Ev|]. destruct v; [by apply Hshrank|exact Hstand].
Qed.

(** ** What a decision rests on *)

(** A sector of the sibling half that fewer than the target hold, the holders
    who announced to leave it not counted. *)
Definition growth_needed (agent : AgentId) (c : AgentControl) (cov : Cov) (live : Live) : Prop :=
  exists s count, in_range s (sibling_half (home c) (declared_level c)) /\
    cov !! Z.to_nat s = Some count /\
    count - Z.of_nat (length (gone_over (fun id _ => negb (bool_decide (id = agent))) s live))
    < target_redundancy cfg.

(** Every sector of the half to give up is held by more than the target. *)
Definition shrink_affordable (c : AgentControl) (cov : Cov) : Prop :=
  forall s count, in_range s (vacate_half (home c) (declared_level c)) ->
    cov !! Z.to_nat s = Some count -> target_redundancy cfg < count.

(** A lower id has announced to leave part of the half, and once all such have
    left the half has no room for this agent to leave too. *)
Definition must_yield (agent : AgentId) (c : AgentControl) (cov : Cov) (live : Live) : Prop :=
  exists id i, (id, i) ∈ live /\ id_lt id agent = true /\
    (exists s, in_range s (vacate i) /\ in_range s (vacate_half (home c) (declared_level c))) /\
    (announce_alongside cfg = true -> exists s count,
      in_range s (vacate_half (home c) (declared_level c)) /\ cov !! Z.to_nat s = Some count /\
      count - Z.of_nat (length (gone_over (fun id i => id_lt id agent
        && overlaps (vacate i) (vacate_half (home c) (declared_level c))) s live))
      < target_redundancy cfg).

Lemma grow_condition_ok agent c cov live : ctl_ok c -> cov_ok cov ->
  exists b, grow_condition cfg agent c cov live = Ok b /\ (b = true -> declared_level c < 9).
Proof.
  intros Hc Hcov. unfold grow_condition. rewrite MAX_LEVEL_val.
  destruct (Z.ltb_spec (declared_level c) 9); [|by exists false].
  destruct (sibling_range_ok c Hc) as [Hr Hlt]; [done|]. unfold grow_view.
  destruct (min_over_subtract_ok (fun id _ => negb (bool_decide (id = agent))) cov live _ Hcov Hr Hlt)
    as [m ->]. cbn. destruct (min_over_ok cov _ Hcov Hr Hlt) as [m' ->]. cbn. by eexists.
Qed.

Lemma shrink_condition_ok c cov : ctl_ok c -> cov_ok cov ->
  exists b, shrink_condition cfg c cov = Ok b /\ (b = true -> 0 < declared_level c).
Proof.
  intros Hc Hcov. unfold shrink_condition.
  destruct (Z.ltb_spec 0 (declared_level c)); [|by exists false].
  destruct (vacate_range_ok c Hc) as [Hr Hlt]; [done|].
  destruct (min_over_ok cov _ Hcov Hr Hlt) as [m ->]. cbn. by eexists.
Qed.

Lemma yields_ok agent c cov live : ctl_ok c -> cov_ok cov -> 0 < declared_level c ->
  exists b, yields cfg agent c cov live = Ok b.
Proof.
  intros Hc Hcov Hlt. unfold yields. destruct (patient cfg); [|by eexists].
  destruct (lower_racer _ _ _); [|by eexists]. destruct (announce_alongside cfg); [|by eexists].
  destruct (vacate_range_ok c Hc) as [Hr Hrlt]; [done|]. unfold room_alongside.
  destruct (min_over_subtract_ok (fun id i => id_lt id agent && overlaps (vacate i)
    (vacate_half (home c) (declared_level c))) cov live _ Hcov Hr Hrlt) as [m ->]. by eexists.
Qed.

(** Unless an arc is aimed for, nothing is decided without its condition having
    held long enough. *)
Record justified (agent : AgentId) (scov gcov : Cov) (live : Live) (lag elapsed : Nanos)
  (c c' : AgentControl) : Prop := {
  ju_grow : target_level c' <> target_level c -> grow_condition cfg agent c gcov live = Ok true /\
    exists need, mul_f64 lag (grow_persistence cfg) = Ok need /\ need <= grow_acc c + elapsed;
  ju_shrink : pending c' <> None -> shrink_condition cfg c scov = Ok true /\
    yields cfg agent c scov live = Ok false /\
    exists need, mul_f64 lag (shrink_persistence cfg) = Ok need /\ need <= shrink_acc c + elapsed;
}.

Lemma decide_arc_ok agent scov gcov live lag now elapsed c n : ctl_ok c ->
  target_level c = declared_level c -> pending c = None -> pending_grow c = None ->
  cov_ok scov -> cov_ok gcov -> lag_ok cfg lag ->
  wp (decide_arc cfg w agent scov gcov live lag now elapsed) (fun _ st =>
    steady cfg agent c n st.1 st.2 /\ justified agent scov gcov live lag elapsed c st.1) (c, n).
Proof using Hcfg.
  intros Hc Ht Hp Hpg Hs Hg Hlag. unfold decide_arc. wp_step. wp_step. wp_step.
  destruct (grow_condition_ok agent c gcov live Hc Hg) as (gc & Egc & Hgc).
  eapply wp_lift; [exact Egc|]. wp_step.
  destruct (shrink_condition_ok c scov Hc Hs) as (sc & Esc & Hsc).
  eapply wp_lift; [exact Esc|]. do 5 wp_step.
  destruct (cfg_factor cfg Hcfg (grow_persistence cfg) lag) as [gn Egn]; [tauto|done|].
  eapply wp_lift; [exact Egn|]. wp_step.
  destruct (cfg_factor cfg Hcfg (shrink_persistence cfg) lag) as [sn Esn]; [tauto|done|].
  eapply wp_lift; [exact Esn|]. wp_step. wp_step.
  set (c1 := set_shrink_acc _ _).
  assert (ctl_ok c1) as Hc1 by (destruct Hc; by split).
  assert (forall st, steady cfg agent c1 n st.1 st.2 -> steady cfg agent c n st.1 st.2) as Hpre
    by (intros st; by apply steady_pre; auto with k2).
  assert (steady cfg agent c n c1 n /\ justified agent scov gcov live lag elapsed c c1) as Hidle.
  { split; [by apply steady_same; auto with k2|]. split; [by intros []|].
    intros Hne. by destruct Hne. }
  destruct (gc && _) eqn:Eg.
  { apply andb_true_iff in Eg as [-> Eg]. eapply wp_mono; [|apply grow_ok; auto].
    intros _ st [Hst Hnone]. split; [auto|]. split; [|congruence].
    intros _. split; [done|]. exists gn. split; [done|]. by apply Z.leb_le in Eg. }
  destruct (sc && _) eqn:Es; [|by apply wp_ret].
  apply andb_true_iff in Es as [-> Es]. wp_step.
  destruct (yields_ok agent c scov live Hc Hs (Hsc eq_refl)) as [y Ey].
  eapply wp_lift; [exact Ey|]. destruct y; [by apply wp_ret|].
  eapply wp_mono; [|by apply announce_shrink_ok; auto].
  intros _ st [Hst Htt]. split; [auto|]. split; [by intros []|].
  intros _. split; [done|]. split; [done|]. exists sn. split; [done|]. by apply Z.leb_le in Es.
Qed.
End tick.

(** The rules of one agent's tick: what a decision rests on, and what a whole
    tick of the agent can do. *)
Section rules.
Context `{Location}.
Variable cfg : K2ShardingConfig.
Variable w : World.
Hypothesis Hcfg : config_ok cfg.

(** A count of every sector, and none is negative. *)
Definition counts_ok (cov : Cov) : Prop := cov_ok cov /\ Forall (fun c => 0 <= c) cov.

Lemma grow_condition_exact agent c cov live : ctl_ok c -> counts_ok cov -> live_ok live ->
  0 < target_redundancy cfg ->
  grow_condition cfg agent c cov live = Ok true <->
  declared_level c < 9 /\ growth_needed cfg agent c cov live.
Proof.
  intros Hc [Hcov Hpos] Hl Ht. unfold grow_condition. rewrite MAX_LEVEL_val.
  destruct (Z.ltb_spec (declared_level c) 9) as [Hlt|Hge]; [|split; [done|lia]].
  destruct (sibling_range_ok c Hc Hlt) as [Hr Hrlt]. unfold grow_view, growth_needed.
  destruct (subtract_lt_spec (fun id _ => negb (bool_decide (id = agent))) cov live _
    (target_redundancy cfg) Hcov Hpos Hl Hr Hrlt Ht) as (m & -> & Hm). cbn.
  destruct (min_over_ok cov _ Hcov Hr Hrlt) as [m' ->]. cbn.
  rewrite <- Hm. destruct (Z.ltb_spec m (target_redundancy cfg)); [done|]. split; [discriminate|lia].
Qed.

Lemma shrink_condition_exact c cov : ctl_ok c -> counts_ok cov ->
  shrink_condition cfg c cov = Ok true <-> 0 < declared_level c /\ shrink_affordable cfg c cov.
Proof.
  intros Hc [Hcov Hpos]. unfold shrink_condition.
  destruct (Z.ltb_spec 0 (declared_level c)) as [Hlt|Hge]; [|split; [done|lia]].
  destruct (vacate_range_ok c Hc Hlt) as [[Hr1 Hr2] Hrlt].
  destruct (min_over_ge cov (vacate_half (home c) (declared_level c)).1
    (vacate_half (home c) (declared_level c)).2 (target_redundancy cfg + 1)) as (m & -> & Hm);
    [done|lia|done|]. cbn. unfold shrink_affordable, in_range.
  assert (target_redundancy cfg < m <-> target_redundancy cfg + 1 <= m) as Ei by lia.
  rewrite Hm in Ei. destruct (Z.ltb_spec (target_redundancy cfg) m) as [Hm1|Hm1].
  - split; [|done]. intros _. split; [done|]. intros s count Hs Hcs.
    pose proof (proj1 Ei Hm1 s count Hs Hcs). lia.
  - split; [done|]. intros [_ Hall]. exfalso.
    assert (target_redundancy cfg < m); [|lia]. apply Ei. intros s count Hs Hcs.
    specialize (Hall s count Hs Hcs). lia.
Qed.

Lemma lower_racer_exact live agent r : lower_racer live agent r = true <->
  exists id i, (id, i) ∈ live /\ id_lt id agent = true /\ exists s, in_range s (vacate i) /\ in_range s r.
Proof.
  unfold lower_racer. rewrite existsb_exists. split.
  - intros ([id i] & Hin & Hb). apply andb_true_iff in Hb as [Hlow Hov].
    exists id, i. split; [by apply list_elem_of_In|]. split; [done|]. by apply ranges_overlap_spec.
  - intros (id & i & Hin & Hlow & Hov). exists (id, i). split; [by apply list_elem_of_In|].
    apply andb_true_iff. split; [done|]. by apply ranges_overlap_spec.
Qed.

Lemma yields_exact agent c cov live : ctl_ok c -> counts_ok cov -> live_ok live ->
  0 < declared_level c -> 0 < target_redundancy cfg -> patient cfg = true ->
  yields cfg agent c cov live = Ok true <-> must_yield cfg agent c cov live.
Proof.
  intros Hc [Hcov Hpos] Hl Hlt Ht Hpat. unfold yields, must_yield. rewrite Hpat.
  set (r := vacate_half (home c) (declared_level c)).
  destruct (vacate_range_ok c Hc Hlt) as [Hr Hrlt]. fold r in Hr, Hrlt.
  destruct (lower_racer live agent r) eqn:El.
  - apply lower_racer_exact in El as (id & i & Hin & Hlow & Hov).
    destruct (announce_alongside cfg).
    + unfold room_alongside.
      destruct (subtract_lt_spec (fun id i => id_lt id agent && overlaps (vacate i) r) cov live r
        (target_redundancy cfg) Hcov Hpos Hl Hr Hrlt Ht) as (m & -> & Hm). cbn.
      destruct (Z.leb_spec (target_redundancy cfg) m).
      * split; [done|]. intros (id' & i' & _ & _ & _ & Hex).
        assert (m < target_redundancy cfg); [|lia]. by apply Hm, Hex.
      * split; [|done]. intros _. exists id, i. split; [done|]. split; [done|]. split; [done|].
        intros _. by apply Hm.
    + split; [|done]. intros _. exists id, i. done.
  - split; [done|]. intros (id & i & Hin & Hlow & Hov & _).
    rewrite (proj2 (lower_racer_exact live agent r)) in El; [done|]. by exists id, i.
Qed.

(** A steady step from the record with the target taken over as declared. *)
Lemma declared_steady agent c n c' n' : ctl_ok c ->
  steady cfg agent (set_declared (target_level c) c) n c' n' ->
  agent_step cfg agent c n c' n' /\ declared_level c' = target_level c.
Proof.
  intros Hc [[Hok Hh Hn (g & Hg & Ha)] Hd]. split; [|exact Hd].
  split; [exact Hok|exact Hh|exact Hn|]. exists g. split; [exact Hg|].
  intros He a. destruct (Ha He a) as [Ha1 [Ha2|[Hlt _]]]; [by split; [|left]|].
  cbn in Hlt, Hd. lia.
Qed.


(** The agent declares the arc it aimed for, one level up. *)
Definition grown (agent : AgentId) (c : AgentControl) (n : Node) (c' : AgentControl) : Prop :=
  pending c = None /\ target_level c = declared_level c + 1 /\
  declared_level c' = declared_level c + 1 /\
  get_cur_storage_arc agent n = block_arc (home c) (declared_level c + 1).

(** One tick of an agent, for the check of all agents. *)
Lemma tick_agent_ok agent scov gcov live grows visible lag now elapsed c n :
  ctl_ok c -> cov_ok scov -> cov_ok gcov -> lag_ok cfg lag ->
  wp (tick_agent cfg w agent scov gcov live grows visible lag now elapsed) (fun _ st =>
    agent_step cfg agent c n st.1 st.2 /\
    (declared_level st.1 = declared_level c \/ grown agent c n st.1 \/
     shrank cfg agent scov live now c n st.1 st.2)) (c, n).
Proof using Hcfg.
  intros Hc Hs Hg Hlag. unfold tick_agent. wp_step. wp_step.
  assert (forall st, steady cfg agent c n st.1 st.2 -> agent_step cfg agent c n st.1 st.2 /\
    (declared_level st.1 = declared_level c \/ grown agent c n st.1 \/
     shrank cfg agent scov live now c n st.1 st.2)) as Hsteady by (intros st [? ?]; auto).
  assert (steady cfg agent c n c n) as Hidle by (apply steady_same; auto with k2).
  destruct (pending c) as [p|] eqn:Hp.
  { destruct (Z.leb_spec (pend_execute_at p) now); [|apply wp_ret; by apply (Hsteady (c, n))].
    eapply wp_mono; [|by apply (execute_intent_ok cfg w agent scov live now c n p)].
    intros _ st [Hst|Hst]; [by apply Hsteady|]. split; [apply Hst|by right; right]. }
  destruct (pending_grow c) as [p|] eqn:Hpg.
  { destruct (pend_execute_at p <=? now); [|apply wp_ret; by apply (Hsteady (c, n))].
    eapply wp_mono; [|by apply (execute_grow_ok cfg w agent gcov live grows c n p)]. intros ? st Hst. by apply Hsteady. }
  destruct (bool_decide_reflect (get_cur_storage_arc agent n = block_arc (home c) (target_level c)))
    as [Harc|]; cbn [negb]; [|apply wp_ret; by apply (Hsteady (c, n))].
  wp_step. wp_step. set (c1 := set_declared (target_level c) c).
  assert (ctl_ok c1) as Hc1.
  { destruct Hc as [Hh Hlv _ _]. subst c1. split; cbn; [exact Hh|lia| |]; congruence. }
  assert (forall st, steady cfg agent c1 n st.1 st.2 -> agent_step cfg agent c n st.1 st.2 /\
    (declared_level st.1 = declared_level c \/ grown agent c n st.1 \/
     shrank cfg agent scov live now c n st.1 st.2)) as Hup.
  { intros st Hst. apply (declared_steady agent c n) in Hst as [Hstep Hd]; [|done].
    split; [exact Hstep|]. destruct (ctl_levels c Hc) as (? & ? & _).
    destruct (Z.eq_dec (target_level c) (declared_level c)) as [E|Hne]; [left; congruence|].
    right; left. assert (target_level c = declared_level c + 1) as E by lia.
    rewrite E in Harc. split; [exact Hp|]. split; [exact E|]. split; [congruence|exact Harc]. }
  assert (wp (hold_full agent) (fun _ st => agent_step cfg agent c n st.1 st.2 /\
    (declared_level st.1 = declared_level c \/ grown agent c n st.1 \/
     shrank cfg agent scov live now c n st.1 st.2)) (c1, n)) as Hhold.
  { eapply wp_mono; [|by apply (hold_full_ok cfg agent c1 n)]. intros ? st Hst. by apply Hup. }
  destruct (pinned cfg); [exact Hhold|]. destruct (wrap_u32 visible <? _); [exact Hhold|].
  eapply wp_mono; [|by apply (decide_arc_ok cfg w Hcfg agent scov gcov live lag now elapsed c1 n)].
  intros _ st [Hst _]. by apply Hup.
Qed.
(** One tick of an agent never fails and keeps its control record
    consistent, the rest of the node as it was, the home sector, and the arcs
    in step with the levels. Its declared level stays, or goes one up once the
    arc aimed for is declared, or goes one down, and that only on a pending
    shrink that is due and passes its re-check. *)
Theorem tick_agent_safe agent scov gcov live grows visible lag now elapsed c n :
  ctl_ok c -> cov_ok scov -> cov_ok gcov -> lag_ok cfg lag ->
  wp (tick_agent cfg w agent scov gcov live grows visible lag now elapsed) (fun _ st =>
    agent_step cfg agent c n st.1 st.2 /\
    (declared_level st.1 = declared_level c \/ grown agent c n st.1 \/
     shrank cfg agent scov live now c n st.1 st.2)) (c, n).
Proof using Hcfg. intros. by apply tick_agent_ok. Qed.
End rules.

(** ** Concrete inputs *)

(** The default configuration, with a fixed lag of five minutes. *)
Definition fixed_lag_config : K2ShardingConfig :=
  MkConfig 5 25 5000 (f64_of_Z 1) (f64_of_Z 4) (f64_ratio 5 2) 10000 300000 300000
    false true true true true false true false true 10000.

Lemma fixed_lag_config_ok : config_ok fixed_lag_config.
Proof.
  split; [done|]. intros x d Hx Hd. assert (d = from_millis 300000) as -> by (cbn in Hd; lia).
  destruct Hx as [->|[->| ->]]; eexists; vm_compute; reflexivity.
Qed.

Definition sample_control : AgentControl := MkAgentControl 3 9 9 0 (from_millis 1200000) None None.

Lemma sample_control_ok : ctl_ok sample_control.
Proof. split; cbn; [|lia|done|done]. apply (bool_decide_eq_true_1 _). vm_compute. done. Qed.

Definition sample_world : World :=
  MkWorld 1000000 (Ok []) (fun _ => None) (fun _ => None) (fun _ => None) true.

Definition sample_node : Node :=
  MkNode IntentTable.default IntentTable.default {[ [1] := sample_control ]} ∅ ∅ ∅
    [MkLocalAgent [1] FULL FULL] [].

Definition sample_cov : Cov := replicate 512 8.

Lemma sample_cov_ok : counts_ok sample_cov.
Proof. split; apply (bool_decide_eq_true_1 _); vm_compute; done. Qed.


Lemma tick_agent_safe_witness :
  wp (tick_agent fixed_lag_config sample_world [1] sample_cov sample_cov [] [] 30
      (from_millis 300000) 1000000 (from_millis 5000)) (fun _ st =>
    agent_step fixed_lag_config [1] sample_control sample_node st.1 st.2 /\
    (declared_level st.1 = declared_level sample_control \/
     grown [1] sample_control sample_node st.1 \/
     shrank fixed_lag_config [1] sample_cov [] 1000000 sample_control sample_node st.1 st.2))
    (sample_control, sample_node).
Proof.
  apply (tick_agent_safe fixed_lag_config sample_world fixed_lag_config_ok);
    [apply sample_control_ok|apply sample_cov_ok|apply sample_cov_ok|]. split; cbn; lia.
Defined.

(** At the full arc, held by three more than the target for long enough, the
    agent announces the shrink of half of it. *)
Example sample_announces :
  let r := tick_agent fixed_lag_config sample_world [1] sample_cov sample_cov [] [] 30
    (from_millis 300000) 1000000 (from_millis 5000) (sample_control, sample_node) in
  (pend_vacate <$> pending r.2.1) = Some (256, 512) /\ length (sent r.2.2) = 1%nat.
Proof. vm_compute. split; reflexivity. Qed.
