(* ===== verification/ControllerCheck.v ===== *)
(** One check of the controller: a tick over all local agents, run to
    completion, and what it leaves. *)

From Stdlib Require Import SpecFloat.
From S2P Require Import Prelude Arc Timestamp Id ArcSet Agent Blocks Coverage Intents.
From S2P Require Import Recheck ShrinkSafety Controller ControllerStep.
From S2P Require Import ControllerTick.
From S2P Require Import ControllerTick.

(** The home block of level 9 is the whole ring. *)
Lemma block_arc_full home : home_ok home -> block_arc home 9 = FULL.
Proof.
  intros Hh. unfold block_arc. rewrite block_eq by (done || unfold level_ok; lia).
  unfold block_start. unfold home_ok in Hh.
  change (2 ^ 9) with 512. rewrite Z.div_small by lia. reflexivity.
Qed.

Section check.
Context `{Location}.
Variable cfg : K2ShardingConfig.
Variable w : World.
Hypothesis Hcfg : config_ok cfg.

(** ** The lag *)

Lemma lag_estimate_ok peers gone now : exists lag, lag_estimate cfg w peers gone now = Ok lag /\
  lag_ok cfg lag.
Proof using Hcfg.
  destruct (cfg_lag cfg Hcfg) as [H0 Hle]. unfold lag_estimate, lag_ok.
  remember (omap _ (present_peers peers gone)) as l eqn:El. clear El.
  destruct l as [|d l]; [eexists; split; [done|lia]|].
  remember (merge_sort Z.le (d :: l)) as sorted eqn:Es.
  assert (0 < Z.of_nat (length sorted)) as Hlen.
  { subst sorted. rewrite (merge_sort_Permutation Z.le (d :: l)). simpl. lia. }
  destruct (lookup_lt_is_Some_2 sorted
    (Z.to_nat (Z.min (Z.of_nat (length sorted) * 9 / 10) (Z.of_nat (length sorted) - 1)))) as [x ->].
  { pose proof (Z.div_pos (Z.of_nat (length sorted) * 9) 10). lia. }
  destruct (Z.ltb_spec (from_millis (lag_ceiling_ms cfg)) (from_millis (lag_floor_ms cfg))); [lia|].
  eexists. split; [done|lia].
Qed.

(** ** The invariant of a node *)

Record node_ok (n : Node) : Prop := {
  no_ctl a c : states n !! a = Some c -> ctl_ok c /\ home c = home_sector (loc a);
  no_intents : table_wf (intents n);
  no_grows : table_wf (grow_intents n);
  no_agents a : a ∈ local_agents n -> bytes_wf (la_agent a);
  no_arcs a c : agentinfo_encoding cfg = false -> a ∈ local_agents n ->
    states n !! la_agent a = Some c -> tgt_storage_arc a = block_arc (home c) (target_level c);
}.

(** What a check does to an agent's record: the home sector stays, and the
    level moves by at most one, down only on a pending shrink that is due. *)
Record level_step (now : Timestamp) (c c' : AgentControl) : Prop := {
  ls_home : home c' = home c;
  ls_level : declared_level c' = declared_level c \/
    (pending c = None /\ target_level c = declared_level c + 1 /\
     declared_level c' = declared_level c + 1) \/
    (exists p, pending c = Some p /\ pend_execute_at p <= now /\
     declared_level c' = declared_level c - 1);
}.

Lemma level_step_refl now c : level_step now c c.
Proof. by split; [|left]. Qed.

Definition ids (n : Node) : list AgentId := map la_agent (local_agents n).

(** What a part of the tick keeps of the node. *)
Record node_frame (n n' : Node) : Prop := {
  nf_ids : ids n' = ids n;
  nf_last_gone : last_gone n' = last_gone n;
}.

(** The record an agent's tick starts from. *)
Definition control_of (n : Node) (a : AgentId) : AgentControl := default (fresh_control a) (states n !! a).

Lemma fresh_control_ok a : bytes_wf a -> ctl_ok (fresh_control a).
Proof.
  intros Ha. unfold fresh_control. rewrite MAX_LEVEL_val. split; cbn; [|lia|done|done].
  apply home_sector_ok. by apply loc_u32.
Qed.

Lemma control_of_ok n a : node_ok n -> bytes_wf a ->
  ctl_ok (control_of n a) /\ home (control_of n a) = home_sector (loc a).
Proof.
  intros Hn Ha. unfold control_of. destruct (states n !! a) as [c|] eqn:E; cbn.
  - by apply (no_ctl n Hn).
  - split; [by apply fresh_control_ok|done].
Qed.

Lemma sibling_coverage_ok a base n : cov_ok base -> cov_ok (sibling_coverage a base n).
Proof.
  unfold sibling_coverage. generalize (local_agents n) as l. intros l. revert base.
  induction l as [|o l IH]; intros base Hb; simpl; [done|]. apply IH.
  destruct (bool_decide _); [done|]. rewrite add_cur_arc_eq. by apply add_arc_ok.
Qed.

Lemma elem_of_map_agent a g l b : (forall x, la_agent (g x) = la_agent x) ->
  b ∈ map_agent a g l <-> exists b0, b0 ∈ l /\ b = (if decide (la_agent b0 = a) then g b0 else b0) /\
    la_agent b = la_agent b0.
Proof.
  intros Hg. unfold map_agent. change (@map LocalAgent LocalAgent) with (@fmap list _ LocalAgent LocalAgent).
  rewrite list_elem_of_fmap. split.
  - intros (b0 & -> & Hb). exists b0. split; [done|].
    destruct (decide (la_agent b0 = a)) as [Ea|Ea];
      [rewrite bool_decide_true by done|rewrite bool_decide_false by done]; auto.
  - intros (b0 & Hb & -> & _). exists b0. split; [|done].
    destruct (decide (la_agent b0 = a)) as [Ea|Ea];
      [rewrite bool_decide_true by done|rewrite bool_decide_false by done]; auto.
Qed.

(** Writing back one agent's record, after a step of it from a node whose
    other agents are as in [n]. *)
Lemma write_back_ok a c n0 c' n1 n : node_ok n -> states n0 = states n ->
  intents n0 = intents n -> grow_intents n0 = grow_intents n ->
  home c = home_sector (loc a) -> agent_step cfg a c n0 c' n1 ->
  (exists h, local_agents n0 = map_agent a h (local_agents n) /\
    (forall x, la_agent (h x) = la_agent x) /\
    forall x, agentinfo_encoding cfg = false -> x ∈ local_agents n -> la_agent x = a ->
      tgt_storage_arc (h x) = block_arc (home c) (target_level c)) ->
  node_ok (set_states (<[ a := c' ]> (states n1)) n1) /\ ids n1 = ids n.
Proof.
  intros Hn Est Ei Eg Hh [Hc' Hh' Hsn (g & [Hg Hgid] & Harcs)] (h & Hl & Hhid & Htgt).
  destruct Hsn as [Sst _ _ _ Si Sg]. rewrite Est in Sst.
  assert (local_agents n1 = map_agent a (fun x => g (h x)) (local_agents n)) as Hl1
    by (rewrite Hg, Hl; by apply map_agent_compose).
  assert (forall x, la_agent (g (h x)) = la_agent x) as Hgh by (intros x; by rewrite Hgid).
  split.
  - split; cbn.
    + intros b cb. rewrite lookup_insert_Some, Sst. intros [[-> <-]|[_ Hb]]; [by rewrite Hh'|].
      by apply (no_ctl n Hn).
    + apply Si. rewrite Ei. apply Hn.
    + apply Sg. rewrite Eg. apply Hn.
    + intros b. rewrite Hl1, elem_of_map_agent by done. intros (b0 & Hb0 & _ & ->).
      by apply (no_agents n Hn).
    + intros b cb He. rewrite Hl1, elem_of_map_agent by done. intros (b0 & Hb0 & Eb & ->).
      rewrite Sst, lookup_insert_Some. destruct (decide (la_agent b0 = a)) as [Ea|Ea].
      * intros [[_ <-]|[Hne _]]; [|congruence]. subst b. apply (Harcs He). by apply Htgt.
      * intros [[Hne _]|[_ Hb]]; [congruence|]. subst b. by apply (no_arcs n Hn).
  - unfold ids. rewrite Hl1. by apply map_agent_ids.
Qed.

Lemma tick_level_step a cov live now c n0 c' n1 :
  agent_step cfg a c n0 c' n1 ->
  declared_level c' = declared_level c \/ grown a c n0 c' \/ shrank cfg a cov live now c n0 c' n1 ->
  level_step now c c'.
Proof.
  intros Hs Hl. split; [apply Hs|]. destruct Hl as [E|[(Hp & Ht & Hd & _)|[_ Hd (p & Hp & Hdue) _]]].
  - by left.
  - right; left. done.
  - right; right. by exists p.
Qed.

Lemma tick_one_ok scov gcov live grows visible lag now elapsed a n :
  node_ok n -> a ∈ ids n -> cov_ok scov -> cov_ok gcov -> lag_ok cfg lag ->
  wp (tick_one cfg w scov gcov live grows visible lag now elapsed a) (fun _ n' =>
    node_ok n' /\ node_frame n n' /\
    exists c', states n' = <[ a := c' ]> (states n) /\ level_step now (control_of n a) c') n.
Proof using Hcfg.
  intros Hn Ha Hs Hg Hlag. unfold tick_one.
  set (n0 := match states n !! a with Some _ => n | None => set_tgt_storage_arc_hint a FULL n end).
  assert (bytes_wf a) as Hwf.
  { unfold ids in Ha. change (@map LocalAgent AgentId) with (@fmap list _ LocalAgent AgentId) in Ha.
    apply list_elem_of_fmap in Ha as (la & -> & Hla). by apply (no_agents n Hn). }
  destruct (control_of_ok n a Hn Hwf) as [Hc Hh].
  assert ((match states n !! a with
    | Some ctl => (ctl, n) | None => (fresh_control a, set_tgt_storage_arc_hint a FULL n) end)
    = (control_of n a, n0)) as Epair by (unfold control_of, n0; by destruct (states n !! a)).
  assert (exists h, local_agents n0 = map_agent a h (local_agents n) /\
    (forall x, la_agent (h x) = la_agent x) /\
    forall x, agentinfo_encoding cfg = false -> x ∈ local_agents n -> la_agent x = a ->
      tgt_storage_arc (h x) = block_arc (home (control_of n a)) (target_level (control_of n a))) as Hentry.
  { unfold n0, control_of. destruct (states n !! a) as [c|] eqn:E; cbn [default].
    - exists (fun x => x). rewrite map_agent_id. split; [done|]. split; [done|].
      intros x He Hx <-. by apply (no_arcs n Hn).
    - eexists. split; [reflexivity|]. split; [done|]. intros x _ _ _. simpl.
      rewrite MAX_LEVEL_val. rewrite block_arc_full; [done|]. apply home_sector_ok. by apply loc_u32. }
  assert (states n0 = states n /\ intents n0 = intents n /\ grow_intents n0 = grow_intents n /\
    last_gone n0 = last_gone n) as (E1 & E2 & E3 & E4) by (unfold n0; by destruct (states n !! a)).
  unfold wp. rewrite Epair.
  pose proof (tick_agent_ok cfg w Hcfg a (sibling_coverage a scov n) (sibling_coverage a gcov n)
    live grows visible lag now elapsed (control_of n a) n0 Hc
    (sibling_coverage_ok a scov n Hs) (sibling_coverage_ok a gcov n Hg) Hlag) as Hstep.
  unfold wp in Hstep. destruct (tick_agent _ _ _ _ _ _ _ _ _ _ _ _) as [[[]|e|e] [c' n1]]; [|done..].
  destruct Hstep as [Hstep Hlevel]. cbn [fst snd] in *.
  destruct (write_back_ok a (control_of n a) n0 c' n1 n Hn E1 E2 E3 Hh Hstep Hentry) as [Hok Hids].
  split; [exact Hok|]. split.
  - split; [exact Hids|]. cbn. rewrite <- E4. apply Hstep.
  - exists c'. split; [cbn; rewrite <- E1; f_equal; apply Hstep|]. by eapply tick_level_step.
Qed.

(** The agents are ticked one after another. *)
Lemma tick_all_ok scov gcov live grows visible lag now elapsed l n :
  node_ok n -> NoDup l -> (forall a, a ∈ l -> a ∈ ids n) ->
  cov_ok scov -> cov_ok gcov -> lag_ok cfg lag ->
  wp (for_each l (tick_one cfg w scov gcov live grows visible lag now elapsed)) (fun _ n' =>
    node_ok n' /\ node_frame n n' /\
    (forall a, a ∈ l -> exists c', states n' !! a = Some c' /\ level_step now (control_of n a) c') /\
    (forall a, (a ∉ l) -> states n' !! a = states n !! a)) n.
Proof using Hcfg.
  intros Hn Hnd Hl Hs Hg Hlag. revert n Hn Hl. induction Hnd as [|a l Ha Hnd IH]; intros n Hn Hl; cbn [for_each].
  { apply wp_ret. split; [done|]. split; [done|]. split; [by intros a ?%elem_of_nil|done]. }
  wp_step. eapply wp_mono; [|apply tick_one_ok; [done|apply Hl; left|done..]].
  intros ? n1 (Hn1 & [Fi Fg] & c' & Est & Hc'). eapply wp_mono; [|apply IH; [done|]].
  - intros ? n2 (Hn2 & [Fi' Fg'] & Hin & Hout). split; [done|]. split; [split; congruence|]. split.
    + intros b [->|Hb]%elem_of_cons.
      * exists c'. split; [|done]. by rewrite (Hout a Ha), Est, lookup_insert_eq.
      * destruct (Hin b Hb) as (cb & Ecb & Hcb). exists cb. split; [done|].
        unfold control_of in *. rewrite Est, lookup_insert_ne in Hcb by (by intros ->). done.
    + intros b [Hne Hb]%not_elem_of_cons. rewrite (Hout b Hb), Est. by apply lookup_insert_ne.
  - intros b Hb. unfold ids in *. rewrite Fi. apply Hl. by right.
Qed.

(** ** The storm brake *)

Definition cancelled (c : AgentControl) : AgentControl :=
  match pending c with Some _ => set_shrink_acc 0 (set_pending None c) | None => c end.

Lemma cancelled_ok c : ctl_ok c -> ctl_ok (cancelled c) /\ home (cancelled c) = home c /\
  declared_level (cancelled c) = declared_level c /\ target_level (cancelled c) = target_level c /\
  pending (cancelled c) = None /\ pending_grow (cancelled c) = pending_grow c.
Proof.
  intros Hc. unfold cancelled. destruct (pending c) eqn:Ep; [|done].
  split; [|done]. destruct (set_pending_none_ok c Hc). by split.
Qed.

(** A node with one record replaced by one with the same home and target. *)
Lemma replace_control_ok n a c c' : node_ok n -> states n !! a = Some c -> ctl_ok c' ->
  home c' = home c -> target_level c' = target_level c ->
  node_ok (set_states (<[ a := c' ]> (states n)) n).
Proof.
  intros Hn Ha Hc' Hh Ht. split; cbn; [|apply Hn..|].
  - intros b cb. rewrite lookup_insert_Some. intros [[-> <-]|[_ Hb]]; [|by apply (no_ctl n Hn)].
    split; [done|]. rewrite Hh. by apply (no_ctl n Hn).
  - intros b cb He Hb. rewrite lookup_insert_Some. intros [[-> <-]|[_ Hcb]]; [|by apply (no_arcs n Hn)].
    rewrite Hh, Ht. by apply (no_arcs n Hn).
Qed.

Lemma cancel_pending_ok n a c : node_ok n -> states n !! a = Some c ->
  let n' := cancel_pending cfg n (a, c) in
  node_ok n' /\ node_frame n n' /\ states n' = <[ a := cancelled c ]> (states n).
Proof.
  intros Hn Ha. cbv zeta. unfold cancel_pending.
  destruct (cancelled_ok c) as (Hc & Hh & _ & Ht & _); [by apply (no_ctl n Hn a)|].
  unfold cancelled in *. destruct (pending c) as [p|]; [|by rewrite insert_id].
  pose proof (replace_control_ok n a c _ Hn Ha Hc Hh Ht) as Hn1.
  set (n1 := set_states _ n) in *.
  assert (node_ok (intents_remove a n1)) as Hn2.
  { destruct Hn1. split; try done. by apply table_wf_remove. }
  destruct (agentinfo_encoding cfg && _) eqn:Ee; [|done].
  apply andb_true_iff in Ee as [Ee _]. split; [|split; [split; [|done]|done]].
  - split; try apply Hn2; cbn.
    + intros b Hb. apply elem_of_map_agent in Hb as (b1 & Hb & _ & ->); [|done].
      apply elem_of_map_agent in Hb as (b0 & Hb & _ & ->); [|done]. by apply (no_agents n Hn).
    + intros b cb He. congruence.
  - destruct (publish_arc_frame a (block_arc (home c) (declared_level c)) (intents_remove a n1))
      as [_ [E _]]. unfold ids. rewrite E. by apply map_agent_ids.
Qed.

Lemma cancel_all_ok l n : node_ok n -> NoDup l.*1 -> (forall a c, (a, c) ∈ l -> states n !! a = Some c) ->
  let n' := foldl (cancel_pending cfg) n l in
  node_ok n' /\ node_frame n n' /\
  (forall a c, (a, c) ∈ l -> states n' !! a = Some (cancelled c)) /\
  (forall a, (a ∉ l.*1) -> states n' !! a = states n !! a).
Proof.
  cbv zeta. revert n. induction l as [|[a c] l IH]; intros n Hn Hnd Hl; cbn [foldl].
  { split; [done|]. split; [done|]. split; [by intros ? ? ?%elem_of_nil|done]. }
  rewrite fmap_cons in Hnd. apply NoDup_cons in Hnd as [Ha Hnd].
  destruct (cancel_pending_ok n a c Hn) as (Hn1 & [Fi Fg] & Est); [apply Hl; left|].
  destruct (IH _ Hn1 Hnd) as (Hn2 & [Fi' Fg'] & Hin & Hout).
  { intros b cb Hb. rewrite Est, lookup_insert_ne; [apply Hl; by right|].
    intros ->. apply Ha. apply list_elem_of_fmap. by exists (b, cb). }
  split; [done|]. split; [split; congruence|]. split.
  - intros b cb [[= -> ->]|Hb]%elem_of_cons; [|by apply Hin].
    by rewrite (Hout a Ha), Est, lookup_insert_eq.
  - intros b [Hne Hb]%not_elem_of_cons. rewrite (Hout b Hb), Est. by apply lookup_insert_ne.
Qed.

Lemma storm_brake_ok gone own n : node_ok n ->
  let n' := storm_brake cfg gone own n in
  node_ok n' /\ ids n' = ids n /\ last_gone n' = gone /\
  forall a, states n' !! a =
    (if newly_gone gone own n then cancelled else fun c => c) <$> states n !! a.
Proof.
  intros Hn. cbv zeta. unfold storm_brake.
  assert (node_ok (set_last_gone gone n)) as Hn1 by (destruct Hn; by split).
  destruct (newly_gone gone own n).
  - destruct (cancel_all_ok (map_to_list (states n)) (set_last_gone gone n) Hn1)
      as (Hn2 & [Fi Fg] & Hin & Hout).
    + apply NoDup_fst_map_to_list.
    + intros a c. apply elem_of_map_to_list.
    + split; [done|]. split; [done|]. split; [done|]. intros a.
      destruct (states n !! a) as [c|] eqn:E; cbn.
      * apply Hin. by apply elem_of_map_to_list.
      * rewrite Hout; [done|]. rewrite list_elem_of_fmap. intros ([b cb] & -> & Hb).
        apply elem_of_map_to_list in Hb. cbn in E. congruence.
  - split; [done|]. split; [done|]. split; [done|]. intros a.
    change (states (set_last_gone gone n)) with (states n). by destruct (states n !! a).
Qed.

(** ** The whole check *)

(** Updates that touch neither the records nor the agents. *)
Record other_state (n n' : Node) : Prop := {
  os_states : states n' = states n;
  os_agents : local_agents n' = local_agents n;
  os_last_gone : last_gone n' = last_gone n;
  os_intents : table_wf (intents n) -> table_wf (intents n');
  os_grows : table_wf (grow_intents n) -> table_wf (grow_intents n');
}.

Lemma other_state_ok n n' : other_state n n' -> node_ok n -> node_ok n'.
Proof.
  intros [Es Ea _ Hi Hg] Hn. split; rewrite ?Es, ?Ea; try apply Hn.
  - apply Hi, Hn.
  - apply Hg, Hn.
Qed.

Lemma silent_peers_ok peers gone lag now n : lag_ok cfg lag ->
  wp (silent_peers cfg w peers gone lag now) (fun _ n' => other_state n n') n.
Proof using Hcfg.
  intros Hlag. unfold silent_peers. wp_step.
  destruct (wait_for_ok cfg Hcfg lag Hlag) as [wait Ew]. eapply wp_lift; [exact Ew|].
  wp_step. wp_step. destruct (foldl _ _ _) as [contacts silent]. repeat wp_step. by split.
Qed.

Lemma probe_holders_ok peers gone halves now n : other_state n (probe_holders cfg w peers gone halves now n).
Proof.
  unfold probe_holders. destruct (_ || _); [done|]. destruct (foldl _ _ _) as [last due].
  by destruct (bool_decide _).
Qed.

Lemma forget_agents_ok own n : node_ok n -> node_ok (forget_agents own n).
Proof.
  intros Hn. split; cbn; [|apply Hn..|].
  - intros a c. rewrite map_lookup_filter_Some. intros [Ha _]. by apply (no_ctl n Hn).
  - intros a c He Ha. rewrite map_lookup_filter_Some. intros [Hc _]. by apply (no_arcs n Hn).
Qed.

Lemma level_step_cancelled now c c' : ctl_ok c -> level_step now (cancelled c) c' ->
  level_step now c c' /\ declared_level c <= declared_level c'.
Proof.
  intros Hc [Hh Hl]. destruct (cancelled_ok c Hc) as (_ & Eh & Ed & Et & Ep & _).
  rewrite Eh, Ed, Et, Ep in *. destruct Hl as [E|[(_ & Ht & E)|(p & Hp & _)]]; [| |done].
  - split; [by split; [|left]|lia].
  - split; [|lia]. split; [done|]. right; left. destruct (pending c) as [p|] eqn:Hp; [|done].
    destruct (ctl_pending c Hc p Hp) as (_ & Ht' & _). lia.
Qed.

Lemma elem_of_own a n : a ∈ own_ids_of n <-> a ∈ ids n.
Proof. unfold own_ids_of, ids. by rewrite elem_of_list_to_set. Qed.

(** The part of a check from the storm brake on. *)
Lemma check_tail_ok scov gcov live grows visible lag now elapsed gone peers n :
  node_ok n -> NoDup (ids n) -> cov_ok scov -> cov_ok gcov -> lag_ok cfg lag ->
  wp (modify (storm_brake cfg gone (own_ids_of n)) ;;*
      for_each (ids n) (tick_one cfg w scov gcov live grows visible lag now elapsed) ;;*
      modify (forget_agents (own_ids_of n)) ;;*
      if probe_sibling_holders cfg then
        let* n := get in modify (probe_holders cfg w peers gone (probe_halves n) now)
      else ret tt)
    (fun _ n' => node_ok n' /\ ids n' = ids n /\ last_gone n' = gone /\
      (forall a, is_Some (states n' !! a) <-> a ∈ ids n) /\
      forall a, a ∈ ids n -> exists c', states n' !! a = Some c' /\
        level_step now (control_of n a) c' /\
        (newly_gone gone (own_ids_of n) n = true ->
           declared_level (control_of n a) <= declared_level c')) n.
Proof using Hcfg.
  intros Hn Hnd Hs Hg Hlag. wp_step. wp_step.
  destruct (storm_brake_ok gone (own_ids_of n) n Hn) as (Hn1 & Hids1 & Hgone1 & Hst1).
  set (n1 := storm_brake cfg gone (own_ids_of n) n) in *. wp_step.
  eapply wp_mono; [|apply tick_all_ok; [done|done|by rewrite Hids1|done..]].
  intros [] n2 (Hn2 & [Hids2 Hgone2] & Hin & Hout). wp_step. wp_step.
  set (n3 := forget_agents (own_ids_of n) n2).
  assert (forall n4, other_state n3 n4 -> node_ok n4 /\ ids n4 = ids n /\ last_gone n4 = gone /\
    (forall a, is_Some (states n4 !! a) <-> a ∈ ids n) /\
    forall a, a ∈ ids n -> exists c', states n4 !! a = Some c' /\
      level_step now (control_of n a) c' /\
      (newly_gone gone (own_ids_of n) n = true ->
         declared_level (control_of n a) <= declared_level c')) as Hend.
  { intros n4 Ho. pose proof (forget_agents_ok (own_ids_of n) n2 Hn2) as Hn3.
    split; [by eapply other_state_ok|]. destruct Ho as [Es Ea Eg _ _].
    split; [transitivity (ids n2); [unfold ids; by rewrite Ea|congruence]|].
    split; [rewrite Eg; cbn; congruence|].
    assert (forall a, a ∈ ids n -> states n4 !! a = states n2 !! a) as Hkeep.
    { intros a Ha. rewrite Es. cbn. rewrite map_lookup_filter. destruct (states n2 !! a); [|done]. cbn.
      rewrite option_guard_True; [done|]. by apply elem_of_own. }
    split.
    - intros a. split; [|intros Ha; destruct (Hin a Ha) as (c' & E & _); rewrite Hkeep by done; by exists c'].
      intros [c Hc]. rewrite Es in Hc. cbn in Hc. apply map_lookup_filter_Some in Hc as [_ Hc].
      by apply elem_of_own.
    - intros a Ha. destruct (Hin a Ha) as (c' & Ec' & Hls). exists c'. rewrite Hkeep by done.
      split; [done|]. unfold control_of in *. rewrite Hst1 in Hls.
      destruct (states n !! a) as [c|] eqn:Ec; cbn in *.
      + destruct (newly_gone _ _ _); [|done].
        apply level_step_cancelled in Hls as [? ?]; [done|by apply (no_ctl n Hn a)].
      + split; [done|]. intros _. destruct Hls as [_ [E|[(_ & Ht & _)|(p & Hp & _)]]]; [by rewrite E| |done].
        cbn in Ht. rewrite MAX_LEVEL_val in Ht. lia. }
  destruct (probe_sibling_holders cfg); repeat wp_step; apply Hend; [apply probe_holders_ok|done].
Qed.

(** What a whole check leaves, with the peers and the local agents it saw. *)
Definition checked (peers : list AgentInfoSigned) (n n' : Node) : Prop :=
  let own := own_ids_of n in
  let gone := gone_peers w peers own in
  node_ok n' /\ ids n' = ids n /\
  (ids n <> [] -> last_gone n' = gone /\ (forall a, is_Some (states n' !! a) <-> a ∈ ids n)) /\
  (forall a, a ∈ ids n -> exists c', states n' !! a = Some c' /\
     level_step (w_now w) (control_of n a) c').

(** A check in which a peer, other than a local agent, is newly gone gives up
    no arc. *)
Definition braked (peers : list AgentInfoSigned) (n n' : Node) : Prop :=
  let own := own_ids_of n in
  newly_gone (gone_peers w peers own) own n = true ->
  forall a c', a ∈ ids n -> states n' !! a = Some c' ->
    declared_level (control_of n a) <= declared_level c'.

Lemma check_ok elapsed peers n : node_ok n -> NoDup (ids n) -> w_peers w = Ok peers ->
  wp (check cfg w elapsed) (fun _ n' => checked peers n n' /\ braked peers n n') n.
Proof using Hcfg.
  intros Hn Hnd Hp. unfold check. wp_step. wp_step.
  destruct (bool_decide_reflect (local_agents n = [])) as [Hnil|Hne].
  { apply wp_ret. assert (ids n = []) as E by (unfold ids; by rewrite Hnil).
    unfold checked, braked. rewrite E. split; [|by intros _ ? ? ?%elem_of_nil].
    split; [done|]. split; [done|]. split; [done|]. by intros ? ?%elem_of_nil. }
  wp_step. rewrite Hp. eapply wp_lift; [reflexivity|].
  destruct (IntentTable.live (intents n) (w_now w)) as [live t] eqn:El.
  wp_step. wp_step. cbn [grow_intents set_intents].
  destruct (IntentTable.live (grow_intents n) (w_now w)) as [grows u] eqn:Eg.
  wp_step. wp_step. set (n1 := set_grow_intents u (set_intents t n)).
  assert (other_state n n1) as Ho.
  { split; try done; cbn.
    - intros Hw. apply (table_wf_live _ (w_now w)) in Hw. by rewrite El in Hw.
    - intros Hw. apply (table_wf_live _ (w_now w)) in Hw. by rewrite Eg in Hw. }
  wp_step. destruct (lag_estimate_ok peers (gone_peers w peers (own_ids_of n)) (w_now w)) as (lag & Elag & Hlag).
  eapply wp_lift; [exact Elag|]. wp_step.
  match goal with |- wp ?m ?Q n1 => assert (wp m (fun cov n2 => cov_ok cov /\ other_state n1 n2) n1) as Hcov end.
  { destruct (require_recent_contact cfg); [|apply wp_ret; split; [apply others_coverage_ok|by split]].
    wp_step. eapply wp_mono; [|by apply silent_peers_ok]. intros silent n2 Ho2. apply wp_ret.
    split; [apply others_coverage_ok|done]. }
  eapply wp_mono; [|exact Hcov]. intros scov n2 [Hscov Ho2].
  assert (node_ok n2) as Hn2 by (eapply other_state_ok; [exact Ho2|]; by eapply other_state_ok).
  assert (local_agents n2 = local_agents n) as Ea by (rewrite (os_agents _ _ Ho2); apply Ho).
  assert (states n2 = states n) as Es by (rewrite (os_states _ _ Ho2); apply Ho).
  assert (last_gone n2 = last_gone n) as Egone by (rewrite (os_last_gone _ _ Ho2); apply Ho).
  assert (ids n2 = ids n) as Ei by (unfold ids; by rewrite Ea).
  assert (own_ids_of n2 = own_ids_of n) as Eo by (unfold own_ids_of; by rewrite Ea).
  assert (forall a, control_of n2 a = control_of n a) as Ec by (intros a; unfold control_of; by rewrite Es).
  change (map la_agent (local_agents n)) with (ids n). rewrite <- Eo, <- Ei.
  eapply wp_mono; [|apply check_tail_ok; [exact Hn2|by rewrite Ei|exact Hscov|apply others_coverage_ok|exact Hlag]].
  intros [] n3 (Hn3 & Hi3 & Hg3 & Hdom & Hall). rewrite Ei in *. rewrite Eo in *.
  unfold checked, braked. split.
  - split; [done|]. split; [done|]. split; [done|]. intros a Ha.
    destruct (Hall a Ha) as (c' & E & Hls & _). rewrite Ec in Hls. by exists c'.
  - intros Hng a c' Ha Hc'. destruct (Hall a Ha) as (c2 & E & _ & Hb). rewrite Ec in Hb.
    replace c' with c2 by congruence. apply Hb. unfold newly_gone in *. by rewrite Egone.
Qed.

(** C2: a check never fails once the peer store answers, and leaves a
    consistent node: every record and both intent tables well formed, the
    local agents the same, every one of them and no other with a record, its
    arcs in step with it. A level moves by at most one per check, up when the
    larger arc is declared, and down only on a pending shrink that is due. *)
Theorem check_safe elapsed peers n : node_ok n -> NoDup (ids n) -> w_peers w = Ok peers ->
  wp (check cfg w elapsed) (fun _ n' => checked peers n n') n.
Proof using Hcfg.
  intros Hn Hnd Hp. eapply wp_mono; [|by apply check_ok]. by intros [] n' [? _].
Qed.

(** C3: the storm brake. A check that first sees a peer gone, one that is not a
    local agent, gives up no level of any local agent, pending shrinks or not. *)
Theorem storm_brake_holds elapsed peers n : node_ok n -> NoDup (ids n) -> w_peers w = Ok peers ->
  wp (check cfg w elapsed) (fun _ n' => braked peers n n') n.
Proof using Hcfg.
  intros Hn Hnd Hp. eapply wp_mono; [|by apply check_ok]. by intros [] n' [_ ?].
Qed.

End check.

(** ** A concrete node *)

(** One local agent with a due shrink of half the ring, and a peer that has
    just been marked unresponsive. *)
Definition due_control : AgentControl :=
  MkAgentControl (home_sector (loc [1])) 9 9 0 0
    (Some (MkPendingShrink 10 (vacate_half (home_sector (loc [1])) 9) 2000000 (from_millis 10000))) None.

Definition due_node : Node :=
  MkNode IntentTable.default IntentTable.default {[ [1] := due_control ]} ∅ ∅ ∅
    [MkLocalAgent [1] FULL FULL] [].

Definition lost_peer : AgentInfoSigned := peer_with [2] (Some "ws://b") FULL.

Definition lossy_world : World :=
  MkWorld 1000000 (Ok [lost_peer]) (fun _ => Some 5) (fun _ => None) (fun _ => None) true.

Lemma due_node_ok : node_ok fixed_lag_config due_node.
Proof.
  assert (ctl_ok due_control) as Hc.
  { split; cbn -[vacate_half home_sector loc]; [| |by intros p [= <-]|done].
    - apply (bool_decide_eq_true_1 _). vm_compute. done.
    - lia. }
  split; cbn -[due_control].
  - intros a c [<- <-]%lookup_singleton_Some. done.
  - intros a f i. unfold entry. cbn. by rewrite lookup_empty.
  - intros a f i. unfold entry. cbn. by rewrite lookup_empty.
  - intros a ->%list_elem_of_singleton. apply (bool_decide_eq_true_1 _). vm_compute. done.
  - intros a c _ ->%list_elem_of_singleton [_ <-]%lookup_singleton_Some. vm_compute. done.
Qed.

Lemma check_safe_witness :
  wp (check fixed_lag_config lossy_world (from_millis 5000))
    (fun _ n' => checked fixed_lag_config lossy_world [lost_peer] due_node n') due_node.
Proof.
  apply (check_safe fixed_lag_config lossy_world fixed_lag_config_ok (from_millis 5000) [lost_peer]).
  - apply due_node_ok.
  - apply (bool_decide_eq_true_1 _). vm_compute. done.
  - reflexivity.
Defined.

Lemma storm_brake_holds_witness :
  wp (check fixed_lag_config lossy_world (from_millis 5000))
    (fun _ n' => braked lossy_world [lost_peer] due_node n') due_node.
Proof.
  apply (storm_brake_holds fixed_lag_config lossy_world fixed_lag_config_ok (from_millis 5000) [lost_peer]).
  - apply due_node_ok.
  - apply (bool_decide_eq_true_1 _). vm_compute. done.
  - reflexivity.
Defined.

(** The loss is seen at this check. *)
Example brake_engages :
  newly_gone (gone_peers lossy_world [lost_peer] (own_ids_of due_node)) (own_ids_of due_node) due_node
  = true.
Proof. vm_compute. reflexivity. Qed.
