(* ===== verification/PeerMeta.v ===== *)
(** What the node records of its peers (crates/gossip/src/peer_meta_store.rs)
    over the host's peer meta store (crates/api/src/peer_meta_store.rs), and
    the in-memory store (crates/core/src/factories/mem_peer_meta_store.rs). *)

From S2P Require Import Prelude Arc Timestamp Id Agent.

(** The trait [PeerMetaStore]: bytes by peer and key, with an expiry. *)
Class PeerMetaStore (H : Type) := {
  pm_put : Url -> string -> bytes -> option Timestamp -> M H unit;
  pm_get : Url -> string -> M H (option bytes);
  pm_get_all_by_key : string -> M H (gmap Url bytes);
  pm_delete : Url -> string -> M H unit;
}.

(** The number types that are stored, as serde_json writes and reads them. *)
Inductive NumType : Type := TU32 | TU64 | TTimestamp.

Definition in_type (t : NumType) (n : Z) : Prop :=
  match t with TU32 => is_u32 n | TU64 => is_u64 n | TTimestamp => is_i64 n end.

#[global] Instance in_type_dec t n : Decision (in_type t n).
Proof. destruct t; unfold in_type, is_u64, is_i64; apply _. Defined.

Class SerdeNum := {
  to_vec : Z -> bytes;
  from_slice : NumType -> bytes -> option Z;
  from_slice_to_vec t n : in_type t n -> from_slice t (to_vec n) = Some n;
}.

Definition HOUR : Duration := from_secs (60 * 60).
Definition DAY : Duration := from_secs (24 * 60 * 60).

Section meta.
Context {H : Type} `{PeerMetaStore H} `{SerdeNum}.
Variable now : Timestamp.

Definition meta_get (t : NumType) (peer : Url) (name : string) : M H (option Z) :=
  let* v := pm_get peer name in
  match v with
  | None => ret None
  | Some v =>
      match from_slice t v with
      | Some n => ret (Some n)
      | None => fail "failed to deserialize peer meta value"
      end
  end.

Definition meta_put (peer : Url) (name : string) (value : Z) (expiry : option Timestamp)
  : M H unit :=
  pm_put peer name (to_vec value) expiry.

Definition last_gossip_timestamp (peer : Url) := meta_get TTimestamp peer "gossip:last_timestamp".
Definition set_last_gossip_timestamp (peer : Url) (timestamp : Timestamp) :=
  meta_put peer "gossip:last_timestamp" timestamp (Some (ts_add now (from_secs (10 * 60)))).

Definition new_ops_bookmark (peer : Url) := meta_get TTimestamp peer "gossip:new_ops_bookmark".
Definition set_new_ops_bookmark (peer : Url) (timestamp : Timestamp) :=
  meta_put peer "gossip:new_ops_bookmark" timestamp (Some (ts_add now DAY)).

Definition peer_dht_op_count (peer : Url) := meta_get TU64 peer "gossip:dht_op_count".
Definition set_peer_dht_op_count (peer : Url) (count : Z) :=
  meta_put peer "gossip:dht_op_count" count (Some (ts_add now DAY)).

(** The counters, a key each: [value.unwrap_or_default() + 1] on u32. *)
Definition incr (name : string) (keep : Duration) (peer : Url) : M H unit :=
  let* value := meta_get TU32 peer name in
  meta_put peer name (wrap_u32 (default 0 value + 1)) (Some (ts_add now keep)).

Definition incr_peer_behavior_errors := incr "gossip:peer_behavior_errors" HOUR.
Definition incr_local_errors := incr "gossip:local_errors" HOUR.
Definition incr_peer_busy := incr "gossip:peer_busy" HOUR.
Definition incr_peer_terminated := incr "gossip:peer_terminated" HOUR.
Definition incr_completed_rounds := incr "gossip:completed_rounds" DAY.
Definition incr_peer_timeout := incr "gossip:peer_timeouts" DAY.

(** The provided methods of the trait. *)
Definition pm_set_unresponsive (peer : Url) (expiry when : Timestamp) : M H unit :=
  pm_put peer "root:unresponsive" (to_vec when) (Some expiry).

Definition pm_get_unresponsive (peer : Url) : M H (option Timestamp) :=
  let* maybe_value := pm_get peer "root:unresponsive" in
  match maybe_value with
  | None => ret None
  | Some value =>
      match from_slice TTimestamp value with
      | Some when => ret (Some when)
      | None => fail "failed to deserialize"
      end
  end.
End meta.

(** ** The contract, with an abstract view *)

(** What clients rely on, as long as no entry expires: a put value is read
    back, and other entries are unchanged. *)
Class PeerMetaLaws (H : Type) `{PeerMetaStore H} := {
  meta_view : H -> Url -> string -> option bytes;
  pm_get_view peer key s : pm_get peer key s = (Ok (meta_view s peer key), s);
  pm_put_ok peer key v e s : (pm_put peer key v e s).1 = Ok tt;
  pm_put_view peer key v e s p k :
    meta_view (pm_put peer key v e s).2 p k =
      if decide (p = peer /\ k = key) then Some v else meta_view s p k;
}.

Section laws.
Context {H : Type} `{PeerMetaLaws H} `{SerdeNum}.
Variable now : Timestamp.

(** A counter as it is read, when the entry holds one. *)
Definition counter (s : H) (peer : Url) (name : string) : option Z :=
  match meta_view s peer name with None => Some 0 | Some v => from_slice TU32 v end.

Lemma incr_counter name keep peer s n :
  counter s peer name = Some n ->
  exists s', incr now name keep peer s = (Ok tt, s') /\
    counter s' peer name = Some (wrap_u32 (n + 1)) /\
    forall p k, p <> peer \/ k <> name -> meta_view s' p k = meta_view s p k.
Proof.
  intros Hn. unfold incr, meta_get, meta_put, bind. rewrite pm_get_view. unfold counter in Hn.
  assert ((match meta_view s peer name with
           | Some v => match from_slice TU32 v with Some n0 => ret (Some n0) | None => fail "failed to deserialize peer meta value" end
           | None => ret None end) s = (Ok (match meta_view s peer name with None => None | Some _ => Some n end), s)) as ->.
  { destruct (meta_view s peer name); [|done]. by rewrite Hn. }
  assert (default 0 (match meta_view s peer name with None => None | Some _ => Some n end) = n) as ->.
  { destruct (meta_view s peer name); [done|]. by simplify_eq/=. }
  pose proof (pm_put_ok peer name (to_vec (wrap_u32 (n + 1))) (Some (ts_add now keep)) s) as Hok.
  pose proof (pm_put_view peer name (to_vec (wrap_u32 (n + 1))) (Some (ts_add now keep)) s) as Hv.
  destruct (pm_put _ _ _ _ s) as [r s']. simpl in *. subst r. exists s'. split; [done|]. split.
  - unfold counter. rewrite Hv, decide_True by done. apply from_slice_to_vec, wrap_u32_range.
  - intros p k Hpk. rewrite Hv, decide_False by tauto. done.
Qed.
End laws.

(** ** The in-memory store *)

Abbreviation MemPeerMeta := (gmap string (gmap string bytes)).

(** The expiry is ignored. *)
Definition mem_put (peer : Url) (key : string) (value : bytes) (_expiry : option Timestamp)
  : M MemPeerMeta unit := fun inner =>
  (Ok tt, <[ peer := <[ key := value ]> (default ∅ (inner !! peer)) ]> inner).

Definition mem_get (peer : Url) (key : string) : M MemPeerMeta (option bytes) := fun inner =>
  (Ok (inner !! peer ≫= fun entry => entry !! key), inner).

Definition mem_get_all_by_key (key : string) : M MemPeerMeta (gmap Url bytes) := fun inner =>
  (Ok (omap (fun kv_map => kv_map !! key) inner), inner).

Definition mem_delete (peer : Url) (key : string) : M MemPeerMeta unit := fun inner =>
  (Ok tt, match inner !! peer with
          | Some entry => <[ peer := delete key entry ]> inner
          | None => inner
          end).

#[global] Instance MemPeerMetaStore : PeerMetaStore MemPeerMeta := {|
  pm_put := mem_put;
  pm_get := mem_get;
  pm_get_all_by_key := mem_get_all_by_key;
  pm_delete := mem_delete;
|}.

#[global] Program Instance MemPeerMetaLaws : PeerMetaLaws MemPeerMeta := {|
  meta_view inner peer key := inner !! peer ≫= fun entry => entry !! key;
|}.
Next Obligation. done. Qed.
Next Obligation. done. Qed.
Next Obligation.
  intros peer key v e inner p k. cbn [pm_put MemPeerMetaStore mem_put snd].
  destruct (decide (p = peer /\ k = key)) as [[-> ->]|Hn].
  - rewrite lookup_insert_eq. simpl. by rewrite lookup_insert_eq.
  - destruct (decide (p = peer)) as [->|Hp].
    + rewrite lookup_insert_eq. simpl. rewrite lookup_insert_ne by naive_solver.
      by destruct (inner !! peer).
    + by rewrite lookup_insert_ne by done.
Qed.

(** What the key query returns is what each peer's entry holds, and a deleted
    entry is gone while the others stay. *)
Lemma mem_get_all_lookup key inner peer :
  exists all, mem_get_all_by_key key inner = (Ok all, inner) /\
    all !! peer = meta_view inner peer key.
Proof. eexists. split; [done|]. by rewrite lookup_omap. Qed.

Lemma mem_delete_view peer key inner p k :
  meta_view (mem_delete peer key inner).2 p k =
    if decide (p = peer /\ k = key) then None else meta_view inner p k.
Proof.
  cbn. destruct (inner !! peer) as [entry|] eqn:E.
  - destruct (decide (p = peer)) as [->|Hp].
    + rewrite lookup_insert_eq, E. cbn. destruct (decide (k = key)) as [->|Hk].
      * by rewrite lookup_delete_eq, decide_True.
      * rewrite lookup_delete_ne by done. by rewrite decide_False by tauto.
    + rewrite lookup_insert_ne by done. by rewrite decide_False by tauto.
  - destruct (decide (p = peer /\ k = key)) as [[-> ->]|]; [|done]. by rewrite E.
Qed.
