(* ===== verification/GossipWire.v ===== *)
(** Gossip messages as bytes (crates/gossip/src/protocol.rs): an outer message
    with a type number and the encoded inner message.  The protobuf encoding of
    each message type is prost's, a parameter. *)

From S2P Require Import Prelude Arc Timestamp Id Agent Snapshot GossipProtocol.

(** [prost::Message] for a message type: encoding may fail for want of room. *)
Class Message (A : Type) := {
  msg_encode : A -> option bytes;
  msg_decode : bytes -> option A;
}.

Class MessageLaws (A : Type) `{Message A} := {
  msg_decode_encode a b : msg_encode a = Some b -> msg_decode b = Some a;
}.

Inductive GossipMessageType : Type :=
  | TUnspecified | TInitiate | TAccept | TNoDiff | TDiscSectorsDiff | TDiscSectorDetailsDiff
  | TDiscSectorDetailsDiffResponse | TRingSectorDetailsDiff | TRingSectorDetailsDiffResponse
  | THashes | TAgents | TBusy | TTerminate.

(** [msg_type as i32] *)
Definition type_number (t : GossipMessageType) : Z :=
  match t with
  | TUnspecified => 0 | TInitiate => 1 | TAccept => 2 | TNoDiff => 3 | TDiscSectorsDiff => 4
  | TDiscSectorDetailsDiff => 5 | TDiscSectorDetailsDiffResponse => 6
  | TRingSectorDetailsDiff => 7 | TRingSectorDetailsDiffResponse => 8 | THashes => 9
  | TAgents => 10 | TBusy => 11 | TTerminate => 12
  end.

Record K2GossipMessage : Type := MkGossipMessage { msg_type : Z; data : bytes }.

(** The generated getter: an unknown number reads as the default. *)
Definition get_msg_type (outer : K2GossipMessage) : GossipMessageType :=
  match msg_type outer with
  | 1 => TInitiate | 2 => TAccept | 3 => TNoDiff | 4 => TDiscSectorsDiff
  | 5 => TDiscSectorDetailsDiff | 6 => TDiscSectorDetailsDiffResponse
  | 7 => TRingSectorDetailsDiff | 8 => TRingSectorDetailsDiffResponse | 9 => THashes
  | 10 => TAgents | 11 => TBusy | 12 => TTerminate
  | _ => TUnspecified
  end.

(** prost for every message type of the protocol. *)
Class Protobuf := {
  #[global] pb_outer :: Message K2GossipMessage;
  #[global] pb_initiate :: Message K2GossipInitiateMessage;
  #[global] pb_accept :: Message K2GossipAcceptMessage;
  #[global] pb_no_diff :: Message K2GossipNoDiffMessage;
  #[global] pb_disc_sectors :: Message K2GossipDiscSectorsDiffMessage;
  #[global] pb_disc_details :: Message K2GossipDiscSectorDetailsDiffMessage;
  #[global] pb_disc_response :: Message K2GossipDiscSectorDetailsDiffResponseMessage;
  #[global] pb_ring_details :: Message K2GossipRingSectorDetailsDiffMessage;
  #[global] pb_ring_response :: Message K2GossipRingSectorDetailsDiffResponseMessage;
  #[global] pb_hashes :: Message K2GossipHashesMessage;
  #[global] pb_agents :: Message K2GossipAgentsMessage;
  #[global] pb_busy :: Message K2GossipBusyMessage;
  #[global] pb_terminate :: Message K2GossipTerminateMessage;
}.

Class ProtobufLaws `{Protobuf} := {
  #[global] pl_outer :: MessageLaws K2GossipMessage;
  #[global] pl_initiate :: MessageLaws K2GossipInitiateMessage;
  #[global] pl_accept :: MessageLaws K2GossipAcceptMessage;
  #[global] pl_no_diff :: MessageLaws K2GossipNoDiffMessage;
  #[global] pl_disc_sectors :: MessageLaws K2GossipDiscSectorsDiffMessage;
  #[global] pl_disc_details :: MessageLaws K2GossipDiscSectorDetailsDiffMessage;
  #[global] pl_disc_response :: MessageLaws K2GossipDiscSectorDetailsDiffResponseMessage;
  #[global] pl_ring_details :: MessageLaws K2GossipRingSectorDetailsDiffMessage;
  #[global] pl_ring_response :: MessageLaws K2GossipRingSectorDetailsDiffResponseMessage;
  #[global] pl_hashes :: MessageLaws K2GossipHashesMessage;
  #[global] pl_agents :: MessageLaws K2GossipAgentsMessage;
  #[global] pl_busy :: MessageLaws K2GossipBusyMessage;
  #[global] pl_terminate :: MessageLaws K2GossipTerminateMessage;
}.

Section wire.
Context `{Protobuf}.

Definition serialize_data {A} `{Message A} (a : A) : res bytes :=
  match msg_encode a with
  | Some b => Ok b
  | None => Err "Failed to serialize gossip message"
  end.

Definition serialize_inner_gossip_message (value : GossipMessage)
  : res (GossipMessageType * bytes) :=
  match value with
  | Initiate m => pair TInitiate <$> serialize_data m
  | Accept m => pair TAccept <$> serialize_data m
  | NoDiff m => pair TNoDiff <$> serialize_data m
  | DiscSectorsDiff m => pair TDiscSectorsDiff <$> serialize_data m
  | DiscSectorDetailsDiff m => pair TDiscSectorDetailsDiff <$> serialize_data m
  | DiscSectorDetailsDiffResponse m => pair TDiscSectorDetailsDiffResponse <$> serialize_data m
  | RingSectorDetailsDiff m => pair TRingSectorDetailsDiff <$> serialize_data m
  | RingSectorDetailsDiffResponse m => pair TRingSectorDetailsDiffResponse <$> serialize_data m
  | Hashes m => pair THashes <$> serialize_data m
  | Agents m => pair TAgents <$> serialize_data m
  | Busy m => pair TBusy <$> serialize_data m
  | Terminate m => pair TTerminate <$> serialize_data m
  end.

Definition serialize_gossip_message (value : GossipMessage) : res bytes :=
  let? (t, b) := serialize_inner_gossip_message value in
  serialize_data (MkGossipMessage (type_number t) b).

Definition deserialize_data {A B} `{Message A} (f : A -> B) (b : bytes) : res B :=
  match msg_decode b with
  | Some a => Ok (f a)
  | None => Err "failed to decode"
  end.

Definition deserialize_gossip_message (value : bytes) : res GossipMessage :=
  let? outer := deserialize_data id value in
  match get_msg_type outer with
  | TInitiate => deserialize_data Initiate (data outer)
  | TAccept => deserialize_data Accept (data outer)
  | TNoDiff => deserialize_data NoDiff (data outer)
  | TDiscSectorsDiff => deserialize_data DiscSectorsDiff (data outer)
  | TDiscSectorDetailsDiff => deserialize_data DiscSectorDetailsDiff (data outer)
  | TDiscSectorDetailsDiffResponse => deserialize_data DiscSectorDetailsDiffResponse (data outer)
  | TRingSectorDetailsDiff => deserialize_data RingSectorDetailsDiff (data outer)
  | TRingSectorDetailsDiffResponse => deserialize_data RingSectorDetailsDiffResponse (data outer)
  | THashes => deserialize_data Hashes (data outer)
  | TAgents => deserialize_data Agents (data outer)
  | TBusy => deserialize_data Busy (data outer)
  | TTerminate => deserialize_data Terminate (data outer)
  | TUnspecified => Err "Unknown gossip message type"
  end.

Lemma get_type_number t b : get_msg_type (MkGossipMessage (type_number t) b) = t.
Proof. by destruct t. Qed.

Lemma serialize_data_decodes {A B} `{MessageLaws A} (f : A -> B) a b :
  serialize_data a = Ok b -> deserialize_data f b = Ok (f a).
Proof.
  unfold serialize_data, deserialize_data. destruct (msg_encode a) eqn:E; intros; simplify_eq.
  by rewrite (msg_decode_encode _ _ E).
Qed.

(** A message that was serialized is deserialized to the same message, of
    every type. *)
Theorem gossip_message_roundtrip `{!ProtobufLaws} m b :
  serialize_gossip_message m = Ok b -> deserialize_gossip_message b = Ok m.
Proof.
  unfold serialize_gossip_message, deserialize_gossip_message.
  destruct (serialize_inner_gossip_message m) as [[t d]|e|e] eqn:E; [|done..]. cbn [mbind res_bind].
  intros Hb. rewrite (serialize_data_decodes id _ _ Hb). cbn [mbind res_bind].
  unfold id. rewrite get_type_number. cbn [data].
  destruct m as [m|m|m|m|m|m|m|m|m|m|m|m]; cbn in E;
    (destruct (serialize_data m) eqn:S; [|done..]; cbn in E; simplify_eq;
     by rewrite (serialize_data_decodes _ _ _ S)).
Qed.
End wire.

(** ** A witness: an encoding of which only the busy message has room *)

Section no_room.
Local Instance no_room {A} : Message A := {| msg_encode _ := None; msg_decode _ := None |}.

Local Instance outer_bytes : Message K2GossipMessage := {|
  msg_encode m := Some (msg_type m :: data m);
  msg_decode b := match b with t :: d => Some (MkGossipMessage t d) | [] => None end;
|}.

Local Instance busy_bytes : Message K2GossipBusyMessage := {|
  msg_encode m := Some (bu_session_id m);
  msg_decode b := Some (MkBusy b);
|}.

Local Instance no_room_laws {A} : MessageLaws A.
Proof. by split. Qed.

Local Instance outer_laws : MessageLaws K2GossipMessage.
Proof. split. intros [t d] b [= <-]. done. Qed.

Local Instance busy_laws : MessageLaws K2GossipBusyMessage.
Proof. split. intros [s] b [= <-]. done. Qed.

Definition small_protobuf : Protobuf := Build_Protobuf _ _ _ _ _ _ _ _ _ _ _ busy_bytes _.

Lemma small_protobuf_laws : @ProtobufLaws small_protobuf.
Proof. split; apply _. Qed.

Lemma gossip_message_roundtrip_witness :
  @serialize_gossip_message small_protobuf (Busy (MkBusy [7; 8])) = Ok [11; 7; 8] /\
  @deserialize_gossip_message small_protobuf [11; 7; 8] = Ok (Busy (MkBusy [7; 8])).
Proof.
  split; [reflexivity|].
  apply (@gossip_message_roundtrip small_protobuf small_protobuf_laws). reflexivity.
Defined.
End no_room.
