(* ===== verification/GossipNode.v ===== *)
(** The gossip node: its configuration (crates/gossip/src/config.rs), the state
    of its rounds (state.rs), its limit on accepted rounds (burst.rs), the host
    services it calls, and the monad of its message handlers. *)

From S2P Require Import Prelude Arc Timestamp Id Agent Combine ArcSet OpStore.
From S2P Require Import TimePartition HashPartition Snapshot Dht.
From S2P Require Import GossipProtocol GossipWire Agent PeerMeta.

Record K2GossipConfig : Type := MkGossipConfig {
  max_gossip_op_bytes : Z;
  max_request_gossip_op_bytes : Z;
  initial_initiate_interval_ms : Z;
  initiate_interval_ms : Z;
  initiate_jitter_ms : Z;
  min_initiate_interval_ms : Z;
  initiate_burst_factor : Z;
  initiate_burst_window_count : Z;
  round_timeout_ms : Z;
  max_concurrent_accepted_rounds : Z;
}.

Definition default_gossip_config : K2GossipConfig :=
  MkGossipConfig (100 * 1024 * 1024) (100 * 1024 * 1024) 1000 120000 10000 300000 3 5 15000 10.

(** [Duration::from_millis] *)
Definition from_millis (ms : Z) : Duration := ms * 1000.
Definition round_timeout (config : K2GossipConfig) : Duration := from_millis (round_timeout_ms config).

(** ** The state of a round *)

Inductive RoundStage : Type :=
  | StInitiated (our_agents : list AgentId) (our_arc_set : ArcSet) (tie_breaker : Z)
  | StAccepted (our_agents : list AgentId) (common_arc_set : ArcSet)
  | StNoDiff
  | StDiscSectorsDiff (common_arc_set : ArcSet)
  | StDiscSectorDetailsDiff (common_arc_set : ArcSet) (snapshot : DhtSnapshot)
  | StRingSectorDetailsDiff (common_arc_set : ArcSet) (snapshot : DhtSnapshot).

Record GossipRoundState : Type := MkRound {
  session_with_peer : Url;
  started_at : Z;
  session_id : bytes;
  peer_max_op_data_bytes : Z;
  stage : RoundStage;
}.

(** A reading of the wall clock and of the monotonic one, in microseconds. *)
Record Clock : Type := MkClock { wall : Timestamp; instant : Z }.

(** [fresh_id] and [random] are what the random generator returns. *)
Definition new_round (c : Clock) (fresh_id : bytes) (random : Z) (session_with_peer : Url)
  (our_agents : list AgentId) (our_arc_set : ArcSet) : GossipRoundState :=
  MkRound session_with_peer (instant c) fresh_id 0
    (StInitiated our_agents our_arc_set (Z.min U32_MAX (random + 1))).

Definition new_accepted (c : Clock) (session_with_peer : Url) (session_id : bytes)
  (peer_max_op_data_bytes : Z) (our_agents : list AgentId) (common_arc_set : ArcSet)
  : GossipRoundState :=
  MkRound session_with_peer (instant c) session_id (wrap_i32 peer_max_op_data_bytes)
    (StAccepted our_agents common_arc_set).

Definition set_stage (s : RoundStage) (r : GossipRoundState) : GossipRoundState :=
  MkRound (session_with_peer r) (started_at r) (session_id r) (peer_max_op_data_bytes r) s.
Definition set_budget (f : Z -> Z) (r : GossipRoundState) : GossipRoundState :=
  MkRound (session_with_peer r) (started_at r) (session_id r) (f (peer_max_op_data_bytes r)) (stage r).

(** ** The services of the host *)

Record PublishOp : Type := MkPublishOp { pub_op_id : bytes; pub_metadata : option bytes }.

Class PeerStore (H : Type) := {
  ps_insert : list AgentInfoSigned -> M H unit;
  ps_remove : AgentId -> M H unit;
  ps_get : AgentId -> M H (option AgentInfoSigned);
  ps_get_all : M H (list AgentInfoSigned);
  ps_get_by_overlapping_storage_arc : DhtArc -> M H (list AgentInfoSigned);
  ps_get_near_location : Z -> nat -> M H (list AgentInfoSigned);
  ps_get_by_url : Url -> M H (list AgentInfoSigned);
}.

(** The local agents: their data, and what the gossip module sets of them. *)
Class LocalAgentStore (H : Type) := {
  las_get_all : M H (list LocalAgent);
  set_cur_storage_arc : AgentId -> DhtArc -> M H unit;
  invoke_cb : AgentId -> M H unit;
}.

Class Fetch (H : Type) := { request_ops : list PublishOp -> Url -> M H unit }.

(** The transport is held by a weak reference: it may be gone. *)
Class Transport (H : Type) := {
  transport_alive : M H bool;
  send_module : Url -> SpaceId -> string -> bytes -> M H unit;
}.

Class GossipHost (H : Type) := {
  #[global] gh_ops :: OpStore H;
  #[global] gh_meta :: PeerMetaStore H;
  #[global] gh_peers :: PeerStore H;
  #[global] gh_agents :: LocalAgentStore H;
  #[global] gh_fetch :: Fetch H;
  #[global] gh_transport :: Transport H;
}.

(** ** The node and its monad *)

Record K2Gossip (H : Type) : Type := MkGossip {
  initiated_round_state : option GossipRoundState;
  accepted_round_states : gmap Url GossipRoundState;
  burst : gmap Url (list Timestamp);
  dht : Dht;
  host : H;
}.
Arguments MkGossip {H}.
Arguments initiated_round_state {H}.
Arguments accepted_round_states {H}.
Arguments burst {H}.
Arguments dht {H}.
Arguments host {H}.

Definition set_initiated {H} (r : option GossipRoundState) (n : K2Gossip H) : K2Gossip H :=
  MkGossip r (accepted_round_states n) (burst n) (dht n) (host n).
Definition set_accepted {H} (f : gmap Url GossipRoundState -> gmap Url GossipRoundState)
  (n : K2Gossip H) : K2Gossip H :=
  MkGossip (initiated_round_state n) (f (accepted_round_states n)) (burst n) (dht n) (host n).
Definition set_burst {H} (f : gmap Url (list Timestamp) -> gmap Url (list Timestamp))
  (n : K2Gossip H) : K2Gossip H :=
  MkGossip (initiated_round_state n) (accepted_round_states n) (f (burst n)) (dht n) (host n).
Definition set_host {H} (h : H) (n : K2Gossip H) : K2Gossip H :=
  MkGossip (initiated_round_state n) (accepted_round_states n) (burst n) (dht n) h.

(** A handler's outcome: the two kinds of [K2GossipError] are told apart. *)
Inductive gres (A : Type) : Type :=
  | GOk (a : A)
  | GPeer (ctx : string)
  | GErr (msg : string)
  | GPanic (msg : string).
Arguments GOk {A} a.
Arguments GPeer {A} ctx.
Arguments GErr {A} msg.
Arguments GPanic {A} msg.

Definition gres_of {A} (r : res A) : gres A :=
  match r with Ok a => GOk a | Err e => GErr e | Panic e => GPanic e end.

Definition GM (S A : Type) : Type := S -> gres A * S.

Section monad.
Context {S : Type}.

Definition gret {A} (a : A) : GM S A := fun s => (GOk a, s).
Definition gbind {A B} (m : GM S A) (k : A -> GM S B) : GM S B := fun s =>
  match m s with
  | (GOk a, s') => k a s'
  | (GPeer e, s') => (GPeer e, s')
  | (GErr e, s') => (GErr e, s')
  | (GPanic e, s') => (GPanic e, s')
  end.
Definition peer_behavior {A} (ctx : string) : GM S A := fun s => (GPeer ctx, s).
Definition gfail {A} (msg : string) : GM S A := fun s => (GErr msg, s).
Definition glift {A} (r : gres A) : GM S A := fun s => (r, s).
Definition gpure {A} (r : res A) : GM S A := fun s => (gres_of r, s).
Definition ggets {A} (f : S -> A) : GM S A := fun s => (GOk (f s), s).
Definition gmodify (f : S -> S) : GM S unit := fun s => (GOk tt, f s).

(** A call whose error is only logged. *)
Definition log_error {A} (default : A) (m : GM S A) : GM S A := fun s =>
  match m s with
  | (GOk a, s') => (GOk a, s')
  | (GPeer _, s') | (GErr _, s') => (GOk default, s')
  | (GPanic e, s') => (GPanic e, s')
  end.
End monad.

Notation "'let!' x := m 'in' k" := (gbind m (fun x => k))
  (at level 10, x pattern, m at level 100, k at level 200) : k2_scope.
Notation "m ;;! k" := (gbind m (fun _ => k))
  (at level 100, k at level 200, right associativity) : k2_scope.

(** A call of a host service. *)
Definition on_host {H A} (m : M H A) : GM (K2Gossip H) A := fun n =>
  let (r, h) := m (host n) in (gres_of r, set_host h n).

(** The DHT model under its read lock, over the host's op store. *)
Definition read_dht {H A} (f : Dht -> M H A) : GM (K2Gossip H) A := fun n =>
  on_host (f (dht n)) n.

(** ** The limit on initiations by a peer *)

Definition max_burst (config : K2GossipConfig) : Z :=
  wrap_u32 (initiate_burst_factor config * initiate_burst_window_count config).

Definition threshold (config : K2GossipConfig) (now : Timestamp) : Timestamp :=
  default UNIX_TIMESTAMP
    (ts_sub_dur now
      (from_millis (wrap_u64 (initiate_interval_ms config * initiate_burst_window_count config)))).

Definition recent (config : K2GossipConfig) (now : Timestamp) (ts : list Timestamp) : list Timestamp :=
  List.filter (fun t => threshold config now <? t) ts.

(** Whether another initiation is let through, and the tracker after it. *)
Definition check_accept (config : K2GossipConfig) (now : Timestamp)
  (state : gmap Url (list Timestamp)) (peer_url : Url) (timestamp : Timestamp)
  : bool * gmap Url (list Timestamp) :=
  let entry := recent config now (default [] (state !! peer_url)) in
  if max_burst config <=? Z.of_nat (length entry)
  then (false, <[ peer_url := entry ]> state)
  else (true, <[ peer_url := entry ++ [timestamp] ]> state).

(** The task that clears old timestamps, and entries left empty. *)
Definition cleanup (config : K2GossipConfig) (now : Timestamp) (state : gmap Url (list Timestamp))
  : gmap Url (list Timestamp) :=
  filter (fun kv => kv.2 <> []) (recent config now <$> state).
