(* ===== verification/GossipRespond.v ===== *)
(** The handlers of gossip messages (crates/gossip/src/respond.rs and
    crates/gossip/src/respond/*.rs), the initiation of a round (gossip.rs) and
    the dispatch of incoming messages.

    A handler is one step: it holds the lock of the round it works on until it
    returns.  The clock is read once a step. *)

From S2P Require Import Prelude Arc Timestamp Id Agent Combine ArcSet OpStore.
From S2P Require Import TimePartition HashPartition Snapshot Dht StorageArc.
From S2P Require Import GossipProtocol GossipWire Agent PeerMeta GossipNode.

Definition MOD_NAME : string := "k2gossip".

(** ** Validation of a message against the round *)

(** The two checks every message of a round passes first. *)
Definition check_session (state : GossipRoundState) (from_peer : Url) (sid : bytes)
  (wrong_peer wrong_session : string) : gres unit :=
  if negb (bool_decide (session_with_peer state = from_peer)) then GPeer wrong_peer
  else if negb (bool_decide (session_id state = sid)) then GPeer wrong_session
  else GOk tt.

Definition gthen {A} (r : gres unit) (k : gres A) : gres A :=
  match r with GOk _ => k | GPeer e => GPeer e | GErr e => GErr e | GPanic e => GPanic e end.

(** Some agent asked for is not one of those declared. *)
Definition undeclared (our_agents : list AgentId) (missing : list bytes) : bool :=
  existsb (fun a => negb (bool_decide (a ∈ our_agents))) missing.

Definition outside (common_arc_set : ArcSet) (sectors : list Z) : bool :=
  existsb (fun sector => negb (includes_sector_index common_arc_set sector)) sectors.

Definition validate_accept (state : GossipRoundState) (from_peer : Url) (accept : K2GossipAcceptMessage)
  : gres ArcSet :=
  gthen (check_session state from_peer (ac_session_id accept)
           "Accept message from wrong peer" "Session id mismatch")
  match stage state with
  | StInitiated our_agents our_arc_set _ =>
      if undeclared our_agents (ac_missing_agents accept)
      then GPeer "Accept message contains agents that we didn't declare"
      else GOk our_arc_set
  | _ => GPeer "Unexpected round state for accept"
  end.

Definition validate_agents (state : GossipRoundState) (from_peer : Url) (agents : K2GossipAgentsMessage)
  : gres unit :=
  gthen (check_session state from_peer (ag_session_id agents)
           "Agents message from wrong peer" "Session id mismatch")
  match stage state with
  | StNoDiff => GOk tt
  | _ => GPeer "Unexpected round stage for agents"
  end.

Definition validate_busy (state : GossipRoundState) (from_peer : Url) (busy : K2GossipBusyMessage)
  : gres unit :=
  check_session state from_peer (bu_session_id busy)
    "Busy message from wrong peer" "Busy message with wrong session id".

Definition validate_no_diff (state : GossipRoundState) (from_peer : Url) (no_diff : K2GossipNoDiffMessage)
  : gres AcceptResponseMessage :=
  gthen (check_session state from_peer (nd_session_id no_diff)
           "NoDiff message from wrong peer" "Session id mismatch")
  match stage state with
  | StAccepted our_agents _ =>
      match nd_accept_response no_diff with
      | None => GPeer "Received NoDiff message without accept response"
      | Some r =>
          if undeclared our_agents (ar_missing_agents r)
          then GPeer "NoDiff message contains agents that we didn't declare"
          else GOk r
      end
  | _ => GPeer "Unexpected round state for accept"
  end.

Definition validate_disc_sectors_diff (state : GossipRoundState) (from_peer : Url)
  (diff : K2GossipDiscSectorsDiffMessage)
  : gres (ArcSet * AcceptResponseMessage * SnapshotDiscSectorsMessage) :=
  gthen (check_session state from_peer (ds_session_id diff)
           "DiscSectorsDiff message from wrong peer" "Session id mismatch")
  match ds_snapshot diff with
  | None => GPeer "Received DiscSectorsDiff message without snapshot"
  | Some snapshot =>
      match stage state with
      | StAccepted our_agents common_arc_set =>
          match ds_accept_response diff with
          | None => GPeer "Received NoDiff message without accept response"
          | Some r =>
              if undeclared our_agents (ar_missing_agents r)
              then GPeer "NoDiff message contains agents that we didn't declare"
              else if outside common_arc_set (sds_disc_sectors snapshot)
              then GPeer "DiscSectorsDiff message contains sector that isn't in the common arc set"
              else GOk (common_arc_set, r, snapshot)
          end
      | _ => GPeer "Unexpected round state for accept"
      end
  end.

Definition validate_disc_sector_details_diff (state : GossipRoundState) (from_peer : Url)
  (diff : K2GossipDiscSectorDetailsDiffMessage)
  : gres (ArcSet * SnapshotDiscSectorDetailsMessage) :=
  gthen (check_session state from_peer (dd_session_id diff)
           "DiscSectorDetailsDiff message from wrong peer" "Session id mismatch")
  match dd_snapshot diff with
  | None => GPeer "Received DiscSectorDetailsDiff message without snapshot"
  | Some snapshot =>
      match stage state with
      | StDiscSectorsDiff common_arc_set =>
          if outside common_arc_set (sdd_sector_indices snapshot)
          then GPeer "DiscSectorDetailsDiff message contains sector that isn't in the common arc set"
          else GOk (common_arc_set, snapshot)
      | _ => GPeer "Unexpected round state for disc sector details diff"
      end
  end.

Definition validate_disc_sector_details_diff_response (state : GossipRoundState) (from_peer : Url)
  (diff : K2GossipDiscSectorDetailsDiffResponseMessage)
  : gres (ArcSet * DhtSnapshot * SnapshotDiscSectorDetailsMessage) :=
  gthen (check_session state from_peer (dr_session_id diff)
           "DiscSectorDetailsDiffResponse message from wrong peer" "Session id mismatch")
  match dr_snapshot diff with
  | None => GPeer "Received DiscSectorDetailsDiffResponse message without snapshot"
  | Some snapshot =>
      match stage state with
      | StDiscSectorDetailsDiff common_arc_set ours =>
          if outside common_arc_set (sdd_sector_indices snapshot)
          then GPeer "DiscSectorDetailsDiffResponse message contains sector that isn't in the common arc set"
          else GOk (common_arc_set, ours, snapshot)
      | _ => GPeer "Unexpected round state for disc sector details diff response"
      end
  end.

Definition ring_sectors_of (snapshot : SnapshotRingSectorDetailsMessage) : list Z :=
  flat_map rsh_sector_indices (srd_ring_sector_hashes snapshot).

Definition validate_ring_sector_details_diff (state : GossipRoundState) (from_peer : Url)
  (diff : K2GossipRingSectorDetailsDiffMessage)
  : gres (ArcSet * AcceptResponseMessage * SnapshotRingSectorDetailsMessage) :=
  gthen (check_session state from_peer (rd_session_id diff)
           "RingSectorDetailsDiff message from wrong peer" "Session id mismatch")
  match rd_snapshot diff with
  | None => GPeer "Received RingSectorDetailsDiff message without snapshot"
  | Some snapshot =>
      match stage state with
      | StAccepted our_agents common_arc_set =>
          match rd_accept_response diff with
          | None => GPeer "Received RingSectorDetailsDiff message without accept response"
          | Some r =>
              if undeclared our_agents (ar_missing_agents r)
              then GPeer "RingSectorDetailsDiff message contains agents that we didn't declare"
              else if outside common_arc_set (ring_sectors_of snapshot)
              then GPeer "RingSectorDetailsDiff message contains sector that isn't in the common arc set"
              else GOk (common_arc_set, r, snapshot)
          end
      | _ => GPeer "Unexpected round state for ring sector details diff"
      end
  end.

Definition validate_ring_sector_details_diff_response (state : GossipRoundState) (from_peer : Url)
  (diff : K2GossipRingSectorDetailsDiffResponseMessage)
  : gres (ArcSet * DhtSnapshot * SnapshotRingSectorDetailsMessage) :=
  gthen (check_session state from_peer (rr_session_id diff)
           "RingSectorDetailsDiffResponse message from wrong peer" "Session id mismatch")
  match rr_snapshot diff with
  | None => GPeer "Received RingSectorDetailsDiffResponse message without snapshot"
  | Some snapshot =>
      match stage state with
      | StRingSectorDetailsDiff common_arc_set ours =>
          if outside common_arc_set (ring_sectors_of snapshot)
          then GPeer "RingSectorDetailsDiffResponse message contains sector that isn't in the common arc set"
          else GOk (common_arc_set, ours, snapshot)
      | _ => GPeer "Unexpected round state for ring sector details diff response"
      end
  end.

Definition op_ids_to_publish_ops (op_ids : list bytes) : list PublishOp :=
  map (fun op_id => MkPublishOp op_id None) op_ids.

(** ** The steps handlers share *)

Section handlers.
Context {H : Type} `{GossipHost H} `{Location} `{SerdeNum} `{AgentJson} `{Protobuf}.
Variable config : K2GossipConfig.
Variable space_id : SpaceId.
Variable sharding : bool.
Variable clock : Clock.

Abbreviation Handler := (GM (K2Gossip H)).

(** The agents that are not in the peer store. *)
Fixpoint filter_known_agents (agents : list bytes) : Handler (list bytes) :=
  match agents with
  | [] => gret []
  | agent :: agents =>
      let! known := on_host (ps_get agent) in
      let! out := filter_known_agents agents in
      gret (match known with None => agent :: out | Some _ => out end)
  end.

(** The infos that are found; a failing lookup is passed over. *)
Fixpoint load_agent_infos (requested : list bytes) : Handler (list AgentInfoSigned) :=
  match requested with
  | [] => gret []
  | agent :: requested =>
      let! info := log_error None (on_host (ps_get agent)) in
      let! infos := load_agent_infos requested in
      gret (match info with Some a => a :: infos | None => infos end)
  end.

Fixpoint decode_infos (provided : list bytes) : res (list AgentInfoSigned) :=
  match provided with
  | [] => Ok []
  | b :: provided => let? a := decode_info b in let? rest := decode_infos provided in Ok (a :: rest)
  end.

Definition receive_agent_infos (provided_agents : list bytes) : Handler unit :=
  match provided_agents with
  | [] => gret tt
  | _ =>
      let! agents := gpure (decode_infos provided_agents) in
      on_host (ps_insert agents)
  end.

Fixpoint encode_agent_infos (infos : list AgentInfoSigned) : res (list bytes) :=
  match infos with
  | [] => Ok []
  | a :: infos => let? b := encode_info a in let? rest := encode_agent_infos infos in Ok (b :: rest)
  end.

Definition local_agent_state : Handler (list AgentId * ArcSet) :=
  let! local_agents := on_host las_get_all in
  let! our_arc_set := gpure (ArcSet.new (map tgt_storage_arc local_agents)) in
  gret (map la_agent local_agents, our_arc_set).

Definition update_new_ops_bookmark (from_peer : Url) (updated_bookmark : Timestamp) : Handler unit :=
  let! previous_bookmark := on_host (new_ops_bookmark from_peer) in
  if match previous_bookmark with Some p => p <=? updated_bookmark | None => true end
  then on_host (set_new_ops_bookmark (wall clock) from_peer updated_bookmark)
  else gret tt.

(** The new ops of each arc within what is left of the limit; the bookmark is
    the earliest returned, or now. *)
Fixpoint retrieve_arcs (new_since : Timestamp) (max_new_bytes : Z) (arcs : list DhtArc)
  (acc : list bytes * Z * Timestamp) : M H (list bytes * Z * Timestamp) :=
  match arcs with
  | [] => ret acc
  | arc :: arcs =>
      let '(ops, used_bytes, bookmark) := acc in
      let* (new_ops, used, new_bookmark) :=
        retrieve_op_ids_bounded (wall clock) arc new_since (wrap_u32 (max_new_bytes - used_bytes)) in
      retrieve_arcs new_since max_new_bytes arcs
        (ops ++ new_ops, wrap_u32 (used_bytes + used),
         if new_bookmark <? bookmark then new_bookmark else bookmark)
  end.

Definition retrieve_new_op_ids (common_arc_set : ArcSet) (new_since : Timestamp) (max_new_bytes : Z)
  : Handler (list bytes * Z * Timestamp) :=
  on_host (retrieve_arcs new_since max_new_bytes (as_arcs common_arc_set) ([], 0, wall clock)).

Definition get_request_new_since (target_peer_url : Url) : Handler Timestamp :=
  let! bookmark := on_host (new_ops_bookmark target_peer_url) in
  gret (match bookmark with
        | Some b => b
        | None => default (wall clock) (ts_sub_dur (wall clock) (2 * UNIT_TIME))
        end).

Definition handle_accept_response (from_peer : Url) (r : AcceptResponseMessage)
  : Handler (option (list AgentInfoSigned)) :=
  receive_agent_infos (ar_provided_agents r) ;;!
  update_new_ops_bookmark from_peer (from_micros (ar_updated_new_since r)) ;;!
  on_host (request_ops (op_ids_to_publish_ops (ar_new_ops r)) from_peer) ;;!
  match ar_missing_agents r with
  | [] => gret None
  | missing => let! infos := load_agent_infos missing in gret (Some infos)
  end.

(** What [StorageArc.update_storage_arcs] changed, agent by agent. *)
Definition write_arcs (updated : list LocalAgent) (ids : list AgentId) : M H unit :=
  for_each (filter (fun a => la_agent a ∈ ids) updated) (fun a =>
    set_cur_storage_arc (la_agent a) (cur_storage_arc a) ;;* invoke_cb (la_agent a)).

Definition gossip_update_storage_arcs (next_action : DhtSnapshotNextAction)
  (their_snapshot : DhtSnapshot) (common_arc_set : ArcSet) : Handler unit :=
  match next_action with
  | ActCannotCompare => gret tt
  | _ =>
      let! local_agents := on_host las_get_all in
      let '(r, (updated, ids)) :=
        update_storage_arcs sharding their_snapshot local_agents common_arc_set in
      on_host (write_arcs updated ids) ;;!
      log_error tt (gpure r)
  end.

(** ** Access to the rounds *)

Definition alter_initiated (f : GossipRoundState -> GossipRoundState) : Handler unit :=
  gmodify (fun n => set_initiated (f <$> initiated_round_state n) n).
Definition take_initiated : Handler unit := gmodify (set_initiated None).
Definition alter_accepted (u : Url) (f : GossipRoundState -> GossipRoundState) : Handler unit :=
  gmodify (set_accepted (alter f u)).
Definition remove_accepted (u : Url) : Handler unit := gmodify (set_accepted (delete u)).

(** The check of the initiated (accepted) round by a handler, which reports an
    unsolicited message when there is none. *)
Definition with_initiated {A} (unsolicited : string) (validate : GossipRoundState -> gres A) : Handler A :=
  let! state := ggets initiated_round_state in
  match state with
  | Some state => glift (validate state)
  | None => peer_behavior unsolicited
  end.

Definition with_accepted {A} (from_peer : Url) (unsolicited : string)
  (validate : GossipRoundState -> gres A) : Handler A :=
  let! states := ggets accepted_round_states in
  match states !! from_peer with
  | Some state => glift (validate state)
  | None => peer_behavior unsolicited
  end.

Definition terminate (sid : bytes) (reason : string) : option GossipMessage :=
  Some (Terminate (MkTerminate sid reason)).

(** ** The initiator's handlers *)

(** The first snapshot comparison, on a minimal snapshot of theirs. *)
Definition accept_reply (sid : bytes) (common_arc_set : ArcSet) (accept_response : AcceptResponseMessage)
  (snapshot : option SnapshotMinimalMessage) : Handler (option GossipMessage) :=
  match snapshot with
  | None =>
      alter_initiated (set_stage StNoDiff) ;;!
      gret (Some (NoDiff (MkNoDiff sid (Some accept_response) false)))
  | Some their_snapshot =>
      let their_snapshot := minimal_from_message their_snapshot in
      let! (next_action, _) :=
        read_dht (fun d => handle_snapshot d their_snapshot None common_arc_set 0) in
      match next_action with
      | ActIdentical =>
          alter_initiated (set_stage StNoDiff) ;;!
          gossip_update_storage_arcs next_action their_snapshot common_arc_set ;;!
          gret (Some (NoDiff (MkNoDiff sid (Some accept_response) false)))
      | ActCannotCompare =>
          alter_initiated (set_stage StNoDiff) ;;!
          gret (Some (NoDiff (MkNoDiff sid (Some accept_response) true)))
      | NewSnapshot (DiscSectors _ _ as snapshot) =>
          alter_initiated (set_stage (StDiscSectorsDiff common_arc_set)) ;;!
          let! m := gpure (disc_sectors_to_message snapshot) in
          gret (Some (DiscSectorsDiff (MkDiscSectorsDiff sid (Some accept_response) (Some m))))
      | NewSnapshot (RingSectorDetails _ _ as snapshot) =>
          alter_initiated (set_stage (StRingSectorDetailsDiff common_arc_set snapshot)) ;;!
          let! m := gpure (ring_details_to_message snapshot) in
          gret (Some (RingSectorDetailsDiff (MkRingSectorDetailsDiff sid (Some accept_response) (Some m))))
      | NewSnapshot _ =>
          take_initiated ;;! gret (terminate sid "Unexpected snapshot type")
      | _ =>
          take_initiated ;;! gret (terminate sid "Unexpected next action")
      end
  end.

Definition respond_to_accept (from_peer : Url) (accept : K2GossipAcceptMessage)
  : Handler (option GossipMessage) :=
  let! our_arc_set := with_initiated "Unsolicited Accept message from peer"
    (fun state => validate_accept state from_peer accept) in
  let! other_arc_set :=
    match ac_arc_set accept with
    | Some value => gpure (decode value)
    | None => peer_behavior "no arc set in accept message"
    end in
  let common_arc_set := intersection other_arc_set our_arc_set in
  let! missing_agents := filter_known_agents (ac_participating_agents accept) in
  let! send_agent_infos := load_agent_infos (ac_missing_agents accept) in
  update_new_ops_bookmark from_peer (from_micros (ac_updated_new_since accept)) ;;!
  match ac_dht_op_count accept with
  | Some op_count => on_host (set_peer_dht_op_count (wall clock) from_peer op_count)
  | None => gret tt
  end ;;!
  on_host (request_ops (op_ids_to_publish_ops (ac_new_ops accept)) from_peer) ;;!
  let! (send_new_ops, used_bytes, send_new_bookmark) :=
    retrieve_new_op_ids common_arc_set (from_micros (ac_new_since accept)) (ac_max_op_data_bytes accept) in
  alter_initiated (set_budget (fun _ =>
    wrap_i32 (wrap_u32 (Z.min (max_request_gossip_op_bytes config) (ac_max_op_data_bytes accept)
                        - used_bytes)))) ;;!
  let! provided_agents := gpure (encode_agent_infos send_agent_infos) in
  accept_reply (ac_session_id accept) common_arc_set
    (MkAcceptResponse missing_agents provided_agents send_new_ops (as_micros send_new_bookmark))
    (ac_snapshot accept).

Definition respond_to_disc_sector_details_diff (from_peer : Url)
  (diff : K2GossipDiscSectorDetailsDiffMessage) : Handler (option GossipMessage) :=
  let sid := dd_session_id diff in
  let! (common_arc_set, snapshot) := with_initiated "Unsolicited DiscSectorDetailsDiff message"
    (fun state => validate_disc_sector_details_diff state from_peer diff) in
  let! their_snapshot := gpure (disc_details_from_message snapshot) in
  let! budget := ggets (fun n => default 0 (peer_max_op_data_bytes <$> initiated_round_state n)) in
  let! (next_action, used_bytes) :=
    read_dht (fun d => handle_snapshot d their_snapshot None common_arc_set budget) in
  alter_initiated (set_budget (fun b => wrap_i32 (b - wrap_i32 used_bytes))) ;;!
  match next_action with
  | ActCannotCompare | ActIdentical =>
      take_initiated ;;! gret (terminate sid "Nothing to compare")
  | NewSnapshotAndHashList snapshot ops =>
      alter_initiated (set_stage (StDiscSectorDetailsDiff common_arc_set snapshot)) ;;!
      let! m := gpure (disc_details_to_message snapshot) in
      gret (Some (DiscSectorDetailsDiffResponse (MkDiscSectorDetailsDiffResponse sid ops (Some m))))
  | _ =>
      take_initiated ;;! gret (terminate sid "Unexpected next action")
  end.

Definition respond_to_ring_sector_details_diff_response (from_peer : Url)
  (response : K2GossipRingSectorDetailsDiffResponseMessage) : Handler (option GossipMessage) :=
  let sid := rr_session_id response in
  let! (common_arc_set, ours, snapshot) := with_initiated "Unsolicited RingSectorDetailsDiffResponse message"
    (fun state => validate_ring_sector_details_diff_response state from_peer response) in
  on_host (request_ops (op_ids_to_publish_ops (rr_missing_ids response)) from_peer) ;;!
  let! their_snapshot := gpure (ring_details_from_message snapshot) in
  let! budget := ggets (fun n => default 0 (peer_max_op_data_bytes <$> initiated_round_state n)) in
  let! (next_action, used_bytes) :=
    read_dht (fun d => handle_snapshot d their_snapshot (Some ours) common_arc_set budget) in
  alter_initiated (set_budget (fun b => wrap_i32 (b - wrap_i32 used_bytes))) ;;!
  gossip_update_storage_arcs next_action their_snapshot common_arc_set ;;!
  take_initiated ;;!
  gret (match next_action with
        | ActCannotCompare | ActIdentical => terminate sid "Nothing to compare"
        | HashList op_ids => Some (Hashes (MkHashes sid op_ids))
        | _ => terminate sid "Unexpected next action"
        end).

Definition respond_to_agents (from_peer : Url) (agents : K2GossipAgentsMessage)
  : Handler (option GossipMessage) :=
  with_initiated "Unsolicited Agents message" (fun state => validate_agents state from_peer agents) ;;!
  take_initiated ;;!
  receive_agent_infos (ag_provided_agents agents) ;;!
  gret None.

Definition respond_to_busy (from_peer : Url) (busy : K2GossipBusyMessage) : Handler unit :=
  with_initiated "Unsolicited Busy message" (fun state => validate_busy state from_peer busy) ;;!
  take_initiated ;;!
  on_host (incr_peer_busy (wall clock) from_peer) ;;!
  on_host (set_last_gossip_timestamp (wall clock) from_peer (wall clock)).

(** ** The acceptor's handlers *)

(** An initiation while we initiate with the same peer: the greater tie
    breaker goes on. *)
Definition check_peer_initiate_rate (from_peer : Url) (initiate : K2GossipInitiateMessage)
  : Handler bool := fun n =>
  match initiated_round_state n with
  | Some initiated =>
      if bool_decide (session_with_peer initiated = from_peer) then
        match stage initiated with
        | StInitiated _ _ tie_breaker =>
            if in_tie_breaker initiate <? tie_breaker then (GOk false, n)
            else (GOk true, set_initiated None n)
        | _ => (GPeer "Attempted to initiate during a round", n)
        end
      else
        let (ok, burst') := check_accept config (wall clock) (burst n) from_peer (wall clock) in
        (if ok then GOk true else GPeer "initiate too soon", set_burst (fun _ => burst') n)
  | None =>
      let (ok, burst') := check_accept config (wall clock) (burst n) from_peer (wall clock) in
      (if ok then GOk true else GPeer "initiate too soon", set_burst (fun _ => burst') n)
  end.

Definition create_accept_state (from_peer : Url) (initiate : K2GossipInitiateMessage)
  (our_agents : list AgentId) (common_arc_set : ArcSet) : Handler unit :=
  let! states := ggets accepted_round_states in
  match states !! from_peer with
  | Some _ => gfail "peer already accepted"
  | None =>
      gmodify (set_accepted (insert from_peer
        (new_accepted clock from_peer (in_session_id initiate)
           (Z.min (max_request_gossip_op_bytes config) (in_max_op_data_bytes initiate))
           our_agents common_arc_set)))
  end.

(** The work on an initiation that was let in. *)
Definition accept_initiation (from_peer : Url) (initiate : K2GossipInitiateMessage)
  : Handler (option GossipMessage) :=
  on_host (set_last_gossip_timestamp (wall clock) from_peer (wall clock)) ;;!
  let! other_arc_set :=
    match in_arc_set initiate with
    | Some value => gpure (decode value)
    | None => gfail "no arc set in initiate message"
    end in
  let! (our_agents, our_arc_set) := local_agent_state in
  let common_arc_set := intersection our_arc_set other_arc_set in
  create_accept_state from_peer initiate our_agents common_arc_set ;;!
  let! snapshot :=
    if 0 <? covered_sector_count common_arc_set then
      let! snapshot := read_dht (fun d => snapshot_minimal d common_arc_set) in
      let! m := gpure (minimal_to_message snapshot) in
      gret (Some m)
    else gret None in
  let! missing_agents := filter_known_agents (in_participating_agents initiate) in
  let! new_since := get_request_new_since from_peer in
  let! (new_ops, used_bytes, new_bookmark) :=
    retrieve_new_op_ids common_arc_set (from_micros (in_new_since initiate)) (in_max_op_data_bytes initiate) in
  alter_accepted from_peer (set_budget (fun b => wrap_i32 (b - wrap_i32 used_bytes))) ;;!
  let! dht_op_count := ggets (fun n => op_count (dht n)) in
  let! arcs := gpure (encode our_arc_set) in
  gret (Some (Accept (MkAccept (in_session_id initiate) our_agents (Some arcs) missing_agents
    (as_micros new_since) (max_gossip_op_bytes config) new_ops (as_micros new_bookmark)
    (Some dht_op_count) snapshot))).

(** Accepting is refused while the node has accepted its maximum of rounds. *)
Definition too_busy (n : K2Gossip H) : bool :=
  negb (max_concurrent_accepted_rounds config =? 0)
  && (max_concurrent_accepted_rounds config <=? Z.of_nat (size (accepted_round_states n))).

(** What is done before the work on an initiation: a drop or a busy message
    ends the handling. *)
Definition admit_initiate (from_peer : Url) (initiate : K2GossipInitiateMessage)
  : Handler (option (option GossipMessage)) :=
  let! let_in := check_peer_initiate_rate from_peer initiate in
  if negb let_in then gret (Some None)
  else
    match in_dht_op_count initiate with
    | Some op_count => on_host (set_peer_dht_op_count (wall clock) from_peer op_count)
    | None => gret tt
    end ;;!
    let! busy := ggets too_busy in
    gret (if busy : bool then Some (Some (Busy (MkBusy (in_session_id initiate)))) else None).

Definition respond_to_initiate (from_peer : Url) (initiate : K2GossipInitiateMessage)
  : Handler (option GossipMessage) :=
  let! reply := admit_initiate from_peer initiate in
  match reply with
  | Some reply => gret reply
  | None => accept_initiation from_peer initiate
  end.

Definition respond_to_no_diff (from_peer : Url) (no_diff : K2GossipNoDiffMessage)
  : Handler (option GossipMessage) :=
  let sid := nd_session_id no_diff in
  let! accept_response := with_accepted from_peer "Unsolicited NoDiff message from peer"
    (fun state => validate_no_diff state from_peer no_diff) in
  remove_accepted from_peer ;;!
  let! send_agents := handle_accept_response from_peer accept_response in
  match send_agents with
  | Some (_ :: _ as agents) =>
      let! provided := gpure (encode_agent_infos agents) in
      gret (Some (Agents (MkAgents sid provided)))
  | _ => gret (terminate sid "No agents requested")
  end.

Definition respond_to_disc_sectors_diff (from_peer : Url) (diff : K2GossipDiscSectorsDiffMessage)
  : Handler (option GossipMessage) :=
  let sid := ds_session_id diff in
  let! (common_arc_set, accept_response, snapshot) :=
    with_accepted from_peer "Unsolicited DiscSectorsDiff message from peer"
      (fun state => validate_disc_sectors_diff state from_peer diff) in
  let! send_agents := handle_accept_response from_peer accept_response in
  let! their_snapshot := gpure (disc_sectors_from_message snapshot) in
  let! (next_action, _) :=
    read_dht (fun d => handle_snapshot d their_snapshot None common_arc_set 0) in
  match next_action with
  | ActCannotCompare | ActIdentical =>
      remove_accepted from_peer ;;!
      match send_agents with
      | Some send_agents =>
          let! provided := gpure (encode_agent_infos send_agents) in
          gret (Some (Agents (MkAgents sid provided)))
      | None => gret None
      end
  | NewSnapshot snapshot =>
      alter_accepted from_peer (set_stage (StDiscSectorDetailsDiff common_arc_set snapshot)) ;;!
      let! provided := gpure (encode_agent_infos (default [] send_agents)) in
      let! m := gpure (disc_details_to_message snapshot) in
      gret (Some (DiscSectorDetailsDiff (MkDiscSectorDetailsDiff sid provided (Some m))))
  | _ =>
      remove_accepted from_peer ;;! gret (terminate sid "Unexpected next action")
  end.

Definition respond_to_disc_sector_details_diff_response (from_peer : Url)
  (response : K2GossipDiscSectorDetailsDiffResponseMessage) : Handler (option GossipMessage) :=
  let sid := dr_session_id response in
  let! (common_arc_set, ours, snapshot) :=
    with_accepted from_peer "Unsolicited DiscSectorDetailsDiffResponse message from peer"
      (fun state => validate_disc_sector_details_diff_response state from_peer response) in
  on_host (request_ops (op_ids_to_publish_ops (dr_missing_ids response)) from_peer) ;;!
  let! their_snapshot := gpure (disc_details_from_message snapshot) in
  let! budget := ggets (fun n =>
    default 0 (peer_max_op_data_bytes <$> accepted_round_states n !! from_peer)) in
  let! (next_action, used_bytes) :=
    read_dht (fun d => handle_snapshot d their_snapshot (Some ours) common_arc_set budget) in
  alter_accepted from_peer (set_budget (fun b => wrap_i32 (b - wrap_i32 used_bytes))) ;;!
  remove_accepted from_peer ;;!
  gret (match next_action with
        | ActCannotCompare | ActIdentical => terminate sid "Nothing to compare"
        | HashList op_ids => Some (Hashes (MkHashes sid op_ids))
        | _ => terminate sid "Unexpected next action"
        end).

Definition respond_to_ring_sector_details_diff (from_peer : Url)
  (diff : K2GossipRingSectorDetailsDiffMessage) : Handler (option GossipMessage) :=
  let sid := rd_session_id diff in
  let! (common_arc_set, accept_response, snapshot) :=
    with_accepted from_peer "Unsolicited RingSectorDetailsDiff message from peer"
      (fun state => validate_ring_sector_details_diff state from_peer diff) in
  handle_accept_response from_peer accept_response ;;!
  let! their_snapshot := gpure (ring_details_from_message snapshot) in
  let! budget := ggets (fun n =>
    default 0 (peer_max_op_data_bytes <$> accepted_round_states n !! from_peer)) in
  let! (next_action, used_bytes) :=
    read_dht (fun d => handle_snapshot d their_snapshot None common_arc_set budget) in
  alter_accepted from_peer (set_budget (fun b => wrap_i32 (b - wrap_i32 used_bytes))) ;;!
  gossip_update_storage_arcs next_action their_snapshot common_arc_set ;;!
  match next_action with
  | ActCannotCompare | ActIdentical =>
      remove_accepted from_peer ;;!
      let! send_agents := load_agent_infos (ar_missing_agents accept_response) in
      match send_agents with
      | _ :: _ =>
          let! provided := gpure (encode_agent_infos send_agents) in
          gret (Some (Agents (MkAgents sid provided)))
      | [] => gret (terminate sid "Nothing to compare and no agents")
      end
  | NewSnapshotAndHashList snapshot op_ids =>
      alter_accepted from_peer (set_stage (StRingSectorDetailsDiff common_arc_set snapshot)) ;;!
      let! m := gpure (ring_details_to_message snapshot) in
      gret (Some (RingSectorDetailsDiffResponse (MkRingSectorDetailsDiffResponse sid op_ids (Some m))))
  | _ =>
      remove_accepted from_peer ;;! gret (terminate sid "Unexpected next action")
  end.

(** ** The handlers of both sides *)

(** Whether the message was for our initiated round. *)
Definition hashes_as_initiator (from_peer : Url) (hashes : K2GossipHashesMessage) : Handler bool :=
  let! state := ggets initiated_round_state in
  match state with
  | Some state =>
      if bool_decide (session_with_peer state = from_peer)
         && bool_decide (session_id state = ha_session_id hashes)
      then
        take_initiated ;;!
        on_host (request_ops (op_ids_to_publish_ops (ha_missing_ids hashes)) from_peer) ;;!
        gret true
      else gret false
  | None => gret false
  end.

Definition hashes_as_acceptor (from_peer : Url) (hashes : K2GossipHashesMessage) : Handler bool :=
  let! states := ggets accepted_round_states in
  match states !! from_peer with
  | Some state =>
      if bool_decide (session_id state = ha_session_id hashes)
      then
        remove_accepted from_peer ;;!
        on_host (request_ops (op_ids_to_publish_ops (ha_missing_ids hashes)) from_peer) ;;!
        gret true
      else gret false
  | None => gret false
  end.

Definition respond_to_hashes (from_peer : Url) (hashes : K2GossipHashesMessage)
  : Handler (option GossipMessage) :=
  let! handled_as_initiator := hashes_as_initiator from_peer hashes in
  let! handled_as_acceptor :=
    if handled_as_initiator : bool then gret false else hashes_as_acceptor from_peer hashes in
  if negb handled_as_initiator && negb handled_as_acceptor
  then peer_behavior "Unsolicited Hashes message"
  else gret None.

Definition terminate_as_initiator (from_peer : Url) (m : K2GossipTerminateMessage) : Handler bool :=
  let! state := ggets initiated_round_state in
  match state with
  | Some state =>
      if bool_decide (session_with_peer state = from_peer) then
        take_initiated ;;!
        if bool_decide (session_id state = te_session_id m) then gret true
        else peer_behavior "Unsolicited terminate message from"
      else gret false
  | None => gret false
  end.

Definition terminate_as_acceptor (from_peer : Url) (m : K2GossipTerminateMessage) : Handler bool :=
  let! states := ggets accepted_round_states in
  match states !! from_peer with
  | Some state =>
      remove_accepted from_peer ;;!
      if bool_decide (session_id state = te_session_id m) then gret true
      else peer_behavior "Unsolicited terminate message from"
  | None => gret false
  end.

Definition respond_to_terminate (from_peer : Url) (m : K2GossipTerminateMessage)
  : Handler (option GossipMessage) :=
  let! terminated_initiated_session := terminate_as_initiator from_peer m in
  let! terminated_accepted_session :=
    if terminated_initiated_session : bool then gret false else terminate_as_acceptor from_peer m in
  (if terminated_initiated_session || terminated_accepted_session
   then on_host (incr_peer_terminated (wall clock) from_peer)
   else peer_behavior "Unsolicited termination message from") ;;!
  gret None.

(** ** Dispatch *)

Definition send_gossip_message (msg : GossipMessage) (target_url : Url) : Handler unit :=
  let! alive := on_host transport_alive in
  if negb alive then gfail "Transport has been dropped, can no longer send messages"
  else
    let! msg := gpure (serialize_gossip_message msg) in
    on_host (send_module target_url space_id MOD_NAME msg).

(** The reply to a message. *)
Definition reply_to (from_peer : Url) (msg : GossipMessage) : Handler (option GossipMessage) :=
  match msg with
  | Initiate m => respond_to_initiate from_peer m
  | Accept m => respond_to_accept from_peer m
  | NoDiff m => respond_to_no_diff from_peer m
  | DiscSectorsDiff m => respond_to_disc_sectors_diff from_peer m
  | DiscSectorDetailsDiff m => respond_to_disc_sector_details_diff from_peer m
  | DiscSectorDetailsDiffResponse m => respond_to_disc_sector_details_diff_response from_peer m
  | RingSectorDetailsDiff m => respond_to_ring_sector_details_diff from_peer m
  | RingSectorDetailsDiffResponse m => respond_to_ring_sector_details_diff_response from_peer m
  | Hashes m => respond_to_hashes from_peer m
  | Agents m => respond_to_agents from_peer m
  | Busy m => respond_to_busy from_peer m ;;! gret None
  | Terminate m => respond_to_terminate from_peer m ;;! gret None
  end.

Definition is_final_message (reply : option GossipMessage) : bool :=
  match reply with
  | None | Some (Agents _) | Some (Hashes _) | Some (Terminate _) => true
  | _ => false
  end.

Definition respond_to_msg (from_peer : Url) (msg : GossipMessage) : Handler unit :=
  let! reply := reply_to from_peer msg in
  match reply with
  | Some m => send_gossip_message m from_peer
  | None => gret tt
  end ;;!
  if is_final_message reply then on_host (incr_completed_rounds (wall clock) from_peer)
  else gret tt.

(** The task of an incoming message: an error is counted against the peer or
    as ours, by its kind. *)
Definition handle_gossip_message (from_peer : Url) (msg : GossipMessage) : Handler unit := fun n =>
  match respond_to_msg from_peer msg n with
  | (GOk _, n) => (GOk tt, n)
  | (GPeer _, n) =>
      log_error tt (on_host (incr_peer_behavior_errors (wall clock) from_peer)) n
  | (GErr _, n) =>
      log_error tt (on_host (incr_local_errors (wall clock) from_peer)) n
  | (GPanic e, n) => (GPanic e, n)
  end.

Definition recv_module_msg (peer : Url) (space : SpaceId) (module : string) (data : bytes)
  : Handler unit :=
  if negb (bool_decide (space_id = space)) then gfail "wrong space"
  else if negb (bool_decide (module = MOD_NAME)) then gfail "wrong module name"
  else
    let! msg := gpure (deserialize_gossip_message data) in
    handle_gossip_message peer msg.

(** ** Initiating a round *)

Definition initiate_gossip (fresh_id : bytes) (random : Z) (target_peer_url : Url) : Handler bool :=
  let! initiated := ggets initiated_round_state in
  match initiated with
  | Some _ => gret false
  | None =>
      let! (our_agents, our_arc_set) := local_agent_state in
      let! new_since := get_request_new_since target_peer_url in
      let round_state := new_round clock fresh_id random target_peer_url our_agents our_arc_set in
      let! dht_op_count := ggets (fun n => op_count (dht n)) in
      let! arcs := gpure (encode our_arc_set) in
      let initiate := MkInitiate (session_id round_state) our_agents (Some arcs)
        (match stage round_state with StInitiated _ _ tie_breaker => tie_breaker | _ => 0 end)
        (as_micros new_since) (max_gossip_op_bytes config) (Some dht_op_count) in
      let! accepted := ggets accepted_round_states in
      match accepted !! target_peer_url with
      | Some _ => gret false
      | None =>
          on_host (set_last_gossip_timestamp (wall clock) target_peer_url (wall clock)) ;;!
          send_gossip_message (Initiate initiate) target_peer_url ;;!
          gmodify (set_initiated (Some round_state)) ;;!
          gret true
      end
  end.

(** ** Timeouts *)

Definition timed_out (state : GossipRoundState) : bool :=
  round_timeout config <? instant clock - started_at state.

Fixpoint count_timeouts (urls : list Url) : Handler unit :=
  match urls with
  | [] => gret tt
  | url :: urls =>
      log_error tt (on_host (incr_peer_timeout (wall clock) url)) ;;! count_timeouts urls
  end.

(** The result says whether the initiation task is woken. *)
Definition remove_timed_out_rounds : Handler bool :=
  let! initiated := ggets initiated_round_state in
  let! force_initiate :=
    match initiated with
    | Some state =>
        if timed_out state then
          log_error tt (on_host (incr_peer_timeout (wall clock) (session_with_peer state))) ;;!
          take_initiated ;;!
          gret (match stage state with StInitiated _ _ _ => true | _ => false end)
        else gret false
    | None => gret false
    end in
  let! accepted := ggets accepted_round_states in
  let remove := (map_to_list (filter (fun kv => timed_out kv.2 = true) accepted)).*1 in
  count_timeouts remove ;;!
  gmodify (set_accepted (filter (fun kv => kv.1 ∉ remove))) ;;!
  gret force_initiate.

(** ** Stored ops and the update of the model *)

Definition write_dht (m : M (Dht * H) unit) : Handler unit := fun n =>
  let '(r, (d, h)) := m (dht n, host n) in
  (gres_of r, MkGossip (initiated_round_state n) (accepted_round_states n) (burst n) d h).

Definition inform_ops_stored (ops : list StoredOp) : Handler unit := write_dht (dht_inform_ops_stored ops).

(** One round of the update task, which logs an error and goes on. *)
Definition update_dht : Handler unit := log_error tt (write_dht (dht_update (wall clock))).
End handlers.
