(* ===== verification/GossipRounds.v ===== *)
(** What the message handlers leave alone.

    A handler frames a relation when it takes every node to a related one,
    whatever its outcome.  The handlers are followed once, for every relation
    that is closed under host calls and under the changes they make to the
    rounds. *)
From S2P Require Import Prelude Arc Timestamp Id Combine ArcSet OpStore TimePartition.
From S2P Require Import HashPartition Snapshot Dht Agent StorageArc GossipProtocol.
From S2P Require Import Agent PeerMeta GossipWire GossipNode GossipRespond.

#[local] Set Default Proof Using "Type*".

(** The stages of an initiated and of an accepted round. *)
Definition init_stage (s : RoundStage) : bool :=
  match s with StAccepted _ _ => false | _ => true end.
Definition acc_stage (s : RoundStage) : bool :=
  match s with
  | StAccepted _ _ | StDiscSectorDetailsDiff _ _ | StRingSectorDetailsDiff _ _ => true
  | _ => false
  end.

Definition frames {S A} (R : S -> S -> Prop) (m : GM S A) : Prop := forall s, R s (m s).2.

Class Frame {H} (R : K2Gossip H -> K2Gossip H -> Prop) := {
  #[global] frame_preorder :: PreOrder R;
  frame_host n h : R n (set_host h n);
}.

(** Closed under what the initiator's handlers do to its round. *)
Class InitiatorFrame {H} (R : K2Gossip H -> K2Gossip H -> Prop) := {
  #[global] initiator_frame :: Frame R;
  frame_take n : R n (set_initiated None n);
  frame_init_budget f n : R n (set_initiated (set_budget f <$> initiated_round_state n) n);
  frame_init_stage s n : init_stage s = true ->
    R n (set_initiated (set_stage s <$> initiated_round_state n) n);
}.

(** Closed under what the handlers of messages of peer [p] do to its round. *)
Class AcceptorFrame {H} (p : Url) (R : K2Gossip H -> K2Gossip H -> Prop) := {
  #[global] acceptor_frame :: Frame R;
  frame_remove n : R n (set_accepted (delete p) n);
  frame_acc_budget f n : R n (set_accepted (alter (set_budget f) p) n);
  frame_acc_stage s n : acc_stage s = true -> R n (set_accepted (alter (set_stage s) p) n);
}.

Create HintDb frames.

(** A sequence that returns a value is two calls that do. *)
Lemma gbind_inv {S A B} (m : GM S A) (k : A -> GM S B) s b s' :
  gbind m k s = (GOk b, s') -> exists a s1, m s = (GOk a, s1) /\ k a s1 = (GOk b, s').
Proof. unfold gbind. destruct (m s) as [[a|e|e|e] s1]; [|done..]. eauto. Qed.

Lemma gbind_assoc {S A B C} (m : GM S A) (f : A -> GM S B) (g : B -> GM S C) s :
  gbind (gbind m f) g s = gbind m (fun a => gbind (f a) g) s.
Proof. unfold gbind. by destruct (m s) as [[a|e|e|e] s1]. Qed.

Lemma gbind_ok {S A B} (m : GM S A) (k : A -> GM S B) s a s1 :
  m s = (GOk a, s1) -> gbind m k s = k a s1.
Proof. unfold gbind. by intros ->. Qed.

Section combinators.
Context {S : Type} (R : S -> S -> Prop) `{!PreOrder R}.

Lemma frames_ret {A} (a : A) : frames R (gret a).
Proof. intros s. reflexivity. Qed.
Lemma frames_peer {A} e : frames R (@peer_behavior S A e).
Proof. intros s. reflexivity. Qed.
Lemma frames_fail {A} e : frames R (@gfail S A e).
Proof. intros s. reflexivity. Qed.
Lemma frames_glift {A} (r : gres A) : frames R (glift r).
Proof. intros s. reflexivity. Qed.
Lemma frames_gpure {A} (r : res A) : frames R (gpure r).
Proof. intros s. reflexivity. Qed.
Lemma frames_gets {A} (f : S -> A) : frames R (ggets f).
Proof. intros s. reflexivity. Qed.

Lemma frames_bind {A B} (m : GM S A) (k : A -> GM S B) :
  frames R m -> (forall a, frames R (k a)) -> frames R (gbind m k).
Proof.
  intros Hm Hk s. unfold gbind. pose proof (Hm s) as H1.
  destruct (m s) as [[a|e|e|e] s']; simpl in *; [|done..].
  transitivity s'; [done|apply Hk].
Qed.

Lemma frames_log {A} (d : A) m : frames R m -> frames R (log_error d m).
Proof.
  intros Hm s. unfold log_error. pose proof (Hm s) as H1.
  by destruct (m s) as [[a|e|e|e] s'].
Qed.
End combinators.

#[export] Hint Resolve frames_ret frames_peer frames_fail frames_glift frames_gpure frames_gets
  frames_log : frames.

(** Follow a handler: sequences, branches, then the hints. *)
Ltac follow :=
  repeat match goal with
  | |- frames _ (gbind _ _) => apply frames_bind; [apply _| |intros]
  | |- frames _ (let (_, _) := ?x in _) => destruct x
  | |- frames _ (match ?x with _ => _ end) => destruct x
  | |- frames _ (if ?x then _ else _) => destruct x
  end; try (eauto 6 with frames typeclass_instances).

Section steps.
Context {H : Type} `{GossipHost H} `{Location} `{SerdeNum} `{AgentJson} `{Protobuf}.
Variable config : K2GossipConfig.
Variable space_id : SpaceId.
Variable sharding : bool.
Variable clock : Clock.

Section shared.
Variable R : K2Gossip H -> K2Gossip H -> Prop.
Context `{!Frame R}.

Lemma frames_host {A} (m : M H A) : frames R (on_host m).
Proof. intros n. unfold on_host. destruct (m (host n)). apply frame_host. Qed.
Hint Resolve frames_host : frames.

Lemma frames_dht {A} (f : Dht -> M H A) : frames R (read_dht f).
Proof. intros n. apply frames_host. Qed.
Hint Resolve frames_dht : frames.

Lemma frames_with_initiated {A} e (v : GossipRoundState -> gres A) : frames R (with_initiated e v).
Proof. unfold with_initiated. follow. Qed.
Lemma frames_with_accepted {A} p e (v : GossipRoundState -> gres A) : frames R (with_accepted p e v).
Proof. unfold with_accepted. follow. Qed.

Lemma frames_filter_known l : frames R (filter_known_agents l).
Proof. induction l; cbn; follow. Qed.
Lemma frames_load_infos l : frames R (load_agent_infos l).
Proof. induction l; cbn; follow. Qed.
Lemma frames_receive l : frames R (receive_agent_infos l).
Proof. unfold receive_agent_infos. follow. Qed.
Lemma frames_local_state : frames R local_agent_state.
Proof. unfold local_agent_state. follow. Qed.
Lemma frames_bookmark p b : frames R (update_new_ops_bookmark clock p b).
Proof. unfold update_new_ops_bookmark. follow. Qed.
Lemma frames_retrieve a t b : frames R (retrieve_new_op_ids clock a t b).
Proof. unfold retrieve_new_op_ids. follow. Qed.
Lemma frames_new_since p : frames R (get_request_new_since clock p).
Proof. unfold get_request_new_since. follow. Qed.
Hint Resolve frames_filter_known frames_load_infos frames_receive frames_bookmark : frames.

Lemma frames_accept_response p r : frames R (handle_accept_response clock p r).
Proof. unfold handle_accept_response. follow. Qed.
Lemma frames_storage_arcs a s c : frames R (gossip_update_storage_arcs sharding a s c).
Proof. unfold gossip_update_storage_arcs. follow. Qed.
Lemma frames_send m u : frames R (send_gossip_message space_id m u).
Proof. unfold send_gossip_message. follow. Qed.
Lemma frames_count_timeouts l : frames R (count_timeouts clock l).
Proof. induction l; cbn; follow. Qed.
End shared.
End steps.

#[export] Hint Resolve frames_host frames_dht frames_with_initiated frames_with_accepted
  frames_filter_known frames_load_infos frames_receive frames_local_state frames_bookmark
  frames_retrieve frames_new_since frames_accept_response frames_storage_arcs frames_send
  frames_count_timeouts : frames.

Section handlers.
Context {H : Type} `{GossipHost H} `{Location} `{SerdeNum} `{AgentJson} `{Protobuf}.
Variable config : K2GossipConfig.
Variable space_id : SpaceId.
Variable sharding : bool.
Variable clock : Clock.

Section initiator.
Variable R : K2Gossip H -> K2Gossip H -> Prop.
Context `{!InitiatorFrame R}.

Lemma frames_take : frames R take_initiated.
Proof. intros n. apply frame_take. Qed.
Lemma frames_init_budget f : frames R (alter_initiated (set_budget f)).
Proof. intros n. apply frame_init_budget. Qed.
Lemma frames_init_stage s : init_stage s = true -> frames R (alter_initiated (set_stage s)).
Proof. intros Hs n. by apply frame_init_stage. Qed.
Hint Resolve frames_take frames_init_budget frames_init_stage : frames.

Lemma frames_respond_accept p m : frames R (respond_to_accept config sharding clock p m).
Proof. unfold respond_to_accept, accept_reply. follow. Qed.
Lemma frames_respond_disc_details p m :
  frames R (respond_to_disc_sector_details_diff p m).
Proof. unfold respond_to_disc_sector_details_diff. follow. Qed.
Lemma frames_respond_ring_response p m :
  frames R (respond_to_ring_sector_details_diff_response sharding p m).
Proof. unfold respond_to_ring_sector_details_diff_response. follow. Qed.
Lemma frames_respond_agents p m : frames R (respond_to_agents p m).
Proof. unfold respond_to_agents. follow. Qed.
Lemma frames_respond_busy p m : frames R (respond_to_busy clock p m).
Proof. unfold respond_to_busy. follow. Qed.
Lemma frames_hashes_initiator p m : frames R (hashes_as_initiator p m).
Proof. unfold hashes_as_initiator. follow. Qed.
Lemma frames_terminate_initiator p m : frames R (terminate_as_initiator p m).
Proof. unfold terminate_as_initiator. follow. Qed.
End initiator.

Section acceptor.
Variable p : Url.
Variable R : K2Gossip H -> K2Gossip H -> Prop.
Context `{!AcceptorFrame p R}.

Lemma frames_remove : frames R (remove_accepted p).
Proof. intros n. apply frame_remove. Qed.
Lemma frames_acc_budget f : frames R (alter_accepted p (set_budget f)).
Proof. intros n. apply frame_acc_budget. Qed.
Lemma frames_acc_stage s : acc_stage s = true -> frames R (alter_accepted p (set_stage s)).
Proof. intros Hs n. by apply frame_acc_stage. Qed.
Hint Resolve frames_remove frames_acc_budget frames_acc_stage : frames.

Lemma frames_respond_no_diff m : frames R (respond_to_no_diff clock p m).
Proof. unfold respond_to_no_diff. follow. Qed.
Lemma frames_respond_disc_sectors m : frames R (respond_to_disc_sectors_diff clock p m).
Proof. unfold respond_to_disc_sectors_diff. follow. Qed.
Lemma frames_respond_disc_response m : frames R (respond_to_disc_sector_details_diff_response p m).
Proof. unfold respond_to_disc_sector_details_diff_response. follow. Qed.
Lemma frames_respond_ring_details m :
  frames R (respond_to_ring_sector_details_diff sharding clock p m).
Proof. unfold respond_to_ring_sector_details_diff. follow. Qed.
Lemma frames_hashes_acceptor m : frames R (hashes_as_acceptor p m).
Proof. unfold hashes_as_acceptor. follow. Qed.
Lemma frames_terminate_acceptor m : frames R (terminate_as_acceptor p m).
Proof. unfold terminate_as_acceptor. follow. Qed.
End acceptor.
End handlers.

#[export] Hint Resolve frames_take frames_init_budget frames_init_stage frames_remove frames_acc_budget
  frames_acc_stage frames_respond_accept frames_respond_disc_details frames_respond_ring_response
  frames_respond_agents frames_respond_busy frames_hashes_initiator frames_terminate_initiator
  frames_respond_no_diff frames_respond_disc_sectors frames_respond_disc_response
  frames_respond_ring_details frames_hashes_acceptor frames_terminate_acceptor : frames.

(** Theorems about gossip rounds: the state of the rounds in every reachable
    node, the isolation of peers, and what happens to messages of no round. *)
#[local] Set Default Proof Using "Type*".

(** ** The invariant of the rounds *)

Record rounds_ok {H} (config : K2GossipConfig) (n : K2Gossip H) : Prop := {
  ro_initiated r : initiated_round_state n = Some r -> init_stage (stage r) = true;
  ro_accepted u r : accepted_round_states n !! u = Some r ->
    session_with_peer r = u /\ acc_stage (stage r) = true;
  ro_room : max_concurrent_accepted_rounds config = 0 \/
    Z.of_nat (size (accepted_round_states n)) <= max_concurrent_accepted_rounds config;
  ro_burst u ts : burst n !! u = Some ts -> Z.of_nat (length ts) <= max_burst config;
}.

(** The part about the stages, and the number of accepted rounds. *)
Definition stages_ok {H} (n : K2Gossip H) : Prop :=
  (forall r, initiated_round_state n = Some r -> init_stage (stage r) = true) /\
  (forall u r, accepted_round_states n !! u = Some r ->
    session_with_peer r = u /\ acc_stage (stage r) = true).

(** At most [k] rounds more, with the stages still right. *)
Record grows {H} (k : nat) (n n' : K2Gossip H) : Prop := {
  gr_stages : stages_ok n -> stages_ok n';
  gr_size : (size (accepted_round_states n') <= size (accepted_round_states n) + k)%nat;
  gr_burst : burst n' = burst n;
}.

#[export] Instance grows_preorder {H} : PreOrder (@grows H 0).
Proof.
  split.
  - intros n. split; [done|lia|done].
  - intros n1 n2 n3 [A1 B1 C1] [A2 B2 C2]. split; [tauto|lia|congruence].
Qed.

Lemma grows_trans {H} j k (n1 n2 n3 : K2Gossip H) :
  grows j n1 n2 -> grows k n2 n3 -> grows (j + k) n1 n3.
Proof. intros [A1 B1 C1] [A2 B2 C2]. split; [tauto|lia|congruence]. Qed.

#[export] Instance grows_frame {H} : Frame (@grows H 0).
Proof. split; [apply _|]. intros n h. split; [done|simpl; lia|done]. Qed.

#[export] Instance grows_initiator {H} : InitiatorFrame (@grows H 0).
Proof.
  split; [apply _|..].
  - intros n. split; [|simpl; lia|done]. intros [_ A]. by split.
  - intros f n. split; [|simpl; lia|done]. intros [I A]. split; [|done]. simpl.
    intros r (r0 & E & ->)%fmap_Some. exact (I _ E).
  - intros s n Hs. split; [|simpl; lia|done]. intros [I A]. split; [|done]. simpl.
    intros r (r0 & E & ->)%fmap_Some. done.
Qed.

Lemma size_alter {A} (f : A -> A) (i : string) (m : gmap string A) : size (alter f i m) = size m.
Proof. by rewrite <- !(size_dom (D:=gset string)), dom_alter_L. Qed.

Lemma alter_stages {H} (n : K2Gossip H) p f :
  (forall r, session_with_peer (f r) = session_with_peer r /\
     (acc_stage (stage r) = true -> acc_stage (stage (f r)) = true)) ->
  grows 0 n (set_accepted (alter f p) n).
Proof.
  intros Hf. split; [|simpl; rewrite size_alter; lia|done].
  intros [I A]. split; [done|]. simpl. intros u r. destruct (decide (u = p)) as [->|Hu].
  - rewrite lookup_alter_eq. intros (r0 & E & ->)%fmap_Some.
    destruct (A _ _ E) as [HA HB], (Hf r0) as [HC HD]. split; [congruence|auto].
  - rewrite lookup_alter_ne by done. apply A.
Qed.

#[export] Instance grows_acceptor {H} p : AcceptorFrame p (@grows H 0).
Proof.
  split; [apply _|..].
  - intros n. split; [|simpl; rewrite map_size_delete; destruct (accepted_round_states n !! p); unfold set_accepted; simpl; lia|done].
    intros [I A]. split; [done|]. simpl. intros u r [_ Hr]%lookup_delete_Some. by apply A.
  - intros f n. by apply alter_stages.
  - intros s n Hs. by apply alter_stages.
Qed.

Section rounds.
Context {H : Type} `{GossipHost H} `{Location} `{SerdeNum} `{AgentJson} `{Protobuf}.
Variable config : K2GossipConfig.
Variable space_id : SpaceId.
Variable sharding : bool.
Variable clock : Clock.

Lemma frames_hashes p m (R : K2Gossip H -> K2Gossip H -> Prop) `{!InitiatorFrame R} `{!AcceptorFrame p R} :
  frames R (respond_to_hashes p m).
Proof. unfold respond_to_hashes. follow. Qed.

Lemma frames_terminate p m (R : K2Gossip H -> K2Gossip H -> Prop) `{!InitiatorFrame R} `{!AcceptorFrame p R} :
  frames R (respond_to_terminate clock p m).
Proof. unfold respond_to_terminate. follow. Qed.
Hint Resolve frames_hashes frames_terminate : frames.

(** Every reply but the one to an initiation. *)
Lemma frames_reply p msg (R : K2Gossip H -> K2Gossip H -> Prop) `{!InitiatorFrame R} `{!AcceptorFrame p R} :
  (forall m, msg <> Initiate m) -> frames R (reply_to config sharding clock p msg).
Proof. intros Hm. destruct msg as [m|m|m|m|m|m|m|m|m|m|m|m]; cbn; [by destruct (Hm m)|..]; follow. Qed.

(** A round is accepted where there was none. *)
Lemma create_grows p m agents arcs (n : K2Gossip H) :
  grows 1 n (create_accept_state config clock p m agents arcs n).2.
Proof.
  unfold create_accept_state, gbind, ggets. destruct (accepted_round_states n !! p) eqn:E.
  - split; [done|simpl; lia|done].
  - split; [|simpl; rewrite map_size_insert_None by done; lia|done].
    intros [I A]. split; [done|]. simpl. intros u r [[<- <-]|[_ Hr]]%lookup_insert_Some; [done|].
    by apply A.
Qed.

Lemma frames_grow_l {A B} j k (m : GM (K2Gossip H) A) (f : A -> GM (K2Gossip H) B) :
  frames (grows j) m -> (forall a, frames (grows k) (f a)) -> frames (grows (j + k)) (gbind m f).
Proof.
  intros Hm Hf n. unfold gbind. pose proof (Hm n) as Hn.
  destruct (m n) as [[a|e|e|e] n']; simpl in *.
  - eapply grows_trans; [done|apply Hf].
  - destruct Hn; split; [done|lia|done].
  - destruct Hn; split; [done|lia|done].
  - destruct Hn; split; [done|lia|done].
Qed.

Lemma accept_initiation_grows p m : frames (grows 1) (accept_initiation config clock p m).
Proof.
  unfold accept_initiation.
  apply (frames_grow_l 0 1); [follow|intros _].
  apply (frames_grow_l 0 1); [follow|intros other].
  apply (frames_grow_l 0 1); [follow|intros [agents arcs]].
  apply (frames_grow_l 1 0); [intros n; apply create_grows|intros _]. follow.
Qed.

Lemma recent_length now ts : (length (recent config now ts) <= length ts)%nat.
Proof. apply List.filter_length_le. Qed.

Definition burst_ok (b : gmap Url (list Timestamp)) : Prop :=
  forall u ts, b !! u = Some ts -> Z.of_nat (length ts) <= max_burst config.

Lemma check_accept_burst now b p t : burst_ok b -> burst_ok (check_accept config now b p t).2.
Proof.
  intros Hb u ts. unfold check_accept.
  assert (Z.of_nat (length (recent config now (default [] (b !! p)))) <= max_burst config) as Hl.
  { pose proof (recent_length now (default [] (b !! p))) as Hr.
    destruct (b !! p) as [l|] eqn:E; simpl in *; [specialize (Hb _ _ E); lia|].
    unfold max_burst. pose proof (wrap_u32_range (initiate_burst_factor config * initiate_burst_window_count config)).
    unfold is_u32 in *. lia. }
  destruct (Z.leb_spec (max_burst config) (Z.of_nat (length (recent config now (default [] (b !! p)))))); simpl;
    intros [[<- <-]|[_ Hu]]%lookup_insert_Some; [done|by eapply Hb|rewrite length_app; simpl; lia|by eapply Hb].
Qed.

(** The limiter of initiations leaves the accepted rounds alone, and may give
    up our own initiation. *)
Lemma check_rate_effect p m (n : K2Gossip H) :
  let n' := (check_peer_initiate_rate config clock p m n).2 in
  accepted_round_states n' = accepted_round_states n /\
  (initiated_round_state n' = initiated_round_state n \/ initiated_round_state n' = None) /\
  (burst_ok (burst n) -> burst_ok (burst n')) /\
  (forall q, q <> p -> burst n' !! q = burst n !! q) /\
  ((forall r, initiated_round_state n = Some r -> session_with_peer r <> p) ->
   initiated_round_state n' = initiated_round_state n).
Proof.
  assert (forall t q, q <> p ->
    (check_accept config t (burst n) p t).2 !! q = burst n !! q) as Hother.
  { intros t q Hq. unfold check_accept. case_match; simpl; by rewrite lookup_insert_ne. }
  unfold check_peer_initiate_rate.
  destruct (initiated_round_state n) as [r|] eqn:E.
  - destruct (bool_decide (session_with_peer r = p)) eqn:Ep.
    + apply bool_decide_eq_true in Ep.
      destruct (stage r); simpl; try (rewrite E; split_and!; by auto).
      destruct (_ <? _); simpl; rewrite ?E; split_and!; auto. intros Hr. by destruct (Hr r).
    + pose proof (check_accept_burst (wall clock) (burst n) p (wall clock)) as Hb.
      specialize (Hother (wall clock)). destruct (check_accept _ _ _ _ _) as [ok b]. simpl in *.
      split_and!; auto.
  - pose proof (check_accept_burst (wall clock) (burst n) p (wall clock)) as Hb.
    specialize (Hother (wall clock)). destruct (check_accept _ _ _ _ _) as [ok b]. simpl in *.
    split_and!; auto.
Qed.

(** ** Every step keeps the invariant *)

Lemma grows_ok (n n' : K2Gossip H) : grows 0 n n' -> rounds_ok config n -> rounds_ok config n'.
Proof.
  intros [G1 G2 G3] [O1 O2 O3 O4]. destruct (G1 (conj O1 O2)) as [S1 S2].
  split; [done|done| |rewrite G3; done].
  destruct O3 as [?|O3]; [by left|right]. lia.
Qed.

Lemma check_rate_ok p m (n : K2Gossip H) :
  rounds_ok config n -> rounds_ok config (check_peer_initiate_rate config clock p m n).2.
Proof.
  intros [O1 O2 O3 O4]. destruct (check_rate_effect p m n) as (EA & EI & EB & _).
  split; [|by rewrite EA|by rewrite EA|by apply EB].
  intros r Hr. destruct EI as [EI|EI]; rewrite EI in Hr; [by apply O1|done].
Qed.

Lemma ok_bind {A B} (m : GM (K2Gossip H) A) (f : A -> GM (K2Gossip H) B) n :
  rounds_ok config n ->
  rounds_ok config (m n).2 ->
  (forall a, (m n).1 = GOk a -> rounds_ok config (f a (m n).2).2) ->
  rounds_ok config (gbind m f n).2.
Proof. intros _ Hm Hf. unfold gbind. destruct (m n) as [[a|e|e|e] n']; simpl in *; auto. Qed.

Lemma frames_ok {A} (m : GM (K2Gossip H) A) n :
  frames (grows 0) m -> rounds_ok config n -> rounds_ok config (m n).2.
Proof. intros Hm. apply grows_ok, Hm. Qed.

Lemma admit_ok p m (n : K2Gossip H) :
  rounds_ok config n -> rounds_ok config (admit_initiate config clock p m n).2.
Proof.
  intros Hn. unfold admit_initiate. apply ok_bind; [done|by apply check_rate_ok|].
  intros a _. apply frames_ok; [follow|by apply check_rate_ok].
Qed.

(** What is let in finds room. *)
Lemma admit_room p m (n n' : K2Gossip H) :
  admit_initiate config clock p m n = (GOk None, n') -> too_busy config n' = false.
Proof.
  unfold admit_initiate. intros (let_in & n1 & _ & Hn)%gbind_inv.
  destruct (negb let_in); [done|].
  apply gbind_inv in Hn as (u & n2 & _ & (b & n3 & [= <- <-] & Hn)%gbind_inv).
  injection Hn as Hb <-. by destruct (too_busy config n2).
Qed.

Lemma respond_initiate_ok p m (n : K2Gossip H) :
  rounds_ok config n -> rounds_ok config (respond_to_initiate config clock p m n).2.
Proof.
  intros Hn. unfold respond_to_initiate. apply ok_bind; [done|by apply admit_ok|].
  intros [reply|] Ha; [by apply admit_ok|].
  pose proof (admit_ok p m n Hn) as [O1 O2 O3 O4].
  destruct (admit_initiate config clock p m n) as [r n1] eqn:E. simpl in Ha, O1, O2, O3, O4. subst r.
  apply admit_room in E as Hroom. cbn [snd].
  destruct (accept_initiation_grows p m n1) as [G1 G2 G3].
  destruct (G1 (conj O1 O2)) as [S1 S2]. split; [done|done| |rewrite G3; done].
  unfold too_busy in Hroom.
  destruct (Z.eqb_spec (max_concurrent_accepted_rounds config) 0); [by left|right].
  cbn [negb andb] in Hroom. apply Z.leb_gt in Hroom. lia.
Qed.

Lemma handle_ok p msg (n : K2Gossip H) :
  rounds_ok config n ->
  rounds_ok config (handle_gossip_message config space_id sharding clock p msg n).2.
Proof.
  intros Hn.
  assert (rounds_ok config (respond_to_msg config space_id sharding clock p msg n).2) as Hr.
  { unfold respond_to_msg.
    assert (rounds_ok config (reply_to config sharding clock p msg n).2) as Hreply.
    { destruct msg as [m|m|m|m|m|m|m|m|m|m|m|m] eqn:E; [by apply respond_initiate_ok|..];
        (rewrite <- E; apply frames_ok; [|done]; apply frames_reply; [apply _..|];
         intros m' Hm'; congruence). }
    apply ok_bind; [done|done|]. intros reply _. apply frames_ok; [follow|done]. }
  unfold handle_gossip_message.
  destruct (respond_to_msg _ _ _ _ _ _ _) as [[a|e|e|e] n1]; simpl in *; try done;
    (apply frames_ok; [follow|done]).
Qed.

Lemma initiate_ok fresh_id random target (n : K2Gossip H) :
  rounds_ok config n ->
  rounds_ok config (initiate_gossip config space_id clock fresh_id random target n).2.
Proof.
  intros Hn. unfold initiate_gossip. apply ok_bind; [done..|].
  intros [r|] _; [done|]. cbn [snd ggets].
  apply ok_bind; [done|apply frames_ok; [follow|done]|]. intros [agents arcs] _.
  set (n1 := (local_agent_state n).2).
  assert (rounds_ok config n1) as H1n by (apply frames_ok; [follow|done]).
  apply ok_bind; [done|apply frames_ok; [follow|done]|]. intros since _.
  set (n2 := (get_request_new_since clock target n1).2).
  assert (rounds_ok config n2) as H2n by (apply frames_ok; [follow|done]).
  apply ok_bind; [done..|]. intros count _.
  apply ok_bind; [done..|]. intros words _.
  apply ok_bind; [done..|]. intros accepted _. cbn [snd ggets gpure].
  destruct (accepted !! target); [done|].
  apply ok_bind; [done|apply frames_ok; [follow|done]|]. intros _ _.
  set (n3 := (on_host _ n2).2).
  assert (rounds_ok config n3) as H3n by (apply frames_ok; [follow|done]).
  apply ok_bind; [done|apply frames_ok; [follow|done]|]. intros _ _.
  match goal with |- context [snd ?x] => set (n4 := snd (send_gossip_message _ _ _ n3)) end.
  assert (rounds_ok config n4) as [O1 O2 O3 O4] by (apply frames_ok; [follow|done]).
  split; [|done..]. simpl. intros r [= <-]. done.
Qed.
End rounds.

#[export] Hint Resolve frames_hashes frames_terminate : frames.
