(* ===== verification/GossipSafety.v ===== *)
(** The properties of gossip rounds: the invariant of every reachable node, the
    isolation of peers, unsolicited messages and the order of the messages of a
    round. *)
From S2P Require Import Prelude Arc Timestamp Id Combine ArcSet OpStore TimePartition.
From S2P Require Import HashPartition Snapshot Dht Agent StorageArc GossipProtocol.
From S2P Require Import Agent PeerMeta GossipWire GossipNode GossipRespond.
From S2P Require Import GossipRounds.

#[local] Set Default Proof Using "Type*".

(** Nothing but the rounds and the burst entry of peer [p] changed, and our
    initiated round only if it is with [p]. *)
Record isolated {H} (p : Url) (n n' : K2Gossip H) : Prop := {
  is_accepted q : q <> p -> accepted_round_states n' !! q = accepted_round_states n !! q;
  is_burst q : q <> p -> burst n' !! q = burst n !! q;
}.

#[export] Instance isolated_preorder {H} p : PreOrder (@isolated H p).
Proof.
  split; [done|]. intros n1 n2 n3 [A1 B1] [A2 B2].
  split; intros q Hq; [rewrite A2, A1|rewrite B2, B1]; done.
Qed.
#[export] Instance isolated_frame {H} p : Frame (@isolated H p).
Proof. split; [apply _|]. by split. Qed.
#[export] Instance isolated_initiator {H} p : InitiatorFrame (@isolated H p).
Proof. split; [apply _|..]; by split. Qed.
#[export] Instance isolated_acceptor {H} p : AcceptorFrame p (@isolated H p).
Proof.
  split; [apply _|..]; intros; split; intros q Hq; try done; simpl.
  - by rewrite lookup_delete_ne.
  - by rewrite lookup_alter_ne.
  - by rewrite lookup_alter_ne.
Qed.

(** Our initiated round is unchanged. *)
Definition same_initiated {H} (n n' : K2Gossip H) : Prop :=
  initiated_round_state n' = initiated_round_state n.
#[export] Instance same_initiated_preorder {H} : PreOrder (@same_initiated H).
Proof. split; [done|]. unfold same_initiated. intros n1 n2 n3. congruence. Qed.
#[export] Instance same_initiated_frame {H} : Frame (@same_initiated H).
Proof. split; [apply _|]. done. Qed.
#[export] Instance same_initiated_acceptor {H} p : AcceptorFrame p (@same_initiated H).
Proof. split; [apply _|..]; done. Qed.

(** Our initiated round is the one it was, or none. *)
Definition init_from {H} (n n' : K2Gossip H) : Prop := forall r', initiated_round_state n' = Some r' ->
  exists r, initiated_round_state n = Some r /\
    session_with_peer r' = session_with_peer r /\ session_id r' = session_id r /\ started_at r' = started_at r.
#[export] Instance init_from_preorder {H} : PreOrder (@init_from H).
Proof.
  split; [intros n r Hr; by exists r|]. intros n1 n2 n3 A B r3 (r2 & (r1 & ? & ? & ? & ?)%A & ? & ? & ?)%B.
  exists r1. split_and!; congruence.
Qed.
#[export] Instance init_from_frame {H} : Frame (@init_from H).
Proof. split; [apply _|]. intros n h r Hr. by exists r. Qed.
#[export] Instance init_from_initiator {H} : InitiatorFrame (@init_from H).
Proof.
  split; [apply _|..].
  - intros n r Hr. done.
  - intros f n r (r0 & E & ->)%fmap_Some. by exists r0.
  - intros s n _ r (r0 & E & ->)%fmap_Some. by exists r0.
Qed.
#[export] Instance init_from_acceptor {H} p : AcceptorFrame p (@init_from H).
Proof. split; [apply _|..]; intros; intros r Hr; by exists r. Qed.

(** ** The order of the messages of a round *)

Definition session_of (msg : GossipMessage) : bytes :=
  match msg with
  | Initiate m => in_session_id m
  | Accept m => ac_session_id m
  | NoDiff m => nd_session_id m
  | DiscSectorsDiff m => ds_session_id m
  | DiscSectorDetailsDiff m => dd_session_id m
  | DiscSectorDetailsDiffResponse m => dr_session_id m
  | RingSectorDetailsDiff m => rd_session_id m
  | RingSectorDetailsDiffResponse m => rr_session_id m
  | Hashes m => ha_session_id m
  | Agents m => ag_session_id m
  | Busy m => bu_session_id m
  | Terminate m => te_session_id m
  end.

Definition rank (msg : GossipMessage) : nat :=
  match msg with
  | Initiate _ => 0
  | Accept _ => 1
  | NoDiff _ | DiscSectorsDiff _ | RingSectorDetailsDiff _ => 2
  | DiscSectorDetailsDiff _ | RingSectorDetailsDiffResponse _ => 3
  | DiscSectorDetailsDiffResponse _ => 4
  | Hashes _ | Agents _ | Busy _ | Terminate _ => 5
  end.

(** A reply, if any, belongs to the session and comes later in the round. *)
Definition advances (sid : bytes) (k : nat) (reply : option GossipMessage) : Prop :=
  match reply with None => True | Some r => session_of r = sid /\ (k < rank r)%nat end.

(** Every value returned satisfies a property. *)
Definition yields {S A} (P : A -> Prop) (m : GM S A) : Prop :=
  forall s a s', m s = (GOk a, s') -> P a.

Lemma yields_ret {S A} (P : A -> Prop) (a : A) : P a -> yields P (@gret S A a).
Proof. intros Ha s b s' [= <- _]. done. Qed.
Lemma yields_bind {S A B} (P : B -> Prop) (m : GM S A) (k : A -> GM S B) :
  (forall a, yields P (k a)) -> yields P (gbind m k).
Proof. intros Hk s b s' (a & s1 & _ & E)%gbind_inv. by eapply Hk. Qed.

Lemma yields_bind_with {S A B} (Q : A -> Prop) (P : B -> Prop) (m : GM S A) (k : A -> GM S B) :
  yields Q m -> (forall a, Q a -> yields P (k a)) -> yields P (gbind m k).
Proof. intros Hm Hk s b s' (a & s1 & E1 & E)%gbind_inv. eapply Hk; [by eapply Hm|done]. Qed.

(** Follow a handler to what it returns. *)
Ltac returns :=
  repeat match goal with
  | |- yields _ (gbind _ _) => apply yields_bind; intros
  | |- yields _ (gret _) => apply yields_ret
  | |- yields _ (let (_, _) := ?x in _) => destruct x
  | |- yields _ (match ?x with _ => _ end) => destruct x
  | |- yields _ (if ?x then _ else _) => destruct x
  end.

Section theorems.
Context {H : Type} `{GossipHost H} `{Location} `{SerdeNum} `{AgentJson} `{Protobuf}.
Variable config : K2GossipConfig.
Variable space_id : SpaceId.
Variable sharding : bool.

(** ** Steps of a node *)

Inductive gossip_step : K2Gossip H -> K2Gossip H -> Prop :=
  | step_message clock p msg n :
      gossip_step n (handle_gossip_message config space_id sharding clock p msg n).2
  | step_initiate clock fresh_id random target n :
      gossip_step n (initiate_gossip config space_id clock fresh_id random target n).2
  | step_timeouts clock n : gossip_step n (remove_timed_out_rounds config clock n).2
  | step_cleanup now n : gossip_step n (set_burst (cleanup config now) n)
  | step_stored ops n : gossip_step n (inform_ops_stored ops n).2
  | step_update clock n : gossip_step n (update_dht clock n).2
  | step_host h n : gossip_step n (set_host h n).

(** A node that starts has no rounds. *)
Definition no_rounds (n : K2Gossip H) : Prop :=
  initiated_round_state n = None /\ accepted_round_states n = ∅ /\ burst n = ∅.

Lemma no_rounds_ok n : 0 <= max_concurrent_accepted_rounds config -> no_rounds n -> rounds_ok config n.
Proof.
  intros Hc (E1 & E2 & E3). split; rewrite ?E1, ?E2, ?E3; try done.
  rewrite map_size_empty. simpl. lia.
Qed.

Lemma filter_accepted_grows (P : Url * GossipRoundState -> Prop) `{!forall x, Decision (P x)} (n : K2Gossip H) :
  grows 0 n (set_accepted (filter P) n).
Proof.
  split; [|simpl|done].
  - intros [I A]. split; [done|]. simpl. intros u r [Hr _]%map_lookup_filter_Some. by apply A.
  - rewrite Nat.add_0_r. rewrite <- !(size_dom (D:=gset string)). apply subseteq_size, dom_filter_subseteq.
Qed.

Lemma timeouts_grows clock : frames (grows (H:=H) 0) (remove_timed_out_rounds config clock).
Proof.
  unfold remove_timed_out_rounds. follow. intros n. apply filter_accepted_grows.
Qed.

Lemma step_ok n n' : gossip_step n n' -> rounds_ok config n -> rounds_ok config n'.
Proof.
  intros Hs Hn. destruct Hs.
  - by apply handle_ok.
  - by apply initiate_ok.
  - apply frames_ok; [apply timeouts_grows|done].
  - destruct Hn as [O1 O2 O3 O4]. split; [done..|]. simpl. intros u ts.
    unfold cleanup. intros [Hu _]%map_lookup_filter_Some.
    apply lookup_fmap_Some in Hu as (l & <- & Hl). pose proof (recent_length config now l).
    specialize (O4 _ _ Hl). lia.
  - unfold inform_ops_stored, write_dht. destruct (dht_inform_ops_stored _ _) as [r [d h]].
    by destruct Hn.
  - unfold update_dht, log_error, write_dht. destruct (dht_update _ _) as [r [d h]].
    destruct r; by destruct Hn.
  - by destruct Hn.
Qed.


(** ** Isolation *)

Lemma initiate_isolated clock p m : frames (isolated (H:=H) p) (respond_to_initiate config clock p m).
Proof.
  unfold respond_to_initiate, admit_initiate.
  assert (frames (isolated (H:=H) p) (check_peer_initiate_rate config clock p m)) as Hc.
  { intros n. destruct (check_rate_effect config clock p m n) as (EA & _ & _ & EB & _).
    split; intros q Hq; [by rewrite EA|by apply EB]. }
  assert (forall agents arcs, frames (isolated (H:=H) p) (create_accept_state config clock p m agents arcs)) as Hi.
  { intros agents arcs n. unfold create_accept_state, gbind, ggets.
    destruct (accepted_round_states n !! p); [done|]. split; intros q Hq; simpl; [|done].
    by rewrite lookup_insert_ne. }
  apply frames_bind; [apply _| |intros [reply|]].
  - apply frames_bind; [apply _|exact Hc|intros let_in]. follow.
  - follow.
  - unfold accept_initiation. follow.
Qed.

Lemma reply_isolated clock p msg : frames (isolated (H:=H) p) (reply_to config sharding clock p msg).
Proof.
  destruct msg as [m|m|m|m|m|m|m|m|m|m|m|m] eqn:E; [by apply initiate_isolated|..];
    (rewrite <- E; apply frames_reply; [apply _..|]; intros m' Hm'; congruence).
Qed.

Lemma handle_frames (R : K2Gossip H -> K2Gossip H -> Prop) `{!Frame R} clock p msg :
  frames R (reply_to config sharding clock p msg) ->
  frames R (handle_gossip_message config space_id sharding clock p msg).
Proof.
  intros Hr n. unfold handle_gossip_message.
  assert (frames R (respond_to_msg config space_id sharding clock p msg)) as Hm.
  { unfold respond_to_msg. apply frames_bind; [apply _|done|intros]. follow. }
  specialize (Hm n).
  destruct (respond_to_msg _ _ _ _ _ _ n) as [[a|e|e|e] n1]; simpl in *; try done;
    (transitivity n1; [done|]; apply frames_log; [apply _|apply frames_host, _]).
Qed.

(** The peer has no round of ours. *)
Definition stranger (p : Url) (n : K2Gossip H) : Prop :=
  forall r, initiated_round_state n = Some r -> session_with_peer r <> p.

Lemma check_session_stranger r p sid e e' :
  session_with_peer r <> p -> check_session r p sid e e' = GPeer e.
Proof. intros. unfold check_session. by rewrite bool_decide_eq_false_2. Qed.

Lemma stranger_refused {A B} p n e (v : GossipRoundState -> gres A) (k : A -> GM (K2Gossip H) B) :
  stranger p n ->
  (forall r, session_with_peer r <> p -> exists e', v r = GPeer e') ->
  same_initiated n (gbind (with_initiated e v) k n).2.
Proof.
  intros Hp Hv. unfold with_initiated, gbind, ggets. unfold stranger in Hp.
  destruct (initiated_round_state n) as [r|]; [|done].
  destruct (Hv r (Hp r eq_refl)) as [e' E]. unfold glift. by rewrite E.
Qed.

(** A first call that leaves our round alone, then others that always do. *)
Lemma same_after {A B} (m : GM (K2Gossip H) A) (k : A -> GM (K2Gossip H) B) n :
  same_initiated n (m n).2 -> (forall a, frames same_initiated (k a)) ->
  same_initiated n (gbind m k n).2.
Proof.
  intros Hm Hk. unfold gbind. destruct (m n) as [[a|e|e|e] n1]; simpl in *; [|done..].
  etrans; [done|apply Hk].
Qed.

Lemma stranger_hashes p m n : stranger p n -> hashes_as_initiator p m n = (GOk false, n).
Proof.
  unfold stranger, hashes_as_initiator, gbind, ggets.
  destruct (initiated_round_state n) as [r|]; [|done].
  intros Hp. rewrite bool_decide_eq_false_2; [done|]. by apply Hp.
Qed.

Lemma stranger_terminate p m n : stranger p n -> terminate_as_initiator (H:=H) p m n = (GOk false, n).
Proof.
  unfold stranger, terminate_as_initiator, gbind, ggets.
  destruct (initiated_round_state n) as [r|]; [|done].
  intros Hp. rewrite bool_decide_eq_false_2; [done|]. by apply Hp.
Qed.

Lemma accept_initiation_same clock p m : frames (same_initiated (H:=H)) (accept_initiation config clock p m).
Proof.
  assert (forall agents arcs, frames (same_initiated (H:=H)) (create_accept_state config clock p m agents arcs)) as Hi.
  { intros agents arcs n. unfold create_accept_state, gbind, ggets.
    by destruct (accepted_round_states n !! p). }
  unfold accept_initiation. follow.
Qed.

Lemma initiate_stranger clock p m n : stranger p n ->
  same_initiated n (respond_to_initiate config clock p m n).2.
Proof.
  intros Hp. destruct (check_rate_effect config clock p m n) as (_ & _ & _ & _ & Hi). specialize (Hi Hp).
  unfold respond_to_initiate, admit_initiate. rewrite gbind_assoc.
  apply (same_after (check_peer_initiate_rate config clock p m)); [done|].
  intros let_in. pose proof (accept_initiation_same clock p m). follow.
Qed.

Lemma reply_init_from clock p msg : frames (init_from (H:=H)) (reply_to config sharding clock p msg).
Proof.
  destruct msg as [m|m|m|m|m|m|m|m|m|m|m|m] eqn:E;
    [|rewrite <- E; apply frames_reply; [apply _..|]; intros m' Hm'; congruence..].
  cbn. unfold respond_to_initiate, admit_initiate.
  assert (frames (init_from (H:=H)) (check_peer_initiate_rate config clock p m)) as Hc.
  { intros n r Hr. destruct (check_rate_effect config clock p m n) as (_ & [EI|EI] & _);
      rewrite EI in Hr; [by exists r|done]. }
  assert (frames (init_from (H:=H)) (accept_initiation config clock p m)) as Ha.
  { intros n r Hr. pose proof (accept_initiation_same clock p m n) as Hs. rewrite Hs in Hr. by exists r. }
  follow.
Qed.

Lemma handle_init_from clock p msg : frames (init_from (H:=H)) (handle_gossip_message config space_id sharding clock p msg).
Proof. apply (handle_frames init_from), reply_init_from. Qed.

(** A message from a peer we have no round with leaves our round alone. *)
Lemma reply_stranger clock p msg n : stranger p n ->
  same_initiated n (reply_to config sharding clock p msg n).2.
Proof.

  intros Hp. destruct msg as [m|m|m|m|m|m|m|m|m|m|m|m]; cbn [reply_to];
    try (unfold respond_to_accept, respond_to_agents, respond_to_disc_sector_details_diff,
           respond_to_ring_sector_details_diff_response, respond_to_busy;
         rewrite ?gbind_assoc; eapply stranger_refused; [done|]; intros r Hr; eexists;
         unfold validate_accept, validate_agents, validate_disc_sector_details_diff,
           validate_ring_sector_details_diff_response, validate_busy;
         by rewrite check_session_stranger).
  - by apply initiate_stranger.
  - by apply frames_respond_no_diff, _.
  - by apply frames_respond_disc_sectors, _.
  - by apply frames_respond_disc_response, _.
  - by apply frames_respond_ring_details, _.
  - unfold respond_to_hashes. rewrite (gbind_ok _ _ _ _ _ (stranger_hashes p m n Hp)).
    match goal with |- same_initiated n (?m n).2 => assert (frames same_initiated m) as Hm by follow end.
    apply Hm.
  - unfold respond_to_terminate. rewrite gbind_assoc, (gbind_ok _ _ _ _ _ (stranger_terminate p m n Hp)).
    match goal with |- same_initiated n (?m n).2 => assert (frames same_initiated m) as Hm by follow end.
    apply Hm.
Qed.
Lemma handle_stranger clock p msg n : stranger p n ->
  same_initiated n (handle_gossip_message config space_id sharding clock p msg n).2.
Proof.
  intros Hp. unfold handle_gossip_message, respond_to_msg.
  assert (forall reply : option GossipMessage, frames (same_initiated (H:=H))
    (match reply with Some m => send_gossip_message space_id m p | None => gret tt end ;;!
     if is_final_message reply then on_host (incr_completed_rounds (wall clock) p) else gret tt)) as Hk
    by (intros; follow).
  pose proof (same_after _ _ n (reply_stranger clock p msg n Hp) Hk) as Hs.
  destruct (gbind _ _ n) as [[a|e|e|e] n1]; simpl in *; try done;
    (etrans; [exact Hs|]; apply frames_log; [apply _|apply frames_host, _]).
Qed.

(** C13: Handling a message of a peer changes no accepted round and no burst
    record of any other peer, whatever the message and the outcome.  It never
    starts or replaces our initiated round, and it leaves it as it is when that
    round is with someone else. *)
Theorem peers_isolated clock p msg n :
  let n' := (handle_gossip_message config space_id sharding clock p msg n).2 in
  (forall q, q <> p -> accepted_round_states n' !! q = accepted_round_states n !! q /\
                    burst n' !! q = burst n !! q) /\
  (forall r', initiated_round_state n' = Some r' -> exists r, initiated_round_state n = Some r /\
     session_with_peer r' = session_with_peer r /\ session_id r' = session_id r) /\
  (stranger p n -> initiated_round_state n' = initiated_round_state n).
Proof.
  cbn zeta. pose proof (handle_frames _ clock p msg (reply_isolated clock p msg) n) as [A B].
  split; [auto|]. split.
  - intros r' (r & ? & ? & ? & _)%(handle_init_from clock p msg n). by exists r.
  - apply handle_stranger.
Qed.

(** ** Messages of no round *)

Definition no_round_of (p : Url) (sid : bytes) (n : K2Gossip H) : Prop :=
  (forall r, initiated_round_state n = Some r -> session_with_peer r = p -> session_id r <> sid) /\
  (forall r, accepted_round_states n !! p = Some r -> session_id r <> sid).

Definition opens_or_ends (msg : GossipMessage) : bool :=
  match msg with Initiate _ | Terminate _ => true | _ => false end.

Lemma check_session_other r p sid e1 e2 :
  (session_with_peer r = p -> session_id r <> sid) ->
  exists e, check_session r p sid e1 e2 = GPeer e.
Proof.
  intros Hr. unfold check_session. destruct (bool_decide_reflect (session_with_peer r = p)) as [E|E]; [|by eexists].
  rewrite bool_decide_eq_false_2 by auto. by eexists.
Qed.

Lemma refused_initiated {A B} p sid n e (v : GossipRoundState -> gres A) (k : A -> GM (K2Gossip H) B) :
  no_round_of p sid n ->
  (forall r, (session_with_peer r = p -> session_id r <> sid) -> exists e', v r = GPeer e') ->
  exists e', gbind (with_initiated e v) k n = (GPeer e', n).
Proof.
  intros [Hi _] Hv. unfold with_initiated, gbind, ggets.
  destruct (initiated_round_state n) as [r|]; [|by eexists].
  destruct (Hv r (Hi r eq_refl)) as [e' E]. unfold glift. rewrite E. by eexists.
Qed.

Lemma refused_accepted {A B} p sid n e (v : GossipRoundState -> gres A) (k : A -> GM (K2Gossip H) B) :
  no_round_of p sid n ->
  (forall r, (session_with_peer r = p -> session_id r <> sid) -> exists e', v r = GPeer e') ->
  exists e', gbind (with_accepted p e v) k n = (GPeer e', n).
Proof.
  intros [_ Ha] Hv. unfold with_accepted, gbind, ggets.
  destruct (accepted_round_states n !! p) as [r|]; [|by eexists].
  destruct (Hv r (fun _ => Ha r eq_refl)) as [e' E]. unfold glift. rewrite E. by eexists.
Qed.

Lemma refused_hashes p m n : no_round_of p (ha_session_id m) n ->
  respond_to_hashes p m n = (GPeer "Unsolicited Hashes message", n).
Proof.
  intros [Hi Ha]. unfold respond_to_hashes, hashes_as_initiator, hashes_as_acceptor, gbind, ggets.
  destruct (initiated_round_state n) as [r|] eqn:Ei.
  - assert (bool_decide (session_with_peer r = p) && bool_decide (session_id r = ha_session_id m) = false) as ->.
    { destruct (bool_decide_reflect (session_with_peer r = p)); [|done].
      simpl. apply bool_decide_eq_false_2. by apply Hi. }
    cbn. destruct (accepted_round_states n !! p) as [r'|]; [|done].
    by rewrite bool_decide_eq_false_2 by auto.
  - cbn. destruct (accepted_round_states n !! p) as [r'|]; [|done].
    by rewrite bool_decide_eq_false_2 by auto.
Qed.

(** C14: A message whose session is none of our rounds with its sender, other
    than an initiation or a termination, is refused as the peer's error before
    anything is done: no state of the node and of the host changes. *)
Theorem unsolicited_refused clock p msg n :
  opens_or_ends msg = false -> no_round_of p (session_of msg) n ->
  exists e, reply_to config sharding clock p msg n = (GPeer e, n).
Proof.
  intros Hm Hn. destruct msg as [m|m|m|m|m|m|m|m|m|m|m|m]; try done; cbn [reply_to session_of] in *;
    try (unfold respond_to_accept, respond_to_agents, respond_to_disc_sector_details_diff,
           respond_to_ring_sector_details_diff_response, respond_to_busy, respond_to_no_diff,
           respond_to_disc_sectors_diff, respond_to_disc_sector_details_diff_response,
           respond_to_ring_sector_details_diff;
         rewrite ?gbind_assoc; (eapply refused_initiated || eapply refused_accepted); [done|];
         intros r Hr; unfold validate_accept, validate_agents, validate_disc_sector_details_diff,
           validate_ring_sector_details_diff_response, validate_busy, validate_no_diff,
           validate_disc_sectors_diff, validate_disc_sector_details_diff_response,
           validate_ring_sector_details_diff;
         edestruct (check_session_other r) as [e ->]; [exact Hr|by eexists]).
  eexists. by apply refused_hashes.
Qed.

(** ** The length of an exchange *)

Lemma admit_advances clock p m :
  yields (fun r => match r with Some reply => advances (in_session_id m) 0 reply | None => True end)
    (admit_initiate (H:=H) config clock p m).
Proof.
  unfold admit_initiate. returns; cbn; try done.
  match goal with |- context [if ?b then _ else _] => destruct b end; cbn; [split; [done|lia]|done].
Qed.

Lemma reply_advances clock p msg :
  yields (advances (session_of msg) (rank msg)) (reply_to config sharding clock p msg).
Proof.
  destruct msg as [m|m|m|m|m|m|m|m|m|m|m|m]; cbn [reply_to session_of rank];
    [unfold respond_to_initiate; eapply yields_bind_with; [apply admit_advances|];
     intros [reply|] Hr; [by apply yields_ret|]|..];
    unfold accept_initiation, respond_to_accept, accept_reply,
      respond_to_no_diff, respond_to_disc_sectors_diff, respond_to_disc_sector_details_diff,
      respond_to_disc_sector_details_diff_response, respond_to_ring_sector_details_diff,
      respond_to_ring_sector_details_diff_response, respond_to_hashes, respond_to_agents, terminate;
    returns; cbn; try done; try (split; [done|lia]); case_match; cbn; (done || (split; [done|lia])).
Qed.

(** The messages of an exchange, the last first: each is the reply of some node,
    in any state, to the one before it. *)
Inductive exchange : list GossipMessage -> Prop :=
  | exchange_start msg : exchange [msg]
  | exchange_reply clock p reply msg l (n n' : K2Gossip H) :
      exchange (msg :: l) ->
      reply_to config sharding clock p msg n = (GOk (Some reply), n') ->
      exchange (reply :: msg :: l).

Lemma rank_bound msg : (rank msg <= 5)%nat.
Proof. destruct msg; simpl; lia. Qed.

Lemma exchange_length msg l : exchange (msg :: l) ->
  (length l <= rank msg)%nat /\ Forall (fun m => session_of m = session_of msg) l.
Proof.
  revert msg. induction l as [|m l IH]; intros msg He; [split; [simpl; lia|constructor]|].
  inversion He as [|clock p r m' l' n n' He' Hr]; subst.
  destruct (IH _ He') as [Hl Hs]. destruct (reply_advances clock p m n _ n' Hr) as [Es Er].
  rewrite Es. split; [simpl; lia|]. by constructor.
Qed.

End theorems.

(** Outcomes of the gossip handlers: simultaneous initiations, received agent
    infos, timeouts and the counting of errors. *)
#[local] Set Default Proof Using "Type*".

(** ** Simultaneous initiations *)

(** When two nodes have initiated with each other and each receives the
    other's initiation, with different tie breakers exactly one of them drops
    the message and keeps its round while the other gives up its own and
    accepts.  With equal ones both give up their rounds and both accept. *)
Theorem simultaneous_initiation {H} config clock (n1 n2 : K2Gossip H) u1 u2 r1 r2 a1 s1 t1 a2 s2 t2 m1 m2 :
  initiated_round_state n1 = Some r1 -> session_with_peer r1 = u2 -> stage r1 = StInitiated a1 s1 t1 ->
  initiated_round_state n2 = Some r2 -> session_with_peer r2 = u1 -> stage r2 = StInitiated a2 s2 t2 ->
  in_tie_breaker m1 = t1 -> in_tie_breaker m2 = t2 ->
  let keeps n := fun x : gres bool * K2Gossip H => x = (GOk false, n) in
  let yields n := fun x : gres bool * K2Gossip H => x = (GOk true, set_initiated None n) in
  let x1 := check_peer_initiate_rate config clock u2 m2 n1 in
  let x2 := check_peer_initiate_rate config clock u1 m1 n2 in
  if decide (t1 = t2) then yields n1 x1 /\ yields n2 x2
  else if t2 <? t1 then keeps n1 x1 /\ yields n2 x2 else yields n1 x1 /\ keeps n2 x2.
Proof.
  intros E1 P1 S1 E2 P2 S2 T1 T2. cbn zeta beta. unfold check_peer_initiate_rate.
  rewrite E1, E2, S1, S2, T1, T2, !bool_decide_eq_true_2 by done.
  destruct (decide (t1 = t2)) as [->|Ht]; [by rewrite Z.ltb_irrefl|].
  destruct (Z.ltb_spec t2 t1), (Z.ltb_spec t1 t2); try lia; done.
Qed.

(** ** What is believed of other peers *)

Section received.
Context {H : Type} `{GossipHost H} `{AgentJson}.

End received.

(** ** Timeouts *)

Section timeouts.
Context {H : Type} `{GossipHost H} `{!PeerMetaLaws H} `{SerdeNum}.
Variable config : K2GossipConfig.
Variable clock : Clock.

(** Only the host changed. *)
Definition same_rounds (n n' : K2Gossip H) : Prop :=
  initiated_round_state n' = initiated_round_state n /\
  accepted_round_states n' = accepted_round_states n /\ burst n' = burst n /\ dht n' = dht n.

(** A count that fails is passed over. *)
Lemma count_timeout_ok now peer n : exists n',
  log_error tt (on_host (incr_peer_timeout now peer)) n = (GOk tt, n') /\ same_rounds n n'.
Proof.
  unfold log_error, on_host, incr_peer_timeout, incr, meta_get, meta_put, bind.
  rewrite pm_get_view. destruct (meta_view (host n) peer "gossip:peer_timeouts") as [v|].
  - destruct (from_slice TU32 v); cbn.
    + match goal with |- context [pm_put ?a ?b ?c ?d ?e] =>
        pose proof (pm_put_ok a b c d e) as Hok; destruct (pm_put a b c d e) as [r h] end.
      simpl in Hok. subst r. eexists. by split.
    + eexists. by split.
  - cbn. match goal with |- context [pm_put ?a ?b ?c ?d ?e] =>
      pose proof (pm_put_ok a b c d e) as Hok; destruct (pm_put a b c d e) as [r h] end.
    simpl in Hok. subst r. eexists. by split.
Qed.

Lemma same_rounds_trans n1 n2 n3 : same_rounds n1 n2 -> same_rounds n2 n3 -> same_rounds n1 n3.
Proof. unfold same_rounds. intuition congruence. Qed.

Lemma count_timeouts_ok urls n : exists n',
  count_timeouts clock urls n = (GOk tt, n') /\ same_rounds n n'.
Proof.
  revert n. induction urls as [|u urls IH]; intros n; [by exists n|]. cbn.
  destruct (count_timeout_ok (wall clock) u n) as (n1 & E1 & S1).
  destruct (IH n1) as (n2 & E2 & S2). exists n2.
  rewrite (gbind_ok _ _ _ _ _ E1). split; [done|by eapply same_rounds_trans].
Qed.

Lemma filter_not_timed_out (m : gmap Url GossipRoundState) :
  filter (fun kv => kv.1 ∉ (map_to_list (filter (fun kv => timed_out config clock kv.2 = true) m)).*1) m =
  filter (fun kv => timed_out config clock kv.2 = false) m.
Proof.
  apply map_filter_ext. intros u r Hr. cbn.
  rewrite list_elem_of_fmap. split.
  - intros Hn. destruct (timed_out config clock r) eqn:E; [|done]. destruct Hn. exists (u, r).
    split; [done|]. by apply elem_of_map_to_list, map_lookup_filter_Some.
  - intros E ([u' r'] & -> & [Hr' E']%elem_of_map_to_list%map_lookup_filter_Some).
    cbn in *. congruence.
Qed.

(** The timeout task always succeeds, removes exactly the rounds that are
    older than the timeout, and wakes the initiation task exactly when our own
    round timed out without an answer. *)
Theorem timeouts_exact n : exists n' force,
  remove_timed_out_rounds config clock n = (GOk force, n') /\
  accepted_round_states n' = filter (fun kv => timed_out config clock kv.2 = false) (accepted_round_states n) /\
  initiated_round_state n' =
    match initiated_round_state n with
    | Some r => if timed_out config clock r then None else Some r
    | None => None
    end /\
  burst n' = burst n /\ dht n' = dht n /\
  (force = true <-> exists r agents arcs tie, initiated_round_state n = Some r /\
     timed_out config clock r = true /\ stage r = StInitiated agents arcs tie).
Proof.
  unfold remove_timed_out_rounds.
  rewrite (gbind_ok _ _ n (initiated_round_state n) n) by done.
  assert (exists n1 force,
    (match initiated_round_state n with
     | Some state =>
         if timed_out config clock state then
           log_error tt (on_host (incr_peer_timeout (wall clock) (session_with_peer state))) ;;!
           take_initiated ;;!
           gret (match stage state with StInitiated _ _ _ => true | _ => false end)
         else gret false
     | None => gret false
     end) n = (GOk force, n1) /\ accepted_round_states n1 = accepted_round_states n /\
    initiated_round_state n1 = match initiated_round_state n with
      | Some r => if timed_out config clock r then None else Some r | None => None end /\
    burst n1 = burst n /\ dht n1 = dht n /\
    (force = true <-> exists r agents arcs tie, initiated_round_state n = Some r /\
     timed_out config clock r = true /\ stage r = StInitiated agents arcs tie))
    as (n1 & force & E1 & A1 & I1 & B1 & D1 & F1).
  { destruct (initiated_round_state n) as [r|] eqn:Er.
    - destruct (timed_out config clock r) eqn:Et.
      + destruct (count_timeout_ok (wall clock) (session_with_peer r) n) as (n1 & E & S1 & S2 & S3 & S4).
        rewrite (gbind_ok _ _ _ _ _ E). eexists _, _. split; [reflexivity|]. cbn. split_and!; try done.
        split; [destruct (stage r) eqn:Es; try done; intros _; by eexists _, _, _, _|].
        intros (r' & a & s & t & [= <-] & _ & ->). done.
      + eexists n, false. split_and!; try done. split; [done|].
        intros (r' & a & s & t & [= <-] & Ht & _). congruence.
    - eexists n, false. split_and!; try done. split; [done|]. by intros (r' & a & s & t & [=] & _). }
  rewrite (gbind_ok _ _ _ _ _ E1), (gbind_ok _ _ n1 (accepted_round_states n1) n1) by done.
  destruct (count_timeouts_ok (map_to_list (filter (fun kv => timed_out config clock kv.2 = true)
    (accepted_round_states n1))).*1 n1) as (n2 & E2 & S1 & S2 & S3 & S4).
  rewrite (gbind_ok _ _ _ _ _ E2). eexists _, force. split; [reflexivity|]. simpl.
  rewrite S2, filter_not_timed_out, A1. split_and!; try done; congruence.
Qed.
End timeouts.

(** ** Errors *)

Section errors.
Context {H : Type} `{GossipHost H} `{!PeerMetaLaws H} `{Location} `{SerdeNum} `{AgentJson} `{Protobuf}.
Variable config : K2GossipConfig.
Variable space_id : SpaceId.
Variable sharding : bool.

(** One counter of a peer went up by one, and nothing else of the node or of
    what is recorded of peers changed. *)
Definition counted (peer : Url) (name : string) (n n' : K2Gossip H) : Prop :=
  same_rounds n n' /\
  (forall p k, p <> peer \/ k <> name -> meta_view (host n') p k = meta_view (host n) p k) /\
  forall c, counter (host n) peer name = Some c -> counter (host n') peer name = Some (wrap_u32 (c + 1)).

Lemma count_ok now name keep peer (n : K2Gossip H) : exists n',
  log_error tt (on_host (incr now name keep peer)) n = (GOk tt, n') /\ counted peer name n n'.
Proof.
  destruct (counter (host n) peer name) as [c|] eqn:Ec.
  - destruct (incr_counter now name keep peer (host n) c Ec) as (h & E & Hc & Ho).
    exists (set_host h n). unfold log_error, on_host. rewrite E. cbn. split; [done|].
    split_and!; [done|exact Ho|]. intros c' Hc'. replace c' with c by congruence. exact Hc.
  - exists n. split; [|split; [done|split; [done|intros c' Hc'; congruence]]].
    unfold log_error, on_host, incr, meta_get, bind. rewrite pm_get_view.
    unfold counter in Ec. destruct (meta_view (host n) peer name) as [v|] eqn:Ev; [|done].
    rewrite Ec. cbn. by destruct n.
Qed.

(** The outcome of handling a message is counted by its kind: after a
    violation of the protocol the sender's count of behaviour errors goes up by
    one, after any other error our count of local errors with it, and in
    neither case anything else changes; without an error nothing is added. *)
Theorem errors_counted clock p msg n :
  match respond_to_msg config space_id sharding clock p msg n with
  | (GOk _, n1) => handle_gossip_message config space_id sharding clock p msg n = (GOk tt, n1)
  | (GPeer _, n1) => exists n2,
      handle_gossip_message config space_id sharding clock p msg n = (GOk tt, n2) /\
      counted p "gossip:peer_behavior_errors" n1 n2
  | (GErr _, n1) => exists n2,
      handle_gossip_message config space_id sharding clock p msg n = (GOk tt, n2) /\
      counted p "gossip:local_errors" n1 n2
  | (GPanic e, n1) => handle_gossip_message config space_id sharding clock p msg n = (GPanic e, n1)
  end.
Proof.
  unfold handle_gossip_message.
  destruct (respond_to_msg _ _ _ _ _ _ n) as [[a|e|e|e] n1]; [done|apply count_ok..|done].
Qed.
End errors.
