(* ===== verification/PeerStore.v ===== *)
(** The peers a space knows of: the index of known peers
    (crates/core/src/factories/core_known_peers.rs), the blocks
    (mem_blocks.rs) and the in-memory peer store (mem_peer_store.rs). *)

From S2P Require Import Prelude Arc Timestamp Id Agent.

(** ** Known peers: never forgotten, newest advertisement wins *)

Abbreviation KnownPeers := (gmap (list Z) (Timestamp * option string)).

Definition known_record_one (store : KnownPeers) (info : AgentInfoSigned) : KnownPeers :=
  match store !! ai_agent info with
  | Some (created_at, _) =>
      if ai_created_at info <=? created_at then store
      else <[ ai_agent info := (ai_created_at info, ai_url info) ]> store
  | None => <[ ai_agent info := (ai_created_at info, ai_url info) ]> store
  end.

Definition known_record (infos : list AgentInfoSigned) (store : KnownPeers) : KnownPeers :=
  foldl known_record_one store infos.

Definition known_get_by_url (url : Url) (store : KnownPeers) : list AgentId :=
  (map_to_list (filter (fun kv => kv.2.2 = Some url) store)).*1.

(** ** Blocks *)

Abbreviation MemBlocks := (gset (list Z)).

Definition block_agent (target : AgentId) (blocks : MemBlocks) : MemBlocks := {[ target ]} ∪ blocks.
Definition is_blocked (target : AgentId) (blocks : MemBlocks) : bool := bool_decide (target ∈ blocks).
Definition is_any_blocked (targets : list AgentId) (blocks : MemBlocks) : bool :=
  match targets with [] => false | _ => existsb (fun t => is_blocked t blocks) targets end.

(** ** The store *)

Record Inner : Type := MkInner {
  prune_interval : Duration;
  store : gmap (list Z) AgentInfoSigned;
  no_prune_until : Z;
}.

Definition set_store (f : gmap (list Z) AgentInfoSigned -> gmap (list Z) AgentInfoSigned) (s : Inner) : Inner :=
  MkInner (prune_interval s) (f (store s)) (no_prune_until s).

Definition inner_new (interval : Duration) (now_inst : Z) : Inner :=
  MkInner interval ∅ (now_inst + interval).

(** [now_inst] is the monotonic clock, [now_ts] the wall clock. *)
Definition do_prune (now_inst : Z) (now_ts : Timestamp) (s : Inner) : Inner :=
  MkInner (prune_interval s) (filter (fun kv : AgentId * AgentInfoSigned => now_ts < ai_expires_at kv.2) (store s))
    (now_inst + prune_interval s).

Definition check_prune (now_inst : Z) (now_ts : Timestamp) (s : Inner) : Inner :=
  if now_inst <? no_prune_until s then s else do_prune now_inst now_ts s.

(** One info of a list to insert: the store, and the infos inserted so far. *)
Definition insert_one (now : Timestamp) (blocks : MemBlocks)
  (acc : gmap (list Z) AgentInfoSigned * list AgentInfoSigned) (agent : AgentInfoSigned)
  : gmap (list Z) AgentInfoSigned * list AgentInfoSigned :=
  if is_blocked (ai_agent agent) blocks then acc
  else if ai_expires_at agent <? now then acc
  else
    match (acc.1 !! ai_agent agent) : option AgentInfoSigned with
    | Some a =>
        if ai_created_at agent <=? ai_created_at a then acc
        else (<[ ai_agent agent := agent ]> acc.1, acc.2 ++ [agent])
    | None => (<[ ai_agent agent := agent ]> acc.1, acc.2 ++ [agent])
    end.

Definition inner_insert (now_inst : Z) (now : Timestamp) (blocks : MemBlocks)
  (agent_list : list AgentInfoSigned) (s : Inner) : list AgentInfoSigned * Inner :=
  let s := check_prune now_inst now s in
  let '(m, inserted) := foldl (insert_one now blocks) (store s, []) agent_list in
  (inserted, set_store (fun _ => m) s).

Definition inner_remove (agent_id : AgentId) (s : Inner) : option AgentInfoSigned * Inner :=
  (store s !! agent_id, set_store (delete agent_id) s).

Definition inner_get (now_inst : Z) (now : Timestamp) (agent : AgentId) (s : Inner)
  : option AgentInfoSigned * Inner :=
  let s := check_prune now_inst now s in (store s !! agent, s).

Definition store_values (s : Inner) : list AgentInfoSigned := (map_to_list (store s)).*2.

Definition inner_get_all (now_inst : Z) (now : Timestamp) (s : Inner) : list AgentInfoSigned * Inner :=
  let s := check_prune now_inst now s in (store_values s, s).

Definition inner_get_by_overlapping_storage_arc (now_inst : Z) (now : Timestamp) (arc : DhtArc) (s : Inner)
  : list AgentInfoSigned * Inner :=
  let s := check_prune now_inst now s in
  (List.filter (fun info : AgentInfoSigned => negb (ai_is_tombstone info) && overlaps arc (ai_storage_arc info))
     (store_values s), s).

Definition by_dist (x y : Z * AgentInfoSigned) : Prop := x.1 <= y.1.
#[global] Instance by_dist_dec x y : Decision (by_dist x y).
Proof. unfold by_dist. apply _. Defined.

(** A stable sort by distance, without tombstones and empty arcs. *)
Definition inner_get_near_location (now_inst : Z) (now : Timestamp) (loc : Z) (limit : nat) (s : Inner)
  : list AgentInfoSigned * Inner :=
  let s := check_prune now_inst now s in
  let out := omap (fun v : AgentInfoSigned =>
    if ai_is_tombstone v then None
    else if bool_decide (ai_storage_arc v = Empty) then None
    else Some (dist (ai_storage_arc v) loc, v)) (store_values s) in
  (map snd (take limit (merge_sort by_dist out)), s).

Definition inner_get_by_url (now_inst : Z) (now : Timestamp) (peer_url : Url) (s : Inner)
  : list AgentInfoSigned * Inner :=
  let s := check_prune now_inst now s in
  (List.filter (fun a : AgentInfoSigned => bool_decide (ai_url a = Some peer_url)) (store_values s), s).

(** ** Theorems *)

Lemma known_record_one_mono store info b t u :
  store !! b = Some (t, u) -> exists t' u', known_record_one store info !! b = Some (t', u') /\ t <= t'.
Proof.
  intros Hb. unfold known_record_one. destruct (decide (ai_agent info = b)) as [E|E].
  - rewrite E, Hb. destruct (Z.leb_spec (ai_created_at info) t); [by exists t, u|].
    rewrite lookup_insert_eq. eexists _, _. split; [done|lia].
  - exists t, u. split; [|lia].
    destruct (store !! ai_agent info) as [[t' u']|]; [destruct (_ <=? _)|]; by rewrite ?lookup_insert_ne.
Qed.

(** A known agent stays known, and its entry only gets newer. *)
Lemma known_record_mono infos store b t u :
  store !! b = Some (t, u) -> exists t' u', known_record infos store !! b = Some (t', u') /\ t <= t'.
Proof.
  revert store t u. unfold known_record. induction infos as [|i infos IH]; intros store t u Hb; cbn.
  - exists t, u. by split.
  - destruct (known_record_one_mono store i b t u Hb) as (t1 & u1 & E1 & L1).
    destruct (IH _ _ _ E1) as (t2 & u2 & E2 & L2). exists t2, u2. split; [done|lia].
Qed.

Lemma known_get_by_url_spec url store b :
  b ∈ known_get_by_url url store <-> exists t, store !! b = Some (t, Some url).
Proof.
  unfold known_get_by_url. rewrite list_elem_of_fmap. split.
  - intros ([b' [t u]] & -> & [Hb Hu]%elem_of_map_to_list%map_lookup_filter_Some). simpl in *. subst u. eauto.
  - intros [t Hb]. exists (b, (t, Some url)). split; [done|].
    by apply elem_of_map_to_list, map_lookup_filter_Some.
Qed.

Lemma is_any_blocked_spec targets blocks :
  is_any_blocked targets blocks = true <-> exists t, t ∈ targets /\ t ∈ blocks.
Proof.
  assert (existsb (fun t => is_blocked t blocks) targets = true <-> exists t, t ∈ targets /\ t ∈ blocks) as Hx.
  { rewrite existsb_exists. unfold is_blocked. split; intros (t & Ht & Hb); exists t.
    - split; [by apply list_elem_of_In|by apply bool_decide_eq_true in Hb].
    - split; [by apply list_elem_of_In|by apply bool_decide_eq_true]. }
  destruct targets; [|exact Hx]. split; [done|]. intros (t & Ht & _). by apply elem_of_nil in Ht.
Qed.

(** May be stored: neither blocked nor expired. *)
Definition storable (now : Timestamp) (blocks : MemBlocks) (a : AgentInfoSigned) : Prop :=
  (ai_agent a ∉ blocks) /\ now <= ai_expires_at a.

(** What a store holds of an agent after some infos were offered to one that
    held [old]: the newest of them, the first of several as new. *)
Record newest_of (old : option AgentInfoSigned) (offered : list AgentInfoSigned)
  (new : option AgentInfoSigned) : Prop := {
  nw_source : new = old \/ exists a, new = Some a /\ a ∈ offered;
  nw_old (a : AgentInfoSigned) : old = Some a -> exists b : AgentInfoSigned, new = Some b /\ (b = a \/ ai_created_at a < ai_created_at b);
  nw_offered (a : AgentInfoSigned) : a ∈ offered -> exists b : AgentInfoSigned, new = Some b /\ ai_created_at a <= ai_created_at b;
}.

Definition offered_to (now : Timestamp) (blocks : MemBlocks) (agent : AgentId) (l : list AgentInfoSigned)
  : list AgentInfoSigned :=
  List.filter (fun a : AgentInfoSigned => bool_decide (ai_agent a = agent) && negb (is_blocked (ai_agent a) blocks)
                     && (now <=? ai_expires_at a)) l.

Lemma newest_of_nil old : newest_of old [] old.
Proof. split; [by left|eauto|]. intros a Ha. by apply elem_of_nil in Ha. Qed.

Lemma newest_of_step old a l mid new :
  newest_of old [a] mid -> newest_of mid l new -> newest_of old (a :: l) new.
Proof.
  intros [A1 A2 A3] [B1 B2 B3]. split.
  - destruct B1 as [->|(b & -> & Hb)].
    + destruct A1 as [->|(b & -> & Hb)]; [by left|right]. exists b. split; [done|].
      apply list_elem_of_singleton in Hb as ->. by left.
    + right. exists b. split; [done|by right].
  - intros o Ho. destruct (A2 o Ho) as (b & -> & Hb). destruct (B2 b eq_refl) as (c & -> & Hc).
    exists c. split; [done|]. destruct Hb as [->|Hb], Hc as [->|Hc]; auto; right; lia.
  - intros o [->|Ho]%elem_of_cons; [|by apply B3].
    destruct (A3 a ltac:(by left)) as (b & -> & Hb). destruct (B2 b eq_refl) as (c & -> & [->|Hc]);
      eexists; (split; [done|lia]).
Qed.

Lemma insert_one_newest (now : Timestamp) (blocks : MemBlocks) (m : gmap (list Z) AgentInfoSigned) (acc : list AgentInfoSigned) (a : AgentInfoSigned) (agent : AgentId) :
  newest_of (m !! agent) (offered_to now blocks agent [a]) ((insert_one now blocks (m, acc) a).1 !! agent).
Proof.
  unfold insert_one, offered_to. cbn.
  destruct (is_blocked (ai_agent a) blocks) eqn:Eb; [rewrite andb_false_r; cbn; apply newest_of_nil|].
  rewrite Z.leb_antisym. destruct (ai_expires_at a <? now) eqn:Ee; [rewrite andb_false_r; cbn; apply newest_of_nil|].
  cbn [negb]. rewrite !andb_true_r.
  destruct (bool_decide_reflect (ai_agent a = agent)) as [<-|Hn].
  - destruct (m !! ai_agent a) as [o|] eqn:Em.
    + destruct (Z.leb_spec (ai_created_at a) (ai_created_at o)); cbn; rewrite ?Em, ?lookup_insert_eq.
      * split; [by left|eauto|]. intros b ->%list_elem_of_singleton. by exists o.
      * split; [right; exists a; by split; [|left]| |].
        -- intros b [= <-]. exists a. auto.
        -- intros b ->%list_elem_of_singleton. by exists a.
    + cbn. rewrite lookup_insert_eq. split; [right; exists a; by split; [|left]|done|].
      intros b ->%list_elem_of_singleton. by exists a.
  - destruct (m !! ai_agent a) as [o|]; [destruct (_ <=? _)|]; cbn; rewrite ?lookup_insert_ne by done;
      apply newest_of_nil.
Qed.

Lemma insert_fold_newest (now : Timestamp) (blocks : MemBlocks) (l : list AgentInfoSigned) (m : gmap (list Z) AgentInfoSigned) (acc : list AgentInfoSigned) (agent : AgentId) :
  newest_of (m !! agent) (offered_to now blocks agent l)
    ((foldl (insert_one now blocks) (m, acc) l).1 !! agent).
Proof.
  revert m acc. induction l as [|a l IH]; intros m acc; [apply newest_of_nil|]. cbn [foldl].
  pose proof (insert_one_newest now blocks m acc a agent) as H1.
  destruct (insert_one now blocks (m, acc) a) as [m1 acc1]. specialize (IH m1 acc1). cbn [fst] in H1.
  unfold offered_to in *. cbn [List.filter] in *.
  destruct (bool_decide _ && _ && _); [by eapply newest_of_step|].
  destruct H1 as [A1 A2 A3], IH as [B1 B2 B3].
  assert (m1 !! agent = m !! agent) as E.
  { destruct A1 as [->|(b & _ & Hb)]; [done|]. by apply elem_of_nil in Hb. }
  rewrite E in *. by split.
Qed.

(** Of each agent the peer store keeps the newest info: after an insertion
    it holds the info it held (unless that expired) or one of the infos offered
    that is neither blocked nor expired, and of those it never holds one older
    than another.  An info is replaced only by a newer one. *)
Theorem insert_keeps_newest (now_inst : Z) (now : Timestamp) (blocks : MemBlocks)
  (l : list AgentInfoSigned) (s : Inner) (agent : AgentId) :
  newest_of (store (check_prune now_inst now s) !! agent) (offered_to now blocks agent l)
    (store (inner_insert now_inst now blocks l s).2 !! agent).
Proof.
  unfold inner_insert.
  pose proof (insert_fold_newest now blocks l (store (check_prune now_inst now s)) [] agent) as Hf.
  by destruct (foldl _ _ l) as [m inserted].
Qed.

(** The listeners are called with infos that are in the list offered and were
    stored. *)
Lemma inserted_sound (now : Timestamp) (blocks : MemBlocks) (l : list AgentInfoSigned) (m : gmap (list Z) AgentInfoSigned) (acc : list AgentInfoSigned) (a : AgentInfoSigned) :
  a ∈ (foldl (insert_one now blocks) (m, acc) l).2 -> a ∈ acc \/ (a ∈ l /\ storable now blocks a).
Proof.
  revert m acc. induction l as [|i l IH]; intros m acc; cbn [foldl]; [by left|].
  unfold insert_one at 2. cbn [fst snd].
  destruct (is_blocked (ai_agent i) blocks) eqn:Eb;
    [intros [?|[? ?]]%IH; [by left|right; split; [by right|done]]|].
  destruct (Z.ltb_spec (ai_expires_at i) now);
    [intros [?|[? ?]]%IH; [by left|right; split; [by right|done]]|].
  assert (storable now blocks i) as Hi by (split; [by apply bool_decide_eq_false in Eb|done]).
  destruct (m !! ai_agent i) as [o|]; [destruct (_ <=? _)|];
    (intros [Ha|[? ?]]%IH; [|right; split; [by right|done]]); try (by left);
    (apply elem_of_app in Ha as [Ha|Ha]; [by left|];
     apply list_elem_of_singleton in Ha as ->; right; split; [by left|done]).
Qed.

#[global] Instance by_dist_total : Total by_dist.
Proof. intros [a x] [b y]. unfold by_dist. cbn. lia. Qed.
#[global] Instance by_dist_trans : Transitive by_dist.
Proof. intros [a x] [b y] [c z]. unfold by_dist. cbn. lia. Qed.
