(* ===== verification/Access.v ===== *)
(** Access control: the decisions a space keeps about peer URLs
    (crates/core/src/factories/core_access.rs, core_space.rs), their updates by
    the peer store's listener, and the check of messages in the transport
    (crates/api/src/transport.rs). *)

From S2P Require Import Prelude Arc Timestamp Id Agent PeerStore.

Inductive AccessDecision : Type := Granted | Blocked.

#[global] Instance AccessDecision_eq_dec : EqDecision AccessDecision.
Proof. solve_decision. Defined.

Record PeerAccess : Type := MkPeerAccess { decision : AccessDecision; decided_at : Timestamp }.

(** A space's known peers, blocks, peer store and decisions, and whether it has
    local agents. *)
Record SpaceAccess : Type := MkSpaceAccess {
  known : KnownPeers;
  blocks : MemBlocks;
  peers : Inner;
  decisions : gmap string PeerAccess;
  local_agents : bool;
}.

Definition set_decisions (f : gmap string PeerAccess -> gmap string PeerAccess) (s : SpaceAccess) : SpaceAccess :=
  MkSpaceAccess (known s) (blocks s) (peers s) (f (decisions s)) (local_agents s).
Definition set_peers (p : Inner) (s : SpaceAccess) : SpaceAccess :=
  MkSpaceAccess (known s) (blocks s) p (decisions s) (local_agents s).

(** The listener: the decision about the URL of an info that was stored or
    removed. *)
Definition decide_access (now : Timestamp) (s : SpaceAccess) (info : AgentInfoSigned) : SpaceAccess :=
  match ai_url info with
  | None => s
  | Some peer_url =>
      match known_get_by_url peer_url (known s) with
      | [] => set_decisions (delete peer_url) s
      | agents_by_url =>
          set_decisions (insert peer_url
            (MkPeerAccess (if is_any_blocked agents_by_url (blocks s) then Blocked else Granted) now)) s
      end
  end.

(** The peer store with its listener.  Infos are recorded as known before any
    is refused. *)
Definition space_insert (now_inst : Z) (now : Timestamp) (agent_list : list AgentInfoSigned) (s : SpaceAccess)
  : SpaceAccess :=
  let '(inserted, peers') := inner_insert now_inst now (blocks s) agent_list (peers s) in
  foldl (decide_access now)
    (MkSpaceAccess (known_record agent_list (known s)) (blocks s) peers' (decisions s) (local_agents s)) inserted.

Definition space_remove (now : Timestamp) (agent_id : AgentId) (s : SpaceAccess) : SpaceAccess :=
  let '(removed, peers') := inner_remove agent_id (peers s) in
  match removed with
  | Some a => decide_access now (set_peers peers' s) a
  | None => set_peers peers' s
  end.

Definition space_block (agent_id : AgentId) (s : SpaceAccess) : SpaceAccess :=
  MkSpaceAccess (known s) (block_agent agent_id (blocks s)) (peers s) (decisions s) (local_agents s).

Definition block_and_remove_agent (now : Timestamp) (agent_id : AgentId) (s : SpaceAccess) : SpaceAccess :=
  space_remove now agent_id (space_block agent_id s).

(** One turn of the hourly task. *)
Definition prune_decisions (now : Timestamp) (s : SpaceAccess) : SpaceAccess :=
  match ts_sub_dur now (from_secs (60 * 60)) with
  | None => s
  | Some old => set_decisions (filter (fun kv : string * PeerAccess => old < decided_at kv.2)) s
  end.

Definition get_access_decision (peer_url : Url) (s : SpaceAccess) : option PeerAccess :=
  decisions s !! peer_url.

(** Without a decision a URL is treated as blocked. *)
Definition is_any_agent_at_url_blocked (peer_url : Url) (s : SpaceAccess) : bool :=
  match get_access_decision peer_url s with
  | Some access => bool_decide (decision access = Blocked)
  | None => true
  end.

(** ** The transport's check *)

Inductive K2WireType : Type := WUnspecified | WPreflight | WNotify | WModule | WDisconnect.

Record MessageBlockCount : Type := MkBlockCount { incoming : Z; outgoing : Z }.

Abbreviation MessageBlocksMap := (gmap string (gmap (list Z) MessageBlockCount)).

Record TxState : Type := MkTx {
  space_map : gmap (list Z) SpaceAccess;
  blocked_message_counts : MessageBlocksMap;
}.

Definition incr_blocked_message_count (out : bool) (counts : MessageBlocksMap) (peer_url : Url) (space_id : SpaceId)
  : MessageBlocksMap :=
  let space_counts := default ∅ (counts !! peer_url) in
  let c := default (MkBlockCount 0 0) (space_counts !! space_id) in
  <[ peer_url := <[ space_id :=
       if out then MkBlockCount (incoming c) (wrap_u32 (outgoing c + 1))
       else MkBlockCount (wrap_u32 (incoming c + 1)) (outgoing c) ]> space_counts ]> counts.

Definition is_peer_blocked (peer_url : Url) (space_id : SpaceId) (out : bool) (tx : TxState)
  : bool * TxState :=
  match space_map tx !! space_id with
  | Some space =>
      if is_any_agent_at_url_blocked peer_url space
      then (true, MkTx (space_map tx) (incr_blocked_message_count out (blocked_message_counts tx) peer_url space_id))
      else (false, tx)
  | None => (true, tx)
  end.

Definition check_message_permitted (peer_url : Url) (space_id : option SpaceId) (message_type : K2WireType)
  (tx : TxState) : res bool * TxState :=
  match message_type with
  | WPreflight | WUnspecified | WDisconnect => (Ok true, tx)
  | WNotify | WModule =>
      match space_id with
      | None => (Err "Received a message without space id.", tx)
      | Some space_id =>
          let '(blocked, tx) := is_peer_blocked peer_url space_id false tx in (Ok (negb blocked), tx)
      end
  end.

(** The guards of [send_space_notify] and [send_module]: whether the message is
    sent. *)
Definition may_send (peer_url : Url) (space_id : SpaceId) (tx : TxState) : res bool * TxState :=
  match space_map tx !! space_id with
  | Some space =>
      if negb (local_agents space) then (Err "NoLocalAgentsDuringPreflight", tx)
      else let '(blocked, tx) := is_peer_blocked peer_url space_id true tx in (Ok (negb blocked), tx)
  | None => let '(blocked, tx) := is_peer_blocked peer_url space_id true tx in (Ok (negb blocked), tx)
  end.

(** ** Theorems *)

Lemma decide_access_fields now s i :
  known (decide_access now s i) = known s /\ blocks (decide_access now s i) = blocks s /\
  peers (decide_access now s i) = peers s.
Proof. unfold decide_access. destruct (ai_url i); [|done]. by destruct (known_get_by_url _ _). Qed.

(** What the listener decides about a URL follows what is known and blocked. *)
Lemma decide_access_at now s (i : AgentInfoSigned) u : ai_url i = Some u ->
  decisions (decide_access now s i) !! u =
    if bool_decide (known_get_by_url u (known s) = []) then None
    else Some (MkPeerAccess (if is_any_blocked (known_get_by_url u (known s)) (blocks s) then Blocked else Granted) now).
Proof.
  intros Hu. unfold decide_access. rewrite Hu.
  destruct (known_get_by_url u (known s)) as [|a l] eqn:E; cbn.
  - by rewrite lookup_delete_eq.
  - by rewrite lookup_insert_eq.
Qed.

Lemma decide_access_other now s (i : AgentInfoSigned) u : ai_url i <> Some u ->
  decisions (decide_access now s i) !! u = decisions s !! u.
Proof.
  intros Hu. unfold decide_access. destruct (ai_url i) as [v|]; [|done].
  assert (v <> u) by congruence.
  destruct (known_get_by_url v (known s)); cbn; [by rewrite lookup_delete_ne|by rewrite lookup_insert_ne].
Qed.

(** Agent [b] is last known at URL [u]. *)
Definition known_at (u : Url) (b : AgentId) (s : SpaceAccess) : Prop :=
  exists t, known s !! b = Some (t, Some u).

(** A blocked agent is last known at [u], and no message passes there. *)
Record shut (u : Url) (b : AgentId) (s : SpaceAccess) : Prop := {
  sh_blocked : b ∈ blocks s;
  sh_closed : is_any_agent_at_url_blocked u s = true;
}.

Lemma known_blocked u b s : known_at u b s -> b ∈ blocks s ->
  is_any_blocked (known_get_by_url u (known s)) (blocks s) = true /\ known_get_by_url u (known s) <> [].
Proof.
  intros Hk Hb. assert (b ∈ known_get_by_url u (known s)) as Hin by by apply known_get_by_url_spec.
  split; [apply is_any_blocked_spec; eauto|]. intros E. rewrite E in Hin. by apply elem_of_nil in Hin.
Qed.

Lemma decide_access_shut now u b s i : known_at u b s -> shut u b s -> shut u b (decide_access now s i).
Proof.
  intros Hk [Hb Hc]. destruct (decide_access_fields now s i) as (Ek & Eb & _).
  split; [by rewrite Eb|]. unfold is_any_agent_at_url_blocked, get_access_decision in *.
  destruct (decide (ai_url i = Some u)) as [Hu|Hu]; [|by rewrite decide_access_other].
  rewrite (decide_access_at _ _ _ _ Hu). destruct (known_blocked u b s Hk Hb) as [-> Hn].
  by rewrite bool_decide_eq_false_2.
Qed.

Lemma decide_all_shut now u b l s : known_at u b s -> shut u b s -> shut u b (foldl (decide_access now) s l).
Proof.
  revert s. induction l as [|i l IH]; intros s Hk Hs; [done|]. cbn. apply IH; [|by apply decide_access_shut].
  unfold known_at. by destruct (decide_access_fields now s i) as (-> & _).
Qed.

Lemma decide_all_known now l s : known (foldl (decide_access now) s l) = known s.
Proof.
  revert s. induction l as [|i l IH]; intros s; [done|]. cbn. rewrite IH.
  by destruct (decide_access_fields now s i) as (-> & _).
Qed.

(** What can happen to a space. *)
Inductive access_step : SpaceAccess -> SpaceAccess -> Prop :=
  | as_insert now_inst now infos s : access_step s (space_insert now_inst now infos s)
  | as_remove now b s : access_step s (space_remove now b s)
  | as_block b s : access_step s (space_block b s)
  | as_prune_decisions now s : access_step s (prune_decisions now s)
  | as_prune_peers now_inst now s : access_step s (set_peers (check_prune now_inst now (peers s)) s).

Lemma step_shut u b s s' : access_step s s' -> known_at u b s' -> shut u b s -> shut u b s'.
Proof.
  intros Hs Hk [Hb Hc]. destruct Hs.
  - unfold space_insert in *. destruct (inner_insert _ _ _ _ _) as [inserted peers'].
    apply decide_all_shut; [|by split]. unfold known_at in *. by rewrite decide_all_known in Hk.
  - unfold space_remove in *. destruct (inner_remove _ _) as [[a|] peers'] eqn:E.
    + apply decide_access_shut; [|by split].
      unfold known_at in *. destruct (decide_access_fields now (set_peers peers' s) a) as (Ek & _).
      by rewrite Ek in Hk.
    + by split.
  - split; [|done]. unfold space_block, block_agent. cbn [blocks]. by apply elem_of_union_r.
  - split; unfold prune_decisions in *; destruct (ts_sub_dur _ _) as [old|]; try done.
    unfold is_any_agent_at_url_blocked, get_access_decision in *. cbn.
    destruct (filter _ (decisions s) !! u) as [d|] eqn:E; [|done].
    apply map_lookup_filter_Some in E as [E _]. by rewrite E in Hc.
  - by split.
Qed.

(** Steps after which agent [b] is still last known at [u]. *)
Definition access_step_at (u : Url) (b : AgentId) (s s' : SpaceAccess) : Prop :=
  access_step s s' /\ known_at u b s'.


(** A message passes exactly when it is of a type that always passes, or it
    names a space that is registered and has granted access to the URL.  A
    message that is dropped for a blocked URL, and no other, adds one to the
    count of incoming messages of that URL and space. *)
Theorem permitted_exact u space_id ty tx :
  let '(r, tx') := check_message_permitted u space_id ty tx in
  space_map tx' = space_map tx /\
  (r = Ok true <->
     (ty = WPreflight \/ ty = WUnspecified \/ ty = WDisconnect) \/
     exists id s access, space_id = Some id /\ space_map tx !! id = Some s /\
       decisions s !! u = Some access /\ decision access = Granted) /\
  (blocked_message_counts tx' =
     match ty, space_id with
     | (WNotify | WModule), Some id =>
         match space_map tx !! id with
         | Some s => if is_any_agent_at_url_blocked u s
                     then incr_blocked_message_count false (blocked_message_counts tx) u id
                     else blocked_message_counts tx
         | None => blocked_message_counts tx
         end
     | _, _ => blocked_message_counts tx
     end).
Proof.
  assert (forall s, is_any_agent_at_url_blocked u s = false <->
    exists access, decisions s !! u = Some access /\ decision access = Granted) as Hg.
  { intros s. unfold is_any_agent_at_url_blocked, get_access_decision.
    destruct (decisions s !! u) as [[d t]|]; cbn.
    - rewrite bool_decide_eq_false. split; [|intros ([d' t'] & [= -> ->] & Hd); cbn in Hd; by subst].
      intros Hd. eexists. split; [done|]. by destruct d.
    - split; [done|]. by intros (a & [=] & _). }
  assert (forall ty', ty' = WNotify \/ ty' = WModule -> ty' = WPreflight \/ ty' = WUnspecified \/ ty' = WDisconnect -> False)
    as Hty by (intros ? [-> | ->] [|[|]]; done).
  unfold check_message_permitted, is_peer_blocked.
  destruct ty; try (split_and!; [done| |by destruct space_id]; split; [by auto|done]);
    (destruct space_id as [id|]; cbn;
     [|split_and!; [done| |done]; split; [done|]; by intros [[|[|]]|(? & ? & ? & [=] & _)]];
     destruct (space_map tx !! id) as [s|] eqn:Es;
     [|split_and!; [done| |done]; split; [done|]; intros [[|[|]]|(? & ? & ? & [= <-] & Hs & _)]; congruence];
     destruct (is_any_agent_at_url_blocked u s) eqn:Eb; cbn; (split_and!; [done| |done]);
     split; try done;
     [intros [[|[|]]|(id' & s' & access & [= <-] & Hs & Ha)]; try done;
      assert (s' = s) as -> by congruence; assert (is_any_agent_at_url_blocked u s = false) by (apply Hg; eauto);
      congruence
     |intros _; right; apply Hg in Eb as (access & Ha); exists id, s, access; split_and!; try done; tauto]).
Qed.

(** ** A gap, and a witness *)

Definition empty_space : SpaceAccess := MkSpaceAccess ∅ ∅ (inner_new 10 0) ∅ true.

Definition peer_info (agent : AgentId) (created : Timestamp) (url : option Url) : AgentInfoSigned :=
  MkAgentInfoSigned (MkAgentInfo agent [0] created 1000 false url Empty) "" [].

Definition gap : SpaceAccess :=
  space_insert 0 20 [peer_info [2] 20 (Some "shared"%string)]
    (space_block [2]
      (space_insert 0 10 [peer_info [1] 10 (Some "shared"%string)] empty_space)).

(** A blocked agent whose info arrives only after it was blocked is let in
    at a URL it shares with an agent that was granted access before: the info
    is recorded as known and refused by the peer store, so the listener does
    not run and the decision about the URL stays. *)
Theorem blocked_agent_let_in :
  rtc access_step empty_space gap /\ ([2] ∈ blocks gap) /\ known_at "shared" [2] gap /\
  (check_message_permitted "shared" (Some [0]) WModule (MkTx {[ [0] := gap ]} ∅)).1 = Ok true.
Proof.
  split_and!.
  - eapply rtc_l; [apply as_insert|]. eapply rtc_l; [apply as_block|].
    eapply rtc_l; [apply as_insert|]. apply rtc_refl.
  - apply (bool_decide_eq_true_1 _). vm_compute. done.
  - exists 20. vm_compute. done.
  - vm_compute. done.
Qed.

(** Agent 2 joins at a URL it shares with agent 1 and is blocked; then agent 1
    announces itself again, which decides about the URL anew. *)
Definition before_block : SpaceAccess :=
  space_insert 0 10 [peer_info [1] 10 (Some "shared"%string); peer_info [2] 10 (Some "shared"%string)] empty_space.

