(* ===== verification/GossipTarget.v ===== *)
(** The choice of a peer to gossip with (crates/gossip/src/initiate.rs). *)

From S2P Require Import Prelude Arc Timestamp Id Agent Combine ArcSet OpStore Snapshot.
From S2P Require Import GossipProtocol GossipWire Agent PeerMeta Dht GossipNode.

(** ** The selection

    Agents are collected in hash sets, whose order of iteration is not
    specified: [set_iter] is any enumeration of the elements of a list. *)

Section select.
Context {H : Type} `{PeerMetaStore H} `{PeerStore H} `{SerdeNum}.
Variable set_iter : list AgentInfoSigned -> list AgentInfoSigned.
Variable current_time : Timestamp.

Definition remove_local_agents (local_agents : list AgentId) (agents : list AgentInfoSigned)
  : list AgentInfoSigned :=
  List.filter (fun a : AgentInfoSigned => negb (bool_decide (ai_agent a ∈ local_agents))) agents.

(** An agent that can be gossiped with, with the time since we last did. *)
Definition target_of (agent : AgentInfoSigned) : M H (option (Duration * Url)) :=
  if ai_is_tombstone agent then ret None
  else if ai_expires_at agent <? current_time then ret None
  else
    match ai_url agent with
    | None => ret None
    | Some url =>
        let* unresponsive := pm_get_unresponsive url in
        match unresponsive with
        | Some _ => ret None
        | None =>
            let* timestamp := last_gossip_timestamp url in
            ret (Some (default 0 (ts_sub current_time (default UNIX_TIMESTAMP timestamp)), url))
        end
    end.

Fixpoint targets_of (agents : list AgentInfoSigned) : M H (list (Duration * Url)) :=
  match agents with
  | [] => ret []
  | agent :: agents =>
      let* target := target_of agent in
      let* targets := targets_of agents in
      ret (match target with Some t => t :: targets | None => targets end)
  end.

(** [max_by_key]: the last of the greatest. *)
Definition later_max (best : option (Duration * Url)) (t : Duration * Url) : option (Duration * Url) :=
  match best with
  | None => Some t
  | Some b => if b.1 <=? t.1 then Some t else Some b
  end.

Definition max_by_key (targets : list (Duration * Url)) : option (Duration * Url) :=
  foldl later_max None targets.

Definition select_responsive_and_least_recently_gossiped (all_agents : list AgentInfoSigned)
  : M H (option Url) :=
  let* possible_targets := targets_of (set_iter all_agents) in
  ret (snd <$> max_by_key possible_targets).

Fixpoint overlapping_agents (local_arcs : list DhtArc) : M H (list AgentInfoSigned) :=
  match local_arcs with
  | [] => ret []
  | arc :: local_arcs =>
      let* by_local_arc_agents := ps_get_by_overlapping_storage_arc arc in
      let* rest := overlapping_agents local_arcs in
      ret (by_local_arc_agents ++ rest)
  end.

Definition select_next_target (local_agents : list LocalAgent) : M H (option Url) :=
  let local_ids := map la_agent local_agents in
  let* overlapping := overlapping_agents (remove_dups (map tgt_storage_arc local_agents)) in
  let overlapping := remove_local_agents local_ids overlapping in
  let using_overlapping_agents := match overlapping with [] => false | _ => true end in
  let* all_agents :=
    if using_overlapping_agents then ret overlapping
    else let* all := ps_get_all in ret (remove_local_agents local_ids all) in
  let* possible_target := select_responsive_and_least_recently_gossiped all_agents in
  match possible_target, using_overlapping_agents with
  | None, true =>
      let* all := ps_get_all in
      select_responsive_and_least_recently_gossiped (remove_local_agents local_ids all)
  | _, _ => ret possible_target
  end.
End select.

(** ** What is relied on of the peer store

    A query answers from what the store holds at the time; it may drop expired
    infos first, which changes nothing of what it answers. *)

Class PeerStoreLaws (H : Type) `{PeerMetaLaws H} `{PeerStore H} := {
  peers_view : H -> list AgentInfoSigned;
  same_view (s s' : H) : Prop :=
    peers_view s' = peers_view s /\ forall p k, meta_view s' p k = meta_view s p k;
  ps_get_all_view s : exists s', ps_get_all s = (Ok (peers_view s), s') /\ same_view s s';
  ps_overlapping_view arc s : exists s', ps_get_by_overlapping_storage_arc arc s =
    (Ok (List.filter (fun a : AgentInfoSigned => negb (ai_is_tombstone a) && overlaps arc (ai_storage_arc a))
           (peers_view s)), s') /\ same_view s s';
}.

Section theorems.
Context {H : Type} `{PeerStoreLaws H} `{SerdeNum}.
Variable now : Timestamp.
Variable local_agents : list LocalAgent.

(** What is recorded of peers can be read. *)
Definition readable (s : H) : Prop := forall u k v, k = "root:unresponsive"%string \/ k = "gossip:last_timestamp"%string ->
  meta_view s u k = Some v -> from_slice TTimestamp v <> None.

(** The time since we last gossiped with a URL, all time if we never did. *)
Definition since (s : H) (u : Url) : Duration :=
  default 0 (ts_sub now (default UNIX_TIMESTAMP
    (meta_view s u "gossip:last_timestamp" ≫= from_slice TTimestamp))).

Definition can_gossip (s : H) (a : AgentInfoSigned) (u : Url) : Prop :=
  ai_is_tombstone a = false /\ now <= ai_expires_at a /\ ai_url a = Some u /\
  meta_view s u "root:unresponsive" = None.

(** A remote agent to gossip with. *)
Definition eligible (s : H) (a : AgentInfoSigned) (u : Url) : Prop :=
  a ∈ peers_view s /\ (ai_agent a ∉ map la_agent local_agents) /\ can_gossip s a u.

Definition overlaps_ours (a : AgentInfoSigned) : Prop :=
  exists l, l ∈ local_agents /\ overlaps (tgt_storage_arc l) (ai_storage_arc a) = true.

Lemma same_view_trans s s1 s2 : same_view s s1 -> same_view s1 s2 -> same_view s s2.
Proof. intros [P M] [P' M']. split; [congruence|]. intros p k. by rewrite M', M. Qed.

Lemma readable_same s s' : same_view s s' -> readable s -> readable s'.
Proof. intros [_ M] Hr u k v. rewrite M. apply Hr. Qed.

Lemma since_same s s' u : same_view s s' -> since s' u = since s u.
Proof. intros [_ M]. unfold since. by rewrite M. Qed.

Lemma can_gossip_same s s' a u : same_view s s' -> can_gossip s' a u <-> can_gossip s a u.
Proof. intros [_ M]. unfold can_gossip. by rewrite M. Qed.

Lemma target_of_spec s a : readable s -> exists t,
  target_of now a s = (Ok t, s) /\
  (forall d u, t = Some (d, u) <-> can_gossip s a u /\ d = since s u).
Proof.
  intros Hr. unfold target_of, can_gossip.
  destruct (ai_is_tombstone a) eqn:Et; [exists None; split; [done|]; split; [done|]; by intros [(? & _) _]|].
  destruct (Z.ltb_spec (ai_expires_at a) now);
    [exists None; split; [done|]; split; [done|]; intros [(_ & ? & _) _]; lia|].
  destruct (ai_url a) as [v|] eqn:Eu; [|exists None; split; [done|]; split; [done|]; by intros [(_ & _ & [=] & _) _]].
  unfold pm_get_unresponsive, bind at 1. unfold bind at 1. rewrite pm_get_view.
  destruct (meta_view s v "root:unresponsive") as [w|] eqn:Ew.
  - destruct (from_slice TTimestamp w) eqn:E; [|by destruct (Hr v _ w (or_introl eq_refl) Ew)].
    exists None. split; [done|]. split; [done|]. intros [(_ & _ & [= <-] & ?) _]. congruence.
  - unfold ret at 1. unfold last_gossip_timestamp, meta_get, bind. rewrite pm_get_view.
    assert (forall d u, Some (since s v, v) = Some (d, u) <->
      (false = false /\ now <= ai_expires_at a /\ Some v = Some u /\ meta_view s u "root:unresponsive" = None) /\
      d = since s u) as Hiff.
    { intros d u. split; [intros [= <- <-]; by split_and!|]. by intros [(_ & _ & [= <-] & _) ->]. }
    unfold since in *. destruct (meta_view s v "gossip:last_timestamp") as [w|] eqn:El; cbn in *.
    + destruct (from_slice TTimestamp w) as [z|] eqn:E; [|by destruct (Hr v _ w (or_intror eq_refl) El)].
      eexists. split; [reflexivity|exact Hiff].
    + eexists. split; [reflexivity|exact Hiff].
Qed.

Lemma targets_of_spec s l : readable s -> exists ts,
  targets_of now l s = (Ok ts, s) /\
  (forall d u, (d, u) ∈ ts <-> exists a, a ∈ l /\ can_gossip s a u /\ d = since s u).
Proof.
  intros Hr. induction l as [|a l IH].
  - exists []. split; [done|]. intros d u. rewrite elem_of_nil. split; [done|].
    by intros (a & Ha%elem_of_nil & _).
  - destruct IH as (ts & E & Hts). destruct (target_of_spec s a Hr) as (t & Et & Ht).
    cbn. unfold bind. rewrite Et, E.
    exists (match t with Some t => t :: ts | None => ts end). split; [by destruct t|].
    intros d u. transitivity (t = Some (d, u) \/ (d, u) ∈ ts).
    + destruct t as [t|]; [rewrite elem_of_cons; naive_solver|naive_solver].
    + rewrite Ht, Hts. setoid_rewrite elem_of_cons. naive_solver.
Qed.

Lemma later_max_spec best x : exists y, later_max best x = Some y /\
  x.1 <= y.1 /\ (forall b, best = Some b -> b.1 <= y.1) /\ (y = x \/ best = Some y).
Proof.
  destruct best as [b|]; cbn; [|exists x; split_and!; try done; by left].
  destruct (Z.leb_spec b.1 x.1) as [Hle|Hlt]; [exists x|exists b]; split_and!; try done; try (by left); try (by right);
    intros; simplify_eq; try done. by apply Z.lt_le_incl.
Qed.

Lemma max_by_key_spec ts :
  match max_by_key ts with
  | None => ts = []
  | Some t => t ∈ ts /\ forall t', t' ∈ ts -> t'.1 <= t.1
  end.
Proof.
  unfold max_by_key.
  enough (forall best,
    match foldl later_max best ts with
    | None => best = None /\ ts = []
    | Some t => (t ∈ ts \/ best = Some t) /\ (forall t', t' ∈ ts -> t'.1 <= t.1) /\
                forall b, best = Some b -> b.1 <= t.1
    end) as Hfold.
  { specialize (Hfold None). destruct (foldl later_max None ts) as [t|]; [|tauto].
    destruct Hfold as ([Hin|[=]] & Hmax & _). by split. }
  induction ts as [|x ts IH]; intros best; cbn.
  - destruct best as [b|]; [|done]. split; [by right|].
    split; [by intros t Ht%elem_of_nil|intros ? [= <-]; apply Z.le_refl].
  - specialize (IH (later_max best x)). destruct (foldl later_max (later_max best x) ts) as [t|].
    + destruct IH as (Hin & Hmax & Hb). setoid_rewrite elem_of_cons.
      destruct (later_max_spec best x) as (y & E & Hx & Hbest & Hy). rewrite E in *. specialize (Hb _ eq_refl).
      split; [|split].
      * destruct Hin as [?|[= <-]]; [by left; right|]. destruct Hy as [->|Hy]; [by left; left|by right].
      * intros t' [->|Ht']; [by eapply Z.le_trans|auto].
      * intros b Eb. eapply Z.le_trans; [by apply Hbest|done].
    + destruct IH as [Hn _]. destruct (later_max_spec best x) as (y & E & _). congruence.
Qed.

Lemma overlapping_agents_spec s arcs : exists l s',
  overlapping_agents arcs s = (Ok l, s') /\ same_view s s' /\
  forall a : AgentInfoSigned, a ∈ l <-> a ∈ peers_view s /\ ai_is_tombstone a = false /\
    exists arc, arc ∈ arcs /\ overlaps arc (ai_storage_arc a) = true.
Proof.
  revert s. induction arcs as [|arc arcs IH]; intros s.
  - exists [], s. split; [done|]. split; [by split|]. intros a. rewrite elem_of_nil. split; [done|].
    by intros (_ & _ & arc & Harc%elem_of_nil & _).
  - destruct (ps_overlapping_view arc s) as (s1 & E1 & S1). destruct (IH s1) as (l & s2 & E2 & S2 & Hl).
    cbn. unfold bind. rewrite E1, E2. eexists _, s2. split; [reflexivity|].
    split; [by eapply same_view_trans|]. intros a. destruct S1 as [Ep _]. rewrite Ep in Hl.
    rewrite elem_of_app, Hl, list_elem_of_In, filter_In, <- list_elem_of_In, andb_true_iff, negb_true_iff.
    setoid_rewrite elem_of_cons. naive_solver.
Qed.

Lemma elem_of_remove_local ids l (a : AgentInfoSigned) :
  a ∈ remove_local_agents ids l <-> a ∈ l /\ (ai_agent a ∉ ids).
Proof.
  unfold remove_local_agents. rewrite list_elem_of_In, filter_In, <- list_elem_of_In, negb_true_iff.
  by rewrite bool_decide_eq_false.
Qed.

Section ordered.
Variable set_iter : list AgentInfoSigned -> list AgentInfoSigned.
Hypothesis set_iter_elements : forall l a, a ∈ set_iter l <-> a ∈ l.

(** The selection among some agents: one of those who can be gossiped with, and
    none was gossiped with longer ago. *)
Lemma select_among s s' l : readable s -> same_view s s' -> exists r,
  select_responsive_and_least_recently_gossiped set_iter now l s' = (Ok r, s') /\
  match r with
  | Some u => (exists a, a ∈ l /\ can_gossip s a u) /\
              forall a u', a ∈ l -> can_gossip s a u' -> since s u' <= since s u
  | None => forall a u, a ∈ l -> can_gossip s a u -> False
  end.
Proof using set_iter_elements.
  intros Hr S. destruct (targets_of_spec s' (set_iter l) (readable_same _ _ S Hr)) as (ts & E & Hts).
  unfold select_responsive_and_least_recently_gossiped, bind. rewrite E. eexists. split; [reflexivity|].
  assert (forall d u, (d, u) ∈ ts <-> exists a, a ∈ l /\ can_gossip s a u /\ d = since s u) as Hts'.
  { intros d u. rewrite Hts. setoid_rewrite set_iter_elements. setoid_rewrite (can_gossip_same _ _ _ _ S).
    by rewrite (since_same _ _ _ S). }
  pose proof (max_by_key_spec ts) as Hmax. destruct (max_by_key ts) as [[d u]|]; cbn.
  - destruct Hmax as [Hin Hmax]. apply Hts' in Hin as (a & Ha & Hc & ->). split; [by exists a|].
    intros a' u' Ha' Hc'. apply (Hmax (since s u', u')). apply Hts'. by exists a'.
  - subst ts. intros a u Ha Hc. eapply (not_elem_of_nil (since s u, u)), Hts'. by exists a.
Qed.

(** The selection among all remote agents. *)
Lemma select_any s s' : readable s -> same_view s s' -> exists r,
  select_responsive_and_least_recently_gossiped set_iter now
    (remove_local_agents (map la_agent local_agents) (peers_view s)) s' = (Ok r, s') /\
  match r with
  | Some u => (exists a, eligible s a u) /\ forall a' u', eligible s a' u' -> since s u' <= since s u
  | None => forall a u, eligible s a u -> False
  end.
Proof using set_iter_elements.
  intros Hr S. edestruct select_among as (r & E & Hres); [exact Hr|exact S|].
  exists r. split; [exact E|].
  assert (forall a u, eligible s a u ->
    a ∈ remove_local_agents (map la_agent local_agents) (peers_view s) /\ can_gossip s a u) as He.
  { intros a u (Hp & Hi & Hc). split; [by apply elem_of_remove_local|done]. }
  destruct r as [u|].
  - destruct Hres as [(a & [Hp Hi]%elem_of_remove_local & Hc) Hmax]. split; [by exists a|].
    intros a' u' [Ha' Hc']%He. eauto.
  - intros a u [Ha Hc]%He. eauto.
Qed.

(** The initiation task picks, in whatever order its sets iterate, a remote
    peer that is alive, responsive and has a URL: one whose arc overlaps a
    target of ours when there is one, any other otherwise, and among these one
    with whom gossip is longest ago.  It picks none only if there is no such
    peer at all. *)
Theorem select_next_target_exact s : readable s -> exists r s',
  select_next_target set_iter now local_agents s = (Ok r, s') /\ same_view s s' /\
  match r with
  | Some u =>
      (exists a, eligible s a u /\ overlaps_ours a /\
         forall a' u', eligible s a' u' -> overlaps_ours a' -> since s u' <= since s u) \/
      ((forall a' u', eligible s a' u' -> overlaps_ours a' -> False) /\
       (exists a, eligible s a u) /\ forall a' u', eligible s a' u' -> since s u' <= since s u)
  | None => forall a u, eligible s a u -> False
  end.
Proof using set_iter_elements.
  intros Hr. unfold select_next_target, bind at 1.
  destruct (overlapping_agents_spec s (remove_dups (map tgt_storage_arc local_agents))) as (lo & s1 & Eo & S1 & Hlo).
  rewrite Eo. set (ids := map la_agent local_agents). set (ov := remove_local_agents ids lo).
  assert (forall a u, a ∈ ov /\ can_gossip s a u <-> eligible s a u /\ overlaps_ours a) as Hov.
  { intros a u. unfold ov. rewrite elem_of_remove_local, Hlo. unfold eligible, overlaps_ours.
    split; [intros [[(Hp & Ht & arc & Harc & Hov) Hid] Hc]|intros [(Hp & Hid & Hc) (l & Hl & Hov)]].
    - apply elem_of_remove_dups, list_elem_of_fmap in Harc as (l & -> & Hl). eauto 8.
    - split; [|done]. split; [|done]. split; [done|]. split; [apply Hc|].
      exists (tgt_storage_arc l). split; [|done]. apply elem_of_remove_dups, list_elem_of_fmap. eauto. }
  destruct (ps_get_all_view s1) as (s2 & E2 & S12). rewrite (proj1 S1) in E2.
  pose proof (same_view_trans _ _ _ S1 S12) as S2. destruct (select_any s s2 Hr S2) as (ra & Ea & Ra). fold ids in Ea.
  destruct ov as [|o ov'] eqn:Eov.
  - unfold bind. rewrite E2. unfold ret. rewrite Ea. exists ra, s2. split; [by destruct ra|]. split; [done|].
    destruct ra as [u|]; [|done]. right. split; [|done].
    intros a' u' He Ho. destruct (proj2 (Hov a' u') (conj He Ho)) as [Hin _]. by apply elem_of_nil in Hin.
  - rewrite <- Eov in *. destruct (select_among s s1 ov Hr S1) as (ro & Ero & So).
    unfold bind, ret. rewrite Ero. destruct ro as [u|].
    + exists (Some u), s1. split; [done|]. split; [done|]. left. destruct So as [(a & Ha & Hc) Hmax].
      destruct (proj1 (Hov a u) (conj Ha Hc)) as [He Ho]. exists a. split_and!; [done|done|].
      intros a' u' He' Ho'. destruct (proj2 (Hov a' u') (conj He' Ho')). eauto.
    + rewrite E2, Ea. exists ra, s2. split; [done|]. split; [done|]. destruct ra as [u|]; [|done].
      right. split; [|done]. intros a' u' He' Ho'. destruct (proj2 (Hov a' u') (conj He' Ho')). eauto.
Qed.
End ordered.
End theorems.
