(* ===== verification/GossipDemo.v ===== *)
(** A host whose services are the in-memory ones, and the theorems on gossip
    rounds applied to nodes over it. *)

From S2P Require Import Prelude Arc Timestamp Id Agent Combine ArcSet OpStore MemOpStore.
From S2P Require Import TimePartition HashPartition Snapshot Dht StorageArc.
From S2P Require Import GossipProtocol GossipWire Agent PeerMeta PeerStore GossipNode.
From S2P Require Import GossipRespond.
From S2P Require Import GossipRounds GossipSafety GossipTarget.
Import Concrete.

(** The host: its stores, its clock, what was asked of the fetch module and what
    was sent. *)
Record MemHost : Type := MkMemHost {
  mh_now : Z;
  mh_ops : MemStore;
  mh_meta : MemPeerMeta;
  mh_peers : Inner;
  mh_agents : list LocalAgent;
  mh_requested : list (list PublishOp * Url);
  mh_sent : list (Url * bytes);
}.

Definition on_ops {A} (m : M MemStore A) : M MemHost A := fun h =>
  let (r, s) := m (mh_ops h) in
  (r, MkMemHost (mh_now h) s (mh_meta h) (mh_peers h) (mh_agents h) (mh_requested h) (mh_sent h)).

Definition on_meta {A} (m : M MemPeerMeta A) : M MemHost A := fun h =>
  let (r, s) := m (mh_meta h) in
  (r, MkMemHost (mh_now h) (mh_ops h) s (mh_peers h) (mh_agents h) (mh_requested h) (mh_sent h)).

Definition on_peers {A} (f : Z -> Inner -> A * Inner) : M MemHost A := fun h =>
  let (a, s) := f (mh_now h) (mh_peers h) in
  (Ok a, MkMemHost (mh_now h) (mh_ops h) (mh_meta h) s (mh_agents h) (mh_requested h) (mh_sent h)).

#[export] Instance mem_host_ops : OpStore MemHost := {|
  process_incoming_ops now ops := on_ops (process_incoming_ops now ops);
  retrieve_op_hashes_in_time_slice a s e := on_ops (retrieve_op_hashes_in_time_slice a s e);
  retrieve_ops ids := on_ops (retrieve_ops ids);
  filter_out_existing_ops ids := on_ops (filter_out_existing_ops ids);
  retrieve_op_ids_bounded now a s l := on_ops (retrieve_op_ids_bounded now a s l);
  earliest_timestamp_in_arc a := on_ops (earliest_timestamp_in_arc a);
  store_slice_hash a i h := on_ops (store_slice_hash a i h);
  slice_hash_count a := on_ops (slice_hash_count a);
  retrieve_slice_hash a i := on_ops (retrieve_slice_hash a i);
  retrieve_slice_hashes a := on_ops (retrieve_slice_hashes a);
  query_total_op_count := on_ops query_total_op_count;
|}.

#[export] Instance mem_host_meta : PeerMetaStore MemHost := {|
  pm_put p k v e := on_meta (pm_put p k v e);
  pm_get p k := on_meta (pm_get p k);
  pm_get_all_by_key k := on_meta (pm_get_all_by_key k);
  pm_delete p k := on_meta (pm_delete p k);
|}.

#[export] Instance mem_host_peers : PeerStore MemHost := {|
  ps_insert l := on_peers (fun now s => (tt, (inner_insert now now ∅ l s).2));
  ps_remove a := on_peers (fun _ s => (tt, (inner_remove a s).2));
  ps_get a := on_peers (fun now s => inner_get now now a s);
  ps_get_all := on_peers (fun now s => inner_get_all now now s);
  ps_get_by_overlapping_storage_arc a :=
    on_peers (fun now s => inner_get_by_overlapping_storage_arc now now a s);
  ps_get_near_location loc limit := on_peers (fun now s => inner_get_near_location now now loc limit s);
  ps_get_by_url u := on_peers (fun now s => inner_get_by_url now now u s);
|}.

Definition set_agent_arc (id : AgentId) (arc : DhtArc) (a : LocalAgent) : LocalAgent :=
  if bool_decide (la_agent a = id) then MkLocalAgent id arc (tgt_storage_arc a) else a.

#[export] Instance mem_host_agents : LocalAgentStore MemHost := {|
  las_get_all := fun h => (Ok (mh_agents h), h);
  set_cur_storage_arc id arc := fun h =>
    (Ok tt, MkMemHost (mh_now h) (mh_ops h) (mh_meta h) (mh_peers h)
              (map (set_agent_arc id arc) (mh_agents h)) (mh_requested h) (mh_sent h));
  invoke_cb _ := ret tt;
|}.

#[export] Instance mem_host_fetch : Fetch MemHost := {|
  request_ops ops source := fun h =>
    (Ok tt, MkMemHost (mh_now h) (mh_ops h) (mh_meta h) (mh_peers h) (mh_agents h)
              (mh_requested h ++ [(ops, source)]) (mh_sent h));
|}.

#[export] Instance mem_host_transport : Transport MemHost := {|
  transport_alive := ret true;
  send_module url _ _ data := fun h =>
    (Ok tt, MkMemHost (mh_now h) (mh_ops h) (mh_meta h) (mh_peers h) (mh_agents h)
              (mh_requested h) (mh_sent h ++ [(url, data)]));
|}.

#[export] Instance MemGossipHost : GossipHost MemHost :=
  Build_GossipHost _ _ _ _ _ _ _.

(** The peer meta store of the host keeps its laws. *)
#[export] Program Instance mem_host_meta_laws : PeerMetaLaws MemHost := {|
  meta_view h := meta_view (mh_meta h);
|}.
Next Obligation. intros p k h. cbn. by destruct h. Qed.
Next Obligation. done. Qed.
Next Obligation.
  intros p k v e h p' k'. exact (pm_put_view p k v e (mh_meta h) p' k').
Qed.

(** Its peer store shows what a query at its time shows. *)
Definition live_infos (h : MemHost) : list AgentInfoSigned :=
  store_values (check_prune (mh_now h) (mh_now h) (mh_peers h)).

Lemma check_prune_again (now_inst : Z) (now : Timestamp) (s : Inner) :
  store (check_prune now_inst now (check_prune now_inst now s)) = store (check_prune now_inst now s).
Proof.
  unfold check_prune at 2 3. destruct (now_inst <? no_prune_until s) eqn:E.
  - unfold check_prune. by rewrite E.
  - unfold check_prune. destruct (_ <? no_prune_until (do_prune _ _ _)); [done|]. unfold do_prune. cbn [store].
    apply map_filter_filter_l. naive_solver.
Qed.

#[export] Program Instance mem_host_peer_laws : PeerStoreLaws MemHost := {| peers_view := live_infos |}.
Next Obligation.
  intros h. eexists. split; [reflexivity|]. split; [|done].
  unfold live_infos, store_values. cbn. by rewrite check_prune_again.
Qed.
Next Obligation.
  intros arc h. eexists. split; [reflexivity|]. split; [|done].
  unfold live_infos, store_values. cbn. by rewrite check_prune_again.
Qed.

(** Numbers as one number. *)
Definition read_num (t : NumType) (b : bytes) : option Z :=
  match b with [n] => if decide (in_type t n) then Some n else None | _ => None end.

Lemma read_num_one t n : in_type t n -> read_num t [n] = Some n.
Proof. intros Hn. unfold read_num. by destruct (decide (in_type t n)). Qed.

#[export] Instance plain_num : SerdeNum := {|
  to_vec n := [n];
  from_slice := read_num;
  from_slice_to_vec := read_num_one;
|}.

(** The encodings of messages are not looked at. *)
Definition blank {A} : Message A := {| msg_encode _ := Some []; msg_decode _ := None |}.
#[export] Instance blank_protobuf : Protobuf :=
  Build_Protobuf blank blank blank blank blank blank blank blank blank blank blank blank blank.
#[export] Instance demo_json : AgentJson := lone_json.

(** ** Nodes *)

Definition idle_host : MemHost :=
  MkMemHost 1000 mem_default ∅ (inner_new 10 0) [] [] [].

Definition idle_node : K2Gossip MemHost :=
  MkGossip None ∅ ∅ (MkDht (MkHashPartition 0 []) 0) idle_host.

Definition demo_clock : Clock := MkClock 1000 1000.

Definition demo_initiate : GossipMessage :=
  Initiate (MkInitiate [9] [] (Some (replicate 16 0)) 5 0 100 None).

Lemma idle_no_rounds : no_rounds idle_node.
Proof. split_and!; reflexivity. Qed.

(** A node that accepted a round, then waited longer than the timeout. *)
Definition accepted_node : K2Gossip MemHost :=
  (handle_gossip_message default_gossip_config [0] true demo_clock "peer" demo_initiate idle_node).2.

Definition waited_node : K2Gossip MemHost :=
  (remove_timed_out_rounds default_gossip_config (MkClock 20000000 20000000) accepted_node).2.


Lemma unsolicited_refused_witness :
  exists e, reply_to default_gossip_config true demo_clock "peer" (Hashes (MkHashes [1] [[2]])) accepted_node
    = (GPeer e, accepted_node).
Proof.
  apply unsolicited_refused; [reflexivity|]. split.
  - intros r Hr. vm_compute in Hr. discriminate.
  - intros r Hr. assert (session_id r = [9]) as Hs.
    { vm_compute in Hr. injection Hr as <-. reflexivity. }
    rewrite Hs. discriminate.
Defined.

(** ** An exchange between two nodes without common arcs *)

Definition initiated_node : K2Gossip MemHost :=
  (initiate_gossip default_gossip_config [0] demo_clock [9] 4 "acceptor" idle_node).2.

Definition the_reply (x : gres (option GossipMessage) * K2Gossip MemHost) : GossipMessage :=
  match x.1 with GOk (Some m) => m | _ => Busy (MkBusy []) end.

Definition demo_reply (p : Url) (msg : GossipMessage) (n : K2Gossip MemHost) :=
  reply_to default_gossip_config true demo_clock p msg n.

Definition demo_accept := demo_reply "initiator" demo_initiate idle_node.
Definition demo_no_diff := demo_reply "acceptor" (the_reply demo_accept) initiated_node.
Definition demo_end := demo_reply "initiator" (the_reply demo_no_diff) demo_accept.2.

Definition demo_exchange : list GossipMessage :=
  [the_reply demo_end; the_reply demo_no_diff; the_reply demo_accept; demo_initiate].


(** ** Simultaneous initiations *)

Definition node_with (peer : Url) (tie : Z) : K2Gossip unit :=
  MkGossip (Some (MkRound peer 0 [1] 0 (StInitiated [] (MkArcSet ∅) tie))) ∅ ∅
    (MkDht (MkHashPartition 0 []) 0) tt.
Definition initiate_with (tie : Z) : K2GossipInitiateMessage := MkInitiate [1] [] None tie 0 0 None.

Lemma simultaneous_initiation_witness :
  check_peer_initiate_rate default_gossip_config demo_clock "b" (initiate_with 3) (node_with "b" 7)
    = (GOk false, node_with "b" 7) /\
  check_peer_initiate_rate default_gossip_config demo_clock "a" (initiate_with 7) (node_with "a" 3)
    = (GOk true, set_initiated None (node_with "a" 3)).
Proof.
  refine (simultaneous_initiation default_gossip_config demo_clock (node_with "b" 7) (node_with "a" 3) "a" "b"
    _ _ [] (MkArcSet ∅) 7 [] (MkArcSet ∅) 3 (initiate_with 7) (initiate_with 3)
    eq_refl eq_refl eq_refl eq_refl eq_refl eq_refl eq_refl eq_refl).
Defined.

(** ** The choice of a target

    Three remote agents: one whose arc overlaps ours, gossiped with at 900, one
    with gossiped with at 500, and one that does not overlap. *)

Definition demo_info (id : Z) (url : string) (arc : DhtArc) : AgentInfoSigned :=
  MkAgentInfoSigned (MkAgentInfo [id] [0] 10 5000 false (Some url) arc) "" [].

Definition choosing_host : MemHost :=
  let infos := [demo_info 1 "a" (Arc 0 100); demo_info 2 "b" (Arc 50 200); demo_info 3 "c" (Arc 1000 2000)] in
  MkMemHost 1000 mem_default
    (<[ "b" := {[ "gossip:last_timestamp" := [500] ]} ]>
       {[ "a" := {[ "gossip:last_timestamp" := [900] ]} ]})%string
    (inner_insert 0 1000 ∅ infos (inner_new 2000 0)).2
    [MkLocalAgent [7] Empty (Arc 0 60)] [] [].

Lemma choosing_readable : readable choosing_host.
Proof.
  intros u k v Hk Hv.
  assert (v = [900] \/ v = [500]) as [-> | ->]; [|vm_compute; discriminate..].
  change (meta_view (mh_meta choosing_host) u k = Some v) in Hv. cbn in Hv.
  apply bind_Some in Hv as (m & Hm & Hv).
  apply lookup_insert_Some in Hm as [[_ <-]|[_ [_ <-]%lookup_singleton_Some]];
    apply lookup_singleton_Some in Hv as [_ <-]; auto.
Qed.

Lemma select_next_target_exact_witness :
  exists r s', select_next_target (fun l => l) 1000 (mh_agents choosing_host) choosing_host = (Ok r, s') /\
    r = Some "b"%string /\ exists a, eligible 1000 (mh_agents choosing_host) choosing_host a "b".
Proof.
  destruct (select_next_target_exact 1000 (mh_agents choosing_host) (fun l => l) (fun _ _ => iff_refl _)
    choosing_host choosing_readable) as (r & s' & E & S & Hr).
  exists r, s'. split; [exact E|].
  assert (r = Some "b"%string) as -> by (vm_compute in E; congruence).
  split; [done|]. destruct Hr as [(a & Ha & _)|(_ & [a Ha] & _)]; eauto.
Defined.
