(* ===== verification/CoreFetch.v ===== *)
(** The fetch module (crates/core/src/factories/core_fetch.rs and
    core_fetch/message_handler.rs, with the messages of crates/api/src/fetch.rs):
    the requests a node has pending, the queues between its tasks, and what
    each task does with one item. *)

From S2P Require Import Prelude Arc Timestamp Id Agent Combine OpStore PeerMeta.
From S2P Require Import GossipWire GossipNode.

(** ** Messages *)

Record FetchRequest : Type := MkFetchRequest { req_op_ids : list bytes }.

(** [op_store::Op] as it is sent. *)
Record Op : Type := MkOp { op_op_id : bytes; op_data : bytes }.
Record FetchResponse : Type := MkFetchResponse { resp_ops : list Op }.
Record K2FetchMessage : Type := MkFetchMessage { fetch_message_type : Z; fetch_data : bytes }.

Inductive FetchMessageType : Type := FUnspecified | FRequest | FResponse.

Definition fetch_type_number (t : FetchMessageType) : Z :=
  match t with FUnspecified => 0 | FRequest => 1 | FResponse => 2 end.

(** The generated getter: an unknown number reads as the default. *)
Definition get_fetch_message_type (m : K2FetchMessage) : FetchMessageType :=
  match fetch_message_type m with 1 => FRequest | 2 => FResponse | _ => FUnspecified end.

Class FetchProtobuf := {
  #[global] fp_outer :: Message K2FetchMessage;
  #[global] fp_request :: Message FetchRequest;
  #[global] fp_response :: Message FetchResponse;
}.

Class FetchProtobufLaws `{FetchProtobuf} := {
  #[global] fpl_outer :: MessageLaws K2FetchMessage;
  #[global] fpl_request :: MessageLaws FetchRequest;
  #[global] fpl_response :: MessageLaws FetchResponse;
}.

Section messages.
Context `{FetchProtobuf}.

(** [encode(..).expect(..)] *)
Definition expect_encoded {A} `{Message A} (what : string) (a : A) : res bytes :=
  match msg_encode a with Some b => Ok b | None => Panic what end.

Definition serialize_request (value : list bytes) : res bytes :=
  expect_encoded "failed to encode request" (MkFetchRequest value).

Definition serialize_request_message (value : list bytes) : res bytes :=
  let? data := serialize_request value in
  expect_encoded "failed to encode fetch request message"
    (MkFetchMessage (fetch_type_number FRequest) data).

Definition response_of_ops (value : list MetaOp) : FetchResponse :=
  MkFetchResponse (map (fun m => MkOp (meta_op_id m) (meta_op_data m)) value).

Definition serialize_response (ops : list MetaOp) : res bytes :=
  expect_encoded "failed to encode response" (response_of_ops ops).

Definition serialize_response_message (ops : list MetaOp) : res bytes :=
  let? data := serialize_response ops in
  expect_encoded "failed to encode fetch response message"
    (MkFetchMessage (fetch_type_number FResponse) data).
End messages.

(** ** The module *)

Definition MOD_NAME : string := "Fetch".

Abbreviation OutgoingRequest := (list Z * string)%type.
Abbreviation Requests := (gmap (list Z * string) (option (list Z))).

(** The capacity of each queue. *)
Definition QUEUE_SIZE : nat := Z.to_nat 16384.

(** The state under its mutex, the queues in order, how many of the tasks still
    run, and what the module made known: to listeners (by number), to the report
    module, and to peers. *)
Record CoreFetch (H : Type) : Type := MkFetch {
  requests : Requests;
  notify_when_drained_senders : list nat;
  outgoing_request_rx : list OutgoingRequest;
  incoming_request_rx : list (list bytes * Url);
  incoming_response_rx : list (list Op * Url);
  outgoing_tasks : nat;
  incoming_request_task_runs : bool;
  notified : list nat;
  reported : list (Url * bytes * Z);
  asked : list OutgoingRequest;
  fhost : H;
}.
Arguments MkFetch {H}.
Arguments requests {H}.
Arguments notify_when_drained_senders {H}.
Arguments outgoing_request_rx {H}.
Arguments incoming_request_rx {H}.
Arguments incoming_response_rx {H}.
Arguments outgoing_tasks {H}.
Arguments incoming_request_task_runs {H}.
Arguments notified {H}.
Arguments reported {H}.
Arguments asked {H}.
Arguments fhost {H}.

Section setters.
Context {H : Type}.
Implicit Types n : CoreFetch H.

Definition set_requests (f : Requests -> Requests) n :=
  MkFetch (f (requests n)) (notify_when_drained_senders n) (outgoing_request_rx n)
    (incoming_request_rx n) (incoming_response_rx n) (outgoing_tasks n)
    (incoming_request_task_runs n) (notified n) (reported n) (asked n) (fhost n).
Definition set_listeners (l told : list nat) n :=
  MkFetch (requests n) l (outgoing_request_rx n) (incoming_request_rx n)
    (incoming_response_rx n) (outgoing_tasks n) (incoming_request_task_runs n) told
    (reported n) (asked n) (fhost n).
Definition set_outgoing (q : list OutgoingRequest) n :=
  MkFetch (requests n) (notify_when_drained_senders n) q (incoming_request_rx n)
    (incoming_response_rx n) (outgoing_tasks n) (incoming_request_task_runs n) (notified n)
    (reported n) (asked n) (fhost n).
Definition set_incoming (rq : list (list bytes * Url)) (rs : list (list Op * Url)) n :=
  MkFetch (requests n) (notify_when_drained_senders n) (outgoing_request_rx n) rq rs
    (outgoing_tasks n) (incoming_request_task_runs n) (notified n) (reported n) (asked n) (fhost n).
Definition set_tasks (t : nat) (r : bool) n :=
  MkFetch (requests n) (notify_when_drained_senders n) (outgoing_request_rx n)
    (incoming_request_rx n) (incoming_response_rx n) t r (notified n) (reported n) (asked n)
    (fhost n).
Definition set_reported (r : list (Url * bytes * Z)) n :=
  MkFetch (requests n) (notify_when_drained_senders n) (outgoing_request_rx n)
    (incoming_request_rx n) (incoming_response_rx n) (outgoing_tasks n)
    (incoming_request_task_runs n) (notified n) r (asked n) (fhost n).
Definition set_asked (a : list OutgoingRequest) n :=
  MkFetch (requests n) (notify_when_drained_senders n) (outgoing_request_rx n)
    (incoming_request_rx n) (incoming_response_rx n) (outgoing_tasks n)
    (incoming_request_task_runs n) (notified n) (reported n) a (fhost n).
Definition set_fhost (h : H) n :=
  MkFetch (requests n) (notify_when_drained_senders n) (outgoing_request_rx n)
    (incoming_request_rx n) (incoming_response_rx n) (outgoing_tasks n)
    (incoming_request_task_runs n) (notified n) (reported n) (asked n) h.
End setters.

(** A call of a host service. *)
Definition on_fhost {H A} (m : M H A) : M (CoreFetch H) A := fun n =>
  let (r, h) := m (fhost n) in (r, set_fhost h n).

(** [CoreFetch::new] with [parallel] outgoing request tasks. *)
Definition fetch_new {H} (parallel : nat) (h : H) : CoreFetch H :=
  MkFetch ∅ [] [] [] [] parallel true [] [] [] h.

Section fetch.
Context {H : Type} `{OpStore H} `{PeerMetaStore H} `{Transport H} `{SerdeNum} `{FetchProtobuf}.
Variable space_id : SpaceId.

(** [State::summary]: the peers asked for each op. *)
Definition summary (n : CoreFetch H) : gmap bytes (list Url) :=
  foldl (fun acc k => <[ k.1 := default [] (acc !! k.1) ++ [k.2] ]> acc) ∅
    (map_to_list (requests n)).*1.

Definition notify_listeners_if_queue_drained : M (CoreFetch H) unit := fun n =>
  (Ok tt,
   if bool_decide (requests n = ∅)
   then set_listeners [] (notified n ++ notify_when_drained_senders n) n
   else n).

Definition notify_on_drained (notify : nat) : M (CoreFetch H) unit := fun n =>
  (Ok tt,
   if bool_decide (requests n = ∅)
   then set_listeners (notify_when_drained_senders n) (notified n ++ [notify]) n
   else set_listeners (notify_when_drained_senders n ++ [notify]) (notified n) n).

(** *** Requesting ops *)

(** Metadata is added where there is none, and never overwritten. *)
Definition add_request (source : Url) (acc : gmap bytes (option bytes) * Requests) (op_id : bytes)
  : gmap bytes (option bytes) * Requests :=
  let meta := mjoin (acc.1 !! op_id) in
  let entry := mjoin (acc.2 !! (op_id, source)) in
  (delete op_id acc.1,
   <[ (op_id, source) := match entry with None => meta | Some m => Some m end ]> acc.2).

Definition metadata_map (ops : list PublishOp) : gmap bytes (option bytes) :=
  foldl (fun m op => <[ pub_op_id op := pub_metadata op ]> m) ∅ ops.

(** Up to the release of the lock: the new ops are recorded as requested. *)
Definition begin_request (ops : list PublishOp) (source : Url) : M (CoreFetch H) (list bytes) :=
  let metadata := metadata_map ops in
  let* new_op_ids := on_fhost (filter_out_existing_ops (map_to_list metadata).*1) in
  modify (set_requests (fun r => (foldl (add_request source) (metadata, r) new_op_ids).2)) ;;*
  ret new_op_ids.

(** One [send] to the queue, when it has room: it fails only if every outgoing
    task has ended. *)
Definition push_request (req : OutgoingRequest) : M (CoreFetch H) unit :=
  let* tasks := gets outgoing_tasks in
  if bool_decide (tasks = 0%nat) then
    modify (set_requests (delete req)) ;;* notify_listeners_if_queue_drained
  else modify (fun n => set_outgoing (outgoing_request_rx n ++ [req]) n).

(** The call when nothing runs in between. *)
Definition request_ops (ops : list PublishOp) (source : Url) : M (CoreFetch H) unit :=
  let* new_op_ids := begin_request ops source in
  for_each new_op_ids (fun op_id => push_request (op_id, source)).

(** *** The outgoing request tasks *)

Definition peer_url_unresponsive (peer_url : Url) : M (CoreFetch H) bool :=
  or_log false
    (let* maybe_value := on_fhost (pm_get_unresponsive peer_url) in
     ret (bool_decide (is_Some maybe_value))).

(** A request to an unresponsive peer is given up; one that is not pending any
    more is not sent. *)
Definition still_requested (unresponsive : bool) (req : OutgoingRequest) : M (CoreFetch H) bool :=
  (if unresponsive then modify (set_requests (delete req)) else ret tt) ;;*
  let* reqs := gets requests in
  if bool_decide (is_Some (reqs !! req)) then ret true
  else notify_listeners_if_queue_drained ;;* ret false.

(** An item taken from the queue, up to the decision to send. *)
Definition outgoing_check (req : OutgoingRequest) : M (CoreFetch H) bool :=
  let* alive := on_fhost transport_alive in
  if negb alive then
    modify (fun n => set_tasks (outgoing_tasks n - 1) (incoming_request_task_runs n) n) ;;* ret false
  else
    let* unresponsive := peer_url_unresponsive req.2 in
    still_requested unresponsive req.

(** All requests to a peer are given up. *)
Definition retain_other_peers (peer_url : Url) (r : Requests) : Requests :=
  filter (fun kv => kv.1.2 <> peer_url) r.

Definition outgoing_send (req : OutgoingRequest) : M (CoreFetch H) unit :=
  let* data := lift_res (serialize_request_message [req.1]) in
  fun n =>
    match send_module req.2 space_id MOD_NAME data (fhost n) with
    | (Ok _, h) => (Ok tt, set_asked (asked n ++ [req]) (set_fhost h n))
    | (Err _, h) =>
        (modify (set_requests (retain_other_peers req.2)) ;;* notify_listeners_if_queue_drained)
          (set_fhost h n)
    | (Panic e, h) => (Panic e, set_fhost h n)
    end.

(** *** The incoming request task *)

Definition incoming_request (op_ids : list bytes) (peer : Url) : M (CoreFetch H) unit :=
  let* alive := on_fhost transport_alive in
  if negb alive then modify (fun n => set_tasks (outgoing_tasks n) false n)
  else
    let* ops := or_log [] (on_fhost (retrieve_ops op_ids)) in
    match ops with
    | [] => ret tt
    | _ =>
        let* data := lift_res (serialize_response_message ops) in
        or_log tt (on_fhost (send_module peer space_id MOD_NAME data))
    end.

(** *** The incoming response task *)

Definition incoming_op_of (r : Requests) (peer : Url) (op : Op) : IncomingOp :=
  MkIncomingOp (op_op_id op) (op_data op) (mjoin (r !! (op_op_id op, peer))).

(** Each id processed, with the length of the data of the op at its place. *)
Definition reports (peer : Url) (processed : list bytes) (ops : list Op) : list (Url * bytes * Z) :=
  zip_with (fun id op => (peer, id, Z.of_nat (length (op_data op)))) processed ops.

Definition retain_unprocessed (processed : list bytes) (r : Requests) : Requests :=
  filter (fun kv => kv.1.1 ∉ processed) r.

(** After the metadata is looked up, the ops are written without the lock. *)
Definition process_response (now : Timestamp) (ops : list Op) (peer : Url) (incoming : list IncomingOp)
  : M (CoreFetch H) unit := fun n =>
  match process_incoming_ops now incoming (fhost n) with
  | (Ok processed, h) =>
      (Ok tt, set_requests (retain_unprocessed processed)
                (set_reported (reported n ++ reports peer processed ops) (set_fhost h n)))
  | (Err _, h) => (Ok tt, set_fhost h n)
  | (Panic e, h) => (Panic e, set_fhost h n)
  end.

Definition incoming_response (now : Timestamp) (ops : list Op) (peer : Url) : M (CoreFetch H) unit :=
  let* reqs := gets requests in
  process_response now ops peer (map (incoming_op_of reqs peer) ops).

(** *** Incoming messages *)

Definition decode_or {A} `{Message A} (what : string) (b : bytes) : res A :=
  match msg_decode b with Some a => Ok a | None => Err what end.

(** A full queue drops the message, a closed one is an error. *)
Definition recv_module_msg (peer : Url) (data : bytes) : M (CoreFetch H) unit := fun n =>
  match decode_or "could not decode module message" data with
  | Ok fetch =>
      match get_fetch_message_type fetch with
      | FRequest =>
          match decode_or "could not decode request" (fetch_data fetch) with
          | Ok request =>
              if negb (incoming_request_task_runs n) then (Err "incoming request queue is closed", n)
              else if (QUEUE_SIZE <=? length (incoming_request_rx n))%nat then (Ok tt, n)
              else (Ok tt, set_incoming (incoming_request_rx n ++ [(req_op_ids request, peer)])
                             (incoming_response_rx n) n)
          | Err e => (Err e, n)
          | Panic e => (Panic e, n)
          end
      | FResponse =>
          match decode_or "could not decode response" (fetch_data fetch) with
          | Ok response =>
              if (QUEUE_SIZE <=? length (incoming_response_rx n))%nat then (Ok tt, n)
              else (Ok tt, set_incoming (incoming_request_rx n)
                             (incoming_response_rx n ++ [(resp_ops response, peer)]) n)
          | Err e => (Err e, n)
          | Panic e => (Panic e, n)
          end
      | FUnspecified => (Err "unknown fetch message", n)
      end
  | Err e => (Err e, n)
  | Panic e => (Panic e, n)
  end.
End fetch.
