(* ===== verification/FetchRun.v ===== *)
(** Runs of the fetch module: calls of [request_ops], the tasks and the rest of
    the node interleave, a step for each stretch of code between two awaits
    (core_fetch.rs), and what every run keeps. *)

From stdpp Require Import relations.
From S2P Require Import Prelude Arc Timestamp Id Agent Combine OpStore PeerMeta.
From S2P Require Import GossipWire GossipNode CoreFetch.

(** A node with what its running calls and tasks have in hand: requests yet to
    be queued, requests being sent, and a response being stored.  [since] are
    the requests sent since they were last asked for. *)
Record FetchRun (H : Type) : Type := MkRun {
  node : CoreFetch H;
  pushing : list OutgoingRequest;
  sending : list OutgoingRequest;
  storing : option (list Op * Url * list IncomingOp);
  since : gset OutgoingRequest;
}.
Arguments MkRun {H}.
Arguments node {H}.
Arguments pushing {H}.
Arguments sending {H}.
Arguments storing {H}.
Arguments since {H}.

Section run.
Context {H : Type} `{OpStore H} `{PeerMetaStore H} `{Transport H} `{SerdeNum} `{FetchProtobuf}.
Variable space_id : SpaceId.

(** The steps of the outgoing side. *)
Inductive outgoing_step : FetchRun H -> FetchRun H -> Prop :=
  | os_push n req push push' send st sn n' :
      push ≡ₚ req :: push' ->
      (length (outgoing_request_rx n) < QUEUE_SIZE)%nat \/ outgoing_tasks n = 0%nat ->
      push_request req n = (Ok tt, n') ->
      outgoing_step (MkRun n push send st sn) (MkRun n' push' send st sn)
  | os_take n req q push send st sn go n' :
      outgoing_request_rx n = req :: q ->
      (length send < outgoing_tasks n)%nat ->
      outgoing_check req (set_outgoing q n) = (Ok go, n') ->
      outgoing_step (MkRun n push send st sn)
        (MkRun n' push (if go : bool then req :: send else send) st sn)
  | os_send n req push send send' st sn n' :
      send ≡ₚ req :: send' ->
      outgoing_send space_id req n = (Ok tt, n') ->
      outgoing_step (MkRun n push send st sn)
        (MkRun n' push send' st (if bool_decide (asked n' = asked n) then sn else {[ req ]} ∪ sn)).

Inductive fetch_step : FetchRun H -> FetchRun H -> Prop :=
  | fs_outgoing r r' : outgoing_step r r' -> fetch_step r r'
  | fs_request n push send st sn ops source ids n' :
      begin_request ops source n = (Ok ids, n') ->
      fetch_step (MkRun n push send st sn)
        (MkRun n' (push ++ map (fun id => (id, source)) ids) send st
           (sn ∖ list_to_set (map (fun id => (id, source)) ids)))
  | fs_listen n push send st sn k n' :
      (k ∉ notify_when_drained_senders n ++ notified n) ->
      notify_on_drained k n = (Ok tt, n') ->
      fetch_step (MkRun n push send st sn) (MkRun n' push send st sn)
  | fs_serve n push send st sn op_ids peer q n' :
      incoming_request_task_runs n = true ->
      incoming_request_rx n = (op_ids, peer) :: q ->
      incoming_request space_id op_ids peer (set_incoming q (incoming_response_rx n) n) = (Ok tt, n') ->
      fetch_step (MkRun n push send st sn) (MkRun n' push send st sn)
  | fs_lookup n push send sn ops peer q :
      incoming_response_rx n = (ops, peer) :: q ->
      fetch_step (MkRun n push send None sn)
        (MkRun (set_incoming (incoming_request_rx n) q n) push send
           (Some (ops, peer, map (incoming_op_of (requests n) peer) ops)) sn)
  | fs_store n push send sn now ops peer incoming n' :
      process_response now ops peer incoming n = (Ok tt, n') ->
      fetch_step (MkRun n push send (Some (ops, peer, incoming)) sn) (MkRun n' push send None sn)
  | fs_recv n push send st sn peer data res n' :
      recv_module_msg peer data n = (res, n') ->
      fetch_step (MkRun n push send st sn) (MkRun n' push send st sn)
  | fs_host n push send st sn h :
      fetch_step (MkRun n push send st sn) (MkRun (set_fhost h n) push send st sn).

Definition fetch_start (parallel : nat) (h : H) : FetchRun H :=
  MkRun (fetch_new parallel h) [] [] None ∅.

(** ** What each part of the code changes *)

(** The listeners waiting and those told, in the order they are told. *)
Definition listeners (n : CoreFetch H) : list nat := notified n ++ notify_when_drained_senders n.

(** Telling listeners is telling all of them, when nothing is pending. *)
Definition told_ok (n n' : CoreFetch H) : Prop :=
  (notified n' = notified n /\ notify_when_drained_senders n' = notify_when_drained_senders n) \/
  (requests n' = ∅ /\ notify_when_drained_senders n' = [] /\ notified n' = listeners n).

Lemma notify_spec (n : CoreFetch H) : exists n',
  notify_listeners_if_queue_drained n = (Ok tt, n') /\ told_ok n n' /\
  requests n' = requests n /\ outgoing_request_rx n' = outgoing_request_rx n /\
  outgoing_tasks n' = outgoing_tasks n /\ asked n' = asked n.
Proof.
  unfold notify_listeners_if_queue_drained. eexists. split; [reflexivity|].
  destruct (bool_decide_reflect (requests n = ∅)) as [E|E]; cbn; split_and!; try done.
  - right. by split_and!.
  - by left.
Qed.

Lemma push_request_spec req (n : CoreFetch H) : exists n',
  push_request req n = (Ok tt, n') /\ told_ok n n' /\
  outgoing_tasks n' = outgoing_tasks n /\ asked n' = asked n /\
  if bool_decide (outgoing_tasks n = 0%nat)
  then requests n' = delete req (requests n) /\ outgoing_request_rx n' = outgoing_request_rx n
  else requests n' = requests n /\ outgoing_request_rx n' = outgoing_request_rx n ++ [req].
Proof.
  unfold push_request, bind, gets. destruct (bool_decide _) eqn:E.
  - cbn. destruct (notify_spec (set_requests (delete req) n)) as (n' & -> & Ht & Hr & Hq & Htk & Ha).
    exists n'. by split_and!.
  - eexists. split; [reflexivity|]. split_and!; try done. by left.
Qed.

(** What the outgoing side may change of a node. *)
Record requests_shrink (n n' : CoreFetch H) : Prop := {
  rs_told : told_ok n n';
  rs_pending k : requests n' !! k = requests n !! k \/ requests n' !! k = None;
  rs_queue : outgoing_request_rx n' = outgoing_request_rx n;
}.

Lemma still_requested_spec unresponsive req (n : CoreFetch H) : exists go n',
  still_requested unresponsive req n = (Ok go, n') /\ requests_shrink n n' /\
  outgoing_tasks n' = outgoing_tasks n /\ asked n' = asked n /\
  (forall k, k <> req -> requests n' !! k = requests n !! k) /\
  (if go then is_Some (requests n' !! req) /\ unresponsive = false else requests n' !! req = None).
Proof.
  unfold still_requested.
  set (n1 := if unresponsive then set_requests (delete req) n else n).
  assert ((if unresponsive then modify (set_requests (delete req)) else ret tt) n = (Ok tt, n1)) as E1
    by by destruct unresponsive.
  assert (told_ok n n1 /\ outgoing_request_rx n1 = outgoing_request_rx n /\
    outgoing_tasks n1 = outgoing_tasks n /\ asked n1 = asked n /\ listeners n1 = listeners n /\
    (forall k, k <> req -> requests n1 !! k = requests n !! k) /\
    (unresponsive = true -> requests n1 !! req = None) /\
    (unresponsive = false -> requests n1 !! req = requests n !! req))
    as (Ht & Hq & Htk & Ha & Hl & Hk & Hu & Hf).
  { subst n1. destruct unresponsive; cbn; split_and!; try done; try (by left).
    - intros k Hk. by rewrite lookup_delete_ne.
    - intros _. by rewrite lookup_delete_eq. }
  rewrite (bind_after _ _ _ _ _ E1). clearbody n1. unfold bind, gets.
  assert (forall k, requests n1 !! k = requests n !! k \/ requests n1 !! k = None) as Hp.
  { intros k. destruct (decide (k = req)) as [->|]; [|left; auto]. destruct unresponsive; auto. }
  destruct (bool_decide_reflect (is_Some (requests n1 !! req))) as [Hs|Hs].
  - exists true, n1. split_and!; try done. destruct unresponsive; [|done].
    rewrite Hu in Hs by done. by destruct Hs.
  - destruct (notify_spec n1) as (n2 & E2 & Ht2 & Hr2 & Hq2 & Htk2 & Ha2). rewrite E2.
    exists false, n2. rewrite Htk2, Ha2, Hr2. split_and!; try done.
    + split; [|by rewrite Hr2|by rewrite Hq2].
      unfold told_ok. destruct Ht2 as [[-> ->]|(R & L & N)]; [destruct Ht as [[-> ->]|(R & L & N)]; [by left|right]|right].
      * by rewrite Hr2.
      * split_and!; [done|done|]. by rewrite N.
    + by apply eq_None_not_Some.
Qed.

Lemma set_fhost_shrink h (n : CoreFetch H) : requests_shrink n (set_fhost h n).
Proof. split; try done; [by left|]. intros k. by left. Qed.

Lemma outgoing_check_inv req (n n' : CoreFetch H) go :
  outgoing_check req n = (Ok go, n') ->
  requests_shrink n n' /\ asked n' = asked n /\
  (forall k, k <> req -> requests n' !! k = requests n !! k) /\
  (go = false -> requests n' !! req = None \/ (outgoing_tasks n' = outgoing_tasks n - 1)%nat) /\
  (go = true -> is_Some (requests n' !! req)) /\
  (outgoing_tasks n' = outgoing_tasks n \/ (go = false /\ outgoing_tasks n' = outgoing_tasks n - 1)%nat).
Proof.
  unfold outgoing_check, bind at 1, on_fhost at 1.
  destruct (transport_alive (fhost n)) as [[alive| |] h]; [|done..].
  destruct alive; cbn [negb].
  - intros E. apply bind_inv in E as (unresponsive & n1 & E1 & E).
    assert (exists h', n1 = set_fhost h' n) as [h' ->].
    { revert E1. unfold peer_url_unresponsive, or_log, bind, on_fhost. cbn [fhost set_fhost].
      destruct (pm_get_unresponsive req.2 h) as [[|e|e] h']; [| |done]; intros [= _ <-]; by exists h'. }
    destruct (still_requested_spec unresponsive req (set_fhost h' n))
      as (go' & n2 & E' & Hs & Htk & Ha & Hk & Hgo).
    rewrite E in E'. injection E' as <- <-. split_and!; try done.
    + by destruct Hs; split.
    + intros ->. by left.
    + intros ->. by destruct Hgo.
    + by left.
  - intros [= <- <-]. cbn. split_and!; try done; [|by right|by right].
    split; [by left|by left|done].
Qed.

Lemma outgoing_send_inv req (n n' : CoreFetch H) :
  outgoing_send space_id req n = (Ok tt, n') ->
  requests_shrink n n' /\ outgoing_tasks n' = outgoing_tasks n /\
  ((requests n' = requests n /\ asked n' = asked n ++ [req]) \/
   (asked n' = asked n /\ forall k, requests n' !! k = if decide (k.2 = req.2) then None else requests n !! k)).
Proof.
  unfold outgoing_send, bind at 1, lift_res.
  destruct (serialize_request_message [req.1]) as [data| |]; [|done..].
  destruct (send_module req.2 space_id MOD_NAME data (fhost n)) as [[u|e|e] h].
  - intros [= <-]. cbn. split_and!; try done; [|by left]. split; [by left|by left|done].
  - cbn. set (n1 := set_requests _ _).
    destruct (notify_spec n1) as (n2 & E2 & Ht2 & Hr2 & Hq2 & Htk2 & Ha2). rewrite E2. intros [= <-].
    assert (forall k, requests n2 !! k = if decide (k.2 = req.2) then None else requests n !! k) as Hk.
    { intros k. rewrite Hr2. subst n1. cbn. unfold retain_other_peers. destruct (decide (k.2 = req.2)) as [Ek|Ek].
      - apply map_lookup_filter_None. right. intros m _. cbn. tauto.
      - apply option_eq. intros m. rewrite map_lookup_filter_Some. cbn. tauto. }
    split_and!; try done; [|by right].
    split; [exact Ht2| |done]. intros k. rewrite Hk. destruct (decide _); auto.
  - done.
Qed.

(** The other parts leave the outgoing side alone: at most requests go. *)
Record outgoing_same (n n' : CoreFetch H) : Prop := {
  os_pending k : requests n' !! k = requests n !! k \/ requests n' !! k = None;
  os_queue : outgoing_request_rx n' = outgoing_request_rx n;
  os_tasks : outgoing_tasks n' = outgoing_tasks n;
  os_listeners : notified n' = notified n /\ notify_when_drained_senders n' = notify_when_drained_senders n;
}.

Lemma outgoing_same_refl n : outgoing_same n n.
Proof. split; auto. Qed.

Lemma incoming_request_same op_ids peer (n n' : CoreFetch H) :
  incoming_request space_id op_ids peer n = (Ok tt, n') -> outgoing_same n n' /\ requests n' = requests n.
Proof.
  unfold incoming_request. intros (alive & n1 & E1 & E)%bind_inv.
  unfold on_fhost in E1. destruct (transport_alive (fhost n)) as [r h]. injection E1 as _ <-.
  destruct alive; cbn [negb] in E; [|injection E as <-; split; [split; auto|done]].
  apply bind_inv in E as (ops & n2 & E2 & E). unfold or_log, on_fhost in E2. cbn [fhost set_fhost] in E2.
  destruct (retrieve_ops op_ids h) as [[o|e|e] h2]; [| |done]; injection E2 as <- <-.
  2:{ injection E as <-. split; [split; auto|done]. }
  destruct o as [|o os]; [injection E as <-; split; [split; auto|done]|].
  apply bind_inv in E as (d & n3 & E3 & E). injection E3 as _ <-.
  unfold or_log, on_fhost in E. cbn [fhost set_fhost] in E.
  destruct (send_module peer space_id MOD_NAME d h2) as [[[]|e|e] h3]; [| |done];
    injection E as <-; (split; [split; auto|done]).
Qed.

Lemma process_response_inv now ops peer incoming (n n' : CoreFetch H) :
  process_response now ops peer incoming n = (Ok tt, n') ->
  outgoing_same n n' /\
  exists r h, process_incoming_ops now incoming (fhost n) = (r, h) /\ fhost n' = h /\
    match r with
    | Ok processed => requests n' = retain_unprocessed processed (requests n) /\
                      reported n' = reported n ++ reports peer processed ops
    | Err _ => requests n' = requests n /\ reported n' = reported n
    | Panic _ => False
    end.
Proof.
  unfold process_response. destruct (process_incoming_ops now incoming (fhost n)) as [[pr|e|e] h] eqn:E; [| |done].
  - intros [= <-]. split.
    + split; cbn; auto. intros k. unfold retain_unprocessed.
      destruct (requests n !! k) as [m|] eqn:Ek; [|right; apply map_lookup_filter_None; auto].
      destruct (decide (k.1 ∈ pr)).
      * right. apply map_lookup_filter_None. right. intros m' _. cbn. tauto.
      * left. by apply map_lookup_filter_Some.
    + eexists (Ok pr), h. by split_and!.
  - intros [= <-]. split; [split; auto|]. exists (Err e), h. by split_and!.
Qed.

Lemma recv_module_msg_same peer data (n n' : CoreFetch H) res :
  recv_module_msg peer data n = (res, n') -> outgoing_same n n' /\ requests n' = requests n.
Proof.
  unfold recv_module_msg.
  destruct (decode_or _ data) as [m| |]; [|intros [= _ <-]; split; [apply outgoing_same_refl|done]..].
  destruct (get_fetch_message_type m).
  - intros [= _ <-]. split; [apply outgoing_same_refl|done].
  - destruct (decode_or _ (fetch_data m)) as [rq| |]; [|intros [= _ <-]; split; [apply outgoing_same_refl|done]..].
    destruct (negb _); [|destruct (_ <=? _)%nat]; intros [= _ <-]; split; (done || split; auto).
  - destruct (decode_or _ (fetch_data m)) as [rq| |]; [|intros [= _ <-]; split; [apply outgoing_same_refl|done]..].
    destruct (_ <=? _)%nat; intros [= _ <-]; split; (done || split; auto).
Qed.

(** A call adds requests of the ops that the store lacks, and no others. *)
Lemma add_requests_lookup (source : Url) (ids : list bytes) (m : gmap bytes (option bytes)) (r : Requests)
  (k : OutgoingRequest) :
  let r' := (foldl (add_request source) (m, r) ids).2 in
  (k ∉ map (fun id => (id, source)) ids -> r' !! k = r !! k) /\
  (k ∈ map (fun id => (id, source)) ids -> is_Some (r' !! k)) /\
  (is_Some (r !! k) -> is_Some (r' !! k)).
Proof.
  revert m r. induction ids as [|id ids IH]; intros m r; cbn [foldl map].
  - split_and!; try done. by intros ?%elem_of_nil.
  - set (acc := add_request source (m, r) id). specialize (IH acc.1 acc.2).
    rewrite <- surjective_pairing in IH. destruct IH as (I1 & I2 & I3).
    rewrite not_elem_of_cons, elem_of_cons. split_and!.
    + intros [Hk Hn]. rewrite I1 by done. subst acc. cbn. by rewrite lookup_insert_ne.
    + intros [->|Hin]; [|by apply I2]. apply I3. subst acc. cbn. by rewrite lookup_insert_eq.
    + intros Hs. apply I3. subst acc. cbn.
      destruct (decide ((id, source) = k)) as [<-|]; [by rewrite lookup_insert_eq|by rewrite lookup_insert_ne].
Qed.

Lemma begin_request_inv ops source (n n' : CoreFetch H) ids :
  begin_request ops source n = (Ok ids, n') ->
  exists h, filter_out_existing_ops (map_to_list (metadata_map ops)).*1 (fhost n) = (Ok ids, h) /\
    n' = set_requests (fun r => (foldl (add_request source) (metadata_map ops, r) ids).2) (set_fhost h n).
Proof.
  unfold begin_request. intros (ids' & n1 & E1 & E)%bind_inv. unfold on_fhost in E1.
  destruct (filter_out_existing_ops _ (fhost n)) as [r h]. injection E1 as -> <-. injection E as <- <-.
  by exists h.
Qed.

(** ** The invariant of runs *)

(** Every pending request is on its way, or was sent since it was asked for, as
    long as no task has stopped for want of a transport; no more requests are
    being sent than there are tasks; and no listener is told twice. *)
Record run_ok (parallel : nat) (r : FetchRun H) : Prop := {
  ro_tracked k : is_Some (requests (node r) !! k) -> outgoing_tasks (node r) = parallel ->
    k ∈ pushing r \/ k ∈ outgoing_request_rx (node r) \/ k ∈ sending r \/ k ∈ since r;
  ro_workers : (length (sending r) <= outgoing_tasks (node r) <= parallel)%nat;
  ro_listeners : NoDup (listeners (node r));
}.

Lemma told_listeners (n n' : CoreFetch H) : told_ok n n' -> listeners n' = listeners n.
Proof. unfold listeners. intros [[-> ->]|(_ & -> & ->)]; [done|]. by rewrite app_nil_r. Qed.

Lemma same_keeps parallel n n' push send st st' sn :
  outgoing_same n n' -> run_ok parallel (MkRun n push send st sn) ->
  run_ok parallel (MkRun n' push send st' sn).
Proof.
  intros [Hp Hq Ht [Hl1 Hl2]] [T W L]. split; cbn in *.
  - intros k [m Hm]. rewrite Ht, Hq. apply T. exists m. destruct (Hp k) as [<-|E]; [done|congruence].
  - by rewrite Ht.
  - unfold listeners in *. by rewrite Hl1, Hl2.
Qed.

Lemma listen_keeps k (n n' : CoreFetch H) :
  notify_on_drained k n = (Ok tt, n') ->
  requests n' = requests n /\ outgoing_request_rx n' = outgoing_request_rx n /\
  outgoing_tasks n' = outgoing_tasks n /\ listeners n' ≡ₚ k :: listeners n.
Proof.
  unfold notify_on_drained. intros [= <-]. unfold listeners.
  destruct (bool_decide _); cbn; split_and!; try done; solve_Permutation.
Qed.

Lemma run_ok_outgoing parallel r r' : outgoing_step r r' -> run_ok parallel r -> run_ok parallel r'.
Proof.
  intros [n req push push' send st sn n' Hp Hroom E|n req q push send st sn go n' Hq Hw E|n req push send send' st sn n' Hs E] [T W L];
    cbn in T, W, L.
  - destruct (push_request_spec req n) as (n2 & E2 & Ht & Htk & Ha & Hr). rewrite E in E2. injection E2 as <-.
    split; cbn; [|by rewrite Htk|by rewrite (told_listeners _ _ Ht)].
    intros k [m Hm] Hpar. rewrite Htk in Hpar.
    destruct (bool_decide_reflect (outgoing_tasks n = 0%nat)) as [E0|E0]; destruct Hr as [Hr Hq].
    + rewrite Hr in Hm. apply lookup_delete_Some in Hm as [Hne Hm].
      destruct (T k (ex_intro _ _ Hm) Hpar) as [Hin|Hin]; [|rewrite Hq; by right].
      rewrite Hp in Hin. apply elem_of_cons in Hin as [->|Hin]; [done|by left].
    + rewrite Hr in Hm. rewrite Hq, elem_of_app, list_elem_of_singleton.
      destruct (T k (ex_intro _ _ Hm) Hpar) as [Hin|Hin]; [|tauto].
      rewrite Hp in Hin. apply elem_of_cons in Hin as [->|Hin]; tauto.
  - apply outgoing_check_inv in E as ([Ht Hpend Hqueue] & Ha & Hk & Hno & Hyes & Htasks). cbn in *.
    split; cbn.
    + intros k [m Hm] Hpar. rewrite Hqueue.
      assert (outgoing_tasks n' = outgoing_tasks n) as Eqt by lia.
      destruct (decide (k = req)) as [->|Hne].
      * destruct go; [right; right; left; by left|]. destruct Hno as [Hn|Hn]; [done|congruence|lia].
      * assert (is_Some (requests n !! k)) as Hsm by (rewrite <- (Hk k Hne); by exists m).
        rewrite Eqt in Hpar. destruct (T k Hsm Hpar) as [Hin|[Hin|[Hin|Hin]]]; [by left| |..].
        -- rewrite Hq in Hin. apply elem_of_cons in Hin as [->|Hin]; [done|by right; left].
        -- right; right; left. destruct go; [by right|done].
        -- by right; right; right.
    + destruct go; cbn; [|lia]. destruct Htasks as [->|[? _]]; [lia|done].
    + rewrite (told_listeners _ _ Ht). exact L.
  - apply outgoing_send_inv in E as ([Ht Hpend Hqueue] & Htk & Hcase).
    split; cbn.
    + intros k [m Hm] Hpar. rewrite Htk in Hpar. rewrite Hqueue.
      assert (requests n !! k = Some m) as Hm' by (destruct (Hpend k); congruence).
      destruct (T k (ex_intro _ _ Hm') Hpar) as [Hin|[Hin|[Hin|Hin]]]; [tauto..| |].
      * rewrite Hs in Hin. apply elem_of_cons in Hin as [->|Hin]; [|tauto].
        right; right; right. destruct Hcase as [[_ Ea]|[_ Hr]].
        -- rewrite Ea, bool_decide_eq_false_2; [set_solver|].
           intros Eq. apply (f_equal length) in Eq. rewrite length_app in Eq. cbn in Eq. lia.
        -- rewrite Hr, decide_True in Hm; done.
      * right; right; right. destruct (bool_decide _); set_solver.
    + rewrite Htk. apply Permutation_length in Hs. cbn in Hs. lia.
    + by rewrite (told_listeners _ _ Ht).
Qed.

Lemma run_ok_step parallel r r' : fetch_step r r' -> run_ok parallel r -> run_ok parallel r'.
Proof.
  intros [? ? Hstep|n push send st sn ops source ids n' E|n push send st sn k n' Hk E
    |n push send st sn op_ids peer q n' Hrun Hq E|n push send sn ops peer q Hq
    |n push send sn now ops peer incoming n' E|n push send st sn peer data res n' E|n push send st sn h] Hok.
  - by eapply run_ok_outgoing.
  - apply begin_request_inv in E as (h & _ & ->). destruct Hok as [T W L]. cbn in T, W, L. split; cbn; [|done..].
    intros k Hs Hpar. destruct (add_requests_lookup source ids (metadata_map ops) (requests n) k) as (A1 & A2 & A3).
    destruct (decide (k ∈ map (fun id => (id, source)) ids)) as [Hin|Hin]; [left; apply elem_of_app; by right|].
    rewrite A1 in Hs by done. destruct (T k Hs Hpar) as [?|[?|[?|?]]]; [left; apply elem_of_app; by left|tauto|tauto|].
    right; right; right. set_solver.
  - destruct (listen_keeps k n n' E) as (Hr & Hq & Ht & Hl). destruct Hok as [T W L]. cbn in T, W, L. split; cbn.
    + intros k'. rewrite Hr, Hq, Ht. apply T.
    + by rewrite Ht.
    + rewrite Hl. constructor; [|done]. unfold listeners. rewrite elem_of_app in *. tauto.
  - apply incoming_request_same in E as [Hsame _]. eapply (same_keeps _ _ _ _ _ st); [exact Hsame|].
    eapply same_keeps; [|exact Hok]. split; auto.
  - eapply same_keeps; [|exact Hok]. split; auto.
  - apply process_response_inv in E as [Hsame _]. by eapply same_keeps.
  - apply recv_module_msg_same in E as [Hsame _]. by eapply same_keeps.
  - eapply same_keeps; [|exact Hok]. split; auto.
Qed.

Lemma runs_ok parallel h r : rtc fetch_step (fetch_start parallel h) r -> run_ok parallel r.
Proof.
  intros Hrun. assert (run_ok parallel (fetch_start parallel h)) as H0k.
  { split; cbn; [|lia|constructor]. intros k Hs. rewrite lookup_empty in Hs. by destruct Hs. }
  revert H0k. induction Hrun as [|a b c Hab Hbc IH]; [done|]. intros Hok. apply IH. by eapply run_ok_step.
Qed.

(** A response that answers every pending request leaves nothing pending and
    tells none of the listeners that wait for that. *)
Theorem last_response_tells_nobody now ops peer incoming (n n' : CoreFetch H) processed h :
  process_incoming_ops now incoming (fhost n) = (Ok processed, h) ->
  (forall k, is_Some (requests n !! k) -> k.1 ∈ processed) ->
  process_response now ops peer incoming n = (Ok tt, n') ->
  requests n' = ∅ /\ notify_when_drained_senders n' = notify_when_drained_senders n /\
  notified n' = notified n.
Proof.
  intros Ep Hall E. apply process_response_inv in E as ([_ _ _ [L1 L2]] & r & h' & Ep' & _ & Hr).
  rewrite Ep in Ep'. injection Ep' as <- <-. destruct Hr as [Hr _]. split_and!; [|done|done].
  apply map_empty. intros k. rewrite Hr. apply map_lookup_filter_None.
  destruct (requests n !! k) as [m|] eqn:Hm; [right|by left].
  intros m' _. cbn. intros Hn. apply Hn, Hall. by rewrite Hm.
Qed.

(** The listeners told by a step are told when no request is pending. *)
Lemma told_when_drained r r' : fetch_step r r' ->
  notified (node r') <> notified (node r) -> requests (node r') = ∅.
Proof.
  assert (forall n n', told_ok n n' -> notified n' <> notified n -> requests n' = ∅) as Htold.
  { intros n n' [[E _]|[E _]]; done. }
  assert (forall n n', outgoing_same n n' -> notified n' <> notified n -> requests n' = ∅) as Hsame.
  { intros n n' [_ _ _ [E _]]; done. }
  intros [? ? [n req push push' send st sn n' Hp Hroom E|n req q push send st sn go n' Hq Hw E|n req push send send' st sn n' Hs E]
    |n push send st sn ops source ids n' E|n push send st sn k n' Hk E
    |n push send st sn op_ids peer q n' Hrun Hq E|n push send sn ops peer q Hq
    |n push send sn now ops peer incoming n' E|n push send st sn peer data res n' E|n push send st sn h]; cbn [node].
  - destruct (push_request_spec req n) as (n2 & E2 & Ht & _). rewrite E in E2. injection E2 as <-. by apply Htold.
  - apply outgoing_check_inv in E as ([Ht _ _] & _). by apply (Htold (set_outgoing q n)).
  - apply outgoing_send_inv in E as ([Ht _ _] & _). by apply Htold.
  - apply begin_request_inv in E as (h & _ & ->). done.
  - revert E. unfold notify_on_drained. intros [= <-]. destruct (bool_decide_reflect (requests n = ∅)); done.
  - apply incoming_request_same in E as [Hs _]. by apply (Hsame (set_incoming q (incoming_response_rx n) n)).
  - done.
  - apply process_response_inv in E as [Hs _]. by apply Hsame.
  - apply recv_module_msg_same in E as [Hs _]. by apply Hsame.
  - done.
Qed.

(** ** The outgoing side comes to an end *)

(** A host that answers: the transport stays, no call panics, and messages can
    be encoded. *)
Record host_answers : Prop := {
  ha_alive h : exists h', transport_alive h = (Ok true, h');
  ha_meta u k h e h' : pm_get u k h <> (Panic e, h');
  ha_send u s m d h e h' : send_module u s m d h <> (Panic e, h');
  ha_encode ids : exists b, serialize_request_message ids = Ok b;
}.

Definition measure (r : FetchRun H) : nat :=
  (3 * length (pushing r) + 2 * length (outgoing_request_rx (node r)) + length (sending r))%nat.

Lemma outgoing_step_measure r r' : outgoing_step r r' -> (measure r' < measure r)%nat.
Proof.
  intros [n req push push' send st sn n' Hp Hroom E|n req q push send st sn go n' Hq Hw E|n req push send send' st sn n' Hs E];
    unfold measure; cbn [node pushing sending].
  - destruct (push_request_spec req n) as (n2 & E2 & _ & _ & _ & Hr). rewrite E in E2. injection E2 as <-.
    apply Permutation_length in Hp. rewrite Hp. cbn [length].
    destruct (bool_decide _); destruct Hr as [_ ->]; rewrite ?length_app; cbn [length]; lia.
  - apply outgoing_check_inv in E as ([_ _ Eq] & _). rewrite Eq, Hq. destruct go; cbn; lia.
  - apply outgoing_send_inv in E as ([_ _ ->] & _). apply Permutation_length in Hs. rewrite Hs. cbn. lia.
Qed.

Lemma outgoing_steps_measure k r r' : nsteps outgoing_step k r r' -> (k + measure r' <= measure r)%nat.
Proof.
  induction 1 as [r|k x y z Hxy Hyz IH]; [lia|]. apply outgoing_step_measure in Hxy. lia.
Qed.

Section answers.
Hypothesis answers : host_answers.

Lemma outgoing_check_answers req (n : CoreFetch H) :
  exists go n', outgoing_check req n = (Ok go, n') /\ outgoing_tasks n' = outgoing_tasks n.
Proof using answers.
  unfold outgoing_check. destruct (ha_alive answers (fhost n)) as [h Eh].
  assert (on_fhost transport_alive n = (Ok true, set_fhost h n)) as E1 by (unfold on_fhost; by rewrite Eh).
  rewrite (bind_after _ _ _ _ _ E1). cbn [negb].
  assert (exists b h', peer_url_unresponsive req.2 (set_fhost h n) = (Ok b, set_fhost h' n)) as (b & h' & E2).
  { unfold peer_url_unresponsive, or_log, bind, on_fhost, pm_get_unresponsive, bind. cbn [fhost set_fhost].
    pose proof (ha_meta answers req.2 "root:unresponsive"%string h) as Hm.
    destruct (pm_get req.2 "root:unresponsive" h) as [[[v|]|e|e] h1]; cbn.
    - destruct (from_slice TTimestamp v); cbn; eauto.
    - eauto.
    - eauto.
    - by destruct (Hm e h1). }
  rewrite (bind_after _ _ _ _ _ E2).
  destruct (still_requested_spec b req (set_fhost h' n)) as (go & n' & E & _ & Ht & _). eauto.
Qed.

Lemma outgoing_send_answers req (n : CoreFetch H) : exists n', outgoing_send space_id req n = (Ok tt, n').
Proof using answers.
  unfold outgoing_send. destruct (ha_encode answers [req.1]) as [d Ed].
  unfold bind at 1, lift_res. rewrite Ed.
  pose proof (ha_send answers req.2 space_id MOD_NAME d (fhost n)) as Hs.
  destruct (send_module _ _ _ _ _) as [[[]|e|e] h]; [eauto| |by destruct (Hs e h)].
  cbn. set (n1 := set_requests _ _). destruct (notify_spec n1) as (n2 & E2 & _). rewrite E2. eauto.
Qed.

Lemma outgoing_steps_tasks r r' : rtc outgoing_step r r' ->
  outgoing_tasks (node r') = outgoing_tasks (node r).
Proof using answers.
  induction 1 as [|x y z Hxy _ IH]; [done|]. rewrite IH. clear IH.
  destruct Hxy as [n req push push' send st sn n' Hp Hroom E|n req q push send st sn go n' Hq Hw E|n req push send send' st sn n' Hs E]; cbn.
  - destruct (push_request_spec req n) as (n2 & E2 & _ & Ht & _). rewrite E in E2. by injection E2 as <-.
  - destruct (outgoing_check_answers req (set_outgoing q n)) as (go2 & n2 & E2 & Ht).
    rewrite E in E2. by injection E2 as <- <-.
  - by apply outgoing_send_inv in E as (_ & Ht & _).
Qed.

(** Without a step to make, nothing is left to send. *)
Lemma outgoing_stuck r : outgoing_tasks (node r) <> 0%nat -> (forall r', ~ outgoing_step r r') ->
  pushing r = [] /\ outgoing_request_rx (node r) = [] /\ sending r = [].
Proof using answers.
  intros Ht Hstuck. destruct r as [n push send st sn]. cbn [node] in Ht.
  assert (send = []) as ->.
  { destruct send as [|req send]; [done|]. destruct (outgoing_send_answers req n) as [n' E].
    exfalso. eapply Hstuck. by eapply os_send. }
  assert (outgoing_request_rx n = []) as Hq.
  { destruct (outgoing_request_rx n) as [|req q] eqn:Eq; [done|].
    destruct (outgoing_check_answers req (set_outgoing q n)) as (go & n' & E & _).
    exfalso. eapply Hstuck. eapply os_take; [exact Eq|cbn; lia|exact E]. }
  split_and!; try done. destruct push as [|req push]; [done|].
  destruct (push_request_spec req n) as (n' & E & _). exfalso. eapply Hstuck.
  eapply os_push; [reflexivity|left; rewrite Hq; vm_compute; lia|exact E].
Qed.
End answers.

(** C22: When nothing new is asked for, the outgoing tasks come to an end after
    finitely many steps, in whatever order they take them; then every request
    still pending was sent to its peer since it was asked for. *)
Theorem outgoing_drains parallel h r : host_answers -> parallel <> 0%nat ->
  rtc fetch_step (fetch_start parallel h) r -> outgoing_tasks (node r) = parallel ->
  (forall k r', nsteps outgoing_step k r r' -> (k <= measure r)%nat) /\
  (forall r', rtc outgoing_step r r' -> (forall r'', ~ outgoing_step r' r'') ->
    pushing r' = [] /\ outgoing_request_rx (node r') = [] /\ sending r' = [] /\
    forall k, is_Some (requests (node r') !! k) -> k ∈ since r').
Proof.
  intros Ha Hp Hrun Ht. split.
  - intros k r' Hk%outgoing_steps_measure. lia.
  - intros r' Hr' Hstuck. pose proof (outgoing_steps_tasks Ha _ _ Hr') as Ht'. rewrite Ht in Ht'.
    destruct (outgoing_stuck Ha r') as (Ep & Eq & Es); [by rewrite Ht'|done|]. split_and!; try done.
    assert (run_ok parallel r') as [T _ _].
    { apply (runs_ok parallel h). etransitivity; [exact Hrun|].
      eapply rtc_subrel; [|exact Hr']. intros x y. apply fs_outgoing. }
    intros k Hk. destruct (T k Hk Ht') as [Hin|[Hin|[Hin|Hin]]]; [..|done].
    + rewrite Ep in Hin. by apply elem_of_nil in Hin.
    + rewrite Eq in Hin. by apply elem_of_nil in Hin.
    + rewrite Es in Hin. by apply elem_of_nil in Hin.
Qed.
End run.
