(* ===== verification/FetchDeliver.v ===== *)
(** Two nodes and their fetch modules: what one asks of the other and the other
    holds, it has in the end (core_fetch.rs on both sides). *)

From S2P Require Import Prelude Arc Timestamp Id Agent Combine OpStore PeerMeta.
From S2P Require Import GossipWire GossipNode CoreFetch FetchRun.

(** What fetching relies on of its host: a store of ops whose data is held and
    given out as it came, and a transport that sends what it is given. *)
Class FetchHost (H : Type) `{OpStore H} `{PeerMetaStore H} `{Transport H} `{SerdeNum} := {
  holds : H -> bytes -> option bytes;
  fh_wf : H -> Prop;
  (** The data is one that the store reads as an op. *)
  genuine : bytes -> Prop;
  (** The messages sent so far, and to whom. *)
  outbox : H -> list (Url * bytes);
  fh_genuine h id d : fh_wf h -> holds h id = Some d -> genuine d;
  fh_filter ids h : fh_wf h ->
    filter_out_existing_ops ids h = (Ok (List.filter (fun id => negb (bool_decide (is_Some (holds h id)))) ids), h);
  fh_retrieve ids h : fh_wf h ->
    retrieve_ops ids h = (Ok (omap (fun id => MkMetaOp id <$> holds h id) ids), h);
  fh_process now id d m h : fh_wf h -> genuine d -> exists h',
    process_incoming_ops now [MkIncomingOp id d m] h = (Ok [id], h') /\ fh_wf h' /\
    outbox h' = outbox h /\ (forall u k, (pm_get u k h').1 = (pm_get u k h).1) /\
    forall id', holds h' id' = if decide (id' = id) then Some (default d (holds h id)) else holds h id';
  fh_alive h : transport_alive h = (Ok true, h);
  fh_meta u k h : (pm_get u k h).2 = h;
  fh_send u s m d h : exists h',
    send_module u s m d h = (Ok tt, h') /\ (fh_wf h -> fh_wf h') /\ outbox h' = outbox h ++ [(u, d)] /\
    (forall id, holds h' id = holds h id) /\ (forall u k, (pm_get u k h').1 = (pm_get u k h).1);
}.

#[local] Set Default Proof Using "Type*".

Section deliver.
Context {H : Type} `{FetchHost H} `{FetchProtobufLaws}.
Variable space_id : SpaceId.
Hypothesis request_encodes : forall ids, exists b, serialize_request_message ids = Ok b.
Hypothesis response_encodes : forall ops, exists b, serialize_response_message ops = Ok b.

(** ** The exchange *)

Definition serve_next : M (CoreFetch H) unit := fun n =>
  match incoming_request_rx n with
  | [] => (Ok tt, n)
  | (op_ids, peer) :: q => incoming_request space_id op_ids peer (set_incoming q (incoming_response_rx n) n)
  end.

Definition store_next (now : Timestamp) : M (CoreFetch H) unit := fun n =>
  match incoming_response_rx n with
  | [] => (Ok tt, n)
  | (ops, peer) :: q => incoming_response now ops peer (set_incoming (incoming_request_rx n) q n)
  end.

(** What was sent in between reaches the other node. *)
Definition news (before after : CoreFetch H) : list bytes :=
  map snd (drop (length (outbox (fhost before))) (outbox (fhost after))).

Definition deliver (from : Url) (msgs : list bytes) : M (CoreFetch H) unit :=
  for_each msgs (recv_module_msg from).

(** A request taken from the queue of the first node, up to the handling of the
    response. *)
Definition exchange (now : Timestamp) (url_a url_b : Url) (req : OutgoingRequest)
  : M (CoreFetch H * CoreFetch H) unit :=
  let* st := get in
  let* go := on_fst (outgoing_check req) in
  (if go : bool then on_fst (outgoing_send space_id req) else ret tt) ;;*
  let* st1 := get in
  on_snd (deliver url_a (news st.1 st1.1)) ;;*
  on_snd serve_next ;;*
  let* st2 := get in
  on_fst (deliver url_b (news st.2 st2.2)) ;;*
  on_fst (store_next now).

(** The queue of the first node is worked off. *)
Definition work_off (now : Timestamp) (url_a url_b : Url) : M (CoreFetch H * CoreFetch H) unit :=
  let* st := get in
  on_fst (modify (set_outgoing [])) ;;*
  for_each (outgoing_request_rx st.1) (exchange now url_a url_b).

(** Ops are asked for, and fetched. *)
Definition fetch_from (now : Timestamp) (url_a url_b : Url) (ops : list PublishOp)
  : M (CoreFetch H * CoreFetch H) unit :=
  on_fst (request_ops ops url_b) ;;* work_off now url_a url_b.

(** ** Messages *)

Lemma recv_request from ids data (n : CoreFetch H) :
  serialize_request_message ids = Ok data -> incoming_request_task_runs n = true ->
  (length (incoming_request_rx n) < QUEUE_SIZE)%nat ->
  recv_module_msg from data n =
    (Ok tt, set_incoming (incoming_request_rx n ++ [(ids, from)]) (incoming_response_rx n) n).
Proof.
  unfold serialize_request_message, serialize_request, expect_encoded.
  destruct (msg_encode (MkFetchRequest ids)) as [inner|] eqn:Ei; [|done]. cbn.
  destruct (msg_encode (MkFetchMessage _ _)) as [outer|] eqn:Eo; [|done]. intros [= <-] Hr Hq.
  unfold recv_module_msg, decode_or. rewrite (msg_decode_encode _ _ Eo). cbn.
  rewrite (msg_decode_encode _ _ Ei), Hr. cbn.
  by rewrite (proj2 (Nat.leb_gt _ _) Hq).
Qed.

Lemma recv_response from ops data (n : CoreFetch H) :
  serialize_response_message ops = Ok data ->
  (length (incoming_response_rx n) < QUEUE_SIZE)%nat ->
  recv_module_msg from data n =
    (Ok tt, set_incoming (incoming_request_rx n)
              (incoming_response_rx n ++ [(resp_ops (response_of_ops ops), from)]) n).
Proof.
  unfold serialize_response_message, serialize_response, expect_encoded.
  destruct (msg_encode (response_of_ops ops)) as [inner|] eqn:Ei; [|done]. cbn.
  destruct (msg_encode (MkFetchMessage _ _)) as [outer|] eqn:Eo; [|done]. intros [= <-] Hq.
  unfold recv_module_msg, decode_or. rewrite (msg_decode_encode _ _ Eo). cbn.
  rewrite (msg_decode_encode _ _ Ei). cbn. by rewrite (proj2 (Nat.leb_gt _ _) Hq).
Qed.

(** ** One exchange *)

(** Two nodes that reach each other, with nothing on the way. *)
Record linked (url_b : Url) (a b : CoreFetch H) : Prop := {
  lk_wf : fh_wf (fhost a) /\ fh_wf (fhost b);
  lk_runs : incoming_request_task_runs b = true;
  lk_served : incoming_request_rx b = [];
  lk_stored : incoming_response_rx a = [];
  lk_tasks : outgoing_tasks a <> 0%nat;
  lk_responsive : (pm_get url_b "root:unresponsive" (fhost a)).1 = Ok None;
}.

Lemma outgoing_check_go req (n : CoreFetch H) :
  (pm_get req.2 "root:unresponsive" (fhost n)).1 = Ok None -> is_Some (requests n !! req) ->
  outgoing_check req n = (Ok true, set_fhost (fhost n) (set_fhost (fhost n) n)).
Proof.
  intros Hp Hr. unfold outgoing_check, bind, on_fhost. rewrite fh_alive. cbn [negb].
  unfold peer_url_unresponsive, or_log, bind, on_fhost, pm_get_unresponsive, bind. cbn [fhost set_fhost].
  pose proof (fh_meta req.2 "root:unresponsive"%string (fhost n)) as Hm.
  destruct (pm_get req.2 "root:unresponsive" (fhost n)) as [r h]. cbn in Hp, Hm. subst r h.
  cbn. unfold still_requested, bind, gets, ret. cbn. by rewrite bool_decide_eq_true_2.
Qed.

Lemma outgoing_send_ok req (n : CoreFetch H) : exists data h,
  serialize_request_message [req.1] = Ok data /\
  outgoing_send space_id req n = (Ok tt, set_asked (asked n ++ [req]) (set_fhost h n)) /\
  (fh_wf (fhost n) -> fh_wf h) /\ outbox h = outbox (fhost n) ++ [(req.2, data)] /\
  (forall id, holds h id = holds (fhost n) id) /\
  (forall u k, (pm_get u k h).1 = (pm_get u k (fhost n)).1).
Proof.
  destruct (request_encodes [req.1]) as [data Ed].
  destruct (fh_send req.2 space_id MOD_NAME data (fhost n)) as (h & Es & Hw & Ho & Hh & Hm).
  exists data, h. split_and!; try done.
  unfold outgoing_send, bind, lift_res. by rewrite Ed, Es.
Qed.

(** The node asked sends back what it holds of the op. *)
Lemma serve_one id peer (n : CoreFetch H) : fh_wf (fhost n) ->
  incoming_request_rx n = [([id], peer)] -> exists h,
  serve_next n = (Ok tt, set_fhost h (set_incoming [] (incoming_response_rx n) n)) /\
  fh_wf h /\ (forall id', holds h id' = holds (fhost n) id') /\
  match holds (fhost n) id with
  | Some d => exists data, serialize_response_message [MkMetaOp id d] = Ok data /\
                outbox h = outbox (fhost n) ++ [(peer, data)]
  | None => outbox h = outbox (fhost n)
  end.
Proof.
  intros Hw Hq. unfold serve_next. rewrite Hq. unfold incoming_request, bind, on_fhost.
  cbn [fhost set_incoming set_fhost]. rewrite fh_alive. cbn [negb fhost set_fhost].
  unfold or_log at 1. rewrite fh_retrieve by done. cbn.
  destruct (holds (fhost n) id) as [d|]; cbn.
  - destruct (response_encodes [MkMetaOp id d]) as [data Ed]. unfold lift_res. rewrite Ed.
    destruct (fh_send peer space_id MOD_NAME data (fhost n)) as (h & Es & Hw' & Ho & Hh & _).
    unfold or_log. cbn [fhost set_fhost set_incoming]. rewrite Es. exists h. split_and!; [done|auto|done|]. by exists data.
  - exists (fhost n). split_and!; done.
Qed.

Lemma store_one now id d peer (n : CoreFetch H) : fh_wf (fhost n) -> genuine d ->
  incoming_response_rx n = [([MkOp id d], peer)] -> exists h,
  store_next now n =
    (Ok tt, set_requests (retain_unprocessed [id])
       (set_reported (reported n ++ [(peer, id, Z.of_nat (length d))])
         (set_fhost h (set_incoming (incoming_request_rx n) [] n)))) /\ fh_wf h /\
  (forall u k, (pm_get u k h).1 = (pm_get u k (fhost n)).1) /\
  forall id', holds h id' = if decide (id' = id) then Some (default d (holds (fhost n) id)) else holds (fhost n) id'.
Proof.
  intros Hw Hd Hq. unfold store_next. rewrite Hq. unfold incoming_response, bind, gets, process_response.
  cbn [map fhost set_incoming]. unfold incoming_op_of. cbn [op_op_id op_data].
  match goal with |- context [MkIncomingOp id d ?m] =>
    destruct (fh_process now id d m (fhost n) Hw Hd) as (h & E & Hw' & _ & Hm & Hh) end.
  rewrite E. by exists h.
Qed.

Lemma exchange_spec now url_a url_b id (a b : CoreFetch H) :
  linked url_b a b -> is_Some (requests a !! (id, url_b)) -> exists a' b',
  exchange now url_a url_b (id, url_b) (a, b) = (Ok tt, (a', b')) /\ linked url_b a' b' /\
  (forall id', holds (fhost b') id' = holds (fhost b) id') /\
  match holds (fhost b) id with
  | Some d =>
      (forall id', holds (fhost a') id' =
         if decide (id' = id) then Some (default d (holds (fhost a) id)) else holds (fhost a) id') /\
      requests a' = retain_unprocessed [id] (requests a)
  | None => (forall id', holds (fhost a') id' = holds (fhost a) id') /\ requests a' = requests a
  end.
Proof.
  intros [[Lwa Lwb] Lr Ls Lt Lo Lp] Hreq. unfold exchange, get. unfold bind at 1. unfold bind at 1, on_fst at 1. cbn [fst snd].
  rewrite (outgoing_check_go (id, url_b) a Lp Hreq).
  set (a1 := set_fhost _ _). unfold bind at 1, on_fst at 1. cbn [fst snd].
  destruct (outgoing_send_ok (id, url_b) a1) as (data & h & Ed & -> & Hw & Ho & Hh & Hm). cbn [fst snd] in *.
  unfold bind at 1. cbn [fst snd].
  assert (news a (set_asked (asked a1 ++ [(id, url_b)]) (set_fhost h a1)) = [data]) as ->.
  { unfold news. cbn. rewrite Ho, drop_app_length. done. }
  unfold bind at 1, on_snd at 1. cbn [deliver for_each fst snd]. unfold bind at 1.
  rewrite (recv_request url_a [id] data b Ed Lr) by (rewrite Ls; vm_compute; lia).
  rewrite Ls. cbn [ret app]. set (b1 := set_incoming _ _ _).
  unfold bind at 1, on_snd at 1. cbn [fst snd].
  destruct (serve_one id url_a b1 Lwb eq_refl) as (hb & -> & Hwb & Hhb & Hob). cbn [fst snd].
  unfold bind at 1. cbn [fst snd]. set (a2 := set_asked _ _). set (b2 := set_fhost hb _).
  change (fhost b1) with (fhost b) in *.
  destruct (holds (fhost b) id) as [d|] eqn:Eh.
  - destruct Hob as (rdata & Erd & Hob).
    assert (news b b2 = [rdata]) as ->.
    { unfold news. cbn. rewrite Hob, drop_app_length. done. }
    unfold bind at 1, on_fst at 1. cbn [deliver for_each fst snd]. unfold bind at 1.
    rewrite (recv_response url_b _ rdata a2 Erd) by (subst a2; cbn; rewrite Lt; vm_compute; lia).
    cbn [ret]. unfold on_fst. cbn [fst snd].
    destruct (store_one now id d url_b (set_incoming (incoming_request_rx a2)
      (incoming_response_rx a2 ++ [(resp_ops (response_of_ops [MkMetaOp id d]), url_b)]) a2))
      as (ha & -> & Hwa & Hma & Hha); [exact (Hw Lwa)|exact (fh_genuine _ _ _ Lwb Eh)|subst a2; cbn; by rewrite Lt|].
    eexists _, _. split; [reflexivity|]. split; [|split; [exact Hhb|split]].
    + split; try done. cbn. rewrite Hma. cbn. by rewrite Hm.
    + intros id'. cbn. rewrite Hha. cbn. by rewrite !Hh.
    + done.
  - assert (news b b2 = []) as ->.
    { unfold news. cbn. rewrite Hob, drop_all. done. }
    unfold bind at 1, on_fst at 1. cbn [deliver for_each fst snd ret]. unfold on_fst. cbn [fst snd].
    unfold store_next. replace (incoming_response_rx a2) with (@nil (list Op * Url)) by (subst a2; cbn; by rewrite Lt).
    eexists _, _. split; [reflexivity|]. split; [|split; [exact Hhb|split]].
    + split; try done; [split; [exact (Hw Lwa)|done]|]. cbn. by rewrite Hm.
    + intros id'. cbn. by rewrite Hh.
    + done.
Qed.

(** ** All exchanges *)

Lemma exchanges_spec now url_a url_b ids (a b : CoreFetch H) :
  linked url_b a b -> NoDup ids -> (forall id, id ∈ ids -> is_Some (requests a !! (id, url_b))) ->
  exists a' b',
  for_each (map (fun id => (id, url_b)) ids) (exchange now url_a url_b) (a, b) = (Ok tt, (a', b')) /\
  (forall id, holds (fhost b') id = holds (fhost b) id) /\
  (forall id, holds (fhost a') id =
     if decide (id ∈ ids) then holds (fhost a) id ∪ holds (fhost b) id else holds (fhost a) id) /\
  (forall k, requests a' !! k =
     if decide (k.1 ∈ ids /\ is_Some (holds (fhost b) k.1)) then None else requests a !! k).
Proof.
  revert a b. induction ids as [|id ids IH]; intros a b Hl Hnd Hreq.
  - exists a, b. split; [done|]. split; [done|]. split.
    + intros id. rewrite decide_False by by intros ?%elem_of_nil. done.
    + intros k. rewrite decide_False by by intros [?%elem_of_nil _]. done.
  - apply NoDup_cons in Hnd as [Hni Hnd].
    destruct (exchange_spec now url_a url_b id a b Hl (Hreq id ltac:(left))) as (a1 & b1 & E1 & Hl1 & Hb1 & Ha1).
    assert (forall id', holds (fhost a1) id' =
      if decide (id' = id) then holds (fhost a) id' ∪ holds (fhost b) id' else holds (fhost a) id') as Hh1.
    { intros id'. destruct (holds (fhost b) id) as [d|] eqn:Ed; destruct Ha1 as [-> _]; case_decide; [subst|done|subst|done].
      - rewrite Ed. by destruct (holds (fhost a) id).
      - rewrite Ed. by destruct (holds (fhost a) id). }
    assert (forall k, requests a1 !! k =
      if decide (k.1 = id /\ is_Some (holds (fhost b) id)) then None else requests a !! k) as Hr1.
    { intros k. destruct (holds (fhost b) id) as [d|] eqn:Ed; destruct Ha1 as [_ ->].
      - unfold retain_unprocessed. destruct (decide (k.1 = id)) as [Ek|Hne].
        + rewrite decide_True by by split. apply map_lookup_filter_None. right. intros m _ Hn. apply Hn. cbn. rewrite Ek. by left.
        + rewrite decide_False by tauto. apply option_eq. intros m. rewrite map_lookup_filter_Some. cbn. rewrite list_elem_of_singleton. tauto.
      - rewrite decide_False; [done|]. by intros [_ [? [=]]]. }
    destruct (IH a1 b1 Hl1 Hnd) as (a' & b' & E & Hb' & Ha' & Hr').
    { intros id' Hid'. rewrite Hr1, decide_False; [apply Hreq; by right|]. cbn. intros [-> _]. done. }
    exists a', b'. split_and!.
    + cbn [map for_each]. by rewrite (bind_after _ _ _ _ _ E1).
    + intros id'. by rewrite Hb', Hb1.
    + intros id'. rewrite Ha', Hh1, Hb1. clear - Hni.
      destruct (decide (id' = id)) as [->|].
      * by rewrite decide_False, decide_True by (done || by left).
      * destruct (decide (id' ∈ ids)); [by rewrite decide_True by by right|].
        rewrite decide_False; [done|]. by intros [?|?]%elem_of_cons.
    + intros k. rewrite Hr', Hr1, Hb1. clear - Hni.
      destruct (decide (k.1 ∈ id :: ids /\ is_Some (holds (fhost b) k.1))) as [[Hin Hs]|Hn].
      * destruct (decide (k.1 ∈ ids /\ _)) as [|Hn2]; [done|]. rewrite decide_True; [done|].
        apply elem_of_cons in Hin as [Hin|Hin]; [rewrite <- Hin; by split|tauto].
      * rewrite !decide_False; [done|..].
        -- intros [Hk Hs]. apply Hn. rewrite Hk. split; [by left|done].
        -- intros [Hk Hs]. apply Hn. split; [by right|done].
Qed.

Lemma push_all source ids (n : CoreFetch H) : outgoing_tasks n <> 0%nat ->
  for_each ids (fun id => push_request (id, source)) n =
    (Ok tt, set_outgoing (outgoing_request_rx n ++ map (fun id => (id, source)) ids) n).
Proof.
  revert n. induction ids as [|id ids IH]; intros n Ht; cbn [for_each map].
  - rewrite app_nil_r. by destruct n.
  - unfold bind, push_request at 1, gets. unfold bind. rewrite bool_decide_eq_false_2 by done. cbn.
    rewrite IH by done. cbn. by rewrite <- app_assoc.
Qed.

Lemma elem_of_metadata_map ops id : id ∈ (map_to_list (metadata_map ops)).*1 <-> id ∈ map pub_op_id ops.
Proof.
  rewrite list_elem_of_fmap. transitivity (is_Some (metadata_map ops !! id)).
  - split.
    + intros ([i m] & -> & Hm%elem_of_map_to_list). by exists m.
    + intros [m Hm]. exists (id, m). split; [done|]. by apply elem_of_map_to_list.
  - unfold metadata_map.
    assert (forall m0 : gmap bytes (option bytes),
      is_Some (foldl (fun m op => <[pub_op_id op := pub_metadata op]> m) m0 ops !! id) <->
      is_Some (m0 !! id) \/ id ∈ map pub_op_id ops) as Hf.
    { induction ops as [|op ops IH]; intros m0; cbn; [rewrite elem_of_nil; tauto|].
      rewrite IH, lookup_insert_is_Some, elem_of_cons.
      destruct (decide (pub_op_id op = id)) as [<-|]; [tauto|]. intuition congruence. }
    rewrite Hf, lookup_empty. split; [intros [[? [=]]|?]; done|by right].
Qed.

Lemma fetch_from_spec now url_a url_b ops (a b : CoreFetch H) :
  linked url_b a b -> requests a = ∅ -> outgoing_request_rx a = [] -> exists a' b',
  fetch_from now url_a url_b ops (a, b) = (Ok tt, (a', b')) /\
  (forall id, holds (fhost b') id = holds (fhost b) id) /\
  (forall id, holds (fhost a') id =
     if decide (id ∈ map pub_op_id ops) then holds (fhost a) id ∪ holds (fhost b) id else holds (fhost a) id) /\
  (forall id u, is_Some (requests a' !! (id, u)) <->
     u = url_b /\ id ∈ map pub_op_id ops /\ holds (fhost a) id = None /\ holds (fhost b) id = None).
Proof.
  intros Hl Hr Hq. unfold fetch_from, request_ops, begin_request.
  set (ids := List.filter (fun id => negb (bool_decide (is_Some (holds (fhost a) id)))) (map_to_list (metadata_map ops)).*1).
  set (a1 := set_requests (fun r => (foldl (add_request url_b) (metadata_map ops, r) ids).2) (set_fhost (fhost a) a)).
  unfold bind at 1, on_fst at 1. cbn [fst snd].
  assert (bind (bind (on_fhost (filter_out_existing_ops (map_to_list (metadata_map ops)).*1))
    (fun new => bind (modify (set_requests (fun r => (foldl (add_request url_b) (metadata_map ops, r) new).2))) (fun _ => ret new)))
    (fun new => for_each new (fun op_id => push_request (op_id, url_b))) a =
    (Ok tt, set_outgoing (map (fun id => (id, url_b)) ids) a1)) as ->.
  { unfold bind, on_fhost. rewrite fh_filter by apply Hl. cbn. rewrite push_all by apply Hl. cbn. by rewrite Hq. }
  cbn [fst snd]. unfold work_off, bind, get, on_fst, modify. cbn [fst snd].
  assert (forall id, id ∈ ids <-> id ∈ map pub_op_id ops /\ holds (fhost a) id = None) as Hids.
  { intros id. unfold ids. rewrite list_elem_of_In, filter_In, <- list_elem_of_In, elem_of_metadata_map.
    by rewrite negb_true_iff, bool_decide_eq_false, <- eq_None_not_Some. }
  assert (NoDup ids) as Hnd.
  { unfold ids. apply NoDup_ListNoDup, List.NoDup_filter, NoDup_ListNoDup, NoDup_fst_map_to_list. }
  assert (forall k, is_Some (requests a1 !! k) <-> k ∈ map (fun id => (id, url_b)) ids) as Hreq.
  { intros k. destruct (add_requests_lookup url_b ids (metadata_map ops) ∅ k) as (A1 & A2 & _).
    unfold a1. cbn. rewrite Hr. destruct (decide (k ∈ map (fun id => (id, url_b)) ids)) as [Hin|Hin]; [naive_solver|].
    rewrite A1 by done. rewrite lookup_empty. split; [intros [? [=]]|done]. }
  change (outgoing_request_rx (set_outgoing (map (fun id => (id, url_b)) ids) a1)) with (map (fun id => (id, url_b)) ids).
  destruct (exchanges_spec now url_a url_b ids (set_outgoing [] a1) b) as (a' & b' & E & Hb & Ha & Hk).
  { destruct Hl. by split. }
  { done. }
  { intros id Hid. cbn. apply Hreq, list_elem_of_fmap. by exists id. }
  exists a', b'. split_and!; [exact E|exact Hb| |].
  - intros id. rewrite Ha. cbn. destruct (decide (id ∈ ids)) as [Hi|Hi], (decide (id ∈ map pub_op_id ops)) as [Ho|Ho]; try done.
    + by destruct (proj1 (Hids id) Hi).
    + destruct (holds (fhost a) id) as [d|] eqn:Ed; [by destruct (holds (fhost b) id)|].
      destruct Hi. by apply Hids.
  - intros id u. rewrite Hk. cbn.
    case_decide as Hc.
    + split; [intros [? [=]]|]. intros (_ & _ & _ & Hn). destruct Hc as [_ Hs]. rewrite Hn in Hs. by destruct Hs.
    + transitivity (is_Some (requests a1 !! (id, u))); [done|]. rewrite Hreq, list_elem_of_fmap. split.
      * intros (id' & [= <- ->] & Hin). split; [done|]. destruct (proj1 (Hids id) Hin) as [? ?]. split_and!; try done.
        apply eq_None_not_Some. tauto.
      * intros (-> & Ho & Hna & _). exists id. split; [done|]. by apply Hids.
Qed.

(** C20: Of the ops a node asks of another it has in the end each one that either
    of the two held, with the data it was held with; pending remain exactly the
    requests of those that neither holds. *)
Theorem fetch_delivers now url_a url_b ops (a b : CoreFetch H) :
  linked url_b a b -> requests a = ∅ -> outgoing_request_rx a = [] -> exists a' b',
  fetch_from now url_a url_b ops (a, b) = (Ok tt, (a', b')) /\
  (forall id, holds (fhost b') id = holds (fhost b) id) /\
  (forall id, holds (fhost a') id =
     if decide (id ∈ map pub_op_id ops) then holds (fhost a) id ∪ holds (fhost b) id else holds (fhost a) id) /\
  (forall id u, is_Some (requests a' !! (id, u)) <->
     u = url_b /\ id ∈ map pub_op_id ops /\ holds (fhost a) id = None /\ holds (fhost b) id = None).
Proof. apply fetch_from_spec. Qed.
End deliver.
