(* ===== verification/CorePublish.v ===== *)
(** The publish module (crates/core/src/factories/core_publish.rs and
    core_publish/message_handler.rs, with the messages of
    crates/api/src/publish.rs): ops and agent infos are announced to a peer,
    which fetches the ops and stores the infos. *)
From S2P Require Import Prelude Arc Timestamp Id Combine OpStore Agent PeerMeta GossipWire.
From S2P Require Import GossipNode CoreFetch FetchRun FetchDeliver.

(** ** Messages *)

Record PublishOpEntry : Type := MkPublishOpEntry { entry_op_id : bytes; entry_metadata : option bytes }.
Record PublishOps : Type := MkPublishOps { entries : list PublishOpEntry }.
Record PublishAgent : Type := MkPublishAgent { pa_agent_info : bytes }.
Record K2PublishMessage : Type := MkPublishMessage { publish_message_type : Z; publish_data : bytes }.

Inductive PublishMessageType : Type := PUnspecified | POps | PAgent.

Definition publish_type_number (t : PublishMessageType) : Z :=
  match t with PUnspecified => 0 | POps => 1 | PAgent => 2 end.

(** The generated getter: an unknown number reads as the default. *)
Definition get_publish_message_type (m : K2PublishMessage) : PublishMessageType :=
  match publish_message_type m with 1 => POps | 2 => PAgent | _ => PUnspecified end.

Class PublishProtobuf := {
  #[global] pp_outer :: Message K2PublishMessage;
  #[global] pp_ops :: Message PublishOps;
  #[global] pp_agent :: Message PublishAgent;
}.

Class PublishProtobufLaws `{PublishProtobuf} := {
  #[global] ppl_outer :: MessageLaws K2PublishMessage;
  #[global] ppl_ops :: MessageLaws PublishOps;
  #[global] ppl_agent :: MessageLaws PublishAgent;
}.

Section messages.
Context `{PublishProtobuf} `{AgentJson}.

Definition to_publish_ops (value : list PublishOp) : PublishOps :=
  MkPublishOps (map (fun op => MkPublishOpEntry (pub_op_id op) (pub_metadata op)) value).

Definition from_publish_ops (value : PublishOps) : list PublishOp :=
  map (fun entry => MkPublishOp (entry_op_id entry) (entry_metadata entry)) (entries value).

Definition serialize_publish_ops (ops : list PublishOp) : res bytes :=
  expect_encoded "failed to encode publish ops request" (to_publish_ops ops).

Definition serialize_publish_ops_message (ops : list PublishOp) : res bytes :=
  let? data := serialize_publish_ops ops in
  expect_encoded "failed to encode publish ops message"
    (MkPublishMessage (publish_type_number POps) data).

Definition serialize_publish_agent (value : AgentInfoSigned) : res bytes :=
  let? agent_info_encoded := encode_info value in
  expect_encoded "failed to encode publish agent request" (MkPublishAgent agent_info_encoded).

Definition serialize_publish_agent_message (value : AgentInfoSigned) : res bytes :=
  let? data := serialize_publish_agent value in
  expect_encoded "failed to encode publish agent message"
    (MkPublishMessage (publish_type_number PAgent) data).
End messages.

(** ** The module *)

Definition PUBLISH_MOD_NAME : string := "Publish".

(** The queues between callers, tasks and the message handler, whether the
    tasks that need a transport still run, and the host. *)
Record CorePublish (H : Type) : Type := MkPublish {
  outgoing_publish_ops_rx : list (list PublishOp * Url);
  incoming_publish_ops_rx : list (list PublishOp * Url);
  outgoing_publish_agent_rx : list (AgentInfoSigned * Url);
  incoming_publish_agent_rx : list bytes;
  ops_task_runs : bool;
  agent_task_runs : bool;
  phost : H;
}.
Arguments MkPublish {H}.
Arguments outgoing_publish_ops_rx {H}.
Arguments incoming_publish_ops_rx {H}.
Arguments outgoing_publish_agent_rx {H}.
Arguments incoming_publish_agent_rx {H}.
Arguments ops_task_runs {H}.
Arguments agent_task_runs {H}.
Arguments phost {H}.

Section setters.
Context {H : Type}.
Implicit Types p : CorePublish H.

Definition set_out_ops (q : list (list PublishOp * Url)) p :=
  MkPublish q (incoming_publish_ops_rx p) (outgoing_publish_agent_rx p)
    (incoming_publish_agent_rx p) (ops_task_runs p) (agent_task_runs p) (phost p).
Definition set_in_ops (q : list (list PublishOp * Url)) p :=
  MkPublish (outgoing_publish_ops_rx p) q (outgoing_publish_agent_rx p)
    (incoming_publish_agent_rx p) (ops_task_runs p) (agent_task_runs p) (phost p).
Definition set_out_agents (q : list (AgentInfoSigned * Url)) p :=
  MkPublish (outgoing_publish_ops_rx p) (incoming_publish_ops_rx p) q
    (incoming_publish_agent_rx p) (ops_task_runs p) (agent_task_runs p) (phost p).
Definition set_in_agents (q : list bytes) p :=
  MkPublish (outgoing_publish_ops_rx p) (incoming_publish_ops_rx p) (outgoing_publish_agent_rx p)
    q (ops_task_runs p) (agent_task_runs p) (phost p).
Definition set_runs (ops agent : bool) p :=
  MkPublish (outgoing_publish_ops_rx p) (incoming_publish_ops_rx p) (outgoing_publish_agent_rx p)
    (incoming_publish_agent_rx p) ops agent (phost p).
Definition set_phost (h : H) p :=
  MkPublish (outgoing_publish_ops_rx p) (incoming_publish_ops_rx p) (outgoing_publish_agent_rx p)
    (incoming_publish_agent_rx p) (ops_task_runs p) (agent_task_runs p) h.
End setters.

Definition on_phost {H A} (m : M H A) : M (CorePublish H) A := fun p =>
  let (r, h) := m (phost p) in (r, set_phost h p).

Definition publish_new {H} (h : H) : CorePublish H := MkPublish [] [] [] [] true true h.

Section publish.
Context {H : Type} `{Fetch H} `{PeerMetaStore H} `{Transport H} `{PeerStore H}.
Context `{SerdeNum} `{PublishProtobuf} `{AgentJson}.
Variable space_id : SpaceId.
Variable max_metadata_bytes : Z.

(** [meta.len() as u32 > max_metadata_bytes] *)
Definition too_much_metadata (op : PublishOp) : bool :=
  match pub_metadata op with
  | Some meta => max_metadata_bytes <? wrap_u32 (Z.of_nat (length meta))
  | None => false
  end.

(** A call with room in the queue; a closed queue is only logged. *)
Definition publish_ops (ops : list PublishOp) (target : Url) : M (CorePublish H) unit := fun p =>
  if existsb too_much_metadata ops then (Err "op metadata size exceeds maximum", p)
  else if ops_task_runs p then (Ok tt, set_out_ops (outgoing_publish_ops_rx p ++ [(ops, target)]) p)
  else (Ok tt, p).

Definition publish_agent (agent_info : AgentInfoSigned) (target : Url) : M (CorePublish H) unit := fun p =>
  if agent_task_runs p
  then (Ok tt, set_out_agents (outgoing_publish_agent_rx p ++ [(agent_info, target)]) p)
  else (Ok tt, p).

(** *** What the tasks do with an item of their queues *)

Definition outgoing_publish_ops (ops : list PublishOp) (peer_url : Url) : M (CorePublish H) unit :=
  let* alive := on_phost transport_alive in
  if negb alive then modify (fun p => set_runs false (agent_task_runs p) p)
  else
    let* unresponsive := or_log false
      (let* maybe_value := on_phost (pm_get_unresponsive peer_url) in
       ret (bool_decide (is_Some maybe_value))) in
    if unresponsive : bool then ret tt
    else
      let* data := lift_res (serialize_publish_ops_message ops) in
      or_log tt (on_phost (send_module peer_url space_id PUBLISH_MOD_NAME data)).

Definition incoming_publish_ops (publish_ops : list PublishOp) (peer : Url) : M (CorePublish H) unit :=
  or_log tt (on_phost (GossipNode.request_ops publish_ops peer)).

Definition outgoing_publish_agent (agent_info : AgentInfoSigned) (peer_url : Url) : M (CorePublish H) unit :=
  let* alive := on_phost transport_alive in
  if negb alive then modify (fun p => set_runs (ops_task_runs p) false p)
  else
    match serialize_publish_agent_message agent_info with
    | Ok data => or_log tt (on_phost (send_module peer_url space_id PUBLISH_MOD_NAME data))
    | Err _ => ret tt
    | Panic e => lift_res (Panic e)
    end.

Definition incoming_publish_agent (agent_info_encoded : bytes) : M (CorePublish H) unit :=
  match decode_info agent_info_encoded with
  | Ok agent_info => or_log tt (on_phost (ps_insert [agent_info]))
  | Err _ => ret tt
  | Panic e => lift_res (Panic e)
  end.

(** *** Incoming messages: entries with too much metadata are dropped, and a
    message that finds its queue full is an error *)

Definition recv_publish_msg (peer : Url) (data : bytes) : M (CorePublish H) unit :=
  let* publish := lift_res (decode_or "could not decode module message" data) in
  match get_publish_message_type publish with
  | POps =>
      let* request := lift_res (decode_or "could not decode publish ops" (publish_data publish)) in
      let ops := List.filter (fun op => negb (too_much_metadata op)) (from_publish_ops request) in
      fun p =>
        if (QUEUE_SIZE <=? length (incoming_publish_ops_rx p))%nat
        then (Err "could not insert incoming publish ops request into queue", p)
        else (Ok tt, set_in_ops (incoming_publish_ops_rx p ++ [(ops, peer)]) p)
  | PAgent =>
      let* request := lift_res (decode_or "could not decode publish agent" (publish_data publish)) in
      fun p =>
        if (QUEUE_SIZE <=? length (incoming_publish_agent_rx p))%nat
        then (Err "could not insert incoming agent publish into queue", p)
        else (Ok tt, set_in_agents (incoming_publish_agent_rx p ++ [pa_agent_info request]) p)
  | PUnspecified => fail "unknown publish message"
  end.

(** A task takes the next item of its queue. *)
Definition next_outgoing_ops : M (CorePublish H) unit := fun p =>
  match outgoing_publish_ops_rx p with
  | (ops, url) :: q => if ops_task_runs p then outgoing_publish_ops ops url (set_out_ops q p) else (Ok tt, p)
  | [] => (Ok tt, p)
  end.

Definition next_incoming_ops : M (CorePublish H) unit := fun p =>
  match incoming_publish_ops_rx p with
  | (ops, url) :: q => incoming_publish_ops ops url (set_in_ops q p)
  | [] => (Ok tt, p)
  end.

Definition next_outgoing_agent : M (CorePublish H) unit := fun p =>
  match outgoing_publish_agent_rx p with
  | (info, url) :: q => if agent_task_runs p then outgoing_publish_agent info url (set_out_agents q p) else (Ok tt, p)
  | [] => (Ok tt, p)
  end.

Definition next_incoming_agent : M (CorePublish H) unit := fun p =>
  match incoming_publish_agent_rx p with
  | info :: q => incoming_publish_agent info (set_in_agents q p)
  | [] => (Ok tt, p)
  end.
End publish.

(** ** A fetch module as the host of a publish module

    The publish module hands ops to the fetch module of its space and reaches
    the other services through the same host. *)

#[export] Instance fetch_of_core {H} `{OpStore H} : Fetch (CoreFetch H) :=
  {| GossipNode.request_ops := CoreFetch.request_ops |}.
#[export] Instance meta_of_core {H} `{PeerMetaStore H} : PeerMetaStore (CoreFetch H) := {|
  pm_put p k v e := on_fhost (pm_put p k v e);
  pm_get p k := on_fhost (pm_get p k);
  pm_get_all_by_key k := on_fhost (pm_get_all_by_key k);
  pm_delete p k := on_fhost (pm_delete p k);
|}.
#[export] Instance transport_of_core {H} `{Transport H} : Transport (CoreFetch H) := {|
  transport_alive := on_fhost transport_alive;
  send_module u s m d := on_fhost (send_module u s m d);
|}.
#[export] Instance peers_of_core {H} `{PeerStore H} : PeerStore (CoreFetch H) := {|
  ps_insert l := on_fhost (ps_insert l);
  ps_remove a := on_fhost (ps_remove a);
  ps_get a := on_fhost (ps_get a);
  ps_get_all := on_fhost ps_get_all;
  ps_get_by_overlapping_storage_arc a := on_fhost (ps_get_by_overlapping_storage_arc a);
  ps_get_near_location loc limit := on_fhost (ps_get_near_location loc limit);
  ps_get_by_url u := on_fhost (ps_get_by_url u);
|}.

(** Two nodes and their publish modules: an op that one announces to the other
    arrives there (core_publish.rs and core_fetch.rs on both sides). *)
#[local] Set Default Proof Using "Type*".

Section publish.
Context {H : Type} `{FetchHost H} `{FetchProtobufLaws} `{PublishProtobufLaws} `{AgentJson}.
Variable space_id : SpaceId.
Hypothesis request_encodes : forall ids, exists b, serialize_request_message ids = Ok b.
Hypothesis response_encodes : forall ops, exists b, serialize_response_message ops = Ok b.
Hypothesis publish_encodes : forall ops, exists b, serialize_publish_ops_message ops = Ok b.

(** The node of a publish module over its fetch module. *)
Abbreviation PublishNode := (CorePublish (CoreFetch H)).

Definition sent_by (p : PublishNode) : list (Url * bytes) := outbox (fhost (phost p)).

(** Ops are announced by the first node at [url_a] and fetched by the second at
    [url_b]; the limits on metadata are the publisher's and the receiver's. *)
Definition publish_to (now : Timestamp) (url_a url_b : Url) (max_a max_b : Z) (ops : list PublishOp)
  : M (PublishNode * PublishNode) unit :=
  let* st := get in
  on_fst (publish_ops max_a ops url_b) ;;*
  on_fst (next_outgoing_ops space_id) ;;*
  let* st1 := get in
  on_snd (for_each (map snd (drop (length (sent_by st.1)) (sent_by st1.1))) (recv_publish_msg max_b url_a)) ;;*
  on_snd next_incoming_ops ;;*
  fun st =>
    let '(r, (fb, fa)) := work_off space_id now url_b url_a (phost st.2, phost st.1) in
    (r, (set_phost fa st.1, set_phost fb st.2)).

(** Nothing on the way between the two publish modules. *)
Record announcing (url_b : Url) (a b : PublishNode) : Prop := {
  an_runs : ops_task_runs a = true;
  an_out : outgoing_publish_ops_rx a = [];
  an_in : incoming_publish_ops_rx b = [];
  an_responsive : (pm_get url_b "root:unresponsive" (fhost (phost a))).1 = Ok None;
}.

(** The ops of an announcement that the receiver looks at. *)
Definition within (max_b : Z) (ops : list PublishOp) : list PublishOp :=
  List.filter (fun op => negb (too_much_metadata max_b op)) ops.

Lemma from_to_publish_ops ops : from_publish_ops (to_publish_ops ops) = ops.
Proof. unfold from_publish_ops, to_publish_ops. cbn. induction ops as [|[] ops IH]; cbn; [done|]. by rewrite IH. Qed.

Lemma recv_ops max_b from ops data (p : PublishNode) :
  serialize_publish_ops_message ops = Ok data -> (length (incoming_publish_ops_rx p) < QUEUE_SIZE)%nat ->
  recv_publish_msg max_b from data p =
    (Ok tt, set_in_ops (incoming_publish_ops_rx p ++ [(within max_b ops, from)]) p).
Proof.
  unfold serialize_publish_ops_message, serialize_publish_ops, expect_encoded.
  destruct (msg_encode (to_publish_ops ops)) as [inner|] eqn:Ei; [|done]. cbn.
  destruct (msg_encode (MkPublishMessage _ _)) as [outer|] eqn:Eo; [|done]. intros [= <-] Hq.
  unfold recv_publish_msg, decode_or, bind, lift_res. rewrite (msg_decode_encode _ _ Eo). cbn.
  rewrite (msg_decode_encode _ _ Ei), from_to_publish_ops. by rewrite (proj2 (Nat.leb_gt _ _) Hq).
Qed.

(** The announcement is sent. *)
Lemma announce_one ops url (p : PublishNode) :
  ops_task_runs p = true -> outgoing_publish_ops_rx p = [(ops, url)] ->
  (pm_get url "root:unresponsive" (fhost (phost p))).1 = Ok None -> exists data h,
  serialize_publish_ops_message ops = Ok data /\
  next_outgoing_ops space_id p = (Ok tt, set_phost (set_fhost h (phost p)) (set_out_ops [] p)) /\
  (fh_wf (fhost (phost p)) -> fh_wf h) /\ outbox h = sent_by p ++ [(url, data)] /\
  (forall id, holds h id = holds (fhost (phost p)) id) /\
  (forall u k, (pm_get u k h).1 = (pm_get u k (fhost (phost p))).1).
Proof.
  intros Hr Hq Hp. destruct (publish_encodes ops) as [data Ed].
  set (n := phost p) in *.
  destruct (fh_send url space_id PUBLISH_MOD_NAME data (fhost n)) as (h & Es & Hw & Ho & Hh & Hm).
  exists data, h. split; [done|]. split; [|by split_and!].
  unfold next_outgoing_ops. rewrite Hq, Hr. unfold outgoing_publish_ops, bind, on_phost.
  cbn [phost set_out_ops]. unfold transport_alive, transport_of_core, on_fhost. fold n. rewrite fh_alive.
  cbn [negb]. unfold or_log at 1, bind, pm_get_unresponsive, bind. cbn [phost set_phost pm_get meta_of_core].
  unfold on_fhost. cbn [fhost set_fhost].
  pose proof (fh_meta url "root:unresponsive"%string (fhost n)) as Hs.
  destruct (pm_get url "root:unresponsive" (fhost n)) as [r hm]. cbn in Hp, Hs. subst r hm. cbn.
  unfold lift_res. rewrite Ed. unfold or_log, on_phost. cbn. unfold on_fhost. cbn. rewrite Es. done.
Qed.

(** C21: The ops that a node announces to another, and that it holds, are held by
    the other in the end, with the data the publisher holds; an announcement
    with more metadata than the receiver takes is left out, and an announcement
    beyond the publisher's own limit is refused before anything is sent. *)
Theorem publish_delivers now url_a url_b max_a max_b ops (a b : PublishNode) :
  announcing url_b a b -> linked url_a (phost b) (phost a) ->
  requests (phost b) = ∅ -> outgoing_request_rx (phost b) = [] ->
  if existsb (too_much_metadata max_a) ops
  then exists e, publish_to now url_a url_b max_a max_b ops (a, b) = (Err e, (a, b))
  else exists a' b', publish_to now url_a url_b max_a max_b ops (a, b) = (Ok tt, (a', b')) /\
    (forall id, holds (fhost (phost a')) id = holds (fhost (phost a)) id) /\
    forall id, holds (fhost (phost b')) id =
      if decide (id ∈ map pub_op_id (within max_b ops))
      then holds (fhost (phost b)) id ∪ holds (fhost (phost a)) id else holds (fhost (phost b)) id.
Proof.
  intros [Ar Ao Ai Ap] Hl Hreq Hq. unfold publish_to, get, publish_ops.
  destruct (existsb (too_much_metadata max_a) ops); [by eexists|].
  unfold bind at 1. unfold bind at 1, on_fst at 1. cbn [fst snd]. rewrite Ar, Ao. cbn [app fst snd]. set (a1 := set_out_ops _ a).
  destruct (announce_one ops url_b a1 Ar eq_refl Ap) as (data & h & Ed & E1 & Hw & Ho & Hh & Hm).
  unfold bind at 1, on_fst at 1. cbn [fst snd]. rewrite E1. unfold bind at 1. cbn [fst snd].
  set (a2 := set_phost _ _).
  assert (map snd (drop (length (sent_by a)) (sent_by a2)) = [data]) as ->.
  { unfold sent_by at 2, a2. cbn. rewrite Ho. unfold sent_by, a1. cbn. by rewrite drop_app_length. }
  unfold bind at 1, on_snd at 1. cbn [for_each fst snd]. unfold bind at 1.
  rewrite (recv_ops max_b url_a ops data b Ed) by (rewrite Ai; vm_compute; lia).
  rewrite Ai. cbn [app ret]. set (b1 := set_in_ops _ b).
  set (fa := set_fhost h (phost a)). change (phost a2) with fa.
  assert (linked url_a (phost b) fa) as Hl2.
  { destruct Hl as [[Lwb Lwa] Lr Ls Lt Lo Lp]. split; try done. split; [done|]. exact (Hw Lwa). }
  destruct (fetch_from_spec space_id request_encodes response_encodes now url_b url_a (within max_b ops)
    (phost b) fa Hl2 Hreq Hq) as (fb' & fa' & E & Ha' & Hb' & _).
  unfold fetch_from in E. apply bind_inv in E as ([] & st & Ereq & Ework).
  unfold on_fst in Ereq. cbn [fst snd] in Ereq.
  destruct (request_ops (within max_b ops) url_a (phost b)) as [rr fb1] eqn:Erq.
  injection Ereq as -> <-.
  unfold bind at 1, on_snd at 1, next_incoming_ops. cbn [fst snd].
  unfold b1. cbn [incoming_publish_ops_rx set_in_ops]. unfold incoming_publish_ops, or_log, on_phost.
  cbn [phost set_in_ops GossipNode.request_ops fetch_of_core]. rewrite Erq. cbn [fst snd phost set_phost].
  change (phost a2) with fa. rewrite Ework.
  eexists _, _. split; [reflexivity|]. split.
  - intros id. cbn. rewrite Ha'. unfold fa. cbn. apply Hh.
  - intros id. cbn. rewrite Hb'. unfold fa. cbn. by rewrite Hh.
Qed.
End publish.
