(* ===== verification/FetchDemo.v ===== *)
(** The fetch and publish modules over the in-memory host, and their theorems
    applied there. *)

From stdpp Require Import relations.
From S2P Require Import Prelude Arc Timestamp Id Agent Combine OpStore MemOpStore PeerMeta.
From S2P Require Import PeerStore GossipWire GossipNode GossipDemo CoreFetch FetchRun FetchDeliver.
From S2P Require Import CorePublish.
Import Concrete.

(** Messages as one number each. *)
Definition by_number {A B} `{Countable B} (f : A -> B) (g : B -> A) : Message A := {|
  msg_encode a := Some [Zpos (encode (f a))];
  msg_decode b := match b with [Zpos p] => g <$> decode p | _ => None end;
|}.

Lemma by_number_laws {A B} `{Countable B} (f : A -> B) (g : B -> A) :
  (forall a, g (f a) = a) -> @MessageLaws A (by_number f g).
Proof. intros Hgf. split. intros a b [= <-]. cbn. by rewrite decode_encode, <- (Hgf a) at 1; cbn; rewrite ?Hgf. Qed.

Definition op_pair (op : Op) : bytes * bytes := (op_op_id op, op_data op).
Definition pair_op (p : bytes * bytes) : Op := MkOp p.1 p.2.

#[export] Instance number_protobuf : FetchProtobuf := {|
  fp_outer := by_number (fun m => (fetch_message_type m, fetch_data m)) (fun p => MkFetchMessage p.1 p.2);
  fp_request := by_number req_op_ids MkFetchRequest;
  fp_response := by_number (fun r => map op_pair (resp_ops r)) (fun l => MkFetchResponse (map pair_op l));
|}.

#[export] Instance number_protobuf_laws : FetchProtobufLaws.
Proof.
  split; apply by_number_laws.
  - by intros [].
  - by intros [].
  - intros [ops]. cbn. f_equal. induction ops as [|[] ops IH]; cbn; [done|]. by f_equal.
Qed.

(** The data of an op, as the store gives it out. *)
Definition record_data (r : MemoryOpRecord) : bytes :=
  op_to_bytes (MkMemoryOp (rec_created_at r) (rec_op_data r)).

Definition keyed (h : MemHost) : Prop :=
  map_Forall (fun k r => rec_op_id r = k) (op_list (mh_ops h)).

#[export] Program Instance mem_fetch_host : FetchHost MemHost := {|
  holds h id := record_data <$> op_list (mh_ops h) !! id;
  fh_wf := keyed;
  genuine d := exists op, d = op_to_bytes op;
  outbox := mh_sent;
|}.
Next Obligation.
  intros h id d _ Hd. cbn in Hd. apply fmap_Some in Hd as (r & _ & ->). by eexists.
Qed.
Next Obligation.
  intros ids h _. cbn. unfold on_ops, mem_filter_out_existing_ops. cbn. destruct h as [t o m p a r s]. cbn.
  do 2 f_equal. apply List.filter_ext. intros id. f_equal. apply bool_decide_ext. by rewrite fmap_is_Some.
Qed.
Next Obligation.
  intros ids h Hw. cbn. unfold on_ops, mem_retrieve_ops. cbn. destruct h as [t o m p a r s]. cbn in *.
  do 2 f_equal.
  induction ids as [|id ids IH]; cbn; [done|].
  destruct (op_list o !! id) as [rec|] eqn:E; cbn; [|exact IH]. f_equal; [|exact IH].
  by rewrite (Hw _ _ E).
Qed.
Next Obligation.
  intros now id d m h Hw [[t x] ->]. eexists. split; [reflexivity|]. cbn.
  assert (forall l : gmap bytes MemoryOpRecord, map_Forall (fun k r => rec_op_id r = k) l ->
    map_Forall (fun k r => rec_op_id r = k) (or_insert l (MkRecord id t now x)) /\
    forall id', record_data <$> or_insert l (MkRecord id t now x) !! id' =
      if decide (id' = id) then Some (default (t :: x) (record_data <$> l !! id)) else record_data <$> l !! id') as Hl.
  { intros l Hwl. unfold or_insert. cbn. destruct (l !! id) as [r|] eqn:E; cbn.
    - split; [done|]. intros id'. destruct (decide (id' = id)) as [->|]; [by rewrite E|done].
    - split; [by apply map_Forall_insert_2|]. intros id'. destruct (decide (id' = id)) as [->|].
      + by rewrite lookup_insert_eq.
      + by rewrite lookup_insert_ne. }
  destruct (Hl (op_list (mh_ops h)) Hw) as [H1 H2]. by split_and!.
Qed.
Next Obligation. done. Qed.
Next Obligation. intros u k h. cbn. by destruct h. Qed.
Next Obligation. intros u s m d h. eexists. split; [reflexivity|]. by split_and!. Qed.

(** ** The theorems applied *)

(** Numbers always encode. *)
Lemma demo_encodes :
  (forall ids, exists b, serialize_request_message ids = Ok b) /\
  (forall ops, exists b, serialize_response_message ops = Ok b).
Proof. split; intros l; eexists; reflexivity. Qed.

Definition host_with (ops : list IncomingOp) : MemHost :=
  MkMemHost 1000 (store_of 0 ops) ∅ (inner_new 10 0) [] [] [].

Lemma empty_keyed : keyed (host_with []).
Proof. apply map_Forall_empty. Qed.

(** One node holds op 5, and is asked for ops 5 and 6. *)
Definition asker : CoreFetch MemHost := fetch_new 2 (host_with []).
Definition holder : CoreFetch MemHost := fetch_new 2 (host_with [incoming [5] 100 [1; 2]]).

Lemma holder_keyed : keyed (fhost holder).
Proof. unfold keyed. apply (bool_decide_eq_true_1 _). vm_compute. done. Qed.

Lemma demo_linked : linked "b" asker holder.
Proof. by split; [split; [apply empty_keyed|apply holder_keyed]|..]. Qed.

Lemma fetch_delivers_witness : exists a' b',
  fetch_from [] 1000 "a" "b" [MkPublishOp [5] None; MkPublishOp [6] None] (asker, holder) = (Ok tt, (a', b')) /\
  holds (fhost a') [5] = Some [100; 1; 2] /\ is_Some (requests a' !! ([6], "b"%string)).
Proof.
  destruct (fetch_delivers [] (proj1 demo_encodes) (proj2 demo_encodes) 1000 "a" "b"
    [MkPublishOp [5] None; MkPublishOp [6] None] asker holder demo_linked eq_refl eq_refl)
    as (a' & b' & E & _ & Ha & Hr).
  exists a', b'. split; [exact E|]. split.
  - rewrite (Ha [5]). vm_compute. reflexivity.
  - apply (Hr [6] "b"%string). split; [done|]. split; [right; left|]. split; vm_compute; reflexivity.
Defined.

Lemma demo_answers : host_answers (H := MemHost).
Proof.
  split.
  - intros h. by eexists.
  - intros u k h e h'. cbn. by destruct h.
  - done.
  - apply demo_encodes.
Qed.

(** Op 5 is asked for, and nothing was done about it yet. *)
Definition asked_for : FetchRun MemHost :=
  let n := (begin_request [MkPublishOp [5] None] "b" (fetch_new 2 (host_with []))).2 in
  MkRun n [([5], "b"%string)] [] None ∅.

Lemma outgoing_drains_witness :
  (forall k r', nsteps (outgoing_step []) k asked_for r' -> (k <= 3)%nat) /\
  forall r', rtc (outgoing_step []) asked_for r' -> (forall r'', ~ outgoing_step [] r' r'') ->
    forall k, is_Some (requests (node r') !! k) -> k ∈ since r'.
Proof.
  assert (rtc (fetch_step []) (fetch_start 2 (host_with [])) asked_for) as Hrun.
  { eapply rtc_l; [|apply rtc_refl].
    exact (fs_request [] (fetch_new 2 (host_with [])) [] [] None ∅ [MkPublishOp [5] None] "b" [[5]] _ eq_refl). }
  destruct (outgoing_drains [] 2 (host_with []) asked_for demo_answers ltac:(done) Hrun eq_refl) as [H1 H2].
  split; [exact H1|]. intros r' Hr' Hs. apply (H2 r' Hr' Hs).
Defined.

(** A node that waits for its last request, with a listener. *)
Definition last_pending : CoreFetch MemHost :=
  (notify_on_drained 7 (node asked_for)).2.

Lemma last_response_tells_nobody_witness :
  let n' := (process_response 1000 [MkOp [5] [100]] "b" [MkIncomingOp [5] [100] None] last_pending).2 in
  requests n' = ∅ /\ notify_when_drained_senders n' = [7%nat] /\ notified n' = [].
Proof.
  cbv zeta. eapply (last_response_tells_nobody 1000 [MkOp [5] [100]] "b" [MkIncomingOp [5] [100] None] last_pending);
    [reflexivity| |reflexivity].
  intros [id u] Hk. change (requests last_pending) with ({[ ([5], "b"%string) := None ]} : Requests) in Hk.
  destruct Hk as [m [Hk _]%lookup_singleton_Some]. injection Hk as <- _. left.
Defined.

(** An announcement of op 5, and one of op 6 with more metadata than the
    receiver takes. *)
#[export] Instance number_publish : PublishProtobuf := {|
  pp_outer := by_number (fun m => (publish_message_type m, publish_data m)) (fun p => MkPublishMessage p.1 p.2);
  pp_ops := by_number (fun r => map (fun e => (entry_op_id e, entry_metadata e)) (entries r))
    (fun l => MkPublishOps (map (fun p => MkPublishOpEntry p.1 p.2) l));
  pp_agent := by_number pa_agent_info MkPublishAgent;
|}.

#[export] Instance number_publish_laws : PublishProtobufLaws.
Proof.
  split; apply by_number_laws.
  - by intros [].
  - intros [l]. cbn. f_equal. induction l as [|[] l IH]; cbn; [done|]. by f_equal.
  - by intros [].
Qed.

Lemma publish_delivers_witness : exists a' b',
  publish_to [] 1000 "a" "b" 4 2 [MkPublishOp [5] (Some [1; 1]); MkPublishOp [6] (Some [1; 1; 1])]
    (publish_new holder, publish_new asker) = (Ok tt, (a', b')) /\
  holds (fhost (phost b')) [5] = Some [100; 1; 2] /\ holds (fhost (phost b')) [6] = None.
Proof.
  assert (announcing "b" (publish_new holder) (publish_new asker)) as Ha by by split.
  assert (linked "a" (phost (publish_new asker)) (phost (publish_new holder))) as Hl.
  { by split; [split; [apply empty_keyed|apply holder_keyed]|..]. }
  destruct (publish_delivers [] (proj1 demo_encodes) (proj2 demo_encodes)
    ltac:(intros; eexists; reflexivity) 1000 "a" "b" 4 2
    [MkPublishOp [5] (Some [1; 1]); MkPublishOp [6] (Some [1; 1; 1])] _ _ Ha Hl eq_refl eq_refl)
    as (a' & b' & E & _ & Hb).
  exists a', b'. split; [exact E|]. rewrite !Hb. split; vm_compute; reflexivity.
Defined.
