(* ===== verification/Space.v ===== *)
(** A space (crates/core/src/factories/core_space.rs): its local agents join and
    leave, and their infos are signed, stored, sent to the bootstrap server and
    to the remote peers.  The queries of the peer store without local or
    unresponsive agents (crates/core/src/common.rs) and the store of local
    agents (core_local_agent_store.rs). *)

From S2P Require Import Prelude Arc Timestamp Id Agent Combine OpStore PeerMeta.
From S2P Require Import Agent GossipWire GossipNode CoreFetch PeerStore.
From Stdlib Require Import Ascii.

(** The services that only a space calls. *)
Class Publish (H : Type) := { ps_publish_agent : AgentInfoSigned -> Url -> M H unit }.
Class Bootstrap (H : Type) := { bs_put : AgentInfoSigned -> M H unit }.

(** ** Remote agents *)

Definition filter_local_agents (local : list AgentId) (agent_list : list AgentInfoSigned)
  : list AgentInfoSigned :=
  List.filter (fun a : AgentInfoSigned => negb (bool_decide (ai_agent a ∈ local))) agent_list.

Section remote.
Context {H : Type} `{PeerStore H} `{PeerMetaStore H}.
Variable local : list AgentId.

Definition get_all_remote_agents : M H (list AgentInfoSigned) :=
  let* all_agents := ps_get_all in ret (filter_local_agents local all_agents).

Definition get_remote_agents_by_overlapping_storage_arc (arc : DhtArc) : M H (list AgentInfoSigned) :=
  let* by_overlapping_storage_arc := ps_get_by_overlapping_storage_arc arc in
  ret (filter_local_agents local by_overlapping_storage_arc).

Definition get_remote_agents_near_location (loc : Z) (limit : nat) : M H (list AgentInfoSigned) :=
  let* near_location := ps_get_near_location loc limit in
  ret (filter_local_agents local near_location).

(** Agents without a URL are left out too. *)
Definition filter_unresponsive_agents (agent_list : list AgentInfoSigned) : M H (list AgentInfoSigned) :=
  let* unresponsive_urls := pm_get_all_by_key "root:unresponsive" in
  ret (List.filter (fun a : AgentInfoSigned =>
         match ai_url a with
         | Some url => negb (bool_decide (is_Some (unresponsive_urls !! url)))
         | None => false
         end) agent_list).

Definition get_all_responsive_remote_agents : M H (list AgentInfoSigned) :=
  let* remote_agents := get_all_remote_agents in filter_unresponsive_agents remote_agents.

Definition get_responsive_remote_agents_by_overlapping_storage_arc (arc : DhtArc)
  : M H (list AgentInfoSigned) :=
  let* remote_agents := get_remote_agents_by_overlapping_storage_arc arc in
  filter_unresponsive_agents remote_agents.

Definition get_responsive_remote_agents_near_location (loc : Z) (limit : nat)
  : M H (list AgentInfoSigned) :=
  let* remote_agents := get_remote_agents_near_location loc limit in
  filter_unresponsive_agents remote_agents.
End remote.

(** ** The space *)

Record CoreSpaceConfig : Type := MkSpaceConfig { re_sign_freq_ms : Z; re_sign_expire_time_ms : Z }.
Definition default_space_config : CoreSpaceConfig := MkSpaceConfig (1000 * 60) (1000 * 60 * 5).

(** The callback of a local agent: none, the space's, or the dummy that is
    registered when it left. *)
Inductive AgentCb : Type := NoCb | UpdateCb | DummyCb.

(** A local agent as the object shared by all that hold it. *)
Record AgentObj : Type := MkObj { ob_agent : LocalAgent; ob_cb : AgentCb }.

(** [objects] are all local agents there ever were, [local_agent_store] those in
    the store, and [updates] the update tasks that were spawned and have not run
    yet. *)
Record CoreSpace (H : Type) : Type := MkSpace {
  current_url : option Url;
  objects : gmap (list Z) AgentObj;
  local_agent_store : gset (list Z);
  updates : list AgentId;
  shost : H;
}.
Arguments MkSpace {H}.
Arguments current_url {H}.
Arguments objects {H}.
Arguments local_agent_store {H}.
Arguments updates {H}.
Arguments shost {H}.

Section setters.
Context {H : Type}.
Implicit Types s : CoreSpace H.

Definition set_url (u : option Url) s :=
  MkSpace u (objects s) (local_agent_store s) (updates s) (shost s).
Definition set_objects (f : gmap (list Z) AgentObj -> gmap (list Z) AgentObj) s :=
  MkSpace (current_url s) (f (objects s)) (local_agent_store s) (updates s) (shost s).
Definition set_local (f : gset (list Z) -> gset (list Z)) s :=
  MkSpace (current_url s) (objects s) (f (local_agent_store s)) (updates s) (shost s).
Definition set_updates (u : list AgentId) s :=
  MkSpace (current_url s) (objects s) (local_agent_store s) u (shost s).
Definition set_shost (h : H) s :=
  MkSpace (current_url s) (objects s) (local_agent_store s) (updates s) h.

(** The callback spawns an update task. *)
Definition invoke_agent_cb (id : AgentId) s : CoreSpace H :=
  match objects s !! id with
  | Some obj => match ob_cb obj with UpdateCb => set_updates (updates s ++ [id]) s | _ => s end
  | None => s
  end.
End setters.

Definition on_shost {H A} (m : M H A) : M (CoreSpace H) A := fun s =>
  let (r, h) := m (shost s) in (r, set_shost h s).

Section space.
Context {H : Type} `{PeerStore H} `{PeerMetaStore H} `{Publish H} `{Bootstrap H} `{SerdeNum} `{AgentJson}.
Variable signer : AgentId -> AgentInfo -> string -> res bytes.
Variable space_id : SpaceId.

Definition broadcast_agent_info (agent_info_signed : AgentInfoSigned) : M (CoreSpace H) unit := fun s =>
  (let* all_remote_agents := on_shost (get_all_remote_agents (elements (local_agent_store s))) in
   for_each (omap (fun a : AgentInfoSigned => ai_url a) all_remote_agents) (fun url =>
     or_log tt (on_shost (ps_publish_agent agent_info_signed url)))) s.

(** A signed info is stored, put to the bootstrap server and sent to the remote
    agents; what fails is logged. *)
Definition announce (info : res AgentInfoSigned) : M (CoreSpace H) unit :=
  match info with
  | Ok info =>
      or_log tt (on_shost (ps_insert [info])) ;;*
      on_shost (bs_put info) ;;*
      or_log tt (broadcast_agent_info info)
  | Err _ => ret tt
  | Panic e => lift_res (Panic e)
  end.

Definition TWENTY_MINUTES : Duration := from_secs (60 * 20).

Definition update_info (now : Timestamp) (url : Url) (agent : LocalAgent) : AgentInfo :=
  MkAgentInfo (la_agent agent) space_id now (ts_add now TWENTY_MINUTES) false (Some url)
    (cur_storage_arc agent).

Definition tombstone_info (now : Timestamp) (id : AgentId) : AgentInfo :=
  MkAgentInfo id space_id now (ts_add now TWENTY_MINUTES) true None Empty.

(** What an update task does when it runs. *)
Definition run_update (now : Timestamp) (id : AgentId) : M (CoreSpace H) unit := fun s =>
  match current_url s, objects s !! id with
  | Some url, Some obj => announce (sign (signer id) (update_info now url (ob_agent obj))) s
  | _, _ => (Ok tt, s)
  end.

Definition local_agent_join (agent : LocalAgent) : M (CoreSpace H) unit := fun s =>
  let id := la_agent agent in
  let obj := MkObj (MkLocalAgent id Empty (tgt_storage_arc agent)) UpdateCb in
  (Ok tt, invoke_agent_cb id (set_local (fun l => {[ id ]} ∪ l) (set_objects (insert id obj) s))).

Definition local_agent_leave (now : Timestamp) (id : AgentId) : M (CoreSpace H) unit := fun s =>
  if bool_decide (id ∈ local_agent_store s) then
    let s := set_objects (alter (fun obj => MkObj (ob_agent obj) DummyCb) id)
               (set_local (fun l => l ∖ {[ id ]}) s) in
    announce (sign (signer id) (tombstone_info now id)) s
  else (Ok tt, s).

Definition new_url (this_url : Url) : M (CoreSpace H) unit := fun s =>
  let s := set_url (Some this_url) s in
  (Ok tt, foldl (fun s id => invoke_agent_cb id s) s (elements (local_agent_store s))).

(** Whether the info of an agent is about to expire, or not to be had. *)
Definition should_re_sign (cutoff : Timestamp) (id : AgentId) : M (CoreSpace H) bool := fun s =>
  match on_shost (ps_get id) s with
  | (Ok (Some info), s) => (Ok (ai_expires_at info <=? cutoff), s)
  | (Ok None, s) | (Err _, s) => (Ok true, s)
  | (Panic e, s) => (Panic e, s)
  end.

(** A turn of the task that re-signs infos. *)
Definition check_agent_infos (config : CoreSpaceConfig) (now : Timestamp) : M (CoreSpace H) unit := fun s =>
  let cutoff := ts_add now (from_millis (re_sign_expire_time_ms config)) in
  for_each (elements (local_agent_store s)) (fun id =>
    let* re_sign := should_re_sign cutoff id in
    if re_sign : bool then modify (invoke_agent_cb id) else ret tt) s.

(** A peer that does not answer is marked, if the space knows it. *)
Definition set_unresponsive (peer : Url) (now : Timestamp) : M (CoreSpace H) unit :=
  let* peers := on_shost ps_get_all in
  match List.find (fun p : AgentInfoSigned => bool_decide (ai_url p = Some peer)) peers with
  | Some agent_info => on_shost (pm_set_unresponsive peer (ai_expires_at agent_info) now)
  | None => ret tt
  end.

Definition has_local_agents (s : CoreSpace H) : bool := negb (bool_decide (local_agent_store s = ∅)).
End space.

Definition space_new {H} (current_url : option Url) (h : H) : CoreSpace H :=
  MkSpace current_url ∅ ∅ [] h.

(** ** The credential of the bootstrap server

    [server_url] is the configured server, if any, and the credential is that of
    the global configuration. *)

Definition bootstrap_server_customized (global space : option string) : bool :=
  match global, space with
  | Some global_url, Some space_url =>
      negb (bool_decide (trim_end_slashes space_url = trim_end_slashes global_url))
  | _, _ => false
  end.

(** The credential a space is created with: [overridden] is the server of the
    merged configuration, when the space overrides anything. *)
Definition space_auth_material (global_server : option string) (overridden : option (option string))
  (global_auth : option bytes) : option bytes :=
  match overridden with
  | Some space_server =>
      if bootstrap_server_customized global_server space_server then None else global_auth
  | None => global_auth
  end.
