(* ===== verification/SpaceProps.v ===== *)
(** What a space promises of its local agents (core_space.rs): infos are
    announced to every remote peer, re-signed before they expire, and replaced
    by a tombstone when an agent leaves. *)

From stdpp Require Import relations.
From Stdlib Require Import Ascii.
From S2P Require Import Prelude Arc Timestamp Id Agent Combine OpStore PeerMeta.
From S2P Require Import Agent GossipWire GossipNode CoreFetch FetchRun PeerStore Space.

(** What the peer store makes of an info for an agent it may know. *)
Definition newer (old : option AgentInfoSigned) (info : AgentInfoSigned) : AgentInfoSigned :=
  match old with
  | Some o => if ai_created_at info <=? ai_created_at o then o else info
  | None => info
  end.

Definition inserted (accepted : bool) (old : option AgentInfoSigned) (info : AgentInfoSigned)
  : option AgentInfoSigned :=
  if accepted then Some (newer old info) else old.

(** What a space relies on of its host: a peer store that keeps the newest info
    of each agent, unless it refuses it, and a publish module and a bootstrap
    module that take what they are given. *)
Class SpaceHost (H : Type) `{PeerStore H} `{Publish H} `{Bootstrap H} := {
  peer_of : H -> AgentId -> option AgentInfoSigned;
  accepts : H -> AgentInfoSigned -> bool;
  published : H -> list (AgentInfoSigned * Url);
  put_infos : H -> list AgentInfoSigned;
  same_host (h h' : H) : Prop :=
    (forall a, peer_of h' a = peer_of h a) /\ (forall i, accepts h' i = accepts h i) /\
    published h' = published h /\ put_infos h' = put_infos h;
  sh_insert i h : exists h', ps_insert [i] h = (Ok tt, h') /\
    (forall a, peer_of h' a = if decide (a = ai_agent i) then inserted (accepts h i) (peer_of h a) i else peer_of h a) /\
    (forall j, accepts h' j = accepts h j) /\ published h' = published h /\ put_infos h' = put_infos h;
  sh_put i h : exists h', bs_put i h = (Ok tt, h') /\
    (forall a, peer_of h' a = peer_of h a) /\ (forall j, accepts h' j = accepts h j) /\
    published h' = published h /\ put_infos h' = put_infos h ++ [i];
  sh_publish i u h : exists h', ps_publish_agent i u h = (Ok tt, h') /\
    (forall a, peer_of h' a = peer_of h a) /\ (forall j, accepts h' j = accepts h j) /\
    published h' = published h ++ [(i, u)] /\ put_infos h' = put_infos h;
  sh_get a h : exists h', ps_get a h = (Ok (peer_of h a), h') /\ same_host h h';
  sh_all h : exists l h', ps_get_all h = (Ok l, h') /\ same_host h h' /\ NoDup l /\
    forall i : AgentInfoSigned, i ∈ l <-> peer_of h (ai_agent i) = Some i;
}.

Section space.
Context {H : Type} `{SpaceHost H} `{AgentJson}.
Variable signer : AgentId -> AgentInfo -> string -> res bytes.
Variable space_id : SpaceId.
Implicit Types s : CoreSpace H.

(** ** Announcing an info *)

(** The remote agents of a space: those its peer store shows that are not its
    own. *)
Definition remote (s : CoreSpace H) (i : AgentInfoSigned) : Prop :=
  peer_of (shost s) (ai_agent i) = Some i /\ (ai_agent i ∉ local_agent_store s).

(** Everything but the host is as before. *)
Definition same_space s s' : Prop :=
  current_url s' = current_url s /\ objects s' = objects s /\
  local_agent_store s' = local_agent_store s /\ updates s' = updates s.

Lemma set_shost_same s h : same_space s (set_shost h s).
Proof. by split_and!. Qed.

Lemma publish_all i urls s : exists h,
  for_each urls (fun url => or_log tt (on_shost (ps_publish_agent i url))) s = (Ok tt, set_shost h s) /\
  (forall a, peer_of h a = peer_of (shost s) a) /\ (forall j, accepts h j = accepts (shost s) j) /\
  published h = published (shost s) ++ map (fun u => (i, u)) urls /\ put_infos h = put_infos (shost s).
Proof.
  revert s. induction urls as [|u urls IH]; intros s; cbn [for_each map].
  - exists (shost s). destruct s; cbn. rewrite app_nil_r. by split_and!.
  - destruct (sh_publish i u (shost s)) as (h1 & E1 & P1 & A1 & Pb1 & Pt1).
    destruct (IH (set_shost h1 s)) as (h & E & P & A & Pb & Pt).
    exists h. unfold bind at 1, or_log at 1, on_shost at 1. rewrite E1. rewrite E.
    split; [done|]. cbn in *. split; [intros a; by rewrite P, P1|]. split; [intros j; by rewrite A, A1|].
    split; [|congruence]. by rewrite Pb, Pb1, <- app_assoc.
Qed.

(** An info is stored, put to the bootstrap server, and sent to the URL of each
    remote agent. *)
Lemma announce_spec i s : exists h l,
  announce (Ok i) s = (Ok tt, set_shost h s) /\
  (forall a, peer_of h a = if decide (a = ai_agent i) then inserted (accepts (shost s) i) (peer_of (shost s) a) i else peer_of (shost s) a) /\
  (forall j, accepts h j = accepts (shost s) j) /\
  put_infos h = put_infos (shost s) ++ [i] /\
  published h = published (shost s) ++ map (fun u => (i, u)) (omap (fun a : AgentInfoSigned => ai_url a) l) /\
  NoDup l /\ forall j, j ∈ l <-> remote (set_shost h s) j.
Proof.
  unfold announce. destruct (sh_insert i (shost s)) as (h1 & E1 & P1 & A1 & Pb1 & Pt1).
  destruct (sh_put i h1) as (h2 & E2 & P2 & A2 & Pb2 & Pt2).
  destruct (sh_all h2) as (all & h3 & E3 & (P3 & A3 & Pb3 & Pt3) & Hnd & Hall).
  set (l := filter_local_agents (elements (local_agent_store s)) all).
  destruct (publish_all i (omap (fun a : AgentInfoSigned => ai_url a) l) (set_shost h3 (set_shost h2 (set_shost h1 s))))
    as (h4 & E4 & P4 & A4 & Pb4 & Pt4). cbn in P4, A4, Pb4, Pt4.
  exists h4, l. split_and!.
  - unfold bind at 1, or_log at 1, on_shost at 1. rewrite E1. unfold bind at 1, on_shost at 1. cbn [shost set_shost].
    rewrite E2. unfold or_log at 1, broadcast_agent_info, bind at 1, on_shost at 1, get_all_remote_agents, bind at 1.
    cbn [shost set_shost local_agent_store]. rewrite E3. cbn [ret]. fold l. by rewrite E4.
  - intros a. by rewrite P4, P3, P2, P1.
  - intros j. by rewrite A4, A3, A2, A1.
  - by rewrite Pt4, Pt3, Pt2, Pt1.
  - by rewrite Pb4, Pb3, Pb2, Pb1.
  - unfold l, filter_local_agents. apply NoDup_ListNoDup, List.NoDup_filter. by apply NoDup_ListNoDup.
  - intros j. unfold remote. cbn. rewrite P4, P3, <- Hall. unfold l, filter_local_agents.
    rewrite list_elem_of_In, filter_In, <- list_elem_of_In, negb_true_iff, bool_decide_eq_false, elem_of_elements. done.
Qed.

(** What an announcement leaves alone, whether or not there is one. *)
Lemma announce_frame r s s' : announce r s = (Ok tt, s') ->
  same_space s s' /\ (forall j, accepts (shost s') j = accepts (shost s) j) /\
  forall a, (forall i, r = Ok i -> ai_agent i <> a) -> peer_of (shost s') a = peer_of (shost s) a.
Proof.
  destruct r as [i|e|e]; [|by intros [= <-]|done].
  destruct (announce_spec i s) as (h & l & -> & P & A & _). intros [= <-]. split; [done|]. split; [exact A|].
  intros a Ha. cbn. rewrite P. rewrite decide_False; [done|]. intros ->. by apply (Ha i).
Qed.

Lemma sign_agent sg info i : sign sg info = Ok i -> agent_info i = info.
Proof.
  unfold sign. destruct (ok_or _ _) as [e| |]; cbn; [|done..]. destruct (sg info e); [|done..]. by intros [= <-].
Qed.

(** ** The steps of a space *)

(** Objects are filed under their agents. *)
Definition filed s : Prop := forall id obj, objects s !! id = Some obj -> la_agent (ob_agent obj) = id.

(** The steps, as far as agent [id] goes: it does not join again, and what else
    happens on the host brings no info of it. *)
Inductive space_step (id : AgentId) : CoreSpace H -> CoreSpace H -> Prop :=
  | ss_join s agent s' :
      la_agent agent <> id -> local_agent_join agent s = (Ok tt, s') -> space_step id s s'
  | ss_leave s now a s' : local_agent_leave signer space_id now a s = (Ok tt, s') -> space_step id s s'
  | ss_update s now a rest s' :
      updates s ≡ₚ a :: rest -> run_update signer space_id now a (set_updates rest s) = (Ok tt, s') ->
      space_step id s s'
  | ss_check s config now s' : check_agent_infos config now s = (Ok tt, s') -> space_step id s s'
  | ss_url s u s' : new_url u s = (Ok tt, s') -> space_step id s s'
  | ss_arcs s a f : (forall l, la_agent (f l) = la_agent l) ->
      space_step id s (set_objects (alter (fun obj => MkObj (f (ob_agent obj)) (ob_cb obj)) a) s)
  | ss_invoke s a : space_step id s (invoke_agent_cb a s)
  | ss_host s h : peer_of h id = peer_of (shost s) id -> space_step id s (set_shost h s).

(** The agent left, and nothing is under way for it. *)
Record gone (id : AgentId) (tomb : AgentInfoSigned) s : Prop := {
  gn_filed : filed s;
  gn_store : id ∉ local_agent_store s;
  gn_cb obj : objects s !! id = Some obj -> ob_cb obj = DummyCb;
  gn_updates : id ∉ updates s;
  gn_peer : peer_of (shost s) id = Some tomb;
}.

Lemma invoke_cases a s :
  invoke_agent_cb a s = s \/
  (exists obj, objects s !! a = Some obj /\ ob_cb obj = UpdateCb) /\
  invoke_agent_cb a s = set_updates (updates s ++ [a]) s.
Proof.
  unfold invoke_agent_cb. destruct (objects s !! a) as [obj|]; [|by left].
  destruct (ob_cb obj) eqn:E; [by left|right|by left]. split; [by exists obj|done].
Qed.

Lemma gone_invoke id tomb a s : gone id tomb s -> gone id tomb (invoke_agent_cb a s).
Proof.
  intros Hg. destruct (invoke_cases a s) as [-> |((obj & Ho & Hc) & ->)]; [done|].
  destruct Hg as [F L C U P]. split; cbn; try done.
  rewrite elem_of_app, list_elem_of_singleton. intros [?|<-]; [done|]. rewrite (C obj Ho) in Hc. done.
Qed.

Lemma gone_invokes id tomb l s : gone id tomb s -> gone id tomb (foldl (fun s a => invoke_agent_cb a s) s l).
Proof. revert s. induction l as [|a l IH]; intros s Hg; [done|]. cbn. by apply IH, gone_invoke. Qed.

Lemma gone_host id tomb h s : peer_of h id = peer_of (shost s) id -> gone id tomb s -> gone id tomb (set_shost h s).
Proof. intros E [F L C U P]. split; try done. cbn. by rewrite E. Qed.

Lemma should_re_sign_spec cutoff a s : exists h,
  should_re_sign cutoff a s =
    (Ok (match peer_of (shost s) a with Some i => ai_expires_at i <=? cutoff | None => true end), set_shost h s) /\
  same_host (shost s) h.
Proof.
  unfold should_re_sign, on_shost. destruct (sh_get a (shost s)) as (h & -> & Hs).
  exists h. split; [|done]. by destruct (peer_of (shost s) a).
Qed.

(** The agents of a list whose info is re-signed. *)
Definition due cutoff (s : CoreSpace H) (a : AgentId) : bool :=
  (match peer_of (shost s) a with Some i => ai_expires_at i <=? cutoff | None => true end) &&
  match objects s !! a with Some obj => match ob_cb obj with UpdateCb => true | _ => false end | None => false end.

Lemma check_loop cutoff l s : exists h,
  for_each l (fun id =>
    let* re_sign := should_re_sign cutoff id in
    if re_sign : bool then modify (invoke_agent_cb id) else ret tt) s =
  (Ok tt, set_updates (updates s ++ List.filter (due cutoff s) l) (set_shost h s)) /\ same_host (shost s) h.
Proof.
  revert s. induction l as [|a l IH]; intros s; cbn [for_each List.filter].
  - exists (shost s). rewrite app_nil_r. split; [by destruct s|by split_and!].
  - destruct (should_re_sign_spec cutoff a s) as (h1 & E1 & S1).
    set (s1 := if due cutoff s a then set_updates (updates s ++ [a]) (set_shost h1 s) else set_shost h1 s).
    assert (bind (should_re_sign cutoff a) (fun re_sign : bool =>
      if re_sign then modify (invoke_agent_cb a) else ret tt) s = (Ok tt, s1)) as E.
    { unfold bind. rewrite E1. unfold s1, due.
      destruct (match peer_of (shost s) a with Some i => _ | None => _ end); cbn [andb]; [|done].
      unfold modify, invoke_agent_cb. cbn. destruct (objects s !! a) as [obj|]; [|done]. by destruct (ob_cb obj). }
    rewrite (bind_after _ _ _ _ _ E). destruct (IH s1) as (h & E2 & S2). exists h. rewrite E2.
    assert (shost s1 = h1 /\ objects s1 = objects s /\ local_agent_store s1 = local_agent_store s /\ current_url s1 = current_url s) as (Eh & Eo & El & Eu).
    { unfold s1. by destruct (due cutoff s a). }
    rewrite Eh in S2. destruct S1 as (P1 & A1 & B1 & C1), S2 as (P2 & A2 & B2 & C2). split.
    + assert (List.filter (due cutoff s1) l = List.filter (due cutoff s) l) as ->.
      { apply List.filter_ext. intros x. unfold due. by rewrite Eo, Eh, P1. }
      f_equal. unfold set_updates, set_shost. cbn. rewrite Eo, El, Eu. f_equal.
      unfold s1. destruct (due cutoff s a); cbn; [by rewrite <- app_assoc|done].
    + split; [intros x; by rewrite P2, P1|]. split; [intros x; by rewrite A2, A1|]. split; congruence.
Qed.

Lemma check_spec config now s : exists h,
  check_agent_infos config now s =
    (Ok tt, set_updates (updates s ++
       List.filter (due (ts_add now (from_millis (re_sign_expire_time_ms config))) s) (elements (local_agent_store s)))
       (set_shost h s)) /\ same_host (shost s) h.
Proof. apply check_loop. Qed.

Lemma run_update_inv now a s s' : run_update signer space_id now a s = (Ok tt, s') ->
  s' = s \/ exists obj r, objects s !! a = Some obj /\ announce r s = (Ok tt, s') /\
    forall i, r = Ok i -> ai_agent i = la_agent (ob_agent obj).
Proof.
  unfold run_update. destruct (current_url s) as [url|]; [|intros [= <-]; by left].
  destruct (objects s !! a) as [obj|]; [|intros [= <-]; by left].
  intros E. right. exists obj, (sign (signer a) (update_info space_id now url (ob_agent obj))).
  split; [done|]. split; [done|]. intros i Ei. by rewrite (sign_agent _ _ _ Ei).
Qed.

Lemma gone_announce id tomb r s s' : announce r s = (Ok tt, s') ->
  (forall i, r = Ok i -> ai_agent i <> id) -> gone id tomb s -> gone id tomb s'.
Proof.
  intros E Hne [F L C U P]. apply announce_frame in E as ((Eu & Eo & El & Ep) & _ & Hp).
  split.
  - intros x obj. rewrite Eo. apply F.
  - by rewrite El.
  - intros obj. rewrite Eo. apply C.
  - by rewrite Ep.
  - by rewrite Hp.
Qed.

Lemma gone_leave id tomb now a s s' : local_agent_leave signer space_id now a s = (Ok tt, s') ->
  gone id tomb s -> gone id tomb s'.
Proof.
  unfold local_agent_leave. case_bool_decide as Hin; [|by intros [= <-]]. intros E Hg.
  assert (a <> id) as Hne by (intros ->; by apply (gn_store _ _ _ Hg)).
  eapply gone_announce; [exact E| |].
  - intros i Ei. rewrite (sign_agent _ _ _ Ei). exact Hne.
  - destruct Hg as [F L C U P]. split; unfold filed; cbn; try done.
    + intros x obj Hx. apply lookup_alter_Some in Hx as [(<- & o & Ho & ->)|[_ Ho]]; [exact (F _ _ Ho)|by apply F].
    + set_solver.
    + intros obj. rewrite lookup_alter_ne by done. apply C.
Qed.

Lemma gone_step id tomb s s' : space_step id s s' -> gone id tomb s -> gone id tomb s'.
Proof.
  intros [x agent x' Hne E|x now a x' E|x now a rest x' Hu E|x config now x' E|x u x' E|x a f Hf|x a|x h Hh] Hg.
  - unfold local_agent_join in E. injection E as <-. apply gone_invoke.
    destruct Hg as [F L C U P]. split; unfold filed; cbn; try done.
    + intros y obj [[<- <-]|[_ Hy]]%lookup_insert_Some; [done|by apply F].
    + set_solver.
    + intros obj. rewrite lookup_insert_ne by done. apply C.
  - by eapply gone_leave.
  - assert (a <> id) as Hne.
    { intros ->. apply (gn_updates _ _ _ Hg). rewrite Hu. by left. }
    assert (gone id tomb (set_updates rest x)) as Hg'.
    { destruct Hg as [F L C U P]. split; try done. cbn. intros Hin. apply U. rewrite Hu. by right. }
    apply run_update_inv in E as [->|(obj & r & Ho & E & Hr)]; [done|].
    eapply gone_announce; [exact E| |exact Hg']. intros i Ei. rewrite (Hr i Ei), (gn_filed _ _ _ Hg a obj Ho). done.
  - destruct (check_spec config now x) as (h & Ec & (Hp & _)). rewrite E in Ec. injection Ec as ->.
    assert (gone id tomb (set_shost h x)) as [F L C U P] by (apply gone_host; [apply Hp|done]).
    split; try done. cbn. rewrite elem_of_app. intros [Hin|Hin]; [done|].
    apply list_elem_of_In, filter_In in Hin as [_ Hdue]. unfold due in Hdue. apply andb_true_iff in Hdue as [_ Hdue].
    destruct (objects x !! id) as [obj|] eqn:Eo; [|done]. by rewrite (C obj Eo) in Hdue.
  - unfold new_url in E. injection E as <-. apply gone_invokes. destruct Hg as [F L C U P]. by split.
  - destruct Hg as [F L C U P]. split; unfold filed; cbn; try done.
    + intros y obj Hx. apply lookup_alter_Some in Hx as [(<- & o & Ho & ->)|[_ Ho]]; [|by apply F].
      cbn. rewrite Hf. by apply F.
    + intros obj Hx. apply lookup_alter_Some in Hx as [(-> & o & Ho & ->)|[_ Ho]]; [|by apply C]. by apply (C o).
  - by apply gone_invoke.
  - by apply gone_host.
Qed.

(** Leaving: the tombstone replaces what was stored before. *)
Lemma leave_spec now id tomb s :
  filed s -> id ∈ local_agent_store s -> (id ∉ updates s) ->
  sign (signer id) (tombstone_info space_id now id) = Ok tomb -> accepts (shost s) tomb = true ->
  (forall o, peer_of (shost s) id = Some o -> ai_created_at o < now) ->
  exists s', local_agent_leave signer space_id now id s = (Ok tt, s') /\ gone id tomb s' /\
    current_url s' = current_url s /\ put_infos (shost s') = put_infos (shost s) ++ [tomb] /\
    forall j u, remote s' j -> ai_url j = Some u -> (tomb, u) ∈ published (shost s').
Proof.
  intros Hf Hin Hup Hs Hacc Hold. unfold local_agent_leave. rewrite bool_decide_eq_true_2 by done. rewrite Hs.
  set (s1 := set_objects _ _). destruct (announce_spec tomb s1) as (h & l & E & P & A & Pt & Pb & Hnd & Hl).
  exists (set_shost h s1). split; [exact E|]. split_and!; [|done|exact Pt|].
  - split; unfold filed; cbn; try done.
    + intros x obj Hx. apply lookup_alter_Some in Hx as [(<- & o & Ho & ->)|[_ Ho]]; [exact (Hf _ _ Ho)|by apply Hf].
    + set_solver.
    + intros obj Hx. apply lookup_alter_Some in Hx as [(_ & o & Ho & ->)|[? _]]; [done|congruence].
    + rewrite P. assert (ai_agent tomb = id) as Ea by by rewrite (sign_agent _ _ _ Hs).
      rewrite decide_True by done. unfold inserted. change (shost s1) with (shost s). rewrite Hacc.
      f_equal. unfold newer. destruct (peer_of (shost s) id) as [o|] eqn:Eo; [|done].
      assert (ai_created_at tomb = now) as -> by by rewrite (sign_agent _ _ _ Hs).
      specialize (Hold o eq_refl). destruct (Z.leb_spec now (ai_created_at o)); [lia|done].
  - intros j u Hj Hu. cbn. rewrite Pb. apply elem_of_app. right. apply list_elem_of_fmap. exists u. split; [done|].
    apply list_elem_of_omap. exists j. split; [by apply Hl|done].
Qed.

(** C23: An agent that leaves while no update of its info is under way is gone:
    its tombstone is put to the bootstrap server and sent to every remote peer,
    and whatever its space does from then on (other agents joining and leaving,
    new addresses, arcs, re-signing) the tombstone stays, until it joins again. *)
Theorem left_stays_left now id tomb s :
  filed s -> id ∈ local_agent_store s -> (id ∉ updates s) ->
  sign (signer id) (tombstone_info space_id now id) = Ok tomb -> accepts (shost s) tomb = true ->
  (forall o, peer_of (shost s) id = Some o -> ai_created_at o < now) ->
  exists s', local_agent_leave signer space_id now id s = (Ok tt, s') /\
    put_infos (shost s') = put_infos (shost s) ++ [tomb] /\
    (forall j u, remote s' j -> ai_url j = Some u -> (tomb, u) ∈ published (shost s')) /\
    forall s'', rtc (space_step id) s' s'' ->
      peer_of (shost s'') id = Some tomb /\ (id ∉ local_agent_store s'') /\ (id ∉ updates s'').
Proof.
  intros Hf Hin Hup Hs Hacc Hold.
  destruct (leave_spec now id tomb s Hf Hin Hup Hs Hacc Hold) as (s' & E & Hg & _ & Hput & Hpub).
  exists s'. split_and!; try done. intros s'' Hrun.
  assert (gone id tomb s'') as [F L C U P]; [|by split_and!].
  clear - Hrun Hg. induction Hrun as [|x y z Hxy _ IH]; [done|]. apply IH. by eapply gone_step.
Qed.

(** An update that was spawned before an agent left and runs after it brings
    the agent back: its info is stored over the tombstone and sent to every
    remote peer as alive at our address. *)
Theorem late_update_undoes_leave t1 t2 id obj url tomb live rest s :
  filed s -> id ∈ local_agent_store s -> objects s !! id = Some obj -> current_url s = Some url ->
  updates s ≡ₚ id :: rest -> (id ∉ rest) -> t1 < t2 ->
  sign (signer id) (tombstone_info space_id t1 id) = Ok tomb ->
  sign (signer id) (update_info space_id t2 url (ob_agent obj)) = Ok live ->
  accepts (shost s) tomb = true -> accepts (shost s) live = true ->
  (forall o, peer_of (shost s) id = Some o -> ai_created_at o < t1) ->
  exists s1 s2, local_agent_leave signer space_id t1 id s = (Ok tt, s1) /\
    run_update signer space_id t2 id (set_updates rest s1) = (Ok tt, s2) /\
    (id ∉ local_agent_store s2) /\ peer_of (shost s2) id = Some live /\ ai_is_tombstone live = false /\
    forall j u, remote s2 j -> ai_url j = Some u -> (live, u) ∈ published (shost s2).
Proof.
  intros Hf Hin Hobj Hurl Hu Hrest Ht Hs1 Hs2 Ha1 Ha2 Hold.
  unfold local_agent_leave. rewrite bool_decide_eq_true_2 by done. rewrite Hs1.
  set (s0 := set_objects _ _). destruct (announce_spec tomb s0) as (h & l & E & P & A & _).
  exists (set_shost h s0).
  set (sa := set_updates rest (set_shost h s0)).
  assert (objects sa !! id = Some (MkObj (ob_agent obj) DummyCb)) as Ho.
  { cbn. by rewrite lookup_alter_eq, Hobj. }
  destruct (announce_spec live sa) as (h2 & l2 & E2 & P2 & _ & _ & Pb & _ & Hl2).
  exists (set_shost h2 sa). split; [exact E|]. split; [|split; [|split; [|split]]].
  - unfold run_update. rewrite Ho. change (current_url sa) with (current_url s). rewrite Hurl. cbn [ob_agent].
    by rewrite Hs2.
  - cbn. set_solver.
  - cbn. assert (ai_agent tomb = id) as Et by by rewrite (sign_agent _ _ _ Hs1).
    assert (agent_info live = update_info space_id t2 url (ob_agent obj)) as El by by apply (sign_agent _ _ _ Hs2).
    rewrite P2. rewrite El. cbn [ai_agent update_info]. rewrite (Hf _ _ Hobj), decide_True by done.
    change (shost sa) with h. rewrite A. change (shost s0) with (shost s). rewrite Ha2. unfold inserted, newer.
    rewrite P, Et, decide_True by done. change (shost s0) with (shost s). unfold inserted. rewrite Ha1.
    assert (ai_created_at live = t2) as -> by by rewrite El.
    assert (newer (peer_of (shost s) id) tomb = tomb) as ->.
    { unfold newer. destruct (peer_of (shost s) id) as [o|] eqn:Eo; [|done].
      assert (ai_created_at tomb = t1) as -> by by rewrite (sign_agent _ _ _ Hs1).
      specialize (Hold o eq_refl). destruct (Z.leb_spec t1 (ai_created_at o)); [lia|done]. }
    assert (ai_created_at tomb = t1) as -> by by rewrite (sign_agent _ _ _ Hs1).
    destruct (Z.leb_spec t2 t1); [lia|done].
  - by rewrite (sign_agent _ _ _ Hs2).
  - intros j u Hj Hju. cbn. rewrite Pb. apply elem_of_app. right. apply list_elem_of_fmap. exists u. split; [done|].
    apply list_elem_of_omap. exists j. split; [by apply Hl2|done].
Qed.

(** ** Re-signing *)

(** A local agent's info is good beyond a time. *)
Definition fresh (cutoff : Timestamp) (h : H) (id : AgentId) : Prop :=
  exists i, peer_of h id = Some i /\ cutoff < ai_expires_at i.

(** The infos of our agents live as long as we sign them for. *)
Definition own_infos (ids : gset (list Z)) (h : H) : Prop :=
  forall id o, id ∈ ids -> peer_of h id = Some o -> ai_expires_at o = ai_created_at o + TWENTY_MINUTES.

Section resign.
Variables (now' cutoff : Timestamp) (url : Url).
Hypothesis now_ok : 0 <= now' < 2 ^ 62.
Hypothesis in_time : cutoff < now' + TWENTY_MINUTES.

(** Every local agent can be updated: it has its callback, signing works and the
    peer store takes what is signed. *)
Definition updatable (h : H) (obj : gmap (list Z) AgentObj) (id : AgentId) : Prop :=
  exists o live, obj !! id = Some o /\ ob_cb o = UpdateCb /\
    sign (signer id) (update_info space_id now' url (ob_agent o)) = Ok live /\ accepts h live = true.

Lemma run_update_fresh a s : filed s -> current_url s = Some url -> updatable (shost s) (objects s) a ->
  own_infos (local_agent_store s) (shost s) -> a ∈ local_agent_store s ->
  exists h, run_update signer space_id now' a s = (Ok tt, set_shost h s) /\
    (forall j, accepts h j = accepts (shost s) j) /\ own_infos (local_agent_store s) h /\
    fresh cutoff h a /\ forall x, fresh cutoff (shost s) x -> fresh cutoff h x.
Proof using now_ok in_time.
  intros Hf Hu (o & live & Ho & _ & Hs & Ha) Hown Hin. unfold run_update. rewrite Hu, Ho, Hs.
  destruct (announce_spec live s) as (h & l & E & P & A & _). exists h. split; [exact E|]. split; [exact A|].
  pose proof (sign_agent _ _ _ Hs) as El.
  assert (ai_expires_at live = now' + TWENTY_MINUTES /\ ai_created_at live = now' /\ ai_agent live = a) as (Hex & Hcr & Hag).
  { rewrite El. cbn. split; [|split; [done|by apply Hf]]. apply ts_add_exact; [lia|vm_compute; done|].
    change TWENTY_MINUTES with 1200000000. lia. }
  assert (forall x, x <> a -> peer_of h x = peer_of (shost s) x) as Hother.
  { intros x Hx. rewrite P, decide_False; [done|]. by rewrite Hag. }
  assert (peer_of h a = Some (newer (peer_of (shost s) a) live)) as Ha'.
  { rewrite P, decide_True by done. unfold inserted. by rewrite Ha. }
  assert (fresh cutoff h a /\ forall o', peer_of h a = Some o' -> ai_expires_at o' = ai_created_at o' + TWENTY_MINUTES) as [Hfa Hoa].
  { rewrite Ha'. unfold fresh. rewrite Ha'. unfold newer.
    destruct (peer_of (shost s) a) as [old|] eqn:Eold.
    - destruct (Z.leb_spec (ai_created_at live) (ai_created_at old)).
      + split; [exists old|by intros ? [= <-]; apply (Hown a)]. split; [done|].
        rewrite (Hown a old Hin Eold). lia.
      + split; [exists live; split; [done|lia]|]. intros ? [= <-]. by rewrite Hex, Hcr.
    - split; [exists live; split; [done|lia]|]. intros ? [= <-]. by rewrite Hex, Hcr. }
  split_and!; [|done|].
  - intros x o' Hx. destruct (decide (x = a)) as [->|Hne]; [apply Hoa|]. rewrite Hother by done. by apply Hown.
  - intros x Hx. destruct (decide (x = a)) as [->|Hne]; [done|]. unfold fresh. by rewrite Hother.
Qed.

Lemma run_updates_fresh ids s : filed s -> current_url s = Some url ->
  (forall a, a ∈ ids -> a ∈ local_agent_store s /\ updatable (shost s) (objects s) a) ->
  own_infos (local_agent_store s) (shost s) ->
  exists h, for_each ids (run_update signer space_id now') s = (Ok tt, set_shost h s) /\
    forall x, fresh cutoff (shost s) x \/ x ∈ ids -> fresh cutoff h x.
Proof using now_ok in_time.
  revert s. induction ids as [|a ids IH]; intros s Hf Hu Hup Hown.
  - exists (shost s). split; [by destruct s|]. intros x [?|?%elem_of_nil]; done.
  - destruct (Hup a ltac:(left)) as [Hin Hua].
    destruct (run_update_fresh a s Hf Hu Hua Hown Hin) as (h1 & E1 & A1 & O1 & F1 & K1).
    destruct (IH (set_shost h1 s)) as (h & E & Hx); [done|done| |done|].
    + intros b Hb. destruct (Hup b ltac:(by right)) as [Hbin (o & live & ? & ? & ? & Hacc)].
      split; [done|]. exists o, live. split_and!; try done. cbn. by rewrite A1.
    + exists h. cbn [for_each]. rewrite (bind_after _ _ _ _ _ E1), E. split; [done|].
      intros x [Hfx|[->|Hin']%elem_of_cons]; apply Hx; [left; by apply K1|by left|by right].
Qed.
End resign.

(** A turn of the re-sign task keeps the infos of local agents alive: once
    the updates it spawns have run, the info of every local agent is good for
    longer than the configured time from the turn on, so that the next turn
    finds it unexpired. *)
Theorem check_keeps_infos_fresh config now now' url s :
  let window := from_millis (re_sign_expire_time_ms config) in
  0 <= window < TWENTY_MINUTES -> 0 <= now <= now' -> now' < 2 ^ 62 ->
  filed s -> current_url s = Some url -> updates s = [] ->
  own_infos (local_agent_store s) (shost s) ->
  (forall id, id ∈ local_agent_store s -> updatable now' url (shost s) (objects s) id) ->
  exists s1 s2, check_agent_infos config now s = (Ok tt, s1) /\
    for_each (updates s1) (run_update signer space_id now') s1 = (Ok tt, s2) /\
    forall id, id ∈ local_agent_store s -> fresh (now + window) (shost s2) id.
Proof.
  intros window Hw Hn Hn' Hf Hu He Hown Hup. destruct (check_spec config now s) as (h & E & (P & A & _)).
  fold window in E. rewrite He in E. cbn [app] in E.
  assert (ts_add now window = now + window) as Ets.
  { apply ts_add_exact; [lia|lia|]. change TWENTY_MINUTES with 1200000000 in Hw. lia. }
  rewrite Ets in E.
  set (ids := List.filter (due (now + window) s) (elements (local_agent_store s))) in *.
  set (s1 := set_updates ids (set_shost h s)) in *.
  destruct (run_updates_fresh now' (now + window) url ltac:(lia) ltac:(lia) ids s1 Hf Hu) as (h2 & E2 & Hfresh).
  - intros a Ha. assert (a ∈ local_agent_store s) as Hin.
    { apply list_elem_of_In, filter_In in Ha as [Ha _]. apply elem_of_elements. by apply list_elem_of_In. }
    split; [done|]. destruct (Hup a Hin) as (o & live & ? & ? & ? & Hacc). exists o, live.
    split_and!; try done. change (shost s1) with h. by rewrite A.
  - intros id o Hid. change (shost s1) with h. rewrite P. by apply Hown.
  - exists s1, (set_shost h2 s1). split; [exact E|]. split; [exact E2|]. intros id Hid. apply Hfresh.
    destruct (due (now + window) s id) eqn:Ed.
    + right. apply list_elem_of_In, filter_In. split; [|done]. apply list_elem_of_In. by apply elem_of_elements.
    + left. change (shost s1) with h. unfold fresh. rewrite P. unfold due in Ed.
      destruct (Hup id Hid) as (o & live & Ho & Hcb & _). rewrite Ho, Hcb, andb_true_r in Ed.
      destruct (peer_of (shost s) id) as [i|]; [|done]. exists i. split; [done|]. by apply Z.leb_gt.
Qed.
End space.

(** ** The credential *)

Fixpoint slashes (n : nat) : string :=
  match n with O => EmptyString | S n => String "/"%char (slashes n) end.

Lemma trim_slashes n : trim_end_slashes (slashes n) = EmptyString.
Proof. induction n as [|n IH]; [done|]. cbn. by rewrite IH. Qed.

Lemma trim_app t n : trim_end_slashes (String.append t (slashes n)) = trim_end_slashes t.
Proof.
  induction t as [|c t IH]; [apply trim_slashes|].
  change (trim_end_slashes (String c (String.append t (slashes n))) = trim_end_slashes (String c t)).
  cbn [trim_end_slashes]. by rewrite IH.
Qed.

Lemma trim_decomp s : exists n, s = String.append (trim_end_slashes s) (slashes n).
Proof.
  induction s as [|c s [n IH]]; [by exists 0%nat|]. cbn.
  destruct (trim_end_slashes s) as [|c' t] eqn:E.
  - case_bool_decide as Hc; cbn in IH; rewrite IH.
    + exists (S n). by rewrite Hc.
    + by exists n.
  - exists n. by rewrite IH at 1.
Qed.

(** A space that overrides its configuration keeps the global credential of
    the bootstrap server exactly if there is no global server, or no server of
    its own, or both are the same but for trailing slashes. *)
Theorem credential_kept_iff global space auth :
  space_auth_material global (Some space) (Some auth) = Some auth <->
  global = None \/ space = None \/
  exists t n m, global = Some (String.append t (slashes n)) /\ space = Some (String.append t (slashes m)).
Proof.
  unfold space_auth_material, bootstrap_server_customized.
  destruct global as [g|]; [|split; [by left|done]]. destruct space as [u|]; [|split; [by right; left|done]].
  case_bool_decide as E; cbn; split; try done.
  - intros _. right; right. destruct (trim_decomp g) as [n Hg], (trim_decomp u) as [m Hu].
    exists (trim_end_slashes g), n, m. rewrite <- Hg. split; [done|]. by rewrite <- E, <- Hu.
  - intros [?|[?|(t & n & m & [= ->] & [= ->])]]; [done..|]. destruct E. by rewrite !trim_app.
Qed.
