(* ===== verification/SpaceDemo.v ===== *)
(** A space over a small host, and the theorems on spaces applied to it. *)

From stdpp Require Import relations.
From S2P Require Import Prelude Arc Timestamp Id Agent Combine OpStore PeerMeta PeerStore.
From S2P Require Import Agent GossipWire GossipNode CoreFetch Space SpaceProps.

(** The clock, the infos taken (the last first), and what was published and
    put. *)
Record SpaceMem : Type := MkSpaceMem {
  sm_now : Z;
  sm_taken : list AgentInfoSigned;
  sm_published : list (AgentInfoSigned * Url);
  sm_put : list AgentInfoSigned;
}.

Definition info_of (l : list AgentInfoSigned) (a : AgentId) : option AgentInfoSigned :=
  List.find (fun i : AgentInfoSigned => bool_decide (ai_agent i = a)) l.

Definition all_infos (l : list AgentInfoSigned) : list AgentInfoSigned :=
  omap (info_of l) (remove_dups (map (fun i : AgentInfoSigned => ai_agent i) l)).

Definition take_info (now : Z) (l : list AgentInfoSigned) (i : AgentInfoSigned) : list AgentInfoSigned :=
  if now <=? ai_expires_at i then newer (info_of l (ai_agent i)) i :: l else l.

Definition read {A} (f : list AgentInfoSigned -> A) : M SpaceMem A := fun h => (Ok (f (sm_taken h)), h).
Definition set_taken (f : Z -> list AgentInfoSigned -> list AgentInfoSigned) : M SpaceMem unit := fun h =>
  (Ok tt, MkSpaceMem (sm_now h) (f (sm_now h) (sm_taken h)) (sm_published h) (sm_put h)).

#[export] Instance sm_store : GossipNode.PeerStore SpaceMem := {|
  ps_insert l := set_taken (fun now taken => foldl (take_info now) taken l);
  ps_remove a := set_taken (fun _ => List.filter (fun i : AgentInfoSigned => negb (bool_decide (ai_agent i = a))));
  ps_get a := read (fun l => info_of l a);
  ps_get_all := read all_infos;
  ps_get_by_overlapping_storage_arc arc :=
    read (fun l => List.filter (fun i : AgentInfoSigned => overlaps arc (ai_storage_arc i)) (all_infos l));
  ps_get_near_location _ limit := read (fun l => take limit (all_infos l));
  ps_get_by_url u := read (fun l => List.filter (fun i : AgentInfoSigned => bool_decide (ai_url i = Some u)) (all_infos l));
|}.

#[export] Instance sm_publish : Publish SpaceMem := {|
  ps_publish_agent i u := modify (fun h => MkSpaceMem (sm_now h) (sm_taken h) (sm_published h ++ [(i, u)]) (sm_put h));
|}.
#[export] Instance sm_bootstrap : Bootstrap SpaceMem := {|
  bs_put i := modify (fun h => MkSpaceMem (sm_now h) (sm_taken h) (sm_published h) (sm_put h ++ [i]));
|}.

Lemma info_of_agent l a i : info_of l a = Some i -> ai_agent i = a.
Proof. intros Hi. apply List.find_some in Hi as [_ Hi]. by apply bool_decide_eq_true in Hi. Qed.

Lemma newer_agent l (i : AgentInfoSigned) : ai_agent (newer (info_of l (ai_agent i)) i) = ai_agent i.
Proof.
  unfold newer. destruct (info_of l (ai_agent i)) as [o|] eqn:E; [|done].
  destruct (_ <=? _); [by apply info_of_agent in E|done].
Qed.

Lemma elem_of_all_infos l (i : AgentInfoSigned) : i ∈ all_infos l <-> info_of l (ai_agent i) = Some i.
Proof.
  unfold all_infos. rewrite list_elem_of_omap. split.
  - intros (a & _ & Hi). by rewrite (info_of_agent _ _ _ Hi).
  - intros Hi. exists (ai_agent i). split; [|done]. apply elem_of_remove_dups, list_elem_of_fmap.
    exists i. split; [done|]. apply List.find_some in Hi as [Hi _]. by apply list_elem_of_In.
Qed.

Lemma NoDup_all_infos l : NoDup (all_infos l).
Proof.
  unfold all_infos. pose proof (NoDup_remove_dups (map (fun i : AgentInfoSigned => ai_agent i) l)) as Hnd.
  induction Hnd as [|a ids Hni _ IH]; cbn; [constructor|].
  destruct (info_of l a) as [i|] eqn:E; [|done]. constructor; [|done].
  intros (b & Hb & Eb)%list_elem_of_omap. apply info_of_agent in E, Eb. congruence.
Qed.

#[export] Program Instance sm_space_host : SpaceHost SpaceMem := {|
  peer_of h := info_of (sm_taken h);
  accepts h i := sm_now h <=? ai_expires_at i;
  published := sm_published;
  put_infos := sm_put;
|}.
Next Obligation.
  intros i h. eexists. split; [reflexivity|]. split; [|done]. intros a. cbn. unfold take_info.
  destruct (sm_now h <=? ai_expires_at i); cbn; [|by case_decide].
  rewrite newer_agent. destruct (decide (a = ai_agent i)) as [->|Hne].
  - by rewrite bool_decide_eq_true_2.
  - by rewrite bool_decide_eq_false_2.
Qed.
Next Obligation. intros i h. eexists. split; [reflexivity|]. done. Qed.
Next Obligation. intros i u h. eexists. split; [reflexivity|]. done. Qed.
Next Obligation. intros a h. eexists. split; [reflexivity|]. done. Qed.
Next Obligation.
  intros h. eexists _, _. split; [reflexivity|]. split; [done|].
  split; [apply NoDup_all_infos|]. intros i. apply elem_of_all_infos.
Qed.

(** ** The theorems applied *)

(** Infos are written as nothing, and signed with nothing. *)
#[local] Instance blank_json : AgentJson := {|
  info_to_json _ := Some EmptyString;
  info_from_json _ := None;
  ref_to_json _ := None;
  ref_from_json _ := None;
  ref_list_from_json _ := None;
  verify _ _ _ := true;
|}.

Definition no_signer : AgentId -> AgentInfo -> string -> res bytes := fun _ _ _ => Ok [].

Definition plain (id : Z) (created : Timestamp) (url : option Url) : AgentInfoSigned :=
  MkAgentInfoSigned (MkAgentInfo [id] [0] created (created + TWENTY_MINUTES) false url Empty) "" [].

(** A space at "us" with one local agent, which was announced at 100, and a
    remote agent at "them". *)
Definition demo_agent : LocalAgent := MkLocalAgent [1] Empty Empty.
Definition joined (pending : list AgentId) : CoreSpace SpaceMem :=
  MkSpace (Some "us"%string) {[ [1] := MkObj demo_agent UpdateCb ]} {[ [1] ]} pending
    (MkSpaceMem 1000 [plain 2 50 (Some "them"%string); plain 1 100 (Some "us"%string)] [] []).

Lemma joined_filed pending : filed (joined pending).
Proof. intros id obj Hx. cbn in Hx. by apply lookup_singleton_Some in Hx as [<- <-]. Qed.

Lemma joined_local pending : [1] ∈ local_agent_store (joined pending).
Proof. cbn. by apply elem_of_singleton. Qed.

Definition demo_tomb (now : Timestamp) : AgentInfoSigned :=
  MkAgentInfoSigned (tombstone_info [0] now [1]) "" [].

Lemma left_stays_left_witness : exists s',
  local_agent_leave no_signer [0] 2000 [1] (joined []) = (Ok tt, s') /\
  put_infos (shost s') = [demo_tomb 2000] /\ (demo_tomb 2000, "them"%string) ∈ published (shost s') /\
  forall s'', rtc (space_step no_signer [0] [1]) s' s'' -> peer_of (shost s'') [1] = Some (demo_tomb 2000).
Proof.
  destruct (left_stays_left no_signer [0] 2000 [1] (demo_tomb 2000) (joined []))
    as (s' & E & Hput & Hpub & Hrun); [apply joined_filed|apply joined_local|by intros ?%elem_of_nil|reflexivity|reflexivity| |].
  - intros o. vm_compute. by intros [= <-].
  - exists s'. split; [exact E|]. split; [exact Hput|]. split; [|intros s'' Hs; apply (Hrun s'' Hs)].
    apply (Hpub (plain 2 50 (Some "them"%string))); [|reflexivity].
    assert (s' = (local_agent_leave no_signer [0] 2000 [1] (joined [])).2) as -> by by rewrite E.
    split; [vm_compute; reflexivity|]. apply (bool_decide_eq_true_1 _). vm_compute. done.
Defined.

(** The update that its join spawned has not run yet when it leaves. *)
Definition demo_live (now : Timestamp) : AgentInfoSigned :=
  MkAgentInfoSigned (update_info [0] now "us" demo_agent) "" [].

Lemma late_update_undoes_leave_witness : exists s1 s2,
  local_agent_leave no_signer [0] 2000 [1] (joined [[1]]) = (Ok tt, s1) /\
  run_update no_signer [0] 3000 [1] (set_updates [] s1) = (Ok tt, s2) /\
  peer_of (shost s2) [1] = Some (demo_live 3000) /\ ai_is_tombstone (demo_live 3000) = false.
Proof.
  destruct (late_update_undoes_leave no_signer [0] 2000 3000 [1] (MkObj demo_agent UpdateCb) "us"
    (demo_tomb 2000) (demo_live 3000) [] (joined [[1]])) as (s1 & s2 & E1 & E2 & _ & Hp & Ht & _).
  - apply joined_filed.
  - apply joined_local.
  - reflexivity.
  - reflexivity.
  - reflexivity.
  - by intros ?%elem_of_nil.
  - reflexivity.
  - reflexivity.
  - reflexivity.
  - reflexivity.
  - reflexivity.
  - intros o. vm_compute. by intros [= <-].
  - by exists s1, s2.
Defined.

(** A turn of the task long after the info was signed. *)
Definition late : Timestamp := 1000000000.

Lemma check_keeps_infos_fresh_witness : exists s1 s2,
  check_agent_infos default_space_config late (joined []) = (Ok tt, s1) /\
  for_each (updates s1) (run_update no_signer [0] (late + 5)) s1 = (Ok tt, s2) /\
  fresh (late + 300000000) (shost s2) [1].
Proof.
  destruct (check_keeps_infos_fresh no_signer [0] default_space_config late (late + 5) "us" (joined []))
    as (s1 & s2 & E1 & E2 & Hf).
  - vm_compute. split; [discriminate|reflexivity].
  - vm_compute. split; discriminate.
  - vm_compute. reflexivity.
  - apply joined_filed.
  - reflexivity.
  - reflexivity.
  - intros id o Hid. cbn in Hid. apply elem_of_singleton in Hid as ->. vm_compute. by intros [= <-].
  - intros id Hid. cbn in Hid. apply elem_of_singleton in Hid as ->. exists (MkObj demo_agent UpdateCb), (demo_live (late + 5)).
    split; [reflexivity|]. split; [reflexivity|]. split; vm_compute; reflexivity.
  - exists s1, s2. split; [exact E1|]. split; [exact E2|]. apply (Hf [1]). apply joined_local.
Defined.
