(* ===== verification/SrvStore.v ===== *)
(** * The entry store of the bootstrap server

    [bootstrap_srv/src/store.rs]: entries are appended to temporary files; a
    file that has grown to the limit is not written any more.  A worker thread
    takes a writer out of the pool, writes without the lock of the pool, and
    gives the writer back, so writes interleave as the steps [store_step].
    A file lives as long as a reference to it is held and is not read
    otherwise, so files are never removed here. *)
From S2P Require Import Prelude Id.

Definition MAX_PER_TEMPFILE : Z := 1024 * 1024 * 10.

(** A file handle of its own, with its position, on the file that references
    read. *)
Record Writer : Type := MkWriter { read_clone : nat; stream_position : nat }.

Record StoreEntryRef : Type := MkRef { ref_file : nat; offset : nat; ref_len : nat }.

Record Store : Type := MkStore { files : list bytes; writer_pool : list Writer }.

Definition store_default : Store := MkStore [] [].

(** What the file system makes of a write: a write that fails has written a
    part of the data. *)
Inductive FsOutcome : Type :=
  | FsOk
  | CreateFails
  | PositionFails
  | WriteFails (written : nat)
  | SyncFails.

#[global] Instance FsOutcome_eq_dec : EqDecision FsOutcome.
Proof. solve_decision. Defined.

Definition write_at (pos : nat) (data file : bytes) : bytes :=
  take pos file ++ data ++ drop (pos + length data) file.

(** A writer from the pool, or one on a new file. *)
Definition take_writer (fs : FsOutcome) : M Store Writer := fun s =>
  match writer_pool s with
  | writer :: pool => (Ok writer, MkStore (files s) pool)
  | [] =>
      if bool_decide (fs = CreateFails) then (Err "could not create the tempfile", s)
      else (Ok (MkWriter (length (files s)) 0), MkStore (files s ++ [[]]) [])
  end.

(** The write itself, without the lock of the pool: the reference to the new
    entry, and the writer after it. *)
Definition write_content (fs : FsOutcome) (writer : Writer) (content : bytes)
  : M Store (StoreEntryRef * Writer) := fun s =>
  let write data := MkStore (alter (write_at (stream_position writer) data) (read_clone writer) (files s))
                      (writer_pool s) in
  match fs with
  | PositionFails => (Err "could not get the position", s)
  | WriteFails n => (Err "could not write the entry", write (take n content))
  | SyncFails => (Err "could not sync the entry", write content)
  | _ =>
      (Ok (MkRef (read_clone writer) (stream_position writer) (length content),
           MkWriter (read_clone writer) (stream_position writer + length content)), write content)
  end.

(** A writer goes back to the pool unless its file is full. *)
Definition return_writer (writer : Writer) : M Store unit := fun s =>
  (Ok tt,
   if Z.of_nat (stream_position writer) <? MAX_PER_TEMPFILE
   then MkStore (files s) (writer_pool s ++ [writer]) else s).

(** [Store::write] when no other thread writes in between. *)
Definition store_write (fs : FsOutcome) (content : bytes) : M Store StoreEntryRef :=
  let* writer := take_writer fs in
  let* (r, writer) := write_content fs writer content in
  return_writer writer ;;* ret r.

(** [StoreEntryRef::read], the bytes it adds to the buffer: exactly [len] of
    them or an error. *)
Definition ref_read (s : Store) (r : StoreEntryRef) : res bytes :=
  match files s !! ref_file r with
  | None => Err "no such file"
  | Some file =>
      let data := take (ref_len r) (drop (offset r) file) in
      if bool_decide (length data = ref_len r) then Ok data else Err "failed to fill whole buffer"
  end.

(** ** Writes of several threads

    Each thread that writes holds a writer of its own from [take_writer] to
    [return_writer]. *)
Record StoreRun : Type := MkStoreRun {
  store : Store;
  writing : list (Writer * bytes);
  returning : list Writer;
  issued : list (StoreEntryRef * bytes);
}.

Inductive store_step : StoreRun -> StoreRun -> Prop :=
  | ss_take fs s s' l l' out rs content w :
      take_writer fs s = (Ok w, s') -> l' ≡ₚ (w, content) :: l ->
      store_step (MkStoreRun s l out rs) (MkStoreRun s' l' out rs)
  | ss_write fs s s' l l' out out' rs w content r w' :
      l ≡ₚ (w, content) :: l' -> write_content fs w content s = (Ok (r, w'), s') ->
      out' ≡ₚ w' :: out ->
      store_step (MkStoreRun s l out rs) (MkStoreRun s' l' out' ((r, content) :: rs))
  | ss_write_fails fs s s' l l' out rs w content e :
      l ≡ₚ (w, content) :: l' -> write_content fs w content s = (Err e, s') ->
      store_step (MkStoreRun s l out rs) (MkStoreRun s' l' out rs)
  | ss_return s s' l out out' rs w :
      out ≡ₚ w :: out' -> return_writer w s = (Ok tt, s') ->
      store_step (MkStoreRun s l out rs) (MkStoreRun s' l out' rs).

(** ** What is written stays *)

Definition good_writer (s : Store) (w : Writer) : Prop :=
  exists file, files s !! read_clone w = Some file /\ stream_position w = length file.

Definition held_ok (s : Store) (ws : list Writer) : Prop :=
  NoDup (map read_clone (writer_pool s ++ ws)) /\ Forall (good_writer s) (writer_pool s ++ ws).

(** Every file of [s] is a beginning of the file in [s']. *)
Definition extends (s s' : Store) : Prop :=
  forall i file, files s !! i = Some file -> exists more, files s' !! i = Some (file ++ more).

Lemma extends_refl s : extends s s.
Proof. intros i file Hi. exists []. by rewrite app_nil_r. Qed.

Lemma extends_files s s' : files s' = files s -> extends s s'.
Proof. intros E i file Hi. exists []. by rewrite E, app_nil_r. Qed.

Lemma extends_trans s1 s2 s3 : extends s1 s2 -> extends s2 s3 -> extends s1 s3.
Proof.
  intros H12 H23 i file Hi. destruct (H12 i file Hi) as [m Hm]. destruct (H23 i _ Hm) as [m' Hm'].
  exists (m ++ m'). by rewrite app_assoc.
Qed.

Lemma read_extends s s' r b : extends s s' -> ref_read s r = Ok b -> ref_read s' r = Ok b.
Proof.
  unfold ref_read. intros He. destruct (files s !! ref_file r) as [file|] eqn:Hf; [|done].
  destruct (He _ _ Hf) as [more ->]. case_bool_decide as Hl; [|done]. intros [= <-].
  rewrite length_take, length_drop in Hl.
  assert (take (ref_len r) (drop (offset r) (file ++ more)) = take (ref_len r) (drop (offset r) file)) as E.
  { destruct (decide (ref_len r = 0%nat)) as [->|Hz]; [done|].
    rewrite drop_app_le, take_app_le by (rewrite ?length_drop; lia). done. }
  rewrite E, bool_decide_eq_true_2; [done|]. by rewrite length_take, length_drop.
Qed.

Lemma write_at_end file data : write_at (length file) data file = file ++ data.
Proof. unfold write_at. rewrite firstn_all, drop_ge, app_nil_r by lia. done. Qed.

Lemma held_perm s ws ws' : ws ≡ₚ ws' -> held_ok s ws -> held_ok s ws'.
Proof. intros E [N F]. split; by rewrite <- E. Qed.

Lemma held_drop s w ws : held_ok s (w :: ws) -> held_ok s ws.
Proof.
  intros [N F]. rewrite <- Permutation_middle in N, F. cbn in N. apply NoDup_cons in N as [_ N].
  apply Forall_cons in F as [_ F]. by split.
Qed.

Lemma take_writer_spec fs s ws r s' : held_ok s ws -> take_writer fs s = (r, s') ->
  extends s s' /\ match r with Ok w => held_ok s' (w :: ws) | Err _ => s' = s | Panic _ => False end.
Proof.
  intros [N F] E. unfold take_writer in E. destruct (writer_pool s) as [|w pool] eqn:Hp.
  - case_bool_decide; injection E as <- <-; [by split; [apply extends_refl|]|]. split.
    + intros i file Hi. exists []. rewrite app_nil_r. cbn. by apply lookup_app_l_Some.
    + split; cbn; cbn in N, F.
      * apply NoDup_cons. split; [|done]. intros Hin. apply list_elem_of_fmap in Hin as (w & Hw & Hin).
        rewrite Forall_forall in F. destruct (F w Hin) as (file & Hf & _). apply lookup_lt_Some in Hf. lia.
      * constructor.
        -- exists []. split; [|done]. cbn. by rewrite lookup_app_r, Nat.sub_diag by lia.
        -- eapply Forall_impl; [exact F|]. intros w (file & Hf & Hl). exists file. split; [|done].
           cbn. by apply lookup_app_l_Some.
  - injection E as <- <-. split; [by apply extends_files|].
    split; cbn [writer_pool]; rewrite <- Permutation_middle; [done|].
    eapply Forall_impl; [exact F|]. by intros x Hx.
Qed.

(** What a writer adds to its file, the other writers do not see. *)
Lemma append_spec s w ws data file : held_ok s (w :: ws) -> files s !! read_clone w = Some file ->
  let s' := MkStore (alter (write_at (stream_position w) data) (read_clone w) (files s)) (writer_pool s) in
  extends s s' /\ held_ok s' (MkWriter (read_clone w) (stream_position w + length data) :: ws) /\
  files s' !! read_clone w = Some (file ++ data).
Proof.
  intros [N F] Hfile s'. rewrite <- Permutation_middle in N, F. cbn in N. apply NoDup_cons in N as [Nw N].
  apply Forall_cons in F as [(file' & Hf' & Hl) F]. rewrite Hfile in Hf'. injection Hf' as <-.
  assert (files s' !! read_clone w = Some (file ++ data)) as Hw.
  { cbn. rewrite list_lookup_alter_eq, Hfile, Hl. cbn. by rewrite write_at_end. }
  split_and!; [..|done].
  - intros i f Hi. destruct (decide (i = read_clone w)) as [->|Hne].
    + rewrite Hfile in Hi. injection Hi as <-. by exists data.
    + exists []. cbn. by rewrite list_lookup_alter_ne, app_nil_r.
  - split; cbn [writer_pool s']; rewrite <- Permutation_middle.
    + cbn. by apply NoDup_cons.
    + constructor.
      * exists (file ++ data). split; [done|]. cbn. rewrite length_app. lia.
      * rewrite Forall_forall in F |- *. intros x Hx. destruct (F x Hx) as (f & Hf & Hlf).
        exists f. split; [|done]. cbn. rewrite list_lookup_alter_ne; [done|]. intros Heq. apply Nw.
        rewrite Heq. by apply list_elem_of_fmap_2.
Qed.

Lemma write_content_spec fs s w ws content r s' :
  held_ok s (w :: ws) -> write_content fs w content s = (r, s') ->
  extends s s' /\
  match r with
  | Ok (rf, w') => held_ok s' (w' :: ws) /\ ref_read s' rf = Ok content
  | Err _ => held_ok s' ws
  | Panic _ => False
  end.
Proof.
  intros Hh E. pose proof Hh as [_ F]. rewrite <- Permutation_middle in F.
  apply Forall_cons in F as [(file & Hf & Hl) _].
  pose proof (append_spec s w ws content file Hh Hf) as (A1 & A2 & A3).
  unfold write_content in E.
  destruct fs as [| | |n|]; injection E as <- <-; try (split; [exact A1|]); cbn iota beta.
  - split; [exact A2|]. unfold ref_read. cbn [ref_file offset ref_len]. rewrite A3, Hl.
    rewrite drop_app_length, firstn_all. by rewrite bool_decide_eq_true_2.
  - split; [exact A2|]. unfold ref_read. cbn [ref_file offset ref_len]. rewrite A3, Hl.
    rewrite drop_app_length, firstn_all. by rewrite bool_decide_eq_true_2.
  - split; [apply extends_refl|]. by eapply held_drop.
  - pose proof (append_spec s w ws (take n content) file Hh Hf) as (B1 & B2 & _).
    split; [exact B1|]. by eapply held_drop.
  - by eapply held_drop.
Qed.

Lemma return_writer_spec s w ws r s' : held_ok s (w :: ws) -> return_writer w s = (r, s') ->
  extends s s' /\ held_ok s' ws.
Proof.
  intros Hh E. unfold return_writer in E. injection E as <- <-. case_match.
  - split; [by apply extends_files|]. destruct Hh as [N F]. unfold held_ok. cbn [writer_pool].
    rewrite <- app_assoc. split; [done|]. eapply Forall_impl; [exact F|]. by intros x Hx.
  - split; [apply extends_refl|]. by eapply held_drop.
Qed.

(** One write when no other thread writes in between. *)
Lemma store_write_spec fs content s r s' : held_ok s [] -> store_write fs content s = (r, s') ->
  held_ok s' [] /\ extends s s' /\
  match r with Ok rf => ref_read s' rf = Ok content | Err _ => True | Panic _ => False end.
Proof.
  intros Hh E. unfold store_write, bind at 1 in E.
  destruct (take_writer fs s) as [[w|e|e] s1] eqn:E1; apply (take_writer_spec fs s [] _ _ Hh) in E1 as [X1 H1].
  - unfold bind at 1 in E. destruct (write_content fs w content s1) as [[[rf w']|e|e] s2] eqn:E2;
      apply (write_content_spec fs s1 w [] content _ _ H1) in E2 as [X2 H2]; [| |done].
    + destruct H2 as [H2 R]. destruct (return_writer w' s2) as [r3 s3] eqn:E3.
      destruct (return_writer_spec s2 w' [] r3 s3 H2 E3) as [X3 H3].
      unfold bind in E. rewrite E3 in E. unfold return_writer in E3. injection E3 as <- _.
      injection E as <- <-. split_and!; [done| |by eapply read_extends].
      eapply extends_trans, extends_trans; eassumption.
    + injection E as <- <-. split_and!; [done| |done]. by eapply extends_trans.
  - injection E as <- <-. by subst.
  - done.
Qed.

Definition held_by (r : StoreRun) : list Writer := map fst (writing r) ++ returning r.

Record store_run_ok (r : StoreRun) : Prop := {
  writers_apart : held_ok (store r) (held_by r);
  refs_readable : forall rf content, (rf, content) ∈ issued r -> ref_read (store r) rf = Ok content;
}.

Lemma store_step_ok r r' : store_step r r' -> store_run_ok r -> store_run_ok r'.
Proof.
  intros Hst [Hh Hr]. unfold held_by in Hh.
  assert (forall s', extends (store r) s' ->
    forall rf content, (rf, content) ∈ issued r -> ref_read s' rf = Ok content) as Hkeep.
  { intros s' X rf content Hin. eapply read_extends; [exact X|]. by apply Hr. }
  destruct Hst as [fs s s' l l' out rs content w E El|fs s s' l l' out out' rs w content rf w' El E Eo
    |fs s s' l l' out rs w content e El E|s s' l out out' rs w El E]; cbn [store writing returning issued] in *.
  - apply (take_writer_spec fs s _ _ _ Hh) in E as [X H2]. split; [|by apply Hkeep].
    eapply held_perm; [|exact H2]. unfold held_by. cbn. by rewrite El.
  - eapply held_perm in Hh; [|rewrite El; reflexivity]. cbn in Hh.
    apply (write_content_spec _ _ _ _ _ _ _ Hh) in E as [X [H2 R]]. split; cbn.
    + eapply held_perm; [|exact H2]. unfold held_by. cbn. rewrite Eo. by rewrite Permutation_middle.
    + intros rf' c [[= -> ->]|Hin]%elem_of_cons; [done|]. by apply Hkeep.
  - eapply held_perm in Hh; [|rewrite El; reflexivity]. cbn in Hh.
    apply (write_content_spec _ _ _ _ _ _ _ Hh) in E as [X H2]. by split; [|apply Hkeep].
  - eapply held_perm in Hh; [|rewrite El, <- Permutation_middle; reflexivity].
    apply (return_writer_spec _ _ _ _ _ Hh) in E as [X H2]. by split; [|apply Hkeep].
Qed.

Definition store_start : StoreRun := MkStoreRun store_default [] [] [].

(** Whatever threads write at the same time, and whichever of their writes
    fail half way, every reference the store ever handed out reads exactly the
    entry it was handed out for. *)
Theorem written_entries_stay r rf content :
  rtc store_step store_start r -> (rf, content) ∈ issued r -> ref_read (store r) rf = Ok content.
Proof.
  intros Hrun. assert (store_run_ok store_start) as H0.
  { split; [by split; constructor|]. intros ? ? Hin. by apply elem_of_nil in Hin. }
  revert H0. generalize store_start as r0, Hrun. clear Hrun. intros r0 Hrun H0.
  enough (store_run_ok r) as [_ Hr] by apply Hr.
  induction Hrun as [|x y z Hxy _ IH]; [done|]. apply IH. by eapply store_step_ok.
Qed.

(** Two threads write at once, one of a failing disk, a third after them. *)
Lemma written_entries_stay_witness :
  exists r, rtc store_step store_start r /\ issued r = [(MkRef 0 2 2, [5; 6]); (MkRef 0 0 2, [1; 2])] /\
  ref_read (store r) (MkRef 0 0 2) = Ok [1; 2].
Proof.
  set (w0 := MkWriter 0 0). set (w1 := MkWriter 1 0). set (w2 := MkWriter 0 2). set (w4 := MkWriter 0 4).
  set (r1 := MkRef 0 0 2). set (r2 := MkRef 0 2 2).
  set (end_ := MkStoreRun (MkStore [[1; 2; 5; 6]; [3]] []) [] [w4] [(r2, [5; 6]); (r1, [1; 2])]).
  assert (rtc store_step store_start end_) as Hrun.
  { eapply rtc_l with (MkStoreRun (MkStore [[]] []) [(w0, [1; 2])] [] []);
      [by apply ss_take with FsOk [1; 2] w0|].
    eapply rtc_l with (MkStoreRun (MkStore [[]; []] []) [(w1, [3; 4]); (w0, [1; 2])] [] []);
      [by apply ss_take with FsOk [3; 4] w1|].
    eapply rtc_l with (MkStoreRun (MkStore [[]; [3]] []) [(w0, [1; 2])] [] []);
      [by apply ss_write_fails with (WriteFails 1) w1 [3; 4] "could not write the entry"%string|].
    eapply rtc_l with (MkStoreRun (MkStore [[1; 2]; [3]] []) [] [w2] [(r1, [1; 2])]);
      [by apply ss_write with FsOk w0 w2|].
    eapply rtc_l with (MkStoreRun (MkStore [[1; 2]; [3]] [w2]) [] [] [(r1, [1; 2])]);
      [by apply ss_return with w2|].
    eapply rtc_l with (MkStoreRun (MkStore [[1; 2]; [3]] []) [(w2, [5; 6])] [] [(r1, [1; 2])]);
      [by apply ss_take with FsOk [5; 6] w2|].
    apply rtc_once. by apply ss_write with FsOk w2 w4. }
  exists end_. split_and!; [done|done|]. apply (written_entries_stay end_); [done|]. by right; left.
Defined.

(** A write succeeds if the file system does. *)
Lemma store_write_ok content s : exists r s', store_write FsOk content s = (Ok r, s').
Proof.
  unfold store_write, bind, take_writer.
  destruct (writer_pool s) as [|w pool]; cbn; by eexists _, _.
Qed.
