(* ===== verification/SrvSpace.v ===== *)
(** * Entries of the bootstrap server

    [bootstrap_srv/src/parse.rs]: what the server reads of a signed agent info.
    JSON, base64 and ed25519 are libraries and parameters; the parser of
    integers is the standard library's. *)
From Stdlib Require Import Ascii.
From S2P Require Import Prelude Id SrvStore.

Record ParsedEntry : Type := MkEntry {
  agent : bytes;
  space : bytes;
  created_at : Z;
  expires_at : Z;
  is_tombstone : bool;
  encoded : string;
  signature : bytes;
}.

Record Inner : Type := MkInner {
  in_agent : string;
  in_space : string;
  in_created_at : string;
  in_expires_at : string;
  in_is_tombstone : bool;
}.

(** The outer object is the text of the info and its signature; a verifying
    key is known by its bytes. *)
Class EntryCodec := {
  outer_json : bytes -> option (string * string);
  inner_json : string -> option Inner;
  b64_decode : string -> option bytes;
  verifying_key : bytes -> bool;
  verify : bytes -> string -> bytes -> bool;
}.

(** ** [str::parse::<i64>] *)

Definition digit (c : Ascii.ascii) : option Z :=
  let n := Z.of_nat (Ascii.nat_of_ascii c) in
  if (48 <=? n) && (n <=? 57) then Some (n - 48) else None.

Fixpoint digits (acc : Z) (s : string) : option Z :=
  match s with
  | EmptyString => Some acc
  | String c s => match digit c with Some d => digits (acc * 10 + d) s | None => None end
  end.

Definition number (s : string) : option Z :=
  match s with EmptyString => None | _ => digits 0 s end.

Definition in_i64 (n : Z) : option Z := if bool_decide (is_i64 n) then Some n else None.

Definition parse_i64 (s : string) : option Z :=
  match s with
  | String "-"%char s => number s ≫= fun n => in_i64 (- n)
  | String "+"%char s => number s ≫= in_i64
  | _ => number s ≫= in_i64
  end.

Example parse_least : parse_i64 "-9223372036854775808" = Some (- 2 ^ 63).
Proof. reflexivity. Qed.
Example parse_too_large : parse_i64 "9223372036854775808" = None.
Proof. reflexivity. Qed.
Example parse_sign_only : parse_i64 "-" = None.
Proof. reflexivity. Qed.

(** ** [ParsedEntry::try_from_slice] *)

Section parse.
Context `{EntryCodec}.

Definition or_error {A} (e : string) (o : option A) : res A :=
  match o with Some a => Ok a | None => Err e end.

Definition sized (n : nat) (e : string) (b : bytes) : res bytes :=
  if bool_decide (length b = n) then Ok b else Err e.

Definition try_from_slice (slice : bytes) : res ParsedEntry :=
  let? out := or_error "invalid json" (outer_json slice) in
  let? inn := or_error "invalid agent info json" (inner_json out.1) in
  let? agent := or_error "invalid base64" (b64_decode (in_agent inn)) in
  let? agent := sized 32 "InvalidAgentPubKey" agent in
  let? signature := or_error "invalid base64" (b64_decode out.2) in
  let? signature := sized 64 "InvalidSignature" signature in
  let? agent := (if verifying_key agent then Ok agent else Err "invalid key") in
  let? space := or_error "invalid base64" (b64_decode (in_space inn)) in
  let? created_at := or_error "invalid integer" (parse_i64 (in_created_at inn)) in
  let? expires_at := or_error "invalid integer" (parse_i64 (in_expires_at inn)) in
  Ok (MkEntry agent space created_at expires_at (in_is_tombstone inn) out.1 signature).

Definition no_panic {A} (r : res A) : Prop := match r with Panic _ => False | _ => True end.

Lemma try_from_slice_no_panic b : no_panic (try_from_slice b).
Proof.
  unfold try_from_slice, or_error, sized. repeat (case_match; simplify_eq/=; try done).
Qed.
End parse.

(** * The spaces of the bootstrap server

    [bootstrap_srv/src/space.rs].  An update of a space runs under its write
    lock and replaces the readable list at its end, so it is one step; the map
    of spaces is not locked meanwhile (see SrvServer.v). *)
(** A new info with the reference to its bytes; a tombstone is not stored. *)
Abbreviation Incoming := (ParsedEntry * option StoreEntryRef)%type.

Section space.
Context `{EntryCodec}.

Definition ref_parse (s : Store) (r : StoreEntryRef) : res ParsedEntry :=
  let? tmp := ref_read s r in try_from_slice tmp.

(** [Space::read]. *)
Fixpoint read_entries (s : Store) (first : bool) (l : list StoreEntryRef) : res bytes :=
  match l with
  | [] => Ok []
  | r :: l =>
      let? data := ref_read s r in
      let? rest := read_entries s false l in
      Ok ((if first then [] else [44]) ++ data ++ rest)
  end.

Definition space_read (s : Store) (readable : list StoreEntryRef) : res bytes :=
  let? out := read_entries s true readable in Ok ([91] ++ out ++ [93]).

Definition unexpired (now : Z) (e : ParsedEntry * StoreEntryRef) : option (ParsedEntry * StoreEntryRef) :=
  if expires_at e.1 <=? now then None else Some e.

(** The filter over the entries held: what stays of one, and the new info if
    it is not used up. *)
Definition update_entry (s : Store) (now : Z) (replace_agent : option bytes)
  (new_info : option Incoming) (r : StoreEntryRef)
  : res (option (ParsedEntry * StoreEntryRef) * option Incoming) :=
  match ref_parse s r with
  | Err _ => Ok (None, new_info)
  | Panic e => Panic e
  | Ok parsed =>
      if bool_decide (Some (agent parsed) = replace_agent) then
        match new_info with
        | None => Panic "called `Option::unwrap()` on a `None` value"
        | Some (new_p, new_s) =>
            if created_at parsed <? created_at new_p then
              if is_tombstone new_p then Ok (None, None)
              else match new_s with
                   | Some new_s => Ok (unexpired now (new_p, new_s), None)
                   | None => Panic "RequireStoreRef"
                   end
            else Ok (unexpired now (parsed, r), None)
        end
      else Ok (unexpired now (parsed, r), new_info)
  end.

Fixpoint update_entries (s : Store) (now : Z) (replace_agent : option bytes)
  (new_info : option Incoming) (l : list StoreEntryRef)
  : res (list (ParsedEntry * StoreEntryRef) * option Incoming) :=
  match l with
  | [] => Ok ([], new_info)
  | r :: l =>
      let? (kept, new_info) := update_entry s now replace_agent new_info r in
      let? (rest, new_info) := update_entries s now replace_agent new_info l in
      Ok (match kept with Some e => e :: rest | None => rest end, new_info)
  end.

(** [Vec::remove]. *)
Definition vec_remove {A} (i : nat) (l : list A) : res (list A) :=
  if bool_decide (i < length l)%nat then Ok (delete i l) else Panic "removal index should be < len".

(** [Space::update] of the readable list. *)
Definition space_update (s : Store) (now : Z) (max_entries : nat) (new_info : option Incoming)
  (readable : list StoreEntryRef) : res (list StoreEntryRef) :=
  let? (l, new_info) := update_entries s now (agent ∘ fst <$> new_info) new_info readable in
  match new_info with
  | Some (parsed, store) =>
      if is_tombstone parsed then Ok l.*2
      else
        let? l := (if bool_decide (max_entries <= length l)%nat then vec_remove (max_entries / 2) l else Ok l) in
        match store with
        | Some store => Ok (l ++ [(parsed, store)]).*2
        | None => Panic "RequireStoreRef"
        end
  | None => Ok l.*2
  end.
End space.

(** ** The specification: a stack of entries, oldest first

    [bootstrap_srv/src/lib.rs], [spec] 2.2 and 3.2. *)

(** What is held of an agent gives way to a newer info of it. *)
Definition superseded (new : ParsedEntry) (p : ParsedEntry) : option ParsedEntry :=
  if bool_decide (agent p = agent new) then
    if created_at p <? created_at new then if is_tombstone new then None else Some new else Some p
  else Some p.

Definition live (now : Z) (l : list ParsedEntry) : list ParsedEntry :=
  filter (fun p => now < expires_at p) l.

Definition stack_push (max_entries : nat) (new : ParsedEntry) (l : list ParsedEntry) : list ParsedEntry :=
  (if bool_decide (max_entries <= length l)%nat then delete (max_entries / 2)%nat l else l) ++ [new].

Definition stack_put (max_entries : nat) (now : Z) (new : ParsedEntry) (l : list ParsedEntry)
  : list ParsedEntry :=
  let kept := live now (omap (superseded new) l) in
  if bool_decide (agent new ∈ map agent l) then kept
  else if is_tombstone new then kept
  else stack_push max_entries new kept.

Definition stack_update (max_entries : nat) (now : Z) (new : option ParsedEntry) (l : list ParsedEntry)
  : list ParsedEntry :=
  match new with Some new => stack_put max_entries now new l | None => live now l end.
