(* ===== verification/SrvServer.v ===== *)
(** * The spaces of the bootstrap server implement its specification

    An update of a space does to the entries held what the specification says
    of a stack; at most one entry per agent and no more than the limit are
    held, and then no update can fail. *)
From S2P Require Import Prelude Id SrvStore SrvSpace.

Section stack.
Context `{EntryCodec}.

(** The references of a space and the entries they read as. *)
Abbreviation holds s := (Forall2 (fun r p => ref_parse s r = Ok p)).

(** A new info other than a tombstone comes with a reference to itself. *)
Definition incoming_ok (s : Store) (new : Incoming) : Prop :=
  if is_tombstone new.1 then True else exists r, new.2 = Some r /\ ref_parse s r = Ok new.1.

Definition pair_ok (s : Store) (e : ParsedEntry * StoreEntryRef) : Prop := ref_parse s e.2 = Ok e.1.

Lemma superseded_absent new ps : (agent new ∉ map agent ps) -> omap (superseded new) ps = ps.
Proof.
  induction ps as [|p ps IH]; [done|]. cbn. rewrite not_elem_of_cons. intros [Hne Hni]. unfold superseded at 1.
  rewrite bool_decide_eq_false_2 by congruence. by rewrite IH.
Qed.

Lemma superseded_agent new p p' : superseded new p = Some p' -> agent p' = agent p.
Proof. unfold superseded. intros. repeat (case_bool_decide || case_match); by simplify_eq. Qed.

Lemma live_cons now p ps :
  live now (p :: ps) = (if expires_at p <=? now then [] else [p]) ++ live now ps.
Proof. unfold live. rewrite filter_cons. case_decide; destruct (Z.leb_spec (expires_at p) now); try done; lia. Qed.

(** The entries of a filtered list, one at a time. *)
Lemma unexpired_live s now p r l ps : ref_parse s r = Ok p -> Forall (pair_ok s) l -> l.*1 = live now ps ->
  let l' := match unexpired now (p, r) with Some e => e :: l | None => l end in
  Forall (pair_ok s) l' /\ l'.*1 = live now (p :: ps).
Proof.
  intros Hp Hl Hf. rewrite live_cons. unfold unexpired. cbn [fst].
  destruct (expires_at p <=? now); cbn; [by split|]. split; [by constructor|]. by rewrite Hf.
Qed.

Definition after (new : option Incoming) (ps : list ParsedEntry) : list ParsedEntry :=
  match new with Some (p, _) => omap (superseded p) ps | None => ps end.

Definition unused (new : option Incoming) (ps : list ParsedEntry) : option Incoming :=
  match new with
  | Some (p, _) => if bool_decide (agent p ∈ map agent ps) then None else new
  | None => None
  end.

Definition replaces (replace_agent : option bytes) (new : option Incoming) (ps : list ParsedEntry) : Prop :=
  match new with
  | Some (p, _) => replace_agent = Some (agent p)
  | None => forall a, replace_agent = Some a -> a ∉ map agent ps
  end.

Lemma update_entries_spec s now ra new l ps :
  holds s l ps -> NoDup (map agent ps) -> from_option (incoming_ok s) True new -> replaces ra new ps ->
  exists l', update_entries s now ra new l = Ok (l', unused new ps) /\
    Forall (pair_ok s) l' /\ l'.*1 = live now (after new ps).
Proof.
  intros Hl. revert new. induction Hl as [|r p l ps Hp Hl IH]; intros new Hnd Hnew Hra.
  { exists []. split_and!; [by destruct new as [[]|]|done|by destruct new as [[]|]]. }
  cbn in Hnd. apply NoDup_cons in Hnd as [Hpa Hnd]. cbn [update_entries]. unfold update_entry. rewrite Hp.
  case_bool_decide as Hag.
  - destruct new as [[np ns]|]; [|by destruct (Hra _ (eq_sym Hag)); left].
    cbn in Hra. subst ra. injection Hag as Hag.
    destruct (IH None Hnd I) as (l' & E & Fl & Fe); [by intros ? [= <-]; rewrite <- Hag|].
    assert (agent np ∉ map agent ps) as Hna by by rewrite <- Hag.
    cbn [unused after map]. rewrite (bool_decide_eq_true_2 (agent np ∈ _)) by (rewrite Hag; by left).
    cbn in E. cbn [omap list_omap]. unfold superseded at 1. rewrite (bool_decide_eq_true_2 _ Hag).
    change (list_omap _ _ (superseded np) ps) with (omap (superseded np) ps).
    rewrite superseded_absent by done. cbn in Hnew. unfold incoming_ok in Hnew. cbn in Hnew.
    destruct (created_at p <? created_at np); [destruct (is_tombstone np)|].
    + cbn. rewrite E. cbn. by exists l'.
    + destruct Hnew as (r' & -> & Hr'). cbn. rewrite E. cbn. eexists. split; [reflexivity|].
      by apply unexpired_live.
    + cbn. rewrite E. cbn. eexists. split; [reflexivity|]. by apply unexpired_live.
  - destruct (IH new Hnd Hnew) as (l' & E & Fl & Fe).
    { destruct new as [[np ns]|]; [done|]. intros a Ha. specialize (Hra a Ha). cbn in Hra.
      by apply not_elem_of_cons in Hra as [_ ?]. }
    cbn. rewrite E. cbn. eexists. split; [f_equal; f_equal|].
    + destruct new as [[np ns]|]; [|done]. cbn in Hra |- *. subst ra.
      rewrite (bool_decide_ext (agent np ∈ agent p :: map agent ps) (agent np ∈ map agent ps)); [done|].
      rewrite elem_of_cons. split; [|by right]. intros [?|?]; [congruence|done].
    + destruct new as [[np ns]|]; cbn; [|by apply unexpired_live]. cbn in Hra. subst ra.
      unfold superseded at 1. rewrite bool_decide_eq_false_2 by congruence. by apply unexpired_live.
Qed.

Lemma pairs_hold s l : Forall (pair_ok s) l -> holds s l.*2 l.*1.
Proof. induction 1; cbn; by constructor. Qed.

Lemma live_sublist now ps : live now ps `sublist_of` ps.
Proof. apply sublist_filter. Qed.

Lemma superseded_agents new ps : map agent (omap (superseded new) ps) `sublist_of` map agent ps.
Proof.
  induction ps as [|p ps IH]; [done|]. cbn. destruct (superseded new p) as [p'|] eqn:E; cbn; [|by constructor].
  rewrite (superseded_agent _ _ _ E). by constructor.
Qed.

Lemma half_lt max len : (0 < max)%nat -> (max <= len)%nat -> (max / 2 < len)%nat.
Proof. intros Hm Hl. apply Nat.lt_le_trans with max; [|done]. apply Nat.div_lt; lia. Qed.

Lemma vec_remove_ok {A} max (l : list A) : (0 < max)%nat -> (max <= length l)%nat ->
  vec_remove (max / 2) l = Ok (delete (max / 2)%nat l).
Proof.
  intros Hm Hl. unfold vec_remove. rewrite bool_decide_eq_true_2; [done|]. by apply half_lt.
Qed.

(** An update of a space never fails, and leaves the entries that the
    specification says, in their order. *)
Lemma update_refines s now max new l ps :
  holds s l ps -> NoDup (map agent ps) -> from_option (incoming_ok s) True new -> (0 < max)%nat ->
  exists l', space_update s now max new l = Ok l' /\ holds s l' (stack_update max now (fst <$> new) ps).
Proof.
  intros Hl Hnd Hnew Hmax. destruct (update_entries_spec s now (agent ∘ fst <$> new) new l ps Hl Hnd Hnew)
    as (l' & E & Fl & Fe); [by destruct new as [[]|]; cbn|].
  unfold space_update. rewrite E. cbn [mbind res_bind]. pose proof (pairs_hold s l' Fl) as Hh. rewrite Fe in Hh.
  destruct new as [[np ns]|]; [|by exists l'.*2]. cbn [unused after fmap option_fmap option_map fst stack_update] in *.
  unfold stack_put. case_bool_decide as Hin; [by exists l'.*2|]. cbn in Hnew. unfold incoming_ok in Hnew. cbn in Hnew.
  destruct (is_tombstone np) eqn:Ht; [by exists l'.*2|]. destruct Hnew as (r & -> & Hr).
  assert (length l' = length (live now (omap (superseded np) ps))) as Hlen by by rewrite <- Fe, length_fmap.
  unfold stack_push. rewrite <- Hlen. case_bool_decide as Hfull.
  - rewrite vec_remove_ok by done. cbn. eexists. split; [reflexivity|]. rewrite fmap_app. apply Forall2_app.
    + rewrite list_fmap_delete. by apply Forall2_delete.
    + by constructor.
  - cbn. eexists. split; [reflexivity|]. rewrite fmap_app. apply Forall2_app; [done|by constructor].
Qed.

(** *** At most one entry per agent, and no more than the limit *)

Lemma live_agents new now ps : NoDup (map agent ps) -> NoDup (map agent (live now (omap (superseded new) ps))).
Proof.
  intros Hnd. eapply sublist_NoDup; [exact Hnd|]. etransitivity; [|apply (superseded_agents new)].
  apply fmap_sublist, live_sublist.
Qed.

Lemma stack_update_agents max now new ps : NoDup (map agent ps) -> NoDup (map agent (stack_update max now new ps)).
Proof.
  intros Hnd. destruct new as [new|]; cbn.
  - pose proof (live_agents new now ps Hnd) as Hk. unfold stack_put. case_bool_decide as Hin; [done|].
    destruct (is_tombstone new); [done|]. unfold stack_push. rewrite map_app. apply NoDup_app. split_and!.
    + case_bool_decide; [|done]. eapply sublist_NoDup; [exact Hk|]. apply fmap_sublist, sublist_delete.
    + intros a Ha [->|Hnil]%elem_of_cons; [|by apply elem_of_nil in Hnil]. apply Hin.
      assert (map agent (if bool_decide (max <= length (live now (omap (superseded new) ps)))%nat
                         then delete (max / 2)%nat (live now (omap (superseded new) ps))
                         else live now (omap (superseded new) ps)) `sublist_of` map agent ps) as Hs.
      { etransitivity; [|apply (superseded_agents new)]. apply fmap_sublist.
        etransitivity; [|apply (live_sublist now)]. case_bool_decide; [apply sublist_delete|done]. }
      by eapply elem_of_submseteq, sublist_submseteq.
    + apply NoDup_singleton.
  - eapply sublist_NoDup; [exact Hnd|]. apply fmap_sublist, live_sublist.
Qed.

Lemma stack_update_length max now new ps : (0 < max)%nat -> (length ps <= max)%nat ->
  (length (stack_update max now new ps) <= max)%nat.
Proof.
  intros Hmax Hl. destruct new as [new|]; cbn; [|etransitivity; [apply length_filter|done]].
  unfold stack_put. set (kept := live now (omap (superseded new) ps)).
  assert (length kept <= length ps)%nat as Hk.
  { unfold kept. etransitivity; [apply length_filter|].
    rewrite <- (length_map agent (omap _ _)), <- (length_map agent ps). apply sublist_length, superseded_agents. }
  case_bool_decide; [lia|]. destruct (is_tombstone new); [lia|]. unfold stack_push. rewrite length_app.
  case_bool_decide as Hf; cbn [length]; [|lia]. rewrite length_delete; [lia|].
  apply lookup_lt_is_Some. by apply half_lt.
Qed.

Lemma elem_of_stack_update max now new ps p :
  p ∈ stack_update max now new ps -> p ∈ ps \/ (new = Some p /\ is_tombstone p = false).
Proof.
  destruct new as [new|]; cbn; [|by intros [_ ?]%list_elem_of_filter; left].
  assert (p ∈ live now (omap (superseded new) ps) -> p ∈ ps \/ (Some new = Some p /\ is_tombstone p = false)) as Hs.
  { intros [_ (p0 & Hp0 & Hsup)%list_elem_of_omap]%list_elem_of_filter. unfold superseded in Hsup.
    repeat (case_bool_decide || case_match); simplify_eq; auto. }
  unfold stack_put. case_bool_decide; [done|]. destruct (is_tombstone new) eqn:Ht; [done|].
  unfold stack_push. intros [Hin|[->|Hin]%elem_of_cons]%elem_of_app; [|by right|by apply elem_of_nil in Hin].
  apply Hs. case_bool_decide; [|done]. eapply elem_of_submseteq; [exact Hin|].
  apply sublist_submseteq, sublist_delete.
Qed.

(** A live info newer than what is held of its agent is held after its put. *)
Lemma stack_put_held max now new ps : is_tombstone new = false -> now < expires_at new ->
  (forall p, p ∈ ps -> agent p = agent new -> created_at p < created_at new) ->
  new ∈ stack_put max now new ps.
Proof.
  intros Ht Hx Hold. unfold stack_put. case_bool_decide as Hin.
  - apply list_elem_of_fmap in Hin as (p & Hp & Hin). apply list_elem_of_filter. split; [done|].
    apply list_elem_of_omap. exists p. split; [done|]. unfold superseded.
    rewrite bool_decide_eq_true_2 by done. by rewrite (proj2 (Z.ltb_lt _ _) (Hold p Hin (eq_sym Hp))), Ht.
  - rewrite Ht. unfold stack_push. apply elem_of_app. right. by left.
Qed.
End stack.

(** * The bootstrap server

    The map of spaces ([bootstrap_srv/src/space.rs], [SpaceMap]) and the
    handlers of the worker threads ([server.rs]).  The lock of the map is held
    only while the space of an update is looked up, so an update is two steps,
    [begin_update] and [finish_update], and those of several threads
    interleave; [SrvRun.v] lets them. *)
(** A space is shared by reference: [spaces] are all those made so far, and
    the map names the one of each id. *)
Record Server : Type := MkServer {
  srv_store : Store;
  space_map : gmap (list Z) nat;
  spaces : list (list StoreEntryRef);
}.

Definition server_new : Server := MkServer store_default ∅ [].

Definition set_srv_store (st : Store) (s : Server) : Server := MkServer st (space_map s) (spaces s).

Definition on_store {A} (m : M Store A) : M Server A := fun s =>
  let (r, st) := m (srv_store s) in (r, set_srv_store st s).

(** The first half of [SpaceMap::update]: the space to update, if any. *)
Definition begin_update (space_id : bytes) (adding : bool) : M Server (option nat) := fun s =>
  match space_map s !! space_id with
  | Some h =>
      if negb adding && match spaces s !! h with Some [] => true | _ => false end
      then (Ok None, MkServer (srv_store s) (delete space_id (space_map s)) (spaces s))
      else (Ok (Some h), s)
  | None =>
      if adding
      then (Ok (Some (length (spaces s))),
            MkServer (srv_store s) (<[ space_id := length (spaces s) ]> (space_map s)) (spaces s ++ [[]]))
      else (Ok None, s)
  end.

(** The status and body of an answer. *)
Abbreviation Answer := (Z * bytes)%type.

Section server.
Context `{EntryCodec}.
Variable max_entries_per_space : nat.
(** The body of an answer that tells an error. *)
Variable error_body : string -> bytes.

Definition finish_update (now : Z) (h : nat) (new_info : option Incoming) : M Server unit := fun s =>
  match spaces s !! h with
  | None => (Ok tt, s)
  | Some readable =>
      match space_update (srv_store s) now max_entries_per_space new_info readable with
      | Ok l => (Ok tt, MkServer (srv_store s) (space_map s) (<[ h := l ]> (spaces s)))
      | Err e => (Err e, s)
      | Panic e => (Panic e, s)
      end
  end.

(** [SpaceMap::update] when no other thread runs in between. *)
Definition map_update (now : Z) (space_id : bytes) (new_info : option Incoming) : M Server unit :=
  let* h := begin_update space_id (bool_decide (is_Some new_info)) in
  match h with Some h => finish_update now h new_info | None => ret tt end.

Definition update_all (now : Z) : M Server unit := fun s =>
  for_each (map_to_list (space_map s)).*1 (fun space_id => map_update now space_id None) s.

Definition map_read (s : Server) (space_id : bytes) : res bytes :=
  match space_map s !! space_id with
  | Some h => space_read (srv_store s) (default [] (spaces s !! h))
  | None => Ok [91; 93]
  end.

(** ** The handlers *)

Definition CREATED_AT_CLOCK_SKEW_ALLOWED_MICROS : Z := 60 * 3 * 1000000.
Definition EXPIRES_AT_DURATION_MAX_ALLOWED_MICROS : Z := 60 * 30 * 1000000.

(** What a put must satisfy, in the order it is checked. *)
Definition check_put (now : Z) (space_id agent_id : bytes) (info : ParsedEntry) : res unit :=
  if negb (bool_decide (agent_id = agent info)) then Err "InvalidAgent"
  else if negb (bool_decide (space_id = space info)) then Err "InvalidSpace"
  else if created_at info <? wrap_i64 (now - CREATED_AT_CLOCK_SKEW_ALLOWED_MICROS) then Err "InvalidCreatedAt"
  else if wrap_i64 (now + CREATED_AT_CLOCK_SKEW_ALLOWED_MICROS) <? created_at info then Err "InvalidCreatedAt"
  else if expires_at info <? now then Err "InvalidExpiresAt"
  else if expires_at info <=? created_at info then Err "InvalidExpiresAt"
  else if EXPIRES_AT_DURATION_MAX_ALLOWED_MICROS <? wrap_i64 (expires_at info - created_at info)
       then Err "InvalidExpiresAt"
  else if negb (verify (agent info) (encoded info) (signature info)) then Err "InvalidSignature"
  else Ok tt.

Definition ok_response : Answer := (200, [123; 125]).

(** The entry to store, up to the update of the space. *)
Definition accept_put (now : Z) (fs : FsOutcome) (space_id agent_id body : bytes) : M Server Incoming :=
  let* info := lift_res (try_from_slice body) in
  lift_res (check_put now space_id agent_id info) ;;*
  if is_tombstone info then ret (info, None)
  else let* r := on_store (store_write fs body) in ret (info, Some r).

Definition handle_boot_put (now now' : Z) (fs : FsOutcome) (space_id agent_id body : bytes) : M Server Answer :=
  let* new := accept_put now fs space_id agent_id body in
  map_update now' space_id (Some new) ;;* ret ok_response.

Definition handle_boot_get (space_id : bytes) : M Server Answer := fun s =>
  match map_read s space_id with
  | Ok out => (Ok (200, out), s)
  | Err e => (Err e, s)
  | Panic e => (Panic e, s)
  end.

Inductive HttpRequest : Type :=
  | HealthGet
  | BootstrapGet (space : bytes)
  | BootstrapPut (space agent body : bytes).

Definition handle_inner (now now' : Z) (fs : FsOutcome) (req : HttpRequest) : M Server Answer :=
  match req with
  | HealthGet => ret ok_response
  | BootstrapGet space => handle_boot_get space
  | BootstrapPut space agent body => handle_boot_put now now' fs space agent body
  end.

(** Errors are told to the client. *)
Definition handle (now now' : Z) (fs : FsOutcome) (req : HttpRequest) : M Server Answer := fun s =>
  match handle_inner now now' fs req s with
  | (Err e, s) => (Ok (500, error_body e), s)
  | r => r
  end.
End server.
