(* ===== verification/SrvRun.v ===== *)
(** * The bootstrap server serves its specification

    The invariant of the server, what the handlers do to the entries held of
    each space, and the steps of several worker threads and the prune thread in
    any order. *)
From S2P Require Import Prelude Id SrvStore SrvSpace SrvServer.

Section run.
#[local] Set Default Proof Using "Type*".
Context `{EntryCodec}.
Variable max_entries_per_space : nat.
Hypothesis some_room : (0 < max_entries_per_space)%nat.

(** An info that was accepted for a space, and is no tombstone. *)
Definition accepted (space_id : bytes) (p : ParsedEntry) : Prop :=
  is_tombstone p = false /\ exists now agent_id, check_put now space_id agent_id p = Ok tt.

Definition space_ok (st : Store) (space_id : bytes) (l : list StoreEntryRef) : Prop :=
  exists ps, Forall2 (fun r p => ref_parse st r = Ok p) l ps /\ NoDup (map agent ps) /\
    (length ps <= max_entries_per_space)%nat /\ Forall (accepted space_id) ps.

(** [owners]: the id each space was made for. *)
Record server_ok (owners : list bytes) (s : Server) : Prop := {
  store_ok : held_ok (srv_store s) [];
  map_ok : forall id h, space_map s !! id = Some h -> owners !! h = Some id;
  spaces_ok : Forall2 (space_ok (srv_store s)) owners (spaces s);
}.

Definition stored_ok (s : Server) (space_id : bytes) (new : Incoming) : Prop :=
  incoming_ok (srv_store s) new /\ exists now agent_id, check_put now space_id agent_id new.1 = Ok tt.

(** ** References keep reading as the store grows *)

Lemma parse_extends st st' r p : extends st st' -> ref_parse st r = Ok p -> ref_parse st' r = Ok p.
Proof.
  unfold ref_parse. intros He. destruct (ref_read st r) as [b| |] eqn:Hr; [|done..].
  by rewrite (read_extends _ _ _ _ He Hr).
Qed.

Lemma space_ok_extends st st' id l : extends st st' -> space_ok st id l -> space_ok st' id l.
Proof.
  intros He (ps & Hl & ? & ? & ?). exists ps. split_and!; try done.
  eapply Forall2_impl; [exact Hl|]. intros r p. by apply parse_extends.
Qed.

Lemma incoming_extends st st' new : extends st st' -> incoming_ok st new -> incoming_ok st' new.
Proof.
  unfold incoming_ok. intros He. case_match; [done|]. intros (r & E & Hr). exists r. split; [done|].
  by eapply parse_extends.
Qed.

(** ** The two halves of an update *)

Lemma begin_spec owners id adding s r s' : server_ok owners s -> begin_update id adding s = (r, s') ->
  exists owners', server_ok owners' s' /\ (owners `prefix_of` owners') /\ srv_store s' = srv_store s /\
    match r with
    | Ok (Some h) => owners' !! h = Some id /\ (space_map s' !! id = Some h)
    | Ok None => adding = false
    | _ => False
    end.
Proof.
  intros [So Mo Po] E. unfold begin_update in E. destruct (space_map s !! id) as [h|] eqn:Hm.
  - destruct (negb adding && _) eqn:Ht; injection E as <- <-; exists owners; split_and!; try done.
    + split; try done. cbn. intros id' h' [Hne Hl]%lookup_delete_Some. by apply Mo.
    + by destruct adding.
    + by apply Mo.
  - destruct adding; injection E as <- <-; [|by exists owners]. exists (owners ++ [id]).
    assert (length owners = length (spaces s)) as Hlen by by eapply Forall2_length.
    split_and!; try done.
    + split; cbn; [done| |].
      * intros id' h' [[<- <-]|[Hne Hl]]%lookup_insert_Some.
        -- by rewrite lookup_app_r, Hlen, Nat.sub_diag by lia.
        -- apply lookup_app_l_Some. by apply Mo.
      * apply Forall2_app; [done|]. repeat constructor. exists []. split_and!; try constructor. cbn. lia.
    + by exists [id].
    + by rewrite lookup_app_r, Hlen, Nat.sub_diag by lia.
    + cbn. by rewrite lookup_insert_eq.
Qed.

Lemma accepted_update now id (new : option ParsedEntry) ps :
  (forall p, new = Some p -> is_tombstone p = false -> accepted id p) ->
  Forall (accepted id) ps -> Forall (accepted id) (stack_update max_entries_per_space now new ps).
Proof.
  intros Hnew Hps. rewrite Forall_forall in Hps |- *.
  intros p [?|[E Ht]]%elem_of_stack_update; [by apply Hps|by apply Hnew].
Qed.

Lemma Forall2_insert_r {A B} (P : A -> B -> Prop) l k i x y :
  Forall2 P l k -> l !! i = Some x -> P x y -> Forall2 P l (<[ i := y ]> k).
Proof. intros Hlk Hl Hxy. rewrite <- (list_insert_id l i x) by done. by apply Forall2_insert. Qed.

(** What a list of references reads as is determined. *)
Lemma parses_unique st l ps ps' :
  Forall2 (fun r p => ref_parse st r = Ok p) l ps -> Forall2 (fun r p => ref_parse st r = Ok p) l ps' -> ps' = ps.
Proof.
  intros Hps Hps'. revert ps Hps. induction Hps'; intros ps Hps; inversion Hps; subst; [done|].
  f_equal; [congruence|by eauto].
Qed.

Lemma finish_spec owners s now h id new r s' :
  server_ok owners s -> owners !! h = Some id -> from_option (stored_ok s id) True new ->
  finish_update max_entries_per_space now h new s = (r, s') ->
  r = Ok tt /\ server_ok owners s' /\ srv_store s' = srv_store s /\ space_map s' = space_map s /\
  (forall h', h' <> h -> spaces s' !! h' = spaces s !! h') /\
  exists l l', spaces s !! h = Some l /\ spaces s' !! h = Some l' /\
    forall ps, Forall2 (fun r p => ref_parse (srv_store s) r = Ok p) l ps ->
      Forall2 (fun r p => ref_parse (srv_store s) r = Ok p) l'
        (stack_update max_entries_per_space now (fst <$> new) ps).
Proof.
  intros [So Mo Po] Ho Hnew E. destruct (Forall2_lookup_l _ _ _ _ _ Po Ho) as (l & Hl & ps & Hps & Hnd & Hlen & Hacc).
  unfold finish_update in E. rewrite Hl in E.
  destruct (update_refines (srv_store s) now max_entries_per_space new l ps) as (l' & E' & Hl'); try done.
  { by destruct new as [new|]; [destruct Hnew|]. }
  rewrite E' in E. injection E as <- <-. split_and!; try done.
  - split; cbn; try done. apply Forall2_insert_r with id; try done.
    exists (stack_update max_entries_per_space now (fst <$> new) ps). split_and!; [done|..].
    + by apply stack_update_agents.
    + by apply stack_update_length.
    + apply accepted_update; [|done]. intros p Hp Ht. destruct new as [[p' r]|]; [|done]. cbn in Hp.
      injection Hp as <-. split; [done|]. by destruct Hnew.
  - intros h' Hne. cbn. by apply list_lookup_insert_ne.
  - exists l, l'. split_and!; try done.
    + cbn. apply list_lookup_insert_eq. by eapply lookup_lt_Some.
    + intros ps' Hps'. by rewrite (parses_unique _ _ _ _ Hps Hps').
Qed.

(** ** What a space holds, and what is read of it *)

Definition parsed (st : Store) (r : StoreEntryRef) : option ParsedEntry :=
  match ref_parse st r with Ok p => Some p | _ => None end.

Definition entries (s : Server) (space_id : bytes) : list ParsedEntry :=
  match space_map s !! space_id with
  | Some h => omap (parsed (srv_store s)) (default [] (spaces s !! h))
  | None => []
  end.

(** The JSON list of some objects. *)
Definition json_list (bs : list bytes) : bytes :=
  [91] ++ match bs with [] => [] | b :: bs => b ++ concat (map (cons 44) bs) end ++ [93].

Lemma parsed_list st l ps : Forall2 (fun r p => ref_parse st r = Ok p) l ps -> omap (parsed st) l = ps.
Proof. induction 1 as [|r p l ps Hp _ IH]; [done|]. cbn. unfold parsed at 1. by rewrite Hp, IH. Qed.

Lemma read_spec st l ps : Forall2 (fun r p => ref_parse st r = Ok p) l ps ->
  exists bs, space_read st l = Ok (json_list bs) /\ Forall2 (fun b p => try_from_slice b = Ok p) bs ps.
Proof.
  intros Hl. assert (exists bs, Forall2 (fun b p => try_from_slice b = Ok p) bs ps /\
    forall first, read_entries st first l =
      Ok (match bs with
          | [] => []
          | b :: bs => (if first : bool then [] else [44]) ++ b ++ concat (map (cons 44) bs)
          end)) as (bs & Hbs & E).
  { induction Hl as [|r p l ps Hp _ (bs & Hbs & E)]; [by exists []|]. unfold ref_parse in Hp.
    destruct (ref_read st r) as [b|e|e] eqn:Hr; [|done..]. cbn in Hp. exists (b :: bs).
    split; [by constructor|]. intros first. cbn. rewrite Hr. cbn. rewrite E. cbn.
    destruct bs; [by rewrite !app_nil_r|done]. }
  exists bs. split; [|done]. unfold space_read, json_list. rewrite E. cbn. destruct bs; [done|]. by rewrite <- app_assoc.
Qed.

Lemma map_read_spec owners s id : server_ok owners s ->
  exists bs, map_read s id = Ok (json_list bs) /\ Forall2 (fun b p => try_from_slice b = Ok p) bs (entries s id) /\
    NoDup (map agent (entries s id)) /\ (length (entries s id) <= max_entries_per_space)%nat /\
    Forall (accepted id) (entries s id).
Proof.
  intros [So Mo Po]. unfold map_read, entries. destruct (space_map s !! id) as [h|] eqn:Hm.
  - destruct (Forall2_lookup_l _ _ _ _ _ Po (Mo _ _ Hm)) as (l & Hl & ps & Hps & Hnd & Hlen & Hacc).
    rewrite Hl. cbn. rewrite (parsed_list _ _ _ Hps).
    destruct (read_spec _ _ _ Hps) as (bs & E & Hbs). by exists bs.
  - exists []. split_and!; try by constructor. cbn. lia.
Qed.

(** A step that changes the store only by writing, and the map not at all, or
    the space of an id only. *)
Lemma entries_extends s s' id : extends (srv_store s) (srv_store s') -> space_map s' !! id = space_map s !! id ->
  (forall h, space_map s !! id = Some h -> spaces s' !! h = spaces s !! h) ->
  (exists owners, server_ok owners s) -> entries s' id = entries s id.
Proof.
  intros He Hm Hs [owners [So Mo Po]]. unfold entries. rewrite Hm.
  destruct (space_map s !! id) as [h|] eqn:Hh; [|done]. rewrite (Hs h eq_refl).
  destruct (Forall2_lookup_l _ _ _ _ _ Po (Mo _ _ Hh)) as (l & Hl & ps & Hps & _).
  rewrite Hl. cbn. rewrite (parsed_list _ _ _ Hps). apply parsed_list.
  eapply Forall2_impl; [exact Hps|]. intros r p. by apply parse_extends.
Qed.

(** ** An update of a space, and a put, when no other thread runs *)

Lemma begin_entries owners s id adding r s' : server_ok owners s -> begin_update id adding s = (r, s') ->
  forall id', entries s' id' = entries s id'.
Proof.
  intros [So Mo Po] E id'. unfold begin_update in E. destruct (space_map s !! id) as [h|] eqn:Hm.
  - destruct (negb adding && _) eqn:Ht; injection E as <- <-; [|done]. unfold entries. cbn.
    destruct (decide (id' = id)) as [->|Hne].
    + rewrite lookup_delete_eq, Hm. destruct adding; [done|]. cbn in Ht.
      by destruct (spaces s !! h) as [[]|].
    + by rewrite lookup_delete_ne.
  - destruct adding; injection E as <- <-; [|done]. unfold entries. cbn. destruct (decide (id' = id)) as [->|Hne].
    + by rewrite lookup_insert_eq, Hm, lookup_app_r, Nat.sub_diag by lia.
    + rewrite lookup_insert_ne by done. destruct (space_map s !! id') as [h'|] eqn:Hm'; [|done].
      apply Mo, lookup_lt_Some in Hm'. rewrite (Forall2_length _ _ _ Po) in Hm'. by rewrite lookup_app_l.
Qed.

Lemma finish_entries owners s now h id new r s' :
  server_ok owners s -> space_map s !! id = Some h -> from_option (stored_ok s id) True new ->
  finish_update max_entries_per_space now h new s = (r, s') ->
  entries s' id = stack_update max_entries_per_space now (fst <$> new) (entries s id) /\
  forall id', id' <> id -> entries s' id' = entries s id'.
Proof.
  intros Hok Hm Hnew E. pose proof Hok as [So Mo Po].
  destruct (Forall2_lookup_l _ _ _ _ _ Po (Mo _ _ Hm)) as (l0 & Hl0 & ps & Hps & _).
  destruct (finish_spec _ _ _ _ _ _ _ _ Hok (Mo _ _ Hm) Hnew E) as (_ & _ & Hst & Hmap & Hne & l & l' & Hl & Hl' & Hp).
  assert (l0 = l) as -> by congruence. split.
  - unfold entries. rewrite Hmap, Hm, Hl, Hl', Hst. cbn. rewrite (parsed_list _ _ _ Hps). by apply parsed_list, Hp.
  - intros id' Hid. unfold entries. rewrite Hmap, Hst. destruct (space_map s !! id') as [h'|] eqn:Hm'; [|done].
    rewrite Hne; [done|]. intros ->. apply Mo in Hm'. rewrite (Mo _ _ Hm) in Hm'. congruence.
Qed.

Lemma stored_ok_store s s' id new : srv_store s' = srv_store s ->
  from_option (stored_ok s id) True new -> from_option (stored_ok s' id) True new.
Proof. intros E. destruct new; [|done]. cbn. unfold stored_ok. by rewrite E. Qed.

Lemma map_update_spec owners s now id new r s' :
  server_ok owners s -> from_option (stored_ok s id) True new ->
  map_update max_entries_per_space now id new s = (r, s') ->
  r = Ok tt /\ (exists owners', server_ok owners' s') /\
  entries s' id = stack_update max_entries_per_space now (fst <$> new) (entries s id) /\
  forall id', id' <> id -> entries s' id' = entries s id'.
Proof.
  intros Hok Hnew E. unfold map_update, bind at 1 in E.
  destruct (begin_update id (bool_decide (is_Some new)) s) as [rb s1] eqn:Eb.
  destruct (begin_spec _ _ _ _ _ _ Hok Eb) as (owners1 & Hok1 & _ & Hst & Hb).
  pose proof (begin_entries _ _ _ _ _ _ Hok Eb) as Hent. destruct rb as [[h|]| |]; [..|done|done].
  - destruct Hb as [Ho Hm]. apply (stored_ok_store _ _ _ _ Hst) in Hnew.
    destruct (finish_spec _ _ _ _ _ _ _ _ Hok1 Ho Hnew E) as (-> & Hok' & _).
    destruct (finish_entries _ _ _ _ _ _ _ _ Hok1 Hm Hnew E) as [E1 E2]. split_and!; try done.
    + by exists owners1.
    + by rewrite E1, Hent.
    + intros id' Hid. by rewrite E2.
  - injection E as <- <-. split_and!; [done|by exists owners1| |by intros; apply Hent].
    destruct new; [by apply bool_decide_eq_false_1 in Hb; destruct Hb|]. rewrite Hent. cbn.
    unfold begin_update in Eb. unfold entries. destruct (space_map s !! id) as [h|] eqn:Hm; [|done].
    cbn in Eb. destruct (spaces s !! h) as [[]|]; by simplify_eq/=.
Qed.

Lemma accept_spec owners s now fs id ag body r s' :
  server_ok owners s -> accept_put now fs id ag body s = (r, s') ->
  server_ok owners s' /\ extends (srv_store s) (srv_store s') /\
  space_map s' = space_map s /\ spaces s' = spaces s /\
  match r with
  | Ok new => stored_ok s' id new /\ try_from_slice body = Ok new.1 /\ check_put now id ag new.1 = Ok tt
  | Err e => try_from_slice body = Err e \/
             exists info, try_from_slice body = Ok info /\ (check_put now id ag info = Err e \/ fs <> FsOk)
  | Panic _ => False
  end.
Proof.
  intros Hok E. unfold accept_put, bind at 1 in E. cbn in E. pose proof (try_from_slice_no_panic body) as Hnp.
  destruct (try_from_slice body) as [info|e|e] eqn:Hp;
    [|injection E as <- <-; split_and!; [done|apply extends_refl|done|done|by left]|done].
  unfold bind at 1 in E. cbn in E. destruct (check_put now id ag info) as [[]|e|e] eqn:Hc.
  - destruct (is_tombstone info) eqn:Ht.
    + injection E as <- <-. split_and!; try done; [apply extends_refl|]. split; [by unfold incoming_ok; cbn; rewrite Ht|].
      by exists now, ag.
    + unfold on_store in E. cbn in E. destruct (store_write fs body (srv_store s)) as [rw st] eqn:Ew.
      pose proof Hok as [So Mo Po]. destruct (store_write_spec _ _ _ _ _ So Ew) as (So' & He & Hr).
      assert (server_ok owners (set_srv_store st s)) as Hok'.
      { split; cbn; [done|done|]. eapply Forall2_impl; [exact Po|]. intros x y. by apply space_ok_extends. }
      destruct rw as [r0|e|e]; [|injection E as <- <-|done].
      * injection E as <- <-. split_and!; try done. split; [|by exists now, ag]. unfold incoming_ok. cbn. rewrite Ht.
        exists r0. split; [done|]. unfold ref_parse. by rewrite Hr.
      * split_and!; try done. right. exists info. split; [done|]. right. intros ->.
        destruct (store_write_ok body (srv_store s)) as (r1 & s1 & E1). congruence.
  - injection E as <- <-. split_and!; try done; [apply extends_refl|]. right. exists info. auto.
  - exfalso. unfold check_put in Hc. repeat case_match; done.
Qed.

(** What a put does, when no other thread runs. *)
Lemma put_spec owners s now now' fs id ag body r s' :
  server_ok owners s -> handle_boot_put max_entries_per_space now now' fs id ag body s = (r, s') ->
  match r with
  | Ok answer => answer = ok_response /\ exists info, try_from_slice body = Ok info /\
      check_put now id ag info = Ok tt /\
      entries s' id = stack_put max_entries_per_space now' info (entries s id)
  | Err e => entries s' id = entries s id /\
      (try_from_slice body = Err e \/
       exists info, try_from_slice body = Ok info /\ (check_put now id ag info = Err e \/ fs <> FsOk))
  | Panic _ => False
  end /\
  (forall id', id' <> id -> entries s' id' = entries s id') /\
  exists owners', server_ok owners' s'.
Proof.
  intros Hok E. unfold handle_boot_put, bind at 1 in E.
  destruct (accept_put now fs id ag body s) as [ra s1] eqn:Ea.
  destruct (accept_spec _ _ _ _ _ _ _ _ _ Hok Ea) as (Hok1 & Hext & Hmap & Hsp & Hra).
  assert (forall id', entries s1 id' = entries s id') as Hent.
  { intros id'. apply entries_extends; [done|by rewrite Hmap|by intros; rewrite Hsp|by exists owners]. }
  destruct ra as [new|e|e]; [|injection E as <- <-; split_and!; [done|done|done|by exists owners]|done].
  destruct Hra as (Hnew & Hparse & Hcheck). unfold bind in E.
  destruct (map_update max_entries_per_space now' id (Some new) s1) as [rm s2] eqn:Em.
  destruct (map_update_spec _ _ _ _ (Some new) _ _ Hok1 Hnew Em) as (-> & Hok2 & E1 & E2).
  injection E as <- <-. split_and!; [done| |by intros; rewrite E2|done].
  exists new.1. split_and!; [done|done|]. by rewrite E1, Hent.
Qed.

(** C29: A put that passes the checks of the specification does to the infos held
    of its space what the specification says of the stack, and nothing to
    those of other spaces; one that does not is refused and changes no space.
    A get then lists exactly the infos held, in the order of the stack. *)
Theorem put_refines_spec owners s now now' fs id ag body r s' :
  server_ok owners s -> handle_boot_put max_entries_per_space now now' fs id ag body s = (r, s') ->
  match r with
  | Ok answer => answer = ok_response /\ exists info, try_from_slice body = Ok info /\
      check_put now id ag info = Ok tt /\
      entries s' id = stack_put max_entries_per_space now' info (entries s id)
  | Err e => entries s' id = entries s id /\
      (try_from_slice body = Err e \/
       exists info, try_from_slice body = Ok info /\ (check_put now id ag info = Err e \/ fs <> FsOk))
  | Panic _ => False
  end /\
  (forall id', id' <> id -> entries s' id' = entries s id') /\
  (exists bs, handle_boot_get id s' = (Ok (200, json_list bs), s') /\
     Forall2 (fun b p => try_from_slice b = Ok p) bs (entries s' id)) /\
  exists owners', server_ok owners' s'.
Proof.
  intros Hok E. destruct (put_spec _ _ _ _ _ _ _ _ _ _ Hok E) as (Hr & Hoth & owners' & Hok').
  destruct (map_read_spec _ _ id Hok') as (bs & Eb & Hbs & _).
  split_and!; [done|done| |by exists owners']. exists bs. split; [|done]. unfold handle_boot_get. by rewrite Eb.
Qed.

(** ** Threads

    A put whose info was accepted and written waits for its update; an update
    waits between its two halves; the prune thread begins updates of any space
    with nothing to add. *)
Record SrvRun : Type := MkSrvRun {
  srv : Server;
  accepted_puts : list (bytes * Incoming);
  updating : list (nat * option Incoming);
}.

Inductive srv_step : SrvRun -> SrvRun -> Prop :=
  | sv_accept now fs id ag body new s s' puts puts' ups :
      accept_put now fs id ag body s = (Ok new, s') -> puts' ≡ₚ (id, new) :: puts ->
      srv_step (MkSrvRun s puts ups) (MkSrvRun s' puts' ups)
  | sv_refuse now fs id ag body e s s' puts ups :
      accept_put now fs id ag body s = (Err e, s') ->
      srv_step (MkSrvRun s puts ups) (MkSrvRun s' puts ups)
  | sv_begin id new h s s' puts puts' ups ups' :
      puts ≡ₚ (id, new) :: puts' -> begin_update id true s = (Ok (Some h), s') ->
      ups' ≡ₚ (h, Some new) :: ups ->
      srv_step (MkSrvRun s puts ups) (MkSrvRun s' puts' ups')
  | sv_prune id h s s' puts ups ups' :
      begin_update id false s = (Ok h, s') ->
      ups' ≡ₚ match h with Some h => (h, None) :: ups | None => ups end ->
      srv_step (MkSrvRun s puts ups) (MkSrvRun s' puts ups')
  | sv_finish now h new s s' puts ups ups' :
      ups ≡ₚ (h, new) :: ups' -> finish_update max_entries_per_space now h new s = (Ok tt, s') ->
      srv_step (MkSrvRun s puts ups) (MkSrvRun s' puts ups').

Definition srv_start : SrvRun := MkSrvRun server_new [] [].

Record srv_ok (owners : list bytes) (r : SrvRun) : Prop := {
  server_is_ok : server_ok owners (srv r);
  puts_ok : forall id new, (id, new) ∈ accepted_puts r -> stored_ok (srv r) id new;
  updates_ok : forall h new, (h, new) ∈ updating r ->
    exists id, owners !! h = Some id /\ from_option (stored_ok (srv r) id) True new;
}.

Lemma stored_extends s s' id new : extends (srv_store s) (srv_store s') ->
  from_option (stored_ok s id) True new -> from_option (stored_ok s' id) True new.
Proof.
  intros He. destruct new as [new|]; [|done]. cbn. intros [Hi Hc]. split; [by eapply incoming_extends|done].
Qed.

Lemma extends_same (s s' : Server) : srv_store s' = srv_store s -> extends (srv_store s) (srv_store s').
Proof. intros ->. apply extends_refl. Qed.

(** What waits is not harmed by the steps of others. *)
Lemma srv_ok_keeps owners owners' r s' :
  srv_ok owners r -> server_ok owners' s' -> (owners `prefix_of` owners') ->
  extends (srv_store (srv r)) (srv_store s') -> srv_ok owners' (MkSrvRun s' (accepted_puts r) (updating r)).
Proof.
  intros [Hs Hp Hu] Hs' Hpre He. split; cbn; [done| |].
  - intros id new Hin. exact (stored_extends _ _ id (Some new) He (Hp _ _ Hin)).
  - intros h new Hin. destruct (Hu _ _ Hin) as (id & Ho & Hn). exists id.
    split; [by eapply prefix_lookup_Some|by eapply stored_extends].
Qed.

Lemma srv_step_ok owners r r' : srv_ok owners r -> srv_step r r' -> exists owners', srv_ok owners' r'.
Proof.
  intros Hok Hst. pose proof Hok as [Hs Hp Hu].
  destruct Hst as [now fs id ag body new s s' puts puts' ups E Eq|now fs id ag body e s s' puts ups E
    |id new h s s' puts puts' ups ups' Ep E Eu|id h s s' puts ups ups' E Eu|now h new s s' puts ups ups' Eu E];
    cbn [srv accepted_puts updating] in *.
  - destruct (accept_spec _ _ _ _ _ _ _ _ _ Hs E) as (Hs' & He & _ & _ & Hnew & _).
    destruct (srv_ok_keeps _ _ _ _ Hok Hs' (reflexivity _) He) as [? Hp' Hu']. exists owners. split; cbn; [done| |done].
    intros id' new' Hin. rewrite Eq in Hin. apply elem_of_cons in Hin as [[= -> ->]|Hin]; [done|]. by apply Hp'.
  - destruct (accept_spec _ _ _ _ _ _ _ _ _ Hs E) as (Hs' & He & _).
    exists owners. exact (srv_ok_keeps _ _ _ _ Hok Hs' (reflexivity _) He).
  - destruct (begin_spec _ _ _ _ _ _ Hs E) as (owners' & Hs' & Hpre & Hst & Ho & _).
    destruct (srv_ok_keeps _ _ _ _ Hok Hs' Hpre (extends_same _ _ Hst)) as [? Hp' Hu'].
    exists owners'. split; cbn; [done| |].
    + intros id' new' Hin. apply Hp'. cbn. rewrite Ep. by right.
    + intros h' new' Hin. rewrite Eu in Hin. apply elem_of_cons in Hin as [[= -> ->]|Hin]; [|by apply Hu'].
      exists id. split; [done|]. apply (Hp' id new). cbn. rewrite Ep. by left.
  - destruct (begin_spec _ _ _ _ _ _ Hs E) as (owners' & Hs' & Hpre & Hst & Ho).
    destruct (srv_ok_keeps _ _ _ _ Hok Hs' Hpre (extends_same _ _ Hst)) as [? Hp' Hu'].
    exists owners'. split; cbn; [done|done|]. intros h' new' Hin. rewrite Eu in Hin.
    destruct h as [h|]; [|by apply Hu']. apply elem_of_cons in Hin as [[= -> ->]|Hin]; [|by apply Hu'].
    exists id. by split; [destruct Ho|].
  - destruct (Hu h new) as (id & Ho & Hn); [rewrite Eu; by left|].
    destruct (finish_spec _ _ _ _ _ _ _ _ Hs Ho Hn E) as (_ & Hs' & Hst & _).
    destruct (srv_ok_keeps _ _ _ _ Hok Hs' (reflexivity _) (extends_same _ _ Hst)) as [? Hp' Hu'].
    exists owners. split; cbn; [done|done|]. intros h' new' Hin. apply Hu'. cbn. rewrite Eu. by right.
Qed.

Lemma server_new_ok : server_ok [] server_new.
Proof.
  split; cbn; [by split; constructor| |constructor]. intros id h Hl. by rewrite lookup_empty in Hl.
Qed.

Lemma srv_runs_ok r : rtc srv_step srv_start r -> exists owners, srv_ok owners r.
Proof.
  intros Hrun. assert (exists owners, srv_ok owners srv_start) as H0.
  { exists []. split; cbn; [exact server_new_ok|..].
    - intros ? ? Hin. by apply elem_of_nil in Hin.
    - intros ? ? Hin. by apply elem_of_nil in Hin. }
  induction Hrun as [|x y z Hxy _ IH]; [done|]. apply IH. destruct H0 as [owners H0]. by eapply srv_step_ok.
Qed.

(** C28: Whatever the worker threads and the prune thread do at the same time, a
    get answers with a list of at most the limit of infos, no two of one agent,
    each accepted for that very space by all the checks of a put and none a
    tombstone; and no update under way can fail. *)
Theorem served_always_ok r id : rtc srv_step srv_start r ->
  (exists bs ps, handle_boot_get id (srv r) = (Ok (200, json_list bs), srv r) /\
     Forall2 (fun b p => try_from_slice b = Ok p) bs ps /\ NoDup (map agent ps) /\
     (length ps <= max_entries_per_space)%nat /\ Forall (accepted id) ps) /\
  forall h new now, (h, new) ∈ updating r ->
    exists s', finish_update max_entries_per_space now h new (srv r) = (Ok tt, s').
Proof.
  intros (owners & [Hs _ Hu])%srv_runs_ok. split.
  - destruct (map_read_spec _ _ id Hs) as (bs & E & Hbs & Hnd & Hlen & Hacc). exists bs, (entries (srv r) id).
    split_and!; try done. unfold handle_boot_get. by rewrite E.
  - intros h new now Hin. destruct (Hu _ _ Hin) as (id' & Ho & Hn).
    destruct (finish_update max_entries_per_space now h new (srv r)) as [rf s'] eqn:E. exists s'. f_equal.
    by destruct (finish_spec _ _ _ _ _ _ _ _ Hs Ho Hn E).
Qed.

(** The first put to a space can be lost: if the prune thread looks at the
    space between the two halves of the update, it forgets the space, still
    empty, and the update fills a space that nothing names.  The put is
    answered with success and a get lists nothing. *)
Theorem put_lost_to_prune r id new puts now :
  rtc srv_step srv_start r -> accepted_puts r ≡ₚ (id, new) :: puts -> space_map (srv r) !! id = None ->
  exists h s1 s2 s3,
    begin_update id true (srv r) = (Ok (Some h), s1) /\
    begin_update id false s1 = (Ok None, s2) /\
    finish_update max_entries_per_space now h (Some new) s2 = (Ok tt, s3) /\
    rtc srv_step r (MkSrvRun s3 puts (updating r)) /\
    handle_boot_get id s3 = (Ok (200, [91; 93]), s3).
Proof.
  intros Hrun Hputs Hm. destruct (srv_runs_ok r Hrun) as [owners Hok]. destruct r as [s ps ups]. cbn in *.
  set (h := length (spaces s)). set (s1 := MkServer (srv_store s) (<[ id := h ]> (space_map s)) (spaces s ++ [[]])).
  set (s2 := MkServer (srv_store s) (delete id (space_map s1)) (spaces s1)).
  assert (begin_update id true s = (Ok (Some h), s1)) as E1 by by (unfold begin_update; rewrite Hm).
  assert (begin_update id false s1 = (Ok None, s2)) as E2.
  { unfold begin_update. cbn [space_map s1]. rewrite lookup_insert_eq. cbn [spaces s1].
    unfold h at 1. by rewrite lookup_app_r, Nat.sub_diag by lia. }
  assert (srv_step (MkSrvRun s ps ups) (MkSrvRun s1 puts ((h, Some new) :: ups))) as St1 by by eapply sv_begin.
  assert (srv_step (MkSrvRun s1 puts ((h, Some new) :: ups)) (MkSrvRun s2 puts ((h, Some new) :: ups))) as St2
    by by eapply sv_prune.
  destruct (srv_step_ok _ _ _ Hok St1) as [o1 Hok1]. destruct (srv_step_ok _ _ _ Hok1 St2) as [o2 [Hs2 _ Hu2]].
  destruct (Hu2 h (Some new)) as (id' & Ho & Hn); [by left|]. cbn in Hs2, Hn.
  destruct (finish_update max_entries_per_space now h (Some new) s2) as [rf s3] eqn:E3.
  destruct (finish_spec _ _ _ _ _ (Some new) _ _ Hs2 Ho Hn E3) as (-> & _ & _ & Hm3 & _).
  exists h, s1, s2, s3. split_and!; try done.
  - eapply rtc_l; [exact St1|]. eapply rtc_l; [exact St2|]. apply rtc_once. by eapply sv_finish.
  - unfold handle_boot_get, map_read. rewrite Hm3. cbn [space_map s2]. by rewrite lookup_delete_eq.
Qed.
End run.
