(* ===== verification/SrvHttp.v ===== *)
(** * Access to the bootstrap server and its relay

    [bootstrap_srv/src/auth.rs], [relay_allowlist.rs] and [relay_access.rs]:
    the bearer tokens with the time of their last use, the keys allowed on the
    relay with the token they were registered with, and the tokens of the live
    relay connections; the turn of the prune worker on them ([server.rs]).
    Each operation holds the lock of what it changes and reads the clock once.
    The hook server and JSON are parameters. *)
From S2P Require Import Prelude Id SrvStore SrvSpace SrvServer.

Record AuthConfig : Type := MkAuthConfig {
  authentication_hook_server : option string;
  auth_token_idle_timeout : Z;
}.

Definition default_auth_config : AuthConfig := MkAuthConfig None (300 * 1000000000).

Abbreviation Instant := Z.
Abbreviation Tokens := (gmap string Z).

(** [Instant::duration_since] saturates. *)
Definition duration_since (now earlier : Instant) : Z := Z.max 0 (now - earlier).

(** ** [AuthTokenTracker] *)

Definition register_token (now : Instant) (token : string) (tokens : Tokens) : Tokens :=
  <[ token := now ]> tokens.

Definition is_valid (config : AuthConfig) (now : Instant) (token : option string) (tokens : Tokens)
  : bool * Tokens :=
  match token with
  | None => (bool_decide (authentication_hook_server config = None), tokens)
  | Some token =>
      match tokens !! token with
      | Some last_used =>
          if duration_since now last_used <? auth_token_idle_timeout config
          then (true, <[ token := now ]> tokens)
          else (false, delete token tokens)
      | None => (false, tokens)
      end
  end.

Definition idle (config : AuthConfig) (now : Instant) (kv : string * Z) : Prop :=
  auth_token_idle_timeout config <= duration_since now kv.2.
#[global] Instance idle_dec config now kv : Decision (idle config now kv).
Proof. unfold idle. apply _. Defined.

Definition prune_expired (config : AuthConfig) (now : Instant) (tokens : Tokens) : list string * Tokens :=
  ((map_to_list (filter (idle config now) tokens)).*1, filter (fun kv => ~ idle config now kv) tokens).

(** ** [RelayAllowlist] and [RelayConnTracker] *)

Abbreviation Allowlist := (gmap (list Z) string).
Abbreviation Conns := (gmap Z string).

Definition is_allowed (key : bytes) (entries : Allowlist) : bool := bool_decide (is_Some (entries !! key)).

Definition prune_for_expired_tokens (expired_tokens : list string) (entries : Allowlist) : Allowlist :=
  match expired_tokens with
  | [] => entries
  | _ => filter (fun kv => kv.2 ∉ expired_tokens) entries
  end.

Definition string_le (a b : string) : Prop := String.leb a b = true.
#[global] Instance string_le_dec a b : Decision (string_le a b).
Proof. unfold string_le. apply _. Defined.

(** [Vec::dedup]: of equal neighbours the first stays. *)
Fixpoint dedup (l : list string) : list string :=
  match l with
  | [] => []
  | x :: l => match dedup l with
              | [] => [x]
              | y :: r => if bool_decide (x = y) then y :: r else x :: y :: r
              end
  end.

Definition live_tokens (conns : Conns) : list string := dedup (merge_sort string_le (map_to_list conns).*2).

(** ** The state and the operations on it *)

Record AuthState : Type := MkAuth {
  tokens : Tokens;
  allowlist : Allowlist;
  conns : Conns;
  auth_failures : Z;
}.

Definition auth_new : AuthState := MkAuth ∅ ∅ ∅ 0.

Definition set_tokens (t : Tokens) s := MkAuth t (allowlist s) (conns s) (auth_failures s).
Definition set_allowlist (a : Allowlist) s := MkAuth (tokens s) a (conns s) (auth_failures s).
Definition set_conns (c : Conns) s := MkAuth (tokens s) (allowlist s) c (auth_failures s).
Definition add_auth_failure s := MkAuth (tokens s) (allowlist s) (conns s) (wrap_u64 (auth_failures s + 1)).

Definition check_token (config : AuthConfig) (now : Instant) (token : option string) (s : AuthState)
  : bool * AuthState :=
  let (valid, t) := is_valid config now token (tokens s) in (valid, set_tokens t s).

Inductive AuthenticateError : Type := Unauthorized | Pending | HookServerError | OtherError.

(** What comes of the call of the hook server: an answer with its body, if that
    can be read, an error status, no answer, or a task that did not finish. *)
Inductive HookOutcome : Type :=
  | HookAnswer (status : Z) (body : option string)
  | HookStatusError (status : Z)
  | HookUnreachable
  | HookTaskFailed.

Section auth.
(** The string at "authToken" of a JSON text: none of it may not be JSON. *)
Variable auth_token_of : string -> option (option string).
Variable config : AuthConfig.

Definition call_hook_server (hook_put : string -> bytes -> HookOutcome) (base_url : string) (auth_bytes : bytes)
  : string + AuthenticateError :=
  match hook_put (String.append (trim_end_slashes base_url) "/authenticate") auth_bytes with
  | HookTaskFailed => inr OtherError
  | HookAnswer status body =>
      if status =? 202 then inr Pending
      else match body ≫= auth_token_of with
           | Some (Some token) => inl token
           | _ => inr OtherError
           end
  | HookStatusError status => if status =? 401 then inr Unauthorized else inr HookServerError
  | HookUnreachable => inr HookServerError
  end.

(** [random]: the token made when there is no hook server. *)
Definition process_authenticate (now : Instant) (hook_put : string -> bytes -> HookOutcome) (random : string)
  (auth_bytes : bytes) (s : AuthState) : (string + AuthenticateError) * AuthState :=
  match authentication_hook_server config with
  | Some hook_server_url =>
      match call_hook_server hook_put hook_server_url auth_bytes with
      | inl token => (inl token, set_tokens (register_token now token (tokens s)) s)
      | inr Pending => (inr Pending, s)
      | inr e => (inr e, add_auth_failure s)
      end
  | None => (inl random, set_tokens (register_token now random (tokens s)) s)
  end.

(** [TokenAccess::on_connect] of a relay connection. *)
Definition on_connect (now : Instant) (endpoint_id : bytes) (connection_id : Z) (auth_token : option string)
  (s : AuthState) : bool * AuthState :=
  match auth_token with
  | Some token =>
      let (valid, s) := check_token config now (Some token) s in
      if valid : bool then (true, set_conns (<[ connection_id := token ]> (conns s)) s)
      else (is_allowed endpoint_id (allowlist s), s)
  | None => (false, s)
  end.

Definition on_disconnect (connection_id : Z) (s : AuthState) : AuthState :=
  set_conns (delete connection_id (conns s)) s.

(** The turn of the prune worker: the tokens of live connections count as used. *)
Definition prune_tokens (now : Instant) (s : AuthState) : AuthState :=
  let t := foldl (fun t token => register_token now token t) (tokens s) (live_tokens (conns s)) in
  let (expired, t) := prune_expired config now t in
  set_tokens t (set_allowlist (prune_for_expired_tokens expired (allowlist s)) s).
End auth.

(** * The HTTP front of the bootstrap server

    [bootstrap_srv/src/http.rs]: what each route checks before a request is
    handed to a worker thread, and what it answers.  axum routes the requests
    and refuses bodies above the limit; a header's value is the text it holds,
    if it holds visible characters only. *)
(** What becomes of a request that is handed to the workers within ten seconds:
    it may be answered, dropped, or time out and be worked on or not. *)
Inductive Dispatch : Type := Answered | Dropped | TimedOut (worked_on : bool).

(** The characters of a message. *)
Fixpoint text (s : string) : bytes :=
  match s with
  | EmptyString => []
  | String c s => Z.of_nat (Ascii.nat_of_ascii c) :: text s
  end.

Fixpoint strip_prefix (p s : string) : option string :=
  match p, s with
  | EmptyString, _ => Some s
  | String a p, String b s => if bool_decide (a = b) then strip_prefix p s else None
  | _, _ => None
  end.

Definition bearer_token (authorization : option string) : option string :=
  authorization ≫= strip_prefix "Bearer ".

Section http.
Context `{EntryCodec}.
Variable max_entries_per_space : nat.
Variable error_body : string -> bytes.
Variable auth_token_of : string -> option (option string).
(** The JSON object with a token at "authToken". *)
Variable auth_token_body : string -> bytes.
(** The bytes of a point of the curve. *)
Variable public_key : bytes -> bool.
Variable config : AuthConfig.

Record HttpState : Type := MkHttp { auth_state : AuthState; server : Server }.

Definition set_auth (a : AuthState) (s : HttpState) : HttpState := MkHttp a (server s).
Definition set_server (v : Server) (s : HttpState) : HttpState := MkHttp (auth_state s) v.

Definition unauthorized : Answer := (401, text "Unauthorized").

(** A worker's thread ends when a handler panics. *)
Definition handle_dispatch (d : Dispatch) (now now' : Z) (fs : FsOutcome) (req : HttpRequest)
  : M HttpState Answer := fun s =>
  let work := handle max_entries_per_space error_body now now' fs req (server s) in
  match d with
  | Answered => (work.1, set_server work.2 s)
  | Dropped => (Ok (500, text "{'error':'request dropped'}"), s)
  | TimedOut worked_on =>
      (Ok (500, text "{'error':'internal timeout'}"), if worked_on then set_server work.2 s else s)
  end.

Definition b64_to_bytes (s : string) : bytes + Answer :=
  match b64_decode s with Some b => inl b | None => inr (400, text "invalid base64") end.

Definition http_health_get (d : Dispatch) (now now' : Z) (fs : FsOutcome) : M HttpState Answer :=
  handle_dispatch d now now' fs HealthGet.

(** The guard of the routes under [/bootstrap]. *)
Definition guarded {A} (instant : Instant) (authorization : option string) (refused : A) (k : M HttpState A)
  : M HttpState A := fun s =>
  let (valid, a) := check_token config instant (bearer_token authorization) (auth_state s) in
  let s := set_auth a s in
  if negb valid then (Ok refused, s) else k s.

Definition http_boot_get (instant : Instant) (d : Dispatch) (now now' : Z) (fs : FsOutcome)
  (space : string) (authorization : option string) : M HttpState Answer :=
  guarded instant authorization unauthorized
    (match b64_to_bytes space with
     | inr err => ret err
     | inl space => handle_dispatch d now now' fs (BootstrapGet space)
     end).

Definition http_boot_put (instant : Instant) (d : Dispatch) (now now' : Z) (fs : FsOutcome)
  (space agent : string) (authorization : option string) (body : bytes) : M HttpState Answer :=
  guarded instant authorization unauthorized
    (match b64_to_bytes space with
     | inr err => ret err
     | inl space =>
         match b64_to_bytes agent with
         | inr err => ret err
         | inl agent => handle_dispatch d now now' fs (BootstrapPut space agent body)
         end
     end).

Definition handle_auth (instant : Instant) (hook_put : string -> bytes -> HookOutcome) (random : string)
  (body : bytes) : M HttpState Answer := fun s =>
  let (r, a) := process_authenticate auth_token_of config instant hook_put random body (auth_state s) in
  (Ok match r with
      | inl token => (200, auth_token_body token)
      | inr Unauthorized => unauthorized
      | inr Pending => (202, [])
      | inr HookServerError => (502, text "BAD_GATEWAY")
      | inr OtherError => (500, text "INTERNAL_SERVER_ERROR")
      end, set_auth a s).

(** Keys are registered only where there is a hook server: there is no list
    otherwise. *)
Definition handle_relay_keepalive (instant : Instant) (authorization : option string) (body : bytes)
  : M HttpState Answer :=
  guarded instant authorization unauthorized
    (if negb (bool_decide (length body = 32%nat)) then ret (400, text "Expected exactly 32 bytes (iroh public key)")
     else if negb (public_key body) then ret (400, text "Invalid public key bytes")
     else if bool_decide (is_Some (authentication_hook_server config)) then
       match bearer_token authorization with
       | None => ret (500, text "Internal server error")
       | Some token =>
           modify (fun s => set_auth (set_allowlist (<[ body := token ]> (allowlist (auth_state s)))
                                        (auth_state s)) s) ;;*
           ret ok_response
       end
     else ret ok_response).
End http.
