(* ===== verification/SrvAccess.v ===== *)
(** * Who gets past the front of the bootstrap server

    Runs of the front: requests, relay connections and the turns of the prune
    worker, each at the time of the (monotonic) clock it reads. *)
From S2P Require Import Prelude Id SrvStore SrvSpace SrvServer SrvHttp.

Section access.
Variable auth_token_of : string -> option (option string).
Variable config : AuthConfig.

(** What can happen to the tokens; the outcome of an authentication is that of
    the hook server, or a random token. *)
Inductive AuthEvent : Type :=
  | EvAuthenticate (hook_put : string -> bytes -> HookOutcome) (random : string) (auth_bytes : bytes)
  | EvRequest (token : option string)
  | EvKeepalive (token : option string) (key : bytes)
  | EvConnect (endpoint_id : bytes) (connection_id : Z) (token : option string)
  | EvDisconnect (connection_id : Z)
  | EvPrune.

(** The token that an event shows to be in use. *)
Definition used_token (now : Instant) (ev : AuthEvent) (s : AuthState) : list string :=
  match ev with
  | EvAuthenticate hook_put random auth_bytes =>
      match (process_authenticate auth_token_of config now hook_put random auth_bytes s).1 with
      | inl token => [token]
      | inr _ => []
      end
  | EvRequest token | EvKeepalive token _ | EvConnect _ _ token =>
      match token with
      | Some t => if (is_valid config now token (tokens s)).1 then [t] else []
      | None => []
      end
  | EvDisconnect _ => []
  | EvPrune => live_tokens (conns s)
  end.

(** The keepalive of a request whose body is a key. *)
Definition keepalive (now : Instant) (token : option string) (key : bytes) (s : AuthState) : AuthState :=
  let (valid, s) := check_token config now token s in
  match valid, authentication_hook_server config, token with
  | true, Some _, Some t => set_allowlist (<[ key := t ]> (allowlist s)) s
  | _, _, _ => s
  end.

Definition auth_apply (now : Instant) (ev : AuthEvent) (s : AuthState) : AuthState :=
  match ev with
  | EvAuthenticate hook_put random auth_bytes =>
      (process_authenticate auth_token_of config now hook_put random auth_bytes s).2
  | EvRequest token => (check_token config now token s).2
  | EvKeepalive token key => keepalive now token key s
  | EvConnect endpoint_id connection_id token => (on_connect config now endpoint_id connection_id token s).2
  | EvDisconnect connection_id => on_disconnect connection_id s
  | EvPrune => prune_tokens config now s
  end.

(** A run: the state, the clock, and the uses of tokens so far. *)
Record AuthRun : Type := MkAuthRun { au_state : AuthState; clock : Instant; uses : list (string * Instant) }.

Definition auth_next (now : Instant) (ev : AuthEvent) (r : AuthRun) : AuthRun :=
  MkAuthRun (auth_apply now ev (au_state r)) now
    (map (fun t => (t, now)) (used_token now ev (au_state r)) ++ uses r).

Inductive auth_step : AuthRun -> AuthRun -> Prop :=
  | as_event now ev r : clock r <= now -> auth_step r (auth_next now ev r).

Definition auth_start : AuthRun := MkAuthRun auth_new 0 [].

(** A token is fresh if it was used less than the timeout ago. *)
Definition fresh_at (now : Instant) (used : list (string * Instant)) (token : string) : Prop :=
  exists t, (token, t) ∈ used /\ now - t < auth_token_idle_timeout config.

(** The tracker knows the last use of each fresh token. *)
Record tokens_ok (t : Tokens) (now : Instant) (used : list (string * Instant)) : Prop := {
  known_used : forall token l, t !! token = Some l -> (token, l) ∈ used;
  used_before : forall token l, (token, l) ∈ used -> l <= now;
  fresh_known : forall token l, (token, l) ∈ used -> now - l < auth_token_idle_timeout config ->
    exists l', t !! token = Some l' /\ l <= l';
}.

Lemma tokens_later t now now' used : tokens_ok t now used -> now <= now' -> tokens_ok t now' used.
Proof.
  intros [K B F] Hn. split; [done| |].
  - intros token l Hin. specialize (B _ _ Hin). lia.
  - intros token l Hin Hf. apply (F token l Hin). lia.
Qed.

Lemma valid_iff_fresh t now used token : tokens_ok t now used ->
  (is_valid config now (Some token) t).1 = true <-> fresh_at now used token.
Proof.
  intros [K B F]. unfold is_valid, duration_since. destruct (t !! token) as [l|] eqn:E.
  - assert (l <= now) as Hl by by eapply B, K. destruct (Z.ltb_spec (Z.max 0 (now - l)) (auth_token_idle_timeout config)); cbn.
    + split; [|done]. intros _. exists l. split; [by apply K|lia].
    + split; [done|]. intros (l' & Hin & Hf). destruct (F _ _ Hin Hf) as (l2 & E2 & Hle).
      rewrite E in E2. injection E2 as <-. specialize (B _ _ Hin). lia.
  - cbn. split; [done|]. intros (l & Hin & Hf). destruct (F _ _ Hin Hf) as (l' & E' & _). congruence.
Qed.

Lemma tokens_use t now used token : tokens_ok t now used ->
  tokens_ok (register_token now token t) now ((token, now) :: used).
Proof.
  intros [K B F]. split; unfold register_token.
  - intros token' l [[<- <-]|[Hne Hl]]%lookup_insert_Some; [by left|]. right. by apply K.
  - intros token' l [[= -> ->]|Hin]%elem_of_cons; [lia|]. by eapply B.
  - intros token' l Hin Hf. destruct (decide (token = token')) as [->|Hne].
    + exists now. rewrite lookup_insert_eq. split; [done|]. apply elem_of_cons in Hin as [[= ->]|Hin]; [lia|]. by eapply B.
    + rewrite lookup_insert_ne by done. apply F; [|done]. by apply elem_of_cons in Hin as [[= -> ->]|Hin].
Qed.

Lemma tokens_stale t now used (P : string -> Prop) t' : tokens_ok t now used ->
  (forall token, P token \/ t' !! token = t !! token) ->
  (forall token, P token -> t' !! token = None /\ ~ fresh_at now used token) -> tokens_ok t' now used.
Proof.
  intros [K B F] Hor HP. split; [|done|].
  - intros token l Hl. destruct (Hor token) as [Hp|E]; [|apply K; congruence].
    destruct (HP _ Hp) as [Hn _]. congruence.
  - intros token l Hin Hf. destruct (Hor token) as [Hp|E]; [|rewrite E; by apply F].
    destruct (HP _ Hp) as [_ Hn]. destruct Hn. by exists l.
Qed.

Lemma tokens_check t now used token : tokens_ok t now used ->
  let v := is_valid config now (Some token) t in
  tokens_ok v.2 now (if v.1 then (token, now) :: used else used).
Proof.
  intros Hok v. pose proof (valid_iff_fresh t now used token Hok) as Hv. fold v in Hv. subst v.
  unfold is_valid in *. destruct (t !! token) as [l|] eqn:E; [|done]. destruct (_ <? _); cbn in *.
  - by apply tokens_use.
  - apply (tokens_stale t now used (eq token)); [done| |].
    + intros token'. destruct (decide (token = token')); [by left|right; by apply lookup_delete_ne].
    + intros token' <-. split; [by rewrite lookup_delete_eq|]. by intros ?%Hv.
Qed.

Lemma tokens_prune t now used : tokens_ok t now used -> tokens_ok (prune_expired config now t).2 now used.
Proof.
  intros Hok. pose proof Hok as [K B F]. cbn.
  apply (tokens_stale t now used (fun token => exists l, t !! token = Some l /\ idle config now (token, l))); [done| |].
  - intros token. destruct (t !! token) as [l|] eqn:E.
    + destruct (decide (idle config now (token, l))) as [Hi|Hi]; [left; by exists l|right].
      by apply map_lookup_filter_Some_2.
    + right. apply map_lookup_filter_None_2. by left.
  - intros token (l & E & Hi). split.
    + apply map_lookup_filter_None_2. right. intros x Hx. rewrite E in Hx. by injection Hx as <-; intros [].
    + intros Hf%(valid_iff_fresh t now used token Hok). unfold is_valid in Hf. rewrite E in Hf.
      unfold idle in Hi. cbn in Hi. destruct (Z.ltb_spec (duration_since now l) (auth_token_idle_timeout config)); [lia|done].
Qed.

Lemma tokens_uses t now used used' : (forall x, x ∈ used <-> x ∈ used') -> tokens_ok t now used -> tokens_ok t now used'.
Proof.
  intros He [K B F]. split.
  - intros token l Hl. by apply He, K.
  - intros token l Hin. by eapply B, He.
  - intros token l Hin. by apply F, He.
Qed.

Lemma tokens_use_all live t now used : tokens_ok t now used ->
  tokens_ok (foldl (fun t token => register_token now token t) t live) now (map (fun t => (t, now)) live ++ used).
Proof.
  revert t used. induction live as [|token live IH]; intros t used Hok; [done|]. cbn.
  eapply tokens_uses; [|by apply IH, (tokens_use t now used token)]. intros x. cbn.
  rewrite !elem_of_cons, !elem_of_app, elem_of_cons. clear auth_token_of; tauto.
Qed.

Definition auth_ok (r : AuthRun) : Prop := tokens_ok (tokens (au_state r)) (clock r) (uses r).

Lemma auth_step_ok r r' : auth_step r r' -> auth_ok r -> auth_ok r'.
Proof.
  destruct 1 as [now ev r Hn]. unfold auth_ok, auth_next. cbn. intros Hok%(tokens_later _ _ now); [|done].
  assert (forall token, tokens_ok (is_valid config now token (tokens (au_state r))).2 now
    (map (fun t => (t, now)) (match token with
       | Some t => if (is_valid config now token (tokens (au_state r))).1 then [t] else []
       | None => [] end) ++ uses r)) as Hcheck.
  { intros [token|]; [|done]. pose proof (tokens_check _ _ _ token Hok) as Hc. cbn zeta in Hc.
    by destruct (is_valid config now (Some token) (tokens (au_state r))).1. }
  destruct ev as [hook random auth_bytes|token|token key|key c token|c|]; cbn [auth_apply used_token].
  - unfold process_authenticate. destruct (authentication_hook_server config); [|by apply tokens_use].
    destruct (call_hook_server auth_token_of hook s auth_bytes) as [token|[]]; cbn; try done. by apply tokens_use.
  - specialize (Hcheck token). unfold check_token. by destruct (is_valid config now token _).
  - specialize (Hcheck token). unfold keepalive, check_token.
    destruct (is_valid config now token _) as [[] t]; cbn in *; by repeat case_match.
  - specialize (Hcheck token). unfold on_connect, check_token. destruct token as [token|]; [|done].
    by destruct (is_valid config now (Some token) _) as [[] t].
  - done.
  - unfold prune_tokens. pose proof (tokens_prune _ _ _ (tokens_use_all (live_tokens (conns (au_state r))) _ _ _ Hok)) as Hp.
    by destruct (prune_expired config now _).
Qed.

Lemma auth_runs_ok r : rtc auth_step auth_start r -> auth_ok r.
Proof.
  intros Hrun. assert (auth_ok auth_start) as H0.
  { split; cbn; [intros ? ? Hl; by rewrite lookup_empty in Hl|..]; intros ? ? Hin; by apply elem_of_nil in Hin. }
  induction Hrun as [|x y z Hxy _ IH]; [done|]. apply IH. by eapply auth_step_ok.
Qed.

(** *** Who gets past *)

Lemma fresh_passes r now token : auth_ok r -> clock r <= now ->
  (is_valid config now (Some token) (tokens (au_state r))).1 = true <-> fresh_at now (uses r) token.
Proof. intros Hok Hn. apply valid_iff_fresh. by apply (tokens_later _ (clock r)). Qed.

(** C30: With a hook server, a request gets past the guard of the routes exactly
    if it bears a token that was issued, or shown in use by a request or by a
    live relay connection, less than the timeout before; it is answered 401
    otherwise, and changes nothing of the server.  A relay connection is let
    in by such a token too, and otherwise only by a key on the allowlist. *)
Theorem only_fresh_tokens_pass r now url authorization v :
  rtc auth_step auth_start r -> clock r <= now -> authentication_hook_server config = Some url ->
  let passes := exists token, bearer_token authorization = Some token /\ fresh_at now (uses r) token in
  (passes -> forall A (refused : A) k, exists a,
     guarded config now authorization refused k (MkHttp (au_state r) v) = k (MkHttp a v)) /\
  ((passes -> False) -> forall A (refused : A) k, exists a,
     guarded config now authorization refused k (MkHttp (au_state r) v) = (Ok refused, MkHttp a v)) /\
  (forall endpoint_id connection_id token,
     (on_connect config now endpoint_id connection_id token (au_state r)).1 = true <->
     exists t, token = Some t /\
       (fresh_at now (uses r) t \/ is_Some (allowlist (au_state r) !! endpoint_id))).
Proof.
  intros Hrun%auth_runs_ok Hn Hh passes. pose proof (fun t => fresh_passes r now t Hrun Hn) as Hf.
  unfold guarded, check_token. cbn [auth_state]. split_and!.
  - intros (token & -> & Hfresh%Hf) A refused k. destruct (is_valid config now (Some token) _) as [valid t].
    cbn in Hfresh. subst valid. by eexists.
  - intros Hno A refused k. destruct (bearer_token authorization) as [token|] eqn:Eb.
    + specialize (Hf token). destruct (is_valid config now (Some token) _) as [[] t]; [|by eexists].
      destruct Hno. exists token. split; [done|]. by apply Hf.
    + cbn. rewrite Hh. by eexists.
  - intros key c [token|]; [|by split; [|intros (? & ? & _)]]. unfold on_connect, check_token.
    specialize (Hf token). destruct (is_valid config now (Some token) _) as [[] t]; cbn.
    + split; [|done]. intros _. exists token. split; [done|]. left. by apply Hf.
    + unfold is_allowed. rewrite bool_decide_eq_true. split; [intros Hk; exists token; tauto|].
      intros (t' & [= <-] & [?%Hf|?]); done.
Qed.

(** ** Keys that outlive their token *)

Lemma elem_of_dedup x l : x ∈ dedup l <-> x ∈ l.
Proof.
  induction l as [|y l IH]; [done|]. cbn. rewrite elem_of_cons, <- IH. destruct (dedup l) as [|z r].
  - rewrite list_elem_of_singleton. split; [by left|]. by intros [?|?%elem_of_nil].
  - case_bool_decide as He; [subst; rewrite elem_of_cons; clear; tauto|]. by rewrite elem_of_cons.
Qed.

Lemma elem_of_live_tokens token c : token ∈ live_tokens c <-> exists id, c !! id = Some token.
Proof.
  unfold live_tokens. rewrite elem_of_dedup, merge_sort_Permutation, list_elem_of_fmap. split.
  - intros ((id & t) & -> & Hin%elem_of_map_to_list). by exists id.
  - intros [id Hid]. exists (id, token). split; [done|]. by apply elem_of_map_to_list.
Qed.

(** An event that makes the token known again, or gives the key a new one. *)
Definition renews (token : string) (key : bytes) (now : Instant) (ev : AuthEvent) (s : AuthState) : Prop :=
  match ev with
  | EvAuthenticate hook_put random auth_bytes =>
      (process_authenticate auth_token_of config now hook_put random auth_bytes s).1 = inl token
  | EvKeepalive _ key' => key' = key
  | _ => False
  end.

Inductive other_step (token : string) (key : bytes) : AuthState -> AuthState -> Prop :=
  | os_event now ev s : (renews token key now ev s -> False) -> other_step token key s (auth_apply now ev s).

Record stranded (token : string) (key : bytes) (s : AuthState) : Prop := {
  st_forgotten : tokens s !! token = None;
  st_unused : forall c t, conns s !! c = Some t -> t <> token;
  st_allowed : allowlist s !! key = Some token;
}.

Lemma valid_stranded now token token' s : tokens s !! token = None ->
  let v := is_valid config now token' (tokens s) in
  v.2 !! token = None /\ (token' = Some token -> v.1 = false).
Proof.
  intros Hn. unfold is_valid. destruct token' as [t|]; [|done]. destruct (tokens s !! t) as [l|] eqn:E.
  - assert (t <> token) by congruence. destruct (_ <? _); cbn; (split; [|congruence]).
    + by rewrite lookup_insert_ne.
    + by rewrite lookup_delete_ne.
  - cbn. split; [done|]. done.
Qed.

Lemma register_all_other now live token (t : Tokens) : (token ∉ live) ->
  foldl (fun t token => register_token now token t) t live !! token = t !! token.
Proof.
  revert t. induction live as [|x live IH]; intros t; [done|]. rewrite not_elem_of_cons. intros [Hne Hni]. cbn.
  rewrite IH by done. unfold register_token. by rewrite lookup_insert_ne.
Qed.

Lemma stranded_step token key s s' : other_step token key s s' -> stranded token key s -> stranded token key s'.
Proof.
  destruct 1 as [now ev s Hno]. intros [F U A]. pose proof (fun t' => valid_stranded now token t' s F) as Hv.
  destruct ev as [hook random auth_bytes|t|t k|k c t|c|]; cbn [auth_apply renews] in *.
  - unfold process_authenticate in *. destruct (authentication_hook_server config) as [url|].
    + destruct (call_hook_server auth_token_of hook url auth_bytes) as [t|[]]; cbn in *; try by split.
      split; cbn; [|done|done]. unfold register_token. rewrite lookup_insert_ne; [done|]. congruence.
    + split; cbn in *; [|done|done]. unfold register_token. rewrite lookup_insert_ne; [done|]. congruence.
  - unfold check_token. destruct (Hv t) as [Hv' _]. destruct (is_valid config now t _). by split.
  - unfold keepalive, check_token. destruct (Hv t) as [Hv' _]. destruct (is_valid config now t _) as [[] ts]; [|by split].
    destruct (authentication_hook_server config); [|by split]. destruct t as [t|]; [|by split].
    split; cbn; [done|done|]. by rewrite lookup_insert_ne.
  - unfold on_connect, check_token. destruct t as [t|]; [|by split]. destruct (Hv (Some t)) as [Hv' Hne].
    destruct (is_valid config now (Some t) _) as [[] ts]; [|by split]. split; cbn; [done| |done].
    intros c' t' [[<- <-]|[_ Hc]]%lookup_insert_Some; [|by eapply U]. intros ->. by specialize (Hne eq_refl).
  - split; cbn; [done| |done]. intros c' t' [_ Hc]%lookup_delete_Some. by eapply U.
  - unfold prune_tokens. set (live := live_tokens (conns s)).
    assert (token ∉ live) as Hl by by intros [c Hc]%elem_of_live_tokens; eapply U.
    assert (foldl (fun t token => register_token now token t) (tokens s) live !! token = None) as Hf
      by by rewrite register_all_other.
    revert Hf. generalize (foldl (fun t token => register_token now token t) (tokens s) live) as ts. intros ts Hf.
    assert (token ∉ (map_to_list (filter (idle config now) ts)).*1) as Hni.
    { rewrite list_elem_of_fmap. intros ((t & l) & -> & Hin%elem_of_map_to_list).
      apply map_lookup_filter_Some in Hin as [Hin _]. cbn in Hf. congruence. }
    cbn. split; cbn; [|done|].
    + apply map_lookup_filter_None_2. by left.
    + unfold prune_for_expired_tokens. destruct (map_to_list (filter (idle config now) ts)).*1 eqn:E; [done|].
      by apply map_lookup_filter_Some_2.
Qed.

(** A key that was registered for the relay with a token is taken off the
    allowlist by the prune worker once the token expired.  If the expired token
    is presented once before, the tracker forgets it and the worker no longer
    hears of it: the key is let in then and ever after, with any token, until
    its owner registers it again or the token is issued anew. *)
Theorem expired_token_strands_key r now key connection_id token l :
  rtc auth_step auth_start r -> clock r <= now ->
  allowlist (au_state r) !! key = Some token -> tokens (au_state r) !! token = Some l ->
  auth_token_idle_timeout config <= now - l -> (forall c t, conns (au_state r) !! c = Some t -> t <> token) ->
  allowlist (prune_tokens config now (au_state r)) !! key = None /\
  let s1 := auth_apply now (EvConnect key connection_id (Some token)) (au_state r) in
  forall s2, rtc (other_step token key) s1 s2 -> forall now2 connection2 any,
    (on_connect config now2 key connection2 (Some any) s2).1 = true.
Proof.
  intros Hrun Hn Hk Ht Hold Hu. set (s := au_state r) in *. split.
  - unfold prune_tokens. set (live := live_tokens (conns s)).
    assert (token ∉ live) as Hl by by intros [c Hc]%elem_of_live_tokens; eapply Hu.
    assert (foldl (fun t token => register_token now token t) (tokens s) live !! token = Some l) as Hf
      by by rewrite register_all_other.
    revert Hf. generalize (foldl (fun t token => register_token now token t) (tokens s) live) as ts. intros ts Hf.
    assert (token ∈ (map_to_list (filter (idle config now) ts)).*1) as Hin.
    { rewrite list_elem_of_fmap. exists (token, l). split; [done|]. apply elem_of_map_to_list, map_lookup_filter_Some_2; [done|].
      unfold idle, duration_since. cbn. lia. }
    cbn. unfold prune_for_expired_tokens. destruct (map_to_list (filter (idle config now) ts)).*1 eqn:E.
    + by apply elem_of_nil in Hin.
    + apply map_lookup_filter_None_2. right. intros t Ht'. rewrite Hk in Ht'. injection Ht' as <-. cbn. by intros [].
  - intros s1 s2 Hrun2. assert (stranded token key s1) as H1.
    { unfold s1. cbn. unfold on_connect, check_token, is_valid, duration_since. rewrite Ht.
      destruct (Z.ltb_spec (Z.max 0 (now - l)) (auth_token_idle_timeout config)); [lia|]. cbn.
      split; cbn; [by rewrite lookup_delete_eq|done|done]. }
    assert (stranded token key s2) as [_ _ A].
    { clear - Hrun2 H1. induction Hrun2 as [|x y z Hxy _ IH]; [done|]. apply IH. by eapply stranded_step. }
    intros now2 c2 any. unfold on_connect, check_token. destruct (is_valid config now2 (Some any) _) as [[] ts]; [done|].
    cbn. unfold is_allowed. rewrite A. by apply bool_decide_eq_true_2.
Qed.
End access.

(** ** The routes are the events *)
Section routes.
Context `{EntryCodec}.
Variable max_entries_per_space : nat.
Variable error_body : string -> bytes.
Variable auth_token_of : string -> option (option string).
Variable auth_token_body : string -> bytes.
Variable public_key : bytes -> bool.
Variable config : AuthConfig.
Abbreviation apply := (auth_apply auth_token_of config).

Lemma dispatch_auth d now now' fs req s :
  auth_state (handle_dispatch max_entries_per_space error_body d now now' fs req s).2 = auth_state s.
Proof. by destruct d as [| |[]]. Qed.

Lemma guarded_auth {A} instant authorization (refused : A) k s :
  (forall s, auth_state (k s).2 = auth_state s) ->
  auth_state (guarded config instant authorization refused k s).2 =
    apply instant (EvRequest (bearer_token authorization)) (auth_state s).
Proof.
  intros Hk. unfold guarded. cbn [auth_apply]. destruct (check_token config instant _ _) as [[] a]; cbn; [|done].
  by rewrite Hk.
Qed.

(** What each route does to the tokens and the allowlist is one of the events
    of a run. *)
Lemma routes_are_events instant d now now' fs space agent authorization body hook random s :
  auth_state (http_boot_put max_entries_per_space error_body config instant d now now' fs space agent
                authorization body s).2 =
    apply instant (EvRequest (bearer_token authorization)) (auth_state s) /\
  auth_state (http_boot_get max_entries_per_space error_body config instant d now now' fs space authorization s).2 =
    apply instant (EvRequest (bearer_token authorization)) (auth_state s) /\
  auth_state (handle_auth auth_token_of auth_token_body config instant hook random body s).2 =
    apply instant (EvAuthenticate hook random body) (auth_state s) /\
  auth_state (handle_relay_keepalive public_key config instant authorization body s).2 =
    apply instant (if bool_decide (length body = 32%nat) && public_key body
                   then EvKeepalive (bearer_token authorization) body
                   else EvRequest (bearer_token authorization)) (auth_state s).
Proof.
  split_and!.
  - apply guarded_auth. intros s'. unfold b64_to_bytes. destruct (b64_decode space); [|done].
    destruct (b64_decode agent); [|done]. apply dispatch_auth.
  - apply guarded_auth. intros s'. unfold b64_to_bytes. destruct (b64_decode space); [|done]. apply dispatch_auth.
  - unfold handle_auth. cbn. by destruct (process_authenticate _ _ _ _ _ _ _).
  - unfold handle_relay_keepalive, guarded. destruct (bool_decide (length body = 32%nat)), (public_key body);
      cbn [andb negb auth_apply]; unfold keepalive; destruct (check_token config instant _ _) as [[] a]; cbn; try done.
    destruct (authentication_hook_server config); cbn; [|done]. by destruct (bearer_token authorization).
Qed.
End routes.
