(* ===== verification/SrvDemo.v ===== *)
(** * The bootstrap server at work

    The theorems on the server at concrete entries: a codec that knows three
    infos, two of one agent and a tombstone of it. *)
From S2P Require Import Prelude Id SrvStore SrvSpace SrvServer SrvRun SrvHttp.
From S2P Require Import SrvHttp SrvAccess.

Definition small_inner (s : string) : option Inner :=
  if bool_decide (s = "first"%string) then Some (MkInner "A" "S" "100" "500" false)
  else if bool_decide (s = "second"%string) then Some (MkInner "A" "S" "200" "600" false)
  else if bool_decide (s = "tomb"%string) then Some (MkInner "A" "S" "300" "700" true)
  else None.

#[local] Instance small_codec : EntryCodec := {|
  outer_json b :=
    match b with
    | [1] => Some ("first"%string, "sig"%string)
    | [2] => Some ("second"%string, "sig"%string)
    | [3] => Some ("tomb"%string, "sig"%string)
    | _ => None
    end;
  inner_json := small_inner;
  b64_decode s :=
    if bool_decide (s = "A"%string) then Some (replicate 32 1)
    else if bool_decide (s = "S"%string) then Some [9]
    else if bool_decide (s = "sig"%string) then Some (replicate 64 7)
    else None;
  verifying_key _ := true;
  verify _ _ _ := true;
|}.

Definition key : bytes := replicate 32 1.
Definition first_info : ParsedEntry := MkEntry key [9] 100 500 false "first" (replicate 64 7).
Definition second_info : ParsedEntry := MkEntry key [9] 200 600 false "second" (replicate 64 7).

Definition one_put : Server :=
  (handle_boot_put 2 250 250 FsOk [9] key [1] server_new).2.

(** A newer info takes the place of the first; it is listed. *)
Lemma put_refines_spec_witness :
  exists owners s', server_ok 2 owners one_put /\
    handle_boot_put 2 260 260 FsOk [9] key [2] one_put = (Ok ok_response, s') /\
    entries one_put [9] = [first_info] /\ entries s' [9] = [second_info].
Proof.
  assert (0 < 2)%nat as Hm by lia.
  destruct (handle_boot_put 2 250 250 FsOk [9] key [1] server_new) as [r0 s0] eqn:E0.
  assert (s0 = one_put) as -> by (unfold one_put; by rewrite E0).
  pose proof (put_refines_spec 2 Hm _ _ _ _ _ _ _ _ _ _ (server_new_ok 2 Hm) E0) as (_ & _ & _ & owners & Hok).
  destruct (handle_boot_put 2 260 260 FsOk [9] key [2] one_put) as [r1 s1] eqn:E1.
  pose proof (put_refines_spec 2 Hm _ _ _ _ _ _ _ _ _ _ Hok E1) as (Hr & _).
  assert (r1 = Ok ok_response) as ->.
  { change r1 with (fst (r1, s1)). rewrite <- E1. vm_compute. reflexivity. }
  exists owners, s1. split_and!; [done|done|vm_compute; reflexivity|].
  destruct Hr as (_ & info & Hp & _ & He). assert (try_from_slice [2] = Ok second_info) as Hq by (vm_compute; reflexivity).
  rewrite Hq in Hp. injection Hp as <-. rewrite He. vm_compute. reflexivity.
Defined.

Definition first_stored : Incoming := (first_info, Some (MkRef 0 0 1)).
Definition written : Server := MkServer (MkStore [[1]] [MkWriter 0 1]) ∅ [].

Lemma written_reached : rtc (srv_step 2) srv_start (MkSrvRun written [([9], first_stored)] []).
Proof.
  apply rtc_once. apply (sv_accept 2 250 FsOk [9] key [1] first_stored); [vm_compute|]; reflexivity.
Qed.

(** A reader sees the empty space that a put has made. *)
Lemma served_always_ok_witness :
  let r := MkSrvRun (MkServer (srv_store written) {[ [9] := 0%nat ]} [[]]) [] [(0%nat, Some first_stored)] in
  rtc (srv_step 2) srv_start r /\ exists s', finish_update 2 270 0 (Some first_stored) (srv r) = (Ok tt, s').
Proof.
  intros r. assert (rtc (srv_step 2) srv_start r) as Hrun.
  { etransitivity; [exact written_reached|]. apply rtc_once.
    apply (sv_begin 2 [9] first_stored 0 written (srv r) [([9], first_stored)] [] [] [(0%nat, Some first_stored)]);
      [reflexivity| |reflexivity]. vm_compute. reflexivity. }
  split; [done|]. assert (0 < 2)%nat as Hm by lia.
  apply (proj2 (served_always_ok 2 Hm r [9] Hrun)). by left.
Defined.

Lemma put_lost_to_prune_witness :
  exists s3, rtc (srv_step 2) srv_start (MkSrvRun s3 [] []) /\ handle_boot_get [9] s3 = (Ok (200, [91; 93]), s3).
Proof.
  assert (0 < 2)%nat as Hm by lia.
  destruct (put_lost_to_prune 2 Hm _ [9] first_stored [] 270 written_reached) as (h & s1 & s2 & s3 & _ & _ & _ & Hrun & Hg);
    [reflexivity|reflexivity|]. exists s3. split; [|done]. etransitivity; [exact written_reached|exact Hrun].
Defined.

(** ** Tokens and keys *)

Definition body_is_token (body : string) : option (option string) := Some (Some body).
Definition hooked : AuthConfig := MkAuthConfig (Some "http://hook/"%string) 300.
Definition hook_accepts (url : string) (_ : bytes) : HookOutcome :=
  if bool_decide (url = "http://hook/authenticate"%string) then HookAnswer 200 (Some "tok"%string) else HookUnreachable.
Definition relay_key : bytes := replicate 32 5.

(** A client authenticates at 10 and registers its key at 20. *)
Definition registered : AuthRun :=
  auth_next body_is_token hooked 20 (EvKeepalive (Some "tok"%string) relay_key)
    (auth_next body_is_token hooked 10 (EvAuthenticate hook_accepts "" []) auth_start).

Lemma registered_reached : rtc (auth_step body_is_token hooked) auth_start registered.
Proof. eapply rtc_l; [|apply rtc_once]; apply as_event; cbn; lia. Qed.

Lemma only_fresh_tokens_pass_witness :
  (exists a, guarded hooked 100 (Some "Bearer tok"%string) unauthorized (ret ok_response)
     (MkHttp (au_state registered) server_new) = (Ok ok_response, MkHttp a server_new)) /\
  (exists a, guarded hooked 320 (Some "Bearer tok"%string) unauthorized (ret ok_response)
     (MkHttp (au_state registered) server_new) = (Ok unauthorized, MkHttp a server_new)).
Proof.
  split.
  - apply (only_fresh_tokens_pass body_is_token hooked registered 100 "http://hook/" (Some "Bearer tok"%string) server_new
      registered_reached ltac:(done) eq_refl).
    exists "tok"%string. split; [done|]. exists 20. split; [vm_compute; by left|done].
  - apply (only_fresh_tokens_pass body_is_token hooked registered 320 "http://hook/" (Some "Bearer tok"%string) server_new
      registered_reached ltac:(done) eq_refl).
    intros (token & [= <-] & t & Hin & Hf). vm_compute in Hin. cbn in Hf.
    apply elem_of_cons in Hin as [[= ->]|[[= ->]|Hin%elem_of_nil]%elem_of_cons]; [lia|lia|done].
Defined.

Lemma expired_token_strands_key_witness :
  allowlist (prune_tokens hooked 320 (au_state registered)) !! relay_key = None /\
  (on_connect hooked 9999 relay_key 2 (Some "other"%string)
     (prune_tokens hooked 5000 (on_connect hooked 320 relay_key 1 (Some "tok"%string) (au_state registered)).2)).1 = true.
Proof.
  destruct (expired_token_strands_key body_is_token hooked registered 320 relay_key 1 "tok"%string 20
    registered_reached) as [Hp Hs]; [done|vm_compute; reflexivity|vm_compute; reflexivity|done|intros c t Hc; by vm_compute in Hc|].
  split; [exact Hp|]. apply Hs. apply rtc_once. apply (os_event body_is_token hooked "tok"%string relay_key 5000 EvPrune).
  by intros [].
Defined.
