(* ===== verification/BootClient.v ===== *)
(** * The client of the bootstrap server

    [bootstrap_client/src/lib.rs].  HTTP (ureq), URLs and base64 are libraries:
    a call of the network is a step of the host, and the client keeps the token
    it was given. *)
From S2P Require Import Prelude Timestamp Arc Id Agent.

(** What ureq makes of a call: an answer with its body, if that can be read, a
    status of 400 or more, or no answer. *)
Inductive HttpReply : Type :=
  | ReplyOk (status : Z) (body : option bytes)
  | ReplyStatus (code : Z)
  | ReplyFailed.

(** Calls with the value of the [Authorization] header. *)
Class HttpClient (H : Type) := {
  http_put : string -> option string -> bytes -> H -> HttpReply * H;
  http_get : string -> option string -> H -> HttpReply * H;
}.

(** [Url::set_path] then [as_str], base64 (URL safe, no padding), and the token
    of the JSON answer of an authentication. *)
Class ClientCodec := {
  with_path : string -> string -> string;
  b64_encode : bytes -> string;
  read_auth_token : bytes -> option string;
}.

Inductive AuthType : Type := IfUninit | Force.

Inductive Res (T : Type) : Type :=
  | ResOk (t : T)
  | ResAuth
  | ResHttpErr (code : Z)
  | ResErr.
Arguments ResOk {T} t.
Arguments ResAuth {T}.
Arguments ResHttpErr {T} code.
Arguments ResErr {T}.

Definition needs_auth {T} (r : Res T) : bool := match r with ResAuth => true | _ => false end.

(** [Res::from] of an answer whose body is read as [f]. *)
Definition res_of_reply {T} (f : option bytes -> option T) (r : HttpReply) : Res T :=
  match r with
  | ReplyOk _ body => match f body with Some t => ResOk t | None => ResErr end
  | ReplyStatus code => if code =? 401 then ResAuth else ResHttpErr code
  | ReplyFailed => ResErr
  end.

(** [K2Result::from]. *)
Definition result_of_res {T} (r : Res T) : res T :=
  match r with
  | ResOk t => Ok t
  | ResAuth => Err "Unauthorized"
  | ResHttpErr _ => Err "Bootstrap server returned HTTP"
  | ResErr => Err "http error"
  end.

(** The cached token of the auth material, and the host. *)
Record Client (H : Type) : Type := MkClient { auth_token : option string; net : H }.
Arguments MkClient {H}.
Arguments auth_token {H}.
Arguments net {H}.

Section client.
Context {H : Type} `{HttpClient H} `{ClientCodec} `{AgentJson}.

Definition priv_authenticate (auth_material : bytes) (auth_url : string) (auth_type : AuthType)
  : M (Client H) unit := fun c =>
  match auth_type, auth_token c with
  | IfUninit, Some _ => (Ok tt, c)
  | _, _ =>
      match http_put auth_url None auth_material (net c) with
      | (ReplyOk status body, h) =>
          if status =? 202 then (Err "Authentication pending: key awaiting approval on the server", MkClient (auth_token c) h)
          else match body ≫= read_auth_token with
               | Some token => (Ok tt, MkClient (Some token) h)
               | None => (Err "Authenticate Failed", MkClient (auth_token c) h)
               end
      | (_, h) => (Err "Authenticate Failed", MkClient (auth_token c) h)
      end
  end.

(** A call with the token that is cached, if there is auth material. *)
Definition with_token {T} (auth_material : option bytes) (call : option string -> H -> HttpReply * H)
  (f : option bytes -> option T) : M (Client H) (Res T) := fun c =>
  let go header :=
    let (r, h) := call header (net c) in (Ok (res_of_reply f r), MkClient (auth_token c) h) in
  match auth_material, auth_token c with
  | None, _ => go None
  | Some _, Some token => go (Some (String.append "Bearer " token))
  | Some _, None => (Panic "authenticated token must be cached", c)
  end.

Definition authenticate_first (auth_material : option bytes) (auth_url : string) : M (Client H) unit :=
  match auth_material with
  | Some m => priv_authenticate m auth_url IfUninit
  | None => ret tt
  end.

(** The call, and once more with a new token if it is refused for want of one. *)
Definition retry_auth {T} (auth_material : option bytes) (auth_url : string)
  (attempt : M (Client H) (Res T)) : M (Client H) (Res T) :=
  let* res := attempt in
  match auth_material with
  | Some m => if needs_auth res then priv_authenticate m auth_url Force ;;* attempt else ret res
  | None => ret res
  end.

Definition put_path (info : AgentInfoSigned) : string :=
  String.append "bootstrap/"
    (String.append (b64_encode (ai_space info)) (String.append "/" (b64_encode (ai_agent info)))).

Definition blocking_put_auth (server_url : string) (info : AgentInfoSigned) (auth_material : option bytes)
  : M (Client H) unit :=
  let auth_url := with_path server_url "authenticate" in
  let put_url := with_path server_url (put_path info) in
  authenticate_first auth_material auth_url ;;*
  let* encoded := lift_res (encode_info info) in
  let* res := retry_auth auth_material auth_url
    (with_token auth_material (fun header => http_put put_url header encoded) (fun _ => Some tt)) in
  lift_res (result_of_res res).

Definition blocking_get_auth (server_url : string) (space_id : bytes) (auth_material : option bytes)
  : M (Client H) (list AgentInfoSigned) :=
  let auth_url := with_path server_url "authenticate" in
  authenticate_first auth_material auth_url ;;*
  let get_url := with_path server_url (String.append "bootstrap/" (b64_encode space_id)) in
  let* res := retry_auth auth_material auth_url
    (with_token auth_material (fun header => http_get get_url header) (fun body => body)) in
  let* body := lift_res (result_of_res res) in
  let* agents := lift_res (decode_list body) in
  ret (omap (fun r => match r with Ok a => Some a | _ => None end) agents).

Definition blocking_fetch_relay_token (server_url : string) (auth_material : bytes) : M (Client H) string :=
  priv_authenticate auth_material (with_path server_url "authenticate") IfUninit ;;*
  fun c => match auth_token c with
           | Some token => (Ok token, c)
           | None => (Err "authentication succeeded but no token was cached", c)
           end.

Definition blocking_relay_keepalive (server_url : string) (auth_material key_bytes : bytes) : M (Client H) unit :=
  let auth_url := with_path server_url "authenticate" in
  let keepalive_url := with_path server_url "relay/keepalive" in
  priv_authenticate auth_material auth_url IfUninit ;;*
  let* res := retry_auth (Some auth_material) auth_url
    (with_token (Some auth_material) (fun header => http_put keepalive_url header key_bytes) (fun _ => Some tt)) in
  lift_res (result_of_res res).

(** ** The token is there when it is needed *)

Lemma authenticate_caches m url t c r c' : priv_authenticate m url t c = (r, c') ->
  match r with Ok _ => is_Some (auth_token c') | Err _ => True | Panic _ => False end.
Proof.
  unfold priv_authenticate. intros E.
  assert (forall o, (let '(r', c1) := match http_put url None m (net c) with
      | (ReplyOk status body, h) =>
          if status =? 202 then (Err "Authentication pending: key awaiting approval on the server", MkClient o h)
          else match body ≫= read_auth_token with
               | Some token => (Ok tt, MkClient (Some token) h)
               | None => (Err "Authenticate Failed", MkClient o h)
               end
      | (_, h) => (Err "Authenticate Failed", MkClient o h)
      end in match r' with Ok _ => is_Some (auth_token c1) | Err _ => True | Panic _ => False end)) as Hgo.
  { intros o. destruct (http_put url None m (net c)) as [[status body|code|] h]; [|done..].
    destruct (status =? 202); [done|]. by destruct (body ≫= read_auth_token). }
  specialize (Hgo (auth_token c)).
  destruct t; [destruct (auth_token c) as [token|] eqn:Et|]; [injection E as <- <-; by rewrite Et|..];
    rewrite E in Hgo; exact Hgo.
Qed.

Lemma with_token_ok {T} auth_material call (f : option bytes -> option T) c :
  (auth_material <> None -> is_Some (auth_token c)) ->
  exists res h, with_token auth_material call f c = (Ok res, MkClient (auth_token c) h).
Proof.
  intros Ht. unfold with_token. destruct auth_material as [m|].
  - destruct Ht as [token ->]; [done|]. destruct (call _ (net c)) as [r h]. by eexists _, _.
  - destruct (call None (net c)) as [r h]. by eexists _, _.
Qed.

Lemma retry_ok {T} auth_material url call (f : option bytes -> option T) c r c' :
  (auth_material <> None -> is_Some (auth_token c)) ->
  retry_auth auth_material url (with_token auth_material call f) c = (r, c') ->
  match r with Panic _ => False | _ => True end.
Proof.
  intros Ht. unfold retry_auth, bind at 1. destruct (with_token_ok auth_material call f c Ht) as (res & h & ->).
  destruct auth_material as [m|]; [|by intros [= <- _]]. destruct (needs_auth res); [|by intros [= <- _]].
  unfold bind. destruct (priv_authenticate m url Force _) as [ra c1] eqn:Ea.
  pose proof (authenticate_caches _ _ _ _ _ _ Ea) as Hc. destruct ra as [[]|e|e]; [|by intros [= <- _]|done].
  destruct (with_token_ok (Some m) call f c1) as (res' & h' & ->); [done|]. by intros [= <- _].
Qed.

Lemma authenticate_first_ok auth_material url c r c' : authenticate_first auth_material url c = (r, c') ->
  match r with
  | Ok _ => auth_material <> None -> is_Some (auth_token c')
  | Err _ => True
  | Panic _ => False
  end.
Proof.
  destruct auth_material as [m|]; cbn [authenticate_first]; [|by intros [= <- _]].
  intros E%authenticate_caches. by destruct r.
Qed.

Lemma encode_info_no_panic a : match encode_info a with Panic _ => False | _ => True end.
Proof. unfold encode_info, ok_or. by destruct (ref_to_json _). Qed.

Lemma decode_list_no_panic b : match decode_list b with Panic _ => False | _ => True end.
Proof. unfold decode_list, ok_or. by destruct (ref_list_from_json _). Qed.

Definition never_panics {A} (m : M (Client H) A) : Prop :=
  forall c, match (m c).1 with Panic _ => False | _ => True end.

Lemma result_of_res_no_panic {T} (r : Res T) : match result_of_res r with Panic _ => False | _ => True end.
Proof. by destruct r. Qed.

(** Whatever the server answers, no call of the client panics for want of the
    token. *)
Lemma client_never_panics url info space m material key :
  never_panics (blocking_put_auth url info material) /\
  never_panics (blocking_get_auth url space material) /\
  never_panics (blocking_fetch_relay_token url m) /\
  never_panics (blocking_relay_keepalive url m key).
Proof.
  split_and!; intros c; [unfold blocking_put_auth|unfold blocking_get_auth|unfold blocking_fetch_relay_token|
    unfold blocking_relay_keepalive]; unfold bind at 1.
  - destruct (authenticate_first material _ c) as [r c1] eqn:E. apply authenticate_first_ok in E. destruct r as [[]|e|e]; [|done..].
    unfold bind at 1. pose proof (encode_info_no_panic info) as He. cbn. destruct (encode_info info) as [b|e|e]; [|done..].
    unfold bind. destruct (retry_auth _ _ _ c1) as [r c2] eqn:E2. apply retry_ok in E2; [|done].
    destruct r as [res|e|e]; [|done..]. cbn. apply result_of_res_no_panic.
  - destruct (authenticate_first material _ c) as [r c1] eqn:E. apply authenticate_first_ok in E. destruct r as [[]|e|e]; [|done..].
    unfold bind at 1. destruct (retry_auth _ _ _ c1) as [r c2] eqn:E2. apply retry_ok in E2; [|done].
    destruct r as [res|e|e]; [|done..]. unfold bind. cbn. pose proof (result_of_res_no_panic res) as Hr.
    destruct (result_of_res res) as [b|e|e]; [|done..]. pose proof (decode_list_no_panic b) as Hd.
    by destruct (decode_list b).
  - destruct (priv_authenticate m _ IfUninit c) as [r c1] eqn:E. apply authenticate_caches in E.
    destruct r as [[]|e|e]; [|done..]. by destruct E as [token ->].
  - destruct (priv_authenticate m _ IfUninit c) as [r c1] eqn:E. apply authenticate_caches in E.
    destruct r as [[]|e|e]; [|done..]. unfold bind. destruct (retry_auth _ _ _ c1) as [r c2] eqn:E2.
    apply retry_ok in E2; [|done]. destruct r as [res|e|e]; [|done..]. cbn. apply result_of_res_no_panic.
Qed.
End client.
