(* ===== verification/CoreBootstrap.v ===== *)
(** * The bootstrap module of a space

    [core/src/factories/core_bootstrap.rs]: infos put by the space are queued
    and pushed to the bootstrap server by one task; another polls the server and
    fills the peer store.  Both share the auth material and its token.  A turn
    of a task is one round of its loop, up to the sleep; the clock is read once
    in it.  The parser of URLs and base64 are libraries. *)
From S2P Require Import Prelude Timestamp Arc Id OpStore Agent PeerMeta GossipNode.
From S2P Require Import BootClient.

Record CoreBootstrapConfig : Type := MkBootstrapConfig {
  server_url : option string;
  auth_material_base64 : option string;
  backoff_min_ms : Z;
  backoff_max_ms : Z;
}.

Definition default_bootstrap_config : CoreBootstrapConfig :=
  MkBootstrapConfig None None (1000 * 5) (1000 * 60 * 5).

Definition backoff_min (c : CoreBootstrapConfig) : Duration := from_millis (backoff_min_ms c).
Definition backoff_max (c : CoreBootstrapConfig) : Duration := from_millis (backoff_max_ms c).

(** What the URL parser makes of a text: whether it can be a base, and its
    scheme. *)
Class UrlParser := { url_parse : string -> option (bool * string) }.

Definition validate_config_for_context `{UrlParser} (config : CoreBootstrapConfig) (is_space : bool) : res unit :=
  match server_url config with
  | None => if is_space then Err "bootstrap server_url must be set before creating a space" else Ok tt
  | Some server_url =>
      match url_parse server_url with
      | None => Err "invalid bootstrap server_url"
      | Some (can_be_a_base, scheme) =>
          if negb can_be_a_base then Err "invalid bootstrap server_url"
          else if bool_decide (scheme = "http"%string) || bool_decide (scheme = "https"%string) then Ok tt
          else Err "invalid bootstrap server_url"
      end
  end.

(** The auth material of a space: its own, or that of the builder. *)
Definition auth_material_of (b64_standard : string -> option bytes) (config : CoreBootstrapConfig)
  (builder_material : option bytes) : res (option bytes) :=
  match auth_material_base64 config with
  | Some b64 => match b64_standard b64 with
                | Some m => Ok (Some m)
                | None => Err "invalid base64 in auth_material_base64"
                end
  | None => Ok builder_material
  end.

Definition PUSH_QUEUE : nat := 1024.

(** The queue of the push task, the waits of the two tasks, and the client
    with the host. *)
Record CoreBootstrap (H : Type) : Type := MkBootstrap {
  push_queue : list AgentInfoSigned;
  push_wait : option Duration;
  poll_wait : Duration;
  client : Client H;
}.
Arguments MkBootstrap {H}.
Arguments push_queue {H}.
Arguments push_wait {H}.
Arguments poll_wait {H}.
Arguments client {H}.

Definition bootstrap_new {H} (config : CoreBootstrapConfig) (h : H) : CoreBootstrap H :=
  MkBootstrap [] None (backoff_min config) (MkClient None h).

(** [try_send]: an info is dropped if the queue is full. *)
Definition try_send (info : AgentInfoSigned) (queue : list AgentInfoSigned) : list AgentInfoSigned :=
  if bool_decide (length queue < PUSH_QUEUE)%nat then queue ++ [info] else queue.

(** Infos of other spaces are ignored. *)
Definition bootstrap_put {H} (space : bytes) (info : AgentInfoSigned) (b : CoreBootstrap H) : CoreBootstrap H :=
  if bool_decide (ai_space info = space)
  then MkBootstrap (try_send info (push_queue b)) (push_wait b) (poll_wait b) (client b)
  else b.

Definition next_wait (config : CoreBootstrapConfig) (wait : option Duration) : Duration :=
  match wait with
  | None => backoff_min config
  | Some p => let p := p * 2 in if backoff_max config <? p then backoff_max config else p
  end.

(** What the push task does once the server answered, or not. *)
Definition push_outcome {H} (config : CoreBootstrapConfig) (now : Timestamp) (info : AgentInfoSigned)
  (delivered : bool) (b : CoreBootstrap H) : CoreBootstrap H :=
  if delivered then MkBootstrap (push_queue b) None (poll_wait b) (client b)
  else MkBootstrap (if now <? ai_expires_at info then try_send info (push_queue b) else push_queue b)
         (Some (next_wait config (push_wait b))) (poll_wait b) (client b).

Section tasks.
Context {H : Type} `{HttpClient H} `{ClientCodec} `{AgentJson} `{PeerStore H}.
Variable config : CoreBootstrapConfig.
Variable space_id : bytes.
Variable auth_material : option bytes.
(** The server, checked with the configuration. *)
Variable server : string.

Definition push_turn (now : Timestamp) : M (CoreBootstrap H) unit := fun b =>
  match push_queue b with
  | [] => (Ok tt, b)
  | info :: queue =>
      let (r, c) := blocking_put_auth server info auth_material (client b) in
      let b := MkBootstrap queue (push_wait b) (poll_wait b) c in
      match r with
      | Panic e => (Panic e, b)
      | _ => (Ok tt, push_outcome config now info (is_ok r) b)
      end
  end.

Definition next_poll_wait (wait : Duration) : Duration :=
  let wait := wait * 2 in if backoff_max config <? wait then backoff_max config else wait.

Definition poll_turn : M (CoreBootstrap H) unit := fun b =>
  let (r, c) := blocking_get_auth server space_id auth_material (client b) in
  match r with
  | Panic e => (Panic e, MkBootstrap (push_queue b) (push_wait b) (poll_wait b) c)
  | Err _ => (Ok tt, MkBootstrap (push_queue b) (push_wait b) (next_poll_wait (poll_wait b)) c)
  | Ok list =>
      let (_, h) := ps_insert list (net c) in
      (Ok tt, MkBootstrap (push_queue b) (push_wait b) (next_poll_wait (poll_wait b)) (MkClient (auth_token c) h))
  end.

(** ** Nothing is lost while the server is away *)

(** The infos that a run of push turns delivered, with the turns' times. *)
Inductive push_run : list Timestamp -> list AgentInfoSigned -> CoreBootstrap H -> CoreBootstrap H -> Prop :=
  | pr_done b : push_run [] [] b b
  | pr_idle now times sent b b' : push_queue b = [] -> push_run times sent b b' ->
      push_run (now :: times) sent b b'
  | pr_turn now times info queue sent c r b b' :
      push_queue b = info :: queue ->
      blocking_put_auth server info auth_material (client b) = (r, c) ->
      push_run times sent (push_outcome config now info (is_ok r)
                             (MkBootstrap queue (push_wait b) (poll_wait b) c)) b' ->
      push_run (now :: times) ((if is_ok r then [info] else []) ++ sent) b b'.

Definition waits_within (b : CoreBootstrap H) : Prop :=
  forall w, push_wait b = Some w -> backoff_min config <= w <= backoff_max config.

Lemma next_wait_within wait : 0 <= backoff_min config <= backoff_max config ->
  (forall w, wait = Some w -> backoff_min config <= w <= backoff_max config) ->
  backoff_min config <= next_wait config wait <= backoff_max config.
Proof.
  intros Hc Hw. destruct wait as [w|]; cbn; [|lia]. specialize (Hw w eq_refl).
  destruct (Z.ltb_spec (backoff_max config) (w * 2)); lia.
Qed.

Lemma run_keeps times sent (b b' : CoreBootstrap H) :
  push_run times sent b b' -> (length (push_queue b) <= PUSH_QUEUE)%nat ->
  (forall (info : AgentInfoSigned) now, info ∈ push_queue b -> now ∈ times -> now < ai_expires_at info) ->
  sent ++ push_queue b' ≡ₚ push_queue b.
Proof.
  induction 1 as [b|now times sent b b' Hq _ IH|now times info queue sent c r b b' Hq E _ IH]; intros Hl Hx.
  - done.
  - apply IH; [done|]. intros info t Hin Ht. apply Hx; [done|by right].
  - rewrite Hq in Hl, Hx |- *. cbn in Hl. unfold push_outcome in IH.
    assert (now < ai_expires_at info) as Hnow by (apply Hx; by left). destruct (is_ok r).
    + cbn in *. rewrite IH; [done|lia|]. intros i t Hin Ht. apply Hx; by right.
    + cbn in *. rewrite (proj2 (Z.ltb_lt _ _) Hnow) in IH. unfold try_send in IH.
      rewrite bool_decide_eq_true_2 in IH by lia. rewrite IH; [symmetry; apply Permutation_cons_append|rewrite length_app; cbn; lia|].
      intros i t Hin Ht. apply Hx; [|by right]. rewrite elem_of_app, list_elem_of_singleton in Hin.
      rewrite elem_of_cons. tauto.
Qed.

Lemma run_waits times sent (b b' : CoreBootstrap H) : 0 <= backoff_min config <= backoff_max config ->
  push_run times sent b b' -> waits_within b -> waits_within b'.
Proof.
  intros Hc. induction 1 as [|now times sent b b' Hq _ IH|now times info queue sent c r b b' Hq E _ IH]; intros Hw;
    [done|by apply IH|]. apply IH. unfold push_outcome. destruct (is_ok r); [done|].
  intros w [= <-]. by apply next_wait_within.
Qed.

(** While [up] holds of the client, puts of an info succeed. *)
Definition server_up (up : Client H -> Prop) (infos : list AgentInfoSigned) : Prop :=
  forall c (info : AgentInfoSigned), up c -> info ∈ infos ->
    exists c', blocking_put_auth server info auth_material c = (Ok tt, c') /\ up c'.

Lemma run_drains up times sent (b b' : CoreBootstrap H) :
  push_run times sent b b' -> server_up up (push_queue b) -> up (client b) ->
  (length (push_queue b) <= length times)%nat -> push_queue b' = [] /\ sent = push_queue b.
Proof.
  induction 1 as [b|now times sent b b' Hq Hrun IH|now times info queue sent c r b b' Hq E Hrun IH]; intros Hup Hc Hl.
  - destruct (push_queue b); [done|cbn in Hl; lia].
  - destruct IH as [? ->]; [done|done|rewrite Hq; cbn; lia|]. by split.
  - rewrite Hq in *. destruct (Hup (client b) info Hc) as (c' & E' & Hc'); [by left|].
    rewrite E' in E. injection E as <- <-. cbn in *. destruct IH as [? ->]; [|done|lia|by split].
    intros c2 i Hc2 Hin. apply Hup; [done|by right].
Qed.

End tasks.
