(* ===== verification/Discovery.v ===== *)
(** * Two nodes find each other

    The bootstrap modules of two nodes over the model of the bootstrap server:
    the network is the server's routes, called at one time of its clock, and
    every file it writes is written. *)
From Stdlib Require Import Ascii.
From stdpp Require Import countable.
From S2P Require Import Prelude Arc Timestamp Id OpStore Agent PeerMeta GossipNode.
From S2P Require Import BootClient CoreBootstrap.
From S2P Require SrvStore SrvSpace SrvServer SrvRun SrvHttp.

Import SrvServer SrvHttp.

(** ** The server behind the network *)

Inductive Route : Type :=
  | RAuthenticate
  | RPut (space agent : string)
  | RGet (space : string)
  | RKeepalive
  | RNone.

Section discovery.
Context {P : Type} `{SrvSpace.EntryCodec} `{AgentJson} `{ClientCodec} `{PeerStore P}.
Variable max_entries_per_space : nat.
Variable error_body : string -> bytes.
Variable auth_token_of : string -> option (option string).
Variable auth_token_body : string -> bytes.
Variable public_key : bytes -> bool.
Variable config : AuthConfig.
Variable hook_put : string -> bytes -> HookOutcome.
Variable random : string.
(** The router of axum on the text of a URL. *)
Variable route : string -> Route.
Variables (instant : Instant) (now : Timestamp).

(** The host of a node: the server at the other end, and its peer store. *)
Abbreviation World := (HttpState * P)%type.

Definition reply_of (r : res Answer) : HttpReply :=
  match r with
  | Ok (status, body) => if 400 <=? status then ReplyStatus status else ReplyOk status (Some body)
  | _ => ReplyFailed
  end.

Definition serve (m : M HttpState Answer) (w : World) : HttpReply * World :=
  let (r, s) := m w.1 in (reply_of r, (s, w.2)).

#[global] Instance served : HttpClient World := {|
  http_put url header body :=
    match route url with
    | RAuthenticate => serve (handle_auth auth_token_of auth_token_body config instant hook_put random body)
    | RPut space agent =>
        serve (http_boot_put max_entries_per_space error_body config instant Answered now now SrvStore.FsOk
                 space agent header body)
    | RKeepalive => serve (handle_relay_keepalive public_key config instant header body)
    | _ => fun w => (ReplyStatus 404, w)
    end;
  http_get url header :=
    match route url with
    | RGet space =>
        serve (http_boot_get max_entries_per_space error_body config instant Answered now now SrvStore.FsOk
                 space header)
    | _ => fun w => (ReplyStatus 404, w)
    end;
|}.

#[global] Instance world_peers : PeerStore World := {|
  ps_insert l := on_snd (ps_insert l);
  ps_remove a := on_snd (ps_remove a);
  ps_get a := on_snd (ps_get a);
  ps_get_all := on_snd ps_get_all;
  ps_get_by_overlapping_storage_arc arc := on_snd (ps_get_by_overlapping_storage_arc arc);
  ps_get_near_location loc limit := on_snd (ps_get_near_location loc limit);
  ps_get_by_url url := on_snd (ps_get_by_url url);
|}.

(** What the two sides agree on: base64 and the routes, the JSON of a token, the
    outer object of an info, and that of a list. *)
Record same_formats : Prop := {
  sf_b64 : forall b, SrvSpace.b64_decode (b64_encode b) = Some b;
  sf_authenticate : forall url, route (with_path url "authenticate") = RAuthenticate;
  sf_put : forall url a, route (with_path url (put_path a)) = RPut (b64_encode (ai_space a)) (b64_encode (ai_agent a));
  sf_get : forall url space,
    route (with_path url (String.append "bootstrap/" (b64_encode space))) = RGet (b64_encode space);
  sf_token : forall t, read_auth_token (auth_token_body t) = Some t;
  sf_ref : forall b p, SrvSpace.try_from_slice b = Ok p ->
    ref_from_json b = Some (SrvSpace.encoded p, SrvSpace.signature p);
  sf_list : forall bs rs, Forall2 (fun b r => ref_from_json b = Some r) bs rs ->
    ref_list_from_json (SrvRun.json_list bs) = Some rs;
}.

(** The server takes no auth material, or takes that of the node. *)
Definition admits (material : option bytes) : Prop :=
  match material with
  | None => authentication_hook_server config = None
  | Some m => 0 < auth_token_idle_timeout config /\
      exists token, forall s, process_authenticate auth_token_of config instant hook_put random m s =
        (inl token, set_tokens (register_token instant token (tokens s)) s)
  end.

(** The entry the server reads of an info. *)
Definition entry_of (a : AgentInfoSigned) : SrvSpace.ParsedEntry :=
  SrvSpace.MkEntry (ai_agent a) (ai_space a) (ai_created_at a) (ai_expires_at a) (ai_is_tombstone a)
    (ai_encoded a) (ai_signature a).

(** ** Getting past the guard *)

Section formats.
Hypothesis formats : same_formats.
#[local] Set Default Proof Using "Type*".

Definition passes (header : option string) (w : World) : bool :=
  (check_token config instant (bearer_token header) (auth_state w.1)).1.

(** The server's entries and the node's own stores are as before. *)
Definition same_but_auth (w w' : World) : Prop := server w'.1 = server w.1 /\ w'.2 = w.2.

Lemma strip_prefix_app p s : strip_prefix p (String.append p s) = Some s.
Proof. induction p as [|c p IH]; [done|]. simpl. by case_bool_decide. Qed.

Lemma bearer_of token : bearer_token (Some (String.append "Bearer " token)) = Some token.
Proof. apply strip_prefix_app. Qed.

(** Authentication is answered with a token that passes. *)
Lemma authenticate_spec m url t (c : Client World) : admits (Some m) ->
  exists c', priv_authenticate m (with_path url "authenticate") t c = (Ok tt, c') /\
    same_but_auth (net c) (net c') /\ is_Some (auth_token c') /\
    (t = Force -> forall token, auth_token c' = Some token ->
       passes (Some (String.append "Bearer " token)) (net c') = true).
Proof.
  intros [Ht [token Htok]].
  assert (exists c', (match http_put (with_path url "authenticate") None m (net c) with
    | (ReplyOk status body, h) =>
        if status =? 202 then (Err "Authentication pending: key awaiting approval on the server", MkClient (auth_token c) h)
        else match body ≫= read_auth_token with
             | Some token => (Ok tt, MkClient (Some token) h)
             | None => (Err "Authenticate Failed", MkClient (auth_token c) h)
             end
    | (_, h) => (Err "Authenticate Failed", MkClient (auth_token c) h)
    end) = (Ok tt, c') /\ same_but_auth (net c) (net c') /\ is_Some (auth_token c') /\
    (forall token, auth_token c' = Some token ->
       passes (Some (String.append "Bearer " token)) (net c') = true)) as (c' & E & Hs & Hi & Hp).
  { cbn. rewrite (sf_authenticate formats). unfold serve, handle_auth. rewrite Htok. cbn.
    rewrite (sf_token formats). eexists. split; [reflexivity|]. split_and!; [done|by eexists|].
    intros token' [= <-]. unfold passes. rewrite bearer_of. cbn. unfold check_token, is_valid, register_token. cbn.
    rewrite lookup_insert_eq. unfold duration_since. rewrite Z.sub_diag, Z.max_id.
    by rewrite (proj2 (Z.ltb_lt 0 _) Ht). }
  unfold priv_authenticate. destruct t; [|by exists c'; split_and!].
  destruct (auth_token c) as [tok|] eqn:Etok; [|by exists c'; split_and!].
  exists c. by split_and!; [| |rewrite Etok|].
Qed.

Lemma first_spec material url (c : Client World) : admits material ->
  exists c', authenticate_first material (with_path url "authenticate") c = (Ok tt, c') /\
    same_but_auth (net c) (net c') /\ (material <> None -> is_Some (auth_token c')).
Proof.
  intros Ha. destruct material as [m|]; cbn [authenticate_first].
  - destruct (authenticate_spec m url IfUninit c Ha) as (c' & E & Hs & Hi & _). by exists c'.
  - exists c. by split_and!.
Qed.

(** A call that the guard lets through succeeds in the end, whatever token is
    cached. *)
Lemma retry_spec {T} material url call (f : option bytes -> option T) t (Q : World -> Prop) v p (c : Client World) :
  admits material -> server (net c).1 = v -> (net c).2 = p -> (material <> None -> is_Some (auth_token c)) ->
  (forall header w, server w.1 = v -> w.2 = p ->
     if passes header w then exists status body w', call header w = (ReplyOk status body, w') /\ f body = Some t /\ Q w'
     else exists w', call header w = (ReplyStatus 401, w') /\ same_but_auth w w') ->
  exists c', retry_auth material (with_path url "authenticate") (with_token material call f) c = (Ok (ResOk t), c') /\ Q (net c').
Proof.
  intros Ha Hv Hp Ht Hcall.
  assert (forall header (c : Client World), server (net c).1 = v -> (net c).2 = p -> passes header (net c) = true ->
    exists h, call header (net c) = h /\ res_of_reply f h.1 = ResOk t /\ Q h.2) as Hgo.
  { intros header c' Hv' Hp' Hpass. specialize (Hcall header (net c') Hv' Hp'). rewrite Hpass in Hcall.
    destruct Hcall as (status & body & w' & E & Hf & HQ). eexists. split; [exact E|]. cbn. by rewrite Hf. }
  unfold retry_auth, bind at 1. destruct material as [m|].
  - destruct (Ht ltac:(done)) as [token Etok]. unfold with_token at 1. rewrite Etok.
    destruct (passes (Some (String.append "Bearer " token)) (net c)) eqn:Hpass.
    + destruct (Hgo _ c Hv Hp Hpass) as ([r h] & -> & Hr & HQ). cbn in Hr, HQ. rewrite Hr. cbn. eexists. by split.
    + pose proof (Hcall (Some (String.append "Bearer " token)) (net c) Hv Hp) as Hc. rewrite Hpass in Hc.
      destruct Hc as (w' & -> & Hs1 & Hs2). cbn [res_of_reply needs_auth Z.eqb Pos.eqb]. unfold bind.
      destruct (authenticate_spec m url Force (MkClient (Some token) w') Ha) as (c' & E & [Hs1' Hs2'] & [tok' Ht'] & Hp').
      rewrite E. unfold with_token. rewrite Ht'. cbn in Hs1', Hs2'.
      destruct (Hgo (Some (String.append "Bearer " tok')) c') as ([r h] & -> & Hr & HQ);
        [congruence|congruence|by apply Hp'|]. cbn in Hr, HQ. rewrite Hr. eexists. by split.
  - unfold with_token. assert (passes None (net c) = true) as Hpass.
    { unfold passes. cbn. cbn in Ha. rewrite Ha. done. }
    destruct (Hgo None c Hv Hp Hpass) as ([r h] & -> & Hr & HQ). cbn in Hr, HQ. rewrite Hr. cbn. eexists. by split.
Qed.

(** ** The calls of a put and of a get *)

Lemma put_call url a b owners v p header w :
  (0 < max_entries_per_space)%nat -> SrvRun.server_ok max_entries_per_space owners v ->
  SrvSpace.try_from_slice b = Ok (entry_of a) -> check_put now (ai_space a) (ai_agent a) (entry_of a) = Ok tt ->
  server w.1 = v -> w.2 = p ->
  let call := http_put (with_path url (put_path a)) header b w in
  if passes header w then exists status body w', call = (ReplyOk status body, w') /\ Some tt = Some tt /\
    w'.2 = p /\ (exists owners', SrvRun.server_ok max_entries_per_space owners' (server w'.1)) /\
    SrvRun.entries (server w'.1) (ai_space a) =
      SrvSpace.stack_put max_entries_per_space now (entry_of a) (SrvRun.entries v (ai_space a))
  else exists w', call = (ReplyStatus 401, w') /\ same_but_auth w w'.
Proof.
  intros Hm Hok Hparse Hcheck <- <- call. subst call. cbn [http_put served]. rewrite (sf_put formats).
  unfold serve, http_boot_put, guarded, passes. destruct w as [[au sv] p']. cbn [fst snd auth_state server].
  destruct (check_token config instant (bearer_token header) au) as [[] au']; cbn [fst negb]; [|by eexists].
  unfold b64_to_bytes. rewrite !(sf_b64 formats). unfold handle_dispatch. cbn [server set_auth set_server].
  unfold handle. cbn [handle_inner].
  destruct (handle_boot_put max_entries_per_space now now SrvStore.FsOk (ai_space a) (ai_agent a) b sv) as [r sv'] eqn:E.
  destruct (SrvRun.put_spec max_entries_per_space Hm _ _ _ _ _ _ _ _ _ _ Hok E) as (Hr & _ & Hok').
  destruct r as [answer|e|e]; [| |done].
  - destruct Hr as (-> & info & Hi & _ & He). rewrite Hparse in Hi. injection Hi as <-.
    eexists _, _, _. split; [reflexivity|]. by split_and!.
  - destruct Hr as (_ & [Hp|(info & Hi & [Hc|[]])]); [congruence| |done].
    rewrite Hparse in Hi. injection Hi as <-. congruence.
Qed.

Lemma get_call url space out v p header w :
  map_read v space = Ok out -> server w.1 = v -> w.2 = p ->
  let call := http_get (with_path url (String.append "bootstrap/" (b64_encode space))) header w in
  if passes header w then exists status body w', call = (ReplyOk status body, w') /\ body = Some out /\ same_but_auth w w'
  else exists w', call = (ReplyStatus 401, w') /\ same_but_auth w w'.
Proof.
  intros E <- <- call. subst call. cbn [http_get served]. rewrite (sf_get formats).
  unfold serve, http_boot_get, guarded, passes. destruct w as [[au sv] p']. cbn [fst snd auth_state server] in *.
  destruct (check_token config instant (bearer_token header) au) as [[] au']; cbn [fst negb]; [|by eexists].
  unfold b64_to_bytes. rewrite (sf_b64 formats). unfold handle_dispatch. cbn [server set_auth set_server].
  unfold handle. cbn [handle_inner]. unfold handle_boot_get. rewrite E. by eexists _, _, _.
Qed.

(** The infos a node reads of the server's list are those it verifies. *)
Lemma decode_entries bs ps a : Forall2 (fun b p => SrvSpace.try_from_slice b = Ok p) bs ps ->
  entry_of a ∈ ps -> authentic a ->
  exists l, decode_list (SrvRun.json_list bs) = Ok l /\ Ok a ∈ l.
Proof.
  intros Hbs Hin [Hi Hv]. exists (map (fun r => inner_decode_one r.1 r.2)
    (map (fun p => (SrvSpace.encoded p, SrvSpace.signature p)) ps)). split.
  - unfold decode_list, ok_or. rewrite (sf_list formats bs (map (fun p => (SrvSpace.encoded p, SrvSpace.signature p)) ps)); [done|].
    clear Hin. induction Hbs; cbn; constructor; [by apply (sf_ref formats)|done].
  - apply list_elem_of_fmap. exists (ai_encoded a, ai_signature a). split.
    + unfold inner_decode_one, ok_or. cbn. rewrite Hi. cbn. rewrite Hv. by destruct a.
    + apply list_elem_of_fmap. by exists (entry_of a).
Qed.

(** A put of the client, and a get, against the server, whatever token is
    cached. *)
Lemma client_put material owners url a b (c : Client World) :
  (0 < max_entries_per_space)%nat -> admits material ->
  SrvRun.server_ok max_entries_per_space owners (server (net c).1) ->
  encode_info a = Ok b -> SrvSpace.try_from_slice b = Ok (entry_of a) ->
  check_put now (ai_space a) (ai_agent a) (entry_of a) = Ok tt ->
  exists c', blocking_put_auth url a material c = (Ok tt, c') /\
    (exists owners', SrvRun.server_ok max_entries_per_space owners' (server (net c').1)) /\
    SrvRun.entries (server (net c').1) (ai_space a) = SrvSpace.stack_put max_entries_per_space now (entry_of a)
      (SrvRun.entries (server (net c).1) (ai_space a)).
Proof.
  intros Hm Ha Hok He Hparse Hcheck. destruct (first_spec material url c Ha) as (c1 & E1 & [S1 S2] & Htok).
  destruct (retry_spec material url (fun header => http_put (with_path url (put_path a)) header b) (fun _ => Some tt) tt
    (fun w' => w'.2 = (net c1).2 /\ (exists owners', SrvRun.server_ok max_entries_per_space owners' (server w'.1)) /\
       SrvRun.entries (server w'.1) (ai_space a) = SrvSpace.stack_put max_entries_per_space now (entry_of a)
         (SrvRun.entries (server (net c).1) (ai_space a))) _ _ c1 Ha S1 eq_refl Htok) as (c' & E2 & _ & Hs & Hent).
  { intros header w Hv Hp. by eapply put_call. }
  exists c'. split_and!; [|done|done]. unfold blocking_put_auth, bind at 1. rewrite E1. unfold bind at 1, lift_res at 1.
  rewrite He. unfold bind. by rewrite E2.
Qed.

Lemma client_get material owners url a v (c : Client World) :
  (0 < max_entries_per_space)%nat -> admits material ->
  SrvRun.server_ok max_entries_per_space owners v -> server (net c).1 = v ->
  entry_of a ∈ SrvRun.entries v (ai_space a) -> authentic a ->
  exists l c', blocking_get_auth url (ai_space a) material c = (Ok l, c') /\ a ∈ l /\ (net c').2 = (net c).2.
Proof.
  intros Hm Hb Hok Hv Hin Hau. destruct (first_spec material url c Hb) as (c1 & E1 & [S1 S2] & Htok).
  destruct (SrvRun.map_read_spec _ Hm _ _ (ai_space a) Hok) as (bs & Er & Hbs & _).
  destruct (decode_entries bs _ a Hbs Hin Hau) as (l & El & Hl).
  destruct (retry_spec material url
    (fun header => http_get (with_path url (String.append "bootstrap/" (b64_encode (ai_space a)))) header)
    (fun body => body) (SrvRun.json_list bs) (fun w' => w'.2 = (net c1).2) v _ c1 Hb
    (eq_trans S1 Hv) eq_refl Htok) as (c2 & E2 & Hp2).
  { intros header w Hw Hp. pose proof (get_call url (ai_space a) _ _ _ header w Er Hw Hp) as Hc. cbn zeta in Hc.
    destruct (passes header w); [|exact Hc]. destruct Hc as (status & body & w' & ? & ? & _ & ?).
    exists status, body, w'. split_and!; congruence. }
  exists (omap (fun r => match r with Ok a => Some a | _ => None end) l), c2. split_and!.
  - unfold blocking_get_auth, bind at 1. rewrite E1. unfold bind at 1. rewrite E2. unfold bind, lift_res.
    cbn [result_of_res]. by rewrite El.
  - apply list_elem_of_omap. by exists (Ok a).
  - congruence.
Qed.

(** C31: Two nodes find each other through the server: an info that a node puts
    to its bootstrap module, and that passes the server's checks, is pushed in
    one turn of the push task, and the next poll of any other node, whatever
    token either has cached, offers it to that node's peer store. *)
Theorem put_is_discovered cfg_a cfg_b url a b material_a material_b owners (na : CoreBootstrap World) :
  (0 < max_entries_per_space)%nat -> admits material_a -> admits material_b ->
  SrvRun.server_ok max_entries_per_space owners (server (net (client na)).1) -> push_queue na = [] ->
  encode_info a = Ok b -> authentic a -> SrvSpace.try_from_slice b = Ok (entry_of a) ->
  check_put now (ai_space a) (ai_agent a) (entry_of a) = Ok tt ->
  ai_is_tombstone a = false -> now < ai_expires_at a ->
  (forall p, p ∈ SrvRun.entries (server (net (client na)).1) (ai_space a) ->
     SrvSpace.agent p = ai_agent a -> SrvSpace.created_at p < ai_created_at a) ->
  exists na', push_turn cfg_a material_a url now (bootstrap_put (ai_space a) a na) = (Ok tt, na') /\
    push_queue na' = [] /\ push_wait na' = None /\
    forall (nb : CoreBootstrap World), server (net (client nb)).1 = server (net (client na')).1 ->
      exists l w r nb', poll_turn cfg_b (ai_space a) material_b url nb = (Ok tt, nb') /\
        a ∈ l /\ w.2 = (net (client nb)).2 /\ ps_insert l w = (r, net (client nb')).
Proof.
  intros Hm Ha Hb Hok Hq He Hau Hparse Hcheck Ht Hx Hold.
  destruct (client_put material_a owners url a b (client na)) as (c' & E & (owners' & Hok') & He'); [done..|].
  eexists. split; [|split; [|split]].
  - unfold bootstrap_put. rewrite bool_decide_eq_true_2 by done. unfold push_turn, try_send. rewrite Hq.
    rewrite bool_decide_eq_true_2 by (unfold PUSH_QUEUE; cbn; lia).
    cbn [push_queue app client push_wait poll_wait]. rewrite E. reflexivity.
  - done.
  - done.
  - cbn [client]. intros nb Hnb.
    destruct (client_get material_b owners' url a (server (net c').1) (client nb)) as (l & c2 & Eget & Hl & Hp2); [done..| |done|].
    { rewrite He'. apply SrvServer.stack_put_held; [done|done|]. intros p Hp Hag. by apply Hold. }
    destruct (ps_insert l (net c2)) as [r h] eqn:Ei.
    eexists l, (net c2), r, _. split; [unfold poll_turn; rewrite Eget, Ei; reflexivity|]. by split_and!.
Qed.
End formats.
End discovery.

(** * Discovery at work

    The theorems on the bootstrap client at concrete codecs, server and nodes:
    a server with a hook, two nodes with credentials, one with a stale token. *)

(** ** A text for all bytes: the digits of their code *)

Fixpoint binary (p : positive) : string :=
  match p with
  | xH => EmptyString
  | xO p => String "0"%char (binary p)
  | xI p => String "1"%char (binary p)
  end.

Fixpoint of_binary (s : string) : positive :=
  match s with
  | EmptyString => xH
  | String c s => if bool_decide (c = "1"%char) then xI (of_binary s) else xO (of_binary s)
  end.

Lemma of_binary_binary p : of_binary (binary p) = p.
Proof. induction p as [p IH|p IH|]; cbn; by rewrite ?IH. Qed.

Definition encode64 (b : bytes) : string := binary (encode b).
Definition decode64 (s : string) : option bytes := decode (of_binary s).

Lemma decode_encode64 b : decode64 (encode64 b) = Some b.
Proof. unfold decode64, encode64. by rewrite of_binary_binary, decode_encode. Qed.

(** The text before a slash, and the rest. *)
Fixpoint split_slash (s : string) : option (string * string) :=
  match s with
  | EmptyString => None
  | String c s =>
      if bool_decide (c = "/"%char) then Some (EmptyString, s)
      else (fun r => (String c r.1, r.2)) <$> split_slash s
  end.

Lemma split_binary p s : split_slash (String.append (binary p) (String "/"%char s)) = Some (binary p, s).
Proof. induction p as [p IH|p IH|]; simpl; [rewrite IH; reflexivity..|reflexivity]. Qed.

Lemma split_binary_none p : split_slash (binary p) = None.
Proof. induction p as [p IH|p IH|]; simpl; [rewrite IH; reflexivity..|reflexivity]. Qed.

Definition path_route (url : string) : Route :=
  if bool_decide (url = "authenticate"%string) then RAuthenticate
  else if bool_decide (url = "relay/keepalive"%string) then RKeepalive
  else match strip_prefix "bootstrap/" url with
       | Some s => match split_slash s with Some (space, agent) => RPut space agent | None => RGet s end
       | None => RNone
       end.

Lemma path_route_bootstrap s : path_route (String.append "bootstrap/" s) =
  match split_slash s with Some (space, agent) => RPut space agent | None => RGet s end.
Proof. unfold path_route. rewrite !bool_decide_eq_false_2 by done. by rewrite strip_prefix_app. Qed.

(** ** One agent and its info *)

Definition one_key : bytes := replicate 32 1.
Definition one_signature : bytes := replicate 64 7.
Definition one_info : AgentInfo := MkAgentInfo one_key [9] 100 500 false (Some "wss://a"%string) FULL.
Definition one : AgentInfoSigned := MkAgentInfoSigned one_info "one" one_signature.

#[local] Instance one_entries : SrvSpace.EntryCodec := {|
  SrvSpace.outer_json b := if bool_decide (b = [1]) then Some ("one"%string, encode64 one_signature) else None;
  SrvSpace.inner_json s :=
    if bool_decide (s = "one"%string)
    then Some (SrvSpace.MkInner (encode64 one_key) (encode64 [9]) "100" "500" false) else None;
  SrvSpace.b64_decode := decode64;
  SrvSpace.verifying_key _ := true;
  SrvSpace.verify _ _ _ := true;
|}.

Definition ref_of (z : Z) : option (string * bytes) :=
  if bool_decide (z = 1) then Some ("one"%string, one_signature) else None.

#[local] Instance one_json : AgentJson := {|
  info_to_json _ := Some "one"%string;
  info_from_json s := if bool_decide (s = "one"%string) then Some one_info else None;
  ref_to_json _ := Some [1];
  ref_from_json b := if bool_decide (b = [1]) then ref_of 1 else None;
  ref_list_from_json b := Some (omap ref_of b);
  Agent.verify _ _ _ := true;
|}.

Fixpoint untext (b : bytes) : string :=
  match b with [] => EmptyString | z :: b => String (ascii_of_nat (Z.to_nat z)) (untext b) end.

Lemma untext_text s : untext (text s) = s.
Proof. induction s as [|c s IH]; cbn; [done|]. by rewrite IH, Nat2Z.id, ascii_nat_embedding. Qed.

#[local] Instance one_client : ClientCodec := {|
  with_path _ path := path;
  b64_encode := encode64;
  read_auth_token b := Some (untext b);
|}.

Lemma one_formats : same_formats text path_route.
Proof.
  split.
  - apply decode_encode64.
  - done.
  - intros url a. cbn [with_path one_client]. unfold put_path.
    rewrite path_route_bootstrap. cbn [b64_encode one_client]. unfold encode64.
    change (String.append "/" ?t) with (String "/"%char t). by rewrite split_binary.
  - intros url space. cbn [with_path one_client b64_encode].
    rewrite path_route_bootstrap. unfold encode64. by rewrite split_binary_none.
  - intros t. cbn. by rewrite untext_text.
  - intros b p. unfold SrvSpace.try_from_slice. cbn. case_bool_decide as Hb; [|done]. cbn.
    intros E. subst b. assert (SrvSpace.encoded p = "one"%string /\ SrvSpace.signature p = one_signature) as [-> ->]; [|done].
    vm_compute in E. injection E as <-. by split.
  - intros bs rs Hbs. cbn. f_equal. unfold SrvRun.json_list. cbn. rewrite omap_app. cbn.
    rewrite app_nil_r. cbn in Hbs. induction Hbs as [|b r bs rs Hb Hbs IH]; [done|].
    case_bool_decide; [|done]. subst b. injection Hb as <-. cbn. f_equal. clear IH.
    induction Hbs as [|b r bs rs Hb Hbs IH]; [done|]. case_bool_decide; [|done]. subst b. injection Hb as <-. cbn.
    by rewrite IH.
Qed.

(** ** The server and the nodes *)

#[local] Instance list_peers : PeerStore (list AgentInfoSigned) := {|
  ps_insert l := fun s => (Ok tt, s ++ l);
  ps_remove _ := fun s => (Ok tt, s);
  ps_get _ := fun s => (Ok None, s);
  ps_get_all := fun s => (Ok s, s);
  ps_get_by_overlapping_storage_arc _ := fun s => (Ok s, s);
  ps_get_near_location _ _ := fun s => (Ok s, s);
  ps_get_by_url _ := fun s => (Ok s, s);
|}.

Definition with_hook : AuthConfig := MkAuthConfig (Some "http://hook"%string) 300.
Definition hook_takes (_ : string) (material : bytes) : HookOutcome :=
  if bool_decide (material = [4]) then HookAnswer 200 (Some "tok"%string) else HookStatusError 401.
Definition token_is_body (body : string) : option (option string) := Some (Some body).

Definition fresh_server : HttpState := MkHttp auth_new server_new.

#[local] Instance demo_net : HttpClient (HttpState * list AgentInfoSigned) :=
  served 2 text token_is_body text (fun _ => true) with_hook hook_takes "random" path_route 50 250.
#[local] Instance demo_peers : PeerStore (HttpState * list AgentInfoSigned) := world_peers.

Definition config_of : CoreBootstrapConfig :=
  MkBootstrapConfig (Some "http://boot"%string) None 5000 300000.

Definition node_a : CoreBootstrap (HttpState * list AgentInfoSigned) :=
  MkBootstrap [] None 0 (MkClient (Some "stale"%string) (fresh_server, [])).

Lemma material_admitted : admits token_is_body with_hook hook_takes "random" 50 (Some [4]).
Proof. split; [done|]. exists "tok"%string. intros s. reflexivity. Qed.

Lemma put_is_discovered_witness :
  exists na' nb', push_turn config_of (Some [4]) "http://boot" 250 (bootstrap_put [9] one node_a) = (Ok tt, na') /\
    poll_turn config_of [9] (Some [4]) "http://boot"
      (MkBootstrap [] None 0 (MkClient None ((net (client na')).1, []))) = (Ok tt, nb') /\
    exists l, one ∈ l /\ (net (client nb')).2 = l.
Proof.
  destruct (put_is_discovered 2 text token_is_body text (fun _ => true) with_hook hook_takes "random" path_route 50 250
    one_formats config_of config_of "http://boot" one [1] (Some [4]) (Some [4]) [] node_a) as (na' & E & _ & _ & Hb);
    [lia|exact material_admitted|exact material_admitted|apply SrvRun.server_new_ok; lia|done|done|
     by split|vm_compute; reflexivity|vm_compute; reflexivity|done|done| |].
  { intros p Hp. vm_compute in Hp. by apply elem_of_nil in Hp. }
  destruct (Hb (MkBootstrap [] None 0 (MkClient None ((net (client na')).1, []))) eq_refl)
    as (l & [s p] & r & nb' & Ep & Hin & Hp & Hi).
  exists na', nb'. split; [exact E|split; [exact Ep|]]. exists l. split; [done|]. cbn in Hp, Hi. subst p.
  injection Hi as _ <-. done.
Defined.

(** ** An outage *)

(** A network that fails so many times. *)
#[local] Instance flaky : HttpClient nat := {|
  http_put _ _ _ n := match n with S n => (ReplyFailed, n) | O => (ReplyOk 200 None, O) end;
  http_get _ _ n := (ReplyFailed, n);
|}.

