(* ===== verification/IrohFrame.v ===== *)
(** * Frames of the iroh transport

    [transport_iroh/src/frame.rs] and the reads of [connection_context.rs]: a
    frame is a type, the length of the payload as four bytes, and the payload.
    A text is the bytes of its UTF-8, and the parser of peer URLs is a
    parameter. *)
From S2P Require Import Prelude Id.

Definition FRAME_HEADER_LEN : Z := 5.

Inductive FrameType : Type := TPreflight | TData.

#[global] Instance FrameType_eq_dec : EqDecision FrameType.
Proof. solve_decision. Defined.

Definition frame_type_byte (t : FrameType) : Z := match t with TPreflight => 0 | TData => 1 end.
Definition frame_type_try_from (value : Z) : res FrameType :=
  if value =? 0 then Ok TPreflight else if value =? 1 then Ok TData else Err "unknown iroh frame type".

Inductive Frame : Type := FPreflight (url preflight : bytes) | FData (data : bytes).

Definition len (b : bytes) : Z := Z.of_nat (length b).

(** [(n as u32).to_be_bytes()] and [u32::from_be_bytes]. *)
Definition to_be_bytes (n : Z) : bytes :=
  let n := wrap_u32 n in [n / 2 ^ 24; n / 2 ^ 16 mod 256; n / 2 ^ 8 mod 256; n mod 256].
Definition from_be_bytes (a b c d : Z) : Z := a * 2 ^ 24 + b * 2 ^ 16 + c * 2 ^ 8 + d.

Definition encode_frame_header (ty : FrameType) (data_len max_frame_bytes : Z) : res bytes :=
  if max_frame_bytes <? data_len + FRAME_HEADER_LEN then Err "frame too large"
  else Ok (frame_type_byte ty :: to_be_bytes data_len).

Definition encode_frame (frame : Frame) (max_frame_bytes : Z) : res bytes :=
  match frame with
  | FPreflight url preflight =>
      let data := to_be_bytes (len url) ++ url ++ preflight in
      let? header := encode_frame_header TPreflight (len data) max_frame_bytes in
      Ok (header ++ data)
  | FData data =>
      let? header := encode_frame_header TData (len data) max_frame_bytes in
      Ok (header ++ data)
  end.

Definition decode_frame_header (data : bytes) (max_frame_bytes : Z) : res (FrameType * Z) :=
  match data with
  | t :: a :: b :: c :: d :: _ =>
      let? frame_type := frame_type_try_from t in
      let data_len := from_be_bytes a b c d in
      if max_frame_bytes <? data_len + FRAME_HEADER_LEN then Err "iroh frame too large"
      else Ok (frame_type, data_len)
  | _ => Err "iroh frame shorter than header"
  end.

(** [std::str::from_utf8]: well-formed UTF-8. *)
Definition between (lo hi x : Z) : bool := (lo <=? x) && (x <=? hi).
Definition tail_byte : Z -> bool := between 128 191.

Fixpoint utf8 (b : bytes) : bool :=
  match b with
  | [] => true
  | x :: b1 =>
      if between 0 127 x then utf8 b1
      else match b1 with
           | y :: b2 =>
               if between 194 223 x && tail_byte y then utf8 b2
               else match b2 with
                    | z :: b3 =>
                        if ((x =? 224) && between 160 191 y || between 225 236 x && tail_byte y ||
                            (x =? 237) && between 128 159 y || between 238 239 x && tail_byte y) && tail_byte z
                        then utf8 b3
                        else match b3 with
                             | w :: b4 =>
                                 if ((x =? 240) && between 144 191 y || between 241 243 x && tail_byte y ||
                                     (x =? 244) && between 128 143 y) && tail_byte z && tail_byte w
                                 then utf8 b4 else false
                             | [] => false
                             end
                    | [] => false
                    end
           | [] => false
           end
  end.

Section frames.
(** [Url::from_str] of the API, as the text of the URL it makes. *)
Variable url_from_str : bytes -> res bytes.
Variable max_frame_bytes : Z.

Definition decode_frame_preflight (data : bytes) : res (bytes * bytes) :=
  match data with
  | a :: b :: c :: d :: rest =>
      let url_len := from_be_bytes a b c d in
      if len data <? 4 + url_len then Err "preflight data too short for actual URL"
      else
        let url := take (Z.to_nat url_len) rest in
        if utf8 url then let? url := url_from_str url in Ok (url, drop (Z.to_nat url_len) rest)
        else Err "invalid peer url"
  | _ => Err "preflight data too short for URL length"
  end.

(** ** Reading from a stream

    The stream is the bytes that are still to come before its end. *)
Definition read_exact (n : Z) : M bytes bytes := fun stream =>
  if len stream <? n then (Err "stream read failed", [])
  else (Ok (take (Z.to_nat n) stream), drop (Z.to_nat n) stream).

Definition read_preflight_frame_from_stream : M bytes (bytes * bytes) :=
  let* header_bytes := read_exact FRAME_HEADER_LEN in
  let* (frame_type, data_len) := lift_res (decode_frame_header header_bytes max_frame_bytes) in
  if bool_decide (frame_type = TData) then fail "preflight frame expected, received data frame"
  else let* preflight_bytes := read_exact data_len in lift_res (decode_frame_preflight preflight_bytes).

Definition read_data_frame_from_stream : M bytes bytes :=
  let* header := read_exact FRAME_HEADER_LEN in
  let* (frame_type, data_len) := lift_res (decode_frame_header header max_frame_bytes) in
  if bool_decide (frame_type = TPreflight) then fail "data frame expected, received preflight frame"
  else read_exact data_len.

(** The data frames of a stream, up to the first that cannot be read.  A frame
    is five bytes at least, so that [length stream] rounds are enough. *)
Fixpoint read_data_frames (fuel : nat) (stream : bytes) : list bytes :=
  match fuel with
  | O => []
  | S fuel =>
      match read_data_frame_from_stream stream with
      | (Ok data, stream) => data :: read_data_frames fuel stream
      | _ => []
      end
  end.

Definition data_frames (stream : bytes) : list bytes := read_data_frames (length stream) stream.

(** ** What is written is read *)

Lemma be_roundtrip n : 0 <= n < 2 ^ 32 ->
  exists a b c d, to_be_bytes n = [a; b; c; d] /\ from_be_bytes a b c d = n.
Proof.
  intros Hn. unfold to_be_bytes. rewrite wrap_u32_id by done. eexists _, _, _, _. split; [reflexivity|].
  unfold from_be_bytes. change (2 ^ 24) with (2 ^ 8 * 2 ^ 8 * 2 ^ 8). change (2 ^ 16) with (2 ^ 8 * 2 ^ 8).
  change 256 with (2 ^ 8). rewrite <- !Z.div_div by lia.
  pose proof (Z.div_mod n (2 ^ 8)). pose proof (Z.div_mod (n / 2 ^ 8) (2 ^ 8)).
  pose proof (Z.div_mod (n / 2 ^ 8 / 2 ^ 8) (2 ^ 8)). lia.
Qed.

Lemma read_exact_app a b : read_exact (len a) (a ++ b) = (Ok a, b).
Proof.
  unfold read_exact, len. rewrite length_app. destruct (Z.ltb_spec (Z.of_nat (length a + length b)) (Z.of_nat (length a))); [lia|].
  rewrite Nat2Z.id. by rewrite take_app_length, drop_app_length.
Qed.

Lemma read_exact_short n s : len s < n -> (read_exact n s).1 = Err "stream read failed".
Proof. intros Hs. unfold read_exact. by rewrite (proj2 (Z.ltb_lt _ _) Hs). Qed.

Lemma len_nonneg b : 0 <= len b.
Proof. unfold len. lia. Qed.

Lemma len_app a b : len (a ++ b) = len a + len b.
Proof. unfold len. rewrite length_app. lia. Qed.

Hypothesis frames_fit : max_frame_bytes <= 2 ^ 32 + 4.
#[local] Set Default Proof Using "Type*".

(** A header that is written is read, whatever follows. *)
Lemma header_roundtrip ty n h rest : 0 <= n -> encode_frame_header ty n max_frame_bytes = Ok h ->
  read_exact FRAME_HEADER_LEN (h ++ rest) = (Ok h, rest) /\ len h = FRAME_HEADER_LEN /\
  decode_frame_header h max_frame_bytes = Ok (ty, n).
Proof.
  intros Hn. unfold encode_frame_header, FRAME_HEADER_LEN.
  destruct (Z.ltb_spec max_frame_bytes (n + 5)) as [|Hfit]; [done|]. intros [= <-].
  destruct (be_roundtrip n) as (a & b & c & d & E & Hb); [lia|]. rewrite E. split_and!.
  - change 5 with (len (frame_type_byte ty :: [a; b; c; d])) at 1. apply read_exact_app.
  - done.
  - unfold decode_frame_header. rewrite Hb. unfold FRAME_HEADER_LEN.
    assert ((max_frame_bytes <? n + 5) = false) as -> by by apply Z.ltb_ge. by destruct ty.
Qed.

(** The frame as a header and a payload. *)
Lemma encode_data_inv data b : encode_frame (FData data) max_frame_bytes = Ok b ->
  exists h, encode_frame_header TData (len data) max_frame_bytes = Ok h /\ b = h ++ data.
Proof.
  unfold encode_frame. destruct (encode_frame_header _ _ _) as [h|e|e]; cbn; [|done..]. intros [= <-]. by exists h.
Qed.

Lemma encode_preflight_inv url preflight b : encode_frame (FPreflight url preflight) max_frame_bytes = Ok b ->
  exists h, encode_frame_header TPreflight (len (to_be_bytes (len url) ++ url ++ preflight)) max_frame_bytes = Ok h /\
    b = h ++ to_be_bytes (len url) ++ url ++ preflight.
Proof.
  unfold encode_frame. destruct (encode_frame_header _ _ _) as [h|e|e]; [|done..]. intros [= <-]. by exists h.
Qed.

Lemma read_data_roundtrip data b rest : encode_frame (FData data) max_frame_bytes = Ok b ->
  read_data_frame_from_stream (b ++ rest) = (Ok data, rest).
Proof.
  intros (h & Eh & ->)%encode_data_inv. destruct (header_roundtrip _ _ _ (data ++ rest) (len_nonneg data) Eh) as (E1 & _ & E2).
  unfold read_data_frame_from_stream, bind at 1. rewrite <- app_assoc, E1. unfold bind, lift_res. rewrite E2. cbn.
  apply read_exact_app.
Qed.

(** A frame that was cut short is not read. *)
Lemma read_data_cut data b s : encode_frame (FData data) max_frame_bytes = Ok b -> s `prefix_of` b -> s <> b ->
  exists e rest, read_data_frame_from_stream s = (Err e, rest).
Proof.
  intros (h & Eh & ->)%encode_data_inv Hpre Hne. destruct Hpre as [more Hmore].
  destruct (header_roundtrip _ _ _ [] (len_nonneg data) Eh) as (_ & Hh & E2).
  unfold read_data_frame_from_stream, bind at 1. destruct (Z.lt_ge_cases (len s) FRAME_HEADER_LEN) as [Hs|Hs].
  - pose proof (read_exact_short _ _ Hs) as E. destruct (read_exact FRAME_HEADER_LEN s) as [r rest]. cbn in E. subst r.
    by eexists _, _.
  - assert (exists s2, s = h ++ s2) as [s2 ->].
    { exists (drop (length h) s). rewrite <- (take_drop (length h) s) at 1. f_equal.
      transitivity (take (length h) (h ++ data)); [|apply take_app_length].
      rewrite Hmore, take_app_le; [done|]. unfold len in *. lia. }
    destruct (header_roundtrip _ _ _ s2 (len_nonneg data) Eh) as (E1 & _ & _). rewrite E1. unfold bind, lift_res. rewrite E2.
    rewrite bool_decide_eq_false_2 by done. rewrite <- app_assoc in Hmore. apply app_inv_head in Hmore. subst data.
    assert (len s2 < len (s2 ++ more)) as Hl.
    { rewrite len_app. destruct more; [by rewrite app_nil_r in Hne|]. unfold len. cbn. lia. }
    pose proof (read_exact_short _ _ Hl) as E. destruct (read_exact _ s2) as [r rest]. cbn in E. subst r.
    by eexists _, _.
Qed.

Lemma encoded_length data b : encode_frame (FData data) max_frame_bytes = Ok b -> (0 < length b)%nat.
Proof.
  intros (h & Eh & ->)%encode_data_inv. destruct (header_roundtrip _ _ _ [] (len_nonneg data) Eh) as (_ & Hh & _).
  rewrite length_app. unfold len, FRAME_HEADER_LEN in Hh. lia.
Qed.

(** A stream of frames that may end anywhere. *)
Lemma read_frames_prefix datas bs s fuel :
  Forall2 (fun d b => encode_frame (FData d) max_frame_bytes = Ok b) datas bs ->
  s `prefix_of` concat bs -> (length s <= fuel)%nat ->
  read_data_frames fuel s `prefix_of` datas /\ (s = concat bs -> read_data_frames fuel s = datas).
Proof.
  intros Hbs. revert s fuel. induction Hbs as [|d b datas bs Hd Hbs IH]; intros s fuel Hs Hf.
  - cbn in Hs. apply prefix_nil_inv in Hs. subst s. assert (read_data_frames fuel [] = []) as -> by by destruct fuel. done.
  - cbn [concat] in *. destruct (decide (b `prefix_of` s)) as [[s' ->]|Hnb].
    + apply prefix_app_inv in Hs. pose proof (encoded_length d b Hd) as Hb. rewrite length_app in Hf.
      destruct fuel as [|fuel]; [lia|]. cbn [read_data_frames]. rewrite (read_data_roundtrip d b s' Hd).
      destruct (IH s' fuel Hs ltac:(lia)) as [Hp He]. split; [by apply prefix_cons|].
      intros E%app_inv_head. by rewrite (He E).
    + assert (s `prefix_of` b /\ s <> b) as [Hsb Hne].
      { split; [|by intros ->; destruct Hnb].
        destruct (prefix_weak_total s b (b ++ concat bs) Hs) as [?|?]; [by exists (concat bs)|done|done]. }
      destruct (read_data_cut d b s Hd Hsb Hne) as (e & rest & E).
      assert (read_data_frames fuel s = []) as -> by (destruct fuel; cbn; [done|by rewrite E]).
      split; [apply prefix_nil|]. intros ->. destruct Hnb. by exists (concat bs).
Qed.

(** A preflight that is written is read, whatever follows. *)
Lemma preflight_roundtrip url preflight f rest :
  utf8 url = true -> url_from_str url = Ok url ->
  encode_frame (FPreflight url preflight) max_frame_bytes = Ok f ->
  read_preflight_frame_from_stream (f ++ rest) = (Ok (url, preflight), rest).
Proof.
  intros Hu Hurl Ef. apply encode_preflight_inv in Ef as (h & Eh & ->).
  set (data := to_be_bytes (len url) ++ url ++ preflight) in *.
  destruct (header_roundtrip _ _ _ (data ++ rest) (len_nonneg data) Eh) as (E1 & _ & E2).
  unfold read_preflight_frame_from_stream, bind at 1. rewrite <- app_assoc, E1. unfold bind, lift_res. rewrite E2.
  rewrite bool_decide_eq_false_2 by done. rewrite read_exact_app.
  assert (0 <= len url < 2 ^ 32) as Hlen.
  { split; [apply len_nonneg|]. unfold encode_frame_header, FRAME_HEADER_LEN in Eh.
    destruct (Z.ltb_spec max_frame_bytes (len data + 5)); [done|]. unfold data in *. rewrite !len_app in *.
    pose proof (len_nonneg (to_be_bytes (len url))). pose proof (len_nonneg preflight). lia. }
  destruct (be_roundtrip (len url) Hlen) as (a & b & c & d & Eb & Hb). unfold data, decode_frame_preflight. rewrite Eb.
  cbn [app]. rewrite Hb. destruct (Z.ltb_spec (len (a :: b :: c :: d :: url ++ preflight)) (4 + len url)) as [Hlt|_].
  { unfold len in Hlt. cbn in Hlt. rewrite length_app in Hlt. lia. }
  unfold len at 1 2 3. rewrite Nat2Z.id, take_app_length, drop_app_length, Hu, Hurl. done.
Qed.

(** C26: The frames of a connection are read as they were written: the preflight
    with its URL, then the data frames one by one; and of a stream that is cut
    off anywhere only whole frames are read, in order, never a wrong one. *)
Theorem frames_roundtrip url preflight f datas bs :
  utf8 url = true -> url_from_str url = Ok url ->
  encode_frame (FPreflight url preflight) max_frame_bytes = Ok f ->
  Forall2 (fun d b => encode_frame (FData d) max_frame_bytes = Ok b) datas bs ->
  read_preflight_frame_from_stream (f ++ concat bs) = (Ok (url, preflight), concat bs) /\
  data_frames (concat bs) = datas /\
  forall s, s `prefix_of` concat bs -> data_frames s `prefix_of` datas.
Proof.
  intros Hu Hurl Ef Hbs. split_and!.
  - by apply preflight_roundtrip.
  - by apply read_frames_prefix with (bs := bs).
  - intros s Hs. by apply read_frames_prefix with (bs := bs).
Qed.
End frames.
