(* ===== verification/IrohUrl.v ===== *)
(** * Peer URLs

    [api/src/url.rs]: the validation of a URL and its parts.  The parser of
    the crate [url] is a parameter; a URL is its text. *)
From stdpp Require Import pretty.
From S2P Require Import Prelude Id Agent.

(** ** Searching strings *)

(** [split_once(sep)], [rsplit_once(c)] and [split(c)] of [str]. *)
Fixpoint split_once (sep s : string) : option (string * string) :=
  if String.prefix sep s then Some (EmptyString, String.substring (String.length sep) (String.length s) s)
  else match s with
       | EmptyString => None
       | String x s => '(a, b) ← split_once sep s; Some (String x a, b)
       end.

Fixpoint rsplit_once (c : Ascii.ascii) (s : string) : option (string * string) :=
  match s with
  | EmptyString => None
  | String x s =>
      match rsplit_once c s with
      | Some (a, b) => Some (String x a, b)
      | None => if bool_decide (x = c) then Some (EmptyString, s) else None
      end
  end.

Fixpoint split_char (c : Ascii.ascii) (s : string) : list string :=
  match s with
  | EmptyString => [EmptyString]
  | String x s =>
      if bool_decide (x = c) then EmptyString :: split_char c s
      else match split_char c s with
           | [] => [String x EmptyString]
           | t :: ts => String x t :: ts
           end
  end.

Definition slash : Ascii.ascii := Ascii.ascii_of_nat 47.

Fixpoint free_of (c : Ascii.ascii) (s : string) : bool :=
  match s with EmptyString => true | String x s => negb (bool_decide (x = c)) && free_of c s end.

(** What the parser says of a text. *)
Record ParsedUrl : Type := MkParsed {
  scheme : string;
  host_str : option string;
  port_or_known_default : option Z;
  path : string
}.

Definition has_empty_segment (path : string) : bool :=
  existsb (fun s => bool_decide (s = EmptyString)) (drop 1 (split_char slash path)).

(** [format!("{scheme}://{host}:{port}{path}")] *)
Definition format_url (scheme host : string) (port : Z) (path : string) : string :=
  (scheme +:+ "://" +:+ host +:+ ":" +:+ pretty port +:+ path)%string.

Section url.
Variable parse : string -> res ParsedUrl.

(** [Url::new], of a text that is UTF-8. *)
Definition url_new (src : string) : res Url :=
  let? parsed := parse src in
  if negb (bool_decide (scheme parsed ∈ ["ws"; "wss"; "http"; "https"])) then Err "Invalid Kitsune2 Url Scheme"
  else match host_str parsed with
  | None => Err "Invalid Kitsune2 Url, Missing Host"
  | Some host =>
      match port_or_known_default parsed with
      | None => Err "Invalid Kitsune2 Url, Explicit Port Required"
      | Some port =>
          if negb (bool_decide (path parsed = "/")) && has_empty_segment (path parsed)
          then Err "Invalid Kitsune2 Url, path must not contain empty segments"
          else
            let canonical := format_url (scheme parsed) host port
                               (if bool_decide (path parsed = "/") then "" else path parsed) in
            if bool_decide (src = canonical) then Ok src else Err "Invalid Kitsune2 Url, Non-Canonical"
      end
  end.
End url.

Definition uses_tls (u : Url) : bool := String.prefix "wss://" u || String.prefix "https://" u.

Definition peer_id (u : Url) : option string :=
  '(_, r) ← split_once "://" u; '(_, r) ← rsplit_once slash r;
  if bool_decide (r = EmptyString) then None else Some r.

Definition is_peer (u : Url) : bool := bool_decide (is_Some (peer_id u)).

(** [addr]: the unwrap panics for a text without a scheme. *)
Definition addr (u : Url) : res string :=
  match split_once "://" u with
  | None => Panic "called `Option::unwrap()` on a `None` value"
  | Some (_, addr) => Ok match split_once "/" addr with None => addr | Some (addr, _) => addr end
  end.

(** ** Facts about the parts *)

Section text.
#[local] Arguments String.append !_ _ /.

Lemma append_assoc (a b c : string) : ((a +:+ b) +:+ c = a +:+ (b +:+ c))%string.
Proof. induction a as [|x a IH]; cbn; [done|by rewrite IH]. Qed.

(** A number is free of every character that is not a digit. *)
Lemma free_of_digits c (x : N) s : (forall d, pretty_N_char d <> c) -> free_of c s = true ->
  free_of c (pretty_N_go x s) = true.
Proof.
  intros Hc. revert s. induction (N.lt_wf_0 x) as [x _ IH]; intros s Hs.
  destruct (decide (x = 0)%N) as [->|Hx]; [by rewrite pretty_N_go_0|].
  rewrite pretty_N_go_step by lia. apply IH; [apply N.div_lt; lia|]. cbn -[pretty_N_char].
  by rewrite bool_decide_eq_false_2 by apply Hc.
Qed.

Lemma free_of_pretty c (n : Z) : (forall d, pretty_N_char d <> c) -> 0 <= n -> free_of c (pretty n) = true.
Proof.
  intros Hc Hn. destruct n as [|p|p]; [|change (free_of c (pretty (N.pos p)) = true)|lia].
  - change (free_of c (String (pretty_N_char 0) "") = true). cbn -[pretty_N_char].
    by rewrite bool_decide_eq_false_2 by apply Hc.
  - unfold pretty, pretty_N. rewrite decide_False by done. by apply free_of_digits.
Qed.

Lemma rsplit_once_free c s : free_of c s = true -> rsplit_once c s = None.
Proof.
  induction s as [|x s IH]; [done|]. cbn. rewrite andb_true_iff, negb_true_iff. intros [Hx Hs].
  by rewrite (IH Hs), Hx.
Qed.

Lemma rsplit_once_app c a b : free_of c b = true -> rsplit_once c (a +:+ String c b) = Some (a, b).
Proof.
  intros Hb. induction a as [|x a IH]; cbn.
  - rewrite (rsplit_once_free _ _ Hb). by rewrite bool_decide_eq_true_2.
  - change (a +:+ String c b)%string with (String.append a (String c b)) in IH. by rewrite IH.
Qed.

Lemma substring_whole s n : (String.length s <= n)%nat -> String.substring 0 n s = s.
Proof.
  revert n. induction s as [|x s IH]; intros [|n] Hn; cbn in *; try done; try lia. rewrite IH by lia. done.
Qed.

Definition colon : Ascii.ascii := Ascii.ascii_of_nat 58.

Lemma no_scheme_here x t : x <> colon -> String.prefix "://" (String x t) = false.
Proof. intros Hx. cbn [String.prefix]. destruct (Ascii.ascii_dec _ _) as [<-|]; [by destruct Hx|done]. Qed.

Lemma split_once_scheme s r : free_of colon s = true -> split_once "://" (s +:+ "://" +:+ r) = Some (s, r).
Proof.
  induction s as [|x s IH]; intros Hs.
  - cbn. rewrite substring_whole by lia.
    by destruct r.
  - cbn in Hs. apply andb_true_iff in Hs as [Hx Hs]. apply negb_true_iff, bool_decide_eq_false in Hx.
    change (String x s +:+ "://" +:+ r)%string with (String x (s +:+ "://" +:+ r)). cbn [split_once].
    by rewrite (no_scheme_here x _ Hx), (IH Hs).
Qed.

(** The peer id of a URL that ends in [/id]. *)
Lemma peer_id_of s r i : free_of colon s = true -> free_of slash i = true -> i <> EmptyString ->
  peer_id (s +:+ "://" +:+ r +:+ String slash i) = Some i.
Proof.
  intros Hs Hi Hne. unfold peer_id.
  rewrite (split_once_scheme s (r +:+ String slash i) Hs). cbn [mbind option_bind].
  rewrite (rsplit_once_app slash r i Hi). cbn. by rewrite bool_decide_eq_false_2.
Qed.

End text.

(** * URLs of the iroh transport

    [transport_iroh/src/url.rs] and the choice of the own URL in [lib.rs]: a
    peer URL is the URL of the peer's relay with the peer's endpoint id as the
    last segment.  Relay URLs and endpoint ids are types of the crate [iroh],
    and what the transport asks of them is an interface. *)
Inductive Host : Type := Ipv6 (a : string) | OtherHost (s : string).

(** The relay URL of [iroh], with [as_str] for its equality. *)
Class RelayUrls (R : Type) := {
  relay_from_str : string -> res R;
  relay_host : R -> option Host;
  relay_port : R -> option Z;
  relay_path : R -> string;
  relay_scheme : R -> string;
  relay_eq_dec :: EqDecision R
}.

Definition host_text (h : Host) : string :=
  match h with Ipv6 a => ("[" +:+ a +:+ "]")%string | OtherHost s => s end.

(** What a space's configuration asks for. *)
Record SpaceRelay : Type := MkSpaceRelay { sr_url : string; auth_material_base64 : option string }.

Definition is_transport_own_relay (relay_url : string) (transport_relay_url : option string) : bool :=
  match transport_relay_url with
  | Some t => bool_decide (trim_end_slashes relay_url = trim_end_slashes t)
  | None => false
  end.

Definition per_space_relay (space_relay_url space_auth_material transport_relay_url transport_auth_material : option string)
  : option SpaceRelay :=
  url ← space_relay_url;
  let own_auth_material :=
    match space_auth_material with
    | Some m => if bool_decide (Some m <> transport_auth_material) then Some m else None
    | None => None
    end in
  let ours := is_transport_own_relay url transport_relay_url in
  if ours && bool_decide (own_auth_material = None) then None
  else Some (MkSpaceRelay url own_auth_material).

Section urls.
Context {R : Type} `{RelayUrls R}.
(** [url::Url::parse], and [EndpointId::from_str] with the text of the id for
    the id. *)
Variable parse : string -> res ParsedUrl.
Variable endpoint_id_from_str : string -> res string.

Definition canonicalize_relay_url (relay_url : R) (endpoint_id : string) : res Url :=
  match relay_host relay_url with
  | None => Err "relay url must have host"
  | Some host =>
      match relay_port relay_url with
      | None => Err "relay url must have known default port"
      | Some port =>
          let relay_path := trim_end_slashes (relay_path relay_url) in
          url_new parse (format_url (relay_scheme relay_url) (host_text host) port (relay_path +:+ String slash endpoint_id))
      end
  end.

(** The first relay of an address that gives a URL. *)
Fixpoint get_url_with_first_relay (relay_urls : list R) (id : string) : option Url :=
  match relay_urls with
  | [] => None
  | r :: rs => match canonicalize_relay_url r id with Ok url => Some url | _ => get_url_with_first_relay rs id end
  end.

Definition relay_url_from_peer_url (url : Url) : res R :=
  match rsplit_once slash url with
  | None => Err "url has no path"
  | Some (s, _) => relay_from_str (s +:+ "/")
  end.

Definition endpoint_from_url (url : Url) : res (string * R) :=
  match peer_id url with
  | None => Err "url must have peer id"
  | Some peer_id =>
      let? endpoint_id := endpoint_id_from_str peer_id in
      let? relay_url := relay_url_from_peer_url url in
      Ok (endpoint_id, relay_url)
  end.

(** The URLs of the relays that were added for spaces, in the order the map
    happens to list them. *)
Definition SpaceRelays : Type := list (SpaceId * (R * option Url)).

Fixpoint space_url_on (peer_relay : R) (space_relays : SpaceRelays) : option Url :=
  match space_relays with
  | [] => None
  | (_, (relay_url, our_url)) :: rest =>
      match our_url with
      | Some url => if bool_decide (relay_url = peer_relay) then Some url else space_url_on peer_relay rest
      | None => space_url_on peer_relay rest
      end
  end.

Definition own_url_for_preflight (peer_url : Url) (space_relays : SpaceRelays) (global_url : option Url) : option Url :=
  match relay_url_from_peer_url peer_url with
  | Ok peer_relay =>
      match space_url_on peer_relay space_relays with
      | Some url => Some url
      | None =>
          match global_url with
          | Some global =>
              match relay_url_from_peer_url global with
              | Ok our_relay => if bool_decide (our_relay = peer_relay) then Some global else None
              | _ => None
              end
          | None => None
          end
      end
  | _ => None
  end.

(** ** Facts *)

Lemma space_url_on_in peer_relay space_relays url : space_url_on peer_relay space_relays = Some url ->
  exists space, (space, (peer_relay, Some url)) ∈ space_relays.
Proof.
  induction space_relays as [|[space [r [u|]]] rest IH]; cbn; [done| |].
  - case_bool_decide as E; [intros [= ->]; exists space; rewrite E; by left|].
    intros Hu. destruct (IH Hu) as [s Hs]. exists s. by right.
  - intros Hu. destruct (IH Hu) as [s Hs]. exists s. by right.
Qed.

(** What the crates [url] and [iroh] document: a relay URL is read from its
    text, whether or not the port is the default one, and so is an endpoint id,
    which has no slash. *)
Definition relay_reparsed (r : R) : Prop := forall h p, relay_host r = Some h -> relay_port r = Some p ->
  relay_from_str (format_url (relay_scheme r) (host_text h) p (relay_path r)) = Ok r.
Definition id_reparsed (id : string) : Prop :=
  endpoint_id_from_str id = Ok id /\ id <> EmptyString /\ free_of slash id = true.
(** A relay URL of the transport: its path ends in one slash. *)
Definition relay_ok (r : R) : Prop :=
  relay_reparsed r /\ free_of colon (relay_scheme r) = true /\
  (trim_end_slashes (relay_path r) +:+ "/")%string = relay_path r.

Lemma canonicalize_inv r id u : canonicalize_relay_url r id = Ok u -> exists h p,
  relay_host r = Some h /\ relay_port r = Some p /\
  u = format_url (relay_scheme r) (host_text h) p (trim_end_slashes (relay_path r) +:+ String slash id).
Proof.
  unfold canonicalize_relay_url, url_new. destruct (relay_host r) as [h|]; [|done]. destruct (relay_port r) as [p|]; [|done].
  intros E. exists h, p. split_and!; [done..|]. revert E. generalize (format_url (relay_scheme r) (host_text h) p
    (trim_end_slashes (relay_path r) +:+ String slash id)). intros src.
  destruct (parse src) as [pu|e|e]; cbn; [|done..]. destruct (negb _); [done|]. destruct (host_str pu); [|done].
  destruct (port_or_known_default pu); [|done]. destruct (_ && _); [done|]. case_bool_decide; [|done]. by intros [= ->].
Qed.

Lemma relay_of_canonical r id u : relay_ok r -> id_reparsed id -> canonicalize_relay_url r id = Ok u ->
  relay_url_from_peer_url u = Ok r.
Proof.
  intros (Hr & Hc & Hp) (_ & _ & Hi) (h & p & Hh & Hport & ->)%canonicalize_inv. unfold relay_url_from_peer_url, format_url.
  rewrite <- !append_assoc, rsplit_once_app by done. rewrite <- (Hr _ _ Hh Hport). f_equal. unfold format_url.
  rewrite <- Hp at 2. by rewrite !append_assoc.
Qed.

(** What the transport has added for its spaces, see [do_insert_relay]. *)
Definition inserted (id : string) (e : SpaceId * (R * option Url)) : Prop :=
  relay_ok e.2.1 /\ forall url, e.2.2 = Some url -> canonicalize_relay_url e.2.1 id = Ok url.

(** The URL made of a relay and an endpoint id is read back as both, so
    that a peer dials the endpoint at that relay; and of its own URLs a
    transport only shows a peer one that is on the peer's relay. *)
Theorem peer_url_roundtrip id r u (space_relays : SpaceRelays) global peer own :
  relay_ok r -> id_reparsed id -> canonicalize_relay_url r id = Ok u -> Forall (inserted id) space_relays ->
  endpoint_from_url u = Ok (id, r) /\
  (own_url_for_preflight peer space_relays global = Some own ->
   relay_url_from_peer_url own = relay_url_from_peer_url peer /\
   (global = Some own \/ exists space r, (space, (r, Some own)) ∈ space_relays)).
Proof.
  intros Hr Hid Hu Hs. split.
  - unfold endpoint_from_url. pose proof (relay_of_canonical r id u Hr Hid Hu) as Hrelay.
    destruct Hr as (_ & Hc & _), Hid as (Hp & Hne & Hfree).
    apply canonicalize_inv in Hu as (h & p & _ & _ & ->). unfold format_url in *.
    replace (relay_scheme r +:+ "://" +:+ host_text h +:+ ":" +:+ pretty p +:+ trim_end_slashes (relay_path r) +:+ String slash id)%string
      with (relay_scheme r +:+ "://" +:+ (host_text h +:+ ":" +:+ pretty p +:+ trim_end_slashes (relay_path r)) +:+ String slash id)%string in *
      by by rewrite !append_assoc.
    rewrite peer_id_of by done. rewrite Hp. cbn. by rewrite Hrelay.
  - unfold own_url_for_preflight. destruct (relay_url_from_peer_url peer) as [pr|e|e]; [|done..].
    destruct (space_url_on pr space_relays) as [url|] eqn:E.
    + intros [= ->]. apply space_url_on_in in E as [sp Hin]. rewrite Forall_forall in Hs.
      destruct (Hs _ Hin) as [Hok Hc]. split; [|right; by eexists _, _]. by apply (relay_of_canonical pr id own); [| |apply Hc].
    + destruct global as [g|]; [|done]. destruct (relay_url_from_peer_url g) as [gr|e|e] eqn:Eg; [|done..].
      case_bool_decide as Er; [|done]. intros [= ->]. subst. split; [done|by left].
Qed.
End urls.
Arguments SpaceRelays R : clear implicits.
