(* ===== verification/ConnContext.v ===== *)
(** * Connections of the iroh transport

    [transport_iroh/src/connection_registry.rs]: the state machine of a
    connection, and the map that holds at most one connection for each peer.  An
    [Arc] of a connection is an index into the connections of the node; what
    the map asks of a connection is an interface, as in the code. *)
From S2P Require Import Prelude Timestamp Id Agent IrohFrame IrohUrl.

Inductive ConnectionState : Type := Pending | Active | Superseded | Closed.

#[global] Instance ConnectionState_eq_dec : EqDecision ConnectionState.
Proof. solve_decision. Defined.

Definition state_live (s : ConnectionState) : bool :=
  match s with Pending | Active => true | Superseded | Closed => false end.

(** The state after [activate], and whether it was reached now. *)
Definition activate_state (s : ConnectionState) : bool * ConnectionState :=
  match s with Pending => (true, Active) | s => (false, s) end.

Definition transition_to_terminal (terminal s : ConnectionState) : ConnectionState :=
  match s with Pending | Active => terminal | s => s end.

(** How a waiting sender learns that a connection is resolved: not yet, while
    it is pending. *)
Definition wait_for_resolution (s : ConnectionState) : option ConnectionState :=
  match s with Pending => None | s => Some s end.

(** What the registry needs to know about a connection. *)
Class RegistryEntry (E : Type) := {
  lifecycle : E -> ConnectionState;
  set_lifecycle : ConnectionState -> E -> E;
  is_preferred : E -> bool;
  close_superseded : E -> E
}.

(** What a connection promises: its state is a cell of its own, and neither
    that cell nor its rank changes when it is closed. *)
Class RegistryEntryLaws (E : Type) `{RegistryEntry E} := {
  lifecycle_set : forall s e, lifecycle (set_lifecycle s e) = s;
  preferred_set : forall s e, is_preferred (set_lifecycle s e) = is_preferred e;
  lifecycle_close : forall e, lifecycle (close_superseded e) = lifecycle e;
  preferred_close : forall e, is_preferred (close_superseded e) = is_preferred e
}.

(** [arcs] are the connections of the node, [entries] the map.  [changes] is
    the revision waiters are woken by. *)
Record ConnectionRegistry (E : Type) : Type := MkRegistry {
  arcs : list E;
  entries : gmap Url nat;
  changes : Z
}.
Arguments MkRegistry {E}. Arguments arcs {E}. Arguments entries {E}. Arguments changes {E}.

Section registry.
Context {E : Type} `{RegistryEntry E}.
Implicit Types (r : ConnectionRegistry E) (peer : Url) (i : nat).

Definition set_entries f r : ConnectionRegistry E := MkRegistry (arcs r) (f (entries r)) (changes r).
Definition on_arc i (f : E -> E) r : ConnectionRegistry E := MkRegistry (alter f i (arcs r)) (entries r) (changes r).

(** A new [Arc], with the index it has. *)
Definition new_arc (e : E) r : nat * ConnectionRegistry E :=
  (length (arcs r), MkRegistry (arcs r ++ [e]) (entries r) (changes r)).

(** The state of a connection. *)
Definition state_of r i : option ConnectionState := lifecycle <$> arcs r !! i.
Definition is_live r i : bool := match state_of r i with Some s => state_live s | None => false end.
Definition is_active r i : bool := bool_decide (state_of r i = Some Active).
Definition preferred_of r i : bool := match arcs r !! i with Some e => is_preferred e | None => false end.

Definition registry_new : ConnectionRegistry E := MkRegistry [] ∅ 0.

Definition registry_get peer r : option nat := entries r !! peer.

Definition mark_superseded i r := on_arc i (fun e => set_lifecycle (transition_to_terminal Superseded (lifecycle e)) e) r.
Definition mark_closed i r := on_arc i (fun e => set_lifecycle (transition_to_terminal Closed (lifecycle e)) e) r.

Definition notify_changed r : ConnectionRegistry E := MkRegistry (arcs r) (entries r) (wrap_u64 (changes r + 1)).

(** The part of [register_candidate] under the lock: whether the candidate
    holds the slot, whether the map was changed, and whom it displaced. *)
Definition claim_slot peer candidate r : bool * bool * option nat * ConnectionRegistry E :=
  if negb (is_live r candidate) then (false, false, None, r)
  else
    let replace displaced :=
      let r := set_entries <[ peer := candidate ]> r in
      (true, true, displaced, match displaced with Some d => mark_superseded d r | None => r end) in
    match entries r !! peer with
    | None => replace None
    | Some existing =>
        if bool_decide (existing = candidate) then (true, false, None, r)
        else if negb (is_live r existing) then replace (Some existing)
        else if preferred_of r existing && negb (preferred_of r candidate)
        then (false, false, None, mark_superseded candidate r)
        else replace (Some existing)
    end.

Definition register_candidate peer candidate r : bool * ConnectionRegistry E :=
  match claim_slot peer candidate r with
  | (holds, changed, displaced, r) =>
      let r := if changed : bool then notify_changed r else r in
      (holds, match displaced with Some d => on_arc d close_superseded r | None => r end)
  end.

Definition registry_activate peer i r : bool * ConnectionRegistry E :=
  if bool_decide (entries r !! peer = Some i) then
    match state_of r i with
    | Some s =>
        let '(activated, s') := activate_state s in
        (activated || bool_decide (s' = Active), on_arc i (set_lifecycle s') r)
    | None => (false, r)
    end
  else (false, r).

Definition remove_if_current peer i r : bool * ConnectionRegistry E :=
  if bool_decide (entries r !! peer = Some i) then (true, set_entries (delete peer) r) else (false, r).

(** What ends the wait of [wait_for_replacement]. *)
Definition replacement_for peer superseded r : option nat :=
  match entries r !! peer with
  | Some i => if negb (bool_decide (i = superseded)) && is_live r i then Some i else None
  | None => None
  end.

Definition registry_take peer r : option nat * ConnectionRegistry E :=
  (entries r !! peer, set_entries (delete peer) r).

Definition active_entries r : list (Url * nat) := List.filter (fun '(_, i) => is_active r i) (map_to_list (entries r)).
Definition active_peers r : list Url := (active_entries r).*1.

Definition registry_drain r : list nat * ConnectionRegistry E :=
  ((map_to_list (entries r)).*2, set_entries (fun _ => ∅) r).

(** ** Facts *)
Context `{!RegistryEntryLaws E}.
#[local] Set Default Proof Using "Type*".

Lemma state_of_on_arc i f r j :
  state_of (on_arc i f r) j = if bool_decide (i = j) then lifecycle <$> (f <$> arcs r !! j) else state_of r j.
Proof.
  unfold state_of, on_arc. cbn. case_bool_decide as Hij; [subst; by rewrite list_lookup_alter_eq|].
  by rewrite list_lookup_alter_ne.
Qed.

Lemma preferred_on_arc i f r j : (forall e, is_preferred (f e) = is_preferred e) ->
  preferred_of (on_arc i f r) j = preferred_of r j.
Proof.
  intros Hf. unfold preferred_of, on_arc. cbn. destruct (decide (i = j)) as [->|Hij].
  - rewrite list_lookup_alter_eq. destruct (arcs r !! j); cbn; [apply Hf|done].
  - by rewrite list_lookup_alter_ne.
Qed.

Lemma state_of_mark_superseded i r j : state_of (mark_superseded i r) j =
  if bool_decide (i = j) then transition_to_terminal Superseded <$> state_of r j else state_of r j.
Proof.
  unfold mark_superseded. rewrite state_of_on_arc. case_bool_decide; [|done]. unfold state_of.
  destruct (arcs r !! j); cbn; [by rewrite lifecycle_set|done].
Qed.

Lemma state_of_mark_closed i r j : state_of (mark_closed i r) j =
  if bool_decide (i = j) then transition_to_terminal Closed <$> state_of r j else state_of r j.
Proof.
  unfold mark_closed. rewrite state_of_on_arc. case_bool_decide; [|done]. unfold state_of.
  destruct (arcs r !! j); cbn; [by rewrite lifecycle_set|done].
Qed.

Lemma state_of_close i r j : state_of (on_arc i close_superseded r) j = state_of r j.
Proof.
  rewrite state_of_on_arc. case_bool_decide; [|done]. unfold state_of.
  destruct (arcs r !! j); cbn; [by rewrite lifecycle_close|done].
Qed.

Lemma preferred_mark_superseded i r j : preferred_of (mark_superseded i r) j = preferred_of r j.
Proof. apply preferred_on_arc. intros e. apply preferred_set. Qed.
Lemma preferred_mark_closed i r j : preferred_of (mark_closed i r) j = preferred_of r j.
Proof. apply preferred_on_arc. intros e. apply preferred_set. Qed.

Lemma transition_not_live t s : state_live t = false -> state_live (transition_to_terminal t s) = false.
Proof. by destruct s. Qed.
End registry.

(** * A connection of the iroh transport

    [transport_iroh/src/connection_context.rs] and [close_code.rs]: the frames
    sent and received on a connection, its preflight, and the cleanup when its
    reader stops.  A node is the connections with their registry, the calls made
    to the handler, and the node's own URLs.  What the QUIC connection answers
    is a parameter, and so is the handler, which may go by all the calls it has
    seen. *)
(** ** Close codes *)
Inductive CloseCode : Type := CodeUnspecified | CodeGraceful | CodeSuperseded.

#[global] Instance CloseCode_eq_dec : EqDecision CloseCode.
Proof. solve_decision. Defined.

Definition close_code_as_u8 (c : CloseCode) : Z :=
  match c with CodeUnspecified => 0 | CodeGraceful => 1 | CodeSuperseded => 2 end.
Definition close_code_from_wire (code : Z) : CloseCode :=
  if code =? 1 then CodeGraceful else if code =? 2 then CodeSuperseded else CodeUnspecified.

Definition SUPERSEDED_CLOSE_REASON : string := "superseded by preferred connection".
(** The text of [K2Error::NoLocalAgentsDuringPreflight]. *)
Definition no_local_agents : string := "No local agent has joined a space during preflight".

(** Why a connection of QUIC is closed: the first reason stays. *)
Inductive CloseReason : Type :=
  | LocallyClosed (code : CloseCode) (reason : string)
  | ApplicationClosed (code : CloseCode) (reason : string)
  | ConnectionLost.

(** A URL as the bytes of a frame, and back. *)
Definition bytes_of_string (s : string) : bytes := (fun a => Z.of_nat (Ascii.nat_of_ascii a)) <$> list_ascii_of_string s.
Definition string_of_bytes (b : bytes) : string := string_of_list_ascii ((fun z => Ascii.ascii_of_nat (Z.to_nat z)) <$> b).

(** ** The context of a connection *)
Record ConnectionContext : Type := MkContext {
  local_id : Z;
  remote_id : Z;
  dialed_by_us : bool;
  cc_lifecycle : ConnectionState;
  remote_url : option Url;
  preflight_sent : bool;
  preflight_received : bool;
  send_stream : bool;
  send_message_count : Z;
  send_bytes : Z;
  recv_message_count : Z;
  recv_bytes : Z;
  opened_at_s : Z;
  close_reason : option CloseReason;
  written : list bytes
}.

Definition context_new (local remote : Z) (dialed : bool) (url : option Url) (sent : bool) (opened : Z) : ConnectionContext :=
  MkContext local remote dialed Pending url sent false false 0 0 0 0 opened None [].

(** Ids are 32 bytes, compared as big-endian numbers are. *)
Definition is_preferred_connection (c : ConnectionContext) : bool :=
  let larger_endpoint_dialed := remote_id c <? local_id c in
  eqb (dialed_by_us c) larger_endpoint_dialed.

Definition set_state (s : ConnectionState) (c : ConnectionContext) : ConnectionContext :=
  MkContext (local_id c) (remote_id c) (dialed_by_us c) s (remote_url c) (preflight_sent c) (preflight_received c)
    (send_stream c) (send_message_count c) (send_bytes c) (recv_message_count c) (recv_bytes c) (opened_at_s c)
    (close_reason c) (written c).
Definition set_remote_url (u : Url) (c : ConnectionContext) : ConnectionContext :=
  MkContext (local_id c) (remote_id c) (dialed_by_us c) (cc_lifecycle c) (Some u) (preflight_sent c) (preflight_received c)
    (send_stream c) (send_message_count c) (send_bytes c) (recv_message_count c) (recv_bytes c) (opened_at_s c)
    (close_reason c) (written c).
Definition set_preflight (sent received : bool) (c : ConnectionContext) : ConnectionContext :=
  MkContext (local_id c) (remote_id c) (dialed_by_us c) (cc_lifecycle c) (remote_url c) sent received
    (send_stream c) (send_message_count c) (send_bytes c) (recv_message_count c) (recv_bytes c) (opened_at_s c)
    (close_reason c) (written c).
Definition set_stream (open : bool) (w : list bytes) (c : ConnectionContext) : ConnectionContext :=
  MkContext (local_id c) (remote_id c) (dialed_by_us c) (cc_lifecycle c) (remote_url c) (preflight_sent c) (preflight_received c)
    open (send_message_count c) (send_bytes c) (recv_message_count c) (recv_bytes c) (opened_at_s c)
    (close_reason c) w.
Definition set_counts (sm sb rm rb : Z) (c : ConnectionContext) : ConnectionContext :=
  MkContext (local_id c) (remote_id c) (dialed_by_us c) (cc_lifecycle c) (remote_url c) (preflight_sent c) (preflight_received c)
    (send_stream c) sm sb rm rb (opened_at_s c) (close_reason c) (written c).
Definition set_close_reason (r : CloseReason) (c : ConnectionContext) : ConnectionContext :=
  MkContext (local_id c) (remote_id c) (dialed_by_us c) (cc_lifecycle c) (remote_url c) (preflight_sent c) (preflight_received c)
    (send_stream c) (send_message_count c) (send_bytes c) (recv_message_count c) (recv_bytes c) (opened_at_s c)
    (match close_reason c with Some r => Some r | None => Some r end) (written c).

(** [connection.close] *)
Definition close_connection (code : CloseCode) (reason : string) : ConnectionContext -> ConnectionContext :=
  set_close_reason (LocallyClosed code reason).

Definition remote_close_reason (c : ConnectionContext) : option (CloseCode * string) :=
  match close_reason c with Some (ApplicationClosed code reason) => Some (code, reason) | _ => None end.

Definition superseded_by_remote (c : ConnectionContext) : bool :=
  match remote_close_reason c with Some (CodeSuperseded, _) => true | _ => false end.

Definition is_superseded (c : ConnectionContext) : bool :=
  bool_decide (cc_lifecycle c = Superseded) || superseded_by_remote c.

#[global] Instance context_entry : RegistryEntry ConnectionContext := {
  lifecycle := cc_lifecycle;
  set_lifecycle := set_state;
  is_preferred := is_preferred_connection;
  close_superseded := close_connection CodeSuperseded SUPERSEDED_CLOSE_REASON
}.

#[global] Instance context_entry_laws : RegistryEntryLaws ConnectionContext.
Proof. split; done. Qed.

(** ** The verdict on a reader that stopped *)
Record ReaderExit : Type := MkExit { exit_err : string; exit_mark_unresponsive : bool }.

Inductive ReaderCleanup : Type :=
  | PeerGone (mark_unresponsive : bool)
  | Graceful (reason : string)
  | CleanSuperseded
  | Inactive.

Definition classify_exit (was_active was_superseded : bool) (remote_close : option (CloseCode * string))
    (mark_unresponsive : bool) : ReaderCleanup :=
  let superseded_by_remote := match remote_close with Some (CodeSuperseded, _) => true | _ => false end in
  if was_superseded || superseded_by_remote then CleanSuperseded
  else if negb was_active then Inactive
  else match remote_close with
       | Some (CodeGraceful, reason) => Graceful reason
       | _ => PeerGone mark_unresponsive
       end.

(** ** The handler and the node *)
Inductive HandlerCall : Type :=
  | CallRecvData (peer : Url) (data : bytes)
  | CallPeerConnect (peer : Url)
  | CallPeerDisconnect (peer : Url) (reason : option string)
  | CallSetUnresponsive (peer : Url) (when : Timestamp)
  | CallNewListeningAddress (url : Url) (space : option SpaceId).

Class TxHandler := {
  on_recv_data : list HandlerCall -> Url -> bytes -> res unit;
  on_peer_connect : list HandlerCall -> Url -> res bytes;
  on_set_unresponsive : list HandlerCall -> Url -> res unit
}.

Record Node (R : Type) : Type := MkNode {
  registry : ConnectionRegistry ConnectionContext;
  calls : list HandlerCall;
  local_url : option Url;
  space_relays : SpaceRelays R
}.
Arguments MkNode {R}. Arguments registry {R}. Arguments calls {R}. Arguments local_url {R}. Arguments space_relays {R}.

Section context.
Context {R : Type} `{RelayUrls R} `{TxHandler}.
Variable parse : string -> res ParsedUrl.
(** What QUIC answers to the opening of a stream and to a write. *)
Variable open_uni : ConnectionContext -> res unit.
Variable write_all : ConnectionContext -> bytes -> res unit.
Variable max_frame_bytes : Z.
Implicit Types (i : nat) (n : Node R).

Definition on_registry {A} (f : ConnectionRegistry ConnectionContext -> A * ConnectionRegistry ConnectionContext) : M (Node R) A :=
  fun n => let '(a, r) := f (registry n) in (Ok a, MkNode r (calls n) (local_url n) (space_relays n)).
Definition on_context i (f : ConnectionContext -> ConnectionContext) : M (Node R) unit :=
  on_registry (fun r => (tt, on_arc i f r)).
Definition get_context i : M (Node R) ConnectionContext := fun n =>
  match arcs (registry n) !! i with Some c => (Ok c, n) | None => (Panic "no such connection", n) end.
(** A call of the handler: it is made, and answered by what was called before. *)
Definition call {A} (c : HandlerCall) (answer : list HandlerCall -> res A) : M (Node R) A := fun n =>
  (answer (calls n), MkNode (registry n) (calls n ++ [c]) (local_url n) (space_relays n)).

(** [mark_superseded] and [mark_closed] *)
Definition ctx_mark_superseded i : M (Node R) unit := on_registry (fun r => (tt, mark_superseded i r)).
Definition ctx_mark_closed i : M (Node R) unit := on_registry (fun r => (tt, mark_closed i r)).

Definition ctx_close_superseded i : M (Node R) unit :=
  ctx_mark_superseded i ;;* on_context i (close_connection CodeSuperseded SUPERSEDED_CLOSE_REASON).
Definition close_failed i (reason : string) : M (Node R) unit :=
  ctx_mark_closed i ;;* on_context i (close_connection CodeUnspecified reason).

Definition disconnect_context i (code : CloseCode) (reason : string) : M (Node R) unit :=
  ctx_mark_closed i ;;*
  on_context i (close_connection code reason) ;;*
  let* c := get_context i in
  match remote_url c with
  | Some peer => call (CallPeerDisconnect peer (Some reason)) (fun _ => Ok tt)
  | None => ret tt
  end.

(** ** Sending *)
Definition ensure_send_stream i : M (Node R) unit :=
  let* c := get_context i in
  if send_stream c then ret tt
  else lift_res (open_uni c) ;;* on_context i (fun c => set_stream true (written c) c).

(** A write to the stream, which is given up when it fails. *)
Definition write_frame i (frame : bytes) : M (Node R) unit :=
  let* c := get_context i in
  match write_all c frame with
  | Ok _ => on_context i (fun c => set_stream true (written c ++ [frame]) c)
  | Err e => on_context i (fun c => set_stream false (written c) c) ;;* fail e
  | Panic e => lift_res (Panic e)
  end.

Definition send_preflight_frame i (url : Url) (preflight_bytes : bytes) : M (Node R) unit :=
  let* frame := lift_res (encode_frame (FPreflight (bytes_of_string url) preflight_bytes) max_frame_bytes) in
  ensure_send_stream i ;;* write_frame i frame.

Definition send_data_frame i (data : bytes) : M (Node R) unit :=
  let* frame := lift_res (encode_frame (FData data) max_frame_bytes) in
  ensure_send_stream i ;;* write_frame i frame ;;*
  on_context i (fun c => set_counts (wrap_u64 (send_message_count c + 1)) (wrap_u64 (send_bytes c + len data))
                           (recv_message_count c) (recv_bytes c) c).

(** ** The preflight

    The code waits at four points: for the frame, for the handler's answers, and
    for the write.  The parts between them are definitions of their own, since
    other tasks may run, and the deadline may pass, at each of them. *)
Inductive Await : Type := AwaitRead | AwaitRecv | AwaitConnect | AwaitWrite.

#[global] Instance Await_eq_dec : EqDecision Await.
Proof. solve_decision. Defined.

Definition timed_out : string := "timed out waiting for preflight".

(** The URL is taken over from the frame, and the connection contends for the
    slot of that URL. *)
Definition receive_preflight i (url : Url) (preflight_bytes : bytes) (deadline : option Await) : M (Node R) bool :=
  on_context i (set_remote_url url) ;;*
  call (CallRecvData url preflight_bytes) (fun cs => on_recv_data cs url preflight_bytes) ;;*
  if bool_decide (deadline = Some AwaitRecv) then fail timed_out
  else
    on_context i (fun c => set_preflight (preflight_sent c) true c) ;;*
    on_registry (register_candidate url i).

(** The answer of a connection that has not sent its preflight. *)
Definition return_preflight i (url : Url) (deadline : option Await) : M (Node R) unit :=
  let* c := get_context i in
  if preflight_sent c then ret tt
  else
    let* n := get in
    match own_url_for_preflight url (space_relays n) (local_url n) with
    | Some own_url =>
        let* preflight := call (CallPeerConnect url) (fun cs => on_peer_connect cs url) in
        if bool_decide (deadline = Some AwaitConnect) then fail timed_out
        else
          send_preflight_frame i own_url preflight ;;*
          if bool_decide (deadline = Some AwaitWrite) then fail timed_out
          else on_context i (fun c => set_preflight true (preflight_received c) c)
    | None => fail "Connection received before home relay URL is known"
    end.

(** The preflight of a connection, [false] if another connection has won. *)
Definition exchange_preflight i (stream : bytes) (deadline : option Await) : M (Node R) (bool * bytes) :=
  if bool_decide (deadline = Some AwaitRead) then fail timed_out
  else
    let (read, rest) := read_preflight_frame_from_stream
                          (fun b => let? u := url_new parse (string_of_bytes b) in Ok (bytes_of_string u)) max_frame_bytes stream in
    let* (url_bytes, preflight_bytes) := lift_res read in
    let url := string_of_bytes url_bytes in
    let* holds := receive_preflight i url preflight_bytes deadline in
    if negb holds then ret (false, rest)
    else
      return_preflight i url deadline ;;*
      let* active := on_registry (registry_activate url i) in
      ret (active, rest).

(** A data frame is given to the handler, whose error is only logged. *)
Definition receive_data i (data : bytes) : M (Node R) unit :=
  let* c := get_context i in
  match remote_url c with
  | None => fail "received data before preflight"
  | Some peer =>
      or_log tt (call (CallRecvData peer data) (fun cs => on_recv_data cs peer data)) ;;*
      on_context i (fun c => set_counts (send_message_count c) (send_bytes c)
                               (wrap_u64 (recv_message_count c + 1)) (wrap_u64 (recv_bytes c + len data)) c)
  end.

(** [stream] is what the peer sends until it ends the stream. *)
Definition handle_incoming_stream i (stream : bytes) (deadline : option Await) : M (Node R) bool :=
  let* c := get_context i in
  let* (go_on, rest) := if preflight_received c then ret (true, stream) else exchange_preflight i stream deadline in
  if negb go_on then ret false
  else for_each (data_frames max_frame_bytes rest) (receive_data i) ;;* ret true.

(** ** The reader *)

(** What the connection gives the reader next. *)
Inductive Incoming : Type :=
  | IncomingStream (stream : bytes) (deadline : option Await)
  | AcceptFailed (err : string).

(** One turn of the loop: [None] to go on. *)
Definition reader_turn i (incoming : Incoming) : M (Node R) (option ReaderExit) := fun n =>
  match incoming with
  | AcceptFailed err => (Ok (Some (MkExit err true)), n)
  | IncomingStream stream deadline =>
      match handle_incoming_stream i stream deadline n with
      | (Ok true, n) => (Ok None, n)
      | (Ok false, n) => (Ok (Some (MkExit "superseded by preferred connection" true)), n)
      | (Err err, n) => (Ok (Some (MkExit err (negb (bool_decide (err = no_local_agents))))), n)
      | (Panic e, n) => (Panic e, n)
      end
  end.

(** The loop over what comes in; [None] when the reader still waits. *)
Fixpoint run_reader_loop i (incoming : list Incoming) : M (Node R) (option ReaderExit) :=
  match incoming with
  | [] => ret None
  | inc :: incoming =>
      let* exit := reader_turn i inc in
      match exit with Some exit => ret (Some exit) | None => run_reader_loop i incoming end
  end.

Definition cleanup_after_exit i (exit : ReaderExit) (now : Timestamp) : M (Node R) unit :=
  let* c := get_context i in
  match remote_url c with
  | None => ctx_mark_closed i ;;* on_context i (close_connection CodeUnspecified (exit_err exit))
  | Some remote_url =>
      let* was_active := on_registry (remove_if_current remote_url i) in
      let* c := get_context i in
      (if superseded_by_remote c then ctx_mark_superseded i else ctx_mark_closed i) ;;*
      let* c := get_context i in
      match classify_exit was_active (is_superseded c) (remote_close_reason c) (exit_mark_unresponsive exit) with
      | Graceful reason => disconnect_context i CodeGraceful reason
      | PeerGone mark_unresponsive =>
          (if mark_unresponsive : bool
           then or_log tt (call (CallSetUnresponsive remote_url now) (fun cs => on_set_unresponsive cs remote_url))
           else ret tt) ;;*
          disconnect_context i CodeUnspecified (exit_err exit)
      | CleanSuperseded => on_context i (close_connection CodeSuperseded SUPERSEDED_CLOSE_REASON)
      | Inactive => on_context i (close_connection CodeUnspecified (exit_err exit))
      end
  end.

(** The task of the reader. *)
Definition connection_reader i (incoming : list Incoming) (now : Timestamp) : M (Node R) unit :=
  let* exit := run_reader_loop i incoming in
  match exit with Some exit => cleanup_after_exit i exit now | None => ret tt end.
End context.
