(* ===== verification/IrohTransport.v ===== *)
(** * The iroh transport

    [transport_iroh/src/lib.rs]: its configuration, the dialing and accepting of
    connections, the sending of data with its retries when two peers dial each
    other, and the answers to the rest of the system.  The endpoint of iroh is a
    parameter: what it answers to a dial is an argument. *)
From S2P Require Import Prelude Timestamp Id Agent IrohUrl IrohFrame ConnContext.
From S2P Require Import ConnContext.

(** ** Configuration *)
Record IrohTransportConfig : Type := MkIrohConfig {
  relay_url : option string;
  relay_allow_plain_text : bool;
  max_frame_bytes : Z;
  connect_timeout_s : Z;
  auth_material_relay_base64 : option string;
  relay_keepalive_interval_s : Z
}.

Definition default_relay_keepalive_interval_s : Z := 120.
Definition default_iroh_config : IrohTransportConfig :=
  MkIrohConfig None false (100 * 1024 * 1024) 60 None default_relay_keepalive_interval_s.

Definition iroh_validate_config (parse : string -> res ParsedUrl) (config : IrohTransportConfig) : res unit :=
  if relay_keepalive_interval_s config =? 0 then Err "Relay keepalive interval must be greater than zero"
  else match relay_url config with
       | Some relay =>
           match parse relay with
           | Ok relay_server_url =>
               if bool_decide (scheme relay_server_url = "http") && negb (relay_allow_plain_text config)
               then Err "Disallowed plaintext relay URL" else Ok tt
           | Err e => Err "Invalid relay URL"
           | Panic e => Panic e
           end
       | None => Ok tt
       end.

Fixpoint ends_with_slash (s : string) : bool :=
  match s with
  | EmptyString => false
  | String c EmptyString => bool_decide (c = slash)
  | String _ s => ends_with_slash s
  end.
Definition with_slash (url : string) : string := if ends_with_slash url then url else (url +:+ "/")%string.

(** 10 s, in the microseconds of the clock. *)
Definition PREFLIGHT_TIMEOUT : Z := 10000000.

(** What the endpoint answers to a dial: the other endpoint's id, if any. *)
Inductive ConnectOutcome : Type := ConnectTimedOut | ConnectFailed | Connected (remote : Z).

Section transport.
Context {R : Type} `{RelayUrls R} `{TxHandler}.
Variable parse : string -> res ParsedUrl.
Variable endpoint_id_from_str : string -> res string.
Variable open_uni : ConnectionContext -> res unit.
Variable write_all : ConnectionContext -> bytes -> res unit.
Variable frame_limit : Z.
(** The node's own endpoint id. *)
Variable id_bytes : Z.
Implicit Types (i : nat) (n : Node R) (remote_url : Url).

Definition set_local_url url n : Node R := MkNode (registry n) (calls n) (Some url) (space_relays n).

(** ** Background tasks *)

(** A turn of the task that watches the address of the endpoint. *)
Definition watch_addr_turn (relay_urls : list R) (id : string) : M (Node R) unit :=
  match get_url_with_first_relay parse relay_urls id with
  | Some url => modify (set_local_url url) ;;* call (CallNewListeningAddress url None) (fun _ => Ok tt)
  | None => ret tt
  end.

(** A turn of the accepting task: the context of the new connection. *)
Definition accept_turn (remote : Z) (now_s : Z) : M (Node R) nat :=
  on_registry (new_arc (context_new id_bytes remote false None false now_s)).

(** ** Dialing *)
Definition set_unresponsive (url : Url) (now : Timestamp) : M (Node R) unit :=
  or_log tt (call (CallSetUnresponsive url now) (fun cs => on_set_unresponsive cs url)).

Definition RELAY_NOT_CONNECTED_ERR : string := "relay not connected, skipping to avoid false unresponsive mark".

Definition dial_connect (home_relay_down : bool) (outcome : ConnectOutcome) remote_url (now : Timestamp) : M (Node R) Z :=
  if home_relay_down then fail RELAY_NOT_CONNECTED_ERR
  else match outcome with
       | ConnectTimedOut => set_unresponsive remote_url now ;;* fail "iroh connect timed out"
       | ConnectFailed => set_unresponsive remote_url now ;;* fail "iroh connect error"
       | Connected remote => ret remote
       end.

(** The context of a connection that was dialed, and what is left to send on
    it: nothing, when another connection has won already. *)
Definition dial_register (remote : Z) remote_url (now_s : Z) : M (Node R) (nat * option (Url * bytes)) :=
  let* n := get in
  match own_url_for_preflight remote_url (space_relays n) (local_url n) with
  | Some current_local_url =>
      let* preflight_bytes := call (CallPeerConnect remote_url) (fun cs => on_peer_connect cs remote_url) in
      let* i := on_registry (new_arc (context_new id_bytes remote true (Some remote_url) true now_s)) in
      let* holds := on_registry (register_candidate remote_url i) in
      if negb holds then ctx_close_superseded i ;;* ret (i, None)
      else ret (i, Some (current_local_url, preflight_bytes))
  | None => fail "Connection attempted before home relay URL is known"
  end.

Definition dial_preflight i remote_url (own_url : Url) (preflight_bytes : bytes) (now : Timestamp) : M (Node R) unit := fun n =>
  match send_preflight_frame open_uni write_all frame_limit i own_url preflight_bytes n with
  | (Err e, n) =>
      (let* c := get_context i in
       if is_superseded c then ret tt
       else
         set_unresponsive remote_url now ;;*
         close_failed i e ;;*
         on_registry (remove_if_current remote_url i) ;;*
         fail e) n
  | r => r
  end.

Definition create_connection_and_context (home_relay_down : bool) (outcome : ConnectOutcome) remote_url (now : Timestamp)
  : M (Node R) nat :=
  let* remote := dial_connect home_relay_down outcome remote_url now in
  let* (i, preflight) := dial_register remote remote_url (now / 1000000) in
  match preflight with
  | Some (own_url, preflight_bytes) => dial_preflight i remote_url own_url preflight_bytes now ;;* ret i
  | None => ret i
  end.

(** ** Sending

    A send waits for the connection's resolution, and, when another connection
    has won, for that one.  Between its turns anything may happen to the node. *)
Inductive SendState : Type :=
  | SendResolve i
  | SendAwaitReplacement i
  | SendDone (result : res unit).

Definition send_error {A} (to : M (Node R) A) (k : A -> SendState) : M (Node R) SendState := fun n =>
  match to n with
  | (Ok a, n) => (Ok (k a), n)
  | (Err e, n) => (Ok (SendDone (Err e)), n)
  | (Panic e, n) => (Panic e, n)
  end.

(** The start of a send, with the lock of the peer held. *)
Definition send_start (home_relay_down : bool) (outcome : ConnectOutcome) remote_url (now : Timestamp) : M (Node R) SendState :=
  match endpoint_from_url endpoint_id_from_str remote_url with
  | Ok (_, relay) =>
      let* n := get in
      match registry_get remote_url (registry n) with
      | Some i => ret (SendResolve i)
      | None => send_error (create_connection_and_context home_relay_down outcome remote_url now) SendResolve
      end
  | Err e => set_unresponsive remote_url now ;;* ret (SendDone (Err "iroh send error converting Url to EndpointAddr"))
  | Panic e => lift_res (Panic e)
  end.

Definition send_timed_out : string := "timed out waiting for the connection selected".

(** [wait_for_send_replacement]: its first check, and the end of its wait. *)
Definition start_wait remote_url i (deadline now : Timestamp) : M (Node R) SendState :=
  if deadline <=? now then
    on_registry (remove_if_current remote_url i) ;;* ret (SendDone (Err send_timed_out))
  else ret (SendAwaitReplacement i).

Definition wait_turn remote_url i (deadline now : Timestamp) : M (Node R) SendState :=
  let* n := get in
  match replacement_for remote_url i (registry n) with
  | Some replacement => ret (SendResolve replacement)
  | None =>
      if deadline <=? now then
        on_registry (remove_if_current remote_url i) ;;* ret (SendDone (Err send_timed_out))
      else ret (SendAwaitReplacement i)
  end.

(** The write on the connection that was picked. *)
Definition send_on remote_url i (data : bytes) (deadline now : Timestamp) : M (Node R) SendState := fun n =>
  match send_data_frame open_uni write_all frame_limit i data n with
  | (Ok _, n) => (Ok (SendDone (Ok tt)), n)
  | (Err e, n) =>
      (let* c := get_context i in
       if is_superseded c then start_wait remote_url i deadline now else ret (SendDone (Err e))) n
  | (Panic e, n) => (Panic e, n)
  end.

(** A turn of the loop; the state stays when it has to wait. *)
Definition send_turn remote_url (data : bytes) (deadline now : Timestamp) (s : SendState) : M (Node R) SendState :=
  match s with
  | SendResolve i =>
      let* n := get in
      match state_of (registry n) i ≫= wait_for_resolution with
      | None => ret s
      | Some Active =>
          if bool_decide (registry_get remote_url (registry n) = Some i)
          then send_on remote_url i data deadline now
          else start_wait remote_url i deadline now
      | Some Superseded => start_wait remote_url i deadline now
      | Some _ => ret (SendDone (Ok tt))
      end
  | SendAwaitReplacement i => wait_turn remote_url i deadline now
  | SendDone r => ret s
  end.

(** ** The other operations *)
Definition iroh_disconnect (peer : Url) (payload : option (string * bytes)) : M (Node R) unit :=
  let* ctx := on_registry (registry_take peer) in
  match ctx with
  | Some i =>
      disconnect_context i CodeGraceful
        (match payload with Some (reason, _) => reason | None => "Disconnecting from remote" end)
  | None => ret tt
  end.

Definition get_connected_peers n : list Url := active_peers (registry n).

(** Whether iroh has found a direct path is left out. *)
Record TransportConnectionStats : Type := MkConnStats {
  st_pub_key : string;
  st_send_message_count : Z;
  st_send_bytes : Z;
  st_recv_message_count : Z;
  st_recv_bytes : Z;
  st_opened_at_s : Z
}.

(** The unwraps of the peer's URL and id panic. *)
Definition connection_stats (c : ConnectionContext) : res TransportConnectionStats :=
  match remote_url c ≫= peer_id with
  | Some pub_key => Ok (MkConnStats pub_key (send_message_count c) (send_bytes c) (recv_message_count c) (recv_bytes c) (opened_at_s c))
  | None => Panic "called `Option::unwrap()` on a `None` value"
  end.

Fixpoint stats_of n (l : list (Url * nat)) : res (list TransportConnectionStats) :=
  match l with
  | [] => Ok []
  | (_, i) :: l =>
      match arcs (registry n) !! i with
      | Some c => let? s := connection_stats c in let? ss := stats_of n l in Ok (s :: ss)
      | None => Panic "no such connection"
      end
  end.

Definition dump_network_stats n : res (list Url * list TransportConnectionStats) :=
  let? connections := stats_of n (active_entries (registry n)) in
  Ok (match local_url n with Some u => [u] | None => [] end, connections).
End transport.
