(* ===== verification/SimOpen.v ===== *)
(** * Two peers that dial each other

    Two nodes that run the code of [IrohTransport] and [ConnContext], each with
    one dial of the other under way, so that there are two connections.  A step
    is what one task does between two of its waits: the dialing task, the
    accepting task, the readers of the two connections, and the arrival of a
    close.  The steps of the two nodes interleave in every way. *)
From S2P Require Import Prelude Timestamp Id Agent IrohFrame IrohUrl ConnContext.
From S2P Require Import ConnContext IrohTransport.

(** Where the dialing task and the reader of a connection stand. *)
Inductive DialPc : Type := DialPending | DialToSend (own : Url) (preflight : bytes) | DialDone.
Inductive ReadPc : Type :=
  | ReadWaiting
  | ReadReceived (url : Url)
  | ReadReturned (url : Url)
  | ReadServing
  | ReadExiting (exit : ReaderExit)
  | ReadGone.

(** One end of a connection: its context, once there is one. *)
Record End : Type := MkEnd { e_ctx : option nat; e_dial : DialPc; e_read : ReadPc }.

Inductive Kind : Type := Dialed | Accepted.
Definition other_kind (k : Kind) : Kind := match k with Dialed => Accepted | Accepted => Dialed end.

(** A node, and its ends of the connection it dials and of the one it accepts. *)
Record Side (R : Type) : Type := MkSide { sd_node : Node R; sd_dialed : End; sd_accepted : End }.
Arguments MkSide {R}. Arguments sd_node {R}. Arguments sd_dialed {R}. Arguments sd_accepted {R}.

Definition end_of {R} (k : Kind) (sd : Side R) : End := match k with Dialed => sd_dialed sd | Accepted => sd_accepted sd end.
Definition with_end {R} (k : Kind) (n : Node R) (e : End) (sd : Side R) : Side R :=
  match k with Dialed => MkSide n e (sd_accepted sd) | Accepted => MkSide n (sd_dialed sd) e end.
Definition context_of {R} (k : Kind) (sd : Side R) : option ConnectionContext :=
  e_ctx (end_of k sd) ≫= fun i => arcs (registry (sd_node sd)) !! i.

(** Who a side is, and whom it dials. *)
Record Identity : Type := MkIdentity { my_id : Z; their_id : Z; my_url : Url; their_url : Url; my_handler : TxHandler }.

Inductive Event : Type :=
  | EvDial
  | EvSend
  | EvAccept
  | EvReceive (k : Kind)
  | EvReturn (k : Kind)
  | EvActivate (k : Kind)
  | EvCloseArrives (k : Kind)
  | EvReaderStops (k : Kind)
  | EvCleanup (k : Kind).

Section system.
Context {R : Type} `{RelayUrls R}.
Variable parse : string -> res ParsedUrl.
Variable open_uni : ConnectionContext -> res unit.
Variable write_all : ConnectionContext -> bytes -> res unit.
Variable frame_limit : Z.

Definition read_url (b : bytes) : res bytes := let? u := url_new parse (string_of_bytes b) in Ok (bytes_of_string u).

(** What the reader does next after an error, and after it has lost. *)
Definition exit_with (err : string) : ReadPc := ReadExiting (MkExit err (negb (bool_decide (err = no_local_agents)))).
Definition exit_lost : ReadPc := ReadExiting (MkExit "superseded by preferred connection" true).

Definition dial_step (w : Identity) (now : Timestamp) (sd : Side R) : option (Side R) :=
  match e_ctx (sd_dialed sd), e_dial (sd_dialed sd) with
  | None, DialPending =>
      match dial_register (my_id w) (H0 := my_handler w) (their_id w) (their_url w) (now / 1000000) (sd_node sd) with
      | (Ok (i, Some (own, preflight)), n) => Some (with_end Dialed n (MkEnd (Some i) (DialToSend own preflight) ReadWaiting) sd)
      | (Ok (i, None), n) => Some (with_end Dialed n (MkEnd (Some i) DialDone ReadWaiting) sd)
      | (_, n) => Some (with_end Dialed n (MkEnd None DialDone ReadWaiting) sd)
      end
  | _, _ => None
  end.

Definition send_step (w : Identity) (now : Timestamp) (sd : Side R) : option (Side R) :=
  let e := sd_dialed sd in
  match e_ctx e, e_dial e with
  | Some i, DialToSend own preflight =>
      let n := (dial_preflight (H0 := my_handler w) open_uni write_all frame_limit i (their_url w) own preflight now (sd_node sd)).2 in
      Some (with_end Dialed n (MkEnd (Some i) DialDone (e_read e)) sd)
  | _, _ => None
  end.

Definition accept_step (w : Identity) (now : Timestamp) (sd : Side R) : option (Side R) :=
  match e_ctx (sd_accepted sd) with
  | None =>
      match accept_turn (my_id w) (their_id w) (now / 1000000) (sd_node sd) with
      | (Ok i, n) => Some (with_end Accepted n (MkEnd (Some i) DialDone ReadWaiting) sd)
      | _ => None
      end
  | Some _ => None
  end.

(** The preflight that the peer has written on the connection is read; a
    stream that was opened before a close may still be read after it. *)
Definition receive_step (w : Identity) (k : Kind) (peer sd : Side R) : option (Side R) :=
  let e := end_of k sd in
  match e_ctx e, e_read e, context_of (other_kind k) peer with
  | Some i, ReadWaiting, Some theirs =>
      match written theirs with
      | [] => None
      | frames =>
          let to pc n := Some (with_end k n (MkEnd (Some i) (e_dial e) pc) sd) in
          match read_preflight_frame_from_stream read_url frame_limit (concat frames) with
          | (Ok (url_bytes, preflight), _) =>
              let url := string_of_bytes url_bytes in
              match receive_preflight (H0 := my_handler w) i url preflight None (sd_node sd) with
              | (Ok true, n) => to (ReadReceived url) n
              | (Ok false, n) => to exit_lost n
              | (Err err, n) => to (exit_with err) n
              | (Panic _, n) => None
              end
          | (Err err, _) => to (exit_with err) (sd_node sd)
          | (Panic _, _) => None
          end
      end
  | _, _, _ => None
  end.

Definition return_step (w : Identity) (k : Kind) (sd : Side R) : option (Side R) :=
  let e := end_of k sd in
  match e_ctx e, e_read e with
  | Some i, ReadReceived url =>
      let to pc n := Some (with_end k n (MkEnd (Some i) (e_dial e) pc) sd) in
      match return_preflight (H0 := my_handler w) open_uni write_all frame_limit i url None (sd_node sd) with
      | (Ok _, n) => to (ReadReturned url) n
      | (Err err, n) => to (exit_with err) n
      | (Panic _, n) => None
      end
  | _, _ => None
  end.

Definition activate_step (k : Kind) (sd : Side R) : option (Side R) :=
  let e := end_of k sd in
  match e_ctx e, e_read e with
  | Some i, ReadReturned url =>
      match on_registry (R := R) (registry_activate url i) (sd_node sd) with
      | (Ok true, n) => Some (with_end k n (MkEnd (Some i) (e_dial e) ReadServing) sd)
      | (_, n) => Some (with_end k n (MkEnd (Some i) (e_dial e) exit_lost) sd)
      end
  | _, _ => None
  end.

(** QUIC tells this side that the peer has closed the connection. *)
Definition close_arrives (k : Kind) (peer sd : Side R) : option (Side R) :=
  match e_ctx (end_of k sd), context_of k sd, context_of (other_kind k) peer with
  | Some i, Some mine, Some theirs =>
      match close_reason mine, close_reason theirs with
      | None, Some (LocallyClosed code reason) =>
          let n := (on_context (R := R) i (set_close_reason (ApplicationClosed code reason)) (sd_node sd)).2 in
          Some (with_end k n (end_of k sd) sd)
      | _, _ => None
      end
  | _, _, _ => None
  end.

(** The reader of a closed connection is told so. *)
Definition reader_stops (k : Kind) (sd : Side R) : option (Side R) :=
  let e := end_of k sd in
  match context_of k sd ≫= close_reason with
  | Some _ =>
      match e_read e with
      | ReadWaiting | ReadServing => Some (with_end k (sd_node sd) (MkEnd (e_ctx e) (e_dial e) (exit_with "connection closed")) sd)
      | _ => None
      end
  | None => None
  end.

Definition cleanup_step (w : Identity) (now : Timestamp) (k : Kind) (sd : Side R) : option (Side R) :=
  let e := end_of k sd in
  match e_ctx e, e_read e with
  | Some i, ReadExiting exit =>
      let n := (cleanup_after_exit (H0 := my_handler w) i exit now (sd_node sd)).2 in
      Some (with_end k n (MkEnd (Some i) (e_dial e) ReadGone) sd)
  | _, _ => None
  end.

Definition side_step (w : Identity) (now : Timestamp) (ev : Event) (peer sd : Side R) : option (Side R) :=
  match ev with
  | EvDial => dial_step w now sd
  | EvSend => send_step w now sd
  | EvAccept => accept_step w now sd
  | EvReceive k => receive_step w k peer sd
  | EvReturn k => return_step w k sd
  | EvActivate k => activate_step k sd
  | EvCloseArrives k => close_arrives k peer sd
  | EvReaderStops k => reader_stops k sd
  | EvCleanup k => cleanup_step w now k sd
  end.
End system.

(** * Two peers that dial each other: what each task does

    What the parts of [ConnContext] and [IrohTransport] that [SimOpen] is made
    of do to the connections and the slot of a node whose handler and streams
    answer. *)

Lemma string_of_bytes_of_string s : string_of_bytes (bytes_of_string s) = s.
Proof.
  unfold string_of_bytes, bytes_of_string. rewrite <- list_fmap_compose. transitivity (string_of_list_ascii (list_ascii_of_string s)).
  - f_equal. rewrite <- (list_fmap_id (list_ascii_of_string s)) at 2. apply list_fmap_ext. intros i a _. cbn.
    rewrite Nat2Z.id. apply Ascii.ascii_nat_embedding.
  - apply string_of_list_ascii_of_string.
Qed.

(** A connection that is displaced. *)
Definition supersede (c : ConnectionContext) : ConnectionContext :=
  close_connection CodeSuperseded SUPERSEDED_CLOSE_REASON (set_state (transition_to_terminal Superseded (cc_lifecycle c)) c).

Section side.
Context {R : Type} `{RelayUrls R}.
Variable lu : option Url.
Variable sr : SpaceRelays R.
Implicit Types (A : list ConnectionContext) (En : gmap Url nat) (cs : list HandlerCall) (c : ConnectionContext).

Definition mk A En ch cs : Node R := MkNode (MkRegistry A En ch) cs lu sr.

Lemma get_ctx A En ch cs i c : A !! i = Some c -> get_context i (mk A En ch cs) = (Ok c, mk A En ch cs).
Proof. intros E. unfold get_context. cbn. by rewrite E. Qed.

Lemma alter_insert A i c f : A !! i = Some c -> alter f i A = <[i := f c]> A.
Proof.
  intros E. apply list_eq. intros j. destruct (decide (i = j)) as [->|Hij].
  - rewrite list_lookup_alter_eq, E, list_lookup_insert_eq by by eapply lookup_lt_Some. done.
  - by rewrite list_lookup_alter_ne, list_lookup_insert_ne.
Qed.

Lemma on_ctx A En ch cs i c f : A !! i = Some c -> on_context i f (mk A En ch cs) = (Ok tt, mk (<[i := f c]> A) En ch cs).
Proof. intros E. unfold on_context, on_registry, on_arc, mk. cbn. by rewrite (alter_insert A i c f E). Qed.

Lemma look A i c c' : A !! i = Some c -> <[i := c']> A !! i = Some c'.
Proof. intros E. apply list_lookup_insert_eq. by eapply lookup_lt_Some. Qed.

Lemma ins2 A i c1 c2 : <[i := c2]> (<[i := c1]> A) = <[i := c2]> A.
Proof. apply list_insert_insert_eq. Qed.

Lemma call_ok {X} A En ch cs (c : HandlerCall) (answer : list HandlerCall -> res X) a : answer cs = Ok a ->
  call c answer (mk A En ch cs) = (Ok a, mk A En ch (cs ++ [c])).
Proof. intros E. unfold call, mk. cbn. by rewrite E. Qed.

Lemma mark_superseded_ctx A En ch cs i c : A !! i = Some c ->
  ctx_mark_superseded i (mk A En ch cs) = (Ok tt, mk (<[i := set_state (transition_to_terminal Superseded (cc_lifecycle c)) c]> A) En ch cs).
Proof. intros E. unfold ctx_mark_superseded, on_registry, mark_superseded, on_arc, mk. cbn. by rewrite (alter_insert A i c _ E). Qed.

Lemma mark_closed_ctx A En ch cs i c : A !! i = Some c ->
  ctx_mark_closed i (mk A En ch cs) = (Ok tt, mk (<[i := set_state (transition_to_terminal Closed (cc_lifecycle c)) c]> A) En ch cs).
Proof. intros E. unfold ctx_mark_closed, on_registry, mark_closed, on_arc, mk. cbn. by rewrite (alter_insert A i c _ E). Qed.

(** ** The slot *)

Lemma alter_twice A e d f g : A !! e = Some d -> alter g e (alter f e A) = <[e := g (f d)]> A.
Proof. intros Ed. rewrite (alter_insert A e d _ Ed), (alter_insert _ e _ _ (look _ _ _ _ Ed)), ins2. done. Qed.

(** A live candidate takes a slot that is free, or its own. *)
Lemma register_free A En ch cs peer i c : A !! i = Some c -> state_live (cc_lifecycle c) = true ->
  En !! peer = None \/ En !! peer = Some i ->
  exists ch', on_registry (R := R) (register_candidate peer i) (mk A En ch cs) = (Ok true, mk A (<[peer := i]> En) ch' cs).
Proof.
  intros Hi Hlive Hs. unfold on_registry, register_candidate, claim_slot, is_live, state_of, mk. cbn -[wrap_u64].
  rewrite Hi. cbn -[wrap_u64]. rewrite Hlive. cbn -[wrap_u64]. destruct Hs as [Hs|Hs]; rewrite Hs; cbn -[wrap_u64].
  - eexists. reflexivity.
  - rewrite bool_decide_eq_true_2 by done. exists ch. by rewrite insert_id.
Qed.

(** It loses to another that is live and preferred when it is not, and
    otherwise displaces it. *)
Lemma register_contest A En ch cs peer i c e d : A !! i = Some c -> state_live (cc_lifecycle c) = true ->
  En !! peer = Some e -> e <> i -> A !! e = Some d ->
  exists ch', on_registry (R := R) (register_candidate peer i) (mk A En ch cs) =
    if state_live (cc_lifecycle d) && is_preferred_connection d && negb (is_preferred_connection c)
    then (Ok false, mk (<[i := set_state Superseded c]> A) En ch' cs)
    else (Ok true, mk (<[e := supersede d]> A) (<[peer := i]> En) ch' cs).
Proof.
  intros Hi Hlive Ee Hne Ed. unfold on_registry, register_candidate, claim_slot, is_live, state_of, preferred_of, mk. cbn -[wrap_u64].
  rewrite Hi. cbn -[wrap_u64]. rewrite Hlive, Ee. cbn -[wrap_u64]. rewrite bool_decide_eq_false_2, Ed by done. cbn -[wrap_u64].
  destruct (state_live (cc_lifecycle d)); cbn -[wrap_u64].
  - destruct (is_preferred_connection d && negb (is_preferred_connection c)); cbn -[wrap_u64].
    + exists ch. unfold mark_superseded, on_arc. cbn. rewrite (alter_insert A i c _ Hi). by destruct (cc_lifecycle c).
    + eexists. unfold on_arc. cbn -[wrap_u64]. by rewrite (alter_twice A e d _ _ Ed).
  - eexists. unfold on_arc. cbn -[wrap_u64]. by rewrite (alter_twice A e d _ _ Ed).
Qed.

(** A candidate that is not live changes nothing. *)
Lemma register_dead A En ch cs peer i c : A !! i = Some c -> state_live (cc_lifecycle c) = false ->
  on_registry (R := R) (register_candidate peer i) (mk A En ch cs) = (Ok false, mk A En ch cs).
Proof.
  intros Hi Hlive. unfold on_registry, register_candidate, claim_slot, is_live, state_of, mk. cbn. rewrite Hi. cbn. by rewrite Hlive.
Qed.

Lemma activate_holder A En ch cs peer i c : A !! i = Some c -> En !! peer = Some i -> state_live (cc_lifecycle c) = true ->
  on_registry (R := R) (registry_activate peer i) (mk A En ch cs) = (Ok true, mk (<[i := set_state Active c]> A) En ch cs).
Proof.
  intros Hi He Hlive. unfold on_registry, registry_activate, state_of, mk. cbn. rewrite He, bool_decide_eq_true_2, Hi by done. cbn.
  unfold on_arc. cbn. destruct (cc_lifecycle c) eqn:Hc; try done; cbn; by rewrite (alter_insert A i c _ Hi).
Qed.

Lemma activate_other A En ch cs peer i : En !! peer <> Some i ->
  on_registry (R := R) (registry_activate peer i) (mk A En ch cs) = (Ok false, mk A En ch cs).
Proof. intros He. unfold on_registry, registry_activate, mk. cbn. by rewrite bool_decide_eq_false_2. Qed.

Lemma remove_holder A En ch cs peer i :
  on_registry (R := R) (remove_if_current peer i) (mk A En ch cs) =
    (Ok (bool_decide (En !! peer = Some i)), mk A (if bool_decide (En !! peer = Some i) then delete peer En else En) ch cs).
Proof. unfold on_registry, remove_if_current, mk. cbn. by case_bool_decide. Qed.

(** ** The parts of the tasks *)
Variable w : Identity.
Variable parse : string -> res ParsedUrl.
Variable open_uni : ConnectionContext -> res unit.
Variable write_all : ConnectionContext -> bytes -> res unit.
Variable frame_limit : Z.
#[local] Hint Extern 0 TxHandler => exact (my_handler w) : typeclass_instances.

(** The preflight of this side in a frame. *)
Definition own_frame (preflight f : bytes) : Prop :=
  encode_frame (FPreflight (bytes_of_string (my_url w)) preflight) frame_limit = Ok f.

(** The handler takes preflights and has one that fits into a frame. *)
Record handler_answers : Prop := {
  recv_answer : forall cs u b, on_recv_data cs u b = Ok tt;
  connect_answer : forall cs u, exists preflight f, on_peer_connect cs u = Ok preflight /\ own_frame preflight f
}.

(** A connection that is not closed takes what is written, and one that is
    closed says so. *)
Record quic_answers : Prop := {
  open_answer : forall c, close_reason c = None -> open_uni c = Ok tt;
  write_answer : forall c f, close_reason c = None -> write_all c f = Ok tt;
  open_closed : forall c, close_reason c <> None -> exists e, open_uni c = Err e;
  write_closed : forall c f, close_reason c <> None -> exists e, write_all c f = Err e
}.

Context (Hhandler : handler_answers) (Hquic : quic_answers).
Hypothesis own_url_known : own_url_for_preflight (their_url w) sr lu = Some (my_url w).
#[local] Set Default Proof Using "Type*".

Lemma send_preflight_open A En ch cs i c preflight f : A !! i = Some c -> close_reason c = None -> own_frame preflight f ->
  send_preflight_frame open_uni write_all frame_limit i (my_url w) preflight (mk A En ch cs) =
    (Ok tt, mk (<[i := set_stream true (written c ++ [f]) c]> A) En ch cs).
Proof.
  intros Hi Hc Hf. unfold send_preflight_frame. erewrite bind_after by (unfold lift_res; rewrite Hf; reflexivity).
  assert (forall A c0, A !! i = Some c0 -> close_reason c0 = None -> write_frame write_all i f (mk A En ch cs) =
    (Ok tt, mk (<[i := set_stream true (written c0 ++ [f]) c0]> A) En ch cs)) as Hw.
  { intros A0 c0 H0 Hn. unfold write_frame. erewrite bind_after by by apply get_ctx. rewrite (write_answer Hquic c0 f Hn). by erewrite on_ctx. }
  destruct (send_stream c) eqn:Hs.
  - erewrite bind_after; [by apply Hw|]. unfold ensure_send_stream. erewrite bind_after by by apply get_ctx. by rewrite Hs.
  - erewrite bind_after; [|unfold ensure_send_stream; erewrite bind_after by (by apply get_ctx); rewrite Hs;
      erewrite bind_after by (unfold lift_res; rewrite (open_answer Hquic c Hc); reflexivity); by erewrite on_ctx].
    rewrite (Hw _ (set_stream true (written c) c)); [by rewrite ins2|by eapply look|done].
Qed.

Lemma send_preflight_closed A En ch cs i c preflight f : A !! i = Some c -> close_reason c <> None -> own_frame preflight f ->
  exists e b, send_preflight_frame open_uni write_all frame_limit i (my_url w) preflight (mk A En ch cs) =
    (Err e, mk (<[i := set_stream b (written c) c]> A) En ch cs).
Proof.
  intros Hi Hc Hf. unfold send_preflight_frame. erewrite bind_after by (unfold lift_res; rewrite Hf; reflexivity).
  destruct (send_stream c) eqn:Hs.
  - destruct (write_closed Hquic c f Hc) as [e He]. exists e, false.
    erewrite bind_after by (unfold ensure_send_stream; erewrite bind_after by (by apply get_ctx); by rewrite Hs).
    unfold write_frame. erewrite bind_after by by apply get_ctx. rewrite He. by erewrite bind_after by by erewrite on_ctx.
  - destruct (open_closed Hquic c Hc) as [e He]. exists e, (send_stream c). erewrite bind_err; [reflexivity|].
    unfold ensure_send_stream. erewrite bind_after by by apply get_ctx. rewrite Hs.
    erewrite bind_err by (unfold lift_res; rewrite He; reflexivity). do 2 f_equal. rewrite <- Hs.
    rewrite list_insert_id; [done|]. rewrite Hi. by destruct c.
Qed.

Lemma receive_eq A En ch cs i c url preflight : A !! i = Some c ->
  receive_preflight i url preflight None (mk A En ch cs) =
  on_registry (register_candidate url i)
    (mk (<[i := set_preflight (preflight_sent c) true (set_remote_url url c)]> A) En ch (cs ++ [CallRecvData url preflight])).
Proof.
  intros Hi. unfold receive_preflight. erewrite bind_after by by erewrite on_ctx.
  erewrite bind_after by (apply call_ok, (recv_answer Hhandler)).
  rewrite bool_decide_eq_false_2 by done. erewrite bind_after by (erewrite on_ctx by (by eapply look); reflexivity). by rewrite ins2.
Qed.

Lemma return_sent A En ch cs i c url : A !! i = Some c -> preflight_sent c = true ->
  return_preflight open_uni write_all frame_limit i url None (mk A En ch cs) = (Ok tt, mk A En ch cs).
Proof. intros Hi Hs. unfold return_preflight. erewrite bind_after by by apply get_ctx. by rewrite Hs. Qed.

Lemma return_open A En ch cs i c : A !! i = Some c -> preflight_sent c = false -> close_reason c = None ->
  exists preflight f, own_frame preflight f /\
  return_preflight open_uni write_all frame_limit i (their_url w) None (mk A En ch cs) =
    (Ok tt, mk (<[i := set_preflight true (preflight_received c) (set_stream true (written c ++ [f]) c)]> A) En ch
              (cs ++ [CallPeerConnect (their_url w)])).
Proof.
  intros Hi Hs Hc. unfold return_preflight. erewrite bind_after by by apply get_ctx. rewrite Hs.
  erewrite bind_after by reflexivity. cbn [space_relays local_url mk]. rewrite own_url_known.
  destruct (connect_answer Hhandler cs (their_url w)) as (pf & f & Hpf & Hf). exists pf, f. split; [done|].
  erewrite bind_after by (apply call_ok, Hpf).
  rewrite bool_decide_eq_false_2 by done.
  erewrite bind_after by by apply send_preflight_open. rewrite bool_decide_eq_false_2 by done.
  erewrite on_ctx by by eapply look. by rewrite ins2.
Qed.

Lemma return_closed A En ch cs i c : A !! i = Some c -> preflight_sent c = false -> close_reason c <> None ->
  exists e b, return_preflight open_uni write_all frame_limit i (their_url w) None (mk A En ch cs) =
    (Err e, mk (<[i := set_stream b (written c) c]> A) En ch (cs ++ [CallPeerConnect (their_url w)])).
Proof.
  intros Hi Hs Hc. unfold return_preflight. erewrite bind_after by by apply get_ctx. rewrite Hs.
  erewrite bind_after by reflexivity. cbn [space_relays local_url mk]. rewrite own_url_known.
  destruct (connect_answer Hhandler cs (their_url w)) as (pf & f & Hpf & Hf).
  destruct (send_preflight_closed A En ch (cs ++ [CallPeerConnect (their_url w)]) i c pf f Hi Hc Hf) as (e & b & E).
  exists e, b. erewrite bind_after by (apply call_ok, Hpf).
  rewrite bool_decide_eq_false_2 by done.
  by erewrite bind_err by exact E.
Qed.

(** The end of a dial: nothing is said of a failure that another connection
    has caused. *)
Lemma dial_preflight_open A En ch cs i c preflight f now : A !! i = Some c -> close_reason c = None -> own_frame preflight f ->
  (dial_preflight open_uni write_all frame_limit i (their_url w) (my_url w) preflight now (mk A En ch cs)).2 =
    mk (<[i := set_stream true (written c ++ [f]) c]> A) En ch cs.
Proof. intros Hi Hc Hf. unfold dial_preflight. by rewrite (send_preflight_open A En ch cs i c preflight f). Qed.

Lemma dial_preflight_closed A En ch cs i c preflight f now : A !! i = Some c -> close_reason c <> None ->
  is_superseded c = true -> own_frame preflight f ->
  exists b, (dial_preflight open_uni write_all frame_limit i (their_url w) (my_url w) preflight now (mk A En ch cs)).2 =
    mk (<[i := set_stream b (written c) c]> A) En ch cs.
Proof.
  intros Hi Hc Hsup Hf. destruct (send_preflight_closed A En ch cs i c preflight f Hi Hc Hf) as (e & b & E). exists b.
  unfold dial_preflight. rewrite E. erewrite bind_after by (apply get_ctx; by eapply look).
  assert (is_superseded (set_stream b (written c) c) = true) as -> by done. done.
Qed.

(** The cleanup of a connection that was superseded. *)
Lemma cleanup_unknown A En ch cs i c exit now : A !! i = Some c -> remote_url c = None ->
  exists c', (cleanup_after_exit i exit now (mk A En ch cs)).2 = mk (<[i := c']> A) En ch cs /\
    c' = close_connection CodeUnspecified (exit_err exit) (set_state (transition_to_terminal Closed (cc_lifecycle c)) c).
Proof.
  intros Hi Hu. eexists. split; [|reflexivity]. unfold cleanup_after_exit. erewrite bind_after by by apply get_ctx. rewrite Hu.
  erewrite bind_after by by apply mark_closed_ctx. erewrite on_ctx by by eapply look. by rewrite ins2.
Qed.

Lemma cleanup_superseded A En ch cs i c exit now url : A !! i = Some c -> remote_url c = Some url -> is_superseded c = true ->
  exists c', (cleanup_after_exit i exit now (mk A En ch cs)).2 =
      mk (<[i := c']> A) (if bool_decide (En !! url = Some i) then delete url En else En) ch cs /\
    c' = close_connection CodeSuperseded SUPERSEDED_CLOSE_REASON
           (set_state (transition_to_terminal (if superseded_by_remote c then Superseded else Closed) (cc_lifecycle c)) c).
Proof.
  intros Hi Hu Hsup. eexists. split; [|reflexivity]. unfold cleanup_after_exit. erewrite bind_after by by apply get_ctx. rewrite Hu.
  erewrite bind_after by apply remove_holder. erewrite bind_after by by apply get_ctx.
  set (En' := if bool_decide _ then _ else _). set (t := if superseded_by_remote c then Superseded else Closed).
  erewrite bind_after with (s' := mk (<[i := set_state (transition_to_terminal t (cc_lifecycle c)) c]> A) En' ch cs)
    by (unfold t; destruct (superseded_by_remote c); [by apply mark_superseded_ctx|by apply mark_closed_ctx]).
  erewrite bind_after by (apply get_ctx; by eapply look).
  assert (is_superseded (set_state (transition_to_terminal t (cc_lifecycle c)) c) = true) as ->.
  { unfold is_superseded in *. unfold t, superseded_by_remote in *. cbn. unfold remote_close_reason in *. cbn.
    destruct (cc_lifecycle c), (close_reason c) as [[]|]; try done; by destruct code. }
  unfold classify_exit. cbn [orb]. erewrite on_ctx by by eapply look. by rewrite ins2.
Qed.

(** The start of a dial: the new context contends for the slot. *)
Definition dialed_context (now_s : Z) : ConnectionContext :=
  context_new (my_id w) (their_id w) true (Some (their_url w)) true now_s.

Lemma dial_eq A En ch cs now_s : exists preflight f, own_frame preflight f /\
  dial_register (my_id w) (their_id w) (their_url w) now_s (mk A En ch cs) =
  match on_registry (register_candidate (their_url w) (length A))
          (mk (A ++ [dialed_context now_s]) En ch (cs ++ [CallPeerConnect (their_url w)])) with
  | (Ok true, n) => (Ok (length A, Some (my_url w, preflight)), n)
  | (Ok false, n) => (ctx_close_superseded (length A) ;;* ret (length A, None)) n
  | (Err e, n) => (Err e, n)
  | (Panic e, n) => (Panic e, n)
  end.
Proof.
  destruct (connect_answer Hhandler cs (their_url w)) as (pf & f & Hpf & Hf). exists pf, f. split; [done|].
  unfold dial_register. erewrite bind_after by reflexivity. cbn [space_relays local_url mk]. rewrite own_url_known.
  erewrite bind_after by (apply call_ok, Hpf).
  erewrite bind_after with (s' := mk (A ++ [dialed_context now_s]) En ch (cs ++ [CallPeerConnect (their_url w)])) by reflexivity.
  unfold bind at 1. destruct (on_registry _ _) as [[[]|e|e] n]; reflexivity.
Qed.

Lemma close_superseded_ctx A En ch cs i c : A !! i = Some c ->
  (ctx_close_superseded i ;;* ret (i, @None (Url * bytes))) (mk A En ch cs) = (Ok (i, None), mk (<[i := supersede c]> A) En ch cs).
Proof.
  intros Hi. unfold ctx_close_superseded. erewrite bind_after; [reflexivity|]. erewrite bind_after by by apply mark_superseded_ctx.
  erewrite on_ctx by by eapply look. by rewrite ins2.
Qed.
End side.

(** * Two peers that dial each other: the invariant

    Of the two connections one is preferred, at both ends.  It is never closed,
    and holds the slot from when it is registered; the other may come and go,
    but when it ends it ends as superseded. *)
#[global] Instance Kind_eq_dec : EqDecision Kind.
Proof. solve_decision. Defined.

Lemma other_other k : other_kind (other_kind k) = k.
Proof. by destruct k. Qed.
Lemma other_ne k : other_kind k <> k.
Proof. by destruct k. Qed.

(** The handler is not told of a loss. *)
Definition quiet (c : HandlerCall) : Prop :=
  match c with CallPeerDisconnect _ _ | CallSetUnresponsive _ _ => False | _ => True end.

Section inv.
Context {R : Type} `{RelayUrls R}.
Variable frame_limit : Z.
Variable w : Identity.
Implicit Types (A : list ConnectionContext) (En : gmap Url nat) (c : ConnectionContext) (e : End) (k : Kind).
#[local] Abbreviation u := (their_url w).
#[local] Abbreviation own_frame := (own_frame w frame_limit).

Definition wrote (fs : list bytes) : Prop := exists preflight f, fs = [f] /\ own_frame preflight f.

(** Whose connection it is. *)
Definition ident k c : Prop :=
  local_id c = my_id w /\ remote_id c = their_id w /\ dialed_by_us c = bool_decide (k = Dialed).

Definition preferred_kind : Kind := if their_id w <? my_id w then Dialed else Accepted.

Definition dial_ok k e c : Prop :=
  match k, e_dial e with
  | Dialed, DialToSend own preflight => own = my_url w /\ (exists f, own_frame preflight f) /\ written c = []
  | Dialed, DialDone => True
  | Accepted, DialDone => True
  | _, _ => False
  end.

Definition fresh_end e : Prop := e_read e = ReadWaiting /\ e_dial e = DialPending.

(** The end of the preferred connection. *)
Definition good_ctx k En i e c : Prop :=
  ident k c /\ close_reason c = None /\ (k = Dialed -> preflight_sent c = true) /\
  match e_read e with
  | ReadWaiting =>
      cc_lifecycle c = Pending /\
      match k with Dialed => En !! u = Some i | Accepted => preflight_sent c = false /\ En !! u <> Some i end
  | ReadReceived v => v = u /\ cc_lifecycle c = Pending /\ En !! u = Some i
  | ReadReturned v => v = u /\ cc_lifecycle c = Pending /\ En !! u = Some i /\ preflight_sent c = true
  | ReadServing => cc_lifecycle c = Active /\ En !! u = Some i /\ preflight_sent c = true
  | _ => False
  end /\
  dial_ok k e c /\
  match k with
  | Dialed => e_dial e = DialDone -> wrote (written c)
  | Accepted => (preflight_sent c = false /\ written c = []) \/ (preflight_sent c = true /\ wrote (written c))
  end.

(** The end of the other connection. *)
Definition bad_ctx k En i e c : Prop :=
  ident k c /\
  match close_reason c with
  | None => True
  | Some (LocallyClosed CodeSuperseded _) => cc_lifecycle c = Superseded
  | Some (ApplicationClosed CodeSuperseded _) => True
  | _ => False
  end /\
  (remote_url c = Some u \/
   remote_url c = None /\ k = Accepted /\ En !! u <> Some i /\
   match e_read e with ReadWaiting | ReadGone => True | ReadExiting _ => close_reason c <> None | _ => False end) /\
  (state_live (cc_lifecycle c) = true -> remote_url c = Some u -> En !! u = Some i) /\
  (En !! u = Some i -> state_live (cc_lifecycle c) = true) /\
  (state_live (cc_lifecycle c) = false ->
   is_superseded c = true /\ (close_reason c <> None \/ exists x, e_read e = ReadExiting x)) /\
  match e_read e with
  | ReadReceived v | ReadReturned v => v = u
  | ReadExiting _ => is_superseded c = true
  | ReadGone => state_live (cc_lifecycle c) = false /\ close_reason c <> None
  | _ => True
  end /\
  (k = Dialed -> preflight_sent c = true) /\ (preflight_sent c = false -> written c = []) /\
  (written c = [] \/ wrote (written c)) /\ dial_ok k e c.

Definition end_inv (ctx_inv : gmap Url nat -> nat -> End -> ConnectionContext -> Prop) A En e : Prop :=
  match e_ctx e with
  | None => fresh_end e
  | Some i => exists c, A !! i = Some c /\ ctx_inv En i e c
  end.

Definition good_end k A En e : Prop := end_inv (good_ctx k) A En e.
Definition bad_end k A En e : Prop := end_inv (bad_ctx k) A En e.

(** The two ends of a side. *)
Definition ends_inv A En (good bad : End) : Prop :=
  good_end preferred_kind A En good /\ bad_end (other_kind preferred_kind) A En bad /\
  (forall i, En !! u = Some i -> e_ctx good = Some i \/ e_ctx bad = Some i) /\
  (forall i, e_ctx good = Some i -> e_ctx bad <> Some i).

(** ** Facts *)
Lemma ident_preferred k c : ident k c -> is_preferred_connection c = bool_decide (k = preferred_kind).
Proof.
  intros (Hl & Hr & Hd). unfold is_preferred_connection, preferred_kind. rewrite Hl, Hr, Hd.
  by destruct k, (their_id w <? my_id w).
Qed.

Lemma good_live k En i e c : good_ctx k En i e c -> state_live (cc_lifecycle c) = true.
Proof.
  intros (_ & _ & _ & Hr & _). destruct (e_read e); try done.
  - by destruct Hr as [-> _].
  - by destruct Hr as (_ & -> & _).
  - by destruct Hr as (_ & -> & _).
  - by destruct Hr as [-> _].
Qed.

(** A change that does not concern an end. *)
Lemma good_ctx_frame k En En' i e c : (En' !! u = Some i <-> En !! u = Some i) -> good_ctx k En i e c -> good_ctx k En' i e c.
Proof.
  intros HE (H1 & H2 & H3 & H4 & H5 & H6). split_and!; try done.
  destruct (e_read e), k; naive_solver.
Qed.

Lemma bad_ctx_frame k En En' i e c : (En' !! u = Some i <-> En !! u = Some i) -> bad_ctx k En i e c -> bad_ctx k En' i e c.
Proof. intros HE (H1 & H2 & H3 & H4 & H5 & H6 & H7). unfold bad_ctx. rewrite !HE. done. Qed.

Lemma end_frame (P : gmap Url nat -> nat -> End -> ConnectionContext -> Prop) A A' En En' e :
  (forall En En' i e c, (En' !! u = Some i <-> En !! u = Some i) -> P En i e c -> P En' i e c) ->
  (forall i, e_ctx e = Some i -> A' !! i = A !! i /\ (En' !! u = Some i <-> En !! u = Some i)) ->
  end_inv P A En e -> end_inv P A' En' e.
Proof.
  intros HP Hf. unfold end_inv. destruct (e_ctx e) as [i|]; [|done]. intros (c & Hc & HPc).
  destruct (Hf i eq_refl) as [HA HE]. exists c. split; [by rewrite HA|]. by eapply HP.
Qed.

(** The other connection is displaced. *)
Lemma bad_displaced k En En' q e c : En !! u = Some q -> En' !! u <> Some q -> bad_ctx k En q e c -> bad_ctx k En' q e (supersede c).
Proof.
  intros HE HE' (H1 & H2 & H3 & H4 & H5 & H6 & H7 & H8 & H9 & H10 & H11).
  pose proof (H5 HE) as Hlive.
  assert (cc_lifecycle (supersede c) = Superseded) as Hs by (cbn; by destruct (cc_lifecycle c)).
  assert (is_superseded (supersede c) = true) as Hsup by (unfold is_superseded; by rewrite Hs).
  assert (close_reason (supersede c) <> None) as Hcl by (cbn; by destruct (close_reason c)).
  unfold bad_ctx. rewrite Hs. split_and!; try done.
  - cbn. destruct (close_reason c) as [[[] ?|[] ?|]|]; try done; by destruct (cc_lifecycle c).
  - destruct H3 as [?|(? & ? & ? & ?)]; [by left|done].
  - intros _. split; [done|by left].
  - by destruct (e_read e).
Qed.

(** ** The slot *)
Variable lu : option Url.
Variable sr : SpaceRelays R.
#[local] Abbreviation mk := (mk lu sr).

Definition holders En (good bad : End) : Prop := forall i, En !! u = Some i -> e_ctx good = Some i \/ e_ctx bad = Some i.

(** The preferred connection always gets the slot. *)
Lemma claim_good A En ch cs good bad p c : A !! p = Some c -> state_live (cc_lifecycle c) = true ->
  is_preferred_connection c = true -> holders En good bad -> e_ctx bad <> Some p ->
  (forall i, e_ctx good = Some i -> i = p) -> bad_end (other_kind preferred_kind) A En bad ->
  exists A' ch', on_registry (R := R) (register_candidate u p) (mk A En ch cs) = (Ok true, mk A' (<[u := p]> En) ch' cs) /\
    A' !! p = Some c /\ bad_end (other_kind preferred_kind) A' (<[u := p]> En) bad.
Proof.
  intros Hp Hlive Hpref Hh Hne Hg Hbad. destruct (decide (En !! u = None \/ En !! u = Some p)) as [Hfree|Hbusy].
  - destruct (register_free lu sr A En ch cs u p c Hp Hlive Hfree) as [ch' E]. exists A, ch'. split_and!; [done..|].
    eapply end_frame; [| |exact Hbad]; [intros; by eapply bad_ctx_frame|]. intros i Hi. split; [done|].
    rewrite lookup_insert_eq. assert (i <> p) by congruence. destruct Hfree; naive_solver.
  - destruct (En !! u) as [q|] eqn:Hq; [|naive_solver]. assert (q <> p) as Hqp by naive_solver.
    destruct (Hh q Hq) as [Hgq|Hbq]; [by destruct Hqp; apply Hg|].
    unfold bad_end, end_inv in Hbad. rewrite Hbq in Hbad. destruct Hbad as (d & Hd & Hdc).
    destruct (register_contest lu sr A En ch cs u p c q d Hp Hlive Hq Hqp Hd) as [ch' E].
    rewrite Hpref in E. cbn in E. rewrite andb_false_r in E. eexists _, ch'. split_and!; [exact E| |].
    + by rewrite list_lookup_insert_ne.
    + unfold bad_end, end_inv. rewrite Hbq. exists (supersede d). split; [by eapply look|].
      apply bad_displaced with En; [done|rewrite lookup_insert_eq; congruence|done].
Qed.

(** The other gets it only while the preferred connection is not there. *)
Lemma claim_bad A En ch cs good bad q c : A !! q = Some c -> state_live (cc_lifecycle c) = true ->
  is_preferred_connection c = false -> holders En good bad -> e_ctx good <> Some q ->
  (forall i, e_ctx bad = Some i -> i = q) -> good_end preferred_kind A En good ->
  (exists ch', on_registry (R := R) (register_candidate u q) (mk A En ch cs) = (Ok true, mk A (<[u := q]> En) ch' cs) /\
     good_end preferred_kind A (<[u := q]> En) good) \/
  (exists ch', on_registry (R := R) (register_candidate u q) (mk A En ch cs) = (Ok false, mk (<[q := set_state Superseded c]> A) En ch' cs) /\
     En !! u <> Some q /\ good_end preferred_kind (<[q := set_state Superseded c]> A) En good).
Proof.
  intros Hq Hlive Hpref Hh Hne Hb Hgood. destruct (decide (En !! u = None \/ En !! u = Some q)) as [Hfree|Hbusy].
  - left. destruct (register_free lu sr A En ch cs u q c Hq Hlive Hfree) as [ch' E]. exists ch'. split; [done|].
    eapply end_frame; [| |exact Hgood]; [intros; by eapply good_ctx_frame|]. intros i Hi. split; [done|].
    rewrite lookup_insert_eq. assert (i <> q) by congruence. destruct Hfree; naive_solver.
  - right. destruct (En !! u) as [p|] eqn:Hp; [|naive_solver]. assert (p <> q) as Hpq by naive_solver.
    destruct (Hh p Hp) as [Hgp|Hbp]; [|by destruct Hpq; apply Hb].
    pose proof Hgood as Hgood'. unfold good_end, end_inv in Hgood. rewrite Hgp in Hgood. destruct Hgood as (d & Hd & Hdc).
    destruct (register_contest lu sr A En ch cs u q c p d Hq Hlive Hp Hpq Hd) as [ch' E].
    rewrite (good_live _ _ _ _ _ Hdc) in E. destruct Hdc as (Hid & _).
    rewrite (ident_preferred _ _ Hid), bool_decide_eq_true_2, Hpref in E by done. cbn in E. exists ch'. split_and!; [exact E|congruence|].
    eapply end_frame; [| |exact Hgood']; [intros; by eapply good_ctx_frame|]. intros i Hi.
    rewrite list_lookup_insert_ne by congruence. done.
Qed.
End inv.
