(* ===== verification/SimOpenSteps.v ===== *)
(** * Two peers that dial each other: every step keeps the invariant *)
From S2P Require Import Prelude Timestamp Id Agent IrohUrl IrohFrame ConnContext.
From S2P Require Import ConnContext IrohTransport.
From S2P Require Import SimOpen.

(** ** Changing one end *)
Lemma end_of_with {R} k n e (sd : Side R) : end_of k (with_end k n e sd) = e.
Proof. by destruct k. Qed.
Lemma end_of_other {R} k n e (sd : Side R) : end_of (other_kind k) (with_end k n e sd) = end_of (other_kind k) sd.
Proof. by destruct k. Qed.
Lemma end_of_back {R} k n e (sd : Side R) : end_of k (with_end (other_kind k) n e sd) = end_of k sd.
Proof. by destruct k. Qed.
Lemma node_with {R} k n e (sd : Side R) : sd_node (with_end k n e sd) = n.
Proof. by destruct k. Qed.

Section steps.
Context {R : Type} `{RelayUrls R}.
Variable frame_limit : Z.
Variable w : Identity.
Variable lu : option Url.
Variable sr : SpaceRelays R.
Variable parse : string -> res ParsedUrl.
Variable open_uni : ConnectionContext -> res unit.
Variable write_all : ConnectionContext -> bytes -> res unit.
Context (Hhandler : handler_answers w frame_limit) (Hquic : quic_answers open_uni write_all).
Hypothesis own_url_known : own_url_for_preflight (their_url w) sr lu = Some (my_url w).
#[local] Set Default Proof Using "Type*".
#[local] Abbreviation u := (their_url w).
#[local] Abbreviation pk := (preferred_kind w).
#[local] Abbreviation bk := (other_kind (preferred_kind w)).
#[local] Abbreviation mk := (mk lu sr).
#[local] Abbreviation good_ctx := (good_ctx frame_limit w).
#[local] Abbreviation bad_ctx := (bad_ctx frame_limit w).
#[local] Abbreviation ends_inv := (ends_inv frame_limit w).

Definition side_inv (sd : Side R) : Prop := exists A En ch cs,
  sd_node sd = mk A En ch cs /\ Forall quiet cs /\ ends_inv A En (end_of pk sd) (end_of bk sd).

Lemma side_good A En ch cs e sd : Forall quiet cs -> ends_inv A En e (end_of bk sd) -> side_inv (with_end pk (mk A En ch cs) e sd).
Proof. intros Hq He. exists A, En, ch, cs. rewrite node_with, end_of_with, end_of_other. done. Qed.
Lemma side_bad A En ch cs e sd : Forall quiet cs -> ends_inv A En (end_of pk sd) e -> side_inv (with_end bk (mk A En ch cs) e sd).
Proof. intros Hq He. exists A, En, ch, cs. rewrite node_with, end_of_with, end_of_back. done. Qed.

Lemma upd_good A En e e' bad i c0 c' : ends_inv A En e bad -> e_ctx e = Some i -> e_ctx e' = Some i -> A !! i = Some c0 ->
  good_ctx pk En i e' c' -> ends_inv (<[i := c']> A) En e' bad.
Proof.
  intros (Hg & Hb & Hh & Hd) Hi Hi' Hc0 Hc. split_and!.
  - unfold good_end, end_inv. rewrite Hi'. exists c'. split; [by eapply look|done].
  - eapply end_frame; [| |exact Hb]; [intros; by eapply bad_ctx_frame|]. intros j Hj. split; [|done].
    apply list_lookup_insert_ne. intros <-. by apply (Hd i).
  - intros j Hj. destruct (Hh j Hj) as [?|?]; [left; congruence|by right].
  - intros j Hj. apply Hd. congruence.
Qed.

Lemma upd_bad A En En' good e e' i c0 c' : ends_inv A En good e -> e_ctx e = Some i -> e_ctx e' = Some i -> A !! i = Some c0 ->
  (forall j, j <> i -> En' !! u = Some j <-> En !! u = Some j) ->
  bad_ctx bk En' i e' c' -> ends_inv (<[i := c']> A) En' good e'.
Proof.
  intros (Hg & Hb & Hh & Hd) Hi Hi' Hc0 HE Hc. split_and!.
  - eapply end_frame; [| |exact Hg]; [intros; by eapply good_ctx_frame|]. intros j Hj.
    assert (j <> i) as Hji by (intros ->; by apply (Hd i)). split; [by apply list_lookup_insert_ne|by apply HE].
  - unfold bad_end, end_inv. rewrite Hi'. exists c'. split; [by eapply look|done].
  - intros j Hj. destruct (decide (j = i)) as [->|Hji]; [by right|].
    destruct (Hh j (proj1 (HE j Hji) Hj)) as [?|?]; [by left|right; congruence].
  - intros j Hj. rewrite Hi', <- Hi. by apply Hd.
Qed.

(** The context of an end that has one. *)
Lemma good_inv A En e bad i : ends_inv A En e bad -> e_ctx e = Some i -> exists c, A !! i = Some c /\ good_ctx pk En i e c.
Proof using Type. intros (Hg & _) Hi. unfold good_end, end_inv in Hg. by rewrite Hi in Hg. Qed.
Lemma bad_inv A En good e i : ends_inv A En good e -> e_ctx e = Some i -> exists c, A !! i = Some c /\ bad_ctx bk En i e c.
Proof using Type. intros (_ & Hb & _) Hi. unfold bad_end, end_inv in Hb. by rewrite Hi in Hb. Qed.

(** A closed connection was superseded. *)
Lemma bad_closed En i e c : bad_ctx bk En i e c -> close_reason c <> None -> is_superseded c = true.
Proof.
  intros (_ & Hc & _) Hn. unfold is_superseded, superseded_by_remote, remote_close_reason.
  destruct (close_reason c) as [[[] ?|[] ?|]|]; try done; [by rewrite Hc|by rewrite orb_true_r].
Qed.

Lemma bad_dead En i e c : bad_ctx bk En i e c -> state_live (cc_lifecycle c) = false -> is_superseded c = true.
Proof. intros (_ & _ & _ & _ & _ & Hd & _) Hn. by apply Hd. Qed.

(** A step of one end that leads to [n] and the end [e]. *)
Lemma side_step_good sd e n : (forall A En ch cs, sd_node sd = mk A En ch cs -> Forall quiet cs ->
    ends_inv A En (end_of pk sd) (end_of bk sd) ->
    exists A' En' ch' cs', n = mk A' En' ch' cs' /\ Forall quiet cs' /\ ends_inv A' En' e (end_of bk sd)) ->
  side_inv sd -> side_inv (with_end pk n e sd).
Proof.
  intros HS (A & En & ch & cs & Hn & Hq & He). destruct (HS _ _ _ _ Hn Hq He) as (A' & En' & ch' & cs' & -> & Hq' & He').
  by apply side_good.
Qed.
Lemma side_step_bad sd e n : (forall A En ch cs, sd_node sd = mk A En ch cs -> Forall quiet cs ->
    ends_inv A En (end_of pk sd) (end_of bk sd) ->
    exists A' En' ch' cs', n = mk A' En' ch' cs' /\ Forall quiet cs' /\ ends_inv A' En' (end_of pk sd) e) ->
  side_inv sd -> side_inv (with_end bk n e sd).
Proof.
  intros HS (A & En & ch & cs & Hn & Hq & He). destruct (HS _ _ _ _ Hn Hq He) as (A' & En' & ch' & cs' & -> & Hq' & He').
  by apply side_bad.
Qed.

Lemma not_pk k : k <> pk -> k = bk.
Proof. by destruct k, pk. Qed.

(** ** The dialing task *)
Lemma send_keeps now sd sd' : side_inv sd -> send_step open_uni write_all frame_limit w now sd = Some sd' -> side_inv sd'.
Proof.
  intros Hinv. unfold send_step. change (sd_dialed sd) with (end_of Dialed sd).
  destruct (e_ctx (end_of Dialed sd)) as [i|] eqn:Hi; [|done]. destruct (e_dial (end_of Dialed sd)) as [|own pf|] eqn:Hdl; [done| |done].
  intros <-%(inj Some). destruct (decide (Dialed = pk)) as [Hk|Hk%not_pk].
  - rewrite Hk in *. revert Hinv. apply side_step_good. intros A En ch cs -> Hq He.
    destruct (good_inv _ _ _ _ _ He Hi) as (c & Hc & Hg).
    pose proof Hg as (Hid & Hcl & Hs & Hr & Hdo & Hw).
    assert (own = my_url w /\ (exists f, own_frame w frame_limit pf f) /\ written c = []) as (-> & [f Hf] & Hwr).
    { unfold dial_ok in Hdo. rewrite <- Hk in Hdo, Hdl. by rewrite Hdl in Hdo. }
    eexists _, En, ch, cs. split_and!; [by eapply (dial_preflight_open lu sr w)|done|].
    eapply upd_good; [exact He|done|done|exact Hc|]. unfold SimOpen.good_ctx in *. rewrite <- Hk in *.
    split_and!; try done. intros _. rewrite Hwr. by exists pf, f.
  - rewrite Hk in *. revert Hinv. apply side_step_bad. intros A En ch cs -> Hq He.
    destruct (bad_inv _ _ _ _ _ He Hi) as (c & Hc & Hb).
    assert (own = my_url w /\ (exists f, own_frame w frame_limit pf f) /\ written c = []) as (-> & [f Hf] & Hwr).
    { destruct Hb as (_ & _ & _ & _ & _ & _ & _ & _ & _ & _ & Hdo). unfold dial_ok in Hdo. rewrite <- Hk in Hdo, Hdl. by rewrite Hdl in Hdo. }
    destruct (decide (close_reason c = None)) as [Hcl|Hcl].
    + eexists _, En, ch, cs. split_and!; [by eapply (dial_preflight_open lu sr w)|done|].
      eapply upd_bad; [exact He|done|done|exact Hc|done|].
      destruct Hb as (H1 & H2 & H3 & H4 & H5 & H6 & H7 & H8 & H9 & H10 & H11). unfold SimOpen.bad_ctx, dial_ok. rewrite <- Hk in *.
      split_and!; try done. { intros Hs. cbn in Hs. by rewrite H8 in Hs. } right. rewrite Hwr. by exists pf, f.
    + destruct (dial_preflight_closed lu sr w open_uni write_all frame_limit Hhandler Hquic own_url_known A En ch cs i c pf f now
                  Hc Hcl (bad_closed _ _ _ _ Hb Hcl) Hf) as [b E].
      eexists _, En, ch, cs. split_and!; [exact E|done|].
      eapply upd_bad; [exact He|done|done|exact Hc|done|].
      destruct Hb as (H1 & H2 & H3 & H4 & H5 & H6 & H7 & H8 & H9 & H10 & H11). unfold SimOpen.bad_ctx, dial_ok. rewrite <- Hk in *.
      split_and!; done.
Qed.

(** ** A new context *)
Lemma lookup_snoc A (c0 c : ConnectionContext) i : A !! i = Some c -> (A ++ [c0]) !! i = Some c.
Proof. intros E. rewrite lookup_app_l; [done|by eapply lookup_lt_Some]. Qed.
Lemma snoc_new A (c : ConnectionContext) : (A ++ [c]) !! length A = Some c.
Proof. by rewrite lookup_app_r, Nat.sub_diag. Qed.

Lemma ctx_lt A En good bad i : ends_inv A En good bad -> e_ctx good = Some i \/ e_ctx bad = Some i -> (i < length A)%nat.
Proof.
  intros He [Hi|Hi]; [destruct (good_inv _ _ _ _ _ He Hi) as (c & Hc & _)|destruct (bad_inv _ _ _ _ _ He Hi) as (c & Hc & _)];
    by eapply lookup_lt_Some.
Qed.

(** The other ends are not concerned by a context that is new. *)
Lemma grow_ends A En good bad c0 : ends_inv A En good bad ->
  good_end frame_limit w pk (A ++ [c0]) En good /\ bad_end frame_limit w bk (A ++ [c0]) En bad /\
  e_ctx good <> Some (length A) /\ e_ctx bad <> Some (length A) /\ En !! u <> Some (length A).
Proof.
  intros He. assert (forall i, e_ctx good = Some i \/ e_ctx bad = Some i -> (i < length A)%nat) as Hlt by (intros i; by eapply ctx_lt).
  pose proof He as (Hg & Hb & Hh & Hd). split_and!.
  - eapply end_frame; [| |exact Hg]; [intros; by eapply good_ctx_frame|]. intros i Hi. split; [|done]. apply lookup_app_l, Hlt. by left.
  - eapply end_frame; [| |exact Hb]; [intros; by eapply bad_ctx_frame|]. intros i Hi. split; [|done]. apply lookup_app_l, Hlt. by right.
  - intros E. specialize (Hlt _ (or_introl E)). lia.
  - intros E. specialize (Hlt _ (or_intror E)). lia.
  - intros E. specialize (Hlt _ (Hh _ E)). lia.
Qed.

Lemma build_good A En e bad i c : A !! i = Some c -> e_ctx e = Some i -> good_ctx pk En i e c ->
  bad_end frame_limit w bk A En bad -> e_ctx bad <> Some i -> (forall j, En !! u = Some j -> j = i \/ e_ctx bad = Some j) ->
  ends_inv A En e bad.
Proof.
  intros Hc Hi Hg Hb Hne Hh. split_and!; [|done| |].
  - unfold good_end, end_inv. rewrite Hi. by exists c.
  - intros j Hj. destruct (Hh j Hj) as [->|?]; [by left|by right].
  - intros j Hj. congruence.
Qed.

Lemma build_bad A En good e i c : A !! i = Some c -> e_ctx e = Some i -> bad_ctx bk En i e c ->
  good_end frame_limit w pk A En good -> e_ctx good <> Some i -> (forall j, En !! u = Some j -> j = i \/ e_ctx good = Some j) ->
  ends_inv A En good e.
Proof.
  intros Hc Hi Hb Hg Hne Hh. split_and!; [done| | |].
  - unfold bad_end, end_inv. rewrite Hi. by exists c.
  - intros j Hj. destruct (Hh j Hj) as [->|?]; [by right|by left].
  - intros j Hj. congruence.
Qed.

Lemma accept_keeps now sd sd' : side_inv sd -> accept_step w now sd = Some sd' -> side_inv sd'.
Proof.
  intros Hinv. unfold accept_step. change (sd_accepted sd) with (end_of Accepted sd).
  destruct (e_ctx (end_of Accepted sd)) as [i|] eqn:Hi; [done|].
  destruct (accept_turn (my_id w) (their_id w) (now / 1000000) (sd_node sd)) as [[i|e|e] n] eqn:Ea; [|done..].
  intros <-%(inj Some). set (c0 := context_new (my_id w) (their_id w) false None false (now / 1000000)).
  destruct (decide (Accepted = pk)) as [Hk|Hk%not_pk].
  - rewrite Hk in *. revert Hinv. apply side_step_good. intros A En ch cs Hn Hq He. rewrite Hn in Ea. injection Ea as <- <-.
    destruct (grow_ends _ _ _ _ c0 He) as (_ & Hb & Hg1 & Hb1 & Hs). eexists _, _, _, _. split_and!; [reflexivity|done|].
    eapply build_good; [apply snoc_new|done| |done|done|].
    + unfold SimOpen.good_ctx. rewrite <- Hk. cbn. split_and!; try done. by left.
    + intros j Hj. destruct He as (_ & _ & Hh & _). destruct (Hh j Hj) as [?|?]; [congruence|by right].
  - rewrite Hk in *. revert Hinv. apply side_step_bad. intros A En ch cs Hn Hq He. rewrite Hn in Ea. injection Ea as <- <-.
    destruct (grow_ends _ _ _ _ c0 He) as (Hg & _ & Hg1 & Hb1 & Hs). eexists _, _, _, _. split_and!; [reflexivity|done|].
    eapply build_bad; [apply snoc_new|done| |done|done|].
    + unfold SimOpen.bad_ctx. rewrite <- Hk. cbn. split_and!; try done; [by right|by left].
    + intros j Hj. destruct He as (_ & _ & Hh & _). destruct (Hh j Hj) as [?|?]; [by right|congruence].
Qed.

Lemma quiet_snoc cs c : Forall quiet cs -> quiet c -> Forall quiet (cs ++ [c]).
Proof. intros Hcs Hc. apply Forall_app. split; [done|by apply Forall_singleton]. Qed.

Lemma ident_good k (c : ConnectionContext) : ident w k c -> k = pk -> is_preferred_connection c = true.
Proof. intros Hid Hk. rewrite (ident_preferred _ _ _ Hid). by rewrite bool_decide_eq_true_2. Qed.
Lemma ident_bad k (c : ConnectionContext) : ident w k c -> k = bk -> is_preferred_connection c = false.
Proof. intros Hid Hk. rewrite (ident_preferred _ _ _ Hid), bool_decide_eq_false_2; [done|]. intros ->. symmetry in Hk. by apply other_ne in Hk. Qed.

Lemma dial_keeps now sd sd' : side_inv sd -> dial_step w now sd = Some sd' -> side_inv sd'.
Proof.
  intros Hinv. unfold dial_step. change (sd_dialed sd) with (end_of Dialed sd).
  destruct (e_ctx (end_of Dialed sd)) as [i|] eqn:Hi; [done|]. destruct (e_dial (end_of Dialed sd)) eqn:Hdl; [|done..].
  set (c0 := dialed_context w (now / 1000000)). assert (ident w Dialed c0) as Hid by done.
  pose proof Hinv as (A & En & ch & cs & Hn & Hq & He). rewrite Hn.
  destruct (dial_eq lu sr w frame_limit Hhandler own_url_known A En ch cs (now / 1000000)) as (pf & f & Hf & E).
  fold c0 in E. destruct (grow_ends _ _ _ _ c0 He) as (Hg & Hb & Hg1 & Hb1 & Hs). destruct He as (_ & _ & Hh & _).
  assert (Forall quiet (cs ++ [CallPeerConnect u])) as Hq' by by apply quiet_snoc.
  destruct (decide (Dialed = pk)) as [Hk|Hk%not_pk].
  - rewrite Hk in *.
    destruct (claim_good frame_limit w lu sr (A ++ [c0]) En ch (cs ++ [CallPeerConnect u]) (end_of pk sd) (end_of bk sd) (length A) c0)
      as (A' & ch' & E2 & Hc & Hb'); [apply snoc_new|done|by apply (ident_good pk)|done|done|congruence|done|].
    rewrite E2 in E. rewrite E. intros <-%(inj Some). apply side_good; [done|].
    eapply build_good; [exact Hc|done| |done|done|].
    + unfold SimOpen.good_ctx. rewrite <- Hk. cbn. split_and!; try done.
      * apply lookup_insert_eq.
      * by exists f.
    + intros j. rewrite lookup_insert_eq. intros [= <-]. by left.
  - rewrite Hk in *.
    destruct (claim_bad frame_limit w lu sr (A ++ [c0]) En ch (cs ++ [CallPeerConnect u]) (end_of pk sd) (end_of bk sd) (length A) c0)
      as [(ch' & E2 & Hg')|(ch' & E2 & Hns & Hg')]; [apply snoc_new|done|by apply (ident_bad bk)|done|done|congruence|done| |].
    + rewrite E2 in E. rewrite E. intros <-%(inj Some). apply side_bad; [done|].
      eapply build_bad; [apply snoc_new|done| |done|done|].
      * unfold SimOpen.bad_ctx. rewrite <- Hk. cbn. split_and!; try done; [by left|intros _ _; apply lookup_insert_eq|by left|by exists f].
      * intros j. rewrite lookup_insert_eq. intros [= <-]. by left.
    + rewrite E2 in E. rewrite E. pose proof (look _ _ _ (set_state Superseded c0) (snoc_new A c0)) as Hl.
      rewrite (close_superseded_ctx lu sr w frame_limit Hhandler own_url_known _ En ch' _ _ _ Hl), ins2.
      intros <-%(inj Some). apply side_bad; [done|].
      eapply build_bad; [by eapply look, snoc_new|done| | |done|].
      * unfold SimOpen.bad_ctx. rewrite <- Hk. cbn. split_and!; try done; [by left|intros _; split; [done|by left]|by left].
      * eapply end_frame; [| |exact Hg']; [intros; by eapply good_ctx_frame|]. intros j Hj. split; [|done].
        rewrite !list_lookup_insert_ne by congruence. done.
      * intros j Hj. destruct (Hh j Hj) as [?|?]; [by right|congruence].
Qed.

(** ** The readers *)

(** What the peer has written is its preflight. *)
Definition peer_writes k (peer : Side R) : Prop := forall theirs, context_of (other_kind k) peer = Some theirs ->
  written theirs = [] \/ exists preflight rest,
    read_preflight_frame_from_stream (read_url parse) frame_limit (concat (written theirs)) = (Ok (bytes_of_string u, preflight), rest).

Lemma receive_keeps k peer sd sd' : peer_writes k peer -> side_inv sd ->
  receive_step parse frame_limit w k peer sd = Some sd' -> side_inv sd'.
Proof.
  intros Hpeer Hinv. unfold receive_step. destruct (e_ctx (end_of k sd)) as [i|] eqn:Hi; [|done].
  destruct (e_read (end_of k sd)) eqn:Hrd; [|done..]. destruct (context_of (other_kind k) peer) as [theirs|] eqn:Ht; [|done].
  destruct (Hpeer theirs Ht) as [->|(pf & rest & Er)]; [done|]. destruct (written theirs) as [|f0 fs] eqn:Hwt; [done|].
  rewrite Er. clear Er. rewrite string_of_bytes_of_string.
  pose proof Hinv as (A & En & ch & cs & Hn & Hq & He). rewrite Hn.
  assert (Forall quiet (cs ++ [CallRecvData u pf])) as Hq' by by apply quiet_snoc.
  destruct (decide (k = pk)) as [->|Hk%not_pk].
  - destruct (good_inv _ _ _ _ _ He Hi) as (c & Hc & Hg).
    rewrite (receive_eq lu sr w frame_limit Hhandler own_url_known A En ch cs i c u pf Hc).
    set (c1 := set_preflight (preflight_sent c) true (set_remote_url u c)).
    assert (good_ctx pk (<[u := i]> En) i (MkEnd (Some i) (e_dial (end_of pk sd)) (ReadReceived u)) c1) as Hg1.
    { destruct Hg as (H1 & H2 & H3 & H4 & H5 & H6). rewrite Hrd in H4. destruct H4 as [H4 H4'].
      unfold SimOpen.good_ctx. cbn. split_and!; try done. apply lookup_insert_eq. }
    destruct He as (_ & Hb & Hh & Hd).
    destruct (claim_good frame_limit w lu sr (<[i := c1]> A) En ch (cs ++ [CallRecvData u pf]) (end_of pk sd) (end_of bk sd) i c1)
      as (A' & ch' & E2 & Hc' & Hb'); [by eapply look| | |done|by apply Hd|congruence| |].
    + apply (good_live _ _ _ _ _ _ _ Hg1).
    + apply (ident_good pk); [apply Hg1|done].
    + eapply end_frame; [| |exact Hb]; [intros; by eapply bad_ctx_frame|]. intros j Hj. split; [|done].
      apply list_lookup_insert_ne. intros <-. by apply (Hd i).
    + rewrite E2. intros <-%(inj Some). apply side_good; [done|].
      eapply build_good; [exact Hc'|done|done|done|by apply Hd|]. intros j. rewrite lookup_insert_eq. intros [= <-]. by left.
  - rewrite Hk in *. destruct (bad_inv _ _ _ _ _ He Hi) as (c & Hc & Hb).
    rewrite (receive_eq lu sr w frame_limit Hhandler own_url_known A En ch cs i c u pf Hc).
    set (c1 := set_preflight (preflight_sent c) true (set_remote_url u c)).
    pose proof (bad_closed _ _ _ _ Hb) as Hcs. pose proof (bad_dead _ _ _ _ Hb) as Hds.
    pose proof Hb as (H1 & H2 & H3 & H4 & H5 & H6 & H7 & H8 & H9 & H10 & H11).
    pose proof He as (Hg & _ & Hh & Hd).
    assert (e_ctx (end_of pk sd) <> Some i) as Hgi by (intros E; by apply (Hd i)).
    destruct (state_live (cc_lifecycle c)) eqn:Hlive.
    + destruct (claim_bad frame_limit w lu sr (<[i := c1]> A) En ch (cs ++ [CallRecvData u pf]) (end_of pk sd) (end_of bk sd) i c1)
        as [(ch' & E2 & Hg')|(ch' & E2 & Hns & Hg')]; [by eapply look|done|by apply (ident_bad bk)|done|done|congruence| | |].
      * eapply end_frame; [| |exact Hg]; [intros; by eapply good_ctx_frame|]. intros j Hj. split; [|done].
        apply list_lookup_insert_ne. congruence.
      * rewrite E2. intros <-%(inj Some). apply side_bad; [done|].
        eapply build_bad; [by eapply look|done| |done|done|intros j; rewrite lookup_insert_eq; intros [= <-]; by left].
        unfold SimOpen.bad_ctx. cbn. split_and!; try done; [by left|intros _ _; apply lookup_insert_eq|by rewrite Hlive].
      * rewrite E2. intros <-%(inj Some). apply side_bad; [done|].
        eapply build_bad; [by eapply look, look|done| |exact Hg'|done|].
        -- unfold SimOpen.bad_ctx. cbn. split_and!; try done; [|by left|].
           ++ destruct (close_reason c) as [[[] ?|[] ?|]|]; done.
           ++ intros _. split; [done|right; by eexists].
        -- intros j Hj. destruct (Hh j Hj) as [?|?]; [by right|congruence].
    + rewrite (register_dead lu sr (<[i := c1]> A) En ch _ u i c1) by (by eapply look || done).
      intros <-%(inj Some). apply side_bad; [done|]. destruct (H6 eq_refl) as [Hsup _].
      eapply upd_bad; [exact He|done|done|exact Hc|done|]. unfold SimOpen.bad_ctx. cbn.
      rewrite Hlive. split_and!; try done; [by left|intros _; split; [done|right; by eexists]].
Qed.

Lemma return_keeps k sd sd' : side_inv sd -> return_step open_uni write_all frame_limit w k sd = Some sd' -> side_inv sd'.
Proof.
  intros Hinv. unfold return_step. destruct (e_ctx (end_of k sd)) as [i|] eqn:Hi; [|done].
  destruct (e_read (end_of k sd)) as [|url| | | |] eqn:Hrd; [done| |done..].
  pose proof Hinv as (A & En & ch & cs & Hn & Hq & He). rewrite Hn.
  assert (Forall quiet (cs ++ [CallPeerConnect u])) as Hq' by by apply quiet_snoc.
  destruct (decide (k = pk)) as [->|Hk%not_pk].
  - destruct (good_inv _ _ _ _ _ He Hi) as (c & Hc & Hg).
    pose proof Hg as (H1 & H2 & H3 & H4 & H5 & H6). rewrite Hrd in H4. destruct H4 as (-> & H4 & Hs).
    destruct (preflight_sent c) eqn:Hsent.
    + rewrite (return_sent lu sr w open_uni write_all frame_limit Hhandler Hquic own_url_known A En ch cs i c u Hc Hsent).
      intros <-%(inj Some). apply side_good; [done|]. rewrite <- (list_insert_id A i c) by done.
      eapply upd_good; [exact He|done|done|exact Hc|]. unfold SimOpen.good_ctx. cbn. rewrite Hsent. split_and!; done.
    + destruct (return_open lu sr w open_uni write_all frame_limit Hhandler Hquic own_url_known A En ch cs i c Hc Hsent H2)
        as (pf & f & Hf & E). rewrite E. intros <-%(inj Some). apply side_good; [done|].
      eapply upd_good; [exact He|done|done|exact Hc|]. unfold SimOpen.good_ctx. cbn.
      unfold dial_ok in *. cbn. destruct pk; [by specialize (H3 eq_refl)|]. split_and!; try done.
      right. split; [done|]. destruct H6 as [[_ ->]|[? _]]; [|done]. by exists pf, f.
  - rewrite Hk in *. destruct (bad_inv _ _ _ _ _ He Hi) as (c & Hc & Hb).
    pose proof (bad_closed _ _ _ _ Hb) as Hcs.
    pose proof Hb as (H1 & H2 & H3 & H4 & H5 & H6 & H7 & H8 & H9 & H10 & H11). rewrite Hrd in H3, H7. subst url.
    destruct H3 as [H3|(_ & _ & _ & [])].
    assert (forall x, e_read (end_of bk sd) = ReadExiting x -> False) as Hnx by (intros x; by rewrite Hrd).
    destruct (preflight_sent c) eqn:Hsent.
    + rewrite (return_sent lu sr w open_uni write_all frame_limit Hhandler Hquic own_url_known A En ch cs i c u Hc Hsent).
      intros <-%(inj Some). apply side_bad; [done|]. rewrite <- (list_insert_id A i c) by done.
      eapply upd_bad; [exact He|done|done|exact Hc|done|]. unfold SimOpen.bad_ctx. cbn. rewrite Hsent. split_and!; try done; [by left|].
      intros Hl. destruct (H6 Hl) as [? [?|[x Hx]]]; [by split; [|left]|by destruct (Hnx x)].
    + assert (bk = Accepted) as Hbk by (destruct bk; [by specialize (H8 eq_refl)|done]).
      destruct (decide (close_reason c = None)) as [Hcl|Hcl].
      * destruct (return_open lu sr w open_uni write_all frame_limit Hhandler Hquic own_url_known A En ch cs i c Hc Hsent Hcl)
          as (pf & f & Hf & E). rewrite E. intros <-%(inj Some). apply side_bad; [done|].
        eapply upd_bad; [exact He|done|done|exact Hc|done|]. unfold SimOpen.bad_ctx, dial_ok in *. cbn. rewrite Hbk in *.
        split_and!; try done; [by left| |right; rewrite (H9 eq_refl); by exists pf, f].
        intros Hl. destruct (H6 Hl) as [? [?|[x Hx]]]; [by split; [|left]|by destruct (Hnx x)].
      * destruct (return_closed lu sr w open_uni write_all frame_limit Hhandler Hquic own_url_known A En ch cs i c Hc Hsent Hcl)
          as (e & b & E). rewrite E. intros <-%(inj Some). apply side_bad; [done|].
        eapply upd_bad; [exact He|done|done|exact Hc|done|]. unfold SimOpen.bad_ctx, dial_ok in *. cbn. rewrite Hbk in *.
        split_and!; try done; [by left|intros _; split; [by apply Hcs|by left]|by apply Hcs|intros _; by apply H9].
Qed.

Lemma activate_keeps k sd sd' : side_inv sd -> activate_step k sd = Some sd' -> side_inv sd'.
Proof.
  intros Hinv. unfold activate_step. destruct (e_ctx (end_of k sd)) as [i|] eqn:Hi; [|done].
  destruct (e_read (end_of k sd)) as [| |url| | |] eqn:Hrd; [done|done| |done..].
  pose proof Hinv as (A & En & ch & cs & Hn & Hq & He). rewrite Hn.
  destruct (decide (k = pk)) as [->|Hk%not_pk].
  - destruct (good_inv _ _ _ _ _ He Hi) as (c & Hc & Hg).
    pose proof (good_live _ _ _ _ _ _ _ Hg) as Hl. destruct Hg as (H1 & H2 & H3 & H4 & H5 & H6).
    rewrite Hrd in H4. destruct H4 as (-> & H4 & Hs & Hsent).
    rewrite (activate_holder lu sr A En ch cs u i c Hc Hs Hl). intros <-%(inj Some). apply side_good; [done|].
    eapply upd_good; [exact He|done|done|exact Hc|]. unfold SimOpen.good_ctx. cbn. split_and!; done.
  - rewrite Hk in *. destruct (bad_inv _ _ _ _ _ He Hi) as (c & Hc & Hb). pose proof (bad_dead _ _ _ _ Hb) as Hds.
    pose proof Hb as (H1 & H2 & H3 & H4 & H5 & H6 & H7 & H8 & H9 & H10 & H11). rewrite Hrd in H3, H7. subst url.
    destruct H3 as [H3|(_ & _ & _ & [])]. destruct (decide (En !! u = Some i)) as [Hs|Hs].
    + pose proof (H5 Hs) as Hl. rewrite (activate_holder lu sr A En ch cs u i c Hc Hs Hl). intros <-%(inj Some). apply side_bad; [done|].
      eapply upd_bad; [exact He|done|done|exact Hc|done|]. unfold SimOpen.bad_ctx. cbn. split_and!; try done; [|by left].
      destruct (close_reason c) as [[[] ?|[] ?|]|]; try done. by rewrite H2 in Hl.
    + rewrite (activate_other lu sr A En ch cs u i Hs). intros <-%(inj Some). apply side_bad; [done|].
      rewrite <- (list_insert_id A i c) by done. eapply upd_bad; [exact He|done|done|exact Hc|done|].
      assert (state_live (cc_lifecycle c) = false) as Hl by (destruct (state_live (cc_lifecycle c)); [by destruct Hs; apply H4|done]).
      unfold SimOpen.bad_ctx. cbn. split_and!; try done; [by left| |by apply Hds].
      intros _. split; [by apply Hds|right; by eexists].
Qed.

(** What the peer may have closed. *)
Definition peer_closes k (peer : Side R) : Prop := forall theirs, context_of (other_kind k) peer = Some theirs ->
  match close_reason theirs with Some (LocallyClosed code _) => k = bk /\ code = CodeSuperseded | _ => True end.

Lemma close_keeps k peer sd sd' : peer_closes k peer -> side_inv sd -> close_arrives k peer sd = Some sd' -> side_inv sd'.
Proof.
  intros Hpeer Hinv. unfold close_arrives. destruct (e_ctx (end_of k sd)) as [i|] eqn:Hi; [|done].
  destruct (context_of k sd) as [mine|] eqn:Hm; [|done]. destruct (context_of (other_kind k) peer) as [theirs|] eqn:Ht; [|done].
  specialize (Hpeer theirs Ht). destruct (close_reason mine) eqn:Hcl; [done|].
  destruct (close_reason theirs) as [[code reason| |]|] eqn:Htr; [|done..]. destruct Hpeer as [-> ->]. intros <-%(inj Some).
  revert Hinv. apply side_step_bad. intros A En ch cs Hn Hq He. rewrite Hn.
  destruct (bad_inv _ _ _ _ _ He Hi) as (c & Hc & Hb). unfold context_of in Hm. rewrite Hi in Hm. cbn in Hm. rewrite Hn in Hm. cbn in Hm.
  assert (mine = c) as -> by congruence. erewrite on_ctx by exact Hc. eexists _, En, ch, cs. split_and!; [reflexivity|done|].
  eapply upd_bad; [exact He|done|done|exact Hc|done|].
  pose proof Hb as (H1 & H2 & H3 & H4 & H5 & H6 & H7 & H8 & H9 & H10 & H11).
  assert (is_superseded (set_close_reason (ApplicationClosed CodeSuperseded reason) c) = true) as Hsup.
  { unfold is_superseded, superseded_by_remote, remote_close_reason. cbn. rewrite Hcl. by rewrite orb_true_r. }
  assert (close_reason (set_close_reason (ApplicationClosed CodeSuperseded reason) c) <> None) as Hne by (cbn; by rewrite Hcl).
  unfold SimOpen.bad_ctx. split_and!; try done.
  - cbn. by rewrite Hcl.
  - destruct H3 as [?|(? & ? & ? & Hr)]; [by left|right]. split_and!; [done..|]. by destruct (e_read (end_of bk sd)).
  - intros _. split; [done|by left].
  - destruct (e_read (end_of bk sd)); try done. by destruct H7.
Qed.

Lemma stops_keeps k sd sd' : side_inv sd -> reader_stops k sd = Some sd' -> side_inv sd'.
Proof.
  intros Hinv. unfold reader_stops. destruct (context_of k sd ≫= close_reason) as [r|] eqn:Hm; [|done].
  assert (exists i, e_ctx (end_of k sd) = Some i) as [i Hi].
  { unfold context_of in Hm. destruct (e_ctx (end_of k sd)) as [i|]; [by exists i|done]. }
  rewrite Hi. destruct (decide (k = pk)) as [->|Hk%not_pk].
  { destruct Hinv as (A & En & ch & cs & Hn & Hq & He). destruct (good_inv _ _ _ _ _ He Hi) as (c & Hc & Hg).
    unfold context_of in Hm. rewrite Hi, Hn in Hm. cbn in Hm. rewrite Hc in Hm. cbn in Hm. destruct Hg as (_ & Hcl & _). by rewrite Hcl in Hm. }
  intros E. assert ((e_read (end_of k sd) = ReadWaiting \/ e_read (end_of k sd) = ReadServing) /\
    Some (with_end k (sd_node sd) (MkEnd (Some i) (e_dial (end_of k sd)) (exit_with "connection closed")) sd) = Some sd') as [Hrd E'].
  { destruct (e_read (end_of k sd)); try done; (split; [|done]); [by left|by right]. }
  clear E. apply (inj Some) in E'. subst sd'. rewrite Hk in *. revert Hinv. apply side_step_bad. intros A En ch cs Hn Hq He.
  destruct (bad_inv _ _ _ _ _ He Hi) as (c & Hc & Hb). eexists _, _, _, _. split_and!; [exact Hn|done|].
  unfold context_of in Hm. rewrite Hi, Hn in Hm. cbn in Hm. rewrite Hc in Hm. cbn in Hm.
  assert (close_reason c <> None) as Hne by by rewrite Hm.
  pose proof (bad_closed _ _ _ _ Hb Hne) as Hsup.
  pose proof Hb as (H1 & H2 & H3 & H4 & H5 & H6 & H7 & H8 & H9 & H10 & H11).
  rewrite <- (list_insert_id A i c) by done. eapply upd_bad; [exact He|done|done|exact Hc|done|].
  unfold SimOpen.bad_ctx. cbn. split_and!; try done.
  - destruct H3 as [?|(? & ? & ? & _)]; [by left|by right].
  - intros _. split; [done|by left].
Qed.

Definition End_gone i (e : End) : End := MkEnd (Some i) (e_dial e) ReadGone.

(** An end whose reader is gone. *)
Lemma bad_gone En En' i c c' e : bad_ctx bk En i e c ->
  En' !! u <> Some i -> ident w bk c' -> (remote_url c' = Some u \/ remote_url c' = None /\ bk = Accepted) ->
  state_live (cc_lifecycle c') = false ->
  match close_reason c' with
  | Some (LocallyClosed CodeSuperseded _) => cc_lifecycle c' = Superseded
  | Some (ApplicationClosed CodeSuperseded _) => True
  | _ => False
  end -> preflight_sent c' = preflight_sent c -> written c' = written c -> bad_ctx bk En' i (End_gone i e) c'.
Proof.
  intros (_ & _ & _ & _ & _ & _ & _ & H8 & H9 & H10 & H11) Hs Hid Hu Hl Hcl Hsent Hw.
  assert (close_reason c' <> None) as Hne by by destruct (close_reason c').
  unfold SimOpen.bad_ctx. rewrite Hl, Hsent, Hw. unfold dial_ok in *. cbn. rewrite Hw. split_and!; try done.
  - destruct (close_reason c') as [[[] ?|[] ?|]|]; done.
  - destruct Hu as [?|[? ?]]; [by left|by right].
  - intros _. split; [|by left]. unfold is_superseded, superseded_by_remote, remote_close_reason.
    destruct (close_reason c') as [[[] ?|[] ?|]|]; try done; [by rewrite Hcl|by rewrite orb_true_r].
Qed.

Lemma cleanup_keeps now k sd sd' : side_inv sd -> cleanup_step w now k sd = Some sd' -> side_inv sd'.
Proof.
  intros Hinv. unfold cleanup_step. destruct (e_ctx (end_of k sd)) as [i|] eqn:Hi; [|done].
  destruct (e_read (end_of k sd)) as [| | | |exit|] eqn:Hrd; [done..| |done]. intros <-%(inj Some).
  destruct (decide (k = pk)) as [->|Hk%not_pk].
  { destruct Hinv as (A & En & ch & cs & Hn & Hq & He). destruct (good_inv _ _ _ _ _ He Hi) as (c & Hc & Hg).
    destruct Hg as (_ & _ & _ & Hr & _). by rewrite Hrd in Hr. }
  rewrite Hk in *. revert Hinv. apply side_step_bad. intros A En ch cs Hn Hq He. rewrite Hn.
  destruct (bad_inv _ _ _ _ _ He Hi) as (c & Hc & Hb).
  pose proof Hb as (H1 & H2 & H3 & H4 & H5 & H6 & H7 & H8 & H9 & H10 & H11). rewrite Hrd in H3, H7.
  destruct H3 as [H3|(H3 & Hacc & Hs & Hcl)].
  - destruct (cleanup_superseded lu sr w frame_limit Hhandler own_url_known A En ch cs i c exit now u Hc H3 H7) as (c' & E & Ec').
    eexists _, _, _, _. split_and!; [exact E|done|]. eapply upd_bad; [exact He|done|done|exact Hc| |].
    + intros j Hj. case_bool_decide as Hb'; [|done]. rewrite lookup_delete_eq. naive_solver.
    + apply (bad_gone En _ i c c' (end_of bk sd) Hb); try done; subst c'; cbn; try done.
      * case_bool_decide; [by rewrite lookup_delete_eq|done].
      * by left.
      * destruct (superseded_by_remote c); by destruct (cc_lifecycle c).
      * revert H7. unfold is_superseded, superseded_by_remote, remote_close_reason.
        destruct (close_reason c) as [[[] ?|[] ?|]|]; try done; by destruct (cc_lifecycle c).
  - destruct (cleanup_unknown lu sr w frame_limit Hhandler own_url_known A En ch cs i c exit now Hc H3) as (c' & E & Ec').
    eexists _, _, _, _. split_and!; [exact E|done|]. eapply upd_bad; [exact He|done|done|exact Hc|done|].
    apply (bad_gone En _ i c c' (end_of bk sd) Hb); try done; subst c'; cbn; try done.
    * by right.
    * by destruct (cc_lifecycle c).
    * destruct (close_reason c) as [[[] ?|[] ?|]|]; try done. by rewrite H2.
Qed.
End steps.
