(* ===== verification/SimOpenSystem.v ===== *)
(** * Two peers that dial each other: a close is for good

    No part of the code takes back why a connection was closed. *)
From stdpp Require Import relations.
From S2P Require Import Prelude Timestamp Id Agent IrohFrame IrohUrl ConnContext.
From S2P Require Import ConnContext IrohTransport SimOpen SimOpenSteps.

Definition close_kept (c c' : ConnectionContext) : Prop :=
  (close_reason c <> None -> close_reason c' = close_reason c) /\ remote_close_reason c' = remote_close_reason c.

(** The connections of the second list go on from those of the first, and no
    new one is closed by the peer. *)
Definition arcs_kept (A A' : list ConnectionContext) : Prop :=
  (forall i c, A !! i = Some c -> exists c', A' !! i = Some c' /\ close_kept c c') /\
  (forall i c', A' !! i = Some c' -> A !! i = None -> remote_close_reason c' = None).

#[global] Instance arcs_kept_preorder : PreOrder arcs_kept.
Proof.
  split.
  - intros A. split; [|congruence]. intros i c Hc. exists c. done.
  - intros A B C [HAB NAB] [HBC NBC]. split.
    + intros i c Hc. destruct (HAB i c Hc) as (c' & Hc' & H1 & R1). destruct (HBC i c' Hc') as (c'' & Hc'' & H2 & R2).
      exists c''. split; [done|]. split; [|congruence]. intros Hn. rewrite H2, H1; [done..|]. by rewrite H1.
    + intros i c'' Hc'' Hn. destruct (B !! i) as [c'|] eqn:Hc'; [|by eapply NBC].
      destruct (HBC i c' Hc') as (x & Hx & _ & Rx). assert (x = c'') as <- by congruence. rewrite Rx. by eapply NAB.
Qed.

Lemma arcs_kept_alter f i A : (forall c, close_kept c (f c)) -> arcs_kept A (alter f i A).
Proof.
  intros Hf. split.
  - intros j c Hc. destruct (decide (i = j)) as [->|Hij].
    + rewrite list_lookup_alter_eq, Hc. cbn. by exists (f c).
    + rewrite list_lookup_alter_ne by done. by exists c.
  - intros j c' Hc' Hn. destruct (decide (i = j)) as [->|Hij].
    + rewrite list_lookup_alter_eq, Hn in Hc'. done.
    + rewrite list_lookup_alter_ne in Hc' by done. congruence.
Qed.

Lemma arcs_kept_snoc A c0 : remote_close_reason c0 = None -> arcs_kept A (A ++ [c0]).
Proof.
  intros H0. split.
  - intros i c Hc. exists c. split; [|done]. rewrite lookup_app_l; [done|by eapply lookup_lt_Some].
  - intros i c' Hc' Hn. apply lookup_snoc_Some in Hc' as [[_ ?]|[_ <-]]; [congruence|done].
Qed.

Section kept.
Context {R : Type} `{RelayUrls R}.

Definition keeps {A} (m : M (Node R) A) : Prop := forall n, arcs_kept (arcs (registry n)) (arcs (registry (m n).2)).

Lemma keeps_ret {A} (a : A) : keeps (ret a).
Proof. by intros n. Qed.
Lemma keeps_fail {A} e : keeps (A := A) (fail e).
Proof. by intros n. Qed.
Lemma keeps_get : keeps get.
Proof. by intros n. Qed.
Lemma keeps_lift {A} (r : res A) : keeps (lift_res r).
Proof. by intros n. Qed.
Lemma keeps_bind {A B} (m : M (Node R) A) (k : A -> M (Node R) B) : keeps m -> (forall a, keeps (k a)) -> keeps (bind m k).
Proof.
  intros Hm Hk n. specialize (Hm n). unfold bind. destruct (m n) as [[a|e|e] n']; cbn in *; [|done..].
  etransitivity; [exact Hm|apply Hk].
Qed.
Lemma keeps_or_log {A} (d : A) m : keeps m -> keeps (or_log d m).
Proof. intros Hm n. specialize (Hm n). unfold or_log. by destruct (m n) as [[a|e|e] n']. Qed.
Lemma keeps_call {A} c (answer : list HandlerCall -> res A) : keeps (call c answer).
Proof. by intros n. Qed.
Lemma keeps_get_context i : keeps (get_context i).
Proof. intros n. unfold get_context. by destruct (arcs (registry n) !! i). Qed.

Lemma keeps_registry {A} (f : ConnectionRegistry ConnectionContext -> A * ConnectionRegistry ConnectionContext) :
  (forall r, arcs_kept (arcs r) (arcs (f r).2)) -> keeps (on_registry f).
Proof. intros Hf n. specialize (Hf (registry n)). unfold on_registry. by destruct (f (registry n)). Qed.

Lemma keeps_context i f : (forall c, close_kept c (f c)) -> keeps (on_context i f).
Proof. intros Hf. apply keeps_registry. intros r. by apply arcs_kept_alter. Qed.

(** What is done to a context. *)
Lemma kept_close code reason c : close_kept c (close_connection code reason c).
Proof. unfold close_kept, remote_close_reason, close_connection. cbn. by destruct (close_reason c). Qed.

Lemma mark_superseded_kept i (r : ConnectionRegistry ConnectionContext) : arcs_kept (arcs r) (arcs (mark_superseded i r)).
Proof. by apply arcs_kept_alter. Qed.
Lemma mark_closed_kept i (r : ConnectionRegistry ConnectionContext) : arcs_kept (arcs r) (arcs (mark_closed i r)).
Proof. by apply arcs_kept_alter. Qed.

Lemma register_kept peer i (r : ConnectionRegistry ConnectionContext) : arcs_kept (arcs r) (arcs (register_candidate peer i r).2).
Proof.
  assert (forall d r, arcs_kept (arcs r) (arcs (on_arc d close_superseded (notify_changed (mark_superseded d r))))) as Hd.
  { intros d r'. etransitivity; [apply mark_superseded_kept|]. apply arcs_kept_alter. intros c. apply kept_close. }
  unfold register_candidate, claim_slot. destruct (is_live r i); [|done]. cbn -[wrap_u64].
  destruct (entries r !! peer) as [e|]; [|done]. case_bool_decide; [done|]. destruct (is_live r e); cbn -[wrap_u64].
  - destruct (_ && _); cbn -[wrap_u64]; [apply mark_superseded_kept|]. apply (Hd e (set_entries <[peer := i]> r)).
  - apply (Hd e (set_entries <[peer := i]> r)).
Qed.

Lemma activate_kept peer i (r : ConnectionRegistry ConnectionContext) : arcs_kept (arcs r) (arcs (registry_activate peer i r).2).
Proof.
  unfold registry_activate. case_bool_decide; [|done]. destruct (state_of r i) as [s|]; [|done].
  destruct (activate_state s). by apply arcs_kept_alter.
Qed.

Lemma remove_kept peer i (r : ConnectionRegistry ConnectionContext) : arcs_kept (arcs r) (arcs (remove_if_current peer i r).2).
Proof. unfold remove_if_current. by case_bool_decide. Qed.

Lemma new_kept local remote dialed url sent opened (r : ConnectionRegistry ConnectionContext) :
  arcs_kept (arcs r) (arcs (new_arc (context_new local remote dialed url sent opened) r).2).
Proof. by apply arcs_kept_snoc. Qed.
End kept.

Create HintDb kept.
#[export] Hint Resolve keeps_ret keeps_fail keeps_get keeps_lift keeps_call keeps_get_context : kept.
#[export] Hint Resolve kept_close mark_superseded_kept mark_closed_kept register_kept activate_kept remove_kept new_kept : kept.
#[export] Hint Extern 1 (keeps (on_registry _)) => apply keeps_registry; intros; cbn [snd] : kept.
#[export] Hint Extern 1 (keeps (on_context _ _)) => apply keeps_context; intros : kept.
#[export] Hint Extern 1 (keeps (bind _ _)) => apply keeps_bind; [|intros] : kept.
#[export] Hint Extern 1 (keeps (or_log _ _)) => apply keeps_or_log : kept.
#[export] Hint Extern 2 (keeps (match ?x with _ => _ end)) => destruct x : kept.
#[export] Hint Extern 2 (keeps (let '_ := ?x in _)) => destruct x : kept.
#[export] Hint Extern 1 (close_kept _ _) => done : kept.
#[export] Hint Extern 1 (arcs_kept ?A ?A) => reflexivity : kept.

Section tasks.
Context {R : Type} `{RelayUrls R} `{TxHandler}.
Variable open_uni : ConnectionContext -> res unit.
Variable write_all : ConnectionContext -> bytes -> res unit.
Variable limit : Z.

Lemma ctx_mark_superseded_kept i : keeps (R := R) (ctx_mark_superseded i).
Proof. unfold ctx_mark_superseded. auto with kept. Qed.
Lemma ctx_mark_closed_kept i : keeps (R := R) (ctx_mark_closed i).
Proof. unfold ctx_mark_closed. auto with kept. Qed.
#[local] Hint Resolve ctx_mark_superseded_kept ctx_mark_closed_kept : kept.

Lemma disconnect_kept i code reason : keeps (R := R) (disconnect_context i code reason).
Proof. unfold disconnect_context. auto 10 with kept. Qed.
Lemma close_failed_kept i reason : keeps (R := R) (close_failed i reason).
Proof. unfold close_failed. auto 10 with kept. Qed.
Lemma close_superseded_kept i : keeps (R := R) (ctx_close_superseded i).
Proof. unfold ctx_close_superseded. auto 10 with kept. Qed.

Lemma write_frame_kept i f : keeps (R := R) (write_frame write_all i f).
Proof. unfold write_frame. auto 10 with kept. Qed.
Lemma ensure_stream_kept i : keeps (R := R) (ensure_send_stream open_uni i).
Proof. unfold ensure_send_stream. auto 10 with kept. Qed.
#[local] Hint Resolve disconnect_kept close_failed_kept close_superseded_kept write_frame_kept ensure_stream_kept : kept.

Lemma send_preflight_kept i url pf : keeps (R := R) (send_preflight_frame open_uni write_all limit i url pf).
Proof. unfold send_preflight_frame. auto 10 with kept. Qed.
#[local] Hint Resolve send_preflight_kept : kept.

Lemma receive_kept i url pf d : keeps (R := R) (receive_preflight i url pf d).
Proof. unfold receive_preflight. auto 20 with kept. Qed.
Lemma return_kept i url d : keeps (R := R) (return_preflight open_uni write_all limit i url d).
Proof. unfold return_preflight. auto 20 with kept. Qed.
Lemma cleanup_kept i exit now : keeps (R := R) (cleanup_after_exit i exit now).
Proof.
  unfold cleanup_after_exit. apply keeps_bind; [auto with kept|]. intros c. destruct (remote_url c); [|auto 10 with kept].
  apply keeps_bind; [auto with kept|]. intros was. apply keeps_bind; [auto with kept|]. intros c'.
  apply keeps_bind; [auto with kept|]. intros _. apply keeps_bind; [auto with kept|]. intros c''. auto 20 with kept.
Qed.
Lemma dial_register_kept id remote url now_s : keeps (R := R) (dial_register id remote url now_s).
Proof. unfold dial_register. auto 20 with kept. Qed.
Lemma dial_preflight_kept i url own pf now : keeps (R := R) (dial_preflight open_uni write_all limit i url own pf now).
Proof.
  intros n. unfold dial_preflight. pose proof (send_preflight_kept i own pf n) as Hs.
  destruct (send_preflight_frame open_uni write_all limit i own pf n) as [[a|e|e] n']; cbn in Hs; [done| |done].
  etransitivity; [exact Hs|]. apply keeps_bind; [auto with kept|]. intros c. unfold set_unresponsive. auto 20 with kept.
Qed.
Lemma accept_kept id remote now_s : keeps (R := R) (accept_turn id remote now_s).
Proof. unfold accept_turn. auto with kept. Qed.
End tasks.
#[export] Hint Resolve receive_kept return_kept cleanup_kept dial_register_kept dial_preflight_kept accept_kept : kept.

(** ** The shape of a step

    A step moves one end on, or is the arrival of a close. *)
Definition dial_rank (pc : DialPc) : nat := match pc with DialPending => 2 | DialToSend _ _ => 1 | DialDone => 0 end.
Definition read_rank (pc : ReadPc) : nat :=
  match pc with ReadWaiting => 5 | ReadReceived _ => 4 | ReadReturned _ => 3 | ReadServing => 2 | ReadExiting _ => 1 | ReadGone => 0 end.
Definition end_rank (e : End) : nat :=
  dial_rank (e_dial e) + (match e_ctx e with None => 10 | Some _ => read_rank (e_read e) end).

Section shape.
Context {R : Type} `{RelayUrls R}.
Variable parse : string -> res ParsedUrl.
Variable open_uni : ConnectionContext -> res unit.
Variable write_all : ConnectionContext -> bytes -> res unit.
Variable limit : Z.
Implicit Types (sd peer : Side R).

Definition arcs_of sd : list ConnectionContext := arcs (registry (sd_node sd)).

Definition moves k sd sd' : Prop := exists e' n, sd' = with_end k n e' sd /\
  arcs_kept (arcs_of sd) (arcs (registry n)) /\ (end_rank e' < end_rank (end_of k sd))%nat /\
  (e_ctx e' = e_ctx (end_of k sd) \/ e_ctx (end_of k sd) = None /\ forall i, e_ctx e' = Some i -> arcs_of sd !! i = None).

Definition close_comes k peer sd sd' : Prop := exists i mine theirs code reason,
  e_ctx (end_of k sd) = Some i /\ arcs_of sd !! i = Some mine /\ close_reason mine = None /\
  context_of (other_kind k) peer = Some theirs /\ close_reason theirs = Some (LocallyClosed code reason) /\
  arcs_of sd' = <[i := set_close_reason (ApplicationClosed code reason) mine]> (arcs_of sd) /\
  forall k', end_of k' sd' = end_of k' sd.

Lemma dial_index `{TxHandler} id remote url now_s i x n n' :
  dial_register id remote url now_s n = (Ok (i, x), n') -> i = length (arcs (registry n)).
Proof.
  unfold dial_register. unfold bind at 1. cbn -[bind]. destruct (own_url_for_preflight _ _ _); [|done].
  unfold bind at 1, call. destruct (on_peer_connect _ _) as [pf|e|e]; [|done..].
  unfold bind at 1. cbn -[bind on_registry]. unfold on_registry at 1. cbn -[bind on_registry]. unfold bind at 1.
  destruct (on_registry _ _) as [[[]|e|e] m]; cbn -[bind]; [by intros [= <- _ _]| |done..].
  unfold bind at 1. destruct (ctx_close_superseded _ _) as [[?|?|?] ?]; [|done..]. by intros [= <- _ _].
Qed.

Lemma step_shape w now ev peer sd sd' : side_step parse open_uni write_all limit w now ev peer sd = Some sd' ->
  (exists k, ev = EvCloseArrives k /\ close_comes k peer sd sd') \/ (exists k, moves k sd sd').
Proof.
  destruct ev as [| | |k|k|k|k|k|k]; cbn [side_step].
  - intros E. right. exists Dialed. unfold dial_step in E. unfold moves. cbn [end_of with_end].
    destruct (e_ctx (sd_dialed sd)) eqn:Hi; [done|]. destruct (e_dial (sd_dialed sd)) eqn:Hd; [|done..].
    pose proof (dial_register_kept (H0 := my_handler w) (my_id w) (their_id w) (their_url w) (now / 1000000) (sd_node sd)) as Hk.
    destruct (dial_register _ _ _ _ _) as [[[i [[own pf]|]]|e|e] n] eqn:Er; injection E as <-; cbn in Hk; eexists _, _; split_and!; try done.
    all: try (unfold end_rank; rewrite Hi, Hd; cbn; lia).
    all: right; split; [done|]; cbn; try done; intros j [= <-]; rewrite (dial_index _ _ _ _ _ _ _ _ Er).
    all: apply lookup_ge_None; unfold arcs_of; lia.
  - intros E. right. exists Dialed. unfold send_step in E. unfold moves. cbn [end_of with_end].
    destruct (e_ctx (sd_dialed sd)) as [i|] eqn:Hi; [|done]. destruct (e_dial (sd_dialed sd)) as [|own pf|] eqn:Hd; [done| |done].
    injection E as <-. eexists _, _. split_and!; [done|apply dial_preflight_kept| |by left].
    unfold end_rank. rewrite Hi, Hd. cbn. lia.
  - intros E. right. exists Accepted. unfold accept_step in E. unfold moves. cbn [end_of with_end].
    destruct (e_ctx (sd_accepted sd)) as [i|] eqn:Hi; [done|].
    pose proof (accept_kept (my_id w) (their_id w) (now / 1000000) (sd_node sd)) as Hk.
    destruct (accept_turn _ _ _ _) as [[i|e|e] n] eqn:Ea; [|done..]. injection E as <-.
    eexists _, _. split_and!; [done|exact Hk| |].
    + unfold end_rank. rewrite Hi. cbn. lia.
    + right. split; [done|]. cbn. intros j [= <-]. injection Ea as <- _. apply lookup_ge_None. unfold arcs_of. lia.
  - intros E. right. exists k. unfold receive_step in E. unfold moves.
    destruct (e_ctx (end_of k sd)) as [i|] eqn:Hi; [|done]. destruct (e_read (end_of k sd)) eqn:Hr; [|done..].
    destruct (context_of _ _) as [theirs|]; [|done]. destruct (written theirs) as [|f fs]; [done|].
    destruct (read_preflight_frame_from_stream _ _ _) as [[[ub pf]|e|e] rest]; [| |done].
    + pose proof (receive_kept (H0 := my_handler w) i (string_of_bytes ub) pf None (sd_node sd)) as Hk.
      destruct (receive_preflight _ _ _ _ _) as [[[]|e|e] n]; try done; injection E as <-;
        (eexists _, _; split_and!; [done|exact Hk|unfold end_rank; rewrite Hi, Hr; cbn; lia|by left]).
    + injection E as <-. eexists _, _; split_and!; [done|reflexivity|unfold end_rank; rewrite Hi, Hr; cbn; lia|by left].
  - intros E. right. exists k. unfold return_step in E. unfold moves.
    destruct (e_ctx (end_of k sd)) as [i|] eqn:Hi; [|done]. destruct (e_read (end_of k sd)) as [|url| | | |] eqn:Hr; [done| |done..].
    pose proof (return_kept (H0 := my_handler w) open_uni write_all limit i url None (sd_node sd)) as Hk.
    destruct (return_preflight _ _ _ _ _ _ _) as [[[]|e|e] n]; try done; injection E as <-;
      (eexists _, _; split_and!; [done|exact Hk|unfold end_rank; rewrite Hi, Hr; cbn; lia|by left]).
  - intros E. right. exists k. unfold activate_step in E. unfold moves.
    destruct (e_ctx (end_of k sd)) as [i|] eqn:Hi; [|done]. destruct (e_read (end_of k sd)) as [| |url| | |] eqn:Hr; [done|done| |done..].
    assert (keeps (R := R) (on_registry (registry_activate url i))) as Hk by auto with kept. specialize (Hk (sd_node sd)).
    destruct (on_registry _ _) as [[[]|e|e] n]; injection E as <-;
      (eexists _, _; split_and!; [done|exact Hk|unfold end_rank; rewrite Hi, Hr; cbn; lia|by left]).
  - intros E. left. exists k. split; [done|]. unfold close_arrives in E. unfold close_comes.
    destruct (e_ctx (end_of k sd)) as [i|] eqn:Hi; [|done]. unfold context_of at 1 in E. rewrite Hi in E. cbn in E.
    destruct (arcs (registry (sd_node sd)) !! i) as [mine|] eqn:Hm; [|done].
    destruct (context_of _ _) as [theirs|] eqn:Ht; [|done]. destruct (close_reason mine) eqn:Hc; [done|].
    destruct (close_reason theirs) as [[code reason| |]|] eqn:Htc; [|done..]. apply (inj Some) in E. subst sd'.
    exists i, mine, theirs, code, reason. split_and!; try done.
    + unfold arcs_of. destruct k; cbn; unfold on_registry, on_arc; cbn; apply list_eq; intros j; destruct (decide (i = j)) as [->|Hj].
      all: try (rewrite list_lookup_alter_eq, Hm, list_lookup_insert_eq by (by eapply lookup_lt_Some); done).
      all: by rewrite list_lookup_alter_ne, list_lookup_insert_ne.
    + by intros []; destruct k.
  - intros E. right. exists k. unfold reader_stops in E. unfold moves.
    destruct (context_of k sd ≫= close_reason) eqn:Hc; [|done].
    destruct (e_ctx (end_of k sd)) as [i|] eqn:Hi; [|unfold context_of in Hc; by rewrite Hi in Hc].
    destruct (e_read (end_of k sd)) eqn:Hr; try done; injection E as <-;
      (eexists _, _; split_and!; [done|reflexivity|unfold end_rank; rewrite Hi, Hr; cbn; lia|by left]).
  - intros E. right. exists k. unfold cleanup_step in E. unfold moves.
    destruct (e_ctx (end_of k sd)) as [i|] eqn:Hi; [|done]. destruct (e_read (end_of k sd)) eqn:Hr; try done. injection E as <-.
    eexists _, _. split_and!; [done|apply cleanup_kept|unfold end_rank; rewrite Hi, Hr; cbn; lia|by left].
Qed.
End shape.

(** * Two peers that dial each other end with one connection

    The two sides together: every interleaving of their tasks comes to an end,
    and there both hold the same connection. *)
Section system.
Context {R : Type} `{RelayUrls R}.
Variable parse : string -> res ParsedUrl.
Variable open_uni : ConnectionContext -> res unit.
Variable write_all : ConnectionContext -> bytes -> res unit.
Variable limit : Z.
Variables wa wb : Identity.
Variables lua lub : option Url.
Variables sra srb : SpaceRelays R.
Implicit Types (sd me peer : Side R) (c : ConnectionContext).

Definition start (lu : option Url) (sr : SpaceRelays R) : Side R :=
  MkSide (MkNode registry_new [] lu sr) (MkEnd None DialPending ReadWaiting) (MkEnd None DialPending ReadWaiting).

(** Either side makes a step. *)
Inductive sys_step : Side R * Side R -> Side R * Side R -> Prop :=
  | step_a now ev a b a' : side_step parse open_uni write_all limit wa now ev b a = Some a' -> sys_step (a, b) (a', b)
  | step_b now ev a b b' : side_step parse open_uni write_all limit wb now ev a b = Some b' -> sys_step (a, b) (a, b').

(** A URL that a frame can carry. *)
Definition url_text (url : Url) : Prop := utf8 (bytes_of_string url) = true /\ url_new parse url = Ok url.

(** A side that knows its URL for the other, and a handler that takes it. *)
Definition side_ready (w : Identity) (lu : option Url) (sr : SpaceRelays R) : Prop :=
  handler_answers w limit /\ own_url_for_preflight (their_url w) sr lu = Some (my_url w) /\ url_text (my_url w).

(** Two nodes that know each other. *)
Definition acquainted : Prop :=
  my_id wa = their_id wb /\ my_id wb = their_id wa /\ my_id wa <> my_id wb /\
  my_url wa = their_url wb /\ my_url wb = their_url wa.

(** The connection of [k] at a side. *)
Definition connection_at k (sd : Side R) c : Prop := context_of k sd = Some c.

(** Where a side ends: one active connection, in the slot of the peer, and the
    other closed. *)
Definition settled (w : Identity) (sd : Side R) : Prop :=
  exists p c d, e_ctx (end_of (preferred_kind w) sd) = Some p /\ connection_at (preferred_kind w) sd c /\
    cc_lifecycle c = Active /\ entries (registry (sd_node sd)) !! their_url w = Some p /\
    connection_at (other_kind (preferred_kind w)) sd d /\ state_live (cc_lifecycle d) = false /\ close_reason d <> None.

(** The peer's closes come from the peer. *)
Definition closes_ok (me peer : Side R) : Prop := forall k c code reason,
  context_of k me = Some c -> remote_close_reason c = Some (code, reason) ->
  exists c', context_of (other_kind k) peer = Some c' /\ close_reason c' = Some (LocallyClosed code reason).

Lemma context_moves k sd sd' : moves k sd sd' -> forall k' c, context_of k' sd = Some c ->
  exists c', context_of k' sd' = Some c' /\ close_kept c c'.
Proof.
  intros (e' & n & -> & [Hk _] & _ & Hctx) k' c. unfold context_of.
  destruct (e_ctx (end_of k' sd)) as [i|] eqn:Hi; [|done]. cbn. intros Hc.
  assert (e_ctx (end_of k' (with_end k n e' sd)) = Some i) as ->.
  { destruct (decide (k' = k)) as [->|Hne].
    - rewrite end_of_with. destruct Hctx as [Hctx|[Hctx _]]; congruence.
    - assert (end_of k' (with_end k n e' sd) = end_of k' sd) as -> by (by destruct k, k'). done. }
  cbn. rewrite node_with. by apply Hk.
Qed.

Lemma context_new_or_old k sd sd' : moves k sd sd' -> forall k' c', context_of k' sd' = Some c' ->
  remote_close_reason c' <> None -> exists c, context_of k' sd = Some c /\ remote_close_reason c = remote_close_reason c'.
Proof.
  intros (e' & n & -> & [Hk Hnew] & _ & Hctx) k' c'. unfold context_of. rewrite node_with. intros Hc' Hr.
  destruct (e_ctx (end_of k' (with_end k n e' sd))) as [i|] eqn:Hi; [|done]. cbn in Hc'.
  assert (e_ctx (end_of k' sd) = Some i) as ->.
  { destruct (decide (k' = k)) as [->|Hne].
    - rewrite end_of_with in Hi. destruct Hctx as [Hctx|[_ Hn]]; [congruence|]. destruct Hr. by apply (Hnew i c' Hc'), Hn.
    - assert (end_of k' (with_end k n e' sd) = end_of k' sd) as E by (by destruct k, k'). by rewrite E in Hi. }
  cbn. destruct (arcs (registry (sd_node sd)) !! i) as [c|] eqn:Hc.
  - exists c. split; [done|]. destruct (Hk i c Hc) as (x & Hx & _ & Hrx). congruence.
  - destruct Hr. by apply (Hnew i).
Qed.

Lemma context_close k peer sd sd' : close_comes k peer sd sd' -> forall k' c, context_of k' sd = Some c ->
  exists c', context_of k' sd' = Some c' /\ (close_reason c <> None -> close_reason c' = close_reason c).
Proof.
  intros (i & mine & theirs & code & reason & Hi & Hm & Hcl & _ & _ & HA & He) k' c. unfold context_of. rewrite He.
  destruct (e_ctx (end_of k' sd)) as [j|]; [|done]. cbn. fold (arcs_of sd) (arcs_of sd'). rewrite HA. intros Hc.
  destruct (decide (i = j)) as [->|Hij].
  - rewrite (look _ _ _ _ Hm). eexists. split; [done|]. assert (c = mine) as -> by congruence. by rewrite Hcl.
  - rewrite list_lookup_insert_ne by done. by exists c.
Qed.

Lemma closes_me w now ev me me' peer : side_step parse open_uni write_all limit w now ev peer me = Some me' ->
  (forall k i, e_ctx (end_of k me) = Some i -> e_ctx (end_of (other_kind k) me) <> Some i) ->
  closes_ok me peer -> closes_ok me' peer.
Proof.
  intros [(k & -> & Hcomes)|[k Hmoves]]%step_shape Hdist Hok k' c code reason Hc Hr.
  - pose proof Hcomes as (i & mine & theirs & code0 & reason0 & Hi & Hm & Hcl & Ht & Htc & HA & He).
    unfold context_of in Hc. rewrite He in Hc. fold (arcs_of me') in Hc. rewrite HA in Hc.
    destruct (e_ctx (end_of k' me)) as [j|] eqn:Hj; [|done]. cbn in Hc. destruct (decide (i = j)) as [->|Hij].
    + rewrite (look _ _ _ _ Hm) in Hc. injection Hc as <-. unfold remote_close_reason in Hr. cbn in Hr. rewrite Hcl in Hr.
      injection Hr as -> ->. destruct (decide (k' = k)) as [->|Hk]; [by exists theirs|].
      assert (k' = other_kind k) as -> by by destruct k, k'. by destruct (Hdist k j Hi).
    + rewrite list_lookup_insert_ne in Hc by done. apply (Hok k' c); [|done]. unfold context_of. by rewrite Hj.
  - destruct (context_new_or_old _ _ _ Hmoves k' c Hc) as (c0 & Hc0 & Hr0); [congruence|]. apply (Hok k' c0); [done|congruence].
Qed.

Lemma closes_peer w now ev me peer peer' : side_step parse open_uni write_all limit w now ev me peer = Some peer' ->
  closes_ok me peer -> closes_ok me peer'.
Proof.
  intros Hstep Hok k c code reason Hc Hr. destruct (Hok k c code reason Hc Hr) as (c' & Hc' & Hl).
  apply step_shape in Hstep as [(k0 & -> & Hcomes)|[k0 Hmoves]].
  - destruct (context_close _ _ _ _ Hcomes _ _ Hc') as (c'' & Hc'' & Hkeep). exists c''. split; [done|]. rewrite Hkeep; [done|congruence].
  - destruct (context_moves _ _ _ Hmoves _ _ Hc') as (c'' & Hc'' & Hkeep & _). exists c''. split; [done|]. rewrite Hkeep; [done|congruence].
Qed.

(** ** One side *)
Section one.
Variable w : Identity.
Variable lu : option Url.
Variable sr : SpaceRelays R.
Context (Hlimit : limit <= 2 ^ 32 + 4) (Hready : side_ready w lu sr).
#[local] Set Default Proof Using "Type*".
#[local] Abbreviation inv := (side_inv limit w lu sr).

(** The contexts of a side in its invariant. *)
Lemma context_inv sd k c : inv sd -> context_of k sd = Some c -> exists i, e_ctx (end_of k sd) = Some i /\
  (k = preferred_kind w /\ good_ctx limit w k (entries (registry (sd_node sd))) i (end_of k sd) c \/
   k = other_kind (preferred_kind w) /\ bad_ctx limit w k (entries (registry (sd_node sd))) i (end_of k sd) c).
Proof.
  intros (A & En & ch & cs & Hn & _ & He) Hc. unfold context_of in Hc. destruct (e_ctx (end_of k sd)) as [i|] eqn:Hi; [|done].
  exists i. split; [done|]. rewrite Hn in *. cbn in *. destruct (decide (k = preferred_kind w)) as [->|Hk].
  - left. split; [done|]. destruct (good_inv limit w _ _ _ _ _ He Hi) as (x & Hx & Hg). assert (x = c) as -> by congruence. done.
  - right. assert (k = other_kind (preferred_kind w)) as -> by (by destruct k, (preferred_kind w)). split; [done|].
    destruct (bad_inv limit w _ _ _ _ _ He Hi) as (x & Hx & Hg). assert (x = c) as -> by congruence. done.
Qed.

Lemma context_written sd k c : inv sd -> context_of k sd = Some c -> written c = [] \/ wrote limit w (written c).
Proof.
  intros Hinv Hc. destruct (context_inv sd k c Hinv Hc) as (i & Hi & [[-> Hg]|[-> Hb]]).
  - destruct Hg as (_ & _ & _ & _ & Hd & Hw). unfold dial_ok in Hd. destruct (preferred_kind w).
    + destruct (e_dial (end_of Dialed sd)) as [|own pf|]; [done|left; by destruct Hd as (_ & _ & ->)|right; by apply Hw].
    + destruct Hw as [[_ ->]|[_ Hw]]; [by left|by right].
  - by destruct Hb as (_ & _ & _ & _ & _ & _ & _ & _ & _ & Hw & _).
Qed.

Lemma wrote_read fs : wrote limit w fs -> exists preflight,
  read_preflight_frame_from_stream (read_url parse) limit (concat fs) = (Ok (bytes_of_string (my_url w), preflight), []).
Proof.
  intros (pf & f & -> & Hf). exists pf. destruct Hready as (_ & _ & Hutf & Hurl). cbn.
  apply (preflight_roundtrip (read_url parse) limit Hlimit); [done| |done].
  unfold read_url. rewrite string_of_bytes_of_string, Hurl. done.
Qed.

(** What the invariant of a side tells the other. *)
Lemma closes_told sd k c : inv sd -> context_of k sd = Some c ->
  match close_reason c with
  | Some (LocallyClosed code _) => k = other_kind (preferred_kind w) /\ code = CodeSuperseded
  | _ => True
  end.
Proof.
  intros Hinv Hc. destruct (context_inv sd k c Hinv Hc) as (i & Hi & [[-> Hg]|[-> Hb]]).
  - destruct Hg as (_ & -> & _). done.
  - destruct Hb as (_ & Hcl & _). by destruct (close_reason c) as [[[] ?|[] ?|]|].
Qed.

Lemma inv_distinct sd : inv sd -> forall k i, e_ctx (end_of k sd) = Some i -> e_ctx (end_of (other_kind k) sd) <> Some i.
Proof.
  intros (A & En & ch & cs & _ & _ & (_ & _ & _ & Hd)) k i Hi Hj. destruct (decide (k = preferred_kind w)) as [->|Hk].
  - by apply (Hd i).
  - assert (k = other_kind (preferred_kind w)) as -> by (by destruct k, (preferred_kind w)). rewrite other_other in Hj. by apply (Hd i).
Qed.

End one.

(** ** One side against the other *)
Section sides.
Variables w w' : Identity.
Variables lu lu' : option Url.
Variables sr sr' : SpaceRelays R.
Context (Hpair : their_id w = my_id w' /\ my_id w = their_id w' /\ my_id w <> my_id w' /\ their_url w = my_url w' /\ my_url w = their_url w').
Context (Hquic : quic_answers open_uni write_all) (Hlimit : limit <= 2 ^ 32 + 4).
Context (Hready : side_ready w lu sr) (Hready' : side_ready w' lu' sr').
#[local] Set Default Proof Using "Type*".
#[local] Abbreviation inv := (side_inv limit w lu sr).
#[local] Abbreviation inv' := (side_inv limit w' lu' sr').

Lemma kinds_opposite : preferred_kind w' = other_kind (preferred_kind w).
Proof.
  destruct Hpair as (H1 & H2 & H3 & _). unfold preferred_kind. rewrite <- H1, <- H2.
  destruct (Z.ltb_spec (my_id w) (their_id w)), (Z.ltb_spec (their_id w) (my_id w)); try done; lia.
Qed.

Lemma peer_ok peer k : inv' peer -> peer_writes limit w parse k peer /\ peer_closes w k peer.
Proof.
  intros Hpeer. destruct Hpair as (_ & _ & _ & Hu & _). split.
  - intros theirs Ht. destruct (context_written w' lu' sr' Hlimit Hready' _ _ _ Hpeer Ht) as [?|Hw]; [by left|right].
    destruct (wrote_read w' lu' sr' Hlimit Hready' _ Hw) as [pf Hr]. exists pf, []. by rewrite Hu.
  - intros theirs Ht. pose proof (closes_told w' lu' sr' Hlimit Hready' _ _ _ Hpeer Ht) as Hc.
    destruct (close_reason theirs) as [[code reason| |]|]; [|done..]. destruct Hc as [Hk ->]. split; [|done].
    rewrite kinds_opposite in Hk. by destruct k, (preferred_kind w).
Qed.

(** A step keeps the invariant, whatever the other side has done. *)
Lemma step_inv now ev me peer me' : inv me -> inv' peer ->
  side_step parse open_uni write_all limit w now ev peer me = Some me' -> inv me'.
Proof.
  intros Hme Hpeer. destruct Hready as (Hh & Hown & _). destruct ev as [| | |k|k|k|k|k|k]; cbn [side_step].
  - by eapply dial_keeps.
  - by eapply send_keeps.
  - by eapply accept_keeps.
  - eapply receive_keeps; [done..|by apply peer_ok|done].
  - by eapply return_keeps.
  - by eapply activate_keeps.
  - eapply close_keeps; [done..|by apply peer_ok|done].
  - by eapply stops_keeps.
  - by eapply cleanup_keeps.
Qed.

(** ** When there is nothing more to do *)
Definition stuck me peer : Prop := forall now ev, side_step parse open_uni write_all limit w now ev peer me = None.

Lemma stuck_ctx me peer k : inv me -> stuck me peer -> exists c, context_of k me = Some c.
Proof.
  intros (A & En & ch & cs & Hn & Hq & He) Hst.
  assert (forall k, e_ctx (end_of k me) = None -> fresh_end (end_of k me)) as Hf.
  { intros k' Hk'. destruct He as (Hg & Hb & _). unfold good_end, bad_end, end_inv in *.
    destruct (decide (k' = preferred_kind w)) as [->|Hne]; [by rewrite Hk' in Hg|].
    assert (k' = other_kind (preferred_kind w)) as -> by (by destruct k', (preferred_kind w)). by rewrite Hk' in Hb. }
  destruct (e_ctx (end_of k me)) as [i|] eqn:Hi.
  - unfold context_of. rewrite Hi, Hn. cbn. destruct (decide (k = preferred_kind w)) as [->|Hne].
    + destruct (good_inv limit w _ _ _ _ _ He Hi) as (c & Hc & _). by exists c.
    + assert (k = other_kind (preferred_kind w)) as -> by (by destruct k, (preferred_kind w)).
      destruct (bad_inv limit w _ _ _ _ _ He Hi) as (c & Hc & _). by exists c.
  - exfalso. destruct (Hf k Hi) as [Hr Hd]. destruct k; cbn in *.
    + specialize (Hst 0 EvDial). cbn [side_step] in Hst. unfold dial_step in Hst. rewrite Hi, Hd in Hst.
      by destruct (dial_register _ _ _ _ _) as [[[i [[own pf]|]]|e|e] n].
    + specialize (Hst 0 EvAccept). cbn [side_step] in Hst. unfold accept_step in Hst. by rewrite Hi in Hst.
Qed.

Lemma stuck_dial me peer own pf i : stuck me peer -> e_ctx (sd_dialed me) = Some i -> e_dial (sd_dialed me) = DialToSend own pf -> False.
Proof. intros Hst Hi Hd. specialize (Hst 0 EvSend). cbn [side_step] in Hst. unfold send_step in Hst. by rewrite Hi, Hd in Hst. Qed.

Lemma stuck_closed me peer k c : stuck me peer -> context_of k me = Some c ->
  e_read (end_of k me) = ReadWaiting \/ e_read (end_of k me) = ReadServing -> close_reason c = None.
Proof.
  intros Hst Hc Hr. specialize (Hst 0 (EvReaderStops k)). cbn [side_step] in Hst. unfold reader_stops in Hst.
  rewrite Hc in Hst. cbn in Hst. destruct (close_reason c); [|done]. by destruct Hr as [Hr|Hr]; rewrite Hr in Hst.
Qed.

Lemma stuck_unread me peer k c theirs : inv me -> inv' peer -> stuck me peer -> context_of k me = Some c ->
  e_read (end_of k me) = ReadWaiting -> context_of (other_kind k) peer = Some theirs -> written theirs = [].
Proof.
  intros Hme Hpeer Hst Hc Hr Ht. destruct (peer_ok peer k Hpeer) as [Hw _]. destruct (Hw theirs Ht) as [?|(pf & rest & Er)]; [done|].
  specialize (Hst 0 (EvReceive k)). cbn [side_step] in Hst. unfold receive_step in Hst.
  destruct Hready as (Hh & Hown & _). destruct Hme as (A & En & ch & cs & Hn & _).
  unfold context_of in Hc. destruct (e_ctx (end_of k me)) as [i|]; [|done]. rewrite Hn in Hc. cbn in Hc.
  rewrite Hr, Ht in Hst. destruct (written theirs) as [|f fs]; [done|]. rewrite Er, string_of_bytes_of_string, Hn in Hst.
  rewrite (receive_eq lu sr w limit Hh Hown A En ch cs i c _ pf Hc) in Hst. unfold on_registry in Hst.
  by destruct (register_candidate _ _ _) as [[] r].
Qed.

Lemma stuck_read me peer k c : inv me -> stuck me peer -> context_of k me = Some c ->
  e_read (end_of k me) = ReadWaiting \/ e_read (end_of k me) = ReadServing \/ e_read (end_of k me) = ReadGone.
Proof.
  intros Hme Hst Hc. destruct (context_inv w lu sr Hlimit Hready _ _ _ Hme Hc) as (i & Hi & Hinv).
  destruct Hready as (Hh & Hown & _). pose proof Hme as (A & En & ch & cs & Hn & _).
  assert (A !! i = Some c) as HA by (unfold context_of in Hc; by rewrite Hi, Hn in Hc).
  destruct (e_read (end_of k me)) as [|url|url| |exit|] eqn:Hr; [by left| | |by right; left| |by right; right].
  - exfalso. specialize (Hst 0 (EvReturn k)). cbn [side_step] in Hst. unfold return_step in Hst. rewrite Hi, Hr, Hn in Hst.
    assert (url = their_url w) as ->.
    { destruct Hinv as [[_ (_ & _ & _ & Hg & _)]|[_ (_ & _ & _ & _ & _ & _ & Hb & _)]]; rewrite Hr in *; [by destruct Hg|done]. }
    destruct (preflight_sent c) eqn:Hs.
    + by rewrite (return_sent lu sr w open_uni write_all limit Hh Hquic Hown A En ch cs i c _ HA Hs) in Hst.
    + destruct (decide (close_reason c = None)) as [Hcl|Hcl].
      * destruct (return_open lu sr w open_uni write_all limit Hh Hquic Hown A En ch cs i c HA Hs Hcl) as (pf & f & _ & E).
        by rewrite E in Hst.
      * destruct (return_closed lu sr w open_uni write_all limit Hh Hquic Hown A En ch cs i c HA Hs Hcl) as (e & b & E).
        by rewrite E in Hst.
  - exfalso. specialize (Hst 0 (EvActivate k)). cbn [side_step] in Hst. unfold activate_step in Hst. rewrite Hi, Hr in Hst.
    by destruct (on_registry _ _) as [[[]|e|e] n].
  - exfalso. specialize (Hst 0 (EvCleanup k)). cbn [side_step] in Hst. unfold cleanup_step in Hst. by rewrite Hi, Hr in Hst.
Qed.

Lemma stuck_no_close me peer k c theirs code reason : stuck me peer -> context_of k me = Some c ->
  context_of (other_kind k) peer = Some theirs -> close_reason theirs = Some (LocallyClosed code reason) -> close_reason c <> None.
Proof.
  intros Hst Hc Ht Hl Hn. specialize (Hst 0 (EvCloseArrives k)). cbn [side_step] in Hst. unfold close_arrives in Hst.
  rewrite Hc, Ht in Hst. unfold context_of in Hc. destruct (e_ctx (end_of k me)); [|done]. by rewrite Hn, Hl in Hst.
Qed.

(** The other connection is at its end when the slot is the preferred one's. *)
Lemma bad_ended me peer d : inv me -> stuck me peer -> e_read (end_of (preferred_kind w) me) = ReadServing ->
  context_of (other_kind (preferred_kind w)) me = Some d -> remote_url d = Some (their_url w) ->
  state_live (cc_lifecycle d) = false /\ close_reason d <> None.
Proof.
  intros Hme Hst Hserv Hd Hu. pose proof (stuck_read _ _ _ _ Hme Hst Hd) as Hr.
  destruct (stuck_ctx me peer (preferred_kind w) Hme Hst) as [c Hc].
  destruct (context_inv w lu sr Hlimit Hready _ _ _ Hme Hc) as (p & Hp & [[_ Hg]|[Hx _]]); [|symmetry in Hx; by apply other_ne in Hx].
  destruct (context_inv w lu sr Hlimit Hready _ _ _ Hme Hd) as (q & Hq & [[Hx _]|[_ Hb]]); [by apply other_ne in Hx|].
  destruct Hg as (_ & _ & _ & Hg & _). rewrite Hserv in Hg. destruct Hg as (_ & Hslot & _).
  destruct Hb as (_ & _ & _ & Hlive & _ & Hdead & _). destruct (state_live (cc_lifecycle d)) eqn:Hl.
  - specialize (Hlive eq_refl Hu). assert (p = q) as -> by congruence. by destruct (inv_distinct w lu sr Hlimit Hready _ Hme _ _ Hp).
  - split; [done|]. destruct (Hdead eq_refl) as [_ [?|[x Hx]]]; [done|]. rewrite Hx in Hr. by destruct Hr as [?|[?|?]].
Qed.

Lemma good_read me peer : inv me -> stuck me peer ->
  exists p c, e_ctx (end_of (preferred_kind w) me) = Some p /\ context_of (preferred_kind w) me = Some c /\
    good_ctx limit w (preferred_kind w) (entries (registry (sd_node me))) p (end_of (preferred_kind w) me) c /\
    (e_read (end_of (preferred_kind w) me) = ReadWaiting \/ e_read (end_of (preferred_kind w) me) = ReadServing).
Proof.
  intros Hme Hst. destruct (stuck_ctx me peer (preferred_kind w) Hme Hst) as [c Hc].
  destruct (context_inv w lu sr Hlimit Hready _ _ _ Hme Hc) as (p & Hp & [[_ Hg]|[Hx _]]); [|symmetry in Hx; by apply other_ne in Hx].
  exists p, c. split_and!; [done..|]. destruct (stuck_read _ _ _ _ Hme Hst Hc) as [?|[?|Hr]]; [by left|by right|].
  destruct Hg as (_ & _ & _ & Hg & _). by rewrite Hr in Hg.
Qed.

(** A side that dials the preferred connection has sent its preflight. *)
Lemma dialed_wrote me peer c : inv me -> stuck me peer -> preferred_kind w = Dialed ->
  context_of Dialed me = Some c -> wrote limit w (written c).
Proof.
  intros Hme Hst Hk Hc. destruct (context_inv w lu sr Hlimit Hready _ _ _ Hme Hc) as (p & Hp & [[_ Hg]|[Hx _]]);
    [|rewrite Hk in Hx; by cbn in Hx].
  destruct Hg as (_ & _ & _ & _ & Hd & Hw). unfold dial_ok in Hd. destruct (e_dial (end_of Dialed me)) as [|own pf|] eqn:Hdl; [done| |by apply Hw].
  exfalso. by eapply stuck_dial.
Qed.
End sides.

(** ** The two sides together *)
Section both.
Context (Hquic : quic_answers open_uni write_all) (Hlimit : limit <= 2 ^ 32 + 4).
#[local] Abbreviation pair w w' :=
  (their_id w = my_id w' /\ my_id w = their_id w' /\ my_id w <> my_id w' /\ their_url w = my_url w' /\ my_url w = their_url w').
#[local] Set Default Proof Using "Type*".

Lemma pair_sym w w' : pair w w' -> pair w' w.
Proof. intros (H1 & H2 & H3 & H4 & H5). by split_and!. Qed.

Lemma wrote_ne w fs : wrote limit w fs -> fs <> [].
Proof. by intros (? & ? & -> & _). Qed.

Lemma serving_both w w' lu lu' sr sr' me peer : pair w w' -> side_ready w lu sr -> side_ready w' lu' sr' ->
  preferred_kind w = Accepted -> side_inv limit w lu sr me -> side_inv limit w' lu' sr' peer ->
  stuck w me peer -> stuck w' peer me ->
  e_read (end_of Accepted me) = ReadServing /\ e_read (end_of Dialed peer) = ReadServing.
Proof.
  intros Hpair Hr Hr' Hk Hme Hpeer Hst Hst'.
  pose proof (kinds_opposite w w' lu lu' sr sr' Hpair Hlimit Hr Hr') as Hk'. rewrite Hk in Hk'. cbn in Hk'.
  pose proof (pair_sym _ _ Hpair) as Hpair'.
  destruct (good_read w w' lu lu' sr sr' Hpair Hquic Hlimit Hr Hr' me peer Hme Hst) as (p & c & Hp & Hc & Hg & Hread).
  destruct (good_read w' w lu' lu sr' sr Hpair' Hquic Hlimit Hr' Hr peer me Hpeer Hst') as (p' & c' & Hp' & Hc' & Hg' & Hread').
  rewrite Hk in *. rewrite Hk' in *.
  assert (e_read (end_of Accepted me) = ReadServing) as Hserv.
  { destruct Hread as [Hw|?]; [exfalso|done].
    pose proof (dialed_wrote w' w lu' lu sr' sr Hpair' Hquic Hlimit Hr' Hr peer me c' Hpeer Hst' Hk' Hc') as Hwr.
    apply wrote_ne in Hwr. by apply Hwr, (stuck_unread w w' lu lu' sr sr' Hpair Hquic Hlimit Hr Hr' me peer Accepted c c'). }
  split; [done|]. destruct Hread' as [Hw|?]; [exfalso|done].
  destruct Hg as (_ & _ & _ & Hg & _ & Hwr). rewrite Hserv in Hg. destruct Hg as (_ & _ & Hs).
  destruct Hwr as [[? _]|[_ Hwr]]; [congruence|]. apply wrote_ne in Hwr.
  by apply Hwr, (stuck_unread w' w lu' lu sr' sr Hpair' Hquic Hlimit Hr' Hr peer me Dialed c' c).
Qed.

(** The state of the preferred connection, once it serves. *)
Lemma serving_active w w' lu lu' sr sr' me peer : pair w w' -> side_ready w lu sr -> side_ready w' lu' sr' ->
  side_inv limit w lu sr me -> stuck w me peer -> e_read (end_of (preferred_kind w) me) = ReadServing ->
  exists p c, e_ctx (end_of (preferred_kind w) me) = Some p /\ context_of (preferred_kind w) me = Some c /\
    cc_lifecycle c = Active /\ entries (registry (sd_node me)) !! their_url w = Some p.
Proof.
  intros Hpair Hr Hr' Hme Hst Hserv.
  destruct (good_read w w' lu lu' sr sr' Hpair Hquic Hlimit Hr Hr' me peer Hme Hst) as (p & c & Hp & Hc & (_ & _ & _ & Hg & _) & _).
  rewrite Hserv in Hg. destruct Hg as (Ha & Hs & _). by exists p, c.
Qed.

Lemma settled_pair w w' lu lu' sr sr' me peer : pair w w' -> side_ready w lu sr -> side_ready w' lu' sr' ->
  preferred_kind w = Accepted -> side_inv limit w lu sr me -> side_inv limit w' lu' sr' peer ->
  closes_ok me peer -> stuck w me peer -> stuck w' peer me -> settled w me /\ settled w' peer.
Proof.
  intros Hpair Hr Hr' Hk Hme Hpeer Hcl Hst Hst'. pose proof (pair_sym _ _ Hpair) as Hpair'.
  pose proof (kinds_opposite w w' lu lu' sr sr' Hpair Hlimit Hr Hr') as Hk'. rewrite Hk in Hk'. cbn in Hk'.
  destruct (serving_both w w' lu lu' sr sr' me peer) as [Hserv Hserv']; [done..|].
  destruct (serving_active w w' lu lu' sr sr' me peer) as (p & c & Hp & Hc & Ha & Hs); [done..|by rewrite Hk|].
  destruct (serving_active w' w lu' lu sr' sr peer me) as (p' & c' & Hp' & Hc' & Ha' & Hs'); [done..|by rewrite Hk'|].
  destruct (stuck_ctx w w' lu lu' sr sr' Hpair Hquic Hlimit Hr Hr' me peer Dialed Hme Hst) as [d Hd].
  destruct (stuck_ctx w' w lu' lu sr' sr Hpair' Hquic Hlimit Hr' Hr peer me Accepted Hpeer Hst') as [d' Hd'].
  assert (state_live (cc_lifecycle d) = false /\ close_reason d <> None) as [Hdl Hdc].
  { apply (bad_ended w w' lu lu' sr sr' Hpair Hquic Hlimit Hr Hr' me peer); [done|done|by rewrite Hk|by rewrite Hk|].
    destruct (context_inv w lu sr Hlimit Hr _ _ _ Hme Hd) as (i & _ & [[Hx _]|[_ (_ & _ & Hu & _)]]); [by rewrite Hk in Hx|].
    by destruct Hu as [?|(_ & ? & _)]. }
  destruct (context_inv w' lu' sr' Hlimit Hr' _ _ _ Hpeer Hd') as (j & Hj & [[Hx _]|[_ Hb]]); [by rewrite Hk' in Hx|].
  assert (state_live (cc_lifecycle d') = false /\ close_reason d' <> None) as [Hdl' Hdc'].
  { destruct Hb as (_ & _ & [Hu|(_ & _ & _ & Hrd)] & _ & _ & _ & Hgone & _).
    { apply (bad_ended w' w lu' lu sr' sr Hpair' Hquic Hlimit Hr' Hr peer me); [done|done|by rewrite Hk'|by rewrite Hk'|done]. }
    destruct (stuck_read w' w lu' lu sr' sr Hpair' Hquic Hlimit Hr' Hr peer me Accepted d' Hpeer Hst' Hd') as [Hrd'|[Hrd'|Hrd']];
      rewrite Hrd' in *; [|done|done]. exfalso.
    pose proof (stuck_closed w' w lu' lu sr' sr Hpair' Hquic Hlimit Hr' Hr peer me Accepted d' Hst' Hd' (or_introl Hrd')) as Hn.
    destruct (context_inv w lu sr Hlimit Hr _ _ _ Hme Hd) as (i & _ & [[Hx _]|[_ (_ & Hcd & _)]]); [by rewrite Hk in Hx|].
    destruct (close_reason d) as [[code reason|code reason|]|] eqn:Hcr; [| |done|done].
    - by apply (stuck_no_close w' w lu' lu sr' sr Hpair' Hquic Hlimit Hr' Hr peer me Accepted d' d code reason Hst' Hd' Hd Hcr).
    - destruct (Hcl Dialed d code reason Hd) as (x & Hx & Hxl); [unfold remote_close_reason; by rewrite Hcr|].
      cbn in Hx. congruence. }
  split; [exists p, c, d; rewrite Hk in *; by split_and!|]. exists p', c', d'. rewrite Hk' in *. by split_and!.
Qed.
End both.

(** ** Every execution ends *)
Definition closed_rank k sd : nat := match context_of k sd ≫= close_reason with Some _ => 0 | None => 1 end.
Definition side_rank sd : nat :=
  end_rank (end_of Dialed sd) + end_rank (end_of Accepted sd) + closed_rank Dialed sd + closed_rank Accepted sd.

Lemma closed_rank_le k sd sd' : (forall c, context_of k sd = Some c -> exists c', context_of k sd' = Some c' /\
    (close_reason c <> None -> close_reason c' = close_reason c)) -> (closed_rank k sd' <= closed_rank k sd)%nat.
Proof.
  intros Hk. unfold closed_rank. destruct (context_of k sd) as [c|]; cbn.
  - destruct (Hk c eq_refl) as (c' & -> & Hc). cbn. destruct (close_reason c) as [r|]; [|by destruct (close_reason c'); lia].
    rewrite Hc; [lia|done].
  - destruct (_ ≫= _); lia.
Qed.

Lemma side_rank_decreases w now ev peer sd sd' : side_step parse open_uni write_all limit w now ev peer sd = Some sd' ->
  (side_rank sd' < side_rank sd)%nat.
Proof.
  intros [(k & _ & Hcomes)|[k Hm]]%step_shape.
  - assert (forall k', closed_rank k' sd' <= closed_rank k' sd)%nat as Hle by (intros k'; apply closed_rank_le; by eapply context_close).
    pose proof (Hle Dialed). pose proof (Hle Accepted).
    destruct Hcomes as (i & mine & theirs & code & reason & Hi & Hmi & Hcl & _ & _ & HA & He).
    assert (closed_rank k sd' < closed_rank k sd)%nat as Hlt.
    { unfold closed_rank, context_of. rewrite He, Hi. cbn. fold (arcs_of sd) (arcs_of sd'). rewrite HA, Hmi, (look _ _ _ _ Hmi). cbn.
      rewrite Hcl. lia. }
    unfold side_rank. rewrite !He. destruct k; lia.
  - assert (forall k', closed_rank k' sd' <= closed_rank k' sd)%nat as Hle.
    { intros k'. apply closed_rank_le. intros c Hc. destruct (context_moves _ _ _ Hm k' c Hc) as (c' & Hc' & Hk & _). by exists c'. }
    pose proof (Hle Dialed). pose proof (Hle Accepted). destruct Hm as (e' & n & -> & _ & Hlt & _).
    unfold side_rank. destruct k; cbn in *; lia.
Qed.

Lemma sys_terminates s : Acc (fun s' s => sys_step s s') s.
Proof.
  apply (well_founded_lt_compat _ (fun s => side_rank s.1 + side_rank s.2)%nat). intros s1 s2 Hs.
  destruct Hs as [now ev a b a' E|now ev a b b' E]; apply side_rank_decreases in E; cbn; lia.
Qed.

(** ** The theorem *)
Lemma start_inv w lu sr : side_inv limit w lu sr (start lu sr).
Proof.
  exists [], ∅, 0, []. split_and!; [done|constructor|].
  assert (forall k, end_of k (start lu sr) = MkEnd None DialPending ReadWaiting) as He by by intros [].
  rewrite !He. split_and!; done.
Qed.

Definition sys_inv (s : Side R * Side R) : Prop :=
  side_inv limit wa lua sra s.1 /\ side_inv limit wb lub srb s.2 /\ closes_ok s.1 s.2 /\ closes_ok s.2 s.1.

Context (Hquic : quic_answers open_uni write_all) (Hlimit : limit <= 2 ^ 32 + 4).
Context (Ha : side_ready wa lua sra) (Hb : side_ready wb lub srb) (Hab : acquainted).
#[local] Set Default Proof Using "Type*".

Lemma acquainted_pair : their_id wa = my_id wb /\ my_id wa = their_id wb /\ my_id wa <> my_id wb /\
  their_url wa = my_url wb /\ my_url wa = their_url wb.
Proof. destruct Hab as (H1 & H2 & H3 & H4 & H5). by split_and!. Qed.

Lemma sys_step_inv s s' : sys_inv s -> sys_step s s' -> sys_inv s'.
Proof.
  pose proof acquainted_pair as Hp. pose proof (pair_sym _ _ Hp) as Hp'.
  intros (Hia & Hib & Hca & Hcb) Hs. destruct Hs as [now ev a b a' E|now ev a b b' E]; cbn in *.
  - split_and!; cbn; [|done| |].
    + by eapply (step_inv wa wb lua lub sra srb).
    + eapply closes_me; [exact E|by eapply (inv_distinct wa lua sra)|done].
    + by eapply closes_peer.
  - split_and!; cbn; [done| | |].
    + by eapply (step_inv wb wa lub lua srb sra).
    + by eapply closes_peer.
    + eapply closes_me; [exact E|by eapply (inv_distinct wb lub srb)|done].
Qed.

(** C5: Two peers that dial each other at the same time end with one
    connection, whatever the order of their tasks: no execution goes on for
    ever; the connection that both prefer is never closed, and the handlers
    hear of no disconnect and no unresponsive peer on the way; and when
    nothing is left to do both hold that connection, active, in the slot of
    the other, and the second one is closed at both ends. *)
Theorem simultaneous_open_converges s : rtc sys_step (start lua sra, start lub srb) s ->
  Acc (fun s' s => sys_step s s') s /\
  (forall c, connection_at (preferred_kind wa) s.1 c \/ connection_at (preferred_kind wb) s.2 c ->
     state_live (cc_lifecycle c) = true /\ close_reason c = None) /\
  Forall quiet (calls (sd_node s.1)) /\ Forall quiet (calls (sd_node s.2)) /\
  ((forall s', ~ sys_step s s') -> settled wa s.1 /\ settled wb s.2).
Proof.
  intros Hs. pose proof acquainted_pair as Hp. pose proof (pair_sym _ _ Hp) as Hp'.
  assert (sys_inv s) as (Hia & Hib & Hca & Hcb).
  { assert (sys_inv (start lua sra, start lub srb)) as H0.
    { split_and!; [apply start_inv..| |]; intros [] c code reason; done. }
    revert Hs H0. induction 1 as [|s1 s2 s3 H12 _ IH]; [done|]. intros H1. apply IH. by eapply sys_step_inv. }
  split_and!.
  - apply sys_terminates.
  - intros c [Hc|Hc].
    + destruct (context_inv wa lua sra Hlimit Ha _ _ _ Hia Hc) as (p & _ & [[_ Hg]|[Hx _]]); [|symmetry in Hx; by apply other_ne in Hx].
      split; [by eapply good_live|by apply Hg].
    + destruct (context_inv wb lub srb Hlimit Hb _ _ _ Hib Hc) as (p & _ & [[_ Hg]|[Hx _]]); [|symmetry in Hx; by apply other_ne in Hx].
      split; [by eapply good_live|by apply Hg].
  - destruct Hia as (A & En & ch & cs & Hn & Hq & _). by rewrite Hn.
  - destruct Hib as (A & En & ch & cs & Hn & Hq & _). by rewrite Hn.
  - intros Hno. destruct s as [a b]. cbn in *.
    assert (stuck wa a b) as Hsa.
    { intros now ev. destruct (side_step _ _ _ _ wa now ev b a) as [a'|] eqn:E; [|done]. by destruct (Hno (a', b)); econstructor. }
    assert (stuck wb b a) as Hsb.
    { intros now ev. destruct (side_step _ _ _ _ wb now ev a b) as [b'|] eqn:E; [|done]. by destruct (Hno (a, b')); econstructor. }
    destruct (preferred_kind wa) eqn:Hk.
    + pose proof (kinds_opposite wa wb lua lub sra srb Hp Hlimit Ha Hb) as Hk'. rewrite Hk in Hk'.
      apply and_comm. by eapply (settled_pair Hquic Hlimit wb wa lub lua srb sra).
    + by eapply (settled_pair Hquic Hlimit wa wb lua lub sra srb).
Qed.
End system.
