(* ===== verification/IrohSend.v ===== *)
(** * What the iroh transport promises its callers

    Where data is written, and what becomes of the slots of the peers. *)
From S2P Require Import Prelude Timestamp Id Agent IrohUrl IrohFrame ConnContext.
From S2P Require Import ConnContext IrohTransport.
From S2P Require Import SimOpen.

Section send.
Context {R : Type} `{RelayUrls R} `{TxHandler}.
Variable parse : string -> res ParsedUrl.
Variable endpoint_id_from_str : string -> res string.
Variable open_uni : ConnectionContext -> res unit.
Variable write_all : ConnectionContext -> bytes -> res unit.
Variable limit : Z.
Implicit Types (n : Node R) (i : nat).

Definition arcs_at n : list ConnectionContext := arcs (registry n).
Definition slot n (url : Url) : option nat := entries (registry n) !! url.

(** What has been written on the connections stays as it is. *)
Definition same_written n n' : Prop := (written <$> arcs_at n) = (written <$> arcs_at n').

(** A frame of [data] was written on connection [i], which held the slot of
    [url] and was active. *)
Definition wrote_on url (data : bytes) i n n' : Prop := exists c frame,
  arcs_at n !! i = Some c /\ cc_lifecycle c = Active /\ slot n url = Some i /\
  encode_frame (FData data) limit = Ok frame /\
  (written <$> arcs_at n') = <[i := written c ++ [frame]]> (written <$> arcs_at n).

Lemma same_written_context i f n : (forall c, written (f c) = written c) -> same_written n (on_context (R := R) i f n).2.
Proof.
  intros Hf. unfold same_written, arcs_at. cbn. apply list_eq. intros j. rewrite !list_lookup_fmap.
  destruct (decide (i = j)) as [->|Hij]; [rewrite list_lookup_alter_eq|by rewrite list_lookup_alter_ne].
  destruct (arcs (registry n) !! j); cbn; [by rewrite Hf|done].
Qed.

Lemma start_wait_written url i deadline now n : same_written n (start_wait url i deadline now n).2.
Proof. unfold start_wait. destruct (_ <=? _); [|done]. unfold bind, on_registry, remove_if_current. by case_bool_decide. Qed.

Lemma wait_turn_written url i deadline now n : same_written n (wait_turn url i deadline now n).2.
Proof.
  unfold wait_turn, bind at 1, get. destruct (replacement_for url i (registry n)); [done|].
  destruct (_ <=? _); [|done]. unfold bind, on_registry, remove_if_current. by case_bool_decide.
Qed.

Lemma set_stream_written n i c b w : arcs_at n !! i = Some c ->
  (written <$> arcs_at (on_context (R := R) i (set_stream b w) n).2) = <[i := w]> (written <$> arcs_at n).
Proof.
  intros Hc. unfold arcs_at in *. cbn. apply list_eq. intros j. rewrite list_lookup_fmap.
  destruct (decide (i = j)) as [->|Hij].
  - rewrite list_lookup_alter_eq, Hc. cbn. rewrite list_lookup_insert_eq; [done|]. rewrite length_fmap. by eapply lookup_lt_Some.
  - rewrite list_lookup_alter_ne, list_lookup_insert_ne by done. by rewrite list_lookup_fmap.
Qed.

(** [send_data_frame] writes one frame, or nothing. *)
Lemma send_data_written i data n c : arcs_at n !! i = Some c ->
  match send_data_frame open_uni write_all limit i data n with
  | (Ok _, n') => exists frame, encode_frame (FData data) limit = Ok frame /\
      (written <$> arcs_at n') = <[i := written c ++ [frame]]> (written <$> arcs_at n)
  | (Err _, n') => same_written n n'
  | (Panic _, _) => True
  end.
Proof.
  destruct n as [[A En ch] cs lu sr]. unfold arcs_at, same_written. cbn [registry arcs]. intros Hc.
  change (MkNode (MkRegistry A En ch) cs lu sr) with (mk lu sr A En ch cs).
  assert (forall c', written c' = written c -> (written <$> <[i := c']> A) = (written <$> A)) as Hsame.
  { intros c' Hw. rewrite list_fmap_insert, Hw. apply list_insert_id. by rewrite list_lookup_fmap, Hc. }
  unfold send_data_frame. destruct (encode_frame (FData data) limit) as [frame|e|e] eqn:Ef; [|done..].
  erewrite bind_after by reflexivity.
  assert (forall c1, arcs_at (mk lu sr (<[i := c1]> A) En ch cs) !! i = Some c1) as Hl by (intros c1; by eapply look).
  set (k := fun _ : unit => on_context (R := R) i (fun c => set_counts (wrap_u64 (send_message_count c + 1)) (wrap_u64 (send_bytes c + len data))
                           (recv_message_count c) (recv_bytes c) c)).
  assert (forall A1 c1, A1 !! i = Some c1 -> written c1 = written c -> (written <$> A1) = (written <$> A) ->
    match (write_frame write_all i frame ;;* k tt) (mk lu sr A1 En ch cs) with
    | (Ok _, n') => exists frame, True /\ encode_frame (FData data) limit = Ok frame /\
        (written <$> arcs_at n') = <[i := written c ++ [frame]]> (written <$> A)
    | (Err _, n') => (written <$> A) = (written <$> arcs_at n')
    | (Panic _, _) => True
    end) as Hwrite.
  { intros A1 c1 Hc1 Hw1 HA1. unfold write_frame. unfold bind at 1. erewrite bind_after by by apply get_ctx.
    destruct (write_all c1 frame) as [u|e|e] eqn:Ew.
    - erewrite on_ctx by exact Hc1. unfold k. erewrite on_ctx by by eapply look. rewrite ins2. exists frame. split_and!; [done..|].
      unfold arcs_at. cbn. by rewrite list_fmap_insert, HA1, Hw1.
    - erewrite bind_after by by erewrite on_ctx by exact Hc1. cbn. unfold arcs_at. cbn. rewrite list_fmap_insert, HA1. symmetry.
      apply list_insert_id. rewrite list_lookup_fmap, Hc. cbn. by rewrite Hw1.
    - done. }
  unfold ensure_send_stream. unfold bind at 1. erewrite bind_after by by apply get_ctx. destruct (send_stream c).
  - specialize (Hwrite A c Hc eq_refl eq_refl). cbn [ret]. fold (k tt). unfold k in *.
    destruct ((write_frame _ _ _ ;;* _) _) as [[u|e|e] n']; [|done..]. destruct Hwrite as (f & _ & Hf1 & Hf2). exists f. split; [congruence|exact Hf2].
  - destruct (open_uni c) as [u|e|e]; [|done..]. erewrite bind_after by reflexivity. erewrite on_ctx by exact Hc.
    specialize (Hwrite (<[i := set_stream true (written c) c]> A) (set_stream true (written c) c) (look _ _ _ _ Hc) eq_refl (Hsame (set_stream true (written c) c) eq_refl)).
    unfold k in *. destruct ((write_frame _ _ _ ;;* _) _) as [[u'|e|e] n']; [|done..]. destruct Hwrite as (f & _ & Hf1 & Hf2). exists f. split; [congruence|exact Hf2].
Qed.

Lemma same_trans n1 n2 n3 : same_written n1 n2 -> same_written n2 n3 -> same_written n1 n3.
Proof. unfold same_written. congruence. Qed.

Lemma start_wait_result url i deadline now n s' n' : start_wait url i deadline now n = (Ok s', n') -> s' <> SendDone (Ok tt).
Proof.
  unfold start_wait. destruct (_ <=? _); [|by intros [= <- _]]. unfold bind, on_registry.
  destruct (remove_if_current _ _ _). by intros [= <- _].
Qed.

Lemma wait_turn_result url i deadline now n s' n' : wait_turn url i deadline now n = (Ok s', n') -> s' <> SendDone (Ok tt).
Proof.
  unfold wait_turn, bind at 1, get. destruct (replacement_for url i (registry n)); [by intros [= <- _]|].
  destruct (_ <=? _); [|by intros [= <- _]]. unfold bind, on_registry. destruct (remove_if_current _ _ _). by intros [= <- _].
Qed.


(** ** The URL of a preflight

    Neither the dialer nor the acceptor compares the URL that the peer shows in
    its preflight with the URL that was dialed, or with the endpoint that QUIC
    has authenticated. *)

(** What the reader does with a preflight, up to the next stream. *)
Lemma exchange_ok A En ch cs lu sr i c url preflight stream : A !! i = Some c -> cc_lifecycle c = Pending ->
  preflight_received c = false -> preflight_sent c = true -> En !! url = None ->
  (forall cs u b, on_recv_data cs u b = Ok tt) ->
  read_preflight_frame_from_stream (read_url parse) limit stream = (Ok (bytes_of_string url, preflight), []) ->
  exists ch', run_reader_loop parse open_uni write_all limit i [IncomingStream stream None] (mk lu sr A En ch cs) =
    (Ok None, mk lu sr (<[i := set_state Active (set_preflight true true (set_remote_url url c))]> A) (<[url := i]> En) ch'
                (cs ++ [CallRecvData url preflight])).
Proof.
  intros Hc Hp Hrecv Hsent Hslot Hh Hread. set (c1 := set_preflight true true (set_remote_url url c)).
  destruct (register_free lu sr (<[i := c1]> A) En ch (cs ++ [CallRecvData url preflight]) url i c1) as [ch' Ereg];
    [by eapply look|by cbn; rewrite Hp|by left|].
  exists ch'. set (N := mk lu sr (<[i := set_state Active c1]> A) (<[url := i]> En) ch' (cs ++ [CallRecvData url preflight])).
  cbn [run_reader_loop]. rewrite (bind_after _ _ _ None N); [done|]. unfold reader_turn.
  enough (handle_incoming_stream parse open_uni write_all limit i stream None (mk lu sr A En ch cs) = (Ok true, N)) as -> by done.
  unfold handle_incoming_stream. erewrite bind_after by by apply get_ctx. rewrite Hrecv.
  rewrite (bind_after _ _ _ (true, []) N); [done|].
  unfold exchange_preflight. rewrite bool_decide_eq_false_2 by done. fold (read_url parse). rewrite Hread.
  erewrite bind_after by reflexivity.
  cbv beta iota zeta. rewrite string_of_bytes_of_string.
  erewrite bind_after with (a := true).
  2:{ unfold receive_preflight. erewrite bind_after by by erewrite on_ctx by exact Hc.
      erewrite bind_after by (apply call_ok, Hh). rewrite bool_decide_eq_false_2 by done.
      erewrite bind_after by (erewrite on_ctx by (by eapply look); reflexivity). rewrite ins2. cbn [preflight_sent set_remote_url].
      rewrite Hsent. exact Ereg. }
  cbn [negb]. rewrite (bind_after _ _ _ tt (mk lu sr (<[i := c1]> A) (<[url := i]> En) ch' (cs ++ [CallRecvData url preflight]))).
  2:{ unfold return_preflight. erewrite bind_after by (apply get_ctx; by eapply look). reflexivity. }
  rewrite (bind_after _ _ _ true N); [done|]. unfold N. rewrite <- (ins2 A i c1 (set_state Active c1)).
  apply activate_holder; [by eapply look|apply lookup_insert_eq|by cbn; rewrite Hp].
Qed.

Lemma stats_panic n l url i c : (url, i) ∈ l -> arcs (registry n) !! i = Some c -> remote_url c ≫= peer_id = None ->
  exists e, stats_of n l = Panic e.
Proof.
  intros Hin Hc Hp. induction l as [|[u j] l IH]; [by apply elem_of_nil in Hin|]. cbn.
  apply elem_of_cons in Hin as [[= <- <-]|Hin].
  - rewrite Hc. unfold connection_stats. rewrite Hp. by eexists.
  - destruct (IH Hin) as [e ->]. destruct (arcs (registry n) !! j) as [c1|]; [|by eexists].
    unfold connection_stats. destruct (remote_url c1 ≫= peer_id); by eexists.
Qed.

(** What the preflight of a peer makes of a dialed connection: it is active
    under the URL that the preflight claims. *)
Definition taken_over (claimed : Url) (c : ConnectionContext) : ConnectionContext :=
  set_state Active (set_preflight true true (set_remote_url claimed c)).

(** The end of its reader: the URL claimed loses its slot, and only that. *)
Lemma taken_over_exit A En ch cs lu sr i c claimed err now : close_reason c = None ->
  (forall cs u, on_set_unresponsive cs u = Ok tt) ->
  A !! i = Some (taken_over claimed c) -> En !! claimed = Some i ->
  cleanup_after_exit i (MkExit err true) now (mk (R := R) lu sr A En ch cs) =
    (Ok tt, mk lu sr (<[i := close_connection CodeUnspecified err (set_state Closed (taken_over claimed c))]> A)
       (delete claimed En) ch ((cs ++ [CallSetUnresponsive claimed now]) ++ [CallPeerDisconnect claimed (Some err)])).
Proof using Type*.
  intros Hcl Hun Hi Hs. unfold cleanup_after_exit.
  erewrite bind_after by by apply get_ctx. cbn [taken_over remote_url set_state set_preflight set_remote_url].
  erewrite bind_after by apply remove_holder. rewrite Hs, bool_decide_eq_true_2 by done.
  erewrite bind_after by by apply get_ctx.
  assert (superseded_by_remote (taken_over claimed c) = false) as ->
    by (unfold superseded_by_remote, remote_close_reason; cbn; by rewrite Hcl).
  erewrite bind_after by by apply mark_closed_ctx. cbn [taken_over cc_lifecycle set_state transition_to_terminal].
  erewrite bind_after by (apply get_ctx; by eapply look).
  assert (is_superseded (set_state Closed (taken_over claimed c)) = false /\
    remote_close_reason (set_state Closed (taken_over claimed c)) = None) as [Hsup Hrc].
  { unfold is_superseded, superseded_by_remote, remote_close_reason. cbn. by rewrite Hcl. }
  fold (taken_over claimed c). rewrite Hsup, Hrc. unfold classify_exit. cbn [orb negb exit_mark_unresponsive exit_err].
  erewrite bind_after by (unfold or_log; erewrite call_ok by apply Hun; reflexivity).
  unfold disconnect_context. erewrite bind_after by (apply mark_closed_ctx; by eapply look). rewrite ins2.
  erewrite bind_after by (erewrite on_ctx by (by eapply look); reflexivity). rewrite ins2.
  erewrite bind_after by (apply get_ctx; by eapply look).
  match goal with |- context [remote_url ?d] => change (remote_url d) with (Some claimed) end. cbv beta iota.
  erewrite call_ok by reflexivity. done.
Qed.

(** A send to a URL whose slot holds a closed connection waits for it, and
    then ends well although nothing is written. *)
Lemma send_to_closed (n : Node R) dialed i id_bytes down outcome data deadline t relay :
  entries (registry n) !! dialed = Some i -> state_of (registry n) i = Some Closed ->
  endpoint_from_url endpoint_id_from_str dialed = Ok relay ->
  send_start endpoint_id_from_str open_uni write_all limit id_bytes down outcome dialed t n = (Ok (SendResolve i), n) /\
  send_turn open_uni write_all limit dialed data deadline t (SendResolve i) n = (Ok (SendDone (Ok tt)), n).
Proof using Type*.
  intros Hs Hst Hend. split.
  - unfold send_start. rewrite Hend. destruct relay as [id relay].
    erewrite bind_after by reflexivity. unfold registry_get. by rewrite Hs.
  - cbn [send_turn]. erewrite bind_after by reflexivity. by rewrite Hst.
Qed.

(** The reader that takes one stream and then the end of the connection. *)
Lemma reader_stream_then_end stream err i now (n n1 : Node R) :
  run_reader_loop parse open_uni write_all limit i [IncomingStream stream None] n = (Ok None, n1) ->
  connection_reader parse open_uni write_all limit i [IncomingStream stream None; AcceptFailed err] now n =
    cleanup_after_exit i (MkExit err true) now n1.
Proof using Type*.
  intros E. unfold connection_reader. rewrite (bind_after _ _ _ (Some (MkExit err true)) n1); [done|].
  revert E. cbn [run_reader_loop]. unfold bind.
  destruct (reader_turn _ _ _ _ _ _ _) as [[[x|]|?|?] n']; by intros [= ->].
Qed.

(** C40: A peer that answers a dial with a URL of its choice takes the slot
    of that URL, whoever it belongs to, so that data for that URL goes to the
    dialed endpoint; if the URL names no peer, the statistics of the transport
    panic while the connection lasts; and once it is gone the slot of the URL
    that was dialed still holds it, and every later send to that URL returns
    with success without writing anything. *)
Theorem reply_url_unchecked A En ch cs lu sr i c dialed claimed preflight stream err now :
  A !! i = Some c -> cc_lifecycle c = Pending -> remote_url c = Some dialed -> En !! dialed = Some i ->
  preflight_sent c = true -> preflight_received c = false -> close_reason c = None ->
  claimed <> dialed -> En !! claimed = None ->
  (forall cs u b, on_recv_data cs u b = Ok tt) -> (forall cs u, on_set_unresponsive cs u = Ok tt) ->
  read_preflight_frame_from_stream (read_url parse) limit stream = (Ok (bytes_of_string claimed, preflight), []) ->
  let n := mk lu sr A En ch cs in
  exists n1 n2,
    run_reader_loop parse open_uni write_all limit i [IncomingStream stream None] n = (Ok None, n1) /\
    slot n1 claimed = Some i /\ is_active (registry n1) i = true /\
    (peer_id claimed = None -> exists e, dump_network_stats n1 = Panic e) /\
    connection_reader parse open_uni write_all limit i [IncomingStream stream None; AcceptFailed err] now n = (Ok tt, n2) /\
    slot n2 dialed = Some i /\
    forall id_bytes down outcome data deadline t relay,
      endpoint_from_url endpoint_id_from_str dialed = Ok relay ->
      send_start endpoint_id_from_str open_uni write_all limit id_bytes down outcome dialed t n2 = (Ok (SendResolve i), n2) /\
      send_turn open_uni write_all limit dialed data deadline t (SendResolve i) n2 = (Ok (SendDone (Ok tt)), n2).
Proof.
  intros Hc Hp Hu Hdial Hsent Hrecv Hcl Hne Hfree Hh Hun Hread n. subst n.
  destruct (exchange_ok A En ch cs lu sr i c claimed preflight stream) as [ch' E]; try done.
  fold (taken_over claimed c) in E.
  set (n1 := mk lu sr (<[i := taken_over claimed c]> A) (<[claimed := i]> En) ch' (cs ++ [CallRecvData claimed preflight])) in *.
  assert (arcs (registry n1) !! i = Some (taken_over claimed c)) as Hc1 by by eapply look.
  assert (slot n1 claimed = Some i) as Hs1 by (unfold slot; cbn; apply lookup_insert_eq).
  assert (is_active (registry n1) i = true) as Ha1
    by (unfold is_active, state_of; rewrite Hc1; by apply bool_decide_eq_true_2).
  eexists n1, _. split_and!; [exact E|exact Hs1|exact Ha1| | | |].
  - intros Hpeer. unfold dump_network_stats.
    destruct (stats_panic n1 (active_entries (registry n1)) claimed i (taken_over claimed c)) as [e He]; [| |done..|].
    + unfold active_entries. apply list_elem_of_In, filter_In. split; [|done].
      apply list_elem_of_In, elem_of_map_to_list. exact Hs1.
    + done.
    + exists e. by rewrite He.
  - rewrite (reader_stream_then_end _ _ _ _ _ n1 E). by apply taken_over_exit; [..|apply lookup_insert_eq].
  - unfold slot. cbn. by rewrite lookup_delete_ne, lookup_insert_ne by done.
  - intros id_bytes down outcome data deadline t relay Hend. eapply send_to_closed; [| |done].
    + cbn. by rewrite lookup_delete_ne, lookup_insert_ne by done.
    + unfold state_of. cbn. rewrite (look _ i _ _ Hc1). done.
Qed.
End send.
