(* ===== verification/Transport.v ===== *)
(** * The transport of the API

    [api/src/transport.rs] and [protocol.rs]: the messages on the wire, their
    dispatch to the handlers of the spaces and modules, and the wrapper that
    the rest of the system sends with.  The handlers are an interface: what
    they answer may depend on all the calls so far.  The maps are listed in an
    order of their own. *)
From S2P Require Import Prelude Timestamp Id GossipProtocol Agent GossipWire PeerStore.
From S2P Require Import Access.

(** ** Messages on the wire *)
Record K2Proto : Type := MkProto { ty : Z; pdata : bytes; space_id : option bytes; module_id : option string }.

Definition wire_number (t : K2WireType) : Z :=
  match t with WUnspecified => 0 | WPreflight => 1 | WNotify => 2 | WModule => 3 | WDisconnect => 15 end.

(** The generated getter: an unknown number reads as the default. *)
Definition get_ty (p : K2Proto) : K2WireType :=
  match ty p with 1 => WPreflight | 2 => WNotify | 3 => WModule | 15 => WDisconnect | _ => WUnspecified end.

Definition proto_decode `{Message K2Proto} (b : bytes) : res K2Proto :=
  match msg_decode b with Some p => Ok p | None => Err "Failed to decode K2Proto Message" end.
Definition proto_encode `{Message K2Proto} (p : K2Proto) : res bytes :=
  match msg_encode p with Some b => Ok b | None => Err "Failed to encode K2Proto Message" end.

(** ** Handlers *)

(** The calls of the handlers: of the top one, of a space's, of a module's. *)
Inductive TxCall : Type :=
  | TopNewAddress (url : Url)
  | SpaceNewAddress (space : SpaceId) (url : Url)
  | TopPeerConnect (peer : Url)
  | SpacePeerConnect (space : SpaceId) (peer : Url)
  | ModulePeerConnect (space : SpaceId) (module : string) (peer : Url)
  | TopPeerDisconnect (peer : Url) (reason : option string)
  | SpacePeerDisconnect (space : SpaceId) (peer : Url) (reason : option string)
  | ModulePeerDisconnect (space : SpaceId) (module : string) (peer : Url) (reason : option string)
  | GatherOutgoing (peer : Url)
  | ValidateIncoming (peer : Url) (data : bytes)
  | SpaceNotify (space : SpaceId) (peer : Url) (data : bytes)
  | ModuleMsg (space : SpaceId) (module : string) (peer : Url) (data : bytes)
  | SpaceSetUnresponsive (space : SpaceId) (peer : Url) (when : Timestamp).

(** What they answer to a call: by default that all is well. *)
Class TxAnswers := {
  accepts : list TxCall -> TxCall -> res unit;
  gathers : list TxCall -> Url -> res bytes
}.

Record TxImpHnd : Type := MkTxImpHnd {
  tx : TxState;
  mod_map : gmap (SpaceId * string) unit;
  pending_space_urls : gmap SpaceId Url;
  per_space_managed : gset SpaceId;
  tx_calls : list TxCall
}.

Definition tx_new : TxImpHnd := MkTxImpHnd (MkTx ∅ ∅) ∅ ∅ ∅ [].

Section transport.
Context `{Message K2Proto} `{TxAnswers}.
Implicit Types (t : TxImpHnd) (peer : Url) (space : SpaceId).

Definition set_tx f t : TxImpHnd := MkTxImpHnd (f (tx t)) (mod_map t) (pending_space_urls t) (per_space_managed t) (tx_calls t).
Definition set_modules f t : TxImpHnd := MkTxImpHnd (tx t) (f (mod_map t)) (pending_space_urls t) (per_space_managed t) (tx_calls t).
Definition set_pending f t : TxImpHnd := MkTxImpHnd (tx t) (mod_map t) (f (pending_space_urls t)) (per_space_managed t) (tx_calls t).
Definition set_managed f t : TxImpHnd := MkTxImpHnd (tx t) (mod_map t) (pending_space_urls t) (f (per_space_managed t)) (tx_calls t).

(** A call of a handler. *)
Definition tx_call (c : TxCall) : M TxImpHnd unit := fun t =>
  (accepts (tx_calls t) c, MkTxImpHnd (tx t) (mod_map t) (pending_space_urls t) (per_space_managed t) (tx_calls t ++ [c])).
(** A call whose answer is nothing, or is only logged. *)
Definition tx_tell (c : TxCall) : M TxImpHnd unit := fun t =>
  (Ok tt, MkTxImpHnd (tx t) (mod_map t) (pending_space_urls t) (per_space_managed t) (tx_calls t ++ [c])).

Definition spaces_of t : list (SpaceId * SpaceAccess) := map_to_list (space_map (tx t)).
Definition modules_of t : list (SpaceId * string) := (map_to_list (mod_map t)).*1.

(** ** Events of the backend *)

(** The parts of [new_listening_address] for a space, between its locks. *)
Definition mark_managed space : M TxImpHnd unit := modify (set_managed (fun s => {[space]} ∪ s)).
Definition space_handler space t : bool := bool_decide (is_Some (space_map (tx t) !! space)).
Definition deliver_address (this_url : Url) space (handler : bool) : M TxImpHnd unit :=
  if handler then tx_tell (SpaceNewAddress space this_url)
  else modify (set_pending <[ space := this_url ]>).

Definition new_listening_address (this_url : Url) (for_space : option SpaceId) : M TxImpHnd unit :=
  match for_space with
  | Some space =>
      mark_managed space ;;*
      let* handler := gets (space_handler space) in
      deliver_address this_url space handler
  | None =>
      let* t := get in
      let others := List.filter (fun '(space, _) => negb (bool_decide (space ∈ per_space_managed t))) (spaces_of t) in
      tx_tell (TopNewAddress this_url) ;;*
      for_each others (fun '(space, _) => tx_tell (SpaceNewAddress space this_url))
  end.

Definition unmark_per_space_managed space : M TxImpHnd unit := modify (set_managed (fun s => s ∖ {[space]})).

(** Whether some space has local agents, when there are spaces. *)
Definition any_local_agents (l : list (SpaceId * SpaceAccess)) : bool := existsb (fun '(_, s) => local_agents s) l.

Definition no_agents_preflight : string := "No local agent has joined a space during preflight".

Definition peer_connect peer : M TxImpHnd bytes :=
  let* t := get in
  for_each (modules_of t) (fun '(space, module) => tx_call (ModulePeerConnect space module peer)) ;;*
  for_each (spaces_of t) (fun '(space, _) => tx_call (SpacePeerConnect space peer)) ;;*
  tx_call (TopPeerConnect peer) ;;*
  if negb (bool_decide (spaces_of t = [])) && negb (any_local_agents (spaces_of t)) then fail no_agents_preflight
  else
    let* t := get in
    let preflight := gathers (tx_calls t) peer in
    tx_tell (GatherOutgoing peer) ;;*
    let* preflight := lift_res preflight in
    lift_res (proto_encode (MkProto (wire_number WPreflight) preflight None None)).

Definition peer_disconnect peer (reason : option string) : M TxImpHnd unit :=
  let* t := get in
  for_each (modules_of t) (fun '(space, module) => tx_tell (ModulePeerDisconnect space module peer reason)) ;;*
  for_each (spaces_of t) (fun '(space, _) => tx_tell (SpacePeerDisconnect space peer reason)) ;;*
  tx_tell (TopPeerDisconnect peer reason).

Definition permitted peer (space : option SpaceId) (message_type : K2WireType) : M TxImpHnd bool := fun t =>
  let '(r, tx) := check_message_permitted peer space message_type (tx t) in (r, set_tx (fun _ => tx) t).

(** The dispatch of a message that may pass. *)
Definition dispatch peer (p : K2Proto) : M TxImpHnd unit :=
  match get_ty p with
  | WUnspecified => ret tt
  | WPreflight => tx_call (ValidateIncoming peer (pdata p))
  | WNotify =>
      match space_id p with
      | Some space =>
          let* handler := gets (space_handler space) in
          if handler : bool then tx_call (SpaceNotify space peer (pdata p)) else ret tt
      | None => ret tt
      end
  | WModule =>
      match space_id p, module_id p with
      | Some space, Some module =>
          let* t := get in
          if bool_decide (is_Some (mod_map t !! (space, module)))
          then tx_call (ModuleMsg space module peer (pdata p)) else ret tt
      | _, _ => ret tt
      end
  | WDisconnect => fail "Remote Disconnect"
  end.

Definition recv_data peer (b : bytes) : M TxImpHnd unit :=
  let* p := lift_res (proto_decode b) in
  let* ok := permitted peer (space_id p) (get_ty p) in
  if ok : bool then dispatch peer p else ret tt.

Definition tx_set_unresponsive peer (when : Timestamp) : M TxImpHnd unit :=
  let* t := get in
  for_each (spaces_of t) (fun '(space, _) => or_log tt (tx_call (SpaceSetUnresponsive space peer when))).

(** ** The wrapper *)

(** The parts of [register_space_handler], between its locks: [imp_url] is the
    address of the backend. *)
Definition take_pending space : M TxImpHnd (option Url) := fun t =>
  (Ok (pending_space_urls t !! space), set_pending (delete space) t).
Definition put_space space (handler : SpaceAccess) : M TxImpHnd unit := fun t =>
  let t' := set_tx (fun s => MkTx (<[ space := handler ]> (space_map s)) (blocked_message_counts s)) t in
  if bool_decide (is_Some (space_map (tx t) !! space))
  then (Panic "Attempted to register duplicate space handler!", t') else (Ok tt, t').

Definition register_space_handler space (handler : SpaceAccess) (imp_url : option Url) : M TxImpHnd (option Url) :=
  let* pending_url := take_pending space in
  put_space space handler ;;*
  ret match pending_url with Some url => Some url | None => imp_url end.

Definition register_module_handler space (module : string) : M TxImpHnd unit := fun t =>
  let t' := set_modules <[ (space, module) := tt ]> t in
  if bool_decide (is_Some (mod_map t !! (space, module)))
  then (Panic "Attempted to register duplicate module handler!", t') else (Ok tt, t').

Definition unregister_space space : M TxImpHnd unit :=
  modify (set_tx (fun s => MkTx (delete space (space_map s)) (blocked_message_counts s))) ;;*
  modify (set_modules (filter (fun kv : (SpaceId * string) * unit => kv.1.1 <> space))).

(** What is handed to the backend: nothing when the message is dropped. *)
Definition send_message peer space (make : K2Proto) : M TxImpHnd (option bytes) := fun t =>
  let '(r, tx) := may_send peer space (tx t) in
  (match r with
   | Ok true => let? b := proto_encode make in Ok (Some b)
   | Ok false => Ok None
   | Err e => Err e
   | Panic e => Panic e
   end, set_tx (fun _ => tx) t).

Definition send_space_notify peer space (b : bytes) : M TxImpHnd (option bytes) :=
  send_message peer space (MkProto (wire_number WNotify) b (Some space) None).
Definition send_module peer space (module : string) (b : bytes) : M TxImpHnd (option bytes) :=
  send_message peer space (MkProto (wire_number WModule) b (Some space) (Some module)).

(** The payload of a disconnect, if it can be encoded. *)
Definition disconnect_payload (reason : option string) (reason_bytes : string -> bytes) : option (string * bytes) :=
  r ← reason;
  match proto_encode (MkProto (wire_number WDisconnect) (reason_bytes r) None None) with
  | Ok b => Some (r, b)
  | _ => None
  end.
End transport.

(** * Properties of the API's transport

    A message that is sent is what the peer's handler is told; a preflight is
    only gathered for a node with agents, once every handler has agreed; and
    which interleavings of the backend with a registration lose the address of
    a space. *)

(** ** Calls of the handlers *)

Definition add_calls (told : list TxCall) (t : TxImpHnd) : TxImpHnd :=
  MkTxImpHnd (tx t) (mod_map t) (pending_space_urls t) (per_space_managed t) (tx_calls t ++ told).

Lemma add_calls_nil t : add_calls [] t = t.
Proof. destruct t. unfold add_calls. cbn. by rewrite app_nil_r. Qed.
Lemma add_calls_app l l' t : add_calls l' (add_calls l t) = add_calls (l ++ l') t.
Proof. unfold add_calls. cbn. by rewrite app_assoc. Qed.

(** Whether a message of a space passes. *)
Definition access_granted (peer : Url) (space : SpaceId) (t : TxImpHnd) : bool :=
  match space_map (tx t) !! space with Some s => negb (is_any_agent_at_url_blocked peer s) | None => false end.

Section props.
Context `{!Message K2Proto} `{!MessageLaws K2Proto} `{!TxAnswers}.

(** Each of the calls was accepted when it was made. *)
Fixpoint all_accepted (before told : list TxCall) : Prop :=
  match told with
  | [] => True
  | c :: told => accepts before c = Ok tt /\ all_accepted (before ++ [c]) told
  end.

Lemma all_accepted_app b l l' : all_accepted b l -> all_accepted (b ++ l) l' -> all_accepted b (l ++ l').
Proof.
  revert b. induction l as [|c l IH]; intros b; cbn; [by rewrite app_nil_r|].
  intros [Hc Hl] Hl'. split; [done|]. apply IH; [done|]. by rewrite <- app_assoc.
Qed.

(** A computation that makes these calls, up to the first that is refused. *)
Definition makes_calls (m : M TxImpHnd unit) (cs : list TxCall) : Prop := forall t r t', m t = (r, t') ->
  exists told, told `prefix_of` cs /\ t' = add_calls told t /\ (r = Ok tt -> told = cs /\ all_accepted (tx_calls t) told).

Lemma makes_call c : makes_calls (tx_call c) [c].
Proof.
  intros t r t' [= <- <-]. exists [c]. split_and!; [done|done|]. intros Ha. by split_and!.
Qed.

Lemma makes_seq m cs m' cs' : makes_calls m cs -> makes_calls m' cs' -> makes_calls (m ;;* m') (cs ++ cs').
Proof.
  intros Hm Hm' t r t'. unfold bind. destruct (m t) as [r1 t1] eqn:E. apply Hm in E as (told & Hp & -> & Hr).
  destruct r1 as [[]|e|e].
  - destruct Hr as [-> Ha]; [done|]. intros (told & Hp' & -> & Hr')%Hm'. exists (cs ++ told).
    rewrite add_calls_app. split_and!; [by apply prefix_app|done|]. intros [-> Ha']%Hr'. split; [done|].
    by apply all_accepted_app.
  - intros [= <- <-]. exists told. split_and!; [by apply prefix_app_r|done|done].
  - intros [= <- <-]. exists told. split_and!; [by apply prefix_app_r|done|done].
Qed.

Lemma makes_each {A} (f : A -> M TxImpHnd unit) (g : A -> TxCall) l :
  (forall x, makes_calls (f x) [g x]) -> makes_calls (for_each l f) (g <$> l).
Proof.
  intros Hf. induction l as [|x l IH].
  - intros t r t' [= <- <-]. exists []. by rewrite add_calls_nil.
  - by apply (makes_seq _ [g x]).
Qed.

(** ** Preflights *)

Definition connect_calls (peer : Url) (t : TxImpHnd) : list TxCall :=
  ((fun '(space, module) => ModulePeerConnect space module peer) <$> modules_of t) ++
  ((fun '(space, _) => SpacePeerConnect space peer) <$> spaces_of t) ++ [TopPeerConnect peer].

Lemma connect_loops peer t : makes_calls
  (for_each (modules_of t) (fun '(space, module) => tx_call (ModulePeerConnect space module peer)) ;;*
   for_each (spaces_of t) (fun '(space, _) => tx_call (SpacePeerConnect space peer)) ;;*
   tx_call (TopPeerConnect peer)) (connect_calls peer t).
Proof.
  apply makes_seq; [apply makes_each; intros []; apply makes_call|].
  apply makes_seq; [apply makes_each; intros []; apply makes_call|apply makes_call].
Qed.

(** The rest of [peer_connect], after its loops. *)
Definition gather_preflight (peer : Url) (agents : bool) : M TxImpHnd bytes :=
  if agents then
    let* t := get in
    let preflight := gathers (tx_calls t) peer in
    tx_tell (GatherOutgoing peer) ;;*
    let* preflight := lift_res preflight in
    lift_res (proto_encode (MkProto (wire_number WPreflight) preflight None None))
  else fail no_agents_preflight.

Lemma peer_connect_parts peer t : peer_connect peer t =
  ((for_each (modules_of t) (fun '(space, module) => tx_call (ModulePeerConnect space module peer)) ;;*
    for_each (spaces_of t) (fun '(space, _) => tx_call (SpacePeerConnect space peer)) ;;*
    tx_call (TopPeerConnect peer)) ;;*
   gather_preflight peer (bool_decide (spaces_of t = []) || any_local_agents (spaces_of t))) t.
Proof.
  change (peer_connect peer t) with
    ((for_each (modules_of t) (fun '(space, module) => tx_call (ModulePeerConnect space module peer)) ;;*
      for_each (spaces_of t) (fun '(space, _) => tx_call (SpacePeerConnect space peer)) ;;*
      tx_call (TopPeerConnect peer) ;;*
      if negb (bool_decide (spaces_of t = [])) && negb (any_local_agents (spaces_of t)) then fail no_agents_preflight
      else gather_preflight peer true) t).
  rewrite bind_assoc. apply bind_ext. intros [] t1. rewrite bind_assoc. apply bind_ext. intros [] t2. apply bind_ext. intros [] t3.
  by destruct (bool_decide _), (any_local_agents _).
Qed.

Lemma some_local_agent (t : TxImpHnd) : any_local_agents (spaces_of t) = true ->
  exists space s, space_map (tx t) !! space = Some s /\ local_agents s = true.
Proof.
  unfold any_local_agents. rewrite existsb_exists. intros ([space s] & Hin & Hs). exists space, s.
  split; [|done]. by apply list_elem_of_In, elem_of_map_to_list in Hin.
Qed.

#[local] Ltac refused told :=
  intros [= <- <-]; exists told; split_and!; [done|by apply prefix_app_r|done|done].

(** When a connection is opened, all the modules, spaces and the transport are
    told in that order, up to the first that refuses.  A preflight is only
    gathered when none has refused and, if there are spaces, one has a local
    agent; and what is sent is the preflight that was gathered. *)
Theorem preflight_only_with_agents peer t r t' : peer_connect peer t = (r, t') ->
  exists told, t' = add_calls told t /\
    told `prefix_of` connect_calls peer t ++ [GatherOutgoing peer] /\
    (GatherOutgoing peer ∈ told ->
       all_accepted (tx_calls t) (connect_calls peer t) /\
       (spaces_of t = [] \/ exists space s, space_map (tx t) !! space = Some s /\ local_agents s = true)) /\
    (forall b, r = Ok b -> GatherOutgoing peer ∈ told /\
       exists preflight, gathers (tx_calls t ++ connect_calls peer t) peer = Ok preflight /\
         proto_decode b = Ok (MkProto (wire_number WPreflight) preflight None None)).
Proof using All.
  rewrite peer_connect_parts. pose proof (connect_loops peer t t) as Hl. revert Hl.
  generalize (for_each (modules_of t) (fun '(space, module) => tx_call (ModulePeerConnect space module peer)) ;;*
    for_each (spaces_of t) (fun '(space, _) => tx_call (SpacePeerConnect space peer)) ;;* tx_call (TopPeerConnect peer)).
  intros loops Hl. unfold bind at 1. destruct (loops t) as [r1 t1] eqn:E. destruct (Hl _ _ eq_refl) as (told & Hp & -> & Hr).
  assert (GatherOutgoing peer ∉ told) as Hnot.
  { intros Hin. apply (elem_of_prefix _ _ _ Hin) in Hp. unfold connect_calls in Hp. revert Hp.
    rewrite !elem_of_app, !list_elem_of_fmap. by intros [([] & [=] & _)|[([] & [=] & _)|[=]%list_elem_of_singleton]]. }
  destruct r1 as [[]|e|e]; [|refused told..]. destruct Hr as [Et Ha]; [done|].
  unfold gather_preflight. destruct (bool_decide (spaces_of t = []) || any_local_agents (spaces_of t)) eqn:Eag; [|refused told].
  assert (spaces_of t = [] \/ exists space s, space_map (tx t) !! space = Some s /\ local_agents s = true) as Hag.
  { apply orb_true_iff in Eag as [Es|Es]; [left; by apply bool_decide_eq_true in Es|right; by apply some_local_agent]. }
  subst told. unfold bind, get, tx_tell, lift_res. cbn [tx_calls add_calls]. intros E2.
  exists (connect_calls peer t ++ [GatherOutgoing peer]). split_and!; [|done|done|].
  - rewrite <- add_calls_app. destruct (gathers _ _); by injection E2.
  - intros b ->. split; [by apply elem_of_app; right; left|]. destruct (gathers _ _) as [pf|e|e]; [|done..]. exists pf. split; [done|].
    injection E2 as E2 _. unfold proto_encode, proto_decode in *. destruct (msg_encode _) as [b'|] eqn:Em; [|done].
    injection E2 as <-. by rewrite (msg_decode_encode _ _ Em).
Qed.

(** ** Messages of spaces and modules *)

Definition send_any (peer : Url) (space : SpaceId) (module : option string) (data : bytes) : M TxImpHnd (option bytes) :=
  match module with
  | None => send_space_notify peer space data
  | Some module => send_module peer space module data
  end.
Definition received_call (peer : Url) (space : SpaceId) (module : option string) (data : bytes) : TxCall :=
  match module with
  | None => SpaceNotify space peer data
  | Some module => ModuleMsg space module peer data
  end.
Definition registered (space : SpaceId) (module : option string) (t : TxImpHnd) : bool :=
  match module with
  | None => space_handler space t
  | Some module => bool_decide (is_Some (mod_map t !! (space, module)))
  end.

Lemma is_peer_blocked_granted peer space out t : (is_peer_blocked peer space out (tx t)).1 = negb (access_granted peer space t) /\
  space_map (is_peer_blocked peer space out (tx t)).2 = space_map (tx t).
Proof.
  unfold is_peer_blocked, access_granted. destruct (space_map (tx t) !! space); [|done].
  by destruct (is_any_agent_at_url_blocked _ _).
Qed.

(** C24: A message is handed to the backend only by a node that has a local agent in
    the space, if it has the space, and grants the peer access; and what the
    backend delivers reaches the handler it was sent to, with the same bytes,
    exactly when the receiver has that handler and grants the sender access.
    Otherwise it is dropped without an error and no handler is told. *)
Theorem message_arrives peer space module data b sender sender' me receiver :
  send_any peer space module data sender = (Ok (Some b), sender') ->
  (access_granted peer space sender = true /\ exists s, space_map (tx sender) !! space = Some s /\ local_agents s = true) /\
  let told := access_granted me space receiver && registered space module receiver in
  let c := received_call me space module data in
  let '(r, receiver') := recv_data me b receiver in
  r = (if told then accepts (tx_calls receiver) c else Ok tt) /\
  tx_calls receiver' = tx_calls receiver ++ (if told then [c] else []) /\
  space_map (tx receiver') = space_map (tx receiver).
Proof using All.
  intros Hsend.
  assert ((may_send peer space (tx sender)).1 = Ok true /\
    proto_encode (MkProto (wire_number match module with Some _ => WModule | None => WNotify end) data (Some space) module) = Ok b) as [Hmay Henc].
  { destruct module; unfold send_any, send_space_notify, send_module, send_message in Hsend;
      destruct (may_send peer space (tx sender)) as [[[]|e|e] tx']; try done;
      (destruct (proto_encode _) eqn:Ee; [|done..]; cbn in Hsend; split; [done|]; congruence). }
  split.
  - unfold may_send in Hmay. destruct (space_map (tx sender) !! space) as [s|] eqn:Es.
    + destruct (local_agents s) eqn:El; [|done]. cbn in Hmay.
      destruct (is_peer_blocked_granted peer space true sender) as [Hb _]. destruct (is_peer_blocked _ _ _ _) as [bl ?].
      cbn in *. split; [|eauto]. destruct (access_granted peer space sender); [done|]. by subst.
    + destruct (is_peer_blocked_granted peer space true sender) as [Hb _]. destruct (is_peer_blocked _ _ _ _) as [bl ?].
      unfold access_granted in Hb. rewrite Es in Hb. cbn in *. by subst.
  - cbn zeta. unfold proto_encode in Henc. destruct (msg_encode _) as [b'|] eqn:Em; [|done]. injection Henc as ->.
    unfold recv_data, proto_decode. rewrite (msg_decode_encode _ _ Em). unfold bind at 1, lift_res.
    unfold bind at 1, permitted, check_message_permitted.
    destruct (is_peer_blocked_granted me space false receiver) as [Hb Hm].
    destruct module as [module|]; cbn -[is_peer_blocked dispatch]; destruct (is_peer_blocked _ _ _ _) as [bl tx'];
      cbn in Hb, Hm; subst bl; rewrite negb_involutive; destruct (access_granted me space receiver); cbn; rewrite ?app_nil_r; try done.
    + case_bool_decide; cbn; rewrite ?app_nil_r; [|done]. by destruct (accepts _ _).
    + unfold bind, gets, space_handler. cbn. rewrite Hm.
      case_bool_decide; cbn; rewrite ?app_nil_r; [|done]. by destruct (accepts _ _).
Qed.

(** ** The address of a space

    The backend announces the address of a space while the space is being
    registered: the parts of the two, each under a lock of its own, interleave
    in every way. *)
Inductive Part : Type := PMark | PRead | PDeliver | PTake | PPut.

#[local] Instance Part_eq_dec : EqDecision Part.
Proof. solve_decision. Defined.

Inductive interleaving {A} : list A -> list A -> list A -> Prop :=
  | il_nil : interleaving [] [] []
  | il_left x l1 l2 l : interleaving l1 l2 l -> interleaving (x :: l1) l2 (x :: l)
  | il_right x l1 l2 l : interleaving l1 l2 l -> interleaving l1 (x :: l2) (x :: l).

(** The node, the handler the backend found, and the address that the
    registration took. *)
Record RaceState : Type := MkRace { race_node : TxImpHnd; found_handler : bool; taken_url : option Url }.

Definition run_part (url : Url) (space : SpaceId) (handler : SpaceAccess) (p : Part) (st : RaceState) : RaceState :=
  let t := race_node st in
  match p with
  | PMark => MkRace (mark_managed space t).2 (found_handler st) (taken_url st)
  | PRead => MkRace t (space_handler space t) (taken_url st)
  | PDeliver => MkRace (deliver_address url space (found_handler st) t).2 (found_handler st) (taken_url st)
  | PTake => MkRace (take_pending space t).2 (found_handler st) (pending_space_urls t !! space)
  | PPut => MkRace (put_space space handler t).2 (found_handler st) (taken_url st)
  end.

Definition run_parts url space handler (l : list Part) (st : RaceState) : RaceState :=
  foldl (fun st p => run_part url space handler p st) st l.

Definition announcing : list Part := [PMark; PRead; PDeliver].
Definition registering : list Part := [PTake; PPut].

Lemma put_space_state space handler t : (put_space space handler t).2 =
  set_tx (fun s => MkTx (<[ space := handler ]> (space_map s)) (blocked_message_counts s)) t.
Proof. unfold put_space. by case_bool_decide. Qed.

(** The parts in their order are the two operations. *)
Lemma announcing_is url space handler t f u :
  race_node (run_parts url space handler announcing (MkRace t f u)) = (new_listening_address url (Some space) t).2.
Proof.
  cbn. unfold bind, mark_managed, modify, gets. cbn. by destruct (deliver_address _ _ _ _) as [[]].
Qed.

Lemma registering_is url space handler t f u imp_url : space_map (tx t) !! space = None ->
  let st := run_parts url space handler registering (MkRace t f u) in
  register_space_handler space handler imp_url t =
    (Ok match taken_url st with Some url => Some url | None => imp_url end, race_node st).
Proof.
  intros Hs. cbn. unfold register_space_handler, bind, take_pending, put_space. cbn. rewrite Hs.
  by rewrite bool_decide_eq_false_2 by (by intros []).
Qed.

Fixpoint before (a b : Part) (l : list Part) : bool :=
  match l with
  | [] => false
  | x :: l => if bool_decide (x = a) then true else if bool_decide (x = b) then false else before a b l
  end.

(** C39: The address that the backend announces for a space while the space is
    registered reaches the space once, from the backend or from the
    registration, if the handler was put before the backend looked for it or
    the address was stored before the registration looked for it.  Otherwise
    the space never hears of it: the address stays stored for a registration
    that is over, and the space keeps the address of the backend as a whole,
    from whose further announcements it is now left out. *)
Theorem address_lost_between_locks url space handler t l :
  space_map (tx t) !! space = None -> pending_space_urls t !! space = None ->
  interleaving announcing registering l ->
  let st := run_parts url space handler l (MkRace t false None) in
  let told := before PPut PRead l in
  let taken := before PDeliver PTake l in
  tx_calls (race_node st) = tx_calls t ++ (if told then [SpaceNewAddress space url] else []) /\
  taken_url st = (if taken then Some url else None) /\
  (told && taken = false) /\
  pending_space_urls (race_node st) !! space = (if told || taken then None else Some url) /\
  space_map (tx (race_node st)) !! space = Some handler /\
  space ∈ per_space_managed (race_node st).
Proof.
  intros Hs Hp Hl. unfold announcing, registering in Hl.
  destruct t as [[sm bc] mm ps pm cs]. cbn in Hs, Hp.
  repeat match goal with H : interleaving _ _ _ |- _ => inversion H; clear H; subst end;
    cbn -[bool_decide put_space space_handler]; rewrite ?put_space_state;
    unfold space_handler, deliver_address, tx_tell, modify, set_pending; cbn -[bool_decide];
    rewrite ?Hs, ?lookup_insert_eq; rewrite ?(bool_decide_eq_false_2 (is_Some None)) by (by intros []);
    rewrite ?(bool_decide_eq_true_2 (is_Some (Some _))) by (by eexists); cbn;
    rewrite ?app_nil_r, ?lookup_insert_eq, ?lookup_delete_eq, ?Hp; split_and!; try done.
  all: by apply elem_of_union_l, elem_of_singleton_2.
Qed.

End props.

(** ** Witnesses *)

#[local] Instance wire_by_number : Message K2Proto := {|
  msg_encode p := Some [Zpos (countable.encode (ty p, pdata p, space_id p, module_id p))];
  msg_decode b := match b with
    | [Zpos n] => (fun '(t, d, s, m) => MkProto t d s m) <$> countable.decode n
    | _ => None
    end
|}.

#[local] Instance wire_laws : MessageLaws K2Proto.
Proof.
  split. intros [t d s m] b [= <-]. cbn. by rewrite countable.decode_encode.
Qed.

(** Handlers that accept everything, and have two bytes to send. *)
#[local] Instance agreeable : TxAnswers := {| accepts _ _ := Ok tt; gathers _ _ := Ok [4; 2] |}.

Definition open_space (peer : Url) : SpaceAccess :=
  MkSpaceAccess ∅ ∅ (inner_new 10 0) {[ peer := MkPeerAccess Granted 0 ]} true.
Definition node_with (peer : Url) : TxImpHnd :=
  MkTxImpHnd (MkTx {[ [7] := open_space peer ]} ∅) {[ ([7], "m"%string) := tt ]} ∅ ∅ [].

Lemma preflight_only_with_agents_witness :
  exists told, (peer_connect "p" (node_with "p")).2 = add_calls told (node_with "p") /\ GatherOutgoing "p" ∈ told.
Proof.
  destruct (preflight_only_with_agents "p" (node_with "p") _ _ (surjective_pairing _)) as (told & Ht & _ & _ & Hr).
  exists told. split; [exact Ht|].
  assert (exists b, (peer_connect "p" (node_with "p")).1 = Ok b) as [b Hb] by (eexists; vm_compute; reflexivity).
  destruct (Hr b Hb) as [Hg _]. exact Hg.
Defined.

Lemma message_arrives_witness :
  exists b sender', send_any "b" [7] (Some "m"%string) [1; 2; 3] (node_with "b") = (Ok (Some b), sender') /\
    tx_calls (recv_data "a" b (node_with "a")).2 = [ModuleMsg [7] "m" "a" [1; 2; 3]].
Proof.
  eexists _, _. split; [vm_compute; reflexivity|].
  refine (match message_arrives "b" [7] (Some "m"%string) [1; 2; 3] _ (node_with "b") _ "a" (node_with "a") _ with
          | conj _ H => _ end); [vm_compute; reflexivity|].
  cbn zeta in H. destruct (recv_data _ _ _) as [r t]. destruct H as (_ & H & _). cbn [snd]. rewrite H. vm_compute. reflexivity.
Defined.

(** The backend looks for the handler before, and stores the address after, the
    registration looks for it: nobody is told. *)
Lemma address_lost_between_locks_witness :
  let st := run_parts "u" [7] empty_space [PMark; PRead; PTake; PDeliver; PPut] (MkRace tx_new false None) in
  tx_calls (race_node st) = [] /\ taken_url st = None /\ space_map (tx (race_node st)) !! [7] = Some empty_space.
Proof.
  destruct (address_lost_between_locks "u" [7] empty_space tx_new [PMark; PRead; PTake; PDeliver; PPut])
    as (H1 & H2 & _ & _ & H3 & _).
  - reflexivity.
  - reflexivity.
  - repeat constructor.
  - split_and!; [exact H1|exact H2|exact H3].
Defined.
