(* ===== verification/IrohSpaces.v ===== *)
(** * Relays of the spaces of an iroh transport

    [transport_iroh/src/lib.rs]: the relay a transport starts with, the relays
    that spaces bring, with their tokens and keepalives, and their release.  The
    HTTP calls are those of [BootClient]; the relay map of the endpoint is a list
    of relays with the token each is presented. *)
From stdpp Require Import relations.
From S2P Require Import Prelude Timestamp Id Agent GossipWire PeerStore Access BootClient.
From S2P Require Import IrohUrl IrohTransport Transport.

Record RelayAuthParams (R : Type) : Type := MkAuthParams {
  server_url : string;
  auth_material : bytes;
  params_relay_url : R;
  key_bytes : bytes;
  cached_token : option string
}.
Arguments MkAuthParams {R}. Arguments server_url {R}. Arguments auth_material {R}.
Arguments params_relay_url {R}. Arguments key_bytes {R}. Arguments cached_token {R}.

(** [relays] is the endpoint's relay map, [own_keepalive] and [keepalives] the
    parameters of the keepalive tasks that run. *)
Record RelayNode (R H : Type) : Type := MkRelayNode {
  rn_config : IrohTransportConfig;
  relays : list (R * option string);
  space_relays : SpaceRelays R;
  own_keepalive : option (RelayAuthParams R);
  space_relay_keepalives : list (R * RelayAuthParams R);
  rn_tx : TxImpHnd;
  rn_net : H
}.
Arguments MkRelayNode {R H}. Arguments rn_config {R H}. Arguments relays {R H}. Arguments space_relays {R H}.
Arguments own_keepalive {R H}. Arguments space_relay_keepalives {R H}. Arguments rn_tx {R H}. Arguments rn_net {R H}.

(** A map as a list: the value of a key is set, a key is removed. *)
Definition assoc_insert {K V} `{EqDecision K} (k : K) (v : V) (l : list (K * V)) : list (K * V) :=
  (k, v) :: filter (fun kv => kv.1 <> k) l.
Definition assoc_remove {K V} `{EqDecision K} (k : K) (l : list (K * V)) : list (K * V) :=
  filter (fun kv => kv.1 <> k) l.
Fixpoint assoc_get {K V} `{EqDecision K} (k : K) (l : list (K * V)) : option V :=
  match l with
  | [] => None
  | (k', v) :: l => if bool_decide (k' = k) then Some v else assoc_get k l
  end.

Section spaces.
Context {R H : Type} `{RelayUrls R} `{HttpClient H} `{ClientCodec} `{AgentJson} `{TxAnswers}.
Variable parse : string -> res ParsedUrl.
(** [RelayUrl::as_str]; the endpoint's key and its id as a text; and base64. *)
Variable relay_as_str : R -> string.
Variable id_bytes : bytes.
Variable endpoint_id : res string.
Variable b64_decode : string -> option bytes.
Implicit Types (n : RelayNode R H) (space : SpaceId) (r : R).

Definition set_relays f n : RelayNode R H :=
  MkRelayNode (rn_config n) (f (relays n)) (space_relays n) (own_keepalive n) (space_relay_keepalives n) (rn_tx n) (rn_net n).
Definition set_space_relays f n : RelayNode R H :=
  MkRelayNode (rn_config n) (relays n) (f (space_relays n)) (own_keepalive n) (space_relay_keepalives n) (rn_tx n) (rn_net n).
Definition set_own_keepalive k n : RelayNode R H :=
  MkRelayNode (rn_config n) (relays n) (space_relays n) k (space_relay_keepalives n) (rn_tx n) (rn_net n).
Definition set_keepalives f n : RelayNode R H :=
  MkRelayNode (rn_config n) (relays n) (space_relays n) (own_keepalive n) (f (space_relay_keepalives n)) (rn_tx n) (rn_net n).
Definition on_tx {A} (m : M TxImpHnd A) : M (RelayNode R H) A := fun n =>
  let '(a, t) := m (rn_tx n) in
  (a, MkRelayNode (rn_config n) (relays n) (space_relays n) (own_keepalive n) (space_relay_keepalives n) t (rn_net n)).

(** A call of the client with the token that the parameters cache. *)
Definition with_params {A} (p : RelayAuthParams R) (m : M (Client H) A) : M (RelayNode R H) (res A * RelayAuthParams R) := fun n =>
  let '(r, c) := m (MkClient (cached_token p) (rn_net n)) in
  (Ok (r, MkAuthParams (server_url p) (auth_material p) (params_relay_url p) (key_bytes p) (auth_token c)),
   MkRelayNode (rn_config n) (relays n) (space_relays n) (own_keepalive n) (space_relay_keepalives n) (rn_tx n) (net c)).

Definition relay_keepalive (p : RelayAuthParams R) : M (RelayNode R H) (res unit * RelayAuthParams R) :=
  with_params p (blocking_relay_keepalive (server_url p) (auth_material p) (key_bytes p)).
Definition fetch_relay_token (p : RelayAuthParams R) : M (RelayNode R H) (res string * RelayAuthParams R) :=
  with_params p (blocking_fetch_relay_token (server_url p) (auth_material p)).

(** The server's base URL. *)
Definition server_base (relay_url : string) : res string :=
  match parse relay_url with
  | Ok _ => Ok (with_path relay_url "/")
  | Err _ => Err "Invalid relay URL for authentication"
  | Panic e => Panic e
  end.
Definition relay_of (relay_url : string) : res R :=
  match relay_from_str relay_url with Err _ => Err "Invalid relay URL" | r => r end.

(** A token for the relay, and the endpoint's key on its allowlist. *)
Definition relay_auth server (material : bytes) r : M (RelayNode R H) (string * RelayAuthParams R) :=
  let* (fetched, p) := fetch_relay_token (MkAuthParams server material r id_bytes None) in
  let* token := lift_res fetched in
  let* (kept, p) := relay_keepalive p in
  lift_res kept ;;* ret (token, p).

(** The relays that a new endpoint is bound with; [default_relays] are those of
    iroh. *)
Definition bound_relays (default_relays : list R) (config : IrohTransportConfig) (material : option bytes) : res (list R) :=
  match relay_url config with
  | Some url =>
      match material with
      | Some _ => Ok []
      | None => let? r := relay_of url in Ok [r]
      end
  | None => Ok default_relays
  end.

(** The token for the transport's own relay, before the endpoint has it. *)
Definition own_relay_auth (config : IrohTransportConfig) (material : option bytes)
  : M (RelayNode R H) (option (R * string * RelayAuthParams R)) :=
  match relay_url config, material with
  | Some url, Some material =>
      let* server := lift_res (server_base url) in
      let* r := lift_res (relay_of url) in
      let* (token, p) := relay_auth server material r in
      ret (Some (r, token, p))
  | _, _ => ret None
  end.

(** A transport starts; [n] has no relays yet. *)
Definition iroh_create (default_relays : list R) (material : option bytes) : M (RelayNode R H) unit :=
  let* n := get in
  let* bound := lift_res (bound_relays default_relays (rn_config n) material) in
  modify (set_relays (fun _ => (fun r => (r, None)) <$> bound)) ;;*
  let* auth := own_relay_auth (rn_config n) material in
  match auth with
  | Some (r, token, p) =>
      modify (set_relays (assoc_insert r (Some token))) ;;*
      modify (set_own_keepalive (Some p))
  | None => ret tt
  end.

Definition do_insert_relay (url : string) (material : option bytes) : M (RelayNode R H) (R * Url * option (RelayAuthParams R)) :=
  let relay_url_str := with_slash url in
  let* r := lift_res (relay_of relay_url_str) in
  let* (token, p) :=
    match material with
    | Some material =>
        let* server := lift_res (server_base relay_url_str) in
        let* (token, p) := relay_auth server material r in
        ret (Some token, Some p)
    | None => ret (None, None)
    end in
  modify (set_relays (assoc_insert r token)) ;;*
  let* id := lift_res endpoint_id in
  let* local_url := lift_res (canonicalize_relay_url parse r id) in
  ret (r, local_url, p).

(** The rest of the background task, when the relay has been inserted. *)
Definition record_relay space r (local_url : Url) (p : option (RelayAuthParams R)) : M (RelayNode R H) unit :=
  modify (set_space_relays (assoc_insert space (r, Some local_url))) ;;*
  match p with
  | Some p => modify (set_keepalives (fun l => match assoc_get r l with Some _ => l | None => assoc_insert r p l end))
  | None => ret tt
  end ;;*
  on_tx (new_listening_address local_url (Some space)).

(** The background task: its error is only logged. *)
Definition insert_relay_task space (url : string) (material : option bytes) : M (RelayNode R H) unit :=
  or_log tt (let* (r, local_url, p) := do_insert_relay url material in record_relay space r local_url p).

(** The task that [configure_for_space] spawns, if any. *)
Definition configure_for_space space (per_space : option IrohTransportConfig) n : option (M (RelayNode R H) unit) :=
  relay ← per_space_relay (per_space ≫= relay_url) (per_space ≫= auth_material_relay_base64)
            (relay_url (rn_config n)) (auth_material_relay_base64 (rn_config n));
  Some (insert_relay_task space (sr_url relay) (auth_material_base64 relay ≫= b64_decode)).

Definition relay_used r (l : SpaceRelays R) : bool := existsb (fun '(_, (r', _)) => bool_decide (r' = r)) l.

Definition own_relay n r : bool := is_transport_own_relay (relay_as_str r) (relay_url (rn_config n)).

Definition unconfigure_for_space space : M (RelayNode R H) unit :=
  on_tx (unmark_per_space_managed space) ;;*
  let* n := get in
  match assoc_get space (space_relays n) with
  | None => ret tt
  | Some (r, _) =>
      modify (set_space_relays (assoc_remove space)) ;;*
      let* n := get in
      if relay_used r (space_relays n) then ret tt
      else
        (if own_relay n r then ret tt else modify (set_relays (assoc_remove r))) ;;*
        modify (set_keepalives (assoc_remove r))
  end.

(** A turn of a keepalive task, whose failure is only logged. *)
Definition keepalive_turn r : M (RelayNode R H) unit :=
  let* n := get in
  match assoc_get r (space_relay_keepalives n) with
  | None => ret tt
  | Some p =>
      let* (kept, p) := relay_keepalive p in
      modify (set_keepalives (assoc_insert r p)) ;;* or_log tt (lift_res kept)
  end.

(** The same of the transport's own relay. *)
Definition own_keepalive_turn : M (RelayNode R H) unit :=
  let* n := get in
  match own_keepalive n with
  | None => ret tt
  | Some p =>
      let* (kept, p) := relay_keepalive p in
      modify (set_own_keepalive (Some p)) ;;* or_log tt (lift_res kept)
  end.

(** The tasks that are aborted when the transport is dropped. *)
Definition drop_keepalives n : RelayNode R H := set_keepalives (fun _ => []) (set_own_keepalive None n).
End spaces.

(** The configuration and the relay auth that the factory starts a transport
    with. *)
Definition factory_config (config : IrohTransportConfig) : IrohTransportConfig :=
  MkIrohConfig (with_slash <$> relay_url config) (relay_allow_plain_text config) (max_frame_bytes config)
    (connect_timeout_s config) (auth_material_relay_base64 config) (relay_keepalive_interval_s config).

(** * Relays of spaces are accounted for

    While the background task of a space ends before the space is released, the
    endpoint has the relays it began with and those of its spaces, and no
    keepalive runs for another relay; and the two ways in which that fails. *)
(** ** Maps as lists *)
Section assoc.
Context {K V : Type} `{EqDecision K}.
Implicit Types (l : list (K * V)) (k : K) (v : V).

Lemma elem_assoc_remove x k l : x ∈ assoc_remove k l <-> x ∈ l /\ x.1 <> k.
Proof. unfold assoc_remove. rewrite list_elem_of_filter. tauto. Qed.

Lemma elem_assoc_insert x k v l : x ∈ assoc_insert k v l <-> x = (k, v) \/ x ∈ l /\ x.1 <> k.
Proof. unfold assoc_insert. rewrite elem_of_cons, list_elem_of_filter. tauto. Qed.

Lemma assoc_get_elem k v l : assoc_get k l = Some v -> (k, v) ∈ l.
Proof.
  induction l as [|[k' v'] l IH]; [done|]. cbn. case_bool_decide as E; [intros [= ->]; subst; by left|].
  intros Hl. right. by apply IH.
Qed.

Lemma assoc_get_none k v l : assoc_get k l = None -> (k, v) ∉ l.
Proof.
  induction l as [|[k' v'] l IH]; cbn; [intros _; apply not_elem_of_nil|]. case_bool_decide as E; [done|].
  intros Hl [[= <- <-]|Hin]%elem_of_cons; [done|]. by apply IH.
Qed.

Lemma key_elem k l : k ∈ l.*1 <-> exists v, (k, v) ∈ l.
Proof.
  rewrite list_elem_of_fmap. split; [intros ([k' v] & -> & Hin); by exists v|].
  intros [v Hin]. by exists (k, v).
Qed.

Lemma nodup_assoc_remove k l : NoDup l.*1 -> NoDup (assoc_remove k l).*1.
Proof. intros Hl. eapply sublist_NoDup; [exact Hl|]. apply fmap_sublist, sublist_filter. Qed.

Lemma nodup_assoc_insert k v l : NoDup l.*1 -> NoDup (assoc_insert k v l).*1.
Proof.
  intros Hl. apply NoDup_cons. split; [|by apply nodup_assoc_remove].
  intros [v' [Hin Hk]%elem_assoc_remove]%key_elem. by destruct Hk.
Qed.
End assoc.

Section spaces.
Context {R H : Type} `{RelayUrls R} `{HttpClient H} `{ClientCodec} `{AgentJson} `{TxAnswers}.
Variable parse : string -> res ParsedUrl.
Variable relay_as_str : R -> string.
Variable id_bytes : bytes.
Variable endpoint_id : res string.
Variable b64_decode : string -> option bytes.
Implicit Types (n : RelayNode R H) (space : SpaceId) (r : R).

Lemma relay_used_spec r (l : SpaceRelays R) : relay_used r l = true <-> exists space u, (space, (r, u)) ∈ l.
Proof.
  unfold relay_used. rewrite existsb_exists. split.
  - intros ([space [r' u]] & Hin & Hr). apply bool_decide_eq_true in Hr as ->. exists space, u. by apply list_elem_of_In.
  - intros (space & u & Hin). exists (space, (r, u)). split; [by apply list_elem_of_In|by apply bool_decide_eq_true_2].
Qed.

(** ** Calls of the network change nothing else *)
Definition set_net (h : H) n : RelayNode R H :=
  MkRelayNode (rn_config n) (relays n) (space_relays n) (own_keepalive n) (space_relay_keepalives n) (rn_tx n) h.
Definition only_net n n' : Prop := n' = set_net (rn_net n') n.

Lemma only_net_refl n : only_net n n.
Proof. by destruct n. Qed.
Lemma only_net_trans n1 n2 n3 : only_net n1 n2 -> only_net n2 n3 -> only_net n1 n3.
Proof. unfold only_net. intros -> ->. done. Qed.

Lemma with_params_net {A} p (m : M (Client H) A) n : only_net n (with_params p m n).2.
Proof. unfold with_params. by destruct (m _). Qed.

(** A computation that only uses the network. *)
Definition net_only {A} (m : M (RelayNode R H) A) : Prop := forall n, only_net n (m n).2.

Lemma net_ret {A} (a : A) : net_only (ret a).
Proof. intros n. apply only_net_refl. Qed.
Lemma net_lift {A} (r : res A) : net_only (lift_res r).
Proof. intros n. apply only_net_refl. Qed.
Lemma net_bind {A B} (m : M (RelayNode R H) A) (k : A -> M (RelayNode R H) B) :
  net_only m -> (forall a, net_only (k a)) -> net_only (bind m k).
Proof.
  intros Hm Hk n. unfold bind. specialize (Hm n). destruct (m n) as [[a|e|e] n']; [|done..].
  eapply only_net_trans; [exact Hm|apply Hk].
Qed.
Lemma net_params {A} p (m : M (Client H) A) : net_only (with_params p m).
Proof. intros n. apply with_params_net. Qed.

Lemma relay_auth_net server material r : net_only (relay_auth id_bytes server material r).
Proof.
  apply net_bind; [apply net_params|]. intros [fetched p]. apply net_bind; [apply net_lift|]. intros token.
  apply net_bind; [apply net_params|]. intros [kept p']. apply net_bind; [apply net_lift|]. intros _. apply net_ret.
Qed.

(** A relay whose URL for this endpoint is refused, after it was inserted. *)
Definition stray r : Prop := forall id u, endpoint_id = Ok id -> canonicalize_relay_url parse r id <> Ok u.

(** What the first half of the background task does: nothing that lasts, or one
    relay more. *)
Lemma do_insert_result url material n : let '(x, n') := do_insert_relay parse id_bytes endpoint_id url material n in
  (only_net n n' /\ forall a, x <> Ok a) \/
  exists r token h, n' = set_relays (assoc_insert r token) (set_net h n) /\
    ((exists id u p, x = Ok (r, u, p) /\ relay_of (with_slash url) = Ok r /\ endpoint_id = Ok id /\ canonicalize_relay_url parse r id = Ok u) \/
     (stray r /\ forall a, x <> Ok a)).
Proof.
  unfold do_insert_relay. unfold bind at 1, lift_res at 1.
  destruct (relay_of (with_slash url)) as [r|e|e] eqn:Er; [|left; split; [apply only_net_refl|done]..].
  set (auth := match material with Some _ => _ | None => _ end).
  assert (net_only auth) as Hauth.
  { subst auth. destruct material; [|apply net_ret]. apply net_bind; [apply net_lift|]. intros server.
    apply net_bind; [apply relay_auth_net|]. intros []. apply net_ret. }
  specialize (Hauth n). unfold bind at 1. destruct (auth n) as [[[token p]|e|e] n1]; [|by left..].
  cbn in Hauth. unfold bind, modify, lift_res, ret.
  destruct endpoint_id as [id|e|e] eqn:Eid; [destruct (canonicalize_relay_url parse r id) as [u|e|e] eqn:Eu|..];
    right; exists r, token, (rn_net n1); (split; [by rewrite <- Hauth|]).
  1: left; by exists id, u, p.
  all: right; split; [|done]; intros id' u' E; rewrite E in Eid; try done; injection Eid as ->; by rewrite Eu.
Qed.

(** ** The steps, with the spaces that may be released *)
Inductive relay_step (may_release : SpaceId -> Prop) : RelayNode R H -> RelayNode R H -> Prop :=
  | rs_configured space per_space task n n' :
      space ∉ (space_relays n).*1 -> configure_for_space parse id_bytes endpoint_id b64_decode space per_space n = Some task ->
      task n = (Ok tt, n') -> relay_step may_release n n'
  | rs_unconfigured space n n' : may_release space -> unconfigure_for_space relay_as_str space n = (Ok tt, n') ->
      relay_step may_release n n'
  | rs_keepalive r n n' : keepalive_turn r n = (Ok tt, n') -> relay_step may_release n n'
  | rs_own_keepalive n n' : own_keepalive_turn n = (Ok tt, n') -> relay_step may_release n n'.

Record accounted n0 n : Prop := {
  ac_config : rn_config n = rn_config n0;
  ac_keys : NoDup (space_relays n).*1;
  ac_spaces : forall space r u, (space, (r, u)) ∈ space_relays n ->
    r ∈ (relays n).*1 /\ exists id url, u = Some url /\ endpoint_id = Ok id /\ canonicalize_relay_url parse r id = Ok url;
  ac_keepalives : forall r p, (r, p) ∈ space_relay_keepalives n -> relay_used r (space_relays n) = true;
  ac_relays : forall r, r ∈ (relays n).*1 -> r ∈ (relays n0).*1 \/ (stray r \/ own_relay relay_as_str n0 r = true) \/
    relay_used r (space_relays n) = true;
  ac_own : forall r, r ∈ (relays n0).*1 -> own_relay relay_as_str n r = true -> r ∈ (relays n).*1;
  ac_managed : forall space, space ∈ per_space_managed (rn_tx n) <-> space ∈ (space_relays n).*1
}.

(** A transport that has just been made. *)
Definition fresh n : Prop :=
  space_relays n = [] /\ space_relay_keepalives n = [] /\ per_space_managed (rn_tx n) = ∅.

Lemma fresh_accounted n : fresh n -> accounted n n.
Proof.
  intros (Hs & Hk & Hm). split; rewrite ?Hs, ?Hk, ?Hm; try done.
  - apply NoDup_nil_2.
  - intros space r u Hin. by apply elem_of_nil in Hin.
  - intros r p Hin. by apply elem_of_nil in Hin.
  - intros r Hr. by left.
  - intros space. split; [set_solver|]. intros Hin. by apply elem_of_nil in Hin.
Qed.

(** The invariant only looks at the relays, the spaces, which relays have a
    keepalive, and the spaces that are managed. *)
Lemma accounted_same n0 n n' : rn_config n' = rn_config n -> relays n' = relays n -> space_relays n' = space_relays n ->
  (forall r, r ∈ (space_relay_keepalives n').*1 -> r ∈ (space_relay_keepalives n).*1) ->
  per_space_managed (rn_tx n') = per_space_managed (rn_tx n) -> accounted n0 n -> accounted n0 n'.
Proof.
  intros Ec Er Es Ek Em [Hc Hn Hs Hk Hr Ho Hm]. unfold own_relay in *. split; rewrite ?Ec, ?Er, ?Es, ?Em; try done.
  - intros r p Hin. destruct (proj1 (key_elem r (space_relay_keepalives n))) as [p' Hin']; [apply Ek, key_elem; by exists p|].
    by apply (Hk r p').
  - intros r Hin. rewrite <- Ec in Hc. unfold own_relay. rewrite Ec. by apply Ho.
Qed.

Lemma key_insert {K V} `{EqDecision K} (k x : K) (v : V) l : x ∈ (assoc_insert k v l).*1 <-> x = k \/ x ∈ l.*1.
Proof.
  rewrite !key_elem. split.
  - intros [v' [[= -> ->]|[Hin _]]%elem_assoc_insert]; [by left|right; by exists v'].
  - intros [->|[v' Hin]]; [exists v; apply elem_assoc_insert; by left|].
    destruct (decide (x = k)) as [->|Hx]; [exists v|exists v']; apply elem_assoc_insert; [by left|by right].
Qed.

Lemma key_remove {K V} `{EqDecision K} (k x : K) (l : list (K * V)) : x ∈ (assoc_remove k l).*1 <-> x ∈ l.*1 /\ x <> k.
Proof.
  rewrite !key_elem. split.
  - intros [v [Hin Hx]%elem_assoc_remove]. split; [by exists v|done].
  - intros [[v Hin] Hx]. exists v. by apply elem_assoc_remove.
Qed.

Lemma announce_managed url space t : (new_listening_address url (Some space) t).1 = Ok tt /\
  per_space_managed (new_listening_address url (Some space) t).2 = {[space]} ∪ per_space_managed t.
Proof.
  unfold new_listening_address, bind, mark_managed, modify, gets. cbn. unfold deliver_address.
  by destruct (space_handler _ _).
Qed.

(** One relay more in the endpoint's map. *)
Lemma accounted_relay n0 n r token : stray r -> accounted n0 n -> accounted n0 (set_relays (assoc_insert r token) n).
Proof.
  intros Hst [Hc Hn Hs Hk Hr Ho Hm]. split; cbn [set_relays rn_config relays space_relays space_relay_keepalives rn_tx]; try done.
  - intros space r' u Hin. rewrite key_insert. destruct (Hs _ _ _ Hin). split; [by right|done].
  - intros r' [->|Hin]%key_insert; [right; left; by left|by apply Hr].
  - intros r' Hi Hown. rewrite key_insert. right. by apply Ho.
Qed.

Lemma record_result n space r url token p : exists ka t,
  record_relay space r url p (set_relays (assoc_insert r token) n) =
    (Ok tt, MkRelayNode (rn_config n) (assoc_insert r token (relays n)) (assoc_insert space (r, Some url) (space_relays n))
       (own_keepalive n) ka t (rn_net n)) /\
  t = (new_listening_address url (Some space) (rn_tx n)).2 /\
  (forall r' p', (r', p') ∈ ka -> r' = r \/ (r', p') ∈ space_relay_keepalives n).
Proof.
  destruct (announce_managed url space (rn_tx n)) as [Hok _].
  destruct (new_listening_address url (Some space) (rn_tx n)) as [x t] eqn:Et. cbn in Hok. subst x.
  unfold record_relay, on_tx, bind, modify, set_space_relays, set_keepalives, ret.
  destruct p as [p|]; cbn -[new_listening_address]; rewrite Et; do 2 eexists; (split; [done|]); (split; [done|]); intros r' p' Hin; [|by right].
  destruct (assoc_get r _); [by right|]. apply elem_assoc_insert in Hin as [[= -> ->]|[Hin _]]; [by left|by right].
Qed.

Lemma record_accounted n0 n space r url id token p : space ∉ (space_relays n).*1 ->
  endpoint_id = Ok id -> canonicalize_relay_url parse r id = Ok url -> accounted n0 n ->
  accounted n0 (record_relay space r url p (set_relays (assoc_insert r token) n)).2.
Proof.
  intros Hnew Hid Hu [Hc Hn Hs Hk Hr Ho Hm]. destruct (record_result n space r url token p) as (ka & t & -> & -> & Hka).
  destruct (announce_managed url space (rn_tx n)) as [_ Hman]. cbn [snd].
  set (sp := assoc_insert space (r, Some url) (space_relays n)).
  assert (forall r', relay_used r' (space_relays n) = true -> relay_used r' sp = true) as Hmore.
  { intros r' (space' & u & Hin)%relay_used_spec. apply relay_used_spec. exists space', u.
    apply elem_assoc_insert. right. split; [done|]. intros E. cbn in E. subst. apply Hnew, key_elem. by exists (r', u). }
  assert (relay_used r sp = true) as Hused.
  { apply relay_used_spec. exists space, (Some url). apply elem_assoc_insert. by left. }
  split; cbn [rn_config relays space_relays space_relay_keepalives rn_tx]; try done.
  - by apply nodup_assoc_insert.
  - intros space' r' u [[= -> -> ->]|[Hin _]]%elem_assoc_insert; rewrite key_insert; [split; [by left|by exists id, url]|].
    destruct (Hs _ _ _ Hin). split; [by right|done].
  - intros r' p' [->|Hin]%Hka; [done|]. by eapply Hmore, Hk.
  - intros r' [->|Hin]%key_insert; [by right; right|]. destruct (Hr _ Hin) as [Hi|[Hi|Hi]]; [by left|by right; left|].
    right; right. by apply Hmore.
  - intros r' Hi Hown. rewrite key_insert. right. by apply Ho.
  - intros space'. unfold sp. rewrite Hman, key_insert, elem_of_union, elem_of_singleton. by rewrite Hm.
Qed.

(** What the background task does. *)
Lemma task_result space url material n n' : insert_relay_task parse id_bytes endpoint_id space url material n = (Ok tt, n') ->
  exists h, n' = set_net h n \/ exists r token, 
    (stray r /\ n' = set_relays (assoc_insert r token) (set_net h n)) \/
    exists id u p, relay_of (with_slash url) = Ok r /\ endpoint_id = Ok id /\ canonicalize_relay_url parse r id = Ok u /\
      n' = (record_relay space r u p (set_relays (assoc_insert r token) (set_net h n))).2.
Proof.
  intros E. unfold insert_relay_task, or_log, bind in E. pose proof (do_insert_result url material n) as Hd.
  destruct (do_insert_relay _ _ _ _ _ n) as [x n1].
  destruct Hd as [[Hn Hx]|(r & token & h & -> & [(id & u & p & -> & Hr & Hid & Hu)|[Hst Hx]])].
  - rewrite Hn in *. destruct x as [a|e|e]; [by destruct (Hx a)| |done]. injection E as <-. eexists. by left.
  - destruct (record_result (set_net h n) space r u token p) as (ka & t & Er & _).
    exists h. right. exists r, token. right. exists id, u, p. rewrite Er in *. injection E as <-. by split_and!.
  - destruct x as [a|e|e]; [by destruct (Hx a)| |done]. injection E as <-. exists h. right. exists r, token. by left.
Qed.

Lemma insert_accounted n0 n n' space url material : space ∉ (space_relays n).*1 ->
  insert_relay_task parse id_bytes endpoint_id space url material n = (Ok tt, n') -> accounted n0 n -> accounted n0 n'.
Proof.
  intros Hnew [h Hres]%task_result Ha. assert (accounted n0 (set_net h n)) as Hnet by by apply (accounted_same n0 n).
  destruct Hres as [->|(r & token & [[Hst ->]|(id & u & p & _ & Hid & Hu & ->)])]; [done|by apply accounted_relay|].
  by apply (record_accounted n0 (set_net h n) space r u id).
Qed.

(** The release of a space, step by step. *)
Lemma unconfigure_result space n : unconfigure_for_space relay_as_str space n =
  let t := (unmark_per_space_managed space (rn_tx n)).2 in
  (Ok tt,
   match assoc_get space (space_relays n) with
   | None => MkRelayNode (rn_config n) (relays n) (space_relays n) (own_keepalive n) (space_relay_keepalives n) t (rn_net n)
   | Some (r, _) =>
       let sp := assoc_remove space (space_relays n) in
       if relay_used r sp
       then MkRelayNode (rn_config n) (relays n) sp (own_keepalive n) (space_relay_keepalives n) t (rn_net n)
       else MkRelayNode (rn_config n) (if own_relay relay_as_str n r then relays n else assoc_remove r (relays n))
              sp (own_keepalive n) (assoc_remove r (space_relay_keepalives n)) t (rn_net n)
   end).
Proof.
  destruct n as [cf rl sp ok ka t h]. unfold unconfigure_for_space, on_tx, bind, get, modify, ret, own_relay.
  cbn -[assoc_get assoc_remove relay_used is_transport_own_relay].
  destruct (assoc_get space sp) as [[r u]|]; [|done]. cbn -[assoc_remove relay_used is_transport_own_relay].
  destruct (relay_used r _); [done|]. cbn -[assoc_remove relay_used is_transport_own_relay].
  by destruct (is_transport_own_relay _ _).
Qed.

Lemma unconfigure_accounted n0 n n' space : unconfigure_for_space relay_as_str space n = (Ok tt, n') ->
  accounted n0 n -> accounted n0 n'.
Proof.
  rewrite unconfigure_result. intros [= <-] [Hc Hn Hs Hk Hr Ho Hm]. cbn zeta.
  assert (forall l : list SpaceId, (forall space' : SpaceId, space' ∈ l <-> space' ∈ (space_relays n).*1 /\ space' <> space) ->
    forall space' : SpaceId, space' ∈ per_space_managed (unmark_per_space_managed space (rn_tx n)).2 <-> space' ∈ l) as Hman.
  { intros l Hl space'. cbn. rewrite Hl, elem_of_difference, elem_of_singleton. by rewrite Hm. }
  destruct (assoc_get space (space_relays n)) as [[r u]|] eqn:Eg.
  2: { split; cbn [rn_config relays space_relays space_relay_keepalives rn_tx]; try done. apply Hman. intros space'.
       split; [|by intros []]. intros Hin. split; [done|]. intros ->. apply key_elem in Hin as [v Hin].
       by eapply assoc_get_none. }
  pose proof (fun space' : SpaceId => key_remove space space' (space_relays n)) as Hkeys.
  assert (forall space' r' u', (space', (r', u')) ∈ assoc_remove space (space_relays n) -> (space', (r', u')) ∈ space_relays n) as Hsub
    by (intros ??? [Hin _]%elem_assoc_remove; done).
  assert (forall r', relay_used r' (space_relays n) = true -> r' <> r -> relay_used r' (assoc_remove space (space_relays n)) = true) as Hstill.
  { intros r' (space' & u' & Hin)%relay_used_spec Hne. apply relay_used_spec. exists space', u'. apply elem_assoc_remove. split; [done|].
    cbn. intros ->. apply assoc_get_elem in Eg. apply Hne.
    apply list_elem_of_lookup in Hin as [i Hi]. apply list_elem_of_lookup in Eg as [j Hj].
    assert (i = j) as -> by (eapply (NoDup_lookup _ _ _ space Hn); rewrite list_lookup_fmap, ?Hi, ?Hj; done). congruence. }
  destruct (relay_used r (assoc_remove space (space_relays n))) eqn:Eused;
    split; cbn [rn_config relays space_relays space_relay_keepalives rn_tx]; try (by apply nodup_assoc_remove); try (by apply Hman); try done.
  - intros space' r' u' Hin. by apply (Hs space'), Hsub.
  - intros r' p' Hin. destruct (decide (r' = r)) as [->|Hne]; [done|]. by eapply Hstill, Hne; eapply Hk.
  - intros r' Hin. destruct (Hr _ Hin) as [Hi|[Hi|Hi]]; [by left|by right; left|]. right; right.
    destruct (decide (r' = r)) as [->|Hne]; [done|]. by apply Hstill.
  - intros space' r' u' Hin. destruct (Hs _ _ _ (Hsub _ _ _ Hin)) as [Hi Hu]. split; [|done].
    destruct (own_relay _ _ _); [done|]. apply key_remove. split; [done|]. intros ->.
    assert (relay_used r (assoc_remove space (space_relays n)) = true) as Ht by (apply relay_used_spec; by exists space', u'). congruence.
  - intros r' p' [Hin Hne]%elem_assoc_remove. eapply Hstill, Hne. by eapply Hk.
  - intros r' Hin. assert (r' ∈ (relays n).*1 /\ (r' <> r \/ own_relay relay_as_str n r = true)) as [Hin' Hor].
    { destruct (own_relay _ _ _); [by split; [|right]|]. apply key_remove in Hin as []. by split; [|left]. }
    destruct (Hr _ Hin') as [Hi|[Hi|Hi]]; [by left|by right; left|].
    destruct (decide (r' = r)) as [->|Hne]; [|right; right; by apply Hstill].
    destruct Hor as [[]|Hown]; [done|]. right; left; right. unfold own_relay in *. by rewrite <- Hc.
  - intros r' Hi Hown. pose proof (Ho r' Hi Hown) as Hin. destruct (own_relay relay_as_str n r) eqn:Er; [done|].
    apply key_remove. split; [done|]. intros ->. unfold own_relay in *. cbn in Hown. congruence.
Qed.

Lemma keepalive_accounted n0 n n' r : keepalive_turn r n = (Ok tt, n') -> accounted n0 n -> accounted n0 n'.
Proof.
  unfold keepalive_turn, bind at 1, get. destruct (assoc_get r (space_relay_keepalives n)) as [p|] eqn:Eg; [|by intros [= <-]].
  unfold bind. pose proof (with_params_net p (blocking_relay_keepalive (server_url p) (auth_material p) (key_bytes p)) n) as Hn.
  unfold relay_keepalive. destruct (with_params _ _ n) as [[[kept p']|e|e] n1]; [|done..]. cbn in Hn. rewrite Hn.
  unfold modify, or_log, lift_res. intros E Ha.
  assert (n' = set_keepalives (assoc_insert r p') (set_net (rn_net n1) n)) as -> by (destruct kept as [[]|e|e]; [by injection E as <-..|done]).
  apply (accounted_same n0 n); try done. intros r' [->|Hin]%key_insert; [|done].
  apply key_elem. exists p. by apply assoc_get_elem.
Qed.

Lemma own_keepalive_accounted n0 n n' : own_keepalive_turn n = (Ok tt, n') -> accounted n0 n -> accounted n0 n'.
Proof.
  unfold own_keepalive_turn, bind at 1, get. destruct (own_keepalive n) as [p|]; [|by intros [= <-]].
  unfold bind. pose proof (with_params_net p (blocking_relay_keepalive (server_url p) (auth_material p) (key_bytes p)) n) as Hn.
  unfold relay_keepalive. destruct (with_params _ _ n) as [[[kept p']|e|e] n1]; [|done..]. cbn in Hn. rewrite Hn.
  unfold modify, or_log, lift_res. intros E Ha.
  assert (n' = set_own_keepalive (Some p') (set_net (rn_net n1) n)) as -> by (destruct kept as [[]|e|e]; [by injection E as <-..|done]).
  by apply (accounted_same n0 n).
Qed.

Lemma step_accounted P n0 n n' : relay_step P n n' -> accounted n0 n -> accounted n0 n'.
Proof.
  intros [space per_space task n1 n2 Hnew Hconf Htask|space n1 n2 _ E|r n1 n2 E|n1 n2 E] Ha.
  - unfold configure_for_space in Hconf. destruct (per_space_relay _ _ _ _); [|done]. cbn in Hconf. injection Hconf as <-.
    by eapply insert_accounted.
  - by eapply unconfigure_accounted.
  - by eapply keepalive_accounted.
  - by eapply own_keepalive_accounted.
Qed.

Lemma steps_accounted P n0 n n' : rtc (relay_step P) n n' -> accounted n0 n -> accounted n0 n'.
Proof. induction 1 as [|n1 n2 n3 Hs _ IH]; [done|]. intros Ha. apply IH. by eapply step_accounted. Qed.


(** ** Where the accounts fail *)

Lemma assoc_get_insert {K V} `{EqDecision K} (k : K) (v : V) l : assoc_get k (assoc_insert k v l) = Some v.
Proof. cbn. by rewrite bool_decide_eq_true_2. Qed.

Lemma assoc_remove_only {K V} `{EqDecision K} (k : K) (v : V) : assoc_remove k (assoc_insert k v []) = [].
Proof. unfold assoc_insert, assoc_remove. rewrite filter_cons_False; [done|]. by intros []. Qed.

(** A space that brings auth material for the transport's own relay takes
    the relay with it when it is released, if the relay was configured with a
    text that is not the one the relay is printed as (say with the default port
    or a letter in upper case), since the two are compared as texts. *)
Theorem own_relay_released space per_space n t m r : relay_url (rn_config n) = Some t -> relay_of (with_slash t) = Ok r ->
  trim_end_slashes (relay_as_str r) <> trim_end_slashes t ->
  relay_url per_space = Some t -> auth_material_relay_base64 per_space = Some m ->
  auth_material_relay_base64 (rn_config n) <> Some m -> space_relays n = [] ->
  exists task, configure_for_space parse id_bytes endpoint_id b64_decode space (Some per_space) n = Some task /\
    forall n1 n2, task n = (Ok tt, n1) -> space_relays n1 <> [] -> unconfigure_for_space relay_as_str space n1 = (Ok tt, n2) ->
      r ∈ (relays n1).*1 /\ ~ (r ∈ (relays n2).*1) /\ relay_url (rn_config n2) = Some t.
Proof.
  intros Ht Hr Hne Hp Hm Hown Hnone.
  assert (per_space_relay (Some t) (Some m) (Some t) (auth_material_relay_base64 (rn_config n)) = Some (MkSpaceRelay t (Some m))) as Hps.
  { unfold per_space_relay. cbn. rewrite (bool_decide_eq_true_2 (Some m <> _)) by congruence.
    rewrite (bool_decide_eq_false_2 (Some m = None)) by done. by rewrite andb_false_r. }
  unfold configure_for_space. cbn [mbind option_bind]. rewrite Hp, Hm, Ht, Hps. cbn [mbind option_bind sr_url auth_material_base64].
  eexists. split; [done|]. intros n1 n2 [h Hres]%task_result Hsome. rewrite unconfigure_result. intros [= <-].
  destruct Hres as [->|(r' & token & [[_ ->]|(id & u & p & Hr' & Hid & Hu & ->)])]; [done|done|].
  assert (r' = r) as -> by congruence.
  destruct (record_result (set_net h n) space r u token p) as (ka & tx & -> & _). cbn [snd space_relays relays rn_config rn_tx].
  cbn [set_net space_relays]. rewrite Hnone, assoc_get_insert. cbn iota beta. rewrite assoc_remove_only. cbn [relay_used existsb].
  unfold own_relay, is_transport_own_relay. cbn [rn_config relay_url set_net]. rewrite Ht, bool_decide_eq_false_2 by done.
  cbn [relays rn_config]. split_and!; [apply key_insert; by left| |done]. by intros [_ []]%key_remove.
Qed.

Lemma space_url_found (l : SpaceRelays R) space r u : (space, (r, Some u)) ∈ l -> space_url_on r l <> None.
Proof.
  induction l as [|[space' [r' u']] l IH]; [by intros ?%elem_of_nil|]. intros [[= <- <- <-]|Hin]%elem_of_cons; cbn.
  - by rewrite bool_decide_eq_true_2.
  - destruct u'; [case_bool_decide; [done|]|]; by apply IH.
Qed.

(** What other spaces do leaves the entry of a space. *)
Lemma step_keeps_space space e n n' : relay_step (fun space' => space' <> space) n n' ->
  (space, e) ∈ space_relays n -> (space, e) ∈ space_relays n'.
Proof.
  intros [space' per_space task n1 n2 Hnew Hconf Htask|space' n1 n2 Hne E|r n1 n2 E|n1 n2 E] Hin.
  - unfold configure_for_space in Hconf. destruct (per_space_relay _ _ _ _); [|done]. cbn in Hconf. injection Hconf as <-.
    apply task_result in Htask as [h [->|(r & token & [[_ ->]|(id & u & p & _ & _ & _ & ->)])]]; [done|done|].
    destruct (record_result (set_net h n1) space' r u token p) as (ka & tx & -> & _). cbn [snd space_relays set_net].
    apply elem_assoc_insert. right. split; [done|]. cbn. intros ->. apply Hnew, key_elem. by exists e.
  - rewrite unconfigure_result in E. injection E as <-. destruct (assoc_get space' (space_relays n1)) as [[r u]|]; [|done].
    assert ((space, e) ∈ assoc_remove space' (space_relays n1)) by (apply elem_assoc_remove; cbn; split; [done|congruence]).
    by destruct (relay_used _ _).
  - revert E. unfold keepalive_turn, bind at 1, get. destruct (assoc_get r (space_relay_keepalives n1)) as [p|]; [|by intros [= <-]].
    unfold relay_keepalive, with_params, bind, modify, or_log, lift_res. destruct (blocking_relay_keepalive _ _ _ _) as [[[]|e'|e'] c];
      cbn; by intros [= <-].
  - revert E. unfold own_keepalive_turn, bind at 1, get. destruct (own_keepalive n1) as [p|]; [|by intros [= <-]].
    unfold relay_keepalive, with_params, bind, modify, or_log, lift_res. destruct (blocking_relay_keepalive _ _ _ _) as [[[]|e'|e'] c];
      cbn; by intros [= <-].
Qed.

(** If a space is released before the background task of its relay has
    ended, the task inserts the relay all the same: relay and keepalive stay,
    the space stays left out of the transport's announcements, and its URL is
    kept for preflights, whatever other spaces do, until a space of that id is
    released again. *)
Theorem late_insertion_stays space per_space n0 n n1 task n2 n3 : fresh n0 -> rtc (relay_step (fun _ => True)) n0 n ->
  space ∉ (space_relays n).*1 ->
  configure_for_space parse id_bytes endpoint_id b64_decode space per_space n = Some task ->
  unconfigure_for_space relay_as_str space n = (Ok tt, n1) ->
  task n1 = (Ok tt, n2) -> space ∈ (space_relays n2).*1 ->
  rtc (relay_step (fun space' => space' <> space)) n2 n3 ->
  exists r u, (space, (r, Some u)) ∈ space_relays n3 /\ r ∈ (relays n3).*1 /\ space ∈ per_space_managed (rn_tx n3) /\
    space_url_on r (space_relays n3) <> None.
Proof.
  intros Hf Hs Hnew Hconf Hrel Htask [e Hin]%key_elem Hs'.
  assert (accounted n0 n) as Ha by (eapply steps_accounted; [exact Hs|by apply fresh_accounted]).
  assert (accounted n0 n3) as Ha3.
  { eapply steps_accounted; [exact Hs'|]. unfold configure_for_space in Hconf. destruct (per_space_relay _ _ _ _); [|done].
    cbn in Hconf. injection Hconf as <-. eapply insert_accounted; [|exact Htask|by eapply unconfigure_accounted].
    rewrite unconfigure_result in Hrel. cbn zeta in Hrel. destruct (assoc_get space (space_relays n)) as [v|] eqn:Eg; [|by injection Hrel as <-].
    destruct Hnew. apply key_elem. exists v. by apply assoc_get_elem. }
  assert ((space, e) ∈ space_relays n3) as Hin3.
  { clear Ha3 Htask. induction Hs' as [|m1 m2 m3 Hstep _ IH]; [done|]. apply IH. by eapply step_keeps_space. }
  destruct e as [r u]. destruct (ac_spaces _ _ Ha3 _ _ _ Hin3) as [Hr (id & url & -> & _)].
  exists r, url. split_and!; [done|done| |by eapply space_url_found].
  apply (ac_managed _ _ Ha3), key_elem. by exists (r, Some url).
Qed.
End spaces.
