(* ===== verification/IrohDemo.v ===== *)
(** * Two endpoints with small parsers

    A parser of URLs and relays for texts of the form
    [scheme://host:port/path], two endpoints at one relay, and the theorems of
    the iroh transport applied to them. *)
From stdpp Require Import relations pretty.
From S2P Require Import Prelude Timestamp Id Agent GossipWire PeerStore Access.
From S2P Require Import BootClient IrohFrame IrohUrl ConnContext.
From S2P Require Import IrohTransport SimOpen SimOpenSystem IrohSend Transport IrohSpaces.
From S2P Require Import IrohSpaces.

(** ** Parsers *)
Fixpoint digits (acc : Z) (s : string) : option Z :=
  match s with
  | EmptyString => Some acc
  | String c s =>
      let d := Z.of_nat (Ascii.nat_of_ascii c) - 48 in
      if (0 <=? d) && (d <=? 9) then digits (acc * 10 + d) s else None
  end.

(** The scheme, host, port and path of a text. *)
Definition parts (s : string) : option (string * string * Z * string) :=
  '(scheme, rest) ← split_once "://" s;
  let '(authority, path) := default (rest, EmptyString) (split_once "/" rest) in
  '(host, port) ← split_once ":" authority;
  port ← digits 0 port;
  Some (scheme, host, port, String slash path).

Definition small_parse (s : string) : res ParsedUrl :=
  match parts s with
  | Some (scheme, host, port, path) => Ok (MkParsed scheme (Some host) (Some port) path)
  | None => Err "relative URL without a base"
  end.

Record SmallRelay : Type := MkSmallRelay { sm_scheme : string; sm_host : string; sm_port : Z; sm_path : string }.

#[local] Instance SmallRelay_eq_dec : EqDecision SmallRelay.
Proof. solve_decision. Defined.

#[local] Instance small_relays : RelayUrls SmallRelay := {|
  relay_from_str s := match parts s with
    | Some (scheme, host, port, path) => Ok (MkSmallRelay scheme host port path)
    | None => Err "relative URL without a base"
    end;
  relay_host r := Some (OtherHost (sm_host r));
  relay_port r := Some (sm_port r);
  relay_path := sm_path;
  relay_scheme := sm_scheme
|}.

(** An endpoint id is any text. *)
Definition any_id (s : string) : res string := Ok s.

Definition the_relay : SmallRelay := MkSmallRelay "http" "relay" 80 "/".

Lemma the_relay_ok : relay_ok the_relay.
Proof. split_and!; [|reflexivity|reflexivity]. intros h p [= <-] [= <-]. vm_compute. reflexivity. Qed.
Lemma id_ok : id_reparsed any_id "A".
Proof. split_and!; [reflexivity|done|reflexivity]. Qed.

Lemma peer_url_roundtrip_witness :
  endpoint_from_url any_id "http://relay:80/A" = Ok ("A"%string, the_relay) /\
  relay_url_from_peer_url (R := SmallRelay) "http://relay:80/A" = relay_url_from_peer_url "http://relay:80/B".
Proof.
  destruct (peer_url_roundtrip small_parse any_id "A" the_relay "http://relay:80/A"
    [([7], (the_relay, Some "http://relay:80/A"%string))] None "http://relay:80/B" "http://relay:80/A") as [H1 H2].
  - exact the_relay_ok.
  - exact id_ok.
  - vm_compute. reflexivity.
  - constructor; [|constructor]. split; [exact the_relay_ok|]. intros url [= <-]. vm_compute. reflexivity.
  - split; [exact H1|]. destruct H2 as [H2 _]; [vm_compute; reflexivity|exact H2].
Defined.

(** ** Frames *)
Lemma frames_roundtrip_witness : exists f,
  encode_frame (FPreflight [104; 105] [1]) 100 = Ok f /\
  read_preflight_frame_from_stream Ok 100 (f ++ [1; 0; 0; 0; 1; 9; 1; 0; 0; 0; 0]) = (Ok ([104; 105], [1]), [1; 0; 0; 0; 1; 9; 1; 0; 0; 0; 0]) /\
  data_frames 100 [1; 0; 0; 0; 1; 9; 1; 0; 0; 0] `prefix_of` [[9]; []].
Proof.
  eexists. split; [vm_compute; reflexivity|].
  refine (match frames_roundtrip Ok 100 _ [104; 105] [1] _ [[9]; []] [[1; 0; 0; 0; 1; 9]; [1; 0; 0; 0; 0]] _ _ _ _ with
          | conj H (conj _ H') => conj H (H' [1; 0; 0; 0; 1; 9; 1; 0; 0; 0] _) end).
  - lia.
  - reflexivity.
  - reflexivity.
  - vm_compute. reflexivity.
  - repeat constructor.
  - exists [0]. reflexivity.
Defined.

(** ** Two endpoints that dial each other *)

(** A connection that is open takes everything. *)
Definition quic_open (c : ConnectionContext) : res unit :=
  match close_reason c with None => Ok tt | Some _ => Err "connection lost" end.
Definition quic_write (c : ConnectionContext) (b : bytes) : res unit := quic_open c.

Lemma quic_small : quic_answers quic_open quic_write.
Proof.
  split; unfold quic_write, quic_open.
  - intros c H. by rewrite H.
  - intros c f H. by rewrite H.
  - intros c H. destruct (close_reason c); [by eexists|done].
  - intros c f H. destruct (close_reason c); [by eexists|done].
Qed.

#[local] Instance friendly : TxHandler :=
  {| on_recv_data _ _ _ := Ok tt; on_peer_connect _ _ := Ok [42]; on_set_unresponsive _ _ := Ok tt |}.

Definition alice : Identity := MkIdentity 1 2 "http://relay:80/A" "http://relay:80/B" friendly.
Definition bob : Identity := MkIdentity 2 1 "http://relay:80/B" "http://relay:80/A" friendly.

Lemma alice_ready : side_ready small_parse 100 alice (Some "http://relay:80/A"%string) ([] : SpaceRelays SmallRelay).
Proof.
  split_and!; [split; [done|]|vm_compute; reflexivity|split; vm_compute; reflexivity].
  intros cs u. exists [42]. eexists. split; [reflexivity|]. vm_compute. reflexivity.
Qed.

Lemma bob_ready : side_ready small_parse 100 bob (Some "http://relay:80/B"%string) ([] : SpaceRelays SmallRelay).
Proof.
  split_and!; [split; [done|]|vm_compute; reflexivity|split; vm_compute; reflexivity].
  intros cs u. exists [42]. eexists. split; [reflexivity|]. vm_compute. reflexivity.
Qed.

Abbreviation pair_step := (sys_step small_parse quic_open quic_write 100 alice bob).
Definition pair_start : Side SmallRelay * Side SmallRelay :=
  (start (Some "http://relay:80/A"%string) [], start (Some "http://relay:80/B"%string) []).

(** The steps of a schedule: [true] for the first side. *)
Fixpoint run_schedule (l : list (bool * Event)) (s : Side SmallRelay * Side SmallRelay) : option (Side SmallRelay * Side SmallRelay) :=
  match l with
  | [] => Some s
  | (true, ev) :: l =>
      a ← side_step small_parse quic_open quic_write 100 alice 5 ev s.2 s.1; run_schedule l (a, s.2)
  | (false, ev) :: l =>
      b ← side_step small_parse quic_open quic_write 100 bob 5 ev s.1 s.2; run_schedule l (s.1, b)
  end.

Lemma schedule_reaches l s s' : run_schedule l s = Some s' -> rtc pair_step s s'.
Proof.
  revert s. induction l as [|[[] ev] l IH]; intros [a b]; cbn.
  - intros [= <-]. apply rtc_refl.
  - destruct (side_step _ _ _ _ _ _ _ _ _) as [a'|] eqn:E; [|done]. intros H%IH. eapply rtc_l; [by eapply step_a|done].
  - destruct (side_step _ _ _ _ _ _ _ _ _) as [b'|] eqn:E; [|done]. intros H%IH. eapply rtc_l; [by eapply step_b|done].
Qed.

(** Both dial before either accepts; Bob has the larger id. *)
Definition crossing : list (bool * Event) :=
  [(true, EvDial); (false, EvDial); (true, EvSend); (false, EvSend); (true, EvAccept); (false, EvAccept);
   (true, EvReceive Accepted); (false, EvReceive Accepted); (false, EvCleanup Accepted);
   (true, EvReturn Accepted); (true, EvActivate Accepted); (false, EvReceive Dialed); (false, EvReturn Dialed); (false, EvActivate Dialed);
   (true, EvReaderStops Dialed); (true, EvCleanup Dialed)].

Definition crossed : Side SmallRelay * Side SmallRelay := default pair_start (run_schedule crossing pair_start).

Lemma crossed_ends s' : ~ pair_step crossed s'.
Proof.
  assert (forall now ev, side_step small_parse quic_open quic_write 100 alice now ev crossed.2 crossed.1 = None) as Ha.
  { intros now ev. destruct ev as [| | |[]|[]|[]|[]|[]|[]]; vm_compute; reflexivity. }
  assert (forall now ev, side_step small_parse quic_open quic_write 100 bob now ev crossed.1 crossed.2 = None) as Hb.
  { intros now ev. destruct ev as [| | |[]|[]|[]|[]|[]|[]]; vm_compute; reflexivity. }
  intros Hs. destruct crossed as [a b]. inversion Hs as [now ev ? ? a' E|now ev ? ? b' E]; subst; cbn in *.
  - by rewrite Ha in E.
  - by rewrite Hb in E.
Qed.

Lemma simultaneous_open_converges_witness :
  rtc pair_step pair_start crossed /\ settled alice crossed.1 /\ settled bob crossed.2.
Proof.
  assert (rtc pair_step pair_start crossed) as Hr by (apply (schedule_reaches crossing); vm_compute; reflexivity).
  split; [exact Hr|].
  refine (match simultaneous_open_converges small_parse quic_open quic_write 100 alice bob (Some "http://relay:80/A"%string)
    (Some "http://relay:80/B"%string) [] [] quic_small _ alice_ready bob_ready _ crossed Hr with
    | conj _ (conj _ (conj _ (conj _ H))) => H crossed_ends end).
  - lia.
  - split_and!; done.
Defined.

(** ** Sends *)

(** The node whose one dial of Bob waits for the answer. *)
Definition dialed : ConnectionContext := context_new 1 2 true (Some "http://relay:80/B"%string) true 0.
Definition answered : ConnectionContext := set_state Active (set_preflight true true dialed).
Definition bobs_slot : gmap Url nat := {[ "http://relay:80/B"%string := 0%nat ]}.
Definition one_connection (c : ConnectionContext) : Node SmallRelay :=
  mk (Some "http://relay:80/A"%string) [] [c] bobs_slot 1 [].


(** Bob answers with the URL of somebody else, and with one that names no peer. *)
Definition other_frame : bytes :=
  match encode_frame (FPreflight (bytes_of_string "http://relay:80") [1]) 100 with Ok f => f | _ => [] end.

Lemma reply_url_unchecked_witness : exists n1 n2 : Node SmallRelay,
  run_reader_loop small_parse quic_open quic_write 100 0 [IncomingStream other_frame None] (one_connection dialed) = (Ok None, n1) /\
  (exists e, dump_network_stats n1 = Panic e) /\
  send_turn quic_open quic_write 100 "http://relay:80/B" [1; 2] 9 5 (SendResolve 0) n2 = (Ok (SendDone (Ok tt)), n2).
Proof.
  destruct (reply_url_unchecked small_parse any_id quic_open quic_write 100 [dialed] bobs_slot 1 []
    (Some "http://relay:80/A"%string) [] 0 dialed "http://relay:80/B" "http://relay:80" [1] other_frame "gone" 5
    eq_refl eq_refl eq_refl ltac:(vm_compute; reflexivity) eq_refl eq_refl eq_refl ltac:(done) ltac:(vm_compute; reflexivity) ltac:(done) ltac:(done)
    ltac:(vm_compute; reflexivity)) as (n1 & n2 & H1 & _ & _ & H2 & _ & _ & H3).
  exists n1, n2. split; [exact H1|]. split; [apply H2; vm_compute; reflexivity|].
  apply (H3 1 false ConnectFailed [1; 2] 9 5 ("B"%string, the_relay)). vm_compute. reflexivity.
Defined.

(** * Relays of spaces at a concrete endpoint

    The theorems of [IrohSpacesProps] applied to a transport that prints the
    URL of a relay without its port, as the crate [url] does for a default
    port. *)
#[local] Existing Instance small_relays.

(** A server that answers everything, and URLs as they are. *)
#[local] Instance yes_server : HttpClient unit :=
  {| http_put _ _ _ _ := (ReplyOk 200 (Some []), tt); http_get _ _ _ := (ReplyOk 200 (Some []), tt) |}.
#[local] Instance plain_codec : ClientCodec :=
  {| with_path base _ := base; b64_encode _ := EmptyString; read_auth_token _ := Some "token"%string |}.
#[local] Instance yes_handlers : TxAnswers := {| accepts _ _ := Ok tt; gathers _ _ := Ok [] |}.

Definition without_port (r : SmallRelay) : string := (sm_scheme r +:+ "://" +:+ sm_host r +:+ sm_path r)%string.
Definition material_bytes (s : string) : option bytes := Some [1].

Definition own_config : IrohTransportConfig := MkIrohConfig (Some "http://relay:80/"%string) true 100 60 None 120.
Definition space_config (url : string) (m : option string) : IrohTransportConfig := MkIrohConfig (Some url) true 100 60 m 120.
Definition blank_node : RelayNode SmallRelay unit := MkRelayNode own_config [] [] None [] tx_new tt.
Definition started : RelayNode SmallRelay unit := (iroh_create small_parse [0] [] None blank_node).2.

Definition run_task (space : SpaceId) (c : IrohTransportConfig) (n : RelayNode SmallRelay unit) : RelayNode SmallRelay unit :=
  match configure_for_space small_parse [0] (Ok "A"%string) material_bytes space (Some c) n with Some task => (task n).2 | None => n end.


(** A space with its own token for [http://relay:80/], which prints as
    [http://relay/]. *)
Lemma own_relay_released_witness :
  let n1 := run_task [7] (space_config "http://relay:80/" (Some "m"%string)) started in
  the_relay ∈ (relays n1).*1 /\ ~ (the_relay ∈ (relays (unconfigure_for_space without_port [7] n1).2).*1).
Proof.
  destruct (own_relay_released small_parse without_port [0] (Ok "A"%string) material_bytes [7]
    (space_config "http://relay:80/" (Some "m"%string)) started "http://relay:80/" "m" the_relay) as (task & Htask & H).
  - vm_compute. reflexivity.
  - vm_compute. reflexivity.
  - vm_compute. discriminate.
  - reflexivity.
  - reflexivity.
  - vm_compute. discriminate.
  - vm_compute. reflexivity.
  - destruct (H (run_task [7] (space_config "http://relay:80/" (Some "m"%string)) started)
      (unconfigure_for_space without_port [7] (run_task [7] (space_config "http://relay:80/" (Some "m"%string)) started)).2) as (H1 & H2 & _).
    + assert (Some task = Some (insert_relay_task small_parse [0] (Ok "A"%string) [7] "http://relay:80/" (Some [1]))) as E
        by (rewrite <- Htask; reflexivity).
      injection E as ->. vm_compute. reflexivity.
    + vm_compute. discriminate.
    + rewrite unconfigure_result. reflexivity.
    + split; [exact H1|exact H2].
Defined.

Lemma late_insertion_stays_witness :
  let n1 := (unconfigure_for_space without_port [7] started).2 in
  let n2 := run_task [7] (space_config "http://other:80" None) n1 in
  exists r u, ([7], (r, Some u)) ∈ space_relays n2 /\ r ∈ (relays n2).*1 /\ [7] ∈ per_space_managed (rn_tx n2).
Proof.
  cbn zeta. set (n1 := (unconfigure_for_space without_port [7] started).2).
  destruct (late_insertion_stays small_parse without_port [0] (Ok "A"%string) material_bytes [7]
    (Some (space_config "http://other:80" None)) started started n1
    (insert_relay_task small_parse [0] (Ok "A"%string) [7] "http://other:80" None)
    (run_task [7] (space_config "http://other:80" None) n1) (run_task [7] (space_config "http://other:80" None) n1))
    as (r & u & H1 & H2 & H3 & _).
  - split_and!; vm_compute; reflexivity.
  - apply rtc_refl.
  - vm_compute. intros Hin. inversion Hin.
  - reflexivity.
  - unfold n1. rewrite unconfigure_result. reflexivity.
  - vm_compute. reflexivity.
  - vm_compute. by left.
  - apply rtc_refl.
  - exists r, u. split_and!; [exact H1|exact H2|exact H3].
Defined.
