(* ===== verification/Config.v ===== *)
(** * Configuration

    [api/src/config.rs]: the configuration is a tree of maps with values at its
    leaves; modules set their values, register callbacks for updates, and a
    space's overrides are merged in.  A [BTreeMap] is the list of its bindings
    in the order of the keys, a JSON value and a callback are parameters; serde's
    passage from a module's struct to the tree is the argument of the setter. *)
From S2P Require Import Prelude.

Section config.
Context {V : Type}.
Variable null : V.

(** [value] and [update_cb] of an entry. *)
Inductive ConfigMap : Type :=
  | CMap (m : list (string * ConfigMap))
  | CEntry (value : V) (update_cb : option nat).

Definition config_map_default : ConfigMap := CMap [].

(** ** [BTreeMap] *)
Fixpoint bt_get {A} (k : string) (l : list (string * A)) : option A :=
  match l with
  | [] => None
  | (k', v) :: l => if String.eqb k k' then Some v else bt_get k l
  end.

Fixpoint bt_insert {A} (k : string) (v : A) (l : list (string * A)) : list (string * A) :=
  match l with
  | [] => [(k, v)]
  | (k', v') :: l' =>
      match String.compare k k' with
      | Lt => (k, v) :: l
      | Eq => (k, v) :: l'
      | Gt => (k', v') :: bt_insert k v l'
      end
  end.

(** ** Setting values *)

(** One key of the new map after the other, up to the first conflict. *)
Definition apply_loop (apply : ConfigMap -> ConfigMap -> res unit * ConfigMap * list (nat * V)) :=
  fix loop (new_map old_map : list (string * ConfigMap)) (updates : list (nat * V)) :=
    match new_map with
    | [] => (Ok tt, old_map, updates)
    | (key, n) :: new_map =>
        let '(r, o, u) := apply n (default config_map_default (bt_get key old_map)) in
        let old_map := bt_insert key o old_map in
        match r with
        | Ok _ => loop new_map old_map (updates ++ u)
        | r => (r, old_map, updates ++ u)
        end
    end.

(** The new tree is written over the old one; the callbacks to call are
    collected. *)
Fixpoint apply_map (new old : ConfigMap) {struct new} : res unit * ConfigMap * list (nat * V) :=
  match new with
  | CMap new_map =>
      match old with
      | CMap old_map =>
          let '(r, m, updates) := apply_loop apply_map new_map old_map [] in (r, CMap m, updates)
      | CEntry _ _ => (Err "attempted to insert a map where an entry exists", old, [])
      end
  | CEntry value update_cb =>
      match old with
      | CMap [] => (Ok tt, CEntry value update_cb, [])
      | CMap _ => (Err "attempted to insert an entry where a map exists", old, [])
      | CEntry _ cb => (Ok tt, CEntry value cb, match cb with Some cb => [(cb, value)] | None => [] end)
      end
  end.

(** The flags, and the calls of the callbacks so far. *)
Record Config : Type := MkConfig {
  map : ConfigMap;
  are_defaults_set : bool;
  did_validate : bool;
  is_runtime : bool;
  cb_calls : list (nat * V)
}.

Definition config_default : Config := MkConfig config_map_default false false false [].
Definition mark_defaults_set (c : Config) : Config := MkConfig (map c) true (did_validate c) (is_runtime c) (cb_calls c).
Definition mark_validated (c : Config) : bool * Config :=
  (did_validate c, MkConfig (map c) (are_defaults_set c) true (is_runtime c) (cb_calls c)).
Definition mark_runtime (c : Config) : Config := MkConfig (map c) (are_defaults_set c) (did_validate c) true (cb_calls c).
Definition set_map (m : ConfigMap) (calls : list (nat * V)) (c : Config) : Config :=
  MkConfig m (are_defaults_set c) (did_validate c) (is_runtime c) (cb_calls c ++ calls).

(** [in_map] is the module's struct as a tree. *)
Definition set_module_config (in_map : ConfigMap) : M Config unit := fun c =>
  match apply_map in_map (map c) with
  | (Ok _, m, updates) => (Ok tt, set_map m updates c)
  | (r, m, _) => (r, set_map m [] c)
  end.

(** Walks to the entry of a path, which is made when it is not there. *)
Fixpoint register_at (path : list string) (update_cb : nat) (cur : ConfigMap) : res V * ConfigMap :=
  match path with
  | key :: path =>
      match cur with
      | CMap m =>
          let '(r, o) := register_at path update_cb (default config_map_default (bt_get key m)) in
          (r, CMap (bt_insert key o m))
      | CEntry _ _ => (Err "attempted to insert a map where an entry exists", cur)
      end
  | [] =>
      match cur with
      | CMap [] => (Ok null, CEntry null (Some update_cb))
      | CMap _ => (Err "attempted to insert an entry where a map exists", cur)
      | CEntry value _ => (Ok value, CEntry value (Some update_cb))
      end
  end.

Definition register_entry_update_cb (path : list string) (update_cb : nat) : M Config unit := fun c =>
  match register_at path update_cb (map c) with
  | (Ok value, m) => (Ok tt, set_map m [(update_cb, value)] c)
  | (Err e, m) => (Err e, set_map m [] c)
  | (Panic e, m) => (Panic e, set_map m [] c)
  end.

(** ** Merging overrides *)
Definition merge_loop (merge : ConfigMap -> ConfigMap -> ConfigMap) :=
  fix loop (overrides self_map : list (string * ConfigMap)) :=
    match overrides with
    | [] => self_map
    | (key, value) :: overrides =>
        loop overrides
          (match bt_get key self_map with
           | Some current => bt_insert key (merge value current) self_map
           | None => bt_insert key value self_map
           end)
    end.

Fixpoint merge_overrides (overrides self : ConfigMap) {struct overrides} : ConfigMap :=
  match overrides, self with
  | CMap overrides, CMap self_map => CMap (merge_loop merge_overrides overrides self_map)
  | overrides, _ => overrides
  end.

Definition merge_config_overrides (self overrides : Config) : Config :=
  MkConfig (merge_overrides (map overrides) (map self)) (are_defaults_set self) (did_validate self) (is_runtime self) (cb_calls self).

(** ** Trees by their paths *)

(** The node and the entry at a path. *)
Fixpoint node_at (p : list string) (m : ConfigMap) : option ConfigMap :=
  match p, m with
  | [], m => Some m
  | k :: p, CMap l => match bt_get k l with Some m => node_at p m | None => None end
  | _ :: _, CEntry _ _ => None
  end.

Definition entry_at (p : list string) (m : ConfigMap) : option (V * option nat) :=
  match node_at p m with Some (CEntry v cb) => Some (v, cb) | _ => None end.

(** The entries in the order in which they are written. *)
Fixpoint leaves (m : ConfigMap) : list (list string * V) :=
  match m with
  | CEntry v _ => [([], v)]
  | CMap l => flat_map (fun '(k, n) => List.map (fun '(p, v) => (k :: p, v)) (leaves n)) l
  end.

(** No key twice in a map: what [BTreeMap] promises. *)
Fixpoint distinct (m : ConfigMap) : Prop :=
  match m with
  | CEntry _ _ => True
  | CMap l => NoDup (List.map fst l) /\ fold_right (fun '(_, n) acc => distinct n /\ acc) True l
  end.

(** An entry over a map that is not empty, or a map over an entry. *)
Definition conflict (p : list string) (new old : ConfigMap) : bool :=
  match node_at p new, node_at p old with
  | Some (CEntry _ _), Some (CMap (_ :: _)) => true
  | Some (CMap _), Some (CEntry _ _) => true
  | _, _ => false
  end.

(** The entry after the new one is written over the old one: the callback stays. *)
Definition written (new old : option (V * option nat)) : option (V * option nat) :=
  match new, old with
  | Some (v, _), Some (_, cb) => Some (v, cb)
  | Some e, None => Some e
  | None, _ => old
  end.

Definition heard (old : ConfigMap) (e : list string * V) : option (nat * V) :=
  match entry_at e.1 old with Some (_, Some cb) => Some (cb, e.2) | _ => None end.

(** The calls a written tree owes to the callbacks. *)
Definition calls_of (new old : ConfigMap) : list (nat * V) := omap (heard old) (leaves new).
End config.
Arguments ConfigMap V : clear implicits.
Arguments Config V : clear implicits.

(** ** Facts about trees *)
Section facts.
Context {V : Type}.
Implicit Types (m new old : ConfigMap V) (l : list (string * ConfigMap V)) (p : list string).

Lemma ConfigMap_rec_on (P : ConfigMap V -> Prop) :
  (forall l, Forall (fun b => P b.2) l -> P (CMap l)) -> (forall v cb, P (CEntry v cb)) -> forall m, P m.
Proof.
  intros Hm He. fix IH 1. intros [l|v cb]; [|apply He]. apply Hm.
  induction l as [|[k m] l IHl]; constructor; [apply IH|exact IHl].
Qed.

Lemma bt_get_insert {A} k k' (v : A) (l : list (string * A)) :
  bt_get k (bt_insert k' v l) = if String.eqb k k' then Some v else bt_get k l.
Proof.
  induction l as [|[k1 v1] l IH]; cbn; [done|].
  destruct (String.compare k' k1) eqn:E; cbn.
  - apply String.compare_eq_iff in E as ->. by destruct (String.eqb_spec k k1).
  - done.
  - rewrite IH. destruct (String.eqb_spec k k1) as [->|]; [|done].
    destruct (String.eqb_spec k1 k') as [->|]; [|done]. pose proof (String.compare_antisym k' k') as Ha. by rewrite E in Ha.
Qed.

Lemma bt_get_insert_eq {A} k (v : A) (l : list (string * A)) : bt_get k (bt_insert k v l) = Some v.
Proof. by rewrite bt_get_insert, String.eqb_refl. Qed.

Lemma bt_get_insert_ne {A} k k' (v : A) (l : list (string * A)) : k <> k' -> bt_get k (bt_insert k' v l) = bt_get k l.
Proof. intros H. rewrite bt_get_insert. by apply String.eqb_neq in H as ->. Qed.

Lemma bt_get_none {A} k (l : list (string * A)) : ~ In k (List.map fst l) -> bt_get k l = None.
Proof.
  induction l as [|[k1 v1] l IH]; cbn; [done|]. intros H.
  destruct (String.eqb_spec k k1) as [->|]; [tauto|]. apply IH. tauto.
Qed.

Lemma bt_get_elem {A} k (v : A) (l : list (string * A)) : bt_get k l = Some v -> (k, v) ∈ l.
Proof.
  induction l as [|[k1 v1] l IH]; cbn; [done|]. destruct (String.eqb_spec k k1) as [->|].
  - intros [= ->]. apply list_elem_of_here.
  - intros H. apply list_elem_of_further. by apply IH.
Qed.

Lemma node_nil p : node_at p (config_map_default (V := V)) = match p with [] => Some config_map_default | _ => None end.
Proof. by destruct p. Qed.

Lemma entry_nil p : entry_at p (config_map_default (V := V)) = None.
Proof. by destruct p. Qed.

Lemma node_key k p l : node_at (k :: p) (CMap l) = match bt_get k l with Some m => node_at p m | None => None end.
Proof. done. Qed.

Lemma entry_key k p l : entry_at (k :: p) (CMap l) = entry_at p (default config_map_default (bt_get k l)).
Proof. unfold entry_at. rewrite node_key. destruct (bt_get k l); cbn; [done|]. by rewrite node_nil; destruct p. Qed.

Lemma entry_root l : entry_at [] (CMap l) = None.
Proof. done. Qed.

Lemma written_none (e : option (V * option nat)) : written None e = e.
Proof. done. Qed.

(** ** Writing a tree *)

Lemma heard_key k p v l : heard (CMap l) (k :: p, v) = heard (default config_map_default (bt_get k l)) (p, v).
Proof. unfold heard. cbn [fst snd]. by rewrite entry_key. Qed.

Lemma calls_of_key k n nl l :
  calls_of (CMap ((k, n) :: nl)) (CMap l) = calls_of n (default config_map_default (bt_get k l)) ++ calls_of (CMap nl) (CMap l).
Proof.
  unfold calls_of. cbn [leaves flat_map]. rewrite omap_app. f_equal. induction (leaves n) as [|[p v] s IH]; [done|].
  cbn [List.map]. change (omap ?f (?x :: ?s)) with (match f x with Some y => y :: omap f s | None => omap f s end).
  rewrite heard_key, IH. done.
Qed.

Lemma calls_of_insert nl k m l : ~ In k (List.map fst nl) -> calls_of (CMap nl) (CMap (bt_insert k m l)) = calls_of (CMap nl) (CMap l).
Proof.
  induction nl as [|[k1 n1] nl IH]; [done|]. cbn [List.map In fst]. intros H.
  rewrite !calls_of_key, IH by tauto. by rewrite bt_get_insert_ne by tauto.
Qed.

(** What writing [new] over [old] comes to. *)
Definition applied new old (a : res unit * ConfigMap V * list (nat * V)) : Prop :=
  match a with
  | (Ok _, m, u) => (forall p, entry_at p m = written (entry_at p new) (entry_at p old)) /\ u = calls_of new old
  | (Err _, m, _) => forall p, entry_at p m = entry_at p old \/ entry_at p m = written (entry_at p new) (entry_at p old)
  | (Panic _, _, _) => False
  end.

Lemma entry_insert p k m l :
  entry_at p (CMap (bt_insert k m l)) =
    match p with [] => None | k' :: p => if String.eqb k' k then entry_at p m else entry_at (k' :: p) (CMap l) end.
Proof.
  destruct p as [|k' p]; [done|]. rewrite entry_key, bt_get_insert. destruct (String.eqb k' k); [done|]. by rewrite entry_key.
Qed.

Lemma apply_loop_spec nl : distinct (CMap nl) ->
  Forall (fun b => forall old, distinct b.2 -> applied b.2 old (apply_map b.2 old)) nl ->
  forall l us, match apply_loop apply_map nl l us with
    | (r, l', us') => exists u, us' = us ++ u /\ applied (CMap nl) (CMap l) (r, CMap l', u) end.
Proof.
  intros [Hnd Hd] HF. induction HF as [|[k n] nl Hn _ IH]; intros l us.
  { exists []. rewrite app_nil_r. split; [done|]. split; [|done]. intros [|k p]; [done|].
    rewrite (entry_key k p []). cbn [bt_get from_option]. by rewrite entry_nil. }
  cbn [List.map fst] in Hnd. apply NoDup_cons in Hnd as [Hk Hnd]. cbn in Hd. destruct Hd as [Hdn Hd].
  rewrite list_elem_of_In in Hk. cbn [snd] in Hn. specialize (IH Hnd Hd).
  pose proof (Hn (default config_map_default (bt_get k l)) Hdn) as Ha.
  cbn [apply_loop]. destruct (apply_map n (default config_map_default (bt_get k l))) as [[[[]|e|e] o] u].
  - destruct Ha as [Ho Hu]. specialize (IH (bt_insert k o l) (us ++ u)). fold (apply_loop (apply_map (V := V))).
    destruct (apply_loop apply_map nl (bt_insert k o l) (us ++ u)) as [[r l'] us'].
    destruct IH as (u' & -> & Ha). exists (u ++ u'). split; [by rewrite app_assoc|].
    assert (Hp : forall p, written (entry_at p (CMap nl)) (entry_at p (CMap (bt_insert k o l)))
        = written (entry_at p (CMap ((k, n) :: nl))) (entry_at p (CMap l))).
    { intros [|k' p]; [done|]. rewrite entry_insert, !(entry_key k' p). cbn [bt_get].
      destruct (String.eqb_spec k' k) as [->|]; [|done]. rewrite (bt_get_none k nl Hk). cbn [from_option].
      by rewrite entry_nil, written_none, Ho. }
    destruct r as [[]|e|e]; [|..|done].
    + destruct Ha as [Hl ->]. split; [intros p; by rewrite Hl, Hp|]. by rewrite Hu, calls_of_key, calls_of_insert.
    + intros p. destruct (Ha p) as [->| ->]; [|right; by rewrite Hp]. rewrite entry_insert.
      destruct p as [|k' p]; [by left|]. destruct (String.eqb_spec k' k) as [->|]; [|by left].
      right. rewrite !entry_key. cbn [bt_get]. rewrite String.eqb_refl. by rewrite Ho.
  - exists u. split; [done|]. intros p. rewrite entry_insert. destruct p as [|k' p]; [by left|].
    destruct (String.eqb_spec k' k) as [->|]; [|by left]. rewrite !entry_key. cbn [bt_get]. rewrite String.eqb_refl. apply Ha.
  - done.
Qed.

Lemma apply_map_spec new old : distinct new -> applied new old (apply_map new old).
Proof.
  revert old. induction new as [nl IH|v cb] using ConfigMap_rec_on; intros old Hd.
  - destruct old as [l|v cb]; [|by left]. cbn [apply_map].
    pose proof (apply_loop_spec nl Hd IH l []) as H. destruct (apply_loop apply_map nl l []) as [[r l'] u].
    by destruct H as (u' & -> & H).
  - destruct old as [[|b l]|v' cb']; cbn.
    + split; [by intros [|k p]|done].
    + by left.
    + split; [by intros [|k p]|]. by destruct cb'.
Qed.

(** ** When writing succeeds *)

Definition applies {A B} (a : res unit * A * B) : bool := match a with (Ok _, _, _) => true | _ => false end.

Lemma conflict_key k p nl l :
  conflict (k :: p) (CMap nl) (CMap l) =
    match bt_get k nl with Some n => conflict p n (default config_map_default (bt_get k l)) | None => false end.
Proof.
  unfold conflict. rewrite !node_key. destruct (bt_get k nl) as [n|]; [|done].
  destruct (bt_get k l) as [o|]; [done|]. cbn [from_option]. rewrite node_nil. destruct p; [by destruct n|].
  by destruct (node_at _ n) as [[?|? ?]|].
Qed.

Lemma apply_loop_applies nl :
  Forall (fun b => forall old, distinct b.2 -> applies (apply_map b.2 old) = true <-> forall p, conflict p b.2 old = false) nl ->
  distinct (CMap nl) ->
  forall l us, applies (apply_loop apply_map nl l us) = true <-> forall p, conflict p (CMap nl) (CMap l) = false.
Proof.
  intros HF. induction HF as [|[k n] nl Hn _ IH]; intros Hd l us.
  { split; [|done]. intros _ [|k p]; [done|]. by rewrite conflict_key. }
  cbn in Hd. destruct Hd as (Hnd & Hdn & Hd). apply NoDup_cons in Hnd as [Hk Hnd]. rewrite list_elem_of_In in Hk.
  cbn [apply_loop]. fold (apply_loop (apply_map (V := V))). cbn [snd] in Hn.
  specialize (Hn (default config_map_default (bt_get k l)) Hdn).
  assert (Hc : (forall p, conflict p (CMap ((k, n) :: nl)) (CMap l) = false) <->
      (forall p, conflict p n (default config_map_default (bt_get k l)) = false) /\
      forall o p, conflict p (CMap nl) (CMap (bt_insert k o l)) = false).
  { split.
    - intros H. split; [intros p; specialize (H (k :: p)); rewrite conflict_key in H; cbn [bt_get] in H; by rewrite String.eqb_refl in H|].
      intros o [|k' p]; [done|]. specialize (H (k' :: p)). rewrite conflict_key in H |- *. cbn [bt_get] in H.
      rewrite bt_get_insert. destruct (String.eqb_spec k' k) as [->|]; [by rewrite (bt_get_none k nl Hk)|done].
    - intros [H1 H2] [|k' p]; [done|]. rewrite conflict_key. cbn [bt_get]. destruct (String.eqb_spec k' k) as [->|]; [done|].
      specialize (H2 config_map_default (k' :: p)). rewrite conflict_key, bt_get_insert_ne in H2; done. }
  rewrite Hc. destruct (apply_map n (default config_map_default (bt_get k l))) as [[[[]|e|e] o] u]; cbn [applies] in *.
  - assert (Hd' : distinct (CMap nl)) by done. split.
    + intros H. split; [by apply Hn|]. intros o' [|k' p]; [done|].
      pose proof (proj1 (IH Hd' _ _) H (k' :: p)) as Hp. rewrite conflict_key, bt_get_insert in Hp |- *.
      destruct (String.eqb_spec k' k) as [->|]; [by rewrite (bt_get_none k nl Hk)|done].
    + intros [_ H]. by apply IH.
  - split; [done|]. intros [H _]. by apply Hn in H.
  - split; [done|]. intros [H _]. by apply Hn in H.
Qed.

Lemma apply_map_applies new old : distinct new -> applies (apply_map new old) = true <-> forall p, conflict p new old = false.
Proof.
  revert old. induction new as [nl IH|v cb] using ConfigMap_rec_on; intros old Hd.
  - destruct old as [l|v cb].
    + cbn [apply_map]. rewrite <- (apply_loop_applies nl IH Hd l []).
      by destruct (apply_loop apply_map nl l []) as [[r l'] u].
    + split; [done|]. intros H. by specialize (H []).
  - destruct old as [[|b l]|v' cb'].
    + split; [|done]. by intros _ [|k p].
    + split; [done|]. intros H. by specialize (H []).
    + split; [|done]. by intros _ [|k p].
Qed.

(** ** Registering a callback *)

Lemma register_spec null path cb m :
  match register_at null path cb m with
  | (Ok v, m') => v = match entry_at path m with Some (v, _) => v | None => null end /\
      forall p, entry_at p m' = if bool_decide (p = path) then Some (v, Some cb) else entry_at p m
  | (Err _, m') => (forall p, entry_at p m' = entry_at p m)
  | (Panic _, _) => False
  end.
Proof.
  revert m. induction path as [|k path IH]; intros m; cbn [register_at].
  - destruct m as [[|b l]|v cb']; [..|]; cbn; try done; (split; [done|]);
      (intros [|k p]; [by rewrite bool_decide_eq_true_2|by rewrite bool_decide_eq_false_2]).
  - destruct m as [l|v cb']; [|done]. specialize (IH (default config_map_default (bt_get k l))).
    destruct (register_at null path cb (default config_map_default (bt_get k l))) as [[v|e|e] o]; [..|done].
    + destruct IH as [-> Hp]. rewrite entry_key. split; [done|]. intros [|k' p]; [done|]. rewrite entry_insert.
      destruct (String.eqb_spec k' k) as [->|].
      * rewrite Hp, entry_key. case_bool_decide as E; case_bool_decide as E'; congruence.
      * by rewrite bool_decide_eq_false_2 by congruence.
    + intros [|k' p]; [done|]. rewrite entry_insert. destruct (String.eqb_spec k' k) as [->|]; [|done].
      by rewrite IH, entry_key.
Qed.

(** ** Merging *)

Lemma merge_loop_get ol l k : NoDup (List.map fst ol) ->
  bt_get k (merge_loop merge_overrides ol l) =
    match bt_get k ol, bt_get k l with
    | Some o, Some m => Some (merge_overrides o m)
    | Some o, None => Some o
    | None, m => m
    end.
Proof.
  revert l. induction ol as [|[k1 o] ol IH]; intros l Hnd; [done|]. cbn [List.map fst] in Hnd.
  apply NoDup_cons in Hnd as [Hk Hnd]. rewrite list_elem_of_In in Hk. cbn [merge_loop bt_get].
  fold (merge_loop (merge_overrides (V := V))). rewrite IH by done.
  destruct (String.eqb_spec k k1) as [->|Hne].
  - rewrite (bt_get_none k1 ol Hk). by destruct (bt_get k1 l); rewrite bt_get_insert_eq.
  - by destruct (bt_get k1 l); rewrite bt_get_insert_ne.
Qed.

Lemma merge_node ol l k p : NoDup (List.map fst ol) ->
  entry_at (k :: p) (merge_overrides (CMap ol) (CMap l)) =
    match bt_get k ol, bt_get k l with
    | Some o, Some m => entry_at p (merge_overrides o m)
    | Some o, None => entry_at p o
    | None, _ => entry_at (k :: p) (CMap l)
    end.
Proof.
  intros Hnd. cbn [merge_overrides]. rewrite !entry_key, merge_loop_get by done.
  by destruct (bt_get k ol), (bt_get k l).
Qed.

Lemma distinct_get nl k (n : ConfigMap V) : distinct (CMap nl) -> bt_get k nl = Some n -> distinct n.
Proof.
  intros [_ H]. induction nl as [|[k1 n1] nl IH]; cbn in *; [done|]. destruct H as [H1 H].
  destruct (String.eqb k k1); [by intros [= <-]|by apply IH].
Qed.
End facts.

(** ** The configuration *)
Section properties.
Context {V : Type}.
Variable null : V.
Implicit Types (c : Config V) (new : ConfigMap V) (p path : list string).

(** What the modules do with a configuration. *)
Inductive ConfigOp : Type :=
  | OpSet (in_map : ConfigMap V)
  | OpRegister (path : list string) (update_cb : nat).

Definition run_op (o : ConfigOp) : M (Config V) unit :=
  match o with
  | OpSet m => set_module_config m
  | OpRegister path cb => register_entry_update_cb null path cb
  end.

(** The effect of calls one after the other, whatever they answer. *)
Definition run_ops (os : list ConfigOp) (c : Config V) : Config V := fold_left (fun c o => (run_op o c).2) os c.

Definition set_op (o : ConfigOp) : Prop := match o with OpSet m => distinct m | OpRegister _ _ => True end.
Definition registers_at path (o : ConfigOp) : Prop := match o with OpSet _ => False | OpRegister q _ => q = path end.

(** Setting a module's values succeeds exactly when no entry meets a map.
    Then every entry of the tree is written, every other one is as it was, a
    registered callback stays and is called with its new value, in the order
    of the tree, and no other callback is called.  When a conflict stops it, no
    callback is called, and each entry is the old or the new one: those written
    before the conflict stay. *)
Theorem set_config_exact new c r c' : distinct new -> set_module_config new c = (r, c') ->
  (r = Ok tt <-> forall p, conflict p new (map c) = false) /\
  match r with
  | Ok _ => (forall p, entry_at p (map c') = written (entry_at p new) (entry_at p (map c))) /\
      cb_calls c' = cb_calls c ++ calls_of new (map c)
  | Err _ => cb_calls c' = cb_calls c /\
      forall p, entry_at p (map c') = entry_at p (map c) \/
        entry_at p (map c') = written (entry_at p new) (entry_at p (map c))
  | Panic _ => False
  end.
Proof.
  intros Hd. unfold set_module_config. pose proof (apply_map_spec new (map c) Hd) as Ha.
  rewrite <- (apply_map_applies new (map c) Hd).
  destruct (apply_map new (map c)) as [[[[]|e|e] m] u]; cbn in Ha; intros [= <- <-]; [..|done]; cbn.
  - split; [done|]. by destruct Ha as [Hp ->].
  - split; [done|]. by rewrite app_nil_r.
Qed.

Lemma set_step new c : distinct new ->
  forall p v cb, entry_at p (map c) = Some (v, Some cb) ->
  exists v', entry_at p (map (set_module_config new c).2) = Some (v', Some cb).
Proof.
  intros Hd p v cb Hp. unfold set_module_config. pose proof (apply_map_spec new (map c) Hd) as Ha.
  assert (Hw : exists v', written (entry_at p new) (entry_at p (map c)) = Some (v', Some cb)).
  { rewrite Hp. destruct (entry_at p new) as [[v' ?]|]; eauto. }
  destruct (apply_map new (map c)) as [[[[]|e|e] m] u]; cbn in Ha |- *; [..|done].
  - destruct Ha as [-> _]. done.
  - destruct (Ha p) as [-> | ->]; [eauto|done].
Qed.

Lemma register_step q b c p v cb : q <> p -> entry_at p (map c) = Some (v, Some cb) ->
  entry_at p (map (register_entry_update_cb null q b c).2) = Some (v, Some cb).
Proof.
  intros Hne Hp. unfold register_entry_update_cb. pose proof (register_spec null q b (map c)) as Hr.
  destruct (register_at null q b (map c)) as [[w|e|e] m]; cbn; [..|done].
  - destruct Hr as [_ ->]. by rewrite bool_decide_eq_false_2.
  - by rewrite Hr.
Qed.

Lemma run_ops_keep path cb os c : Forall set_op os -> Forall (fun o => ~ registers_at path o) os ->
  (exists v, entry_at path (map c) = Some (v, Some cb)) -> exists v, entry_at path (map (run_ops os c)) = Some (v, Some cb).
Proof.
  intros Hs Hr. revert c. induction os as [|o os IH]; intros c [v Hv]; [by exists v|].
  apply Forall_cons in Hs as [Ho Hs], Hr as [Hn Hr]. apply IH; [done..|]. destruct o as [m|q b]; cbn in *.
  - by apply (set_step m c Ho path v).
  - exists v. by apply register_step.
Qed.

Lemma heard_in new old p v cb w : entry_at p old = Some (w, Some cb) -> In (p, v) (leaves new) ->
  In (cb, v) (calls_of new old).
Proof.
  intros Ho Hin. unfold calls_of. apply list_elem_of_In, list_elem_of_omap.
  exists (p, v). split; [by apply list_elem_of_In|]. unfold heard. cbn. by rewrite Ho.
Qed.

Lemma entry_leaf new p v cb : entry_at p new = Some (v, cb) -> In (p, v) (leaves new).
Proof.
  revert p. induction new as [l IH|v' cb'] using ConfigMap_rec_on; intros p Hp.
  - destruct p as [|k p]; [done|]. rewrite entry_key in Hp. cbn [leaves]. apply in_flat_map.
    induction IH as [|[k1 n1] l Hn _ IHl]; cbn [bt_get from_option] in Hp; [by rewrite entry_nil in Hp|].
    destruct (String.eqb_spec k k1) as [->|].
    + exists (k1, n1). split; [by left|]. apply in_map_iff. exists (p, v). split; [done|]. by apply Hn.
    + destruct (IHl Hp) as (b & Hb & Hin). exists b. split; [by right|done].
  - destruct p; [|done]. injection Hp as -> ->. by left.
Qed.

(** C36: A callback registered for an entry is called at once with the entry's
    value, and from then on, until another one is registered for the same entry
    and whatever is set and registered meanwhile, by every setting that succeeds
    and has a value for the entry, with that value. *)
Theorem updates_reach_callback path cb c c1 os new v x c2 :
  register_entry_update_cb null path cb c = (Ok tt, c1) ->
  Forall set_op os -> Forall (fun o => ~ registers_at path o) os ->
  distinct new -> entry_at path new = Some (v, x) ->
  set_module_config new (run_ops os c1) = (Ok tt, c2) ->
  cb_calls c1 = cb_calls c ++ [(cb, match entry_at path (map c) with Some (w, _) => w | None => null end)] /\
  exists before after, cb_calls c2 = cb_calls (run_ops os c1) ++ before ++ (cb, v) :: after.
Proof.
  intros Hreg Hs Hr Hd Hnew Hset. unfold register_entry_update_cb in Hreg.
  pose proof (register_spec null path cb (map c)) as Hspec.
  destruct (register_at null path cb (map c)) as [[w|e|e] m]; [|done..]. injection Hreg as <-. destruct Hspec as [Hw Hp].
  split; [by rewrite <- Hw|].
  destruct (run_ops_keep path cb os (set_map m [(cb, w)] c) Hs Hr) as [u Hu].
  { exists w. cbn. by rewrite Hp, bool_decide_eq_true_2. }
  unfold set_module_config in Hset. pose proof (apply_map_spec new (map (run_ops os (set_map m [(cb, w)] c))) Hd) as Ha.
  destruct (apply_map new _) as [[[[]|e|e] m2] us]; [|done..]. injection Hset as <-. destruct Ha as [_ ->].
  destruct (in_split _ _ (heard_in new _ _ v cb u Hu (entry_leaf _ _ _ _ Hnew))) as (before & after & E).
  exists before, after. cbn. by rewrite E.
Qed.

Lemma merge_spec (o m : ConfigMap V) p : distinct o ->
  (forall e, entry_at p o = Some e -> entry_at p (merge_overrides o m) = Some e) /\
  (entry_at p (merge_overrides o m) = entry_at p o \/ entry_at p (merge_overrides o m) = entry_at p m) /\
  ((forall q, q `prefix_of` p -> match node_at q o with Some (CEntry _ _) => False | _ => True end) -> node_at p o = None ->
   entry_at p (merge_overrides o m) = entry_at p m).
Proof.
  revert m p. induction o as [ol IH|v cb] using ConfigMap_rec_on; intros m p Hd.
  2:{ cbn [merge_overrides]. split_and!; [done|by left|]. intros H. by destruct (H [] (prefix_nil _)). }
  destruct m as [l|v cb].
  2:{ cbn [merge_overrides]. split_and!; [done|by left|]. intros _ Hn. destruct p as [|k p]; [done|]. unfold entry_at. by rewrite Hn. }
  destruct p as [|k p]; [by split_and!; [|left|]|].
  rewrite merge_node by apply Hd. rewrite (entry_key k p ol), (entry_key k p l), node_key.
  destruct (bt_get k ol) as [o|] eqn:Eo.
  2:{ cbn [from_option]. rewrite entry_nil. split_and!; [done|by right|done]. }
  cbn [from_option]. destruct (bt_get k l) as [m|]; cbn [from_option].
  - rewrite Forall_forall in IH. apply (distinct_get ol k o) in Hd; [|done].
    destruct (IH (k, o) (bt_get_elem k o ol Eo) m p Hd) as (H1 & H2 & H3). split_and!; [done..|].
    intros Hq Hn. apply H3; [|done]. intros q Hp. specialize (Hq (k :: q) (prefix_cons _ _ _ Hp)).
    by rewrite node_key, Eo in Hq.
  - split_and!; [done|by left|]. intros _ Hn. rewrite entry_nil. unfold entry_at. by rewrite Hn.
Qed.

(** Merging overrides writes every entry of the overrides, makes up none, and
    leaves every entry that is not at or below an entry of the overrides, nor
    above one, as it was; only the tree changes. *)
Theorem merge_config_exact c o : distinct (map o) ->
  (forall p, (forall e, entry_at p (map o) = Some e -> entry_at p (map (merge_config_overrides c o)) = Some e) /\
    (entry_at p (map (merge_config_overrides c o)) = entry_at p (map o) \/
     entry_at p (map (merge_config_overrides c o)) = entry_at p (map c)) /\
    ((forall q, q `prefix_of` p -> match node_at q (map o) with Some (CEntry _ _) => False | _ => True end) ->
     node_at p (map o) = None -> entry_at p (map (merge_config_overrides c o)) = entry_at p (map c))) /\
  cb_calls (merge_config_overrides c o) = cb_calls c /\ is_runtime (merge_config_overrides c o) = is_runtime c.
Proof. intros Hd. split; [|done]. intros p. by apply merge_spec. Qed.
End properties.

(** ** At concrete trees *)
Section demo.
Local Open Scope string_scope.
Local Open Scope list_scope.

Definition demo_tree (a : Z) (b : ConfigMap Z) : ConfigMap Z :=
  CMap [("coreFetch", CMap [("a", CEntry a None); ("b", b)])].
Definition demo_config : Config Z := MkConfig (demo_tree 1 (CEntry 2 None)) true true false [].
Definition demo_ops : list ConfigOp :=
  [OpSet (demo_tree 3 (CEntry 4 None)); OpRegister ["coreFetch"; "b"] 8; OpRegister ["coreFetch"] 9].
Definition demo_registered : Config Z := (register_entry_update_cb 0 ["coreFetch"; "a"] 7 demo_config).2.
(** [b] is a map in the new tree and an entry in the old one. *)
Definition demo_conflict : ConfigMap Z := demo_tree 5 (CMap [("c", CEntry 6 None)]).

Lemma demo_distinct a b : distinct b -> distinct (demo_tree a b).
Proof.
  intros Hb. cbn. split_and!; try done; [apply NoDup_singleton|].
  apply NoDup_cons. split; [|apply NoDup_singleton]. by intros H%list_elem_of_singleton.
Qed.

Lemma updates_reach_callback_witness :
  cb_calls demo_registered = [] ++ [(7%nat, 1)] /\
  exists before after, cb_calls (set_module_config (demo_tree 5 (CEntry 6 None)) (run_ops 0 demo_ops demo_registered)).2 =
    cb_calls (run_ops 0 demo_ops demo_registered) ++ before ++ (7%nat, 5) :: after.
Proof.
  apply (updates_reach_callback 0 ["coreFetch"; "a"] 7 demo_config demo_registered demo_ops (demo_tree 5 (CEntry 6 None)) 5 None).
  - reflexivity.
  - constructor; [by apply demo_distinct|by repeat constructor].
  - repeat (apply Forall_cons_2; [by cbn; intros H|]). by apply Forall_nil_2.
  - by apply demo_distinct.
  - reflexivity.
  - reflexivity.
Defined.

(** The value before the conflict is written and nobody is told. *)
Lemma set_config_exact_witness :
  cb_calls (set_module_config demo_conflict demo_registered).2 = cb_calls demo_registered /\
  entry_at ["coreFetch"; "a"] (map (set_module_config demo_conflict demo_registered).2) = Some (5, Some 7%nat).
Proof.
  assert (Hd : distinct demo_conflict) by (apply demo_distinct; cbn; split; [apply NoDup_singleton|done]).
  destruct (set_config_exact demo_conflict demo_registered
    (Err "attempted to insert a map where an entry exists") _ Hd eq_refl) as [_ [Hc _]].
  split; [exact Hc|reflexivity].
Defined.

Lemma merge_config_exact_witness :
  entry_at ["coreFetch"; "b"] (map (merge_config_overrides demo_config
    (MkConfig (CMap [("coreFetch", CMap [("a", CEntry 5 None)])]) false false false []))) = Some (2, None).
Proof.
  apply (merge_config_exact demo_config (MkConfig (CMap [("coreFetch", CMap [("a", CEntry 5 None)])]) false false false [])).
  - cbn. split_and!; try done; apply NoDup_singleton.
  - intros q (s & Hs). destruct q as [|q1 [|q2 [|]]]; cbn in Hs |- *; simplify_eq; done.
  - reflexivity.
Defined.
End demo.
