(* ===== verification/CoreKitsune.v ===== *)
(** * The Kitsune instance

    [core/src/factories/core_kitsune.rs]: the spaces of an instance, their
    creation, which several callers may wait for, and their removal.  What the
    builder's factories make (handlers, transport, report, spaces) is an
    interface over a host [H].  A space's future is a place in an arena: the map
    holds its index, and so does every caller that waits for it. *)
From S2P Require Import Prelude Timestamp Id GossipProtocol Agent GossipWire PeerStore.
From S2P Require Import Access Transport.

(** The factories of the builder, and what is called of what they make. *)
Class KitsuneModules (Cfg Hd T R SH Sp H : Type) := {
  transport_create : Hd -> M H T;
  report_create : T -> M H R;
  create_space : Hd -> SpaceId -> option Cfg -> M H SH;
  space_create : option Cfg -> SH -> SpaceId -> R -> T -> M H Sp;
  local_agents_of : Sp -> M H (list AgentId);
  peers_of : Sp -> M H (list AgentInfoSigned);
  tx_unregister_space : T -> SpaceId -> M H unit;
  tx_connected_peers : T -> M H (list Url);
  tx_disconnect : T -> Url -> option string -> M H unit
}.

(** A shared future: not polled yet, waiting for the factory of the space, or
    done. *)
Inductive SpaceFut (Cfg Hd T R SH Sp : Type) : Type :=
  | FNew (handler : Hd) (tx : T) (report : R) (space_id : SpaceId) (config_override : option Cfg)
  | FHandled (sh : SH) (tx : T) (report : R) (space_id : SpaceId) (config_override : option Cfg)
  | FDone (r : res Sp).
Arguments FNew {Cfg Hd T R SH Sp}.
Arguments FHandled {Cfg Hd T R SH Sp}.
Arguments FDone {Cfg Hd T R SH Sp}.

Record CoreKitsune (Cfg Hd T R SH Sp H : Type) : Type := MkKitsune {
  ck_handler : option Hd;
  ck_futs : list (SpaceFut Cfg Hd T R SH Sp);
  ck_map : gmap (list Z) nat;
  ck_tx : option T;
  ck_report : option R;
  ck_host : H
}.
Arguments MkKitsune {Cfg Hd T R SH Sp H}.
Arguments ck_handler {Cfg Hd T R SH Sp H}.
Arguments ck_futs {Cfg Hd T R SH Sp H}.
Arguments ck_map {Cfg Hd T R SH Sp H}.
Arguments ck_tx {Cfg Hd T R SH Sp H}.
Arguments ck_report {Cfg Hd T R SH Sp H}.
Arguments ck_host {Cfg Hd T R SH Sp H}.

Section kitsune.
Context {Cfg Hd T R SH Sp H : Type} `{KitsuneModules Cfg Hd T R SH Sp H}.
Abbreviation Kitsune := (CoreKitsune Cfg Hd T R SH Sp H).
Abbreviation Fut := (SpaceFut Cfg Hd T R SH Sp).
Implicit Types (k : Kitsune) (space : SpaceId) (i : nat).

Definition kitsune_new (h : H) : Kitsune := MkKitsune None [] ∅ None None h.

Definition set_futs (f : list Fut -> list Fut) k : Kitsune :=
  MkKitsune (ck_handler k) (f (ck_futs k)) (ck_map k) (ck_tx k) (ck_report k) (ck_host k).
Definition set_spaces (f : gmap (list Z) nat -> gmap (list Z) nat) k : Kitsune :=
  MkKitsune (ck_handler k) (ck_futs k) (f (ck_map k)) (ck_tx k) (ck_report k) (ck_host k).
Definition on_host {A} (m : M H A) : M Kitsune A := fun k =>
  let '(r, h) := m (ck_host k) in
  (r, MkKitsune (ck_handler k) (ck_futs k) (ck_map k) (ck_tx k) (ck_report k) h).

Definition some_or {A} (e : string) (o : option A) : M Kitsune A :=
  match o with Some a => ret a | None => fail e end.

(** [OnceLock::set] *)
Definition once {A} (e : string) (old : option A) (set : Kitsune -> Kitsune) : M Kitsune unit :=
  match old with Some _ => fail e | None => modify set end.

Definition already : string := "handler already registered".

(** The three locks are set at the end, whatever was registered meanwhile. *)
Definition register_finish (handler : Hd) (tx : T) (report : R) : M Kitsune unit :=
  let* k := get in
  once already (ck_handler k) (fun k => MkKitsune (Some handler) (ck_futs k) (ck_map k) (ck_tx k) (ck_report k) (ck_host k)) ;;*
  once already (ck_tx k) (fun k => MkKitsune (ck_handler k) (ck_futs k) (ck_map k) (Some tx) (ck_report k) (ck_host k)) ;;*
  once already (ck_report k) (fun k => MkKitsune (ck_handler k) (ck_futs k) (ck_map k) (ck_tx k) (Some report) (ck_host k)).

Definition register_handler (handler : Hd) : M Kitsune unit :=
  let* k := get in
  match ck_handler k with
  | Some _ => fail already
  | None =>
      let* tx := on_host (transport_create handler) in
      let* report := on_host (report_create tx) in
      register_finish handler tx report
  end.

Definition list_spaces k : list SpaceId := (map_to_list (ck_map k)).*1.

Definition transport : M Kitsune T := let* k := get in some_or "Transport not registered yet" (ck_tx k).
Definition report : M Kitsune R := let* k := get in some_or "Report not registered yet" (ck_report k).

(** The future of a space: the one there is, or a new one. *)
Definition space_fut space (config_override : option Cfg) : M Kitsune nat :=
  let* k := get in
  match ck_map k !! space with
  | Some i => ret i
  | None =>
      let err := "handler not registered"%string in
      let* handler := some_or err (ck_handler k) in
      let* tx := some_or err (ck_tx k) in
      let* report := some_or err (ck_report k) in
      let i := length (ck_futs k) in
      modify (set_futs (fun l => l ++ [FNew handler tx report space config_override])) ;;*
      modify (set_spaces <[ space := i ]>) ;;*
      ret i
  end.

Definition set_fut i (f : Fut) : M Kitsune unit := modify (set_futs <[ i := f ]>).

(** The step of a future to its end: the call of the host, whose error is the
    future's result. *)
Definition finish_fut i (m : M H Sp) : M Kitsune (option (res Sp)) := fun k =>
  match on_host m k with
  | (Ok sp, k) => (set_fut i (FDone (Ok sp)) ;;* ret (Some (Ok sp))) k
  | (Err e, k) => (set_fut i (FDone (Err e)) ;;* ret (Some (Err e))) k
  | (Panic e, k) => (Panic e, k)
  end.

(** One poll takes a future to its next wait, or to its result, which every
    later poll returns again. *)
Definition poll i : M Kitsune (option (res Sp)) := fun k =>
  match ck_futs k !! i with
  | None => (Panic "no such future", k)
  | Some (FDone r) => (Ok (Some r), k)
  | Some (FNew handler tx report space ov) =>
      match on_host (create_space handler space ov) k with
      | (Ok sh, k) => (set_fut i (FHandled sh tx report space ov) ;;* ret None) k
      | (Err e, k) => (set_fut i (FDone (Err e)) ;;* ret (Some (Err e))) k
      | (Panic e, k) => (Panic e, k)
      end
  | Some (FHandled sh tx report space ov) => finish_fut i (space_create ov sh space report tx) k
  end.

(** [fut.await]: two polls are always enough. *)
Definition await_fut i : M Kitsune (res Sp) :=
  let* r := poll i in
  match r with
  | Some r => ret r
  | None => let* r := poll i in match r with Some r => ret r | None => fail "pending" end
  end.

Definition space_of space (config_override : option Cfg) : M Kitsune Sp :=
  let* i := space_fut space config_override in
  let* r := await_fut i in
  lift_res r.

Definition space_if_exists space : M Kitsune (option Sp) :=
  let* k := get in
  match ck_map k !! space with
  | None => ret None
  | Some i => let* r := await_fut i in ret match r with Ok sp => Some sp | _ => None end
  end.

(** ** Removal, in the parts between its waits *)

Definition has_agents : string := "Cannot remove space with local agents".

(** The space to remove, when there is one that could be created. *)
Definition remove_check space : M Kitsune bool :=
  let* k := get in
  match ck_map k !! space with
  | None => ret false
  | Some i =>
      let* r := await_fut i in
      match r with
      | Ok s =>
          let* agents := on_host (local_agents_of s) in
          if bool_decide (agents = []) then ret true else fail has_agents
      | _ => ret false
      end
  end.

Definition remove_entry space : M Kitsune unit := modify (set_spaces (delete space)).

Definition remove_unregister space : M Kitsune unit :=
  let* tx := transport in on_host (tx_unregister_space tx space).

Definition urls_of (l : list AgentInfoSigned) : list Url := omap (fun a : AgentInfoSigned => ai_url a) l.

(** One of the other spaces: the connected peers it does not know of stay. An
    error of its store is dropped with its future. *)
Definition keep_unknown (connected : gset Url) i : M Kitsune (gset Url) :=
  let* r := await_fut i in
  match r with
  | Ok s =>
      let* infos := or_log None (let* l := on_host (peers_of s) in ret (Some l)) in
      ret match infos with
          | Some infos => filter (fun u => u ∉ urls_of infos) connected
          | None => connected
          end
  | _ => ret connected
  end.

Definition removed_reason : option string := Some "Space is being removed"%string.

Definition remove_disconnect : M Kitsune unit :=
  let* tx := transport in
  let* urls := on_host (tx_connected_peers tx) in
  let* k := get in
  let* connected := fold_m keep_unknown (list_to_set urls) (map_to_list (ck_map k)).*2 in
  let* tx := transport in
  for_each (elements connected) (fun url => on_host (tx_disconnect tx url removed_reason)).

Definition remove_space space : M Kitsune unit :=
  let* found := remove_check space in
  if found : bool then
    remove_entry space ;;* remove_unregister space ;;* remove_disconnect
  else ret tt.
End kitsune.

(** ** Futures only go forward *)
Section futures.
Context {Cfg Hd T R SH Sp H : Type} `{KitsuneModules Cfg Hd T R SH Sp H}.
Abbreviation Kitsune := (CoreKitsune Cfg Hd T R SH Sp H).
Implicit Types (k : Kitsune) (space : SpaceId) (i : nat).

(** One caller's part, between two of its waits. *)
Inductive KitsuneOp : Type :=
  | OpRegister (handler : Hd)
  | OpRegisterFinish (handler : Hd) (tx : T) (report : R)
  | OpSpaceFut (space : SpaceId) (config_override : option Cfg)
  | OpPoll (i : nat)
  | OpSpace (space : SpaceId) (config_override : option Cfg)
  | OpIfExists (space : SpaceId)
  | OpRemove (space : SpaceId)
  | OpUnregister (space : SpaceId)
  | OpDisconnect.

Definition run_kitsune_op (o : KitsuneOp) : Kitsune -> Kitsune := fun k =>
  match o with
  | OpRegister hd => (register_handler hd k).2
  | OpRegisterFinish hd tx report => (register_finish hd tx report k).2
  | OpSpaceFut space ov => (space_fut space ov k).2
  | OpPoll i => (poll i k).2
  | OpSpace space ov => (space_of space ov k).2
  | OpIfExists space => (space_if_exists space k).2
  | OpRemove space => (remove_space space k).2
  | OpUnregister space => (remove_unregister space k).2
  | OpDisconnect => (remove_disconnect k).2
  end.
Definition run_kitsune_ops (os : list KitsuneOp) k : Kitsune := fold_left (fun k o => run_kitsune_op o k) os k.

Definition fut_failed k i : Prop := exists e, ck_futs k !! i = Some (FDone (Err e)).

(** A result stays, and so does the entry of a space whose creation failed. *)
Definition forward k k' : Prop :=
  (forall i r, ck_futs k !! i = Some (FDone r) -> ck_futs k' !! i = Some (FDone r)) /\
  (forall space i, ck_map k !! space = Some i -> fut_failed k i -> ck_map k' !! space = Some i).

Definition goes {A} (m : M Kitsune A) : Prop := forall k, forward k (m k).2.

Lemma forward_refl k : forward k k.
Proof. done. Qed.

Lemma forward_trans k1 k2 k3 : forward k1 k2 -> forward k2 k3 -> forward k1 k3.
Proof.
  intros [F1 M1] [F2 M2]. split; [eauto|]. intros space i Hi [e He]. apply M2; [|exists e; auto].
  apply M1; [done|by exists e].
Qed.

Lemma goes_same {A} (m : M Kitsune A) : (forall k, ck_futs (m k).2 = ck_futs k /\ ck_map (m k).2 = ck_map k) -> goes m.
Proof. intros Hm k. destruct (Hm k) as [E1 E2]. unfold forward. by rewrite E1, E2. Qed.

Lemma goes_ret {A} (a : A) : goes (ret a).
Proof. by apply goes_same. Qed.

Lemma goes_fail {A} e : goes (fail (A := A) e).
Proof. by apply goes_same. Qed.

Lemma goes_bind {A B} (m : M Kitsune A) (f : A -> M Kitsune B) : goes m -> (forall a, goes (f a)) -> goes (bind m f).
Proof.
  intros Hm Hf k. unfold bind. specialize (Hm k). destruct (m k) as [[a|e|e] k1]; [|done..].
  eapply forward_trans; [done|apply Hf].
Qed.

Lemma goes_host {A} (m : M H A) : goes (on_host (Cfg := Cfg) (Hd := Hd) (T := T) (R := R) (SH := SH) (Sp := Sp) m).
Proof. apply goes_same. intros k. unfold on_host. by destruct (m (ck_host k)). Qed.

Lemma goes_some_or {A} e (o : option A) : goes (some_or e o).
Proof. destruct o; [apply goes_ret|apply goes_fail]. Qed.

Lemma goes_get_then {B} (f : Kitsune -> M Kitsune B) : (forall k, forward k (f k k).2) -> goes (bind get f).
Proof. intros Hf k. apply Hf. Qed.

Lemma goes_or_log {A} (d : A) (m : M Kitsune A) : goes m -> goes (or_log d m).
Proof. intros Hm k. specialize (Hm k). unfold or_log. by destruct (m k) as [[a|e|e] k1]. Qed.

Lemma goes_for_each {A} (l : list A) (f : A -> M Kitsune unit) : (forall a, goes (f a)) -> goes (for_each l f).
Proof. intros Hf. induction l as [|a l IH]; [apply goes_ret|]. by apply goes_bind. Qed.

Lemma goes_fold {A B} (f : B -> A -> M Kitsune B) (l : list A) : (forall b a, goes (f b a)) -> forall b, goes (fold_m f b l).
Proof. intros Hf. induction l as [|a l IH]; intros b; [apply goes_ret|]. by apply goes_bind. Qed.

Lemma goes_register_finish hd tx rp : goes (register_finish hd tx rp).
Proof.
  apply goes_get_then. intros k. assert (Ho : forall A (o : option A) f,
    (forall k, ck_futs (f k) = ck_futs k /\ ck_map (f k) = ck_map k) -> goes (once already o f)).
  { intros A [a|] f Hf; [apply goes_fail|]. by apply goes_same. }
  apply goes_bind; [by apply Ho|]. intros _. apply goes_bind; [by apply Ho|]. intros _. by apply Ho.
Qed.

Lemma goes_register hd : goes (register_handler hd).
Proof.
  apply goes_get_then. intros k. destruct (ck_handler k); [apply forward_refl|].
  apply (goes_bind _ _ (goes_host _)). intros tx. apply goes_bind; [apply goes_host|]. intros rp. apply goes_register_finish.
Qed.

(** Writing over a future that has no result yet. *)
Lemma set_fut_forward k i f : (forall r, ck_futs k !! i <> Some (FDone r)) -> forward k (set_futs <[ i := f ]> k).
Proof.
  intros Hi. split; [|done]. intros j r Hj. cbn. destruct (decide (i = j)) as [->|Hne]; [by apply Hi in Hj|].
  by rewrite list_lookup_insert_ne.
Qed.

Lemma host_same {A} (m : M H A) k r k' : on_host m k = (r, k') -> ck_futs k' = ck_futs k /\ ck_map k' = ck_map k /\ forward k k'.
Proof. unfold on_host. destruct (m (ck_host k)). by intros [= <- <-]. Qed.

Lemma finish_forward i (m : M H Sp) k : (forall r, ck_futs k !! i <> Some (FDone r)) -> forward k (finish_fut i m k).2.
Proof.
  intros Hi. unfold finish_fut. destruct (on_host m k) as [[sp|e|e] k1] eqn:E; apply host_same in E as (Ef & Em & Hf); [..|done];
    (eapply forward_trans; [exact Hf|]; apply set_fut_forward; by rewrite Ef).
Qed.

Lemma goes_poll i : goes (poll i).
Proof.
  intros k. unfold poll. destruct (ck_futs k !! i) as [[hd tx rp space ov|sh tx rp space ov|r]|] eqn:Ei; [..|done|done].
  - destruct (on_host (create_space hd space ov) k) as [[sh|e|e] k1] eqn:E; apply host_same in E as (Ef & Em & Hf); [..|done];
      (eapply forward_trans; [exact Hf|]; apply set_fut_forward; by rewrite Ef, Ei).
  - apply finish_forward. by rewrite Ei.
Qed.

Lemma goes_await i : goes (await_fut i).
Proof.
  apply goes_bind; [apply goes_poll|]. intros [r|]; [apply goes_ret|]. apply goes_bind; [apply goes_poll|].
  intros [r|]; [apply goes_ret|apply goes_fail].
Qed.

Lemma goes_space_fut space ov : goes (space_fut space ov).
Proof.
  apply goes_get_then. intros k. destruct (ck_map k !! space) as [i|] eqn:Em; [apply forward_refl|].
  destruct (ck_handler k) as [hd|]; [|apply forward_refl]. destruct (ck_tx k) as [tx|]; [|apply forward_refl].
  destruct (ck_report k) as [rp|]; [|apply forward_refl]. split; cbn.
  - intros i r Hi. by apply lookup_app_l_Some.
  - intros s i Hs _. rewrite lookup_insert_ne; [done|]. intros <-. by rewrite Em in Hs.
Qed.

(** A future that answers is done. *)
Lemma finish_done i (m : M H Sp) k r k' : finish_fut i m k = (Ok r, k') -> (i < length (ck_futs k))%nat ->
  exists a, r = Some a /\ ck_futs k' !! i = Some (FDone a) /\ ck_map k' = ck_map k.
Proof.
  unfold finish_fut. intros E Hi. destruct (on_host m k) as [[sp|e|e] k1] eqn:E1; apply host_same in E1 as (Ef & Em & _);
    cbn in E; try done; injection E as <- <-; eexists; (split; [done|]); cbn;
    rewrite list_lookup_insert_eq by (rewrite Ef; lia); done.
Qed.

Lemma poll_done i k r k' : poll i k = (Ok r, k') ->
  ck_map k' = ck_map k /\ match r with
  | Some a => ck_futs k' !! i = Some (FDone a)
  | None => exists sh tx rp space ov, ck_futs k' !! i = Some (FHandled sh tx rp space ov)
  end.
Proof.
  unfold poll. destruct (ck_futs k !! i) as [[hd tx rp space ov|sh tx rp space ov|a]|] eqn:Ei; [..|done].
  - assert (Hi := lookup_lt_Some _ _ _ Ei). destruct (on_host (create_space hd space ov) k) as [[sh|e|e] k1] eqn:E;
      apply host_same in E as (Ef & Em & _); cbn; [..|done]; intros [= <- <-]; (split; [done|]); cbn;
      rewrite list_lookup_insert_eq by (rewrite Ef; lia); eauto 10.
  - intros E. apply finish_done in E as (a & -> & Ha & Hm); [done|]. apply lookup_lt_Some in Ei. lia.
  - by intros [= <- <-].
Qed.

Lemma await_done i k r k' : await_fut i k = (Ok r, k') -> ck_futs k' !! i = Some (FDone r) /\ ck_map k' = ck_map k.
Proof.
  unfold await_fut. intros (a & k1 & Hp & E)%bind_inv. apply poll_done in Hp as [Hm Ha]. destruct a as [a|].
  - injection E as <- <-. done.
  - apply bind_inv in E as (b & k2 & Hp & E). apply poll_done in Hp as [Hm2 Hb].
    destruct b as [b|]; [|done]. injection E as <- <-. by rewrite Hm2.
Qed.

Lemma await_ready i k r : ck_futs k !! i = Some (FDone r) -> await_fut i k = (Ok r, k).
Proof. intros Hi. unfold await_fut, bind, poll. by rewrite Hi. Qed.

(** The removal goes on only with a space that exists. *)
Lemma check_true space k k' : remove_check space k = (Ok true, k') ->
  exists i s, ck_map k' !! space = Some i /\ ck_futs k' !! i = Some (FDone (Ok s)).
Proof.
  unfold remove_check. intros (k0 & k1 & [= <- <-] & E)%bind_inv. destruct (ck_map k !! space) as [i|] eqn:Em; [|done].
  apply bind_inv in E as (r & k2 & Ha & E). apply await_done in Ha as [Hi Hm]. destruct r as [s|e|e]; [|done..].
  apply bind_inv in E as (agents & k3 & Ho & E). apply host_same in Ho as (Ef & Em3 & _).
  case_bool_decide; [|done]. injection E as <-. exists i, s. by rewrite Em3, Hm, Ef.
Qed.

Lemma goes_check space : goes (remove_check space).
Proof.
  apply goes_get_then. intros k. destruct (ck_map k !! space) as [i|]; [|apply forward_refl].
  apply (goes_bind _ _ (goes_await i)). intros [s|e|e]; [|apply goes_ret..]. apply goes_bind; [apply goes_host|].
  intros agents. case_bool_decide; [apply goes_ret|apply goes_fail].
Qed.

Lemma goes_unregister space : goes (remove_unregister space).
Proof. apply goes_bind; [apply goes_get_then; intros k; apply goes_some_or|]. intros tx. apply goes_host. Qed.

Lemma goes_keep_unknown connected i : goes (keep_unknown connected i).
Proof.
  apply goes_bind; [apply goes_await|]. intros [s|e|e]; [|apply goes_ret..].
  apply goes_bind; [|intros; apply goes_ret]. apply goes_or_log, goes_bind; [apply goes_host|intros; apply goes_ret].
Qed.

Lemma goes_disconnect : goes remove_disconnect.
Proof.
  apply goes_bind; [apply goes_get_then; intros k; apply goes_some_or|]. intros tx.
  apply goes_bind; [apply goes_host|]. intros urls. apply goes_get_then. intros k.
  apply (goes_bind _ _ (goes_fold _ _ goes_keep_unknown _)). intros c.
  apply goes_bind; [apply goes_get_then; intros k1; apply goes_some_or|]. intros tx1. apply goes_for_each. intros u. apply goes_host.
Qed.

Lemma goes_remove space : goes (remove_space space).
Proof.
  intros k. pose proof (goes_check space k) as Hc. unfold remove_space, bind at 1.
  destruct (remove_check space k) as [[[|]|e|e] k1] eqn:E; [|done..]. cbn in Hc. eapply forward_trans; [exact Hc|].
  apply check_true in E as (i & s & Hi & Hs). eapply forward_trans.
  2:{ eapply (goes_bind _ _ (goes_unregister space)). intros _. apply goes_disconnect. }
  split; [done|]. intros space' j Hj [e He]. cbn. rewrite lookup_delete_ne; [done|]. intros <-. congruence.
Qed.

Lemma goes_if_exists space : goes (space_if_exists space).
Proof.
  apply goes_get_then. intros k. destruct (ck_map k !! space); [|apply forward_refl].
  apply (goes_bind _ _ (goes_await _)). intros; apply goes_ret.
Qed.

Lemma run_forward os k : forward k (run_kitsune_ops os k).
Proof.
  revert k. induction os as [|o os IH]; intros k; [apply forward_refl|]. eapply forward_trans; [|apply IH].
  destruct o as [hd|hd tx rp|space ov|i|space ov|space|space|space|]; cbn.
  - apply goes_register.
  - apply goes_register_finish.
  - apply goes_space_fut.
  - apply goes_poll.
  - apply goes_bind; [apply goes_space_fut|]. intros i. apply goes_bind; [apply goes_await|]. intros r. by apply goes_same.
  - apply goes_if_exists.
  - apply goes_remove.
  - apply goes_unregister.
  - apply goes_disconnect.
Qed.
End futures.

(** ** What callers see *)
Section callers.
Context {Cfg Hd T R SH Sp H : Type} `{KitsuneModules Cfg Hd T R SH Sp H}.
Abbreviation Kitsune := (CoreKitsune Cfg Hd T R SH Sp H).
Implicit Types (k : Kitsune) (space : SpaceId) (i : nat).


(** ** Removal *)

(** What a removal does to the transport. *)
Inductive TxEffect : Type := Unregistered (space : SpaceId) | Disconnected (url : Url) (reason : option string).

(** During the removal the transport and the stores answer as they do now, and
    only the transport's own calls have effects there. *)
Record removal_host (locals : Sp -> list AgentId) (known : Sp -> option (list AgentInfoSigned)) (connected : res (list Url))
  (effects : H -> list TxEffect) : Prop := {
  locals_answer sp h : exists h', local_agents_of sp h = (Ok (locals sp), h') /\ effects h' = effects h;
  peers_answer sp h : exists r h', peers_of sp h = (r, h') /\ effects h' = effects h /\
    match r with Ok l => known sp = Some l | Err _ => known sp = None | Panic _ => False end;
  connected_answer tx h : exists h', tx_connected_peers tx h = (connected, h') /\ effects h' = effects h;
  unregister_answer tx space h : exists h', tx_unregister_space tx space h = (Ok tt, h') /\
    effects h' = effects h ++ [Unregistered space];
  disconnect_answer tx url reason h : exists h', tx_disconnect tx url reason h = (Ok tt, h') /\
    effects h' = effects h ++ [Disconnected url reason]
}.

Context (locals : Sp -> list AgentId) (known : Sp -> option (list AgentInfoSigned)) (connected : res (list Url)).
Context (effects : H -> list TxEffect) (Hhost : removal_host locals known connected effects).
#[local] Set Default Proof Using "Type*".

Definition settled k : Prop := forall space i, ck_map k !! space = Some i -> exists r, ck_futs k !! i = Some (FDone r).

(** A URL that a space of the instance knows of. *)
Definition used_by k i (u : Url) : Prop :=
  exists sp l, ck_futs k !! i = Some (FDone (Ok sp)) /\ known sp = Some l /\ u ∈ urls_of l.

(** The same instance over another state of the host. *)
Definition with_host k (h : H) : Kitsune := MkKitsune (ck_handler k) (ck_futs k) (ck_map k) (ck_tx k) (ck_report k) h.

Lemma keep_unknown_spec c i r k : ck_futs k !! i = Some (FDone r) ->
  exists c' h, keep_unknown c i k = (Ok c', with_host k h) /\ effects h = effects (ck_host k) /\
    forall u, u ∈ c' <-> u ∈ c /\ ~ used_by k i u.
Proof.
  intros Hi. unfold keep_unknown, bind at 1. rewrite (await_ready _ _ _ Hi). destruct r as [sp|e|e].
  - destruct (peers_answer _ _ _ _ Hhost sp (ck_host k)) as (r & h & Hp & Heff & Hr).
    unfold bind at 1, or_log, bind at 1, on_host. rewrite Hp. destruct r as [l|e|e]; [..|done]; cbn.
    + eexists _, h. split; [reflexivity|]. split; [done|]. intros u. rewrite elem_of_filter.
      unfold used_by. rewrite Hi. split.
      * intros [Hn Hc]. split; [done|]. by intros (? & ? & [= <-] & Hk & Hu); simplify_eq.
      * intros [Hc Hn]. split; [|done]. intros Hu. apply Hn. eauto.
    + eexists c, h. split; [reflexivity|]. split; [done|]. intros u. split; [|by intros [? _]]. intros Hc. split; [done|].
      intros (? & ? & ? & Hk & _). simplify_eq.
  - exists c, (ck_host k). split; [by destruct k|]. split; [done|]. intros u. split; [|by intros [? _]]. intros Hc.
    split; [done|]. intros (? & ? & ? & _). simplify_eq.
  - exists c, (ck_host k). split; [by destruct k|]. split; [done|]. intros u. split; [|by intros [? _]]. intros Hc.
    split; [done|]. intros (? & ? & ? & _). simplify_eq.
Qed.

Lemma keep_all js : forall c k, Forall (fun i => exists r, ck_futs k !! i = Some (FDone r)) js ->
  exists c' h, fold_m keep_unknown c js k = (Ok c', with_host k h) /\ effects h = effects (ck_host k) /\
    forall u, u ∈ c' <-> u ∈ c /\ ~ exists i, i ∈ js /\ used_by k i u.
Proof.
  induction js as [|i js IH]; intros c k Hall.
  { exists c, (ck_host k). split; [by destruct k|]. split; [done|]. intros u. split; [|tauto]. intros Hc. split; [done|].
    by intros (i & Hi%elem_of_nil & _). }
  apply Forall_cons in Hall as [[r Hr] Hall]. destruct (keep_unknown_spec c i r k Hr) as (c1 & h1 & E1 & Heff1 & H1).
  destruct (IH c1 (with_host k h1) Hall) as (c2 & h2 & E2 & Heff2 & H2).
  exists c2, h2. cbn [fold_m]. unfold bind. rewrite E1, E2. split; [done|]. split; [by rewrite Heff2|].
  intros u. rewrite H2, H1. change (used_by (with_host k h1)) with (used_by k). split.
  - intros [[Hc Hn1] Hn2]. split; [done|]. intros (j & [->|Hj]%elem_of_cons & Hu); eauto.
  - intros [Hc Hn]. split_and!; [done|..]; [intros Hu; apply Hn; exists i|intros (j & Hj & Hu); apply Hn; exists j];
      by rewrite elem_of_cons; auto.
Qed.

Lemma disconnect_all tx us : forall k, exists h,
  for_each us (fun url => on_host (tx_disconnect tx url removed_reason)) k = (Ok tt, with_host k h) /\
  effects h = effects (ck_host k) ++ ((fun u => Disconnected u removed_reason) <$> us).
Proof.
  induction us as [|u us IH]; intros k; cbn [for_each].
  - exists (ck_host k). rewrite app_nil_r. by destruct k.
  - destruct (disconnect_answer _ _ _ _ Hhost tx u removed_reason (ck_host k)) as (h1 & E1 & Heff1).
    destruct (IH (with_host k h1)) as (h2 & E2 & Heff2). exists h2. unfold bind, on_host at 1. rewrite E1.
    change (MkKitsune _ _ _ _ _ h1) with (with_host k h1). rewrite E2. split; [done|].
    rewrite Heff2. cbn. by rewrite Heff1, <- app_assoc.
Qed.

Lemma host_runs {A} (m : M H A) k r h : m (ck_host k) = (r, h) -> on_host m k = (r, with_host k h).
Proof. unfold on_host. by intros ->. Qed.

Lemma transport_runs k tx : ck_tx k = Some tx -> transport k = (Ok tx, k).
Proof. unfold transport, bind, get. by intros ->. Qed.

Lemma check_ready space k i sp : ck_map k !! space = Some i -> ck_futs k !! i = Some (FDone (Ok sp)) ->
  exists h, remove_check space k = (if bool_decide (locals sp = []) then Ok true else Err has_agents, with_host k h) /\
    effects h = effects (ck_host k).
Proof.
  intros Hm Hi. destruct (locals_answer _ _ _ _ Hhost sp (ck_host k)) as (h & E & Heff). exists h. split; [|done].
  unfold remove_check. erewrite (bind_after get) by reflexivity. cbn beta. rewrite Hm. erewrite bind_after by by apply await_ready.
  cbn beta iota. erewrite bind_after by by apply host_runs. by case_bool_decide.
Qed.

Lemma unregister_runs space tx k : ck_tx k = Some tx ->
  exists h, remove_unregister space k = (Ok tt, with_host k h) /\ effects h = effects (ck_host k) ++ [Unregistered space].
Proof.
  intros Htx. destruct (unregister_answer _ _ _ _ Hhost tx space (ck_host k)) as (h & E & Heff). exists h. split; [|done].
  unfold remove_unregister. erewrite bind_after by by apply transport_runs. by apply host_runs.
Qed.

Lemma disconnect_runs tx k : ck_tx k = Some tx -> settled k ->
  exists r h, remove_disconnect k = (r, with_host k h) /\
    match connected with
    | Ok urls => r = Ok tt /\ exists gone : gset Url,
        (forall u, u ∈ gone <-> u ∈ urls /\ ~ exists other j, ck_map k !! other = Some j /\ used_by k j u) /\
        effects h = effects (ck_host k) ++ ((fun u => Disconnected u removed_reason) <$> elements gone)
    | Err e => r = Err e /\ effects h = effects (ck_host k)
    | Panic e => r = Panic e
    end.
Proof.
  intros Htx Hset. unfold remove_disconnect. erewrite bind_after by by apply transport_runs.
  destruct (connected_answer _ _ _ _ Hhost tx (ck_host k)) as (h3 & E3 & Heff3).
  apply host_runs in E3. assert (exists c, c = connected) as [c Hc] by eauto. rewrite <- Hc in E3 |- *.
  destruct c as [urls|e|e].
  2:{ exists (Err e), h3. by erewrite bind_err by exact E3. }
  2:{ exists (Panic e), h3. unfold bind. by rewrite E3. }
  erewrite bind_after by exact E3. erewrite (bind_after get) by reflexivity. cbn [ck_map with_host].
  destruct (keep_all (map_to_list (ck_map k)).*2 (list_to_set urls) (with_host k h3)) as (gone & h4 & E4 & Heff4 & Hg).
  { apply Forall_fmap, Forall_forall. intros [s j] Hj%elem_of_map_to_list. by apply (Hset s). }
  erewrite bind_after by exact E4. erewrite bind_after by by apply transport_runs.
  destruct (disconnect_all tx (elements gone) (with_host (with_host k h3) h4)) as (h5 & E5 & Heff5).
  exists (Ok tt), h5. split; [exact E5|]. split; [done|]. exists gone. split.
  - intros u. rewrite Hg, elem_of_list_to_set. split; intros [Hu Hn]; (split; [done|]); contradict Hn.
    + destruct Hn as (other & j & Hj & Hby). exists j. split; [|done]. apply list_elem_of_fmap. exists (other, j).
      split; [done|]. by apply elem_of_map_to_list.
    + destruct Hn as (j & ([s j'] & -> & Hj%elem_of_map_to_list)%list_elem_of_fmap & Hby). by exists s, j'.
  - cbn [ck_host with_host] in *. by rewrite Heff5, Heff4, Heff3.
Qed.

(** C34: Removing a space that has local agents is refused, and changes nothing.
    Otherwise its entry goes and its handlers are unregistered, and then the
    connected peers that no other space of the instance knows of are
    disconnected, each once, and no other: also one that no space has heard of
    yet.  When the transport cannot list its peers the removal fails, with the
    space already gone and every peer still connected. *)
Theorem remove_space_exact k space i sp tx r k' : settled k ->
  ck_map k !! space = Some i -> ck_futs k !! i = Some (FDone (Ok sp)) -> ck_tx k = Some tx ->
  remove_space space k = (r, k') ->
  ck_futs k' = ck_futs k /\
  if bool_decide (locals sp = []) then
    ck_map k' = delete (space : list Z) (ck_map k) /\
    match connected with
    | Ok urls => r = Ok tt /\ exists gone : gset Url,
        (forall u, u ∈ gone <-> u ∈ urls /\ ~ exists other j, other <> space /\ ck_map k !! other = Some j /\ used_by k j u) /\
        effects (ck_host k') = effects (ck_host k) ++
          Unregistered space :: ((fun u => Disconnected u removed_reason) <$> elements gone)
    | Err e => r = Err e /\ effects (ck_host k') = effects (ck_host k) ++ [Unregistered space]
    | Panic e => r = Panic e
    end
  else r = Err has_agents /\ ck_map k' = ck_map k /\ effects (ck_host k') = effects (ck_host k).
Proof.
  intros Hset Hm Hi Htx Hrun. unfold remove_space in Hrun.
  destruct (check_ready space k i sp Hm Hi) as (h1 & E1 & Heff1). destruct (bool_decide_reflect (locals sp = [])) as [Hl|Hl].
  2:{ erewrite bind_err in Hrun by exact E1. by injection Hrun as <- <-. }
  erewrite bind_after in Hrun by exact E1. cbn -[remove_unregister remove_disconnect] in Hrun.
  set (k1 := set_spaces (delete (space : list Z)) (with_host k h1)). fold k1 in Hrun.
  destruct (unregister_runs space tx k1 Htx) as (h2 & E2 & Heff2).
  erewrite bind_after in Hrun by exact E2.
  destruct (disconnect_runs tx (with_host k1 h2) Htx) as (r3 & h3 & E3 & H3).
  { intros s j Hj. cbn in Hj. apply lookup_delete_Some in Hj as [_ Hj]. by apply (Hset s). }
  rewrite E3 in Hrun. injection Hrun as <- <-. split; [done|]. split; [done|]. cbn in H3, Heff2 |- *. rewrite Heff1 in Heff2.
  destruct connected as [urls|e|e]; [|by destruct H3 as [-> ->]|done].
  destruct H3 as (-> & gone & Hg & Heff3). split; [done|]. exists gone. split.
  - intros u. rewrite Hg. split; intros [Hu Hn]; (split; [done|]); contradict Hn.
    + destruct Hn as (other & j & Hne & Hj & Hby). exists other, j. by rewrite lookup_delete_ne.
    + destruct Hn as (other & j & [Hne Hj]%lookup_delete_Some & Hby). by exists other, j.
  - by rewrite Heff3, Heff2, <- app_assoc.
Qed.
End callers.

(** ** A request in the window of a removal

    The entry goes before the transport's handlers do.  A request for the space
    in between finds no entry and makes a new space, which registers itself with
    the transport, where the old handler still is: the registration panics. *)
Section window.
Context {Cfg Hd T R SH Sp H : Type} `{KitsuneModules Cfg Hd T R SH Sp H}.
Variable host_tx : H -> TxImpHnd.

Definition duplicate_space : string := "Attempted to register duplicate space handler!".

Lemma put_space_duplicate space handler t : space_handler space t = true -> (put_space space handler t).1 = Panic duplicate_space.
Proof. unfold space_handler, put_space. by intros ->. Qed.

(** The factory of the spaces registers with the transport. *)
Hypothesis create_registers : forall ov sh space rp tx h, space_handler space (host_tx h) = true ->
  (space_create ov sh space rp tx h).1 = Panic duplicate_space.

Lemma request_in_removal_panics (k k1 : CoreKitsune Cfg Hd T R SH Sp H) space ov hd tx rp sh h :
  remove_check space k = (Ok true, k1) ->
  ck_handler k1 = Some hd -> ck_tx k1 = Some tx -> ck_report k1 = Some rp ->
  create_space hd space ov (ck_host k1) = (Ok sh, h) -> space_handler space (host_tx h) = true ->
  (bind (remove_entry space) (fun _ => space_of space ov) k1).1 = Panic duplicate_space.
Proof using create_registers.
  intros _ Hhd Htx Hrp Hc Hreg. erewrite bind_after by reflexivity. set (k2 := set_spaces _ k1).
  set (f := FNew hd tx rp space ov : SpaceFut Cfg Hd T R SH Sp).
  assert (Hfut : space_fut space ov k2 =
    (Ok (length (ck_futs k2)), set_spaces <[ space := length (ck_futs k2) ]> (set_futs (fun l => l ++ [f]) k2))).
  { unfold space_fut. erewrite (bind_after get) by reflexivity. cbn beta.
    assert (ck_map k2 !! space = None) as -> by apply lookup_delete_eq.
    assert (ck_handler k2 = Some hd) as -> by done. assert (ck_tx k2 = Some tx) as -> by done.
    by assert (ck_report k2 = Some rp) as -> by done. }
  unfold space_of. erewrite bind_after by exact Hfut. set (i := length (ck_futs k2)). set (k3 := set_spaces <[ space := i ]> _).
  assert (Hi : ck_futs k3 !! i = Some f) by (cbn; by apply list_lookup_middle).
  assert (Hh : ck_host k3 = ck_host k1) by done.
  assert (Hp : poll i k3 = (Ok None, set_futs <[ i := FHandled sh tx rp space ov ]> (with_host k3 h))).
  { unfold poll, on_host. rewrite Hi. unfold f. by rewrite Hh, Hc. }
  assert (Hp2 : (poll i (set_futs <[ i := FHandled sh tx rp space ov ]> (with_host k3 h))).1 = Panic duplicate_space).
  { unfold poll. cbn [ck_futs set_futs with_host]. rewrite list_lookup_insert_eq by (by eapply lookup_lt_Some).
    unfold finish_fut, on_host. cbn [ck_host set_futs with_host]. pose proof (create_registers ov sh space rp tx h Hreg) as Hr.
    destruct (space_create ov sh space rp tx h) as [r h2]. cbn in Hr. by subst. }
  unfold await_fut. unfold bind at 1. erewrite bind_after by exact Hp. cbn beta iota. unfold bind.
  destruct (poll i (set_futs _ _)) as [r k4]. cbn in Hp2. by rewrite Hp2.
Qed.
End window.

(** ** A small instance *)
Section demo.
Local Open Scope string_scope.
Local Open Scope list_scope.

Definition demo_access : SpaceAccess := MkSpaceAccess ∅ ∅ (MkInner 0 ∅ 0) ∅ false.
Definition demo_peer (url : string) : AgentInfoSigned := MkAgentInfoSigned (MkAgentInfo [9] [1] 0 1 false (Some url) Arc.Empty) "" [].
Definition demo_space : Type := list AgentId * list AgentInfoSigned.
Definition demo_host : Type := TxImpHnd * list TxEffect.
Definition demo_note (e : TxEffect) : M demo_host unit := modify (fun h => (h.1, h.2 ++ [e])).

(** The app knows no space [3]; space [1] has the peer [a], space [2] the peer
    [b], and [c] is connected too. *)
#[local] Instance demo_modules : KitsuneModules unit unit unit unit unit demo_space demo_host := {
  transport_create _ := ret tt;
  report_create _ := ret tt;
  create_space _ space _ := if bool_decide (space = [3]) then fail "no such app" else ret tt;
  space_create _ _ space _ _ :=
    on_fst (register_space_handler space demo_access None) ;;*
    ret ([], [demo_peer (if bool_decide (space = [1]) then "a" else "b")]);
  local_agents_of s := ret s.1;
  peers_of s := ret s.2;
  tx_unregister_space _ space := on_fst (unregister_space space) ;;* demo_note (Unregistered space);
  tx_connected_peers _ := ret ["a"; "b"; "c"];
  tx_disconnect _ url reason := demo_note (Disconnected url reason)
}.

Definition demo_kitsune : CoreKitsune unit unit unit unit unit demo_space demo_host := kitsune_new (tx_new, []).
Definition demo_spaces := run_kitsune_ops [OpRegister tt; OpSpace [1] None; OpSpace [2] None] demo_kitsune.

Lemma demo_removal_host :
  removal_host (fst : demo_space -> list AgentId) (fun s => Some s.2) (Ok ["a"; "b"; "c"]) (snd : demo_host -> list TxEffect).
Proof.
  split; intros.
  - by exists h.
  - by exists (Ok sp.2), h.
  - by exists h.
  - by eexists.
  - by eexists.
Qed.

Lemma demo_map space i : ck_map demo_spaces !! space = Some i -> (space = [1] /\ i = 0%nat) \/ (space = [2] /\ i = 1%nat).
Proof.
  assert (ck_map demo_spaces = <[ [2] := 1%nat ]> {[ [1] := 0%nat ]}) as -> by (by vm_compute).
  rewrite lookup_insert_Some, lookup_singleton_Some. naive_solver.
Qed.

(** [a] is only known in the removed space and [c] in none. *)
Lemma remove_space_exact_witness : exists gone : gset Url, gone = {[ "a"; "c" ]} /\
  (remove_space [1] demo_spaces).1 = Ok tt /\
  (ck_host (remove_space [1] demo_spaces).2).2 = Unregistered [1] :: ((fun u => Disconnected u removed_reason) <$> elements gone).
Proof.
  assert (Hset : settled demo_spaces) by (intros s i [[_ ->]|[_ ->]]%demo_map; by eexists).
  destruct (remove_space_exact _ _ _ _ demo_removal_host demo_spaces [1] 0 ([], [demo_peer "a"]) tt _ _ Hset
    eq_refl eq_refl eq_refl (surjective_pairing _)) as (_ & _ & Hr & gone & Hg & He).
  exists gone. split; [|done]. apply set_eq. intros u. rewrite Hg, !elem_of_cons, elem_of_nil, elem_of_union, !elem_of_singleton.
  split.
  - intros [[->|[->|[->|[]]]] Hn]; [by left| |by right]. exfalso. apply Hn. exists [2], 1%nat.
    split_and!; [done..|]. exists ([], [demo_peer "b"]), [demo_peer "b"]. split_and!; [done..|]. apply list_elem_of_here.
  - intros Hu. split; [tauto|]. intros (other & j & Hne & Hj & sp & l & Hf & [= <-] & Hin).
    apply demo_map in Hj as [[-> _]|[_ ->]]; [done|]. cbn in Hf. injection Hf as <-. apply list_elem_of_singleton in Hin as ->. by destruct Hu.
Defined.


(** Space [1] is asked for again between the two parts of its removal. *)
Lemma request_in_removal_panics_witness :
  (bind (remove_entry [1]) (fun _ => space_of [1] None) demo_spaces).1 = Panic duplicate_space.
Proof.
  apply (request_in_removal_panics fst) with (k := demo_spaces) (hd := tt) (tx := tt) (rp := tt) (sh := tt) (h := ck_host demo_spaces); [|reflexivity..].
  intros ov sh space rp tx h Hh. cbn. unfold bind at 1, on_fst. unfold register_space_handler.
  erewrite bind_after by reflexivity. unfold bind at 1. cbn [snd take_pending]. set (t := set_pending _ _).
  pose proof (put_space_duplicate space demo_access t Hh) as Hp. destruct (put_space space demo_access t) as [r t2].
  cbn in Hp. by rewrite Hp.
Defined.
End demo.
