(* ===== verification/RelayServer.v ===== *)
(** * The relay inside the bootstrap server

    [bootstrap_srv/src/iroh_relay_axum.rs], the deadline of a new connection and
    the choice of the CORS headers ([http.rs]), and the configuration of the
    rate limit ([config.rs]).  The relay protocol, its token bucket and its
    versions are of the crate [iroh_relay], and what is used of them is an
    interface. *)
From S2P Require Import Prelude Id SrvStore SrvSpace SrvServer SrvHttp.

(** ** The deadline of a new connection ([EstablishTimeoutStream]) *)

(** A poll that is pending is [None]. *)
Abbreviation Poll A := (option A) (only parsing).

(** What is polled of the stream inside. *)
Class IoStream (S : Type) := {
  poll_read : Instant -> S -> Poll (res bytes) * S;
  poll_write : Instant -> bytes -> S -> Poll (res Z) * S;
  poll_flush : Instant -> S -> Poll (res unit) * S;
  poll_shutdown : Instant -> S -> Poll (res unit) * S
}.

Definition ESTABLISH_TIMEOUT : Z := 30 * 1000000000.

Record EstablishTimeoutStream (S : Type) : Type := MkEstablish { es_inner : S; es_deadline : option Instant }.
Arguments MkEstablish {S}.
Arguments es_inner {S}.
Arguments es_deadline {S}.

Section establish.
Context {S : Type} `{IoStream S}.
Abbreviation Est := (EstablishTimeoutStream S).

Definition establish_new (inner : S) (deadline : Instant) : Est := MkEstablish inner (Some deadline).
Definition established (s : Est) : Est := MkEstablish (es_inner s) None.

Definition head_timeout : string := "connection establish timed out before request head was read".

Definition on_inner {A} (f : S -> A * S) (s : Est) : A * Est :=
  let (a, i) := f (es_inner s) in (a, MkEstablish i (es_deadline s)).

Definition es_poll_read (now : Instant) (s : Est) : Poll (res bytes) * Est :=
  match es_deadline s with
  | Some d => if d <=? now then (Some (Err head_timeout), s) else on_inner (poll_read now) s
  | None => on_inner (poll_read now) s
  end.
Definition es_poll_write (now : Instant) (b : bytes) (s : Est) : Poll (res Z) * Est :=
  on_inner (poll_write now b) (established s).
Definition es_poll_flush (now : Instant) (s : Est) : Poll (res unit) * Est := on_inner (poll_flush now) s.
Definition es_poll_shutdown (now : Instant) (s : Est) : Poll (res unit) * Est := on_inner (poll_shutdown now) s.

(** [EstablishTimeoutAcceptor::accept]: the handshake inside ends at a time with
    a stream or an error, or never. *)
Definition establish_accept (now timeout : Z) (handshake : option (Instant * res S)) : res Est :=
  let deadline := now + timeout in
  match handshake with
  | Some (t, r) => if t <=? deadline then (let? stream := r in Ok (establish_new stream deadline))
                   else Err "connection establish (handshake) timed out"
  | None => Err "connection establish (handshake) timed out"
  end.

(** What the HTTP server does with the stream. *)
Inductive IoOp : Type :=
  | IoRead (now : Instant)
  | IoWrite (now : Instant) (b : bytes)
  | IoFlush (now : Instant)
  | IoShutdown (now : Instant).

Inductive IoResult : Type := ReadResult (r : Poll (res bytes)) | WriteResult (r : Poll (res Z)) | DoneResult (r : Poll (res unit)).

Definition es_step (o : IoOp) (s : Est) : IoResult * Est :=
  match o with
  | IoRead now => let (r, s) := es_poll_read now s in (ReadResult r, s)
  | IoWrite now b => let (r, s) := es_poll_write now b s in (WriteResult r, s)
  | IoFlush now => let (r, s) := es_poll_flush now s in (DoneResult r, s)
  | IoShutdown now => let (r, s) := es_poll_shutdown now s in (DoneResult r, s)
  end.
Definition es_run (os : list IoOp) (s : Est) : Est := fold_left (fun s o => (es_step o s).2) os s.

Definition io_step (o : IoOp) (s : S) : IoResult * S :=
  match o with
  | IoRead now => let (r, s) := poll_read now s in (ReadResult r, s)
  | IoWrite now b => let (r, s) := poll_write now b s in (WriteResult r, s)
  | IoFlush now => let (r, s) := poll_flush now s in (DoneResult r, s)
  | IoShutdown now => let (r, s) := poll_shutdown now s in (DoneResult r, s)
  end.
End establish.

(** ** CORS *)
Inductive AllowOrigin : Type := OriginList (l : list string) | MirrorRequest | AnyOrigin.

(** [header_value]: the parser of a header's value. *)
Definition cors_origin (header_value : string -> res string) (allowed_origins : option (list string)) (auth_enabled : bool)
  : res (AllowOrigin * bool) :=
  match allowed_origins with
  | Some (o :: origins) =>
      let? values := foldr (fun o acc => let? v := header_value o in let? l := acc in Ok (v :: l)) (Ok []) (o :: origins) in
      Ok (OriginList values, auth_enabled)
  | _ => if auth_enabled then Ok (MirrorRequest, true) else Ok (AnyOrigin, false)
  end.

(** ** The rate limit and its configuration *)
Record RelayClientRxRateLimit : Type := MkRxLimit { bytes_per_second : Z; burst_bytes : Z }.

(** Both fields are [NonZeroU32]. *)
Definition resolve_relay_rate_limit (bytes_per_second burst_bytes : option Z) : res (option RelayClientRxRateLimit) :=
  match bytes_per_second, burst_bytes with
  | None, None => Ok None
  | None, Some _ => Err "relay_client_rx_burst_bytes is set but relay_client_rx_bytes_per_second is not"
  | Some bps, _ =>
      if bps <? 10 then Err "relay_client_rx_bytes_per_second must be >= 10"
      else
        match burst_bytes with
        | Some burst => Ok (Some (MkRxLimit bps burst))
        | None =>
            let derived := bps / 10 in
            if bool_decide (derived = 0) then Panic "bps >= 10 ensures derived burst >= 1"
            else Ok (Some (MkRxLimit bps derived))
        end
  end.

(** [Bucket] of the crate [iroh_relay]. *)
Class Buckets (B : Type) := {
  bucket_new : Z -> Z -> Z -> option B;
  (** [Err] is the time at which the bucket is refilled enough. *)
  bucket_consume : Instant -> Z -> B -> option Instant * B
}.

(** Messages of the web socket. *)
Inductive WsMessage : Type := WsBinary (data : bytes) | WsClose | WsOther.

(** The web socket: the messages that have arrived, and whether it is at its
    end; an error of it is a message. *)
Record WebSocket : Type := MkSocket { arrived : list (res WsMessage); ended : bool }.

Section relay.
Context {B : Type} `{Buckets B}.

Record RateLimitState : Type := MkRateLimit { bucket : B; sleep : option Instant }.

Definition rate_limit_new (limit : RelayClientRxRateLimit) : res RateLimitState :=
  match bucket_new (burst_bytes limit) (bytes_per_second limit) 100 with
  | Some b => Ok (MkRateLimit b None)
  | None => Panic "RelayClientRxRateLimit fields are NonZeroU32 so Bucket::new cannot fail with InvalidBucketConfig"
  end.

(** Whether the bucket is not throttled. *)
Definition poll_throttle (now : Instant) (s : RateLimitState) : bool * RateLimitState :=
  match sleep s with
  | Some d => if d <=? now then (true, MkRateLimit (bucket s) None) else (false, s)
  | None => (true, s)
  end.

Definition charge (now : Instant) (n : Z) (s : RateLimitState) : RateLimitState :=
  match bucket_consume now n (bucket s) with
  | (Some deadline, b) => MkRateLimit b (Some deadline)
  | (None, b) => MkRateLimit b (sleep s)
  end.

Record AxumWebSocketAdapter : Type := MkAdapter { ws_inner : WebSocket; rate_limit : option RateLimitState }.

Definition adapter_new (socket : WebSocket) (limit : option RelayClientRxRateLimit) : res AxumWebSocketAdapter :=
  match limit with
  | None => Ok (MkAdapter socket None)
  | Some limit => let? rl := rate_limit_new limit in Ok (MkAdapter socket (Some rl))
  end.

(** The loop over the messages that are there: others are passed over. *)
Fixpoint next_frame (l : list (res WsMessage)) : option (res (option bytes)) * list (res WsMessage) :=
  match l with
  | [] => (None, [])
  | Ok (WsBinary data) :: l => (Some (Ok (Some data)), l)
  | Ok WsClose :: l => (Some (Ok None), l)
  | Ok WsOther :: l => next_frame l
  | Err e :: l => (Some (Err e), l)
  | Panic e :: l => (Some (Panic e), l)
  end.

(** An item of the stream, its end ([Some (Ok None)]), or pending. *)
Definition poll_next (now : Instant) (a : AxumWebSocketAdapter) : Poll (res (option bytes)) * AxumWebSocketAdapter :=
  let read rl :=
    match next_frame (arrived (ws_inner a)) with
    | (Some (Ok (Some data)), l) =>
        (Some (Ok (Some data)), MkAdapter (MkSocket l (ended (ws_inner a))) (charge now (Z.of_nat (length data)) <$> rl))
    | (Some r, l) => (Some r, MkAdapter (MkSocket l (ended (ws_inner a))) rl)
    | (None, l) =>
        (if ended (ws_inner a) then Some (Ok None) else None, MkAdapter (MkSocket l (ended (ws_inner a))) rl)
    end in
  match rate_limit a with
  | Some rl => let (ready, rl) := poll_throttle now rl in
               if ready : bool then read (Some rl) else (None, MkAdapter (ws_inner a) (Some rl))
  | None => read None
  end.

(** Messages that arrive between two polls. *)
Definition arrive (msgs : list (res WsMessage)) (a : AxumWebSocketAdapter) : AxumWebSocketAdapter :=
  MkAdapter (MkSocket (arrived (ws_inner a) ++ msgs) (ended (ws_inner a))) (rate_limit a).
End relay.
Arguments RateLimitState B : clear implicits.
Arguments AxumWebSocketAdapter B : clear implicits.

(** ** The routes of the relay *)

(** [ProtocolVersion] of the crate. *)
Class ProtocolVersions (V : Type) := {
  match_from_str : string -> option V;
  version_leb : V -> V -> bool;
  V1 : V
}.

(** [max] keeps the last of the greatest. *)
Definition newest {V} `{ProtocolVersions V} (best : option V) (v : V) : option V :=
  match best with None => Some v | Some b => if version_leb b v then Some v else Some b end.

(** [values]: those of the header that are visible text, and [split] them at
    the commas, trimmed. *)
Definition negotiate_protocol_version {V} `{ProtocolVersions V} (split : string -> list string) (values : list string) : V :=
  default V1 (foldl newest None (omap match_from_str (flat_map split values))).

Definition challenge_char (c : Ascii.ascii) : bool :=
  let n := Z.of_nat (Ascii.nat_of_ascii c) in
  ((48 <=? n) && (n <=? 57)) || ((65 <=? n) && (n <=? 90)) || ((97 <=? n) && (n <=? 122)) || (n =? 46) || (n =? 95).

(** The status, and the value of the header [X-Iroh-Response], if there is one.
    A header value that is not text is no challenge. *)
Definition captive_portal_handler (challenge : option string) : Z * option string :=
  (204, match challenge with
        | Some c =>
            if negb (String.eqb c "") && (String.length c <? 64)%nat && forallb challenge_char (list_ascii_of_string c)
            then Some ("response " +:+ c)%string else None
        | None => None
        end).

Definition relay_probe_handler : Z * string := (200, "*"%string).

(** Who may use the relay: with a hook server, those that [TokenAccess] lets in. *)
Inductive RelayAccess : Type := AllowAll | TokenAccess.

Record RelayState : Type := MkRelayState { access : RelayAccess; rs_rate_limit : option RelayClientRxRateLimit }.

(** The relay of the server, when it has one, as [tokio_thread] makes it. *)
Definition relay_of_server (no_relay_server : bool) (auth : AuthConfig) (bytes_per_second burst_bytes : option Z)
  : res (option RelayState) :=
  if no_relay_server then Ok None
  else
    match resolve_relay_rate_limit bytes_per_second burst_bytes with
    | Ok limit =>
        Ok (Some (MkRelayState (if bool_decide (is_Some (authentication_hook_server auth)) then TokenAccess else AllowAll) limit))
    | _ => Panic "Config rate-limit invariants validated by BootstrapSrv::new"
    end.

(** The clients of the relay, by connection. *)
Record RelaySrv : Type := MkRelaySrv { rl_auth : AuthState; rl_clients : gmap Z bytes }.

Definition HANDSHAKE_TIMEOUT : Z := 30 * 1000000000.

Section websocket.
Context {B : Type} `{Buckets B}.
Variables (config : AuthConfig) (state : RelayState).

(** The handshake with the client ends at a time with its key, proven by its
    signature, or an error, or never; then the access control decides.  The
    guard of an admitted connection takes it off again when it is dropped. *)
Definition handle_relay_websocket (started : Instant) (socket : WebSocket)
  (handshake : option (Instant * res bytes)) (connection_id : Z) (auth_token : option string) : M RelaySrv unit :=
  let* _ := lift_res (adapter_new (B := B) socket (rs_rate_limit state)) in
  match handshake with
  | Some (t, r) =>
      if t <=? started + HANDSHAKE_TIMEOUT then
        let* client_key := lift_res r in
        fun s =>
          let (allowed, a) := match access state with
                              | AllowAll => (true, rl_auth s)
                              | TokenAccess => on_connect config t client_key connection_id auth_token (rl_auth s)
                              end in
          if allowed : bool then (Ok tt, MkRelaySrv a (<[ connection_id := client_key ]> (rl_clients s)))
          else (Err "not authorized", MkRelaySrv a (rl_clients s))
      else fail "Relay handshake timed out"
  | None => fail "Relay handshake timed out"
  end.

(** The end of a client's connection. *)
Definition relay_client_gone (connection_id : Z) : M RelaySrv unit :=
  modify (fun s => MkRelaySrv (match access state with AllowAll => rl_auth s | TokenAccess => on_disconnect connection_id (rl_auth s) end)
    (delete connection_id (rl_clients s))).
End websocket.

(** ** The deadline of a connection *)
Section establish_facts.
Context {S : Type} `{IoStream S}.
Implicit Types (s : EstablishTimeoutStream S) (o : IoOp).

Definition is_write o : Prop := match o with IoWrite _ _ => True | _ => False end.

Lemma on_inner_keeps {A} (f : S -> A * S) s : es_deadline (on_inner f s).2 = es_deadline s.
Proof. unfold on_inner. by destruct (f (es_inner s)). Qed.

Lemma step_armed o s : ~ is_write o -> es_deadline (es_step o s).2 = es_deadline s.
Proof.
  intros Ho. destruct o as [t|t b|t|t]; [| by destruct Ho | |]; cbn.
  - unfold es_poll_read. destruct (es_deadline s) as [d|] eqn:E.
    + destruct (d <=? t); [by cbn; rewrite E|]. pose proof (on_inner_keeps (poll_read t) s) as Hk. destruct (on_inner _ s). cbn in *. congruence.
    + pose proof (on_inner_keeps (poll_read t) s) as Hk. destruct (on_inner _ s). cbn in *. congruence.
  - unfold es_poll_flush. pose proof (on_inner_keeps (poll_flush t) s) as Hk. by destruct (on_inner _ s).
  - unfold es_poll_shutdown. pose proof (on_inner_keeps (poll_shutdown t) s) as Hk. by destruct (on_inner _ s).
Qed.

Lemma step_disarmed o s : es_deadline s = None \/ is_write o ->
  es_step o s = let (r, i) := io_step o (es_inner s) in (r, MkEstablish i None).
Proof.
  intros Ho. destruct s as [i [d|]].
  - destruct Ho as [|Ho]; [done|]. destruct o as [t|t b|t|t]; try done. cbn. unfold es_poll_write, on_inner. cbn.
    by destruct (poll_write t b i).
  - destruct o as [t|t b|t|t]; cbn; unfold es_poll_read, es_poll_write, es_poll_flush, es_poll_shutdown, on_inner; cbn.
    + by destruct (poll_read t i).
    + by destruct (poll_write t b i).
    + by destruct (poll_flush t i).
    + by destruct (poll_shutdown t i).
Qed.

Lemma run_armed os s : Forall (fun o => ~ is_write o) os -> es_deadline (es_run os s) = es_deadline s.
Proof.
  revert s. induction os as [|o os IH]; intros s Hos; [done|]. apply Forall_cons in Hos as [Ho Hos].
  change (es_run (o :: os) s) with (es_run os (es_step o s).2). rewrite IH by done. by apply step_armed.
Qed.

Lemma run_disarmed os s : es_deadline s = None \/ Exists is_write os -> es_deadline (es_run os s) = None.
Proof.
  revert s. induction os as [|o os IH]; intros s Hs; [by destruct Hs as [|Hs%Exists_nil]|].
  change (es_run (o :: os) s) with (es_run os (es_step o s).2). apply IH.
  destruct (decide (es_deadline s = None)) as [Hd|Hd]; [left; rewrite step_disarmed by auto; by destruct (io_step o (es_inner s))|].
  destruct Hs as [|[Ho|Hos]%Exists_cons]; [done| |by right].
  left. rewrite step_disarmed by auto. by destruct (io_step o (es_inner s)).
Qed.

(** A connection that has not been answered yet reads nothing more from its
    deadline on, whatever was read before; once something is written to it the
    deadline is gone for good, and the wrapper passes every operation through,
    also those for the head of a later request. *)
Theorem head_deadline inner accepted timeout handshake s os : establish_accept accepted timeout handshake = Ok s ->
  handshake = Some (inner, Ok (es_inner s)) ->
  (Forall (fun o => ~ is_write o) os -> forall t, accepted + timeout <= t ->
     es_step (IoRead t) (es_run os s) = (ReadResult (Some (Err head_timeout)), es_run os s)) /\
  (Exists is_write os -> forall o,
     es_step o (es_run os s) = let (r, i) := io_step o (es_inner (es_run os s)) in (r, MkEstablish i None)).
Proof.
  unfold establish_accept. intros Hs ->. destruct (inner <=? accepted + timeout); [|done]. cbn in Hs.
  assert (Hd : es_deadline s = Some (accepted + timeout)) by by (injection Hs as <-). split.
  - intros Hos t Ht. cbn. unfold es_poll_read. rewrite run_armed, Hd by done. by rewrite (proj2 (Z.leb_le _ _) Ht).
  - intros Hos o. apply step_disarmed. left. apply run_disarmed. by right.
Qed.
End establish_facts.

(** ** CORS *)

(** Credentials are allowed exactly when there is authentication, and never
    to any origin. *)
Theorem credentials_not_to_any header_value origins auth o credentials :
  cors_origin header_value origins auth = Ok (o, credentials) ->
  credentials = auth /\ (credentials = true -> o <> AnyOrigin).
Proof.
  unfold cors_origin. destruct origins as [[|x l]|].
  - destruct auth; by intros [= <- <-].
  - destruct (foldr _ _ (x :: l)); [|done..]. by intros [= <- <-].
  - destruct auth; by intros [= <- <-].
Qed.

(** ** Paced frames *)
Section pacing.
Context {B : Type} `{Buckets B}.
Abbreviation Adapter := (AxumWebSocketAdapter B).
Implicit Types (a : Adapter) (t d : Instant).

(** A connection's life: messages arrive, and the relay polls for frames. *)
Inductive WsEvent : Type := WsArrive (msgs : list (res WsMessage)) | WsPoll (now : Instant).

(** What the polls hand out, with their times: frames, the close, errors. *)
Fixpoint ws_run (es : list WsEvent) a : list (Instant * res (option bytes)) * Adapter :=
  match es with
  | [] => ([], a)
  | WsArrive msgs :: es => ws_run es (arrive msgs a)
  | WsPoll now :: es =>
      let '(r, a) := poll_next now a in
      let '(out, a) := ws_run es a in
      (match r with Some r => (now, r) :: out | None => out end, a)
  end.

(** What a stream of messages hands out when nothing holds it up. *)
Definition item_of (m : res WsMessage) : option (res (option bytes)) :=
  match m with
  | Ok (WsBinary data) => Some (Ok (Some data))
  | Ok WsClose => Some (Ok None)
  | Ok WsOther => None
  | Err e => Some (Err e)
  | Panic e => Some (Panic e)
  end.

Definition all_arrived (es : list WsEvent) : list (res WsMessage) :=
  flat_map (fun e => match e with WsArrive msgs => msgs | WsPoll _ => [] end) es.

Definition poll_times (es : list WsEvent) : list Instant :=
  omap (fun e => match e with WsPoll t => Some t | WsArrive _ => None end) es.

Lemma next_frame_items l : omap item_of l =
  match next_frame l with (Some r, l') => r :: omap item_of l' | (None, l') => [] end.
Proof. induction l as [|[[d| |]|e|e] l IH]; done. Qed.

Lemma next_frame_none l l' : next_frame l = (None, l') -> l' = [].
Proof. induction l as [|[[d| |]|e|e] l IH]; try done. by intros [= <-]. Qed.

(** A poll hands out the next item or leaves them all; at its end a socket that
    has no more hands out its close. *)
Lemma poll_items t a : ended (ws_inner a) = false ->
  let '(r, a') := poll_next t a in ended (ws_inner a') = false /\
    omap item_of (arrived (ws_inner a)) =
      match r with Some r => r :: omap item_of (arrived (ws_inner a')) | None => omap item_of (arrived (ws_inner a')) end.
Proof.
  intros He. unfold poll_next. pose proof (next_frame_items (arrived (ws_inner a))) as Hi.
  pose proof (next_frame_none (arrived (ws_inner a))) as Hn.
  destruct (rate_limit a) as [rl|]; [destruct (poll_throttle t rl) as [[|] rl']|]; try done;
    (destruct (next_frame (arrived (ws_inner a))) as [[[[data|]|e|e]|] l]; cbn; rewrite ?He; (split; [done|]); try done;
     by rewrite (Hn l eq_refl) in *).
Qed.

(** A charge that overruns holds back everything until its deadline. *)
Lemma poll_held t a rl d : rate_limit a = Some rl -> sleep rl = Some d -> t < d -> poll_next t a = (None, a).
Proof.
  intros Ha Hs Ht. unfold poll_next. rewrite Ha. unfold poll_throttle. rewrite Hs.
  assert ((d <=? t) = false) as -> by by apply Z.leb_gt. by destruct a; cbn in *; subst.
Qed.

Lemma run_held es a rl d : rate_limit a = Some rl -> sleep rl = Some d -> StronglySorted Z.le (poll_times es) ->
  Forall (fun x => d <= x.1) (ws_run es a).1.
Proof.
  assert (Hlate : forall es (a : Adapter) t, Forall (Z.le t) (poll_times es) -> Forall (fun x => t <= x.1) (ws_run es a).1).
  { clear. intros es. induction es as [|[msgs|t'] es IH]; intros a t Ht; [constructor|by apply IH|]. cbn in Ht |- *.
    apply Forall_cons in Ht as [Ht Hes]. destruct (poll_next t' a) as [r a']. pose proof (IH a' t Hes) as Hr.
    destruct (ws_run es a'). cbn in *. destruct r; [by constructor|done]. }
  revert a. induction es as [|[msgs|t] es IH]; intros a Ha Hs Hsort; [constructor|by apply IH|].
  cbn in Hsort |- *. apply StronglySorted_inv in Hsort as [Hsort Hall]. destruct (decide (t < d)) as [Hlt|Hge].
  - rewrite (poll_held t a rl d Ha Hs Hlt). pose proof (IH a Ha Hs Hsort) as Hr. by destruct (ws_run es a).
  - destruct (poll_next t a) as [r a']. pose proof (Hlate es a' d) as Hr. destruct (ws_run es a') as [out a2]. cbn in *.
    assert (Hout : Forall (fun x => d <= x.1) out).
    { apply Hr. eapply Forall_impl; [exact Hall|]. cbn. intros. lia. }
    destruct r; [constructor; [cbn; lia|done]|done].
Qed.

(** C33: The relay reads the frames of a connection in the order in which they
    arrive and drops none, whatever its rate limit and whenever it polls; and a
    frame that overruns the limit holds back all that follow until the bucket's
    deadline for it. *)
Theorem relay_frames_paced es a out a' : ended (ws_inner a) = false -> ws_run es a = (out, a') ->
  out.*2 ++ omap item_of (arrived (ws_inner a')) = omap item_of (arrived (ws_inner a) ++ all_arrived es) /\
  (forall t data rl d b es' a1, rate_limit a = Some rl ->
     poll_next t a = (Some (Ok (Some data)), a1) -> bucket_consume t (Z.of_nat (length data)) (bucket rl) = (Some d, b) ->
     StronglySorted Z.le (poll_times es') -> Forall (fun x => d <= x.1) (ws_run es' a1).1).
Proof.
  intros He Hrun. split.
  - revert a He out Hrun. induction es as [|[msgs|t] es IH]; intros a He out Hrun.
    + injection Hrun as <- <-. by rewrite app_nil_r.
    + cbn in Hrun |- *. rewrite (IH (arrive msgs a) He out Hrun). cbn. by rewrite <- app_assoc.
    + cbn in Hrun. pose proof (poll_items t a He) as Hp. destruct (poll_next t a) as [r a1]. destruct Hp as [He1 Hp].
      destruct (ws_run es a1) as [out1 a2] eqn:E. injection Hrun as <- <-. specialize (IH a1 He1 out1 E).
      rewrite omap_app, Hp. rewrite omap_app in IH. destruct r as [r|]; cbn; [by rewrite IH|exact IH].
  - intros t data rl d b es' a1 Ha Hp Hc Hsort. unfold poll_next in Hp. rewrite Ha in Hp.
    assert (Hb : bucket (snd (poll_throttle t rl)) = bucket rl).
    { unfold poll_throttle. destruct (sleep rl) as [d0|]; [|done]. by destruct (d0 <=? t). }
    destruct (poll_throttle t rl) as [[|] rl1]; [|done]. cbn in Hb.
    destruct (next_frame (arrived (ws_inner a))) as [[[[dat|]|e|e]|] l]; try done; [|by destruct (ended _)].
    injection Hp as <- <-. cbn in *. eapply run_held; [reflexivity| |done]. unfold charge. by rewrite Hb, Hc.
Qed.
End pacing.

(** ** The limit of a server that starts *)
Section limits.
Context {B : Type} `{Buckets B}.

(** The bucket is refilled every 100 ms with a tenth of the rate, which must not
    be nothing, and neither must its size. *)
Hypothesis bucket_new_ok : forall max bps, 0 < max -> 0 < bps * 100 / 1000 -> is_Some (bucket_new max bps 100).

(** The server starts only with a limit that every connection's bucket can be
    made with, so that no client's connection panics, with the burst it was
    given or a tenth of the rate; a burst without a rate, and a rate below ten
    bytes per second, are errors before a thread is started. *)
Theorem accepted_limit_never_panics no_relay auth bps burst limit :
  from_option (Z.lt 0) True bps -> from_option (Z.lt 0) True burst ->
  resolve_relay_rate_limit bps burst = Ok limit ->
  (forall l, limit = Some l -> bps = Some (bytes_per_second l) /\ 10 <= bytes_per_second l /\
     burst_bytes l = default (bytes_per_second l / 10) burst) /\
  exists state, relay_of_server no_relay auth bps burst = Ok state /\
    forall st socket, state = Some st -> exists a, adapter_new (B := B) socket (rs_rate_limit st) = Ok a.
Proof using bucket_new_ok.
  intros Hbps Hburst Hl.
  assert (Hlim : forall l, limit = Some l -> bps = Some (bytes_per_second l) /\ 10 <= bytes_per_second l /\
     burst_bytes l = default (bytes_per_second l / 10) burst).
  { intros l ->. unfold resolve_relay_rate_limit in Hl. destruct bps as [r|]; [|by destruct burst].
    destruct (r <? 10) eqn:E; [done|]. apply Z.ltb_ge in E. destruct burst as [u|]; [by injection Hl as <-|].
    case_bool_decide; [done|]. by injection Hl as <-. }
  split; [done|]. unfold relay_of_server. rewrite Hl. destruct no_relay; [by exists None|].
  eexists. split; [done|]. intros st socket [= <-]. cbn. destruct limit as [l|]; [|by eexists].
  destruct (Hlim l eq_refl) as (_ & Hr & Hb). cbn. unfold rate_limit_new.
  assert (Hpos : 0 < burst_bytes l).
  { rewrite Hb. destruct burst as [u|]; cbn in *; [done|]. apply Z.div_str_pos. lia. }
  destruct (bucket_new_ok (burst_bytes l) (bytes_per_second l) Hpos) as [b ->]; [apply Z.div_str_pos; lia|].
  by eexists.
Qed.

Lemma refused_limits bps burst e : resolve_relay_rate_limit bps burst = Err e <->
  (bps = None /\ exists u, burst = Some u /\ e = "relay_client_rx_burst_bytes is set but relay_client_rx_bytes_per_second is not"%string) \/
  (exists r, bps = Some r /\ r < 10 /\ e = "relay_client_rx_bytes_per_second must be >= 10"%string).
Proof.
  unfold resolve_relay_rate_limit. destruct bps as [r|], burst as [u|].
  - destruct (r <? 10) eqn:E; [apply Z.ltb_lt in E|apply Z.ltb_ge in E]; split; naive_solver lia.
  - destruct (r <? 10) eqn:E; [apply Z.ltb_lt in E|apply Z.ltb_ge in E]; [split; naive_solver lia|].
    case_bool_decide; split; naive_solver lia.
  - split; naive_solver.
  - split; naive_solver.
Qed.
End limits.

(** ** Who is a client of the relay *)
Section admission.
Context {B : Type} `{Buckets B}.
Variables (config : AuthConfig) (state : RelayState).
Hypothesis Hacc : access state = TokenAccess.
Implicit Types (s : RelaySrv).

(** What happens at the relay, and the other events of the tokens and keys. *)
Inductive RelayEvent : Type :=
  | RelayConnect (started : Instant) (socket : WebSocket) (handshake : option (Instant * res bytes)) (id : Z) (token : option string)
  | RelayGone (id : Z)
  | RelayOther (f : AuthState -> AuthState).

Definition relay_event (e : RelayEvent) s : RelaySrv :=
  match e with
  | RelayConnect started socket h id token => (handle_relay_websocket (B := B) config state started socket h id token s).2
  | RelayGone id => (relay_client_gone state id s).2
  | RelayOther f => MkRelaySrv (f (rl_auth s)) (rl_clients s)
  end.

(** The requests of the HTTP front leave the record of relay connections. *)
Definition event_ok (e : RelayEvent) : Prop :=
  match e with RelayOther f => forall a, conns (f a) = conns a | _ => True end.

Definition tracked s : Prop := forall id, is_Some (conns (rl_auth s) !! id) -> is_Some (rl_clients s !! id).

Lemma on_connect_conns t key id token (a a' : AuthState) b : on_connect config t key id token a = (b, a') ->
  (forall id', is_Some (conns a' !! id') -> id' = id \/ is_Some (conns a !! id')) /\ (b = false -> conns a' = conns a).
Proof.
  unfold on_connect, check_token. destruct token as [tok|]; [|by intros [= <- <-]; split; [auto|]].
  destruct (is_valid config t (Some tok) (tokens a)) as [[|] tk]; intros [= <- <-]; cbn; [|by split; [auto|]].
  split; [|done]. intros id' Hi. destruct (decide (id' = id)); [by left|right].
  by rewrite lookup_insert_ne in Hi by done.
Qed.

Lemma relay_event_tracked e s : event_ok e -> tracked s -> tracked (relay_event e s).
Proof using Hacc.
  intros He Hs. destruct e as [started socket h id token|id|f]; cbn.
  - unfold handle_relay_websocket, bind at 1, lift_res. destruct (adapter_new socket (rs_rate_limit state)) as [a|e|e]; [|done..].
    destruct h as [[t [key|e|e]]|]; [|by destruct (t <=? _)..|done]. destruct (t <=? started + HANDSHAKE_TIMEOUT); [|done]. cbn.
    destruct (access state).
    { cbn. intros id' Hi. cbn in *. destruct (decide (id' = id)) as [->|]; [by rewrite lookup_insert_eq|].
      rewrite lookup_insert_ne by done. by apply Hs. }
    destruct (on_connect config t key id token (rl_auth s)) as [b a'] eqn:E. apply on_connect_conns in E as [Hc Hf].
    destruct b; cbn; intros id' Hi; cbn in *.
    + destruct (decide (id' = id)) as [->|]; [by rewrite lookup_insert_eq|]. rewrite lookup_insert_ne by done.
      apply Hs. by destruct (Hc id' Hi).
    + apply Hs. by rewrite <- Hf.
  - intros id' Hi. cbn in *. rewrite Hacc in Hi. destruct (decide (id' = id)) as [->|].
    + cbn in Hi. by rewrite lookup_delete_eq in Hi; destruct Hi.
    + rewrite lookup_delete_ne by done. apply Hs. cbn in Hi. by rewrite lookup_delete_ne in Hi.
  - intros id' Hi. cbn in *. rewrite He in Hi. by apply Hs.
Qed.

(** A server with a hook server admits a relay connection only after a
    handshake within thirty seconds, and only with a bearer token, which is valid
    then, or which is not while the key is on the allowlist; and the tokens that
    its prune worker keeps alive are those of connections that are clients. *)
Theorem relay_admits s0 es : conns (rl_auth s0) = ∅ -> Forall event_ok es ->
  let s := fold_left (fun s e => relay_event e s) es s0 in
  tracked s /\
  forall started socket h id token s', handle_relay_websocket (B := B) config state started socket h id token s = (Ok tt, s') ->
    exists t key tok, h = Some (t, Ok key) /\ t <= started + HANDSHAKE_TIMEOUT /\ token = Some tok /\
      rl_clients s' = <[ id := key ]> (rl_clients s) /\
      ((is_valid config t (Some tok) (tokens (rl_auth s))).1 = true \/ is_allowed key (allowlist (rl_auth s)) = true).
Proof using Hacc.
  intros H0 Hes s. split.
  - assert (Ht : tracked s0) by (intros id Hi; rewrite H0 in Hi; by rewrite lookup_empty in Hi; destruct Hi).
    unfold s. clear s H0. revert s0 Ht. induction es as [|e es IH]; intros s0 Ht; [done|].
    apply Forall_cons in Hes as [He Hes]. apply IH; [done|]. by apply relay_event_tracked.
  - intros started socket h id token s'. unfold handle_relay_websocket, bind at 1, lift_res.
    destruct (adapter_new socket (rs_rate_limit state)) as [a|e|e]; [|done..].
    destruct h as [[t [key|e|e]]|]; [|by destruct (t <=? _)..|done].
    destruct (t <=? started + HANDSHAKE_TIMEOUT) eqn:Et; [|done]. apply Z.leb_le in Et. cbn. rewrite Hacc.
    unfold on_connect, check_token. destruct token as [tok|]; [|done].
    destruct (is_valid config t (Some tok) (tokens (rl_auth s))) as [[|] tk] eqn:Ev.
    + intros [= <-]. exists t, key, tok. split_and!. 1-4: done. left. exact (f_equal fst Ev).
    + cbn. destruct (is_allowed key (allowlist (rl_auth s))) eqn:Ea; [|done]. intros [= <-].
      exists t, key, tok. split_and!; [done..|by right].
Qed.
End admission.

(** ** At concrete connections *)
Section demo.
#[local] Instance list_stream : IoStream (list bytes) := {|
  poll_read _ s := match s with b :: s => (Some (Ok b), s) | [] => (None, []) end;
  poll_write _ b s := (Some (Ok (Z.of_nat (length b))), s);
  poll_flush _ s := (Some (Ok tt), s);
  poll_shutdown _ s := (Some (Ok tt), s)
|}.

(** A client that trickles the head of its request is cut off at the deadline. *)
Lemma head_deadline_witness :
  let s := establish_new [[71]; [69]; [84]] (0 + ESTABLISH_TIMEOUT) in
  es_step (IoRead (31 * 1000000000)) (es_run [IoRead 5; IoRead 20] s) =
    (ReadResult (Some (Err head_timeout)), es_run [IoRead 5; IoRead 20] s).
Proof.
  intros s. destruct (head_deadline 1 0 ESTABLISH_TIMEOUT (Some (1, Ok [[71]; [69]; [84]])) s [IoRead 5; IoRead 20] eq_refl eq_refl)
    as [H _].
  apply H; [repeat constructor; by intros []|unfold ESTABLISH_TIMEOUT; lia].
Defined.

Lemma credentials_not_to_any_witness : true = true /\ (true = true -> MirrorRequest <> AnyOrigin).
Proof. apply (credentials_not_to_any (fun o => Ok o) None true MirrorRequest true). reflexivity. Defined.

(** A bucket that only counts what was taken, and lets more in after a tenth of a
    second. *)
#[local] Instance tenth : Buckets Z := {|
  bucket_new max bps _ := if (0 <? max) && (0 <? bps * 100 / 1000) then Some max else None;
  bucket_consume now n left := if left <? n then (Some (now + 100000000), 0) else (None, left - n)
|}.

Definition demo_adapter : AxumWebSocketAdapter Z :=
  MkAdapter (MkSocket [Ok (WsBinary [1; 2; 3]); Ok WsOther; Ok (WsBinary [4])] false) (Some (MkRateLimit 2 None)).
Definition demo_polls : list WsEvent := [WsPoll 10; WsPoll 20; WsArrive [Ok WsClose]; WsPoll 100000010].

Lemma relay_frames_paced_witness :
  (ws_run demo_polls demo_adapter).1 = [(10, Ok (Some [1; 2; 3])); (100000010, Ok (Some [4]))] /\
  Forall (fun x => 100000010 <= x.1) (ws_run [WsPoll 20; WsPoll 100000010] (poll_next 10 demo_adapter).2).1.
Proof.
  split; [reflexivity|].
  destruct (relay_frames_paced demo_polls demo_adapter _ _ eq_refl (surjective_pairing _)) as [_ H].
  apply (H 10 [1; 2; 3] (MkRateLimit 2 None) 100000010 0 [WsPoll 20; WsPoll 100000010]); try reflexivity.
  repeat constructor; lia.
Defined.

Lemma accepted_limit_never_panics_witness :
  exists state, relay_of_server false default_auth_config (Some 10) None = Ok state /\
    forall st socket, state = Some st -> exists a, adapter_new (B := Z) socket (rs_rate_limit st) = Ok a.
Proof.
  apply (accepted_limit_never_panics) with (limit := Some (MkRxLimit 10 1)).
  - intros max bps Hm Hb. cbn. apply Z.ltb_lt in Hm as ->. apply Z.ltb_lt in Hb as ->. by eexists.
  - cbn. lia.
  - done.
  - reflexivity.
Defined.

Definition hooked : AuthConfig := MkAuthConfig (Some "https://hook"%string) 300000000000.
Definition demo_relay : RelaySrv := MkRelaySrv (set_tokens (register_token 0 "tok" ∅) auth_new) ∅.
Definition demo_socket : WebSocket := MkSocket [] false.

Lemma relay_admits_witness :
  exists s', handle_relay_websocket (B := Z) hooked (MkRelayState TokenAccess None) 5 demo_socket (Some (6, Ok [1])) 7 (Some "tok"%string) demo_relay
      = (Ok tt, s') /\ rl_clients s' = <[ 7 := [1] ]> ∅.
Proof.
  destruct (handle_relay_websocket (B := Z) hooked (MkRelayState TokenAccess None) 5 demo_socket (Some (6, Ok [1])) 7
    (Some "tok"%string) demo_relay) as [r s'] eqn:E.
  assert (r = Ok tt) as -> by by (vm_compute in E; injection E as <- _).
  destruct (relay_admits hooked (MkRelayState TokenAccess None) eq_refl demo_relay [] eq_refl (Forall_nil_2 _)) as [_ H].
  destruct (H 5 demo_socket (Some (6, Ok [1])) 7 (Some "tok"%string) s' E) as (t & key & tok & [= <- <-] & _ & _ & Hc & _).
  exists s'. split; [done|exact Hc].
Defined.
End demo.
