(* ===== verification/SrvThreads.v ===== *)
(** * The threads of the bootstrap server

    [bootstrap_srv/src/server.rs], [BootstrapSrv]: the workers that take requests
    from the channel of the HTTP front, the prune worker, and the shutdown that
    waits for them all.  A thread's step is what it does between two points at
    which it may have to wait; steps of the threads interleave.  A panic of a
    handler aborts the process, and is no step. *)
From S2P Require Import Prelude Id SrvStore SrvSpace SrvServer SrvHttp RelayServer.

Inductive Worker : Type :=
  | AtLoop
  | Receiving
  | Handling (id : nat) (req : HttpRequest)
  | WorkerEnded.

#[global] Instance worker_ended_dec w : Decision (w = WorkerEnded).
Proof. destruct w; (by left) || (by right). Defined.

Inductive PruneWorker : Type := PruneLoop | Sleeping | PruneEnded.

(** Requests are numbered by the front, which waits for the answer of each. *)
Record BootstrapSrv : Type := MkSrv {
  cont : bool;
  channel_open : bool;
  queue : list (nat * HttpRequest);
  workers : list Worker;
  prune : PruneWorker;
  last_check : Instant;
  http : HttpState;
  asked : list nat;
  answers : list (nat * Answer)
}.

(** [Config]: addresses and paths are their texts, times are nanoseconds. *)
Record SrvConfig : Type := MkSrvConfig {
  worker_thread_count : nat;
  max_entries_per_space : nat;
  request_listen_duration : Z;
  listen_address_list : list string;
  prune_interval : Z;
  tls_cert : option string;
  tls_key : option string;
  quic_bind_addr : option string;
  relay_client_rx_bytes_per_second : option Z;
  relay_client_rx_burst_bytes : option Z;
  no_relay_server : bool;
  allowed_origins : option (list string);
  auth : AuthConfig
}.

Definition testing : SrvConfig :=
  MkSrvConfig 2 32 10000000 ["127.0.0.1:0"%string] 10000000000 None None (Some "127.0.0.1:0"%string) None None false None
    default_auth_config.

(** [num_cpus]: of the machine. *)
Definition production (num_cpus : nat) : SrvConfig :=
  MkSrvConfig (num_cpus * 4) 32 2000000000 ["0.0.0.0:443"%string; "[::]:443"%string] 60000000000 None None
    (Some "[::]:7842"%string) None None false None default_auth_config.

Section threads.
Context `{EntryCodec}.
Variable error_body : string -> bytes.
Variable config : SrvConfig.
Implicit Types (s : BootstrapSrv) (w : Worker).

(** The front that [tokio_thread] serves: its CORS headers, and the relay. *)
Definition front_new (header_value : string -> res string) : res (AllowOrigin * bool * option RelayState) :=
  let? cors := cors_origin header_value (allowed_origins config) (bool_decide (is_Some (authentication_hook_server (auth config)))) in
  let? relay := relay_of_server (no_relay_server config) (auth config) (relay_client_rx_bytes_per_second config)
                  (relay_client_rx_burst_bytes config) in
  Ok (cors, relay).

(** [BootstrapSrv::new]: the channel holds as many requests as there are
    workers, and one that holds none is refused by its crate with a panic. *)
Definition bootstrap_srv_new (now : Instant) : res BootstrapSrv :=
  match resolve_relay_rate_limit (relay_client_rx_bytes_per_second config) (relay_client_rx_burst_bytes config) with
  | Ok _ =>
      match worker_thread_count config with
      | O => Panic "capacity cannot be zero"
      | n => Ok (MkSrv true true [] (replicate n AtLoop) PruneLoop now (MkHttp auth_new server_new) [] [])
      end
  | Err e => Err "invalid relay rate-limit config"
  | Panic e => Panic e
  end.

Definition set_worker (i : nat) w s : BootstrapSrv :=
  MkSrv (cont s) (channel_open s) (queue s) (<[ i := w ]> (workers s)) (prune s) (last_check s) (http s) (asked s) (answers s).
Definition set_queue (q : list (nat * HttpRequest)) s : BootstrapSrv :=
  MkSrv (cont s) (channel_open s) q (workers s) (prune s) (last_check s) (http s) (asked s) (answers s).
Definition set_prune (p : PruneWorker) s : BootstrapSrv :=
  MkSrv (cont s) (channel_open s) (queue s) (workers s) p (last_check s) (http s) (asked s) (answers s).
Definition set_http (h : HttpState) s : BootstrapSrv :=
  MkSrv (cont s) (channel_open s) (queue s) (workers s) (prune s) (last_check s) h (asked s) (answers s).
Definition add_answer (id : nat) (a : Answer) s : BootstrapSrv :=
  MkSrv (cont s) (channel_open s) (queue s) (workers s) (prune s) (last_check s) (http s) (asked s) (answers s ++ [(id, a)]).

(** The pass of the prune worker after its sleep, at [now] of the monotonic clock
    and [now_micros] of the wall clock. *)
Definition prune_pass (now now_micros : Z) s : res BootstrapSrv :=
  if prune_interval config <=? duration_since now (last_check s) then
    match update_all (max_entries_per_space config) now_micros (server (http s)) with
    | (Ok _, sv) =>
        Ok (MkSrv (cont s) (channel_open s) (queue s) (workers s) PruneLoop now
              (MkHttp (prune_tokens (auth config) now (auth_state (http s))) sv) (asked s) (answers s))
    | (Err e, _) => Err e
    | (Panic e, _) => Panic e
    end
  else Ok (set_prune PruneLoop s).

(** [handle_dispatch]: a request is sent when the channel has room for it. *)
Definition ask (req : HttpRequest) s : BootstrapSrv :=
  MkSrv (cont s) (channel_open s) (queue s ++ [(length (asked s), req)]) (workers s) (prune s) (last_check s) (http s)
    (asked s ++ [length (asked s)]) (answers s).

(** The two parts of [shutdown] before it joins the threads. *)
Definition stop s : BootstrapSrv :=
  MkSrv false (channel_open s) (queue s) (workers s) (prune s) (last_check s) (http s) (asked s) (answers s).
Definition close_channel s : BootstrapSrv :=
  MkSrv (cont s) false (queue s) (workers s) (prune s) (last_check s) (http s) (asked s) (answers s).

Inductive thread_step : BootstrapSrv -> BootstrapSrv -> Prop :=
  | th_again i s : workers s !! i = Some AtLoop -> cont s = true -> thread_step s (set_worker i Receiving s)
  | th_stopped i s : workers s !! i = Some AtLoop -> cont s = false -> thread_step s (set_worker i WorkerEnded s)
  | th_receive i s id req q : workers s !! i = Some Receiving -> queue s = (id, req) :: q ->
      thread_step s (set_worker i (Handling id req) (set_queue q s))
  | th_closed i s : workers s !! i = Some Receiving -> queue s = [] -> channel_open s = false ->
      thread_step s (set_worker i WorkerEnded s)
  | th_handle i s id req now now' fs a sv : workers s !! i = Some (Handling id req) ->
      handle (max_entries_per_space config) error_body now now' fs req (server (http s)) = (Ok a, sv) ->
      thread_step s (add_answer id a (set_worker i AtLoop (set_http (MkHttp (auth_state (http s)) sv) s)))
  | th_prune_again s : prune s = PruneLoop -> cont s = true -> thread_step s (set_prune Sleeping s)
  | th_prune_stopped s : prune s = PruneLoop -> cont s = false -> thread_step s (set_prune PruneEnded s)
  | th_prune s now now_micros s' : prune s = Sleeping -> prune_pass now now_micros s = Ok s' -> thread_step s s'.

(** What the front and the owner of the server do. *)
Inductive outer_step : BootstrapSrv -> BootstrapSrv -> Prop :=
  | th_ask s req : channel_open s = true -> (length (queue s) < worker_thread_count config)%nat -> outer_step s (ask req s)
  | th_stop s : outer_step s (stop s)
  | th_close s : cont s = false -> outer_step s (close_channel s).

Definition srv_thread_step s s' : Prop := thread_step s s' \/ outer_step s s'.

(** ** Shutdown *)

Definition worker_rank w : nat := match w with Receiving => 3 | Handling _ _ => 2 | AtLoop => 1 | WorkerEnded => 0 end.
Definition prune_rank (p : PruneWorker) : nat := match p with Sleeping => 2 | PruneLoop => 1 | PruneEnded => 0 end.
Fixpoint workers_rank (l : list Worker) : nat := match l with [] => 0 | w :: l => worker_rank w + workers_rank l end.
Definition threads_rank s : nat := workers_rank (workers s) + prune_rank (prune s).

Definition shutting_down s : Prop := cont s = false /\ channel_open s = false.
Definition all_ended s : Prop := Forall (fun w => w = WorkerEnded) (workers s) /\ prune s = PruneEnded.

Lemma sum_rank_insert (i : nat) w w' (l : list Worker) : l !! i = Some w -> (worker_rank w' < worker_rank w)%nat ->
  (workers_rank (<[ i := w' ]> l) < workers_rank l)%nat.
Proof.
  revert i. induction l as [|x l IH]; intros [|i] Hi Hw; try done; cbn in *.
  - injection Hi as ->. lia.
  - specialize (IH i Hi Hw). apply Nat.add_lt_mono_l, IH.
Qed.

Lemma prune_pass_shape now now_micros s s' : prune_pass now now_micros s = Ok s' ->
  prune s' = PruneLoop /\ workers s' = workers s /\ cont s' = cont s /\ channel_open s' = channel_open s /\
  queue s' = queue s /\ asked s' = asked s /\ answers s' = answers s.
Proof.
  unfold prune_pass. destruct (_ <=? _); [|by intros [= <-]].
  destruct (update_all _ _ _) as [[?|?|?] ?]; [|done..]. by intros [= <-].
Qed.

Lemma shutting_down_step s s' : shutting_down s -> thread_step s s' ->
  shutting_down s' /\ (threads_rank s' < threads_rank s)%nat.
Proof.
  intros [Hc Ho] Hstep. unfold shutting_down, threads_rank.
  inversion Hstep; subst; cbn in *; try congruence.
  - split; [done|]. pose proof (sum_rank_insert i AtLoop WorkerEnded (workers s) H0). cbn in *. lia.
  - split; [done|]. pose proof (sum_rank_insert i Receiving (Handling id req) (workers s) H0). cbn in *. lia.
  - split; [done|]. pose proof (sum_rank_insert i Receiving WorkerEnded (workers s) H0). cbn in *. lia.
  - split; [done|]. pose proof (sum_rank_insert i (Handling id req) AtLoop (workers s) H0). cbn in *. lia.
  - split; [done|]. rewrite H0. cbn. lia.
  - apply prune_pass_shape in H1 as (-> & -> & -> & -> & _). split; [done|]. rewrite H0. cbn. lia.
Qed.

Lemma threads_rank_bound s : (threads_rank s <= 3 * length (workers s) + 2)%nat.
Proof.
  unfold threads_rank. assert (Hw : forall l, (workers_rank l <= 3 * length l)%nat).
  { induction l as [|[| | |] l IH]; cbn in *; lia. }
  specialize (Hw (workers s)). destruct (prune s); cbn; lia.
Qed.

(** A worker's request can be answered, and the prune worker's pass can end, in
    every state. *)
Lemma read_entries_no_panic st first l : no_panic (read_entries st first l).
Proof.
  revert first. induction l as [|r l IH]; intros first; [done|]. cbn. unfold ref_read.
  destruct (files st !! ref_file r); [|done]. case_bool_decide; [|done]. cbn. specialize (IH false).
  by destruct (read_entries st false l).
Qed.

Lemma late_put_refused now space agent info : (expires_at info < now) -> exists e, check_put now space agent info = Err e.
Proof.
  intros He. unfold check_put. repeat (case_match; [by eexists|]). apply Z.ltb_lt in He. congruence.
Qed.

Lemma request_answerable req sv : exists now now' fs a sv',
  handle (max_entries_per_space config) error_body now now' fs req sv = (Ok a, sv').
Proof.
  unfold handle. destruct req as [|space|space agent body]; cbn [handle_inner].
  - exists 0, 0, FsOk. by do 2 eexists.
  - exists 0, 0, FsOk. unfold handle_boot_get, map_read. destruct (space_map sv !! space) as [h|]; [|by do 2 eexists].
    unfold space_read. pose proof (read_entries_no_panic (srv_store sv) true (default [] (spaces sv !! h))) as Hn.
    destruct (read_entries _ _ _); [by do 2 eexists..|done].
  - destruct (try_from_slice body) as [info|e|e] eqn:E.
    + destruct (late_put_refused (expires_at info + 1) space agent info) as [e He]; [lia|].
      exists (expires_at info + 1), 0, FsOk. unfold handle_boot_put, accept_put, bind at 1 2, lift_res at 1. rewrite E.
      unfold bind at 1, lift_res. rewrite He. by do 2 eexists.
    + exists 0, 0, FsOk. unfold handle_boot_put, accept_put, bind at 1 2, lift_res at 1. rewrite E. by do 2 eexists.
    + pose proof (try_from_slice_no_panic body) as Hn. by rewrite E in Hn.
Qed.

Lemma prune_can_pass s : 0 < prune_interval config -> exists now now_micros s', prune_pass now now_micros s = Ok s'.
Proof.
  intros Hp. exists (last_check s), 0, (set_prune PruneLoop s). unfold prune_pass, duration_since.
  assert ((prune_interval config <=? Z.max 0 (last_check s - last_check s)) = false) as -> by (apply Z.leb_gt; lia). done.
Qed.

Lemma live_thread_steps s : 0 < prune_interval config -> shutting_down s -> ~ all_ended s -> exists s', thread_step s s'.
Proof.
  intros Hp [Hc Ho] Hne. destruct (decide (Exists (fun w => w <> WorkerEnded) (workers s))) as [He|He].
  - apply Exists_exists in He as (w & (i & Hi)%list_elem_of_lookup & Hw). destruct w as [| |id req|]; [| | |done].
    + eexists. by apply (th_stopped i).
    + destruct (queue s) as [|[id req] q] eqn:Hq; eexists; [by apply (th_closed i)|by eapply (th_receive i)].
    + destruct (request_answerable req (server (http s))) as (now & now' & fs & a & sv & E). eexists. by eapply (th_handle i).
  - destruct (prune s) eqn:Hpr.
    + eexists. by apply th_prune_stopped.
    + destruct (prune_can_pass s Hp) as (now & m & s' & E). exists s'. by eapply th_prune.
    + destruct Hne. split; [|done]. apply Forall_forall. intros w Hw. apply not_Exists_Forall in He; [|apply _].
      rewrite Forall_forall in He. specialize (He w Hw). destruct (decide (w = WorkerEnded)); [done|by destruct (He n)].
Qed.

(** Once the server has been told to stop and its channel is closed, its
    threads take finitely many more steps, three for each worker and two for
    the prune worker at most, in any order, and when none can go on all have
    ended: the shutdown that joins them returns. *)
Theorem shutdown_ends s : 0 < prune_interval config -> shutting_down s ->
  (forall n s', nsteps thread_step n s s' -> (n <= 3 * length (workers s) + 2)%nat) /\
  (forall s', rtc thread_step s s' -> (forall s2, ~ thread_step s' s2) -> all_ended s').
Proof.
  intros Hh Hs. split.
  - intros n s' Hn. pose proof (threads_rank_bound s). enough (n <= threads_rank s)%nat by lia.
    clear Hh H0. revert Hs. induction Hn as [s|n s s1 s' Hstep Hn IH]; intros Hs; [lia|].
    destruct (shutting_down_step s s1 Hs Hstep) as [Hs1 Hlt]. specialize (IH Hs1). lia.
  - intros s' Hrtc Hstuck. assert (Hs' : shutting_down s').
    { clear Hstuck. induction Hrtc as [s|s s1 s' Hstep _ IH]; [done|]. apply IH. by eapply shutting_down_step. }
    destruct (decide (Forall (fun w => w = WorkerEnded) (workers s'))) as [Hw|Hw].
    + destruct (prune s') eqn:Hpr; [| |done];
        (destruct (live_thread_steps s' Hh Hs') as [s2 H2]; [intros [_ E]; congruence|by destruct (Hstuck s2)]).
    + destruct (live_thread_steps s' Hh Hs') as [s2 H2]; [by intros [? _]|by destruct (Hstuck s2)].
Qed.

(** ** Answers *)

Definition held w : list nat := match w with Handling id _ => [id] | _ => [] end.
Definition all_held (l : list Worker) : list nat := flat_map held l.

Lemma held_insert i w w' l : l !! i = Some w -> all_held (<[ i := w' ]> l) ++ held w ≡ₚ all_held l ++ held w'.
Proof.
  revert i. induction l as [|x l IH]; intros [|i] Hi; [done..| |].
  - injection Hi as ->. cbn. trans (held w ++ (held w' ++ all_held l)); [apply Permutation_app_comm|].
    rewrite <- app_assoc. apply Permutation_app_head, Permutation_app_comm.
  - cbn. rewrite <- !app_assoc. apply Permutation_app_head, (IH i Hi).
Qed.

(** Each request asked is in one place. *)
Definition requests_ok s : Prop :=
  asked s = seq 0 (length (asked s)) /\ asked s ≡ₚ (answers s).*1 ++ all_held (workers s) ++ (queue s).*1.

Lemma requests_step s s' : srv_thread_step s s' -> requests_ok s -> requests_ok s'.
Proof.
  intros Hstep [Hseq Hp]. unfold requests_ok. destruct Hstep as [Hstep|Hstep]; inversion Hstep; subst; cbn; try done.
  - split; [done|]. rewrite Hp. f_equiv. f_equiv. pose proof (held_insert i AtLoop Receiving (workers s) H0) as Hh.
    cbn in Hh. by rewrite !app_nil_r in Hh.
  - split; [done|]. rewrite Hp. f_equiv. f_equiv. pose proof (held_insert i AtLoop WorkerEnded (workers s) H0) as Hh.
    cbn in Hh. by rewrite !app_nil_r in Hh.
  - split; [done|]. rewrite Hp, H1. f_equiv. cbn.
    pose proof (held_insert i Receiving (Handling id req) (workers s) H0) as Hh. cbn in Hh. rewrite app_nil_r in Hh.
    by rewrite Hh, <- app_assoc.
  - split; [done|]. rewrite Hp. f_equiv. f_equiv. pose proof (held_insert i Receiving WorkerEnded (workers s) H0) as Hh.
    cbn in Hh. by rewrite !app_nil_r in Hh.
  - split; [done|]. rewrite Hp, fmap_app, <- app_assoc. f_equiv. cbn.
    pose proof (held_insert i (Handling id req) AtLoop (workers s) H0) as Hh. cbn in Hh. rewrite app_nil_r in Hh.
    rewrite <- Hh, <- app_assoc. cbn. by rewrite Permutation_middle.
  - apply prune_pass_shape in H1 as (_ & -> & _ & _ & -> & -> & ->). done.
  - rewrite length_app. cbn. split; [by rewrite Nat.add_1_r, seq_S, <- Hseq|].
    rewrite Hp at 1. rewrite fmap_app. cbn. by rewrite <- !app_assoc.
Qed.

(** Whatever the threads do, each request is answered once at most, and one
    that is not yet answered is held by one worker or waits in the channel. *)
Theorem answered_once now s0 s : bootstrap_srv_new now = Ok s0 -> rtc srv_thread_step s0 s ->
  NoDup (answers s).*1 /\
  forall id, id ∈ asked s -> id ∉ (answers s).*1 -> id ∈ all_held (workers s) \/ id ∈ (queue s).*1.
Proof.
  intros Hnew Hrun. assert (Hok : requests_ok s).
  { assert (H0 : requests_ok s0).
    { unfold bootstrap_srv_new in Hnew. destruct (resolve_relay_rate_limit _ _); [|done..].
      destruct (worker_thread_count config) as [|n]; [done|]. injection Hnew as <-. split; [done|]. cbn.
      clear. induction n as [|n IH]; [done|exact IH]. }
    clear Hnew. induction Hrun as [s|s s1 s' Hstep _ IH]; [done|]. apply IH. by eapply requests_step. }
  destruct Hok as [Hseq Hp]. assert (Hnd : NoDup (asked s)) by (rewrite Hseq; apply NoDup_seq). rewrite Hp in Hnd. split.
  - by apply NoDup_app in Hnd as [? _].
  - intros id Hid Hno. rewrite Hp, !elem_of_app in Hid. tauto.
Qed.
End threads.

(** ** At a small server *)
Section demo.
Definition no_json : EntryCodec :=
  Build_EntryCodec (fun _ => None) (fun _ => None) (fun _ => None) (fun _ => false) (fun _ _ _ => false).
#[local] Existing Instance no_json.

Definition demo_srv : BootstrapSrv :=
  MkSrv true true [] [AtLoop; AtLoop] PruneLoop 0 (MkHttp auth_new server_new) [] [].
(** One worker has a request, the other waits for one, and the server stops. *)
Definition demo_stopping : BootstrapSrv :=
  close_channel (stop (MkSrv true true [] [Handling 0 HealthGet; Receiving] Sleeping 0 (MkHttp auth_new server_new) [0%nat] [])).

Lemma shutdown_ends_witness :
  (forall n s', nsteps (thread_step (fun _ => []) testing) n demo_stopping s' -> (n <= 8)%nat) /\
  (forall s', rtc (thread_step (fun _ => []) testing) demo_stopping s' ->
     (forall s2, ~ thread_step (fun _ => []) testing s' s2) -> all_ended s').
Proof. apply (shutdown_ends (fun _ => []) testing demo_stopping); [reflexivity|by split]. Defined.

Definition demo_asked : BootstrapSrv := set_worker 1 Receiving (ask HealthGet demo_srv).

Lemma answered_once_witness : bootstrap_srv_new testing 0 = Ok demo_srv /\
  forall id, id ∈ asked demo_asked -> id ∉ (answers demo_asked).*1 -> id ∈ all_held (workers demo_asked) \/ id ∈ (queue demo_asked).*1.
Proof.
  split; [reflexivity|].
  apply (answered_once (fun _ => []) testing 0 demo_srv); [reflexivity|].
  apply (rtc_l _ _ (ask HealthGet demo_srv)); [right; apply th_ask; [done|cbn; lia]|].
  apply rtc_once. left. by apply (th_again _ _ 1).
Defined.
End demo.
