(* ===== verification/GossipLoop.v ===== *)
(** The background tasks of a gossip instance (crates/gossip/src/initiate.rs,
    timeout.rs, update.rs and burst.rs): the task that initiates rounds, with
    its waits, the task that ends rounds that take too long, and the steps of
    the message handlers between theirs. *)

From S2P Require Import Prelude Arc Timestamp Id Agent Combine ArcSet OpStore MemOpStore.
From S2P Require Import TimePartition HashPartition Snapshot Dht StorageArc.
From S2P Require Import GossipProtocol GossipWire PeerMeta PeerStore GossipNode GossipRespond.
From S2P Require Import GossipRounds GossipSafety GossipTarget GossipDemo.

#[local] Set Default Proof Using "Type*".

(** ** The waits *)

Definition initial_initiate_interval (config : K2GossipConfig) : Duration :=
  from_millis (initial_initiate_interval_ms config).
Definition initiate_interval (config : K2GossipConfig) : Duration :=
  from_millis (initiate_interval_ms config).

(** [random] is what the random generator returns, a u64. *)
Definition compute_delay (config : K2GossipConfig) (random : Z) (base_delay : Duration) : Duration :=
  if 0 <? initiate_jitter_ms config
  then base_delay + from_millis (random mod initiate_jitter_ms config)
  else base_delay.

Definition at_target (a : LocalAgent) : bool :=
  bool_decide (cur_storage_arc a = tgt_storage_arc a).

(** Where the initiation task is.  The local agents it has read are shared
    objects: what is kept of them is who they are. *)
Inductive Phase : Type :=
  | Top
  | Paused (until : Z)
  | Delaying (local_agents : list AgentId) (until : Z)
  | Draining (local_agents : list AgentId) (until : Z)
  | Settling (local_agents : list AgentId) (until : Z)
  | Ready (local_agents : list AgentId)
  | Selecting (local_agents : list AgentId)
  | Selected (local_agents : list AgentId) (url : Url)
  | Initiating (outcome : gres bool)
  | Stopped.

(** What happened, the last first: an attempt to initiate, its failure, an
    unanswered initiation that timed out, and a wait cut short. *)
Inductive Event : Type := Attempted (url : Url) | Failed | Unanswered | Forced.

Definition is_attempt (e : Event) : bool := match e with Attempted _ => true | _ => false end.
Definition is_wake (e : Event) : bool := match e with Failed | Unanswered => true | _ => false end.
Definition is_forced (e : Event) : bool := match e with Forced => true | _ => false end.
Definition count (f : Event -> bool) (log : list Event) : Z := Z.of_nat (length (List.filter f log)).

(** The instance: the monotonic clock, the initiation task, the signal to it (a
    channel for one message), when the timeout task is due, the node, and
    whether anything but its own tasks still refers to it. *)
Record Background (H : Type) : Type := MkBackground {
  at_time : Z;
  phase : Phase;
  force_pending : bool;
  next_check : Z;
  node : K2Gossip H;
  referred : bool;
  log : list Event;
}.
Arguments MkBackground {H}.
Arguments at_time {H}.
Arguments phase {H}.
Arguments force_pending {H}.
Arguments next_check {H}.
Arguments node {H}.
Arguments referred {H}.
Arguments log {H}.

Section background.
Context {H : Type} `{GossipHost H} `{Location} `{SerdeNum} `{AgentJson} `{Protobuf}.
Variable config : K2GossipConfig.
Variable space_id : SpaceId.
Variable sharding : bool.
Variable set_iter : list AgentInfoSigned -> list AgentInfoSigned.
Implicit Types b : Background H.

Definition set_phase (p : Phase) b : Background H :=
  MkBackground (at_time b) p (force_pending b) (next_check b) (node b) (referred b) (log b).
Definition set_node (n : K2Gossip H) b : Background H :=
  MkBackground (at_time b) (phase b) (force_pending b) (next_check b) n (referred b) (log b).
Definition record (e : Event) b : Background H :=
  MkBackground (at_time b) (phase b) (force_pending b) (next_check b) (node b) (referred b) (e :: log b).
Definition set_force (f : bool) b : Background H :=
  MkBackground (at_time b) (phase b) f (next_check b) (node b) (referred b) (log b).
Definition checked_now b : Background H :=
  MkBackground (at_time b) (phase b) (force_pending b) (at_time b + from_secs 5) (node b) (referred b) (log b).
Definition set_time (t : Z) b : Background H :=
  MkBackground t (phase b) (force_pending b) (next_check b) (node b) (referred b) (log b).
Definition unrefer b : Background H :=
  MkBackground (at_time b) (phase b) (force_pending b) (next_check b) (node b) false (log b).

(** [K2Gossip::create], once the DHT model is made: no rounds, the initiation
    task at its loop and the first check of the timeout task in 5 s. *)
Definition gossip_create (t : Z) (d : Dht) (h : H) : Background H :=
  MkBackground t Top false (t + from_secs 5) (MkGossip None ∅ ∅ d h) true [].

(** The start of a turn.  The task holds the instance from here to the end of
    the turn; at the start of one that nothing else refers to there is no
    instance any more. *)
Definition start_turn (random : Z) b : option (Background H) :=
  if negb (referred b) then Some (set_phase Stopped b)
  else
    let (local_agents, h) := las_get_all (host (node b)) in
    let b := set_node (set_host h (node b)) b in
    match local_agents with
    | Panic _ => None
    | Err _ => Some (set_phase (Paused (at_time b + from_secs 5)) b)
    | Ok [] => Some (set_phase (Paused (at_time b + from_secs 1)) b)
    | Ok agents =>
        let until := at_time b + compute_delay config random (initiate_interval config) in
        Some (set_phase (if forallb at_target agents then Delaying (map la_agent agents) until
                         else Draining (map la_agent agents) until) b)
    end.

(** After the wait: no round is initiated while there is one. *)
Definition check_initiated (agents : list AgentId) b : Background H :=
  match initiated_round_state (node b) with
  | Some _ => set_phase Top b
  | None => set_phase (Selecting agents) b
  end.

(** [agents] are the local agents of the start of the turn, as they are now. *)
Definition select (wall_now : Timestamp) (agents : list LocalAgent) b : option (Background H) :=
  let (r, h) := select_next_target set_iter wall_now agents (host (node b)) in
  let b := set_node (set_host h (node b)) b in
  match r with
  | Ok (Some url) => Some (set_phase (Selected (map la_agent agents) url) b)
  | Ok None | Err _ => Some (set_phase Top b)
  | Panic _ => None
  end.

(** The call of [initiate_gossip], which holds the lock of the initiated round
    until it returns. *)
Definition initiate (wall_now : Timestamp) (fresh_id : bytes) (random : Z) (url : Url) b : option (Background H) :=
  let (r, n) := initiate_gossip config space_id (MkClock wall_now (at_time b)) fresh_id random url (node b) in
  match r with
  | GPanic _ => None
  | _ => Some (record (Attempted url) (set_phase (Initiating r) (set_node n b)))
  end.

Definition end_turn (outcome : gres bool) b : Background H :=
  match outcome with
  | GOk _ => set_phase Top b
  | _ => record Failed (set_force true (set_phase Top b))
  end.

(** A check of the timeout task. *)
Definition check_timeouts (wall_now : Timestamp) b : option (Background H) :=
  match remove_timed_out_rounds config (MkClock wall_now (at_time b)) (node b) with
  | (GOk true, n) => Some (record Unanswered (set_force true (checked_now (set_node n b))))
  | (GOk false, n) => Some (checked_now (set_node n b))
  | _ => None
  end.

Definition lock_held b : bool := match phase b with Initiating _ => true | _ => false end.

(** The instance lives while something refers to it, or the initiation task is
    in a turn. *)
Definition lives b : bool :=
  referred b || match phase b with Top | Stopped => false | _ => true end.

(** Time passes: a wait that has ended is not slept through, nor is a signal
    during the wait for it, nor is the check of the timeout task late once the
    lock is free. *)
Definition may_wait b (t : Z) : bool :=
  (at_time b <=? t) &&
  (match phase b with
   | Paused until | Draining _ until | Settling _ until => t <=? until
   | Delaying _ until => (t <=? until) && negb (force_pending b)
   | _ => true
   end) &&
  (lock_held b || negb (lives b) || (t <=? next_check b)).

(** What the handlers of messages, the other tasks and the host do to the node
    meanwhile. *)
Inductive handler_step (b : Background H) : K2Gossip H -> Prop :=
  | hs_message wall_now p msg :
      handler_step b (handle_gossip_message config space_id sharding (MkClock wall_now (at_time b)) p msg (node b)).2
  | hs_cleanup wall_now : handler_step b (set_burst (cleanup config wall_now) (node b))
  | hs_stored ops : handler_step b (inform_ops_stored ops (node b)).2
  | hs_update wall_now : handler_step b (update_dht (MkClock wall_now (at_time b)) (node b)).2
  | hs_host h : handler_step b (set_host h (node b)).

Inductive background_step : Background H -> Background H -> Prop :=
  | bg_turn random b b' : phase b = Top -> 0 <= random -> start_turn random b = Some b' -> background_step b b'
  | bg_resumed b until : phase b = Paused until -> until <= at_time b -> background_step b (set_phase Top b)
  | bg_delay_over b agents until : phase b = Delaying agents until -> until <= at_time b ->
      background_step b (set_phase (Ready agents) b)
  | bg_forced b agents until : phase b = Delaying agents until -> force_pending b = true ->
      background_step b (record Forced (set_force false (set_phase (Ready agents) b)))
  | bg_drain_over b agents until : phase b = Draining agents until -> until <= at_time b ->
      background_step b (set_phase (Ready agents) b)
  | bg_drained b agents until : phase b = Draining agents until ->
      background_step b (set_phase (Settling agents (at_time b + initial_initiate_interval config)) b)
  | bg_settled b agents until : phase b = Settling agents until -> until <= at_time b ->
      background_step b (set_phase (Ready agents) b)
  | bg_check b agents : phase b = Ready agents -> background_step b (check_initiated agents b)
  | bg_select wall_now ids agents b b' : phase b = Selecting ids -> map la_agent agents = ids ->
      select wall_now agents b = Some b' -> background_step b b'
  | bg_initiate wall_now fresh_id random ids url b b' : phase b = Selected ids url ->
      initiate wall_now fresh_id random url b = Some b' -> background_step b b'
  | bg_initiated outcome b : phase b = Initiating outcome -> background_step b (end_turn outcome b)
  | bg_timeouts wall_now b b' : lives b = true -> lock_held b = false -> next_check b <= at_time b ->
      check_timeouts wall_now b = Some b' -> background_step b b'
  | bg_handler b n : lives b = true -> handler_step b n ->
      (lock_held b = true -> same_initiated (node b) n) -> background_step b (set_node n b)
  | bg_unrefer b : background_step b (unrefer b)
  | bg_time t b : may_wait b t = true -> background_step b (set_time t b).
End background.

(** ** The pace of initiations *)

#[global] Arguments set_phase {H}.
#[global] Arguments record {H}.
#[global] Arguments set_force {H}.
#[global] Arguments checked_now {H}.
#[global] Arguments compute_delay : simpl never.

Lemma count_cons f e l : count f (e :: l) = count f l + (if f e then 1 else 0).
Proof. unfold count. cbn. destruct (f e); cbn [length]; lia. Qed.

Lemma compute_delay_bounds config random d : 0 <= random -> 0 <= initiate_jitter_ms config ->
  d <= compute_delay config random d <= d + from_millis (initiate_jitter_ms config).
Proof.
  intros Hr Hj. unfold compute_delay, from_millis. destruct (Z.ltb_spec 0 (initiate_jitter_ms config)); [|lia].
  pose proof (Z.mod_pos_bound random (initiate_jitter_ms config)). lia.
Qed.

Section theorems.
Context {H : Type} `{GossipHost H} `{!PeerMetaLaws H} `{Location} `{SerdeNum} `{AgentJson} `{Protobuf}.
Variable config : K2GossipConfig.
Variable space_id : SpaceId.
Variable sharding : bool.
Variable set_iter : list AgentInfoSigned -> list AgentInfoSigned.
Implicit Types b : Background H.
Abbreviation bstep := (background_step (H := H) config space_id sharding set_iter).

(** The least time of a wait. *)
Definition least_wait : Duration := Z.min (initiate_interval config) (initial_initiate_interval config).

(** What the attempts so far, and the one under way, allow of the time. *)
Definition paced_phase (t t0 : Z) (p : Phase) (paid : Z) : Prop :=
  paid <= t - t0 /\
  match p with
  | Delaying _ until | Settling _ until | Draining _ until => paid + least_wait <= until - t0
  | Ready _ | Selecting _ | Selected _ _ => paid + least_wait <= t - t0
  | _ => True
  end.

Definition paced (t0 : Z) b : Prop :=
  paced_phase (at_time b) t0 (phase b) (least_wait * (count is_attempt (log b) - count is_forced (log b))) /\
  count is_forced (log b) + (if force_pending b then 1 else 0) <= count is_wake (log b).

(** Of a step that leaves the initiation task where it is. *)
Lemma paced_later t t' t0 p x : t <= t' -> paced_phase t t0 p x -> paced_phase t' t0 p x.
Proof. intros Ht [Hx Hp]. split; [lia|]. destruct p; cbn in *; done || lia. Qed.

Lemma start_turn_phase random b b' : 0 <= random -> 0 <= initiate_jitter_ms config ->
  start_turn config random b = Some b' ->
  at_time b' = at_time b /\ log b' = log b /\ force_pending b' = force_pending b /\
  match phase b' with
  | Stopped | Paused _ => True
  | Delaying _ until | Draining _ until => at_time b + initiate_interval config <= until
  | _ => False
  end.
Proof.
  intros Hr Hj. unfold start_turn. destruct (referred b); cbn; [|by intros [= <-]].
  destruct (las_get_all _) as [[agents|e|e] h]; [|by intros [= <-]|done].
  pose proof (compute_delay_bounds config random (initiate_interval config) Hr Hj).
  destruct agents as [|a agents]; [by intros [= <-]|]. intros [= <-]. cbn.
  destruct (_ && _); split_and!; done || lia.
Qed.

Definition config_ok : Prop :=
  0 <= initiate_interval_ms config /\ 0 <= initial_initiate_interval_ms config /\
  0 <= initiate_jitter_ms config /\ 0 <= round_timeout_ms config.

Lemma least_wait_pos : config_ok -> 0 <= least_wait.
Proof. unfold config_ok, least_wait, initiate_interval, initial_initiate_interval, from_millis. lia. Qed.

Lemma paced_step t0 b b' : config_ok -> bstep b b' -> paced t0 b -> paced t0 b'.
Proof.
  intros Hok Hstep [Hp Hw]. pose proof (least_wait_pos Hok) as Hl. unfold paced.
  assert (Hi : least_wait <= initiate_interval config /\ least_wait <= initial_initiate_interval config)
    by (unfold least_wait; lia).
  assert (Hf : 0 <= (if force_pending b then 1 else 0)) by (by destruct (force_pending b)).
  inversion Hstep; subst; cbn in *; repeat match goal with E : phase _ = _ |- _ => rewrite E in *; clear E end; cbn in *;
    rewrite ?count_cons; cbn; destruct Hp as [Hp Hph]; cbn in Hph; try done;
    try (split; [split; [done|done || lia]|done]).
  - match goal with E : start_turn _ _ _ = _ |- _ =>
      apply start_turn_phase in E as (-> & -> & -> & Hb); [|done|apply Hok] end.
    split; [|done]. split; [done|]. destruct (phase b'); cbn; done || lia.
  - match goal with E : force_pending _ = _ |- _ => rewrite E in *; clear E end.
    rewrite Z.add_0_r, Z.sub_add_distr, Z.mul_sub_distr_l. split; [split|]; lia.
  - unfold check_initiated. by destruct (initiated_round_state _).
  - match goal with E : select _ _ _ _ = _ |- _ => unfold select in E; rename E into Hs end.
    by destruct (select_next_target _ _ _ _) as [[[u|]|e|e] h]; simplify_eq/=.
  - match goal with E : initiate _ _ _ _ _ _ _ = _ |- _ => unfold initiate in E; rename E into Hs end.
    destruct (initiate_gossip _ _ _ _ _ _ _) as [[a|e|e|e] n]; simplify_eq/=; rewrite !count_cons; cbn;
      rewrite !Z.add_0_r, Z.add_sub_swap, Z.mul_add_distr_l; (split; [split|]; done || lia).
  - unfold end_turn. destruct outcome; cbn; rewrite ?count_cons; cbn; rewrite ?Z.add_0_r;
      (split; [done|]); lia.
  - match goal with E : check_timeouts _ _ _ = _ |- _ => unfold check_timeouts in E; rename E into Hs end.
    destruct (remove_timed_out_rounds _ _ _) as [[[]|e|e|e] n]; simplify_eq/=; rewrite ?count_cons; cbn;
      rewrite ?Z.add_0_r; (split; [done|]); lia.
  - match goal with E : may_wait _ _ = true |- _ =>
      unfold may_wait in E; apply andb_prop in E as [[E _]%andb_prop _]; apply Z.leb_le in E end.
    split; [|done]. by eapply paced_later.
Qed.

(** C16: However messages, timeouts and waits interleave, the instance has
    initiated at most once in each shorter of its two intervals since it began,
    and once more for each initiation that failed or was not answered: those
    are tried again at once, without a limit. *)
Theorem initiations_paced t0 d h b : config_ok -> rtc bstep (gossip_create t0 d h) b ->
  least_wait * count is_attempt (log b) <= at_time b - t0 + least_wait * count is_wake (log b).
Proof.
  intros Hok Hrun. pose proof (least_wait_pos Hok) as Hl.
  assert (Hp : paced t0 (gossip_create t0 d h)).
  { unfold paced, paced_phase, count. cbn. rewrite Z.mul_0_r, Z.sub_diag. done. }
  assert (Hb : paced t0 b).
  { revert Hp. induction Hrun as [b|b b1 b' Hstep _ IH]; [done|]. intros Hp. apply IH. by eapply paced_step. }
  clear Hp Hrun. destruct Hb as [Hp Hw].
  destruct Hp as [Hp _]. assert (Hle : count is_forced (log b) <= count is_wake (log b)) by (destruct (force_pending b); lia).
  apply (Z.mul_le_mono_nonneg_l _ _ least_wait Hl) in Hle. lia.
Qed.

(** ** The end of a round *)

(** Our round is the one it was, or one that starts at [t]. *)
Definition started_from (t : Z) (n n' : K2Gossip H) : Prop := forall r', initiated_round_state n' = Some r' ->
  started_at r' = t \/ exists r, initiated_round_state n = Some r /\ started_at r' = started_at r.

#[local] Instance started_from_frame t : Frame (started_from t).
Proof.
  split; [split|].
  - intros n r Hr. right. by exists r.
  - intros n1 n2 n3 A B r3 [?|(r2 & [?|(r1 & ? & ?)]%A & ?)]%B; [by left|left; congruence|right].
    exists r1. split; congruence.
  - intros n h r Hr. right. by exists r.
Qed.

Lemma initiate_gossip_started clock fresh_id random url :
  frames (started_from (instant clock)) (initiate_gossip config space_id clock fresh_id random url).
Proof.
  assert (Hset : forall agents arcs, frames (started_from (instant clock))
    (gmodify (S := K2Gossip H) (set_initiated (Some (new_round clock fresh_id random url agents arcs))))).
  { intros agents arcs n r [= <-]. by left. }
  unfold initiate_gossip. follow.
Qed.

Lemma handler_step_started t b n : handler_step config space_id sharding b n -> started_from t (node b) n.
Proof.
  assert (Hfrom : forall m m' : K2Gossip H, init_from m m' -> started_from t m m').
  { intros m m' Hi r' (r & E & _ & _ & Es)%Hi. right. by exists r. }
  intros [wall_now p msg|wall_now|ops|wall_now|h]; apply Hfrom; try (intros r Hr; by exists r).
  - apply handle_init_from.
  - unfold inform_ops_stored, write_dht. destruct (dht_inform_ops_stored _ _) as [r [d h]]. intros r' Hr. by exists r'.
  - unfold update_dht, write_dht, log_error. destruct (dht_update _ _) as [[a|e|e] [d h]]; intros r' Hr; by exists r'.
Qed.

(** The last check let pass only rounds within the timeout. *)
Definition rounds_checked b : Prop :=
  next_check b - from_secs 5 <= at_time b /\
  forall r, initiated_round_state (node b) = Some r -> next_check b - from_secs 5 <= started_at r + round_timeout config.

Lemma rounds_checked_node b n : 0 <= round_timeout_ms config -> started_from (at_time b) (node b) n ->
  rounds_checked b -> forall r, initiated_round_state n = Some r ->
  next_check b - from_secs 5 <= started_at r + round_timeout config.
Proof.
  unfold round_timeout, from_millis. intros Ht Hn [Hc Hr] r [->|(r0 & E & ->)]%Hn; [lia|by apply Hr].
Qed.

Lemma rounds_checked_step b b' : config_ok -> bstep b b' -> rounds_checked b -> rounds_checked b'.
Proof.
  intros (_ & _ & _ & Ht) Hstep Hb. pose proof (fun n => rounds_checked_node b n Ht) as Hnode.
  inversion Hstep; subst; try exact Hb.
  - unfold start_turn in *. destruct (referred b); simplify_eq/=; [|exact Hb].
    destruct (las_get_all _) as [[[|a agents]|e|e] h]; by simplify_eq/=.
  - unfold check_initiated. by destruct (initiated_round_state (node b)).
  - unfold select in *. by destruct (select_next_target _ _ _ _) as [[[u|]|e|e] h]; simplify_eq/=.
  - unfold initiate in *. destruct Hb as [Hc Hr].
    pose proof (initiate_gossip_started (MkClock wall_now (at_time b)) fresh_id random url (node b)) as Hs.
    destruct (initiate_gossip _ _ _ _ _ _ _) as [[a|e|e|e] n]; simplify_eq/=; (split; [done|by apply (Hnode n)]).
  - unfold end_turn. by destruct outcome.
  - unfold check_timeouts in *.
    destruct (timeouts_exact config (MkClock wall_now (at_time b)) (node b)) as (n' & force & E & _ & Hi & _).
    assert (Hchecked : rounds_checked (checked_now (set_node n' b))).
    { split; cbn; [lia|]. intros r Hr. rewrite Hi in Hr. destruct (initiated_round_state (node b)) as [r0|]; [|done].
      destruct (timed_out config _ r0) eqn:Eo; simplify_eq/=. unfold timed_out in Eo.
      apply Z.ltb_ge in Eo. cbn in Eo. lia. }
    rewrite E in *. by destruct force; simplify_eq/=.
  - destruct Hb as [Hc Hr]. split; [done|]. apply (Hnode n); [by apply handler_step_started|done].
  - destruct Hb as [Hc Hr]. split; [|done]. cbn. unfold may_wait in *.
    match goal with E : _ && _ = true |- _ => apply andb_prop in E as [[E _]%andb_prop _]; apply Z.leb_le in E end. lia.
Qed.


(** ** An instance nothing refers to *)

(** The attempts it still makes. *)
Definition attempts_left (p : Phase) : Z :=
  match p with Top | Initiating _ | Stopped => 0 | _ => 1 end.

Lemma unreferred_step b b' : bstep b b' -> referred b = false ->
  referred b' = false /\
  count is_attempt (log b') + attempts_left (phase b') <= count is_attempt (log b) + attempts_left (phase b).
Proof.
  intros Hstep Hu. inversion Hstep; subst; cbn in *; repeat match goal with E : phase _ = _ |- _ => rewrite E in *; clear E end;
    cbn; rewrite ?count_cons; cbn; rewrite ?Z.add_0_r; try (split; [done|lia]).
  - unfold start_turn in *. rewrite Hu in *. simplify_eq/=. split; [done|lia].
  - unfold check_initiated. destruct (initiated_round_state _); cbn; (split; [done|lia]).
  - unfold select in *. destruct (select_next_target _ _ _ _) as [[[u|]|e|e] h]; simplify_eq/=; (split; [done|lia]).
  - unfold initiate in *. destruct (initiate_gossip _ _ _ _ _ _ _) as [[a|e|e|e] n]; simplify_eq/=;
      rewrite ?count_cons; cbn; (split; [done|lia]).
  - unfold end_turn. destruct outcome; cbn; rewrite ?count_cons; cbn; (split; [done|lia]).
  - unfold check_timeouts in *. destruct (remove_timed_out_rounds _ _ _) as [[[]|e|e|e] n]; simplify_eq/=;
      rewrite ?count_cons; cbn; (split; [done|lia]).
Qed.

(** An instance that nothing refers to any more initiates once more at most,
    at the end of the turn it is in. *)
Theorem dropped_instance_ends b b' : referred b = false -> rtc bstep b b' ->
  count is_attempt (log b') <= count is_attempt (log b) + attempts_left (phase b).
Proof.
  intros Hu Hrun.
  enough (count is_attempt (log b') + attempts_left (phase b') <= count is_attempt (log b) + attempts_left (phase b))
    by (destruct (phase b'); cbn in *; lia).
  induction Hrun as [b|b b1 b' Hstep _ IH]; [lia|].
  destruct (unreferred_step b b1 Hstep Hu) as [Hu1 H1']. specialize (IH Hu1). lia.
Qed.

(** ** Repeated failures *)

(** When every agent is at its target and the initiation fails before it is
    recorded, the task tries again at once, as often as it fails: any number of
    attempts are made and no time passes. *)
Theorem failures_spin b agents url wall_now fresh_id random e h : phase b = Top -> referred b = true ->
  force_pending b = true -> initiated_round_state (node b) = None ->
  las_get_all (host (node b)) = (Ok agents, host (node b)) -> agents <> [] -> forallb at_target agents = true ->
  select_next_target set_iter wall_now agents (host (node b)) = (Ok (Some url), h) -> set_host h (node b) = node b ->
  initiate_gossip config space_id (MkClock wall_now (at_time b)) fresh_id random url (node b) = (GErr e, node b) ->
  forall k, exists b', rtc bstep b b' /\ at_time b' = at_time b /\
    count is_attempt (log b') = Z.of_nat k + count is_attempt (log b).
Proof.
  intros Hp Hu Hf Hi Hl Hne Ht Hs Hh Hg k.
  enough (exists l, rtc bstep b (MkBackground (at_time b) Top true (next_check b) (node b) true l) /\
    count is_attempt l = Z.of_nat k + count is_attempt (log b)) as (l & Hr & Hc) by (eexists; by split_and!).
  assert (Hhost : set_host (host (node b)) (node b) = node b) by by destruct (node b).
  induction k as [|k (l & Hr & Hc)].
  - exists (log b). split; [|lia]. destruct b. cbn in *. subst. apply rtc_refl.
  - exists (Failed :: Attempted url :: Forced :: l). split; [|rewrite !count_cons; cbn; lia].
    etrans; [exact Hr|]. clear Hr Hc. destruct agents as [|a agents]; [done|].
    eapply rtc_l; [apply (bg_turn _ _ _ _ 0); [done|lia|]|].
    { unfold start_turn. cbn. rewrite Hl. cbn -[forallb at_target]. rewrite Ht, Hhost. reflexivity. }
    eapply rtc_l; [by eapply bg_forced|]. cbn.
    eapply rtc_l; [by eapply bg_check|]. unfold check_initiated. cbn. rewrite Hi. cbn.
    eapply rtc_l; [eapply (bg_select _ _ _ _ wall_now _ (a :: agents)); [done|done|]|].
    { unfold select. cbn. rewrite Hs. cbn. rewrite Hh. reflexivity. }
    eapply rtc_l; [eapply (bg_initiate _ _ _ _ wall_now fresh_id random); [done|]|].
{ unfold initiate. cbn -[initiate_gossip]. rewrite Hg. reflexivity. }
    eapply rtc_l; [by eapply bg_initiated|]. apply rtc_refl.
Qed.
End theorems.

(** ** A run *)

Definition eager_config : K2GossipConfig := MkGossipConfig 100 100 1000 2000 500 0 3 5 15000 10.
Definition eager_host (arc : DhtArc) : MemHost :=
  MkMemHost 1000 mem_default ∅
    (inner_insert 0 1000 ∅ [demo_info 1 "a" (Arc 0 100)] (inner_new 2000 0)).2
    [MkLocalAgent [7] arc arc] [] [].
Definition eager_dht : Dht := MkDht (MkHashPartition 0 []) 0.

Abbreviation eager_step := (background_step (H := MemHost) eager_config [0] true (fun l => l)).
Definition eager_start (arc : DhtArc) : Background MemHost := gossip_create 0 eager_dht (eager_host arc).

(** The steps of a run, taken as a function. *)
Definition or_same {A} (a : A) (o : option A) : A := default a o.
Definition eager_turn (arc : DhtArc) : Background MemHost :=
  let b := eager_start arc in
  let b := or_same b (start_turn eager_config 0 b) in
  let b := set_phase (Ready [[7]]) (set_time 2000000 b) in
  let b := check_initiated [[7]] b in
  or_same b (select (fun l => l) 1000 [MkLocalAgent [7] arc arc] b).
Definition eager_attempt (arc : DhtArc) : Background MemHost :=
  let b := eager_turn arc in or_same b (initiate eager_config [0] 1000 [9] 4 "a" b).

Lemma eager_config_ok : config_ok eager_config.
Proof. by vm_compute. Qed.

Lemma eager_run : rtc eager_step (eager_start FULL) (eager_attempt FULL).
Proof.
  eapply rtc_l; [by apply (bg_turn _ _ _ _ 0)|].
  eapply rtc_l; [by apply (bg_time _ _ _ _ 2000000)|].
  eapply rtc_l; [by eapply (bg_delay_over _ _ _ _ _ [[7]] 2000000)|].
  eapply rtc_l; [by apply (bg_check _ _ _ _ _ [[7]])|].
  eapply rtc_l; [by eapply (bg_select _ _ _ _ 1000 [[7]] [MkLocalAgent [7] FULL FULL]); vm_compute|].
  eapply rtc_l; [by eapply (bg_initiate _ _ _ _ 1000 [9] 4 [[7]] "a"); vm_compute|].
  apply rtc_refl.
Qed.

Lemma initiations_paced_witness :
  count is_attempt (log (eager_attempt FULL)) = 1 /\ at_time (eager_attempt FULL) = 2000000 /\
  least_wait eager_config * 1 <= 2000000.
Proof.
  split; [by vm_compute|]. split; [by vm_compute|].
  pose proof (initiations_paced eager_config [0] true (fun l => l) 0 eager_dht (eager_host FULL) (eager_attempt FULL)
    eager_config_ok eager_run) as Hp. exact Hp.
Defined.


(** The attempt of an instance that was dropped during its wait. *)
Lemma dropped_instance_ends_witness :
  exists b : Background MemHost, referred b = false /\ phase b = Delaying [[7]] 2000000 /\ log b = [] /\
  exists b', rtc eager_step b b' /\ log b' = [Attempted "a"] /\ count is_attempt (log b') <= 1.
Proof.
  exists (unrefer (or_same (eager_start FULL) (start_turn eager_config 0 (eager_start FULL)))).
  split_and!; [done..|]. set (b' := unrefer (eager_attempt FULL)). exists b'.
  assert (rtc eager_step (unrefer (or_same (eager_start FULL) (start_turn eager_config 0 (eager_start FULL)))) b') as Hr.
  { eapply rtc_l; [by apply (bg_time _ _ _ _ 2000000)|].
    eapply rtc_l; [by eapply (bg_delay_over _ _ _ _ _ [[7]] 2000000)|].
    eapply rtc_l; [by apply (bg_check _ _ _ _ _ [[7]])|].
    eapply rtc_l; [by eapply (bg_select _ _ _ _ 1000 [[7]] [MkLocalAgent [7] FULL FULL]); vm_compute|].
    eapply rtc_l; [by eapply (bg_initiate _ _ _ _ 1000 [9] 4 [[7]] "a"); vm_compute|].
    apply rtc_refl. }
  split_and!; [exact Hr|by vm_compute|].
  refine (dropped_instance_ends eager_config [0] true (fun l => l) _ b' _ Hr). reflexivity.
Defined.

(** An agent whose arc does not end with a sector: the arcs to initiate with
    cannot be made. *)
Lemma failures_spin_witness : exists b' : Background MemHost,
  rtc eager_step (set_force true (eager_start (Arc 0 60))) b' /\ at_time b' = 0 /\ count is_attempt (log b') = 1000.
Proof.
  refine (failures_spin eager_config [0] true (fun l => l) (set_force true (eager_start (Arc 0 60)))
    [MkLocalAgent [7] (Arc 0 60) (Arc 0 60)] "a" 1000 [9] 4 _ _ _ _ _ _ _ _ _ _ _ _ 1000);
    [reflexivity..|done|by vm_compute|vm_compute; reflexivity|vm_compute; reflexivity|vm_compute; reflexivity].
Defined.

(** An agent that joined during the wait is not among those read before it, and
    may be chosen as the peer to gossip with. *)
Definition joined_during_wait : Background MemHost :=
  let b := or_same (eager_start FULL) (start_turn eager_config 0 (eager_start FULL)) in
  let h := host (node b) in
  let peers := (inner_insert 0 1000 ∅ [demo_info 8 "ourselves" FULL] (mh_peers h)).2 in
  set_phase (Selecting [[7]])
    (set_node (set_host (MkMemHost 1000 (mh_ops h) {[ "a" := {[ "gossip:last_timestamp" := [900] ]} ]} peers
       (mh_agents h ++ [MkLocalAgent [8] FULL FULL]) [] []) (node b)) b).
Example joined_agent_selected :
  phase <$> select (fun l => l) 1000 [MkLocalAgent [7] FULL FULL] joined_during_wait = Some (Selected [[7]] "ourselves").
Proof. by vm_compute. Qed.
