(* ===== verification/MemBootstrap.v ===== *)
(** The in-memory bootstrap (crates/core/src/factories/mem_bootstrap.rs): a
    store of agent infos that all nodes of a process share, by the id of their
    test and by space, and the task with which a node reads it. *)

From S2P Require Import Prelude Id Agent Timestamp Arc GossipNode PeerStore.

Record MemBootstrapConfig : Type := MkMemBootstrapConfig { test_id : string; poll_freq_ms : Z }.
Definition default_mem_bootstrap (thread : string) : MemBootstrapConfig := MkMemBootstrapConfig thread 5000.

Abbreviation Store := (list AgentInfoSigned).
Abbreviation SpaceMap := (gmap bytes Store).
Abbreviation TestMap := (gmap string SpaceMap).

(** What is kept: infos of other agents that are not expired. *)
Definition kept (now : Timestamp) (info : option AgentInfoSigned) (a : AgentInfoSigned) : bool :=
  match info with Some info => negb (bool_decide (ai_agent a = ai_agent info)) | None => true end
  && negb (ai_expires_at a <=? now).

(** [while store.len() > 31 { store.remove(16); }], in as many rounds as there
    are infos at most. *)
Fixpoint make_room (fuel : nat) (store : Store) : Store :=
  match fuel with
  | O => store
  | S fuel => if (31 <? length store)%nat then make_room fuel (delete 16%nat store) else store
  end.

Definition stat_store (now : Timestamp) (info : option AgentInfoSigned) (store : Store) : Store :=
  let store := List.filter (kept now info) store in
  match info with
  | Some info => make_room (length store) store ++ [info]
  | None => store
  end.

Definition stat_process (now : Timestamp) (test : string) (space_id : SpaceId) (info : option AgentInfoSigned)
  (stat : TestMap) : Store * TestMap :=
  let map := default ∅ (stat !! test) in
  let store := stat_store now info (default [] (map !! space_id)) in
  (store, <[ test := <[ space_id := store ]> map ]> stat).

(** [MemBootstrap::put], and a turn of the polling task, which unwraps the
    result of the peer store: an error there ends the process. *)
Definition put_info (now : Timestamp) (test : string) (space_id : SpaceId) (info : AgentInfoSigned)
  (stat : TestMap) : TestMap := (stat_process now test space_id (Some info) stat).2.

Section poll.
Context {H : Type} `{GossipNode.PeerStore H}.

Definition unwrapped {A} (m : M H A) : M H A := fun h =>
  match m h with (Err e, h') => (Panic e, h') | r => r end.

Definition poll_store (now : Timestamp) (test : string) (space_id : SpaceId) : M (TestMap * H) unit := fun st =>
  let (info_list, stat) := stat_process now test space_id None st.1 in
  on_snd (unwrapped (ps_insert info_list)) (stat, st.2).
End poll.

(** What a call does to the store of a space. *)
Inductive StoreCall : Type := PutCall (test : string) (space_id : SpaceId) (info : AgentInfoSigned)
                            | PollCall (test : string) (space_id : SpaceId).

Definition store_call (now : Timestamp) (c : StoreCall) (stat : TestMap) : TestMap :=
  match c with
  | PutCall test space_id info => put_info now test space_id info stat
  | PollCall test space_id => (stat_process now test space_id None stat).2
  end.

Definition store_of (test : string) (space_id : SpaceId) (stat : TestMap) : Store :=
  default [] (default ∅ (stat !! test) !! space_id).

(** ** The store of a space *)

Definition agents_of (l : Store) : list AgentId := map (fun a : AgentInfoSigned => ai_agent a) l.

Lemma make_room_length n l : (length l <= n)%nat -> (length (make_room n l) <= 31)%nat.
Proof.
  revert l. induction n as [|n IH]; intros l Hl; [cbn; lia|]. cbn [make_room].
  destruct (Nat.ltb_spec 31 (length l)); [|lia]. apply IH. rewrite length_delete by (apply lookup_lt_is_Some; lia). lia.
Qed.

Lemma make_room_sublist n l : make_room n l `sublist_of` l.
Proof.
  revert l. induction n as [|n IH]; intros l; [done|]. cbn [make_room]. case_match; [|done].
  etrans; [apply IH|apply sublist_delete].
Qed.

Lemma filter_sublist {A} (f : A -> bool) l : List.filter f l `sublist_of` l.
Proof. induction l as [|x l IH]; [done|]. cbn. destruct (f x); by constructor. Qed.

Lemma stat_store_sublist now l info : exists l', stat_store now (Some info) l = l' ++ [info] /\
  l' `sublist_of` l /\ (length l' <= 31)%nat /\
  forall a : AgentInfoSigned, a ∈ l' -> ai_agent a <> ai_agent info /\ now < ai_expires_at a.
Proof.
  unfold stat_store. eexists. split; [reflexivity|]. split_and!.
  - etrans; [apply make_room_sublist|apply filter_sublist].
  - by apply make_room_length.
  - intros a Ha. eapply elem_of_sublist in Ha as Hf; [|apply make_room_sublist].
    apply list_elem_of_In, filter_In in Hf as [_ Hk]. unfold kept in Hk.
    apply andb_prop in Hk as [H1 H2]. apply negb_true_iff in H1, H2.
    apply bool_decide_eq_false in H1. apply Z.leb_gt in H2. done.
Qed.

Lemma agents_sublist l l' : l `sublist_of` l' -> agents_of l `sublist_of` agents_of l'.
Proof. induction 1; cbn; by constructor. Qed.

(** A call only changes the store of its test and space. *)
Lemma store_call_other now c stat test space_id :
  match c with PutCall t s _ | PollCall t s => (t, s) <> (test, space_id) end ->
  store_of test space_id (store_call now c stat) = store_of test space_id stat.
Proof.
  assert (Hins : forall t s (v : Store), (t, s) <> (test, space_id) ->
    store_of test space_id (<[ t := <[ s := v ]> (default ∅ (stat !! t)) ]> stat) = store_of test space_id stat).
  { intros t s v Hne. unfold store_of. destruct (decide (t = test)) as [->|Ht].
    - rewrite lookup_insert_eq. cbn. by rewrite lookup_insert_ne by congruence.
    - by rewrite lookup_insert_ne by done. }
  destruct c; cbn; intros Hne; unfold put_info, stat_process; cbn; by apply Hins.
Qed.

Lemma store_call_same now c stat test space_id info :
  match c with PutCall t s i => (t, s, Some i) | PollCall t s => (t, s, None) end = (test, space_id, info) ->
  store_of test space_id (store_call now c stat) = stat_store now info (store_of test space_id stat).
Proof.
  destruct c; cbn; intros [= -> -> <-]; unfold put_info, stat_process, store_of; cbn;
    by rewrite lookup_insert_eq; cbn; rewrite lookup_insert_eq.
Qed.

Definition call_key (c : StoreCall) : string * SpaceId * option AgentInfoSigned :=
  match c with PutCall t s i => (t, s, Some i) | PollCall t s => (t, s, None) end.

Definition store_ok (l : Store) : Prop := (length l <= 32)%nat /\ NoDup (agents_of l).

Lemma stat_store_ok now info l : store_ok l -> store_ok (stat_store now info l).
Proof.
  intros [Hlen Hnd]. destruct info as [info|].
  - destruct (stat_store_sublist now l info) as (l' & -> & Hsub & Hl & Ha). split; [rewrite length_app; cbn; lia|].
    unfold agents_of. rewrite map_app. apply NoDup_app. split; [|split; [|apply NoDup_singleton]].
    + eapply sublist_NoDup; [exact Hnd|]. by apply agents_sublist.
    + intros x Hx%list_elem_of_fmap Hi%list_elem_of_singleton. destruct Hx as (a & -> & Hin). by destruct (Ha a Hin).
  - pose proof (filter_sublist (kept now None) l) as Hsub. split.
    + pose proof (sublist_length _ _ Hsub). unfold stat_store. lia.
    + eapply sublist_NoDup; [exact Hnd|]. by apply agents_sublist.
Qed.

(** The calls of all nodes, each with the time it reads. *)
Definition store_calls (l : list (Timestamp * StoreCall)) (stat : TestMap) : TestMap :=
  foldl (fun stat c => store_call c.1 c.2 stat) stat l.

(** Whatever the nodes of a process put and read, the store of a space
    holds at most 32 infos, one for each agent. *)
Theorem store_bounded l test space_id : store_ok (store_of test space_id (store_calls l ∅)).
Proof.
  assert (Hok : forall stat, store_ok (store_of test space_id stat) -> store_ok (store_of test space_id (store_calls l stat))).
  { induction l as [|[now c] l IH]; intros stat Hs; [done|]. cbn. apply IH.
    destruct (decide ((call_key c).1 = (test, space_id))) as [E|E].
    - rewrite (store_call_same now c stat test space_id (call_key c).2) by (destruct c; cbn in *; congruence).
      by apply stat_store_ok.
    - rewrite store_call_other by (by destruct c). done. }
  apply Hok. unfold store_of. rewrite lookup_empty. cbn. rewrite lookup_empty. split; [cbn; lia|constructor].
Qed.

(** ** A put and the reads after it *)

(** The info is in the store, with at most [n] behind it. *)
Definition listed (n : nat) (info : AgentInfoSigned) (l : Store) : Prop :=
  exists l1 l2, l = l1 ++ info :: l2 /\ (length l2 <= n)%nat.

Lemma listed_make_room fuel n info l : (n <= 14)%nat -> listed n info l -> listed n info (make_room fuel l).
Proof.
  intros Hn. revert l. induction fuel as [|fuel IH]; intros l Hl; [done|]. cbn [make_room].
  destruct (Nat.ltb_spec 31 (length l)); [|done]. apply IH. destruct Hl as (l1 & l2 & -> & Hl2).
  rewrite length_app in *. cbn in *. exists (delete 16%nat l1), l2. split; [|done].
  rewrite !delete_take_drop, take_app_le, drop_app_le by lia. by rewrite <- app_assoc.
Qed.

Lemma listed_filter f n (info : AgentInfoSigned) l : f info = true -> listed n info l -> listed n info (List.filter f l).
Proof.
  intros Hf (l1 & l2 & -> & Hl2). rewrite List.filter_app. cbn. rewrite Hf. eexists _, _. split; [reflexivity|].
  pose proof (sublist_length _ _ (filter_sublist f l2)). lia.
Qed.

(** The later calls that matter to an info: the puts of its space. *)
Definition puts_of (test : string) (space_id : SpaceId) (l : list (Timestamp * StoreCall)) : nat :=
  length (List.filter (fun c => match c.2 with PutCall t s _ => bool_decide (t = test /\ s = space_id) | _ => false end) l).

Definition leaves (info : AgentInfoSigned) (test : string) (space_id : SpaceId) (c : Timestamp * StoreCall) : Prop :=
  c.1 < ai_expires_at info /\ forall i, c.2 = PutCall test space_id i -> ai_agent i <> ai_agent info.

Lemma listed_calls info test space_id l n stat : (n + puts_of test space_id l <= 15)%nat ->
  Forall (leaves info test space_id) l -> listed n info (store_of test space_id stat) ->
  listed (n + puts_of test space_id l) info (store_of test space_id (store_calls l stat)).
Proof.
  revert n stat. induction l as [|[now c] l IH]; intros n stat Hn Hl Hs; [by rewrite Nat.add_0_r|].
  apply Forall_cons in Hl as [[Hexp Hne] Hl]. cbn in Hexp, Hne. cbn [store_calls foldl fst snd].
  destruct c as [t s i|t s]; cbn [puts_of List.filter fst snd] in *.
  - unfold puts_of in *. cbn [fst snd List.filter] in *. case_bool_decide as E; cbn [length] in *.
    + destruct E as [-> ->]. rewrite Nat.add_succ_r in *. apply (IH (S n)); [cbn; lia|done|].
      rewrite (store_call_same now (PutCall test space_id i) stat test space_id (Some i)) by done. unfold stat_store.
      match goal with |- listed _ _ (?m ++ _) => assert (listed n info m) as (l1 & l2 & -> & H2) end.
      { apply listed_make_room; [lia|]. apply listed_filter; [|done]. unfold kept. apply andb_true_intro. split.
        - apply negb_true_iff, bool_decide_eq_false. intros E. by destruct (Hne i eq_refl).
        - apply negb_true_iff, Z.leb_gt. done. }
      exists l1, (l2 ++ [i]). rewrite length_app. cbn. split; [by rewrite <- app_assoc|lia].
    + apply IH; [done..|]. by rewrite store_call_other by (cbn; intros [= -> ->]; tauto).
  - apply IH; [done..|]. destruct (decide ((t, s) = (test, space_id))) as [[= -> ->]|E].
    + rewrite (store_call_same now (PollCall test space_id) stat test space_id None) by done.
      apply listed_filter; [|done]. unfold kept. cbn. by apply negb_true_iff, Z.leb_gt.
    + by rewrite store_call_other.
Qed.

(** An info that a node puts is given to every other node of its test and
    space that polls before it expires, as long as its agent puts no other and
    at most fifteen infos of the space are put in between; then the node that
    polls hands it to its peer store, with nothing that is expired. *)
Theorem put_found_by_polls {H} `{GossipNode.PeerStore H} t0 test space_id (info : AgentInfoSigned) l now stat (h : H) :
  t0 < ai_expires_at info -> now < ai_expires_at info ->
  Forall (leaves info test space_id) l -> (puts_of test space_id l <= 15)%nat ->
  let stat' := store_calls l (put_info t0 test space_id info stat) in
  exists infos, poll_store now test space_id (stat', h) =
    on_snd (unwrapped (ps_insert infos)) ((stat_process now test space_id None stat').2, h) /\
    info ∈ infos /\ forall a : AgentInfoSigned, a ∈ infos -> now < ai_expires_at a.
Proof.
  intros Ht0 Hnow Hl Hn stat'. eexists. split; [reflexivity|].
  assert (Hst : listed (0 + puts_of test space_id l) info (store_of test space_id stat')).
  { apply listed_calls; [done..|].
    change (put_info t0 test space_id info stat) with (store_call t0 (PutCall test space_id info) stat).
    rewrite (store_call_same t0 (PutCall test space_id info) stat test space_id (Some info)) by done.
    destruct (stat_store_sublist t0 (store_of test space_id stat) info) as (l' & -> & _). by exists l', []. }
  unfold stat_process. cbn [fst]. fold (store_of test space_id stat'). unfold stat_store. split.
  - apply (listed_filter (kept now None)) in Hst as (l1 & l2 & -> & _).
    + apply elem_of_app. right. by left.
    + unfold kept. cbn. by apply negb_true_iff, Z.leb_gt.
  - intros a [_ Hk]%list_elem_of_In%filter_In. unfold kept in Hk. cbn in Hk. by apply negb_true_iff, Z.leb_gt in Hk.
Qed.

(** ** At one space *)

Definition small_info (n : Z) : AgentInfoSigned :=
  MkAgentInfoSigned (MkAgentInfo [n] [0] 10 5000 false (Some "ws://a"%string) Empty) "" [].

(** Sixteen other infos fit; one more and the first put after the oldest
    sixteen is gone. *)
Definition other_puts (n : nat) : list (Timestamp * StoreCall) :=
  map (fun i => (100, PutCall "t" [0] (small_info (Z.of_nat i)))) (seq 1 n).
Definition full_stat : TestMap :=
  store_calls (map (fun i => (100, PutCall "t" [0] (small_info (Z.of_nat i)))) (seq 100 32)) ∅.

(** A peer store that keeps what it is given. *)
#[local] Instance list_store : GossipNode.PeerStore Store :=
  Build_PeerStore _ (fun l s => (Ok tt, s ++ l)) (fun _ => ret tt) (fun _ => ret None) (fun s => (Ok s, s))
    (fun _ => ret []) (fun _ _ => ret []) (fun _ => ret []).

Lemma put_found_by_polls_witness :
  exists infos, poll_store 200 "t" [0] (store_calls (other_puts 15) (put_info 50 "t" [0] (small_info 99) full_stat), []) =
    on_snd (unwrapped (ps_insert infos)) ((stat_process 200 "t" [0] None
      (store_calls (other_puts 15) (put_info 50 "t" [0] (small_info 99) full_stat))).2, []) /\
    small_info 99 ∈ infos /\ forall a : AgentInfoSigned, a ∈ infos -> 200 < ai_expires_at a.
Proof.
  apply (put_found_by_polls 50 "t" [0] (small_info 99) (other_puts 15) 200 full_stat []); [reflexivity|reflexivity| |].
  - unfold other_puts. cbn. repeat (apply Forall_cons; split; [split; [reflexivity|by intros i [= <-]]|]). apply Forall_nil_2.
  - vm_compute. lia.
Defined.

Example sixteenth_put_drops_it :
  small_info 99 ∉ (stat_process 200 "t" [0] None
    (store_calls (other_puts 16) (put_info 50 "t" [0] (small_info 99) full_stat))).1.
Proof. apply (bool_decide_eq_true_1 (_ ∉ _)). by vm_compute. Qed.

(** Infos are not compared by age: a put of an older info replaces a newer. *)
Definition dated_info (created : Z) : AgentInfoSigned :=
  MkAgentInfoSigned (MkAgentInfo [1] [0] created 5000 false None Empty) "" [].
Example older_put_replaces :
  store_of "t" [0] (store_calls [(50, PutCall "t" [0] (dated_info 20)); (60, PutCall "t" [0] (dated_info 10))] ∅) =
  [dated_info 10].
Proof. by vm_compute. Qed.
