(* ===== verification/Builder.v ===== *)
(** * The builder and the creation of a space

    The builder (crates/api/src/builder.rs) holds a configuration and a factory
    for each module; the factory of spaces
    (crates/core/src/factories/core_space.rs, [CoreSpaceFactory::create]) makes
    the services of a space one after the other and registers the space with the
    transport.  What the factories do is an interface over a host. *)
From S2P Require Import Prelude Timestamp Id Agent GossipProtocol GossipWire PeerStore Access Transport Space.
From S2P Require Config.
Import Config(Config, merge_config_overrides, mark_defaults_set, mark_validated, mark_runtime, did_validate).

(** ** The builder *)

Inductive Factory : Type :=
  | FKitsune | FSpace | FPeerStore | FBootstrap | FFetch | FReport | FTransport | FOpStore
  | FPeerMetaStore | FGossip | FLocalAgentStore | FPublish | FBlocks | FKnownPeers.

(** The order in which they are asked. *)
Definition factories : list Factory :=
  [FKitsune; FSpace; FPeerStore; FBootstrap; FFetch; FReport; FTransport; FOpStore;
   FPeerMetaStore; FGossip; FLocalAgentStore; FPublish; FBlocks; FKnownPeers].

Class Factories (V : Type) := {
  default_config : Factory -> M (Config V) unit;
  validates : Factory -> Config V -> res unit;
}.

Record Builder (V : Type) : Type := MkBuilder {
  b_config : Config V;
  auth_material_bootstrap : option bytes;
}.
Arguments MkBuilder {V}.
Arguments b_config {V}.
Arguments auth_material_bootstrap {V}.

Section builder.
Context {V : Type} `{Factories V}.
Implicit Types (c : Config V) (b : Builder V).

Definition with_default_config : M (Config V) unit :=
  for_each factories default_config ;;* modify mark_defaults_set.

(** The first error ends it; the mark is set when there is none. *)
Definition validate_config : M (Config V) unit := fun c =>
  (for_each factories (fun f => lift_res (validates f c)) ;;* modify (fun c => (mark_validated c).2)) c.

(** The configuration of a clone, with the overrides merged in. *)
Definition with_config_overrides b (overrides : Config V) : res (Builder V) :=
  match validate_config (merge_config_overrides (b_config b) overrides) with
  | (Ok _, c) => Ok (MkBuilder c (auth_material_bootstrap b))
  | (Err e, _) => Err e
  | (Panic e, _) => Panic e
  end.

(** [build]: the configuration the instance is made with. *)
Definition build b : res (Config V) :=
  let (already, c) := mark_validated (b_config b) in
  match (if already then (Ok tt, c) else validate_config c) with
  | (Ok _, c) => Ok (mark_runtime c)
  | (Err e, _) => Err e
  | (Panic e, _) => Panic e
  end.

(** Every factory accepts a configuration. *)
Definition accepted c : Prop := Forall (fun f => validates f c = Ok tt) factories.

Lemma for_each_lift {A} (f : A -> res unit) (l : list A) (c : Config V) :
  (for_each l (fun x => lift_res (f x)) c).2 = c /\
  ((for_each l (fun x => lift_res (f x)) c).1 = Ok tt <-> Forall (fun x => f x = Ok tt) l).
Proof.
  induction l as [|x l [IH1 IH2]]; [by split|]. cbn [for_each].
  destruct (f x) as [[]|e|e] eqn:E.
  - rewrite (bind_after (lift_res (Ok ())) _ c tt c eq_refl). split; [done|]. rewrite IH2, Forall_cons. tauto.
  - split; [done|]. split; [done|]. intros [? _]%Forall_cons. congruence.
  - split; [done|]. split; [done|]. intros [? _]%Forall_cons. congruence.
Qed.

Lemma validate_config_exact c :
  (accepted c -> validate_config c = (Ok tt, (mark_validated c).2)) /\
  ((validate_config c).1 = Ok tt -> accepted c).
Proof.
  unfold validate_config, accepted. destruct (for_each_lift (fun f => validates f c) factories c) as [H2 H1]. unfold bind.
  destruct (for_each factories _ c) as [[[]|e|e] c'] eqn:E; cbn in *; subst c'.
  - split; [done|]. intros _. by apply H1.
  - split; [intros Ha; by apply H1 in Ha|done].
  - split; [intros Ha; by apply H1 in Ha|done].
Qed.
End builder.

(** ** The services of a space *)

Inductive Service : Type :=
  | SvBlocks | SvKnownPeers | SvPeerStore | SvPeerAccess | SvBootstrap | SvLocalAgents | SvOpStore
  | SvPeerMeta | SvFetch | SvPublish | SvGossip.

Class SpaceServices (V H : Type) := {
  bootstrap_server_url : Config V -> option string;
  space_config : Config V -> res CoreSpaceConfig;
  configure_for_space : SpaceId -> Config V -> M H unit;
  create_service : Service -> Builder V -> SpaceId -> M H unit;
  report_space : SpaceId -> M H unit;
  register_space : SpaceId -> M H (option Url);
}.

Section create.
Context {V H : Type} `{Factories V} `{SpaceServices V H}.
Implicit Types (b : Builder V).

(** The builder of the space: one of its own if it overrides anything, without
    the global credential if it names another server. *)
Definition space_builder b (config_override : option (Config V)) : res (Builder V) :=
  match config_override with
  | Some overrides =>
      let? sb := with_config_overrides b overrides in
      Ok (MkBuilder (b_config sb)
        (if bootstrap_server_customized (bootstrap_server_url (b_config b)) (bootstrap_server_url (b_config sb))
         then None else auth_material_bootstrap sb))
  | None => Ok b
  end.

Definition create_services b space_id : M H unit :=
  for_each [SvBlocks; SvKnownPeers; SvPeerStore; SvPeerAccess; SvBootstrap; SvLocalAgents]
    (fun s => create_service s b space_id) ;;*
  report_space space_id ;;*
  for_each [SvOpStore; SvPeerMeta; SvFetch; SvPublish; SvGossip] (fun s => create_service s b space_id).

Definition create_core_space b (config_override : option (Config V)) space_id
  : M H (CoreSpaceConfig * option Url) :=
  let* sb := lift_res (space_builder b config_override) in
  match config_override with Some _ => configure_for_space space_id (b_config sb) | None => ret tt end ;;*
  let* config := lift_res (space_config (b_config sb)) in
  create_services sb space_id ;;*
  let* current_url := register_space space_id in
  ret (config, current_url).
End create.

(** What the host keeps of the spaces with a configuration of their own in the
    transport. *)
Class SpaceServicesLaws (V H : Type) `{SpaceServices V H} := {
  configured : H -> SpaceId -> Prop;
  configure_adds s c h h' : configure_for_space s c h = (Ok tt, h') -> configured h' s;
  create_service_keeps v b s h t : configured h t -> configured (create_service v b s h).2 t;
  report_keeps s h t : configured h t -> configured (report_space s h).2 t;
  register_keeps s h t : configured h t -> configured (register_space s h).2 t;
}.

(** Every call of a computation keeps what holds of the host. *)
Definition keeps_true {H A} (P : H -> Prop) (m : M H A) : Prop := forall h, P h -> P (m h).2.

Lemma made_bind {H A B} (P : H -> Prop) (m : M H A) (k : A -> M H B) :
  keeps_true P m -> (forall a, keeps_true P (k a)) -> keeps_true P (bind m k).
Proof. intros Hm Hk h Hh. unfold bind. specialize (Hm h Hh). destruct (m h) as [[a|e|e] h']; [by apply Hk|exact Hm..]. Qed.
Lemma keeps_for_each {H A} (P : H -> Prop) (l : list A) (f : A -> M H unit) :
  (forall a, keeps_true P (f a)) -> keeps_true P (for_each l f).
Proof. intros Hf. induction l as [|x l IH]; [by intros h|]. cbn. by apply made_bind. Qed.

Section theorems.
Context {V H : Type} `{Factories V} `{SpaceServicesLaws V H}.
Implicit Types (b : Builder V).

Lemma with_overrides_accepted b o sb : with_config_overrides b o = Ok sb ->
  accepted (merge_config_overrides (b_config b) o) /\
  b_config sb = (mark_validated (merge_config_overrides (b_config b) o)).2 /\
  auth_material_bootstrap sb = auth_material_bootstrap b.
Proof.
  unfold with_config_overrides. destruct (validate_config_exact (merge_config_overrides (b_config b) o)) as [Ha Hr].
  destruct (validate_config _) as [[[]|e|e] c] eqn:E; [|done..]. intros [= <-].
  assert (Hacc : accepted (merge_config_overrides (b_config b) o)) by by apply Hr.
  split; [done|]. injection (Ha Hacc) as ->. done.
Qed.

(** A space that is created with overrides runs with the merged
    configuration, which every factory has accepted, and is given the global
    credential only if it uses the server of the global configuration or there
    is none; one without overrides gets the builder as it is. *)
Theorem space_builder_exact b o sb : space_builder b o = Ok sb ->
  match o with
  | None => sb = b
  | Some o =>
      let c := merge_config_overrides (b_config b) o in
      accepted c /\ b_config sb = (mark_validated c).2 /\
      auth_material_bootstrap sb =
        space_auth_material (bootstrap_server_url (b_config b)) (Some (bootstrap_server_url (b_config sb)))
          (auth_material_bootstrap b)
  end.
Proof.
  unfold space_builder. destruct o as [o|]; [|by intros [= <-]].
  destruct (with_config_overrides b o) as [sb0|e|e] eqn:E; [|done..]. cbn. intros [= <-].
  destruct (with_overrides_accepted _ _ _ E) as (Ha & Hc & Hauth). split_and!; [done..|].
  cbn. by rewrite Hauth.
Qed.

(** An instance is made with a configuration that every factory has accepted,
    by the last validation of the builder or by this one. *)
Theorem build_accepted b c : build b = Ok c ->
  c = mark_runtime (mark_validated (b_config b)).2 /\
  (did_validate (b_config b) = false -> accepted (mark_validated (b_config b)).2).
Proof.
  unfold build. destruct (mark_validated (b_config b)) as [already c1] eqn:E.
  assert (already = did_validate (b_config b)) as Ha by (unfold mark_validated in E; congruence).
  destruct already; [intros [= <-]; by rewrite <- Ha|].
  destruct (validate_config_exact c1) as [Hacc Hok].
  destruct (validate_config c1) as [[[]|e|e] c2]; [|done..]. intros [= <-].
  specialize (Hok eq_refl). injection (Hacc Hok) as ->. split; [|done].
  unfold mark_validated in E. injection E as _ <-. done.
Qed.

(** When the creation of a space with overrides fails after the transport
    was configured for it, the transport stays configured for a space that
    there is not: nothing undoes it. *)
Theorem failed_creation_stays_configured b o space h sb h1 e h' :
  space_builder b (Some o) = Ok sb -> configure_for_space space (b_config sb) h = (Ok tt, h1) ->
  create_core_space b (Some o) space h = (Err e, h') -> configured h' space.
Proof.
  intros Hsb Hc Hcr. unfold create_core_space in Hcr.
  rewrite (bind_after (lift_res (space_builder b (Some o))) _ h sb h) in Hcr by (unfold lift_res; by rewrite Hsb).
  rewrite (bind_after (configure_for_space space (b_config sb)) _ h tt h1 Hc) in Hcr.
  change h' with (@Err (CoreSpaceConfig * option Url) e, h').2. rewrite <- Hcr.
  match goal with |- configured (?m h1).2 _ => enough (keeps_true (fun h => configured h space) m) as Hk end.
  { apply Hk. by eapply configure_adds. }
  apply made_bind; [by intros x|]. intros config. apply made_bind.
  - unfold create_services. apply made_bind; [apply keeps_for_each; intros v x Hx; by apply create_service_keeps|intros _].
    apply made_bind; [intros x Hx; by apply report_keeps|intros _].
    apply keeps_for_each. intros v x Hx. by apply create_service_keeps.
  - intros _. apply made_bind; [intros x Hx; by apply register_keeps|by intros a x].
Qed.
End theorems.

(** ** The address of the space while it is made

    The handler of the space is registered, and the address of the backend read,
    while the space is not yet one its weak reference leads to.  A change of the
    backend's address interleaves with this. *)
Inductive WindowPart : Type :=
  | WAddress | WSnapshot | WTell
  | WPut | WRead | WSet | WFinish.

#[local] Instance WindowPart_eq_dec : EqDecision WindowPart.
Proof. solve_decision. Defined.

Record Window : Type := MkWindow {
  backend_url : option Url;
  handler_put : bool;
  in_snapshot : bool;
  read_url : option Url;
  inner_url : option Url;
  finished : bool;
}.

Definition window_part (new : Url) (p : WindowPart) (w : Window) : Window :=
  match p with
  | WAddress => MkWindow (Some new) (handler_put w) (in_snapshot w) (read_url w) (inner_url w) (finished w)
  | WSnapshot => MkWindow (backend_url w) (handler_put w) (handler_put w) (read_url w) (inner_url w) (finished w)
  | WTell => MkWindow (backend_url w) (handler_put w) (in_snapshot w) (read_url w)
      (if in_snapshot w && finished w then Some new else inner_url w) (finished w)
  | WPut => MkWindow (backend_url w) true (in_snapshot w) (read_url w) (inner_url w) (finished w)
  | WRead => MkWindow (backend_url w) (handler_put w) (in_snapshot w) (backend_url w) (inner_url w) (finished w)
  | WSet => MkWindow (backend_url w) (handler_put w) (in_snapshot w) (read_url w) (read_url w) (finished w)
  | WFinish => MkWindow (backend_url w) (handler_put w) (in_snapshot w) (read_url w) (inner_url w) true
  end.

Definition window_parts new (l : list WindowPart) (w : Window) : Window := foldl (fun w p => window_part new p w) w l.

Definition address_changes : list WindowPart := [WAddress; WSnapshot; WTell].
Definition space_made : list WindowPart := [WPut; WRead; WSet; WFinish].

Fixpoint comes_before (a b : WindowPart) (l : list WindowPart) : bool :=
  match l with
  | [] => false
  | x :: l => if bool_decide (x = a) then true else if bool_decide (x = b) then false else comes_before a b l
  end.

(** Of a change of the backend's address while a space is made, the space
    has the new address in the end exactly if the address had changed when the
    registration read it, or the space was finished when its handler was told;
    otherwise it keeps the old one, which the backend no longer has. *)
Theorem address_lost_in_creation new old l : interleaving address_changes space_made l ->
  let w := window_parts new l (MkWindow old false false None None false) in
  backend_url w = Some new /\ finished w = true /\
  inner_url w = if comes_before WAddress WRead l || comes_before WFinish WTell l then Some new else old.
Proof.
  unfold address_changes, space_made. intros Hl.
  repeat match goal with H : interleaving _ _ _ |- _ => inversion H; clear H; subst end; by cbn.
Qed.

Lemma address_lost_in_creation_witness :
  let l := [WPut; WRead; WAddress; WSnapshot; WTell; WSet; WFinish] in
  let w := window_parts "ws://new" l (MkWindow (Some "ws://old"%string) false false None None false) in
  backend_url w = Some "ws://new"%string /\ finished w = true /\ inner_url w = Some "ws://old"%string.
Proof.
  apply (address_lost_in_creation "ws://new" (Some "ws://old"%string) [WPut; WRead; WAddress; WSnapshot; WTell; WSet; WFinish]).
  repeat constructor.
Defined.
