(* ===== verification/Summary.v ===== *)
(** The summary of the gossip state (crates/gossip/src/summary.rs, with the
    types of crates/api/src/gossip.rs): what a node reports of its rounds, of
    the DHT for the arcs its agents aim at, and of its peers. *)

From Stdlib Require Import Ascii.
From stdpp Require Import pretty.
From S2P Require Import Prelude Arc Timestamp Id Combine ArcSet OpStore MemOpStore.
From S2P Require Import TimePartition HashPartition HashQueries Snapshot Dht Agent PeerMeta.
From S2P Require Import GossipNode GossipTarget Space.
From S2P Require Import PeerStore IrohUrl GossipDemo TimeProperties DhtWitness.
Import Concrete.

#[local] Set Default Proof Using "Type*".

(** ** The types of the report *)

Record DhtSegmentState : Type := MkSegment {
  disc_top_hash_of : bytes;
  disc_boundary_of : Timestamp;
  ring_top_hashes_of : list bytes;
}.

Record PeerMeta : Type := MkPeerMeta {
  pr_last_gossip_timestamp : option Timestamp;
  pr_new_ops_bookmark : option Timestamp;
  pr_peer_behavior_errors : option Z;
  pr_local_errors : option Z;
  pr_peer_busy : option Z;
  pr_peer_terminated : option Z;
  pr_completed_rounds : option Z;
  pr_peer_timeouts : option Z;
  pr_dht_op_count : option Z;
  pr_is_tombstone : bool;
  pr_storage_arc : DhtArc;
}.

(** The rounds are reported by the URL of the peer. *)
Record GossipStateSummary : Type := MkSummary {
  sum_initiated_round : option Url;
  sum_accepted_rounds : list Url;
  sum_dht_summary : gmap string DhtSegmentState;
  sum_peer_meta : gmap Url PeerMeta;
  sum_local_op_count : Z;
}.

(** The key of an arc: [format!("{start}..{end}")]. *)
Definition segment_key (arc : DhtArc) : res string :=
  match arc with
  | Arc s e => Ok (pretty s +:+ ".." +:+ pretty e)%string
  | Empty => Err "empty arc"
  end.

(** ** [K2Gossip::summary]

    The call holds no lock between its reads; here it is one step. *)

Section summary.
Context {H : Type} `{GossipHost H} `{SerdeNum}.

Definition arc_summary (arc : DhtArc) : GM (K2Gossip H) (string * DhtSegmentState) :=
  let! arc_set := gpure (new [arc]) in
  let! snapshot := read_dht (fun d => snapshot_minimal d arc_set) in
  match snapshot with
  | Minimal disc_top_hash disc_boundary ring_top_hashes =>
      let! first := gpure (ok_or "empty arc set" (head (as_arcs arc_set))) in
      let! key := gpure (segment_key first) in
      gret (key, MkSegment disc_top_hash disc_boundary ring_top_hashes)
  | _ => glift (GPanic "unexpected snapshot type")
  end.

Fixpoint dht_summary_of (arcs : list DhtArc) (dht_summary : gmap string DhtSegmentState)
  : GM (K2Gossip H) (gmap string DhtSegmentState) :=
  match arcs with
  | [] => gret dht_summary
  | arc :: arcs =>
      let! kv := arc_summary arc in
      dht_summary_of arcs (<[ kv.1 := kv.2 ]> dht_summary)
  end.

Definition peer_meta_of (url : Url) (agent : AgentInfoSigned) : M H PeerMeta :=
  let* a := last_gossip_timestamp url in
  let* b := new_ops_bookmark url in
  let* c := meta_get TU32 url "gossip:peer_behavior_errors" in
  let* d := meta_get TU32 url "gossip:local_errors" in
  let* e := meta_get TU32 url "gossip:peer_busy" in
  let* f := meta_get TU32 url "gossip:peer_terminated" in
  let* g := meta_get TU32 url "gossip:completed_rounds" in
  let* h := meta_get TU32 url "gossip:peer_timeouts" in
  let* i := peer_dht_op_count url in
  ret (MkPeerMeta a b c d e f g h i (ai_is_tombstone agent) (ai_storage_arc agent)).

Fixpoint peer_metas (local_agents : list LocalAgent) (agents : list AgentInfoSigned)
  (peer_meta : gmap Url PeerMeta) : M H (gmap Url PeerMeta) :=
  match agents with
  | [] => ret peer_meta
  | agent :: agents =>
      if existsb (fun l => bool_decide (la_agent l = ai_agent agent)) local_agents
      then peer_metas local_agents agents peer_meta
      else match ai_url agent with
           | None => peer_metas local_agents agents peer_meta
           | Some url =>
               let* meta := peer_meta_of url agent in
               peer_metas local_agents agents (<[ url := meta ]> peer_meta)
           end
  end.

Definition summary (include_dht_summary : bool) : GM (K2Gossip H) GossipStateSummary :=
  let! local_op_count := ggets (fun n => op_count (dht n)) in
  let! initiated_round := ggets (fun n => session_with_peer <$> initiated_round_state n) in
  let! accepted_rounds := ggets (fun n => (map_to_list (accepted_round_states n)).*1) in
  let! local_agents := on_host las_get_all in
  let! dht_summary :=
    if include_dht_summary then
      let! current_arc_set := gpure (new (map tgt_storage_arc local_agents)) in
      dht_summary_of (as_arcs current_arc_set) ∅
    else gret ∅ in
  let! agents := on_host ps_get_all in
  let! peer_meta := on_host (peer_metas local_agents agents ∅) in
  gret (MkSummary initiated_round accepted_rounds dht_summary peer_meta local_op_count).
End summary.

(** ** Keys of arcs *)

Lemma split_at_dot a a' b b' : free_of "." a = true -> free_of "." a' = true ->
  (a +:+ String "." b = a' +:+ String "." b')%string -> a = a' /\ b = b'.
Proof.
  revert a'. induction a as [|c a IH]; intros [|c' a'] Ha Ha' E.
  - by injection E.
  - injection E as <- _. discriminate Ha'.
  - injection E as -> _. discriminate Ha.
  - injection E as -> E. cbn [free_of] in Ha, Ha'. rewrite andb_true_iff in Ha, Ha'.
    by destruct (IH a' (proj2 Ha) (proj2 Ha') E) as [-> ->].
Qed.

Lemma no_dot n : 0 <= n -> free_of "." (pretty n) = true.
Proof. apply free_of_pretty. intros d. unfold pretty_N_char. by repeat case_match. Qed.

Lemma segment_key_inj s e s' e' : 0 <= s -> 0 <= s' ->
  segment_key (Arc s e) = segment_key (Arc s' e') -> s = s' /\ e = e'.
Proof.
  intros Hs Hs' E. injection E as E. cbn in E.
  apply split_at_dot in E as [E1 E2]; [|by apply no_dot..].
  injection E2 as E2. split; by apply (inj pretty).
Qed.

(** ** The arcs of a sector set, one at a time *)

(** A run of sectors, as an arc. *)
Definition piece (arc : DhtArc) : Prop :=
  exists a b, 0 <= a <= b /\ b < 512 /\ arc = run_arc a b.

Lemma FULL_run : FULL = run_arc 0 511.
Proof. reflexivity. Qed.

Lemma runs_pieces a b l : 0 <= a <= b -> StronglySorted Z.lt (b :: l) ->
  Forall (fun x => x < 512) (b :: l) -> NoDup (runs a b l) /\
  Forall (fun arc => exists c d, a <= c <= d /\ d < 512 /\ arc = run_arc c d) (runs a b l).
Proof.
  revert a b. induction l as [|c l IH]; intros a b Hab Hs Hf.
  - apply Forall_cons in Hf as [Hb _]. cbn. split; [apply NoDup_singleton|].
    apply Forall_singleton. exists a, b. split_and!; done || lia.
  - apply Forall_cons in Hf as [Hb Hf]. inversion_clear Hs as [|?? Hs' Hlt].
    apply Forall_cons in Hlt as [Hbc Hlt]. cbn [runs].
    destruct (Z.eqb_spec (b + 1) c) as [<-|Hne]; [apply IH; [lia|done..]|].
    destruct (IH c c) as (H2 & H3); [lia|done..|]. split.
    + constructor; [|done]. intros Hin. rewrite Forall_forall in H3.
      destruct (H3 _ Hin) as (c' & d' & Hc & Hd & E).
      rewrite !run_arc_eq in E by lia. injection E as E _. rewrite SECTOR_SIZE_val in E. lia.
    + constructor; [exists a, b; split_and!; done || lia|].
      eapply Forall_impl; [exact H3|]. intros x (c' & d' & Hc & Hd & ->).
      exists c', d'. split_and!; done || lia.
Qed.

Lemma as_arcs_pieces s : arc_set_wf s -> Forall piece (as_arcs s) /\ NoDup (as_arcs s).
Proof.
  intros Hw. unfold as_arcs. case_bool_decide as He; [split; constructor|].
  destruct (Nat.eqb_spec (size (inner s)) 512) as [Hsz|Hsz].
  { split; [|apply NoDup_singleton]. apply Forall_singleton. exists 0, 511. by rewrite FULL_run. }
  pose proof (merge_sort_Permutation Z.le (elements (inner s))) as Hp.
  pose proof (StronglySorted_merge_sort Z.le (elements (inner s))) as Hs.
  destruct (merge_sort Z.le (elements (inner s))) as [|a l] eqn:E; [split; constructor|].
  assert (forall x, x ∈ a :: l -> 0 <= x < 512) as Hel
    by (intros x; rewrite Hp, elem_of_elements; apply Hw).
  pose proof (Hel a (list_elem_of_here _ _)) as Ha.
  destruct (runs_pieces a a l) as (H2 & H3); [lia|..].
  - apply StronglySorted_lt_of_le; [done|]. rewrite Hp. apply NoDup_elements.
  - apply Forall_forall. intros x Hx. by apply Hel.
  - split; [|done]. eapply Forall_impl; [exact H3|].
    intros arc (c & d & Hc & Hd & ->). exists c, d. split_and!; done || lia.
Qed.

Lemma runs_of_run a b n : runs a b (seqZ (b + 1) (Z.of_nat n)) = [run_arc a (b + Z.of_nat n)].
Proof.
  revert b. induction n as [|n IH]; intros b; [by rewrite seqZ_nil, Z.add_0_r by lia|].
  rewrite seqZ_cons by lia. cbn [runs]. rewrite Z.eqb_refl.
  replace (Z.pred (Z.of_nat (S n))) with (Z.of_nat n) by lia.
  replace (Z.succ (b + 1)) with (b + 1 + 1) by lia. rewrite IH. f_equal. f_equal. lia.
Qed.

Lemma sorted_seqZ a n : StronglySorted Z.le (seqZ a (Z.of_nat n)).
Proof.
  revert a. induction n as [|n IH]; intros a; [by rewrite seqZ_nil by lia; constructor|].
  rewrite seqZ_cons by lia. replace (Z.pred (Z.of_nat (S n))) with (Z.of_nat n) by lia.
  constructor; [apply IH|]. apply Forall_forall. intros x Hx. apply elem_of_seqZ in Hx. lia.
Qed.

(** A piece is a sector set of its own, and the only arc of it. *)
Lemma piece_alone arc : piece arc -> exists set,
  new [arc] = Ok set /\ set_ok set /\ as_arcs set = [arc].
Proof.
  intros (a & b & Hab & Hb & ->). destruct (run_arc_aligned a b) as [Hal Hsec]; [done..|].
  exists (MkArcSet (list_to_set (zrange a (b + 1)))).
  assert (size (list_to_set (zrange a (b + 1)) : gset Z) = Z.to_nat (b + 1 - a)) as Hsize.
  { unfold zrange. rewrite size_list_to_set by apply NoDup_seqZ. by rewrite length_seqZ. }
  split_and!.
  - rewrite new_spec by (by apply Forall_singleton). cbn [map].
    by rewrite union_list_cons, union_list_nil, (right_id_L ∅ (∪)), Hsec.
  - split; [intros x; cbn; rewrite elem_of_list_to_set, elem_of_zrange; lia|].
    cbn. intros E. rewrite E, size_empty in Hsize. lia.
  - unfold as_arcs. cbn [inner]. rewrite bool_decide_false by (intros E; rewrite E, size_empty in Hsize; lia).
    rewrite Hsize. destruct (Nat.eqb_spec (Z.to_nat (b + 1 - a)) 512) as [E|_].
    { rewrite FULL_run. repeat f_equal; lia. }
    replace (merge_sort Z.le (elements _)) with (zrange a (b + 1)).
    + unfold zrange. replace (b + 1 - a) with (Z.of_nat (S (Z.to_nat (b - a)))) by lia.
      rewrite seqZ_cons by lia.
      replace (Z.pred (Z.of_nat (S (Z.to_nat (b - a))))) with (Z.of_nat (Z.to_nat (b - a))) by lia.
      replace (Z.succ a) with (a + 1) by lia. rewrite runs_of_run. repeat f_equal. lia.
    + apply (StronglySorted_unique Z.le).
      * unfold zrange. replace (b + 1 - a) with (Z.of_nat (Z.to_nat (b + 1 - a))) by lia. apply sorted_seqZ.
      * apply StronglySorted_merge_sort; intros ?; lia.
      * rewrite merge_sort_Permutation. symmetry. apply elements_list_to_set, NoDup_seqZ.
Qed.

(** ** What the summary says *)

(** The records of a peer, by key and type. *)
Definition gossip_records : list (string * NumType) :=
  [("gossip:last_timestamp", TTimestamp); ("gossip:new_ops_bookmark", TTimestamp);
   ("gossip:peer_behavior_errors", TU32); ("gossip:local_errors", TU32); ("gossip:peer_busy", TU32);
   ("gossip:peer_terminated", TU32); ("gossip:completed_rounds", TU32); ("gossip:peer_timeouts", TU32);
   ("gossip:dht_op_count", TU64)]%string.

Definition segment_of (snapshot : DhtSnapshot) : option DhtSegmentState :=
  match snapshot with Minimal h b r => Some (MkSegment h b r) | _ => None end.

Section report.
Context {H : Type} `{GossipHost H} `{SerdeNum} `{Location} `{OpIdLen}.
Context `{!OpStoreSpec H} `{!PeerMetaLaws H} `{!PeerStoreLaws H}.

Definition recorded (s : H) (u : Url) (k : string) (t : NumType) : option Z :=
  meta_view s u k ≫= from_slice t.

Definition records_readable (s : H) : Prop := forall u k t v, (k, t) ∈ gossip_records ->
  meta_view s u k = Some v -> from_slice t v <> None.

Definition report_of (s : H) (u : Url) (a : AgentInfoSigned) : PeerMeta :=
  MkPeerMeta (recorded s u "gossip:last_timestamp" TTimestamp)
    (recorded s u "gossip:new_ops_bookmark" TTimestamp)
    (recorded s u "gossip:peer_behavior_errors" TU32) (recorded s u "gossip:local_errors" TU32)
    (recorded s u "gossip:peer_busy" TU32) (recorded s u "gossip:peer_terminated" TU32)
    (recorded s u "gossip:completed_rounds" TU32) (recorded s u "gossip:peer_timeouts" TU32)
    (recorded s u "gossip:dht_op_count" TU64) (ai_is_tombstone a) (ai_storage_arc a).

(** A remote agent at a URL. *)
Definition reported (local_agents : list LocalAgent) (a : AgentInfoSigned) (u : Url) : Prop :=
  (ai_agent a ∉ map la_agent local_agents) /\ ai_url a = Some u.

Lemma meta_get_recorded s u k t : records_readable s -> (k, t) ∈ gossip_records ->
  meta_get t u k s = (Ok (recorded s u k t), s).
Proof.
  intros Hr Hk. unfold meta_get, bind, recorded. rewrite pm_get_view.
  destruct (meta_view s u k) as [v|] eqn:E; [|done]. cbn.
  destruct (from_slice t v) eqn:F; [done|]. by destruct (Hr u k t v Hk E).
Qed.

Lemma peer_meta_of_ok s u a : records_readable s -> peer_meta_of u a s = (Ok (report_of s u a), s).
Proof.
  intros Hr. unfold peer_meta_of, last_gossip_timestamp, new_ops_bookmark, peer_dht_op_count.
  do 9 (unfold bind at 1; rewrite meta_get_recorded by (done || (unfold gossip_records; repeat constructor))).
  reflexivity.
Qed.

Lemma local_agent_dec (local_agents : list LocalAgent) (a : AgentInfoSigned) :
  existsb (fun l => bool_decide (la_agent l = ai_agent a)) local_agents = true <->
  ai_agent a ∈ map la_agent local_agents.
Proof.
  rewrite existsb_exists, list_elem_of_fmap. split.
  - intros (l & Hl & E%bool_decide_eq_true_1). exists l. by rewrite list_elem_of_In.
  - intros (l & E & Hl). exists l. rewrite <- list_elem_of_In. split; [done|]. by apply bool_decide_eq_true_2.
Qed.

(** Each URL has the report of the last of the agents at it. *)
Lemma peer_metas_ok s local agents acc : records_readable s -> exists out,
  peer_metas local agents acc s = (Ok out, s) /\
  (forall u m, out !! u = Some m -> acc !! u = Some m \/
     exists a, a ∈ agents /\ reported local a u /\ m = report_of s u a) /\
  (forall u, is_Some (acc !! u) -> is_Some (out !! u)) /\
  (forall a u, a ∈ agents -> reported local a u -> is_Some (out !! u)).
Proof.
  intros Hr. revert acc. induction agents as [|a agents IH]; intros acc.
  { exists acc. split_and!; [done|by left|done|]. intros a u Ha. by apply elem_of_nil in Ha. }
  cbn [peer_metas].
  destruct (existsb _ local) eqn:Hl; [|destruct (ai_url a) as [u|] eqn:Hu].
  - apply local_agent_dec in Hl. destruct (IH acc) as (out & E & P1 & P2 & P3).
    exists out. split_and!; [done| |done|].
    + intros v m Hm. destruct (P1 v m Hm) as [?|(b & Hb & ?)]; [by left|right; exists b].
      split; [by right|done].
    + intros b v [->|Hb]%elem_of_cons Hrep; [by destruct Hrep|by apply (P3 b)].
  - destruct (IH (<[ u := report_of s u a ]> acc)) as (out & E & P1 & P2 & P3).
    assert (ai_agent a ∉ map la_agent local) as Hnot
      by (rewrite <- local_agent_dec, Hl; done).
    exists out. split_and!.
    + unfold bind. by rewrite peer_meta_of_ok.
    + intros v m Hm. destruct (P1 v m Hm) as [Hv|(b & Hb & ?)].
      * apply lookup_insert_Some in Hv as [[<- <-]|[_ Hv]]; [|by left].
        right. exists a. split_and!; [by left|done..].
      * right. exists b. split; [by right|done].
    + intros v Hv. apply P2. apply lookup_insert_is_Some'. by right.
    + intros b v [->|Hb]%elem_of_cons Hrep; [|by apply (P3 b)].
      apply P2. destruct Hrep as [_ Hrep]. simplify_eq. rewrite lookup_insert_eq. by eexists.
  - destruct (IH acc) as (out & E & P1 & P2 & P3). exists out. split_and!; [done| |done|].
    + intros v m Hm. destruct (P1 v m Hm) as [?|(b & Hb & ?)]; [by left|right; exists b].
      split; [by right|done].
    + intros b v [->|Hb]%elem_of_cons Hrep; [destruct Hrep; by simplify_eq|by apply (P3 b)].
Qed.

Lemma set_host_same (n : K2Gossip H) : set_host (host n) n = n.
Proof. by destruct n. Qed.

Lemma arc_summary_ok now (n : K2Gossip H) arc : st_wf (host n) ->
  dht_ok now (st_ops (host n)) (host n) (dht n) -> piece arc ->
  exists key set seg, arc_summary arc n = (GOk (key, seg), n) /\ segment_key arc = Ok key /\
    new [arc] = Ok set /\ segment_of (minimal_of now set (st_ops (host n))) = Some seg.
Proof.
  intros Hw Hd Hp. destruct (piece_alone arc Hp) as (set & E & Hset & Ea).
  assert (exists key, segment_key arc = Ok key) as [key Hk]
    by (destruct Hp as (a & b & _ & _ & ->); by eexists).
  exists key, set. eexists. split_and!; [|done|done|reflexivity].
  unfold arc_summary, gbind, gpure, read_dht, on_host. rewrite E. cbn [gres_of].
  rewrite (snapshot_minimal_ok now) by done. rewrite set_host_same. cbn [gres_of minimal_of].
  rewrite Ea. cbn [head ok_or gres_of]. by rewrite Hk.
Qed.

Lemma dht_summary_ok now (n : K2Gossip H) arcs acc : st_wf (host n) ->
  dht_ok now (st_ops (host n)) (host n) (dht n) -> Forall piece arcs -> NoDup arcs ->
  (forall arc key, arc ∈ arcs -> segment_key arc = Ok key -> acc !! key = None) ->
  exists out, dht_summary_of arcs acc n = (GOk out, n) /\
    forall key seg, out !! key = Some seg <-> acc !! key = Some seg \/
      exists arc set, arc ∈ arcs /\ segment_key arc = Ok key /\ new [arc] = Ok set /\
        segment_of (minimal_of now set (st_ops (host n))) = Some seg.
Proof.
  intros Hw Hd Hp. revert acc. induction Hp as [|arc arcs Ha Hp IH]; intros acc Hnd Hfresh.
  { exists acc. split; [done|]. intros key seg. split; [by left|].
    intros [?|(arc & _ & Hin & _)]; [done|by apply elem_of_nil in Hin]. }
  apply NoDup_cons in Hnd as [Hnot Hnd].
  destruct (arc_summary_ok now n arc Hw Hd Ha) as (key & set & seg & E & Hk & Hs & Hm).
  destruct (IH (<[ key := seg ]> acc) Hnd) as (out & Eo & Ho).
  { intros arc' key' Hin Hk'. rewrite lookup_insert_ne.
    - apply (Hfresh arc'); [by right|done].
    - intros ->. rewrite Forall_forall in Hp. pose proof (Hp _ Hin) as Ha'.
      destruct Ha as (a & b & Hab & Hb & ->), Ha' as (c & d & Hcd & Hd' & ->).
      rewrite <- Hk' in Hk. rewrite !run_arc_eq in * by lia.
      apply segment_key_inj in Hk as [E1 E2]; [|rewrite SECTOR_SIZE_val; lia..].
      apply Hnot. by rewrite E1, E2. }
  exists out. split.
  { cbn [dht_summary_of]. unfold gbind. by rewrite E. }
  intros key' seg'. rewrite Ho, lookup_insert_Some. split.
  - intros [[[<- <-]|[Hne Hacc]]|(arc' & set' & Hin & ?)]; [right|by left|right].
    + exists arc, set. split; [by left|done].
    + exists arc', set'. split; [by right|done].
  - intros [Hacc|(arc' & set' & [->|Hin]%elem_of_cons & Hk' & Hs' & Hm')].
    + left. right. split; [|done]. intros ->.
      by rewrite (Hfresh arc key' (list_elem_of_here _ _) Hk) in Hacc.
    + left. left. rewrite Hk in Hk'. rewrite Hs in Hs'. by simplify_eq.
    + right. by exists arc', set'.
Qed.

(** A summary changes nothing but what a query of the peer store prunes.  It
    counts the ops, names the peer of each round under way, gives for every arc
    of the union of the targets the hashes of the ops held in it, and for
    every URL of a remote agent the records of the peer with the arc of one of
    the agents at the URL. *)
Theorem summary_exact now (include : bool) (n : K2Gossip H) (agents : list LocalAgent) (set : ArcSet) :
  st_wf (host n) -> dht_ok now (st_ops (host n)) (host n) (dht n) -> records_readable (host n) ->
  las_get_all (host n) = (Ok agents, host n) ->
  new (map tgt_storage_arc agents) = Ok set -> arc_set_wf set ->
  exists out h, summary include n = (GOk out, set_host h n) /\ same_view (host n) h /\
    sum_local_op_count out = op_count (dht n) /\
    sum_initiated_round out = session_with_peer <$> initiated_round_state n /\
    (forall u, u ∈ sum_accepted_rounds out <-> is_Some (accepted_round_states n !! u)) /\
    (forall key seg, sum_dht_summary out !! key = Some seg <-> include = true /\
       exists arc aset, arc ∈ as_arcs set /\ segment_key arc = Ok key /\ new [arc] = Ok aset /\
         segment_of (minimal_of now aset (st_ops (host n))) = Some seg) /\
    (forall u m, sum_peer_meta out !! u = Some m ->
       exists a, a ∈ peers_view (host n) /\ reported agents a u /\ m = report_of (host n) u a) /\
    (forall a u, a ∈ peers_view (host n) -> reported agents a u -> is_Some (sum_peer_meta out !! u)).
Proof.
  intros Hw Hd Hr Ha Hs Hset.
  assert (exists hashes, (if include then let! set := gpure (new (map tgt_storage_arc agents)) in
      dht_summary_of (as_arcs set) ∅ else gret ∅) n = (GOk hashes, n) /\
    forall key seg, hashes !! key = Some seg <-> include = true /\ exists arc aset, arc ∈ as_arcs set /\
      segment_key arc = Ok key /\ new [arc] = Ok aset /\
      segment_of (minimal_of now aset (st_ops (host n))) = Some seg) as (hashes & Eh & Hh).
  { destruct include; [|exists ∅; split; [done|]; intros; rewrite lookup_empty; naive_solver].
    destruct (as_arcs_pieces set Hset) as [Hp Hnd].
    destruct (dht_summary_ok now n (as_arcs set) ∅ Hw Hd Hp Hnd) as (out & E & Ho);
      [intros; apply lookup_empty|].
    exists out. split; [unfold gbind at 1, gpure; by rewrite Hs|].
    intros key seg. rewrite Ho, lookup_empty. split; [by intros [[=]|?]|by intros [_ ?]; right]. }
  destruct (ps_get_all_view (host n)) as (h & Eg & Hsame).
  assert (records_readable h) as Hr' by (intros u k t v; rewrite (proj2 Hsame); apply Hr).
  destruct (peer_metas_ok h agents (peers_view (host n)) ∅ Hr') as (metas & Em & P1 & _ & P3).
  assert (forall u a, report_of h u a = report_of (host n) u a) as Hrep
    by (intros u a; unfold report_of, recorded; by rewrite !(proj2 Hsame)).
  eexists (MkSummary _ _ hashes metas _), h. split; [|split; [exact Hsame|]].
  { unfold summary. unfold gbind at 1 2 3, ggets. unfold gbind at 1, on_host at 1. rewrite Ha.
    rewrite set_host_same. cbn [gres_of]. unfold gbind at 1. rewrite Eh.
    unfold gbind at 1, on_host at 1. rewrite Eg. cbn [gres_of].
    unfold gbind at 1, on_host at 1.
    change (host (set_host h n)) with h. by rewrite Em. }
  cbn [sum_local_op_count sum_initiated_round sum_accepted_rounds sum_dht_summary sum_peer_meta].
  split_and!; [done|done| |exact Hh| |exact P3].
  - intros u. rewrite list_elem_of_fmap. split.
    + intros ([v r] & -> & Hin%elem_of_map_to_list). by exists r.
    + intros [r Hu]. exists (u, r). by rewrite elem_of_map_to_list.
  - intros u m Hm. destruct (P1 u m Hm) as [He|(a & Hin & Hrem & ->)]; [by rewrite lookup_empty in He|].
    exists a. by rewrite Hrep.
Qed.

(** An agent that left is announced by a tombstone without a URL
    ([local_agent_leave]), and an info without a URL is not looked at: as long
    as agents leave that way, no peer is ever reported as gone. *)
Theorem departures_unreported now include (n : K2Gossip H) agents set out h :
  st_wf (host n) -> dht_ok now (st_ops (host n)) (host n) (dht n) -> records_readable (host n) ->
  las_get_all (host n) = (Ok agents, host n) ->
  new (map tgt_storage_arc agents) = Ok set -> arc_set_wf set ->
  (forall a : AgentInfoSigned, a ∈ peers_view (host n) -> ai_is_tombstone a = true ->
     exists space at_time id, agent_info a = tombstone_info space at_time id) ->
  summary include n = (GOk out, h) -> forall u m, sum_peer_meta out !! u = Some m -> pr_is_tombstone m = false.
Proof.
  intros Hw Hd Hr Ha Hs Hset Htomb E u m Hm.
  destruct (summary_exact now include n agents set Hw Hd Hr Ha Hs Hset)
    as (out' & h' & E' & _ & _ & _ & _ & _ & Hpeers & _).
  rewrite E in E'. injection E' as <- _.
  destruct (Hpeers u m Hm) as (a & Hin & [_ Hu] & ->). cbn.
  destruct (ai_is_tombstone a) eqn:T; [|done]. destruct (Htomb a Hin T) as (sp & t & id & Ei).
  by rewrite Ei in Hu.
Qed.
End report.

(** ** A node that reports *)

(** The op store of the host of [GossipDemo] keeps the laws of its part. *)
Definition set_ops (s : MemStore) (h : MemHost) : MemHost :=
  MkMemHost (mh_now h) s (mh_meta h) (mh_peers h) (mh_agents h) (mh_requested h) (mh_sent h).

Lemma on_ops_steps {A} (m : M MemStore A) h r s : m (mh_ops h) = (r, s) -> on_ops m h = (r, set_ops s h).
Proof. intros E. unfold on_ops. by rewrite E. Qed.

Lemma on_ops_keeps {A} (m : M MemStore A) h r : m (mh_ops h) = (r, mh_ops h) -> on_ops m h = (r, h).
Proof. intros E. rewrite (on_ops_steps _ _ _ _ E). by destruct h. Qed.


#[export] Program Instance mem_host_ops_spec : OpStoreSpec MemHost := {|
  st_ops h := st_ops (mh_ops h);
  st_slice h := st_slice (mh_ops h);
  st_wf h := st_wf (mh_ops h);
  st_size h := st_size (mh_ops h);
|}.
Next Obligation. intros h. apply st_ops_wf. Qed.
Next Obligation. intros h. apply st_ops_nodup. Qed.
Next Obligation.
  intros h arc s e Hw. destruct (retrieve_op_hashes_law (mh_ops h) arc s e Hw) as (ids & used & E & Hids).
  exists ids, used. split; [by apply on_ops_keeps|done].
Qed.
Next Obligation. intros h. apply st_size_nonneg. Qed.
Next Obligation.
  intros h arc Hw. destruct (earliest_law (mh_ops h) arc Hw) as (t & E & Ht).
  exists t. split; [by apply on_ops_keeps|done].
Qed.
Next Obligation.
  intros h arc i hash Hw Hn Hi. destruct (store_slice_hash_law (mh_ops h) arc i hash Hw Hn Hi) as (s & E & Hs).
  exists (set_ops s h). split; [exact (on_ops_steps _ _ _ _ E)|exact Hs].
Qed.
Next Obligation. intros h arc i Hw. by apply on_ops_keeps, retrieve_slice_hash_law. Qed.
Next Obligation.
  intros h arc Hw. destruct (slice_hash_count_law (mh_ops h) arc Hw) as (c & E & Hc).
  exists c. split; [by apply on_ops_keeps|done].
Qed.
Next Obligation.
  intros h arc Hw. destruct (retrieve_slice_hashes_law (mh_ops h) arc Hw) as (l & E & Hl).
  exists l. split; [by apply on_ops_keeps|done].
Qed.
Next Obligation. intros h Hw. by apply on_ops_keeps, query_total_op_count_law. Qed.

(** Two remote agents live at one URL, a third left, and one of ours aims at
    the first sector. *)
Definition gone_info : AgentInfoSigned := MkAgentInfoSigned (tombstone_info [0] 10 [3]) "" [].

Definition reporting_peers : Inner :=
  let infos := [demo_info 1 "a" (Arc 0 100); demo_info 2 "a" (Arc 50 200); gone_info] in
  (inner_insert 0 1000 ∅ infos (inner_new 2000 0)).2.

Definition reporting_host : MemHost :=
  MkMemHost 1000 store_a {[ "a" := {[ "gossip:completed_rounds" := [4] ]} ]}%string
    reporting_peers [MkLocalAgent [7] Empty (Arc 0 (SECTOR_SIZE - 1))] [] [].

Definition reporting_node : K2Gossip MemHost := MkGossip None ∅ ∅ dht_a reporting_host.

Lemma reporting_readable : records_readable reporting_host.
Proof.
  intros u k t v Hk Hv. change (meta_view (mh_meta reporting_host) u k = Some v) in Hv. cbn in Hv.
  apply bind_Some in Hv as (m & [_ <-]%lookup_singleton_Some & Hv).
  apply lookup_singleton_Some in Hv as [<- <-].
  unfold gossip_records in Hk. rewrite !elem_of_cons, elem_of_nil in Hk. by destruct_or!; simplify_eq.
Qed.

(** A model of the ops of the host is one of the ops of its store. *)
Lemma host_ok now (h : MemHost) (d : Dht) :
  st_wf (mh_ops h) -> dht_ok now (st_ops (mh_ops h)) (mh_ops h) d ->
  @st_wf _ gh_ops _ _ mem_host_ops_spec h /\
  @dht_ok _ gh_ops _ _ mem_host_ops_spec now (@st_ops _ gh_ops _ _ mem_host_ops_spec h) h d.
Proof.
  intros Hw [Hsz [Hl Hs]]. split; [exact Hw|]. split; [exact Hsz|]. split; [exact Hl|].
  intros i tp Hi. destruct (Hs i tp Hi). by constructor.
Qed.

Lemma store_a_ok : st_wf store_a /\ dht_ok w_now (st_ops store_a) store_a dht_a.
Proof. destruct (opened_over_ok ops_a (proj1 ops_past)) as (_ & W & _ & _ & D). exact (conj W D). Qed.

#[local] Opaque store_a dht_a.

Lemma reporting_coherent : let h := host reporting_node in
  @st_wf _ gh_ops _ _ mem_host_ops_spec h /\
  @dht_ok _ gh_ops _ _ mem_host_ops_spec w_now (@st_ops _ gh_ops _ _ mem_host_ops_spec h) h dht_a.
Proof. destruct store_a_ok. exact (host_ok w_now reporting_host dht_a H H0). Qed.

Lemma reporting_infos : live_infos reporting_host =
  [gone_info; demo_info 1 "a" (Arc 0 100); demo_info 2 "a" (Arc 50 200)].
Proof.
  change (live_infos reporting_host) with (store_values (check_prune 1000 1000 reporting_peers)).
  vm_compute. reflexivity.
Qed.

Lemma reporting_tombstones (a : AgentInfoSigned) : a ∈ live_infos reporting_host ->
  ai_is_tombstone a = true -> exists space at_time id, agent_info a = tombstone_info space at_time id.
Proof.
  rewrite reporting_infos. intros [->|[->|[->|[]%elem_of_nil]%elem_of_cons]%elem_of_cons]%elem_of_cons;
    [|discriminate..]. by exists [0], 10, [3].
Qed.

Definition our_set : ArcSet := match new [Arc 0 (SECTOR_SIZE - 1)] with Ok s => s | _ => MkArcSet ∅ end.

Lemma our_set_new : new (map tgt_storage_arc (mh_agents reporting_host)) = Ok our_set.
Proof. reflexivity. Qed.

Lemma our_set_wf : arc_set_wf our_set.
Proof. apply wf_subseteq. apply (bool_decide_eq_true_1 _). vm_compute. reflexivity. Qed.

(** The summary has the first sector, and one entry for the URL. *)
Lemma summary_exact_witness : exists out h,
  summary true reporting_node = (GOk out, set_host h reporting_node) /\ sum_local_op_count out = op_count dht_a /\
  (exists seg, sum_dht_summary out !! "0..8388607"%string = Some seg) /\
  forall u m, sum_peer_meta out !! u = Some m -> u = "a"%string /\ pr_completed_rounds m = Some 4.
Proof.
  destruct reporting_coherent as [W D].
  destruct (summary_exact w_now true reporting_node (mh_agents reporting_host) our_set W D
    reporting_readable eq_refl our_set_new our_set_wf)
    as (out & h & E & _ & Hc & _ & _ & Hd & Hp & _).
  exists out, h. split; [exact E|split; [exact Hc|split]].
  - destruct (segment_of (minimal_of w_now our_set (st_ops reporting_host))) as [seg|] eqn:Es; [|discriminate].
    exists seg. apply Hd. split; [reflexivity|]. exists (Arc 0 (SECTOR_SIZE - 1)), our_set.
    split_and!; [|reflexivity|reflexivity|exact Es].
    replace (as_arcs our_set) with [Arc 0 (SECTOR_SIZE - 1)] by (vm_compute; reflexivity). by left.
  - intros u m Hm. destruct (Hp u m Hm) as (a & Ha & [_ Hu] & ->).
    change (peers_view (host reporting_node)) with (live_infos reporting_host) in Ha.
    rewrite reporting_infos in Ha. cbn [In] in Ha.
    apply elem_of_cons in Ha as [->|Ha]; [discriminate Hu|].
    assert (ai_url a = Some "a"%string) as Ea
      by (apply elem_of_cons in Ha as [->|[->|[]%elem_of_nil]%elem_of_cons]; reflexivity).
    rewrite Ea in Hu. injection Hu as <-. split; [reflexivity|].
    reflexivity.
Defined.

(** The agent that left is not there. *)
Lemma departures_unreported_witness : exists out h,
  summary false reporting_node = (GOk out, h) /\
  (exists a : AgentInfoSigned, a ∈ live_infos reporting_host /\ ai_is_tombstone a = true) /\
  forall u m, sum_peer_meta out !! u = Some m -> pr_is_tombstone m = false.
Proof.
  destruct reporting_coherent as [W D].
  destruct (summary_exact w_now false reporting_node (mh_agents reporting_host) our_set W D
    reporting_readable eq_refl our_set_new our_set_wf) as (out & h & E & _).
  exists out, (set_host h reporting_node). split; [exact E|]. split.
  - exists gone_info. rewrite reporting_infos. split; [by left|done].
  - apply (departures_unreported w_now false reporting_node (mh_agents reporting_host) our_set out
      (set_host h reporting_node) W D reporting_readable eq_refl our_set_new our_set_wf); [|exact E].
    exact reporting_tombstones.
Defined.
