(* ===== verification/LocalAgent.v ===== *)
(** Local agents (crates/core/src/lib.rs): an agent with an ed25519 key, the
    verifier of its signatures, the store of the local agents
    (crates/core/src/factories/core_local_agent_store.rs), and the timestamps of
    an agent info as JSON strings (crates/api/src/agent.rs).  Of the crate
    ed25519_dalek and of serde_json only the calls are known; they are
    interfaces. *)

From Stdlib Require Import Ascii.
From stdpp Require Import pretty.
From S2P Require Import Prelude Arc Timestamp Id Agent GossipNode SrvSpace ConnContext.

#[local] Set Default Proof Using "Type*".

(** ** Timestamps as strings: the module [serde_string_timestamp] *)

(** [t.as_micros().to_string()], and [s.parse::<i64>()]. *)
Definition ts_serialize (t : Timestamp) : string := pretty t.

Definition ts_deserialize (s : string) : option Timestamp := parse_i64 s.

Lemma digit_of_char (x : N) : (x < 10)%N -> digit (pretty_N_char x) = Some (Z.of_N x).
Proof.
  intros Hx. destruct x as [|p]; [reflexivity|].
  do 4 (destruct p as [p|p|]; try (by exfalso; lia); try reflexivity).
Qed.

(** The digits that are written in front of a text are read first. *)
Lemma digits_go (x : N) s : digits 0 (pretty_N_go x s) = digits (Z.of_N x) s.
Proof.
  revert s. induction (N.lt_wf_0 x) as [x _ IH]; intros s.
  destruct (decide (x = 0)%N) as [->|Hx]; [by rewrite pretty_N_go_0|].
  rewrite pretty_N_go_step by lia. rewrite IH by (apply N.div_lt; lia).
  cbn [digits]. rewrite digit_of_char by (by apply N.mod_lt). f_equal.
  rewrite N2Z.inj_div, N2Z.inj_mod. Z.to_euclidean_division_equations. lia.
Qed.

Lemma number_pretty (x : N) : number (pretty x) = Some (Z.of_N x).
Proof.
  unfold pretty, pretty_N. case_decide as Hx; [by subst|].
  pose proof (digits_go x "") as E. cbn [digits] in E.
  destruct (pretty_N_go x "") as [|c s] eqn:G; [|done].
  cbn in E. injection E as E. lia.
Qed.

Lemma pretty_plain (x : N) : parse_i64 (pretty x) = in_i64 (Z.of_N x).
Proof.
  pose proof (number_pretty x) as E.
  destruct (pretty x) as [|c s] eqn:G; [discriminate E|].
  assert (c <> "-"%char /\ c <> "+"%char) as [H1 H2].
  { split; intros ->; cbn in E; discriminate. }
  unfold parse_i64.
  destruct c as [[] [] [] [] [] [] [] []]; try (by rewrite E); by exfalso.
Qed.

(** A timestamp written as a string is read back. *)
Theorem timestamp_string_roundtrip t : is_i64 t -> ts_deserialize (ts_serialize t) = Some t.
Proof.
  intros Ht. unfold ts_deserialize, ts_serialize. destruct t as [|p|p].
  - reflexivity.
  - change (pretty (Z.pos p)) with (pretty (N.pos p)). rewrite pretty_plain.
    unfold in_i64. by rewrite bool_decide_true.
  - change (pretty (Z.neg p)) with ("-" +:+ pretty (N.pos p))%string.
    change (number (pretty (N.pos p)) ≫= (fun n => in_i64 (- n)) = Some (Z.neg p)).
    rewrite number_pretty. cbn. unfold in_i64. by rewrite bool_decide_true.
Qed.

Lemma timestamp_string_roundtrip_witness :
  ts_serialize (- 1500) = "-1500"%string /\ ts_deserialize (ts_serialize (- 1500)) = Some (- 1500).
Proof.
  split; [vm_compute; reflexivity|]. apply timestamp_string_roundtrip. unfold is_i64. lia.
Defined.

(** ** Ed25519 *)

Class Ed25519 := {
  SigningKey : Type;
  key_of_seed : bytes -> SigningKey;
  (** [verifying_key().as_bytes()], and [VerifyingKey::from_bytes]. *)
  verifying_key_bytes : SigningKey -> bytes;
  valid_key : bytes -> bool;
  ed_sign : SigningKey -> bytes -> bytes;
  ed_verify : bytes -> bytes -> bytes -> bool;
}.

(** What is documented of the crate. *)
Class Ed25519Laws `{Ed25519} := {
  verifying_key_length k : length (verifying_key_bytes k) = 32%nat;
  verifying_key_valid k : valid_key (verifying_key_bytes k) = true;
  signature_length k m : length (ed_sign k m) = 64%nat;
  verify_signed k m : ed_verify (verifying_key_bytes k) m (ed_sign k m) = true;
}.

(** [Ed25519Verifier::verify]: a key and a signature of another length than
    theirs are refused before they are looked at. *)
Definition ed25519_verify `{Ed25519} (agent_info : AgentInfo) (message : bytes) (signature : bytes) : bool :=
  if negb (length (ai_agent agent_info) =? 32)%nat then false
  else if negb (valid_key (ai_agent agent_info)) then false
  else if negb (length signature =? 64)%nat then false
  else ed_verify (ai_agent agent_info) message signature.

(** ** [Ed25519LocalAgent] *)

Section agent.
Context `{Ed25519} {Cb : Type}.

Record Ed25519LocalAgent : Type := MkEdAgent {
  ed_pk : SigningKey;
  ed_id : AgentId;
  ed_cb : option Cb;
  ed_cur : DhtArc;
  ed_tgt : DhtArc;
}.

Definition ed_new (pk : SigningKey) : Ed25519LocalAgent :=
  MkEdAgent pk (verifying_key_bytes pk) None Empty Empty.

Definition from_seed (seed : bytes) : Ed25519LocalAgent := ed_new (key_of_seed seed).

(** The signature of a text is that of its bytes; the info is not looked at. *)
Definition agent_sign (a : Ed25519LocalAgent) (_ : AgentInfo) (message : string) : res bytes :=
  Ok (ed_sign (ed_pk a) (bytes_of_string message)).

Definition register_cb (cb : Cb) (a : Ed25519LocalAgent) : Ed25519LocalAgent :=
  MkEdAgent (ed_pk a) (ed_id a) (Some cb) (ed_cur a) (ed_tgt a).
Definition set_cur (arc : DhtArc) (a : Ed25519LocalAgent) : Ed25519LocalAgent :=
  MkEdAgent (ed_pk a) (ed_id a) (ed_cb a) arc (ed_tgt a).
Definition set_tgt_hint (arc : DhtArc) (a : Ed25519LocalAgent) : Ed25519LocalAgent :=
  MkEdAgent (ed_pk a) (ed_id a) (ed_cb a) (ed_cur a) arc.

(** What the rest of the system sees of it. *)
Definition agent_view (a : Ed25519LocalAgent) : LocalAgent := MkLocalAgent (ed_id a) (ed_cur a) (ed_tgt a).

(** ** [CoreLocalAgentStore]

    The store maps an id to an agent that others hold too: the agents of the
    process are an arena, and a handle is a place in it.  The callbacks
    called are kept in order. *)

Record LocalAgents : Type := MkAgents {
  arena : list Ed25519LocalAgent;
  ids : gmap AgentId nat;
  called : list Cb;
}.

(** A new agent of the process, in no store yet. *)
Definition alloc (a : Ed25519LocalAgent) (s : LocalAgents) : nat * LocalAgents :=
  (length (arena s), MkAgents (arena s ++ [a]) (ids s) (called s)).

Definition store_add (handle : nat) (s : LocalAgents) : LocalAgents :=
  match arena s !! handle with
  | Some a => MkAgents (arena s) (<[ ed_id a := handle ]> (ids s)) (called s)
  | None => s
  end.

Definition store_remove (id : AgentId) (s : LocalAgents) : option nat * LocalAgents :=
  (ids s !! id, MkAgents (arena s) (delete id (ids s)) (called s)).

Definition store_get_all (s : LocalAgents) : list nat := (map_to_list (ids s)).*2.

(** A call on a handle, and the callback of the agent behind it. *)
Definition on_agent (handle : nat) (f : Ed25519LocalAgent -> Ed25519LocalAgent) (s : LocalAgents)
  : LocalAgents :=
  MkAgents (alter f handle (arena s)) (ids s) (called s).

Definition call_cb (handle : nat) (s : LocalAgents) : LocalAgents :=
  match arena s !! handle ≫= ed_cb with
  | Some cb => MkAgents (arena s) (ids s) (called s ++ [cb])
  | None => s
  end.

Definition views (s : LocalAgents) (handles : list nat) : list LocalAgent :=
  omap (fun h => agent_view <$> arena s !! h) handles.

(** The store as the interface the gossip module has of it: [get_all] and calls
    on the agents it returned. *)
#[export] Instance core_local_agents : LocalAgentStore LocalAgents := {|
  las_get_all := gets (fun s => views s (store_get_all s));
  set_cur_storage_arc id arc := modify (fun s =>
    match ids s !! id with Some h => on_agent h (set_cur arc) s | None => s end);
  invoke_cb id := modify (fun s => match ids s !! id with Some h => call_cb h s | None => s end);
|}.

(** Every agent of the store is alive and under its own id. *)
Definition agents_ok (s : LocalAgents) : Prop :=
  forall id h, ids s !! id = Some h -> exists a, arena s !! h = Some a /\ ed_id a = id.

Lemma on_agent_ok h f s : (forall a, ed_id (f a) = ed_id a) -> agents_ok s -> agents_ok (on_agent h f s).
Proof.
  intros Hf Ho id k Hk. destruct (Ho id k Hk) as (a & Ha & Hid). cbn.
  destruct (decide (h = k)) as [->|Hne].
  - exists (f a). by rewrite list_lookup_alter_eq, Ha; cbn; rewrite Hf.
  - exists a. by rewrite list_lookup_alter_ne.
Qed.

Inductive agents_step : LocalAgents -> LocalAgents -> Prop :=
  | step_alloc a s : agents_step s (alloc a s).2
  | step_add h s : agents_step s (store_add h s)
  | step_remove id s : agents_step s (store_remove id s).2
  | step_register h cb s : agents_step s (on_agent h (register_cb cb) s)
  | step_cur h arc s : agents_step s (on_agent h (set_cur arc) s)
  | step_tgt h arc s : agents_step s (on_agent h (set_tgt_hint arc) s)
  | step_call h s : agents_step s (call_cb h s).

Lemma agents_step_ok s s' : agents_step s s' -> agents_ok s -> agents_ok s'.
Proof.
  intros Hs Ho. destruct Hs as [a s|h s|id s|h cb s|h arc s|h arc s|h s]; try (by apply on_agent_ok).
  - intros id h Hk. destruct (Ho id h Hk) as (b & Hb & Hid). exists b. split; [|done].
    cbn. by apply lookup_app_l_Some.
  - unfold store_add. destruct (arena s !! h) as [a|] eqn:E; [|done].
    intros id k Hk. cbn in *. apply lookup_insert_Some in Hk as [[<- <-]|[_ Hk]]; [by exists a|by apply Ho].
  - intros k h Hk. cbn in *. apply lookup_delete_Some in Hk as [_ Hk]. by apply Ho.
  - unfold call_cb. by destruct (arena s !! h ≫= ed_cb).
Qed.

Lemma elem_of_views s l : agents_ok s ->
  l ∈ views s (store_get_all s) <->
  exists h a, ids s !! la_agent l = Some h /\ arena s !! h = Some a /\ l = agent_view a.
Proof.
  intros Ho. unfold views, store_get_all. rewrite list_elem_of_omap. split.
  - intros (h & Hh & Hl). apply list_elem_of_fmap in Hh as ([id h'] & -> & Hin%elem_of_map_to_list).
    cbn in Hl. destruct (Ho id h' Hin) as (a & Ha & <-). rewrite Ha in Hl. injection Hl as <-.
    by exists h', a.
  - intros (h & a & Hh & Ha & ->). exists h. split; [|by rewrite Ha].
    apply list_elem_of_fmap. exists (ed_id a, h). split; [done|]. by apply elem_of_map_to_list.
Qed.

(** Whatever agents are made, added, removed and changed through any handle, an
    arc that gossip sets for an id of the store is the one [get_all] shows
    for that id, and for no other. *)
Theorem arcs_set_are_seen s0 s id arc h :
  rtc agents_step s0 s -> agents_ok s0 -> ids s !! id = Some h -> exists s',
    set_cur_storage_arc id arc s = (Ok tt, s') /\ agents_ok s' /\
    (exists a, arena s !! h = Some a /\ arena s' !! h = Some (set_cur arc a)) /\
    forall l, l ∈ views s' (store_get_all s') <->
      (la_agent l = id /\ cur_storage_arc l = arc /\
         exists old, old ∈ views s (store_get_all s) /\ la_agent old = id /\
           tgt_storage_arc l = tgt_storage_arc old) \/
      (la_agent l <> id /\ l ∈ views s (store_get_all s)).
Proof.
  intros Hsteps Ho0 Hid.
  assert (agents_ok s) as Ho by (induction Hsteps; eauto using agents_step_ok).
  destruct (Ho id h Hid) as (a & Ha & Hai). exists (on_agent h (set_cur arc) s).
  assert (agents_ok (on_agent h (set_cur arc) s)) as Ho' by (by apply on_agent_ok).
  assert (arena (on_agent h (set_cur arc) s) !! h = Some (set_cur arc a)) as Ha'
    by (cbn; by rewrite list_lookup_alter_eq, Ha).
  split_and!; [cbn; unfold modify; by rewrite Hid|done|by exists a|].
  intros l. rewrite !elem_of_views by done. cbn [ids on_agent]. split.
  - intros (k & b & Hk & Hb & ->). destruct (decide (k = h)) as [->|Hne].
    + rewrite Ha' in Hb. injection Hb as <-. left. split_and!; [done..|].
      exists (agent_view a). split; [|done]. apply elem_of_views; [done|].
      exists h, a. split_and!; [|done|done]. by rewrite <- Hai in Hid.
    + right. cbn in Hb. rewrite list_lookup_alter_ne in Hb by done.
      split; [intros E; rewrite E in Hk; congruence|by exists k, b].
  - intros [(Hl & Hc & old & Hold & Ho2 & Ht)|(Hl & k & b & Hk & Hb & ->)].
    + apply elem_of_views in Hold as (k & b & Hk & Hb & ->); [|done].
      rewrite Ho2, Hid in Hk. injection Hk as <-. rewrite Ha in Hb. injection Hb as <-.
      exists h, (set_cur arc a). rewrite Hl. split_and!; [done|done|].
      destruct l. cbn in *. by rewrite <- Hl, Hc, Ht in *; subst.
    + exists k, b. split_and!; [done| |done]. cbn. rewrite list_lookup_alter_ne; [done|].
      intros <-. rewrite Ha in Hb. injection Hb as <-. by cbn in Hl.
Qed.
End agent.

(** ** Infos signed by a local agent *)

Section infos.
Context `{Ed25519Laws} {Cb : Type}.

(** serde_json with [Ed25519Verifier]. *)
Definition with_ed25519 (json : AgentJson) : AgentJson := {|
  info_to_json := @info_to_json json;
  info_from_json := @info_from_json json;
  ref_to_json := @ref_to_json json;
  ref_from_json := @ref_from_json json;
  ref_list_from_json := @ref_list_from_json json;
  Agent.verify info message signature := ed25519_verify info (bytes_of_string message) signature;
|}.

Lemma with_ed25519_laws json : @AgentJsonLaws json -> @AgentJsonLaws (with_ed25519 json).
Proof. intros [L1 L2]. by split. Qed.

Lemma own_signature_verified pk info message : ai_agent info = verifying_key_bytes pk ->
  ed25519_verify info message (ed_sign pk message) = true.
Proof.
  intros E. unfold ed25519_verify.
  by rewrite E, verifying_key_length, verifying_key_valid, signature_length, verify_signed.
Qed.

(** An info a local agent signs of itself is, encoded and decoded, the same
    info, whatever happened to the agent since it was made. *)
Theorem own_infos_decode json (a : Ed25519LocalAgent (Cb := Cb)) pk info signed b :
  @AgentJsonLaws json -> ed_pk a = pk -> ed_id a = ed_id (ed_new (Cb := Cb) pk) ->
  ai_agent info = ed_id a ->
  @sign (with_ed25519 json) (agent_sign a) info = Ok signed ->
  @encode_info (with_ed25519 json) signed = Ok b ->
  @decode_info (with_ed25519 json) b = Ok signed.
Proof.
  intros L Hpk Hid Hi Hs He.
  rewrite (@sign_encode_decode _ (with_ed25519_laws json L) _ _ _ _ Hs He).
  assert (Agent.verify (AgentJson := with_ed25519 json) info (ai_encoded signed) (ai_signature signed) = true) as ->;
    [|done].
  unfold sign, ok_or in Hs. destruct (info_to_json info) as [m|]; [|done]. cbn in Hs.
  injection Hs as <-. cbn. rewrite Hpk. apply own_signature_verified. by rewrite Hi, Hid.
Qed.
End infos.

(** ** An agent of which the key is the seed *)

#[local] Instance plain_ed25519 : Ed25519 := {|
  SigningKey := Z;
  key_of_seed seed := default 0 (head seed);
  verifying_key_bytes k := replicate 32 k;
  valid_key b := bool_decide (b <> []);
  ed_sign k m := replicate 64 k;
  ed_verify key m sig := bool_decide (sig = replicate 64 (default 0 (head key)));
|}.

#[local] Instance plain_ed25519_laws : Ed25519Laws.
Proof. split; intros; try reflexivity. cbn. by rewrite bool_decide_true. Qed.

Definition plain_agent : Ed25519LocalAgent (Cb := nat) := from_seed [7; 8].

Definition plain_info : AgentInfo := MkAgentInfo (replicate 32 7) [2] 0 10 false None Empty.

Definition plain_json : AgentJson := {|
  info_to_json info := if bool_decide (info = plain_info) then Some "plain"%string else None;
  info_from_json s := if bool_decide (s = "plain"%string) then Some plain_info else None;
  ref_to_json r := if bool_decide (r.1 = "plain"%string) then Some r.2 else None;
  ref_from_json b := Some ("plain"%string, b);
  ref_list_from_json b := None;
  Agent.verify _ _ _ := false;
|}.

Lemma plain_json_laws : @AgentJsonLaws plain_json.
Proof.
  split.
  - intros info s. cbn. case_bool_decide; intros; by simplify_eq/=.
  - intros [e g] b. cbn. case_bool_decide; intros; by simplify_eq/=.
Qed.

Lemma own_infos_decode_witness :
  let signed := MkAgentInfoSigned plain_info "plain" (replicate 64 7) in
  @decode_info (with_ed25519 plain_json) (replicate 64 7) = Ok signed.
Proof.
  apply (own_infos_decode plain_json (set_cur FULL plain_agent) 7 plain_info);
    [exact plain_json_laws|reflexivity..].
Defined.

(** An agent added twice under one id is the second; a change through the first
    handle is not seen. *)
Definition two_handles : LocalAgents (Cb := nat) :=
  let (h1, s) := alloc plain_agent (MkAgents [] ∅ []) in
  let (h2, s) := alloc plain_agent (store_add h1 s) in
  on_agent h1 (set_cur FULL) (store_add h2 s).

Example old_handle_unseen : views two_handles (store_get_all two_handles)
  = [MkLocalAgent (replicate 32 7) Empty Empty].
Proof. vm_compute. reflexivity. Qed.

Lemma arcs_set_are_seen_witness : exists s',
  set_cur_storage_arc (replicate 32 7) FULL two_handles = (Ok tt, s') /\
  MkLocalAgent (replicate 32 7) FULL Empty ∈ views s' (store_get_all s').
Proof.
  destruct (arcs_set_are_seen (MkAgents [] ∅ []) two_handles (replicate 32 7) FULL 1%nat)
    as (s' & E & _ & _ & Hs').
  - eapply rtc_l; [apply (step_alloc plain_agent)|]. eapply rtc_l; [apply (step_add 0%nat)|].
    eapply rtc_l; [apply (step_alloc plain_agent)|]. eapply rtc_l; [apply (step_add 1%nat)|].
    eapply rtc_l; [apply (step_cur 0%nat FULL)|]. apply rtc_refl.
  - intros id h Hh. cbn in Hh. by rewrite lookup_empty in Hh.
  - vm_compute. reflexivity.
  - exists s'. split; [exact E|]. apply Hs'. left. split_and!; [reflexivity..|].
    exists (MkLocalAgent (replicate 32 7) Empty Empty). rewrite old_handle_unseen.
    split_and!; [by left|reflexivity..].
Defined.
