(* ===== verification/MemTransport.v ===== *)
(** The transport in memory (crates/core/src/factories/mem_transport.rs): the
    nodes of a process, each with a task that runs its commands, and the
    channels between them.  A step is what one task does between two waits; the
    steps of all tasks interleave.  The handlers are those of [Transport]. *)

From Stdlib Require Import Ascii.
From stdpp Require Import pretty.
From S2P Require Import Prelude Timestamp Id Agent GossipProtocol GossipWire Access SrvSpace IrohUrl Transport LocalAgent.

#[local] Set Default Proof Using "Type*".

(** ** Data *)

(** [ReadyDataSend]: the semaphore that is closed when the connection is ready,
    and the channel to send on, as places in the arenas of the process. *)
Record ReadyDataSend : Type := MkReady { rd_ready : nat; rd_send : nat }.

(** A [ResultSender] is the place of its result. *)
Inductive Cmd : Type :=
  | RegisterConnection (url : Url) (ready_data_send : ReadyDataSend) (data_recv : nat)
  | RecvData (url : Url) (data : bytes) (result_sender : nat)
  | Disconnect (url : Url) (payload : option (string * bytes)) (result_sender : nat)
  | Send (url : Url) (data : bytes) (result_sender : nat).

(** A task that reads a channel, and whether the preflight has come. *)
Record Reader : Type := MkReader {
  rd_url : Url; rd_handle : ReadyDataSend; rd_recv : nat; rd_started : bool
}.

(** A task that waits for a connection to be ready. *)
Record Sending : Type := MkSending {
  sg_node : Z; sg_peer : Url; sg_ready : ReadyDataSend; sg_data : bytes; sg_result : nat
}.

Record ConnectionStats : Type := MkStats {
  pub_key : string; send_message_count : Z; send_bytes : Z; recv_message_count : Z; recv_bytes : Z
}.

(** A node: its connection pool is the map of the task that runs its commands.
    [listener] are the connections other nodes offered, [pending] the results
    its calls of [send] wait for. *)
Record MemTransport : Type := MkMem {
  this_url : Url;
  handler : TxImpHnd;
  cmds : list Cmd;
  con_pool : gmap Url ReadyDataSend;
  listener : list (Url * nat * nat);
  readers : list Reader;
  net_stats : list ConnectionStats;
  pending : list nat;
}.

(** A channel: its two ends, for reference, what is in it, and whether its
    receiver is alive. *)
Record Channel : Type := MkChannel {
  ch_from : Z; ch_to : Z; ch_items : list (bytes * nat); ch_open : bool
}.

Inductive Outcome : Type := Waiting | Answered (r : res unit) | Dropped.

(** A result, and what it is the result of. *)
Record Ask : Type := MkAsk { asker : Z; askee : Url; asked_data : bytes; outcome : Outcome }.

(** The process.  The map of [TransportInstances] has the nodes that are alive.
    [handled] are the messages a handler took without an error. *)
Record World : Type := MkWorld {
  nodes : gmap Z MemTransport;
  next_id : Z;
  channels : list Channel;
  ready : list bool;
  results : list Ask;
  sending : list Sending;
  handled : list (Z * Url * bytes * nat);
}.

Definition empty_world : World := MkWorld ∅ 1 [] [] [] [] [].

(** ** Parts of the state *)

Definition set_nodes f (w : World) : World :=
  MkWorld (f (nodes w)) (next_id w) (channels w) (ready w) (results w) (sending w) (handled w).
Definition set_channels f (w : World) : World :=
  MkWorld (nodes w) (next_id w) (f (channels w)) (ready w) (results w) (sending w) (handled w).
Definition set_ready f (w : World) : World :=
  MkWorld (nodes w) (next_id w) (channels w) (f (ready w)) (results w) (sending w) (handled w).
Definition set_results f (w : World) : World :=
  MkWorld (nodes w) (next_id w) (channels w) (ready w) (f (results w)) (sending w) (handled w).
Definition set_sending f (w : World) : World :=
  MkWorld (nodes w) (next_id w) (channels w) (ready w) (results w) (f (sending w)) (handled w).
Definition log_handled e (w : World) : World :=
  MkWorld (nodes w) (next_id w) (channels w) (ready w) (results w) (sending w) (handled w ++ [e]).

Definition on_node (id : Z) (f : MemTransport -> MemTransport) : World -> World := set_nodes (alter f id).

Definition set_handler h n := MkMem (this_url n) h (cmds n) (con_pool n) (listener n) (readers n) (net_stats n) (pending n).
Definition set_cmds f n := MkMem (this_url n) (handler n) (f (cmds n)) (con_pool n) (listener n) (readers n) (net_stats n) (pending n).
Definition set_pool f n := MkMem (this_url n) (handler n) (cmds n) (f (con_pool n)) (listener n) (readers n) (net_stats n) (pending n).
Definition set_listener f n := MkMem (this_url n) (handler n) (cmds n) (con_pool n) (f (listener n)) (readers n) (net_stats n) (pending n).
Definition set_readers f n := MkMem (this_url n) (handler n) (cmds n) (con_pool n) (listener n) (f (readers n)) (net_stats n) (pending n).
Definition set_stats f n := MkMem (this_url n) (handler n) (cmds n) (con_pool n) (listener n) (readers n) (f (net_stats n)) (pending n).
Definition set_waits f n := MkMem (this_url n) (handler n) (cmds n) (con_pool n) (listener n) (readers n) (net_stats n) (f (pending n)).

Definition push_cmd (id : Z) (c : Cmd) : World -> World := on_node id (set_cmds (fun l => l ++ [c])).

(** ** Channels and results *)

Definition new_result (a : Ask) (w : World) : nat * World :=
  (length (results w), set_results (fun l => l ++ [a]) w).

(** The outcome of a result is set once: the sender is used up. *)
Definition set_outcome (o : Outcome) (a : Ask) : Ask :=
  match outcome a with Waiting => MkAsk (asker a) (askee a) (asked_data a) o | _ => a end.
Definition answer (res : nat) (o : Outcome) : World -> World := set_results (alter (set_outcome o) res).

Definition chan_send (c : nat) (data : bytes) (res : nat) (w : World) : World :=
  match channels w !! c with
  | Some ch =>
      if ch_open ch
      then set_channels <[ c := MkChannel (ch_from ch) (ch_to ch) (ch_items ch ++ [(data, res)]) true ]> w
      else answer res Dropped w
  | None => answer res Dropped w
  end.

(** The receiver of a channel is dropped, with what is in the channel. *)
Definition close_chan (c : nat) (w : World) : World :=
  match channels w !! c with
  | Some ch =>
      foldl (fun w item => answer item.2 Dropped w)
        (set_channels <[ c := MkChannel (ch_from ch) (ch_to ch) [] false ]> w) (ch_items ch)
  | None => w
  end.

Definition mark_ready (rd : ReadyDataSend) : World -> World := set_ready <[ rd_ready rd := true ]>.

(** [str::parse::<u64>], and the id in a URL. *)
Definition parse_u64 (s : string) : option Z :=
  let n := match s with String "+"%char s => number s | _ => number s end in
  n ≫= fun n => if bool_decide (is_u64 n) then Some n else None.

Definition url_id (u : Url) : option Z := peer_id u ≫= parse_u64.

Definition stub_url (id : Z) : Url := ("ws://stub.tx:42/" +:+ pretty id)%string.

(** [net_stat_ref]. *)
Fixpoint net_stat_ref (url : Url) (cb : ConnectionStats -> ConnectionStats) (l : list ConnectionStats)
  : list ConnectionStats :=
  match l with
  | [] => [cb (MkStats url 0 0 0 0)]
  | r :: l => if bool_decide (pub_key r = url) then cb r :: l else r :: net_stat_ref url cb l
  end.

Definition count_recv (data : bytes) (r : ConnectionStats) : ConnectionStats :=
  MkStats (pub_key r) (send_message_count r) (send_bytes r) (recv_message_count r + 1)
    (recv_bytes r + Z.of_nat (length data)).
Definition count_send (data : bytes) (r : ConnectionStats) : ConnectionStats :=
  MkStats (pub_key r) (send_message_count r + 1) (send_bytes r + Z.of_nat (length data))
    (recv_message_count r) (recv_bytes r).

(** ** The commands *)

Section mem.
Context `{Message K2Proto} `{TxAnswers}.

(** A call of the handler of a node; a panic ends the process. *)
Definition call {A} (id : Z) (m : M TxImpHnd A) (w : World) : option (res A * World) :=
  n ← nodes w !! id;
  match m (handler n) with
  | (Panic _, _) => None
  | (r, h) => Some (r, on_node id (set_handler h) w)
  end.

(** [DropConnection::drop]. *)
Definition drop_connection (id : Z) (peer : Url) (reason : option string) (w : World) : option World :=
  let w := on_node id (set_stats (List.filter (fun c => negb (bool_decide (pub_key c = peer))))) w in
  '(_, w) ← call id (peer_disconnect peer reason) w; Some w.

(** [TransportInstances::connect]: two channels, the ends of which go to the
    listener of the other node and, as a command, to the own task. *)
Definition connect (id : Z) (to_peer : Url) (w : World) : option ReadyDataSend * World :=
  match nodes w !! id with
  | None => (None, w)
  | Some n =>
      match con_pool n !! to_peer with
      | Some rd => (Some rd, w)
      | None =>
          match url_id to_peer with
          | None => (None, w)
          | Some to_peer_id =>
              if bool_decide (is_Some (nodes w !! to_peer_id)) then
                let c1 := length (channels w) in
                let c2 := S c1 in
                let rd := MkReady (length (ready w)) c2 in
                let w := set_channels (fun l =>
                  l ++ [MkChannel to_peer_id id [] true; MkChannel id to_peer_id [] true]) w in
                let w := set_ready (fun l => l ++ [false]) w in
                let w := on_node to_peer_id (set_listener (fun l => l ++ [(this_url n, c1, c2)])) w in
                (Some rd, push_cmd id (RegisterConnection to_peer rd c1) w)
              else (None, w)
          end
      end
  end.

Definition run_cmd (id : Z) (cmd : Cmd) (w : World) : option World :=
  match cmd with
  | RegisterConnection url rd data_recv =>
      '(r, w) ← call id (peer_connect url) w;
      match r with
      | Ok preflight =>
          let (res, w) := new_result (MkAsk id url preflight Waiting) w in
          let w := chan_send (rd_send rd) preflight res w in
          n ← nodes w !! id;
          let w := on_node id (set_readers (fun l => l ++ [MkReader url rd data_recv false])) w in
          let w := on_node id (set_pool <[ url := rd ]>) w in
          match con_pool n !! url with Some _ => drop_connection id url None w | None => Some w end
      | _ => Some (close_chan data_recv w)
      end
  | RecvData url data res =>
      let w := on_node id (set_stats (net_stat_ref url (count_recv data))) w in
      '(r, w) ← call id (recv_data url data) w;
      match r with
      | Ok _ => Some (answer res (Answered (Ok tt)) (log_handled (id, url, data, res) w))
      | Err e | Panic e =>
          n ← nodes w !! id;
          w ← match con_pool n !! url with
              | Some _ => drop_connection id url (Some e) (on_node id (set_pool (delete url)) w)
              | None => Some w
              end;
          Some (answer res (Answered (Err e)) w)
      end
  | Disconnect url payload res =>
      n ← nodes w !! id;
      match con_pool n !! url with
      | None => Some (answer res Dropped w)
      | Some rd =>
          let w := on_node id (set_pool (delete url)) w in
          match payload with
          | Some (reason, b) => drop_connection id url (Some reason) (chan_send (rd_send rd) b res w)
          | None => drop_connection id url None (answer res Dropped w)
          end
      end
  | Send url data res =>
      match connect id url w with
      | (Some rd, w) =>
          let w := on_node id (set_stats (net_stat_ref url (count_send data))) w in
          Some (set_sending (fun l => l ++ [MkSending id url rd data res]) w)
      | (None, w) => Some (answer res Dropped w)
      end
  end.

(** ** The steps of the process *)

Inductive Event : Type :=
  | ECreate (h : TxImpHnd)
  | EDrop (id : Z)
  | ESend (id : Z) (peer : Url) (data : bytes)
  | ESent (id : Z) (i : nat) (now : Timestamp)
  | EDisconnect (id : Z) (peer : Url) (payload : option (string * bytes))
  | EListen (id : Z)
  | ECmd (id : Z)
  | ERead (id : Z) (i : nat)
  | EReadTimeout (id : Z) (i : nat)
  | EWrite (i : nat)
  | EWriteTimeout (i : nat).

(** [MemTransport::create]. *)
Definition mem_create (h : TxImpHnd) (w : World) : option World :=
  let id := next_id w in
  match new_listening_address (stub_url id) None h with
  | (Panic _, _) => None
  | (_, h) =>
      Some (MkWorld (<[ id := MkMem (stub_url id) h [] ∅ [] [] [] [] ]> (nodes w)) (wrap_u64 (id + 1))
        (channels w) (ready w) (results w) (sending w) (handled w))
  end.

(** A command that will not be run. *)
Definition drop_cmd (w : World) (c : Cmd) : World :=
  match c with
  | RegisterConnection _ _ data_recv => close_chan data_recv w
  | RecvData _ _ res | Disconnect _ _ res | Send _ _ res => answer res Dropped w
  end.

(** [MemTransport::drop] ends the tasks of the node.  Its handler is told of the
    end of its connections; it is gone with the node. *)
Definition mem_drop (id : Z) (w : World) : option World :=
  n ← nodes w !! id;
  let w := foldl drop_cmd w (cmds n) in
  let w := foldl (fun w r => close_chan (rd_recv r) w) w (readers n) in
  let w := foldl (fun w c => close_chan c.2 w) w (listener n) in
  Some (set_nodes (delete id) w).

Definition mem_send (id : Z) (peer : Url) (data : bytes) (w : World) : option World :=
  _ ← nodes w !! id;
  let (res, w) := new_result (MkAsk id peer data Waiting) w in
  Some (on_node id (set_waits (fun l => l ++ [res])) (push_cmd id (Send peer data res) w)).

(** The rest of [send]: a peer that a message does not reach is unresponsive. *)
Definition mem_sent (id : Z) (i : nat) (now : Timestamp) (w : World) : option World :=
  n ← nodes w !! id; res ← pending n !! i; a ← results w !! res;
  let w := on_node id (set_waits (delete i)) w in
  match outcome a with
  | Waiting => None
  | Answered (Ok _) => Some w
  | _ => '(_, w) ← call id (tx_set_unresponsive (askee a) now) w; Some w
  end.

Definition mem_disconnect (id : Z) (peer : Url) (payload : option (string * bytes)) (w : World)
  : option World :=
  _ ← nodes w !! id;
  let (res, w) := new_result (MkAsk id peer (default [] (snd <$> payload)) Waiting) w in
  Some (push_cmd id (Disconnect peer payload res) w).

(** The task that listens for connections. *)
Definition mem_listen (id : Z) (w : World) : option World :=
  n ← nodes w !! id;
  match listener n with
  | [] => None
  | (url, data_send, data_recv) :: rest =>
      let rd := MkReady (length (ready w)) data_send in
      let w := set_ready (fun l => l ++ [false]) w in
      let w := on_node id (set_listener (fun _ => rest)) w in
      Some (push_cmd id (RegisterConnection url rd data_recv) w)
  end.

Definition mem_cmd (id : Z) (w : World) : option World :=
  n ← nodes w !! id;
  match cmds n with
  | [] => None
  | cmd :: rest => run_cmd id cmd (on_node id (set_cmds (fun _ => rest)) w)
  end.

Definition is_preflight (data : bytes) : bool :=
  match proto_decode data with Ok p => match get_ty p with WPreflight => true | _ => false end | _ => false end.

(** A reader passes on what it reads; the first message must be a preflight. *)
Definition mem_read (id : Z) (i : nat) (w : World) : option World :=
  n ← nodes w !! id; r ← readers n !! i; ch ← channels w !! rd_recv r;
  match ch_items ch with
  | [] => None
  | (data, res) :: rest =>
      let w := set_channels <[ rd_recv r := MkChannel (ch_from ch) (ch_to ch) rest (ch_open ch) ]> w in
      if rd_started r then Some (push_cmd id (RecvData (rd_url r) data res) w)
      else if is_preflight data then
        let started := MkReader (rd_url r) (rd_handle r) (rd_recv r) true in
        let w := on_node id (set_readers <[ i := started ]>) w in
        Some (mark_ready (rd_handle r) (push_cmd id (RecvData (rd_url r) data res) w))
      else
        let w := on_node id (set_readers (delete i)) w in
        Some (close_chan (rd_recv r) (answer res Dropped w))
  end.

Definition mem_read_timeout (id : Z) (i : nat) (w : World) : option World :=
  n ← nodes w !! id; r ← readers n !! i;
  if rd_started r then None else Some (close_chan (rd_recv r) (on_node id (set_readers (delete i)) w)).

Definition mem_write (i : nat) (w : World) : option World :=
  s ← sending w !! i; b ← ready w !! rd_ready (sg_ready s);
  if b : bool
  then Some (chan_send (rd_send (sg_ready s)) (sg_data s) (sg_result s) (set_sending (delete i) w))
  else None.

Definition mem_write_timeout (i : nat) (w : World) : option World :=
  s ← sending w !! i; b ← ready w !! rd_ready (sg_ready s);
  if b : bool then None
  else Some (answer (sg_result s) (Answered (Err "Timeout waiting for ready")) (set_sending (delete i) w)).

(** [None] when the step cannot be made, or a panic ends the process. *)
Definition mem_step (e : Event) (w : World) : option World :=
  match e with
  | ECreate h => mem_create h w
  | EDrop id => mem_drop id w
  | ESend id peer data => mem_send id peer data w
  | ESent id i now => mem_sent id i now w
  | EDisconnect id peer payload => mem_disconnect id peer payload w
  | EListen id => mem_listen id w
  | ECmd id => mem_cmd id w
  | ERead id i => mem_read id i w
  | EReadTimeout id i => mem_read_timeout id i w
  | EWrite i => mem_write i w
  | EWriteTimeout i => mem_write_timeout i w
  end.

Fixpoint mem_run (es : list Event) (w : World) : option World :=
  match es with [] => Some w | e :: es => w ← mem_step e w; mem_run es w end.

(** ** What is where it belongs *)

(** One state continues another: channels keep their ends, results what they are
    about, and what was handled stays. *)
Definition same_ends (ch ch' : Channel) : Prop := ch_from ch' = ch_from ch /\ ch_to ch' = ch_to ch.
Definition same_ask (a a' : Ask) : Prop :=
  asker a' = asker a /\ askee a' = askee a /\ asked_data a' = asked_data a.

Record continues (w w' : World) : Prop := {
  keep_channels c ch : channels w !! c = Some ch -> exists ch', channels w' !! c = Some ch' /\ same_ends ch ch';
  keep_results r a : results w !! r = Some a -> exists a', results w' !! r = Some a' /\ same_ask a a';
  keep_handled e : e ∈ handled w -> e ∈ handled w';
  keep_id : is_u64 (next_id w) -> is_u64 (next_id w');
}.

(** A node sends on, or reads, a channel between it and the node of a URL; a
    result is about data for a URL. *)
Definition sends_on (w : World) (id : Z) (peer : Url) (c : nat) : Prop :=
  exists ch, channels w !! c = Some ch /\ ch_from ch = id /\ url_id peer = Some (ch_to ch).
Definition reads_on (w : World) (id : Z) (url : Url) (c : nat) : Prop :=
  exists ch, channels w !! c = Some ch /\ ch_to ch = id /\ url_id url = Some (ch_from ch).
Definition asked (w : World) (id : Z) (res : nat) (peer : Url) (data : bytes) : Prop :=
  exists a, results w !! res = Some a /\ same_ask (MkAsk id peer data Waiting) a.

(** What a node takes for a message of a URL was sent by the node of the URL, to
    a URL of the receiver. *)
Definition genuine (w : World) (id : Z) (url : Url) (data : bytes) (res : nat) : Prop :=
  exists from peer, url_id url = Some from /\ url_id peer = Some id /\ asked w from res peer data.

Definition cmd_ok (w : World) (id : Z) (c : Cmd) : Prop :=
  match c with
  | RegisterConnection url rd recv => sends_on w id url (rd_send rd) /\ reads_on w id url recv
  | RecvData url data res => genuine w id url data res
  | Disconnect url payload res => forall reason b, payload = Some (reason, b) -> asked w id res url b
  | Send url data res => asked w id res url data
  end.

Record node_ok (w : World) (id : Z) (n : MemTransport) : Prop := {
  own_url : url_id (this_url n) = Some id;
  cmds_ok : Forall (cmd_ok w id) (cmds n);
  pool_ok url rd : con_pool n !! url = Some rd -> sends_on w id url (rd_send rd);
  readers_ok : Forall (fun r => reads_on w id (rd_url r) (rd_recv r)) (readers n);
  listener_ok : Forall (fun c : Url * nat * nat => sends_on w id c.1.1 c.1.2 /\ reads_on w id c.1.1 c.2) (listener n);
}.

Definition chan_ok (w : World) (ch : Channel) : Prop :=
  Forall (fun item => exists peer, url_id peer = Some (ch_to ch) /\ asked w (ch_from ch) item.2 peer item.1)
    (ch_items ch).

(** A message is acknowledged only when it was handled. *)
Definition ask_ok (w : World) (res : nat) (a : Ask) : Prop :=
  outcome a = Answered (Ok tt) -> exists id url, url_id (askee a) = Some id /\ url_id url = Some (asker a) /\
    (id, url, asked_data a, res) ∈ handled w.

Record world_ok (w : World) : Prop := {
  nodes_ok id n : nodes w !! id = Some n -> node_ok w id n;
  channels_ok c ch : channels w !! c = Some ch -> chan_ok w ch;
  sending_ok : Forall (fun s => sends_on w (sg_node s) (sg_peer s) (rd_send (sg_ready s)) /\
    asked w (sg_node s) (sg_result s) (sg_peer s) (sg_data s)) (sending w);
  results_ok res a : results w !! res = Some a -> ask_ok w res a;
}.

(** ** Facts that continue *)

#[global] Instance same_ask_preorder : PreOrder same_ask.
Proof.
  split; [by intros a|]. intros a b c (? & ? & ?) (? & ? & ?). unfold same_ask. split_and!; congruence.
Qed.

#[global] Instance continues_preorder : PreOrder continues.
Proof.
  split.
  - intros w. by split; [intros c ch Hc; exists ch|intros r a Hr; exists a| |].
  - intros w1 w2 w3 [C1 R1 L1 I1] [C2 R2 L2 I2]. split; [| |by auto|by auto].
    + intros c ch (ch' & Hc & E1 & E2)%C1. apply C2 in Hc as (ch'' & Hc & E1' & E2').
      exists ch''. split; [done|]. split; congruence.
    + intros r a (a' & Ha & S1)%R1. apply R2 in Ha as (a'' & Ha & S2). exists a''. split; [done|by etrans].
Qed.

Lemma sends_on_mono w w' id peer c : continues w w' -> sends_on w id peer c -> sends_on w' id peer c.
Proof.
  intros [C _ _ _] (ch & (ch' & Hc & E1 & E2)%C & Hf & Ht). exists ch'. split_and!; [done|congruence..].
Qed.

Lemma reads_on_mono w w' id peer c : continues w w' -> reads_on w id peer c -> reads_on w' id peer c.
Proof.
  intros [C _ _ _] (ch & (ch' & Hc & E1 & E2)%C & Hf & Ht). exists ch'. split_and!; [done|congruence..].
Qed.

Lemma asked_mono w w' id res peer data : continues w w' -> asked w id res peer data -> asked w' id res peer data.
Proof. intros [_ R _ _] (a & (a' & Ha & S)%R & S0). exists a'. split; [done|by etrans]. Qed.

Lemma cmd_ok_mono w w' id c : continues w w' -> cmd_ok w id c -> cmd_ok w' id c.
Proof.
  intros Hw. destruct c as [url rd recv|url data res|url payload res|url data res]; cbn.
  - intros [? ?]. split; [by eapply sends_on_mono|by eapply reads_on_mono].
  - intros (from & peer & ? & ? & ?). exists from, peer. split_and!; [done..|by eapply asked_mono].
  - intros Ha reason b Hp. eapply asked_mono; [done|by apply (Ha reason)].
  - by apply asked_mono.
Qed.

Lemma node_ok_mono w w' id n : continues w w' -> node_ok w id n -> node_ok w' id n.
Proof.
  intros Hw [U C P R L]. split; [done| | | |].
  - eapply Forall_impl; [exact C|]. intros c. by apply cmd_ok_mono.
  - intros url rd Hp. eapply sends_on_mono; [done|by apply P].
  - eapply Forall_impl; [exact R|]. intros r. by apply reads_on_mono.
  - eapply Forall_impl; [exact L|]. intros c [? ?]. split; [by eapply sends_on_mono|by eapply reads_on_mono].
Qed.

Lemma chan_ok_mono w w' ch : continues w w' -> chan_ok w ch -> chan_ok w' ch.
Proof.
  intros Hw Hc. eapply Forall_impl; [exact Hc|]. intros item (peer & ? & ?). exists peer.
  split; [done|by eapply asked_mono].
Qed.

Lemma ask_ok_mono w w' res a : continues w w' -> ask_ok w res a -> ask_ok w' res a.
Proof.
  intros [_ _ L _] Ha Ho. destruct (Ha Ho) as (id & url & ? & ? & Hl). exists id, url. split_and!; auto.
Qed.

(** A change of the channels, the results and the log. *)
Lemma ok_continue w w' : world_ok w -> continues w w' -> nodes w' = nodes w -> sending w' = sending w ->
  (forall c ch, channels w' !! c = Some ch -> chan_ok w' ch) ->
  (forall res a, results w' !! res = Some a -> ask_ok w' res a) -> world_ok w'.
Proof.
  intros [N C S R] Hw En Es Hc Hr. split; [|done| |done].
  - intros id n. rewrite En. intros Hn. eapply node_ok_mono; [done|by apply N].
  - rewrite Es. eapply Forall_impl; [exact S|]. intros s [? ?].
    split; [by eapply sends_on_mono|by eapply asked_mono].
Qed.

Lemma continues_nodes f w : continues w (set_nodes f w).
Proof. by split; [intros c ch Hc; exists ch|intros r a Hr; exists a| |]. Qed.

Lemma continues_ready f w : continues w (set_ready f w).
Proof. by split; [intros c ch Hc; exists ch|intros r a Hr; exists a| |]. Qed.

(** A change of the nodes. *)
Lemma ok_set_nodes f w : world_ok w -> (forall id n, f (nodes w) !! id = Some n -> node_ok w id n) ->
  world_ok (set_nodes f w).
Proof.
  intros Hw Hf. pose proof (continues_nodes f w) as Hc. split.
  - intros id n Hn. eapply node_ok_mono; [done|by apply Hf].
  - intros c ch Hch. eapply chan_ok_mono; [done|by apply (channels_ok w Hw c)].
  - eapply Forall_impl; [exact (sending_ok w Hw)|]. intros s [? ?].
    split; [by eapply sends_on_mono|by eapply asked_mono].
  - intros r a Hr. eapply ask_ok_mono; [done|by apply (results_ok w Hw)].
Qed.

Lemma ok_on_node id f w : world_ok w ->
  (forall n, nodes w !! id = Some n -> node_ok w id n -> node_ok w id (f n)) -> world_ok (on_node id f w).
Proof.
  intros Hw Hf. apply ok_set_nodes; [done|]. intros i n Hn.
  apply lookup_alter_Some in Hn as [(<- & n' & Hn & ->)|[_ Hn]]; [apply Hf; [done|]|];
    by apply (nodes_ok w Hw).
Qed.

Lemma ok_ready f w : world_ok w -> world_ok (set_ready f w).
Proof.
  intros Hw. apply (ok_continue w); [done|apply continues_ready|done|done| |].
  - intros c ch Hch. eapply chan_ok_mono; [apply continues_ready|by apply (channels_ok w Hw c)].
  - intros r a Hr. eapply ask_ok_mono; [apply continues_ready|by apply (results_ok w Hw)].
Qed.

Lemma set_outcome_same o a : same_ask a (set_outcome o a).
Proof. unfold set_outcome, same_ask. by destruct (outcome a). Qed.

Lemma continues_answer res o w : continues w (answer res o w).
Proof.
  split; [intros c ch Hc; by exists ch| |done..]. intros r a Hr. cbn.
  destruct (decide (res = r)) as [->|Hne].
  - exists (set_outcome o a). rewrite list_lookup_alter_eq, Hr. split; [done|apply set_outcome_same].
  - exists a. by rewrite list_lookup_alter_ne.
Qed.

Lemma ok_answer res o w : world_ok w ->
  (o = Answered (Ok tt) -> forall a, results w !! res = Some a -> exists id url,
     url_id (askee a) = Some id /\ url_id url = Some (asker a) /\ (id, url, asked_data a, res) ∈ handled w) ->
  world_ok (answer res o w).
Proof.
  intros Hw Ho. pose proof (continues_answer res o w) as Hc.
  apply (ok_continue w); try done.
  - intros c ch Hch. eapply chan_ok_mono; [done|by apply (channels_ok w Hw c)].
  - intros r a Hr. cbn in Hr. destruct (decide (res = r)) as [->|Hne].
    + rewrite list_lookup_alter_eq in Hr. apply fmap_Some in Hr as (a0 & Ha0 & ->).
      pose proof (results_ok w Hw r a0 Ha0) as Hold. intros E. unfold set_outcome in *.
      destruct (outcome a0) eqn:O; [|by apply Hold|by apply Hold]. cbn in E |- *. subst o. by apply Ho.
    + rewrite list_lookup_alter_ne in Hr by done. by apply (results_ok w Hw).
Qed.

Lemma ok_dropped res w : world_ok w -> world_ok (answer res Dropped w).
Proof. intros Hw. by apply ok_answer. Qed.

Lemma continues_channel c ch ch' w : channels w !! c = Some ch -> same_ends ch ch' ->
  continues w (set_channels <[ c := ch' ]> w).
Proof.
  intros Hch Hs. split; [|intros r a Hr; by exists a|done..]. intros i x Hx. cbn.
  destruct (decide (c = i)) as [->|Hne].
  - exists ch'. rewrite list_lookup_insert_eq by (by eapply lookup_lt_Some). split; [done|by simplify_eq].
  - exists x. by rewrite list_lookup_insert_ne.
Qed.

Lemma ok_channel c ch ch' w : world_ok w -> channels w !! c = Some ch -> same_ends ch ch' ->
  chan_ok w ch' -> world_ok (set_channels <[ c := ch' ]> w).
Proof.
  intros Hw Hch Hs Hok. pose proof (continues_channel c ch ch' w Hch Hs) as Hc.
  apply (ok_continue w); try done.
  - intros i x Hx. cbn in Hx. destruct (decide (c = i)) as [->|Hne].
    + rewrite list_lookup_insert_eq in Hx by (by eapply lookup_lt_Some). injection Hx as <-.
      by eapply chan_ok_mono.
    + rewrite list_lookup_insert_ne in Hx by done. eapply chan_ok_mono; [done|by apply (channels_ok w Hw i)].
  - intros r a Hr. eapply ask_ok_mono; [done|by apply (results_ok w Hw)].
Qed.

(** What a node sends on a channel of its own about a result of its own. *)
Lemma ok_chan_send id peer c data res w : world_ok w -> sends_on w id peer c -> asked w id res peer data ->
  world_ok (chan_send c data res w) /\ continues w (chan_send c data res w) /\
  nodes (chan_send c data res w) = nodes w.
Proof.
  intros Hw (ch & Hch & Hf & Ht) Ha. unfold chan_send. rewrite Hch. destruct (ch_open ch).
  - split_and!; [|by eapply continues_channel|done]. eapply ok_channel; [done..|].
    apply Forall_app. split; [exact (channels_ok w Hw c ch Hch)|]. apply Forall_singleton.
    exists peer. cbn. by rewrite Hf.
  - split_and!; [by apply ok_dropped|apply continues_answer|done].
Qed.

Lemma ok_drop_items items w : world_ok w ->
  world_ok (foldl (fun w (item : bytes * nat) => answer item.2 Dropped w) w items) /\
  continues w (foldl (fun w (item : bytes * nat) => answer item.2 Dropped w) w items) /\
  nodes (foldl (fun w (item : bytes * nat) => answer item.2 Dropped w) w items) = nodes w.
Proof.
  revert w. induction items as [|item items IH]; intros w Hw; cbn [foldl]; [done|].
  destruct (IH (answer item.2 Dropped w)) as (H1 & H2 & H3); [by apply ok_dropped|].
  split_and!; [done|etrans; [apply continues_answer|done]|done].
Qed.

Lemma ok_close_chan c w : world_ok w ->
  world_ok (close_chan c w) /\ continues w (close_chan c w) /\ nodes (close_chan c w) = nodes w.
Proof.
  intros Hw. unfold close_chan. destruct (channels w !! c) as [ch|] eqn:E; [|done].
  set (ch' := MkChannel (ch_from ch) (ch_to ch) [] false).
  destruct (ok_drop_items (ch_items ch) (set_channels <[ c := ch' ]> w)) as (H1 & H2 & H3).
  - eapply ok_channel; [done..|]. by apply Forall_nil.
  - split_and!; [done| |done]. etrans; [|exact H2]. by eapply continues_channel.
Qed.

Lemma ok_new_result a w : world_ok w -> outcome a = Waiting ->
  world_ok (new_result a w).2 /\ continues w (new_result a w).2 /\
  results (new_result a w).2 !! (new_result a w).1 = Some a.
Proof.
  intros Hw Ha. cbn. assert (continues w (set_results (fun l => l ++ [a]) w)) as Hc.
  { split; [intros c ch Hch; by exists ch| |done..]. intros r b Hr. exists b. cbn.
    split; [by apply lookup_app_l_Some|done]. }
  split_and!; [|done|by apply list_lookup_middle].
  apply (ok_continue w); try done.
  - intros c ch Hch. eapply chan_ok_mono; [done|by apply (channels_ok w Hw c)].
  - intros r b Hr. cbn in Hr. apply lookup_app_Some in Hr as [Hr|[_ Hr]].
    + eapply ask_ok_mono; [done|by apply (results_ok w Hw)].
    + apply list_lookup_singleton_Some in Hr as [_ <-]. unfold ask_ok. by rewrite Ha.
Qed.

(** ** The steps keep everything where it belongs *)

Definition good (w w' : World) : Prop := world_ok w' /\ continues w w'.

Lemma good_trans w w1 w2 : good w w1 -> (world_ok w1 -> good w1 w2) -> good w w2.
Proof. intros [H1 H2] Hn. destruct (Hn H1) as [? ?]. split; [done|by etrans]. Qed.

Lemma good_node id f w : world_ok w ->
  (forall n, nodes w !! id = Some n -> node_ok w id n -> node_ok w id (f n)) -> good w (on_node id f w).
Proof. intros Hw Hf. split; [by apply ok_on_node|apply continues_nodes]. Qed.

(** Changes that leave the parts of the invariant alone. *)
Lemma good_aside id f w : world_ok w ->
  (forall n, this_url (f n) = this_url n /\ cmds (f n) = cmds n /\ con_pool (f n) = con_pool n /\
     readers (f n) = readers n /\ listener (f n) = listener n) -> good w (on_node id f w).
Proof.
  intros Hw Hf. apply good_node; [done|]. intros n _ [U C P R L].
  destruct (Hf n) as (E1 & E2 & E3 & E4 & E5). by split; rewrite ?E1, ?E2, ?E3, ?E4, ?E5.
Qed.

Lemma good_push id c w : world_ok w -> cmd_ok w id c -> good w (push_cmd id c w).
Proof.
  intros Hw Hc. apply good_node; [done|]. intros n _ [U C P R L]. split; [done| |done..].
  cbn. apply Forall_app. by rewrite Forall_singleton.
Qed.

Lemma good_answer res o w : world_ok w -> o <> Answered (Ok tt) -> good w (answer res o w).
Proof. intros Hw Ho. split; [by apply ok_answer|apply continues_answer]. Qed.

Lemma good_close c w : world_ok w -> good w (close_chan c w).
Proof. intros Hw. by destruct (ok_close_chan c w Hw) as (? & ? & _). Qed.

Lemma good_chan_send id peer c data res w : world_ok w -> sends_on w id peer c -> asked w id res peer data ->
  good w (chan_send c data res w).
Proof. intros Hw Hs Ha. by destruct (ok_chan_send id peer c data res w Hw Hs Ha) as (? & ? & _). Qed.

Lemma good_call {A} id (m : M TxImpHnd A) w r w' : world_ok w -> call id m w = Some (r, w') -> good w w'.
Proof.
  intros Hw. unfold call. destruct (nodes w !! id) as [n|]; [|done]. cbn.
  destruct (m (handler n)) as [[a|e|e] h]; [| |done]; intros [= <- <-]; by apply good_aside.
Qed.

Lemma call_no_panic {A} id (m : M TxImpHnd A) w e w' : call id m w <> Some (Panic e, w').
Proof.
  unfold call. destruct (nodes w !! id) as [n|]; [|done]. cbn. by destruct (m (handler n)) as [[a|a|a] h].
Qed.

Lemma good_drop_connection id peer reason w w' : world_ok w -> drop_connection id peer reason w = Some w' ->
  good w w'.
Proof.
  intros Hw. unfold drop_connection.
  destruct (call id _ _) as [[r w1]|] eqn:E; [|done]. intros [= <-].
  eapply good_trans; [|intros Hw1; exact (good_call _ _ _ _ _ Hw1 E)]. by apply good_aside.
Qed.

Lemma good_delete_pool id url w : world_ok w -> good w (on_node id (set_pool (delete url)) w).
Proof.
  intros Hw. apply good_node; [done|]. intros n _ [U C P R L]. split; [done..| |done|done].
  intros u rd Hp. cbn in Hp. apply lookup_delete_Some in Hp as [_ Hp]. by apply P.
Qed.

Lemma good_sending f w : world_ok w ->
  Forall (fun s => sends_on w (sg_node s) (sg_peer s) (rd_send (sg_ready s)) /\
    asked w (sg_node s) (sg_result s) (sg_peer s) (sg_data s)) (f (sending w)) -> good w (set_sending f w).
Proof.
  intros Hw Hs. assert (continues w (set_sending f w)) as Hc
    by (split; [intros c ch Hch; by exists ch|intros r a Hr; by exists a|done..]).
  split; [|done]. split.
  - intros id n Hn. eapply node_ok_mono; [done|by apply (nodes_ok w Hw)].
  - intros c ch Hch. eapply chan_ok_mono; [done|by apply (channels_ok w Hw c)].
  - eapply Forall_impl; [exact Hs|]. intros s [? ?].
    split; [by eapply sends_on_mono|by eapply asked_mono].
  - intros r a Hr. eapply ask_ok_mono; [done|by apply (results_ok w Hw)].
Qed.

Lemma good_log e w : world_ok w -> good w (log_handled e w).
Proof.
  intros Hw. assert (continues w (log_handled e w)) as Hc.
  { split; [intros c ch Hch; by exists ch|intros r a Hr; by exists a| |done]. intros x Hx. cbn.
    apply elem_of_app. by left. }
  split; [|done]. apply (ok_continue w); try done.
  - intros c ch Hch. eapply chan_ok_mono; [done|by apply (channels_ok w Hw c)].
  - intros r a Hr. eapply ask_ok_mono; [done|by apply (results_ok w Hw)].
Qed.

(** Two channels between two nodes, empty. *)
Lemma good_new_channels id q w : world_ok w ->
  let w1 := set_channels (fun l => l ++ [MkChannel q id [] true; MkChannel id q [] true]) w in
  good w w1 /\ channels w1 !! length (channels w) = Some (MkChannel q id [] true) /\
  channels w1 !! S (length (channels w)) = Some (MkChannel id q [] true).
Proof.
  intros Hw w1. assert (continues w w1) as Hc.
  { split; [|intros r a Hr; by exists a|done..]. intros c ch Hch. exists ch. cbn.
    split; [by apply lookup_app_l_Some|done]. }
  split_and!.
  - split; [|done]. apply (ok_continue w); try done.
    + intros c ch Hch. cbn in Hch. apply lookup_app_Some in Hch as [Hch|[_ Hch]].
      * eapply chan_ok_mono; [done|by apply (channels_ok w Hw c)].
      * assert (ch_items ch = []) as Ei; [|unfold chan_ok; rewrite Ei; by apply Forall_nil].
        apply list_elem_of_lookup_2 in Hch. rewrite !elem_of_cons, elem_of_nil in Hch. by destruct_or!; subst.
    + intros r a Hr. eapply ask_ok_mono; [done|by apply (results_ok w Hw)].
  - cbn. by apply list_lookup_middle.
  - cbn. rewrite lookup_app_r by lia. by replace (S (length _) - length _)%nat with 1%nat by lia.
Qed.

(** Dialing: the two channels belong to the two nodes. *)
Lemma good_connect id to_peer w o w' : world_ok w -> connect id to_peer w = (o, w') ->
  good w w' /\ forall rd, o = Some rd -> sends_on w' id to_peer (rd_send rd).
Proof.
  intros Hw. unfold connect. destruct (nodes w !! id) as [n|] eqn:En; [|by intros [= <- <-]].
  destruct (con_pool n !! to_peer) as [rd|] eqn:Ep.
  { intros [= <- <-]. split; [done|]. intros rd' [= <-]. by apply (pool_ok w id n (nodes_ok w Hw id n En)). }
  destruct (url_id to_peer) as [q|] eqn:Eq; [|by intros [= <- <-]].
  case_bool_decide; [|by intros [= <- <-]]. intros [= <- <-].
  destruct (good_new_channels id q w Hw) as (Hg & L1 & L2).
  assert (url_id (this_url n) = Some id) as Hu by (by apply (own_url w id n), (nodes_ok w Hw)).
  split; [|intros rd [= <-]; by eexists].
  eapply good_trans; [exact Hg|]. intros Hw1.
  eapply good_trans; [split; [by apply ok_ready|apply continues_ready]|]. intros Hw2.
  eapply good_trans; [|intros Hw3; apply good_push; [done|]; by split; eexists].
  apply good_node; [done|]. intros m _ [U C P R L]. split; [done..|]. cbn.
  apply Forall_app. split; [done|]. apply Forall_singleton. by split; eexists.
Qed.

Lemma good_register id url rd recv w w' : world_ok w -> sends_on w id url (rd_send rd) ->
  reads_on w id url recv -> run_cmd id (RegisterConnection url rd recv) w = Some w' -> good w w'.
Proof.
  intros Hw Hs Hr. cbn [run_cmd]. destruct (call id _ w) as [[r w1]|] eqn:E; [|done]. cbn [mbind option_bind].
  pose proof (good_call _ _ _ _ _ Hw E) as G1.
  destruct r as [preflight|e|e]; [|intros [= <-]; eapply good_trans; [exact G1|]; intros; by apply good_close..].
  destruct (new_result _ w1) as [res w2] eqn:N. intros Hrun.
  assert (good w1 w2 /\ asked w2 id res url preflight) as [G2 Ha].
  { destruct (ok_new_result (MkAsk id url preflight Waiting) w1 (proj1 G1) eq_refl) as (? & ? & Hres).
    rewrite N in *. cbn in *. split; [done|]. by eexists. }
  assert (good w w2) as G12 by (eapply good_trans; eauto). clear G1 G2 E N.
  set (w3 := chan_send (rd_send rd) preflight res w2) in *.
  assert (good w w3) as G3.
  { eapply good_trans; [exact G12|]. intros Hw2. apply (good_chan_send id url); [done| |done].
    eapply sends_on_mono; [apply G12|done]. }
  destruct (nodes w3 !! id) as [n|]; [|done]. cbn [mbind option_bind] in Hrun.
  set (w4 := on_node id (set_readers (fun l => l ++ [MkReader url rd recv false])) w3) in *.
  assert (good w w4) as G4.
  { eapply good_trans; [exact G3|]. intros Hw3. apply good_node; [done|]. intros m _ [U C P R L].
    split; [done..| |done]. cbn. apply Forall_app. split; [done|]. apply Forall_singleton. cbn.
    eapply reads_on_mono; [apply G3|done]. }
  set (w5 := on_node id (set_pool <[ url := rd ]>) w4) in *.
  assert (good w w5) as G5.
  { eapply good_trans; [exact G4|]. intros Hw4. apply good_node; [done|]. intros m _ [U C P R L].
    split; [done..| |done|done]. intros u rd' Hp. cbn in Hp.
    apply lookup_insert_Some in Hp as [[<- <-]|[_ Hp]]; [|by apply P]. eapply sends_on_mono; [apply G4|done]. }
  destruct (con_pool n !! url); [|by injection Hrun as <-].
  eapply good_trans; [exact G5|]. intros Hw5. by eapply good_drop_connection.
Qed.

Lemma good_recv_data id url data res w w' : world_ok w -> genuine w id url data res ->
  run_cmd id (RecvData url data res) w = Some w' -> good w w'.
Proof.
  intros Hw Hg. cbn [run_cmd]. set (w1 := on_node id (set_stats _) w).
  assert (good w w1) as G1 by (by apply good_aside).
  destruct (call id _ w1) as [[r w2]|] eqn:E; [|done]. cbn [mbind option_bind].
  assert (good w w2) as G2 by (eapply good_trans; [exact G1|intros Hw1; by eapply good_call]).
  destruct r as [u|e|e].
  - intros [= <-]. eapply good_trans; [exact G2|]. intros Hw2.
    eapply good_trans; [by apply good_log|]. intros Hw3. split; [|apply continues_answer].
    apply ok_answer; [done|]. intros _ a Ha. destruct Hg as (from & peer & Hu & Hp & a0 & Ha0 & S0).
    destruct (keep_results _ _ (proj2 G2) _ _ Ha0) as (a1 & Ha1 & S1). cbn in Ha. rewrite Ha1 in Ha.
    injection Ha as <-. destruct S0 as (E1 & E2 & E3), S1 as (E1' & E2' & E3'). cbn in *.
    exists id, url. rewrite E2', E2, E1', E1, E3', E3. split_and!; [done..|].
    apply elem_of_app. right. by left.
  - destruct (nodes w2 !! id) as [n|]; [|done]. cbn [mbind option_bind].
    destruct (con_pool n !! url); cbn [mbind option_bind].
    + destruct (drop_connection id url (Some e) _) as [w3|] eqn:D; [|done]. intros [= <-].
      eapply good_trans; [exact G2|]. intros Hw2.
      eapply good_trans; [by apply (good_delete_pool id url)|]. intros Hw2'.
      eapply good_trans; [exact (good_drop_connection _ _ _ _ _ Hw2' D)|]. intros Hw3. by apply good_answer.
    + intros [= <-]. eapply good_trans; [exact G2|]. intros Hw2. by apply good_answer.
  - by apply call_no_panic in E.
Qed.

Lemma good_disconnect id url payload res w w' : world_ok w ->
  (forall reason b, payload = Some (reason, b) -> asked w id res url b) ->
  run_cmd id (Disconnect url payload res) w = Some w' -> good w w'.
Proof.
  intros Hw Ha. cbn [run_cmd]. destruct (nodes w !! id) as [n|] eqn:En; [|done]. cbn [mbind option_bind].
  destruct (con_pool n !! url) as [rd|] eqn:Ep; [|intros [= <-]; by apply good_answer].
  pose proof (pool_ok w id n (nodes_ok w Hw id n En) url rd Ep) as Hs.
  pose proof (good_delete_pool id url w Hw) as G1.
  destruct payload as [[reason b]|]; intros D; (eapply good_trans; [exact G1|]; intros Hw1).
  - eapply good_trans; [|intros Hw2; exact (good_drop_connection _ _ _ _ _ Hw2 D)].
    apply (good_chan_send id url); [done|by eapply sends_on_mono; [apply G1|]|].
    eapply asked_mono; [apply G1|by apply (Ha reason)].
  - eapply good_trans; [|intros Hw2; exact (good_drop_connection _ _ _ _ _ Hw2 D)]. by apply good_answer.
Qed.

Lemma good_send id url data res w w' : world_ok w -> asked w id res url data ->
  run_cmd id (Send url data res) w = Some w' -> good w w'.
Proof.
  intros Hw Ha. cbn [run_cmd]. destruct (connect id url w) as [o w1] eqn:E.
  destruct (good_connect id url w o w1 Hw E) as [G1 Hs].
  destruct o as [rd|]; intros [= <-]; (eapply good_trans; [exact G1|]; intros Hw1);
    [|by apply good_answer].
  eapply good_trans; [by apply (good_aside id (set_stats (net_stat_ref url (count_send data))))|]. intros Hw2.
  apply good_sending; [done|]. apply Forall_app. split; [exact (sending_ok _ Hw2)|].
  apply Forall_singleton. cbn. split.
  - eapply sends_on_mono; [apply continues_nodes|by apply Hs].
  - eapply asked_mono; [apply continues_nodes|]. eapply asked_mono; [apply G1|done].
Qed.

Lemma good_run_cmd id c w w' : world_ok w -> cmd_ok w id c -> run_cmd id c w = Some w' -> good w w'.
Proof.
  intros Hw Hc. destruct c as [url rd recv|url data res|url payload res|url data res].
  - destruct Hc. by apply good_register.
  - by apply good_recv_data.
  - by apply good_disconnect.
  - by apply good_send.
Qed.

(** ** Every step *)

Lemma parse_u64_pretty n : is_u64 n -> parse_u64 (pretty n) = Some n.
Proof.
  intros Hn. unfold is_u64 in Hn. destruct n as [|p|p]; [reflexivity| |lia].
  change (pretty (Z.pos p)) with (pretty (N.pos p)). pose proof (number_pretty (N.pos p)) as E.
  assert (parse_u64 (pretty (N.pos p)) = number (pretty (N.pos p)) ≫=
    fun n => if bool_decide (is_u64 n) then Some n else None) as ->.
  { unfold parse_u64. destruct (pretty (N.pos p)) as [|c s]; [done|].
    destruct c as [[] [] [] [] [] [] [] []]; done || (cbn in E; discriminate E). }
  rewrite E. cbn. by rewrite bool_decide_true.
Qed.

Lemma url_id_stub id : is_u64 id -> url_id (stub_url id) = Some id.
Proof.
  intros Hid. unfold url_id, stub_url.
  change ("ws://stub.tx:42/" +:+ pretty id)%string
    with ("ws" +:+ "://" +:+ "stub.tx:42" +:+ String slash (pretty id))%string.
  rewrite peer_id_of; [cbn; by apply parse_u64_pretty|done| |].
  - apply free_of_pretty; [|unfold is_u64 in Hid; lia]. intros d. unfold pretty_N_char. by repeat case_match.
  - intros E. by pose proof (parse_u64_pretty id Hid) as P; rewrite E in P.
Qed.

Lemma good_foldl {A} (f : World -> A -> World) l w : (forall w x, world_ok w -> good w (f w x)) ->
  world_ok w -> good w (foldl f w l).
Proof.
  intros Hf. revert w. induction l as [|x l IH]; intros w Hw; [done|].
  cbn. eapply good_trans; [by apply (Hf w x)|]. apply IH.
Qed.

Lemma good_drop id w w' : world_ok w -> mem_drop id w = Some w' -> good w w'.
Proof.
  intros Hw. unfold mem_drop. destruct (nodes w !! id) as [n|]; [|done]. intros [= <-].
  eapply good_trans; [apply (good_foldl drop_cmd (cmds n)); [|done]|intros H1].
  { intros v c Hv. destruct c; (by apply good_close) || (by apply good_answer). }
  eapply good_trans; [apply (good_foldl (fun w r => close_chan (rd_recv r) w) (readers n)); [|done]|intros H2].
  { intros v r Hv. by apply good_close. }
  eapply good_trans; [apply (good_foldl (fun w c => close_chan c.2 w) (listener n)); [|done]|intros H3].
  { intros v r Hv. by apply good_close. }
  split; [|apply continues_nodes]. apply ok_set_nodes; [done|].
  intros i m [_ Hm]%lookup_delete_Some. by apply (nodes_ok _ H3).
Qed.

Lemma good_mem_send id peer data w w' : world_ok w -> mem_send id peer data w = Some w' -> good w w'.
Proof.
  intros Hw. unfold mem_send. destruct (nodes w !! id) as [n|]; [|done]. cbn [mbind option_bind].
  destruct (ok_new_result (MkAsk id peer data Waiting) w Hw eq_refl) as (H1 & H2 & H3).
  destruct (new_result _ w) as [res w1]. cbn in H1, H2, H3. intros [= <-].
  eapply good_trans; [by split|]. intros _.
  eapply good_trans; [by apply (good_push id (Send peer data res)); [|eexists]|].
  intros Hw2. by apply good_aside.
Qed.

Lemma good_mem_disconnect id peer payload w w' : world_ok w -> mem_disconnect id peer payload w = Some w' ->
  good w w'.
Proof.
  intros Hw. unfold mem_disconnect. destruct (nodes w !! id) as [n|]; [|done]. cbn [mbind option_bind].
  destruct (ok_new_result (MkAsk id peer (default [] (snd <$> payload)) Waiting) w Hw eq_refl) as (H1 & H2 & H3).
  destruct (new_result _ w) as [res w1]. cbn in H1, H2, H3. intros [= <-].
  eapply good_trans; [by split|]. intros _. apply good_push; [done|]. intros reason b ->. by eexists.
Qed.

Lemma good_mem_sent id i now w w' : world_ok w -> mem_sent id i now w = Some w' -> good w w'.
Proof.
  intros Hw. unfold mem_sent. destruct (nodes w !! id) as [n|]; [|done]. cbn [mbind option_bind].
  destruct (pending n !! i) as [res|]; [|done]. cbn [mbind option_bind].
  destruct (results w !! res) as [a|]; [|done]. cbn [mbind option_bind].
  set (w1 := on_node id _ w). assert (good w w1) as G by (by apply good_aside).
  assert (forall v, ('(_, w2) ← call id (tx_set_unresponsive (askee a) now) w1; Some w2) = Some v -> good w v) as Hv.
  { intros v. destruct (call id _ w1) as [[r w2]|] eqn:E; [|done]. intros [= <-].
    eapply good_trans; [exact G|]. intros Hw1. by eapply good_call. }
  destruct (outcome a) as [|[[]|e|e]|]; try done; try apply Hv. by intros [= <-].
Qed.

Lemma good_listen id w w' : world_ok w -> mem_listen id w = Some w' -> good w w'.
Proof.
  intros Hw. unfold mem_listen. destruct (nodes w !! id) as [n|] eqn:En; [|done]. cbn [mbind option_bind].
  destruct (listener n) as [|[[url c1] c2] rest] eqn:El; [done|]. intros [= <-].
  pose proof (listener_ok w id n (nodes_ok w Hw id n En)) as Hl. rewrite El in Hl.
  apply Forall_cons in Hl as [[Hs Hr] Hrest].
  eapply good_trans; [split; [by apply (ok_ready (fun l => l ++ [false]))|apply continues_ready]|]. intros Hw1.
  assert (continues w (set_ready (fun l => l ++ [false]) w)) as C1 by apply continues_ready.
  eapply good_trans; [apply (good_node id (set_listener (fun _ => rest))); [done|]|].
  { intros m _ [U C P R L]. split; [done..|]. cbn. eapply Forall_impl; [exact Hrest|].
    intros c [? ?]. split; [by eapply sends_on_mono|by eapply reads_on_mono]. }
  intros Hw2. apply good_push; [done|].
  split; [eapply sends_on_mono|eapply reads_on_mono]; [|exact Hs| |exact Hr]; etrans; try exact C1;
    apply continues_nodes.
Qed.

Lemma good_mem_cmd id w w' : world_ok w -> mem_cmd id w = Some w' -> good w w'.
Proof.
  intros Hw. unfold mem_cmd. destruct (nodes w !! id) as [n|] eqn:En; [|done]. cbn [mbind option_bind].
  destruct (cmds n) as [|cmd rest] eqn:Ec; [done|]. intros Hr.
  pose proof (cmds_ok w id n (nodes_ok w Hw id n En)) as Hc. rewrite Ec in Hc.
  apply Forall_cons in Hc as [Hc Hrest].
  eapply good_trans; [apply (good_node id (set_cmds (fun _ => rest))); [done|]|].
  { intros m _ [U C P R L]. by split. }
  intros Hw1. apply (good_run_cmd id cmd); [done| |done]. eapply cmd_ok_mono; [apply continues_nodes|done].
Qed.

(** What a reader finds in its channel is genuine. *)
Lemma good_mem_read id i w w' : world_ok w -> mem_read id i w = Some w' -> good w w'.
Proof.
  intros Hw. unfold mem_read. destruct (nodes w !! id) as [n|] eqn:En; [|done]. cbn [mbind option_bind].
  destruct (readers n !! i) as [r|] eqn:Er; [|done]. cbn [mbind option_bind].
  destruct (channels w !! rd_recv r) as [ch|] eqn:Ech; [|done]. cbn [mbind option_bind].
  destruct (ch_items ch) as [|[data res] rest] eqn:Ei; [done|].
  pose proof (nodes_ok w Hw id n En) as Hn.
  assert (reads_on w id (rd_url r) (rd_recv r)) as Hr by exact (Forall_lookup_1 _ _ _ _ (readers_ok _ _ _ Hn) Er).
  pose proof (channels_ok w Hw _ _ Ech) as Hc. unfold chan_ok in Hc. rewrite Ei in Hc.
  apply Forall_cons in Hc as [(peer & Hp & Ha) Hrest]. cbn in Ha.
  assert (genuine w id (rd_url r) data res) as Hg.
  { destruct Hr as (ch' & E' & Ht & Hf). rewrite Ech in E'. injection E' as <-. rewrite Ht in Hp.
    by exists (ch_from ch), peer. }
  set (w1 := set_channels _ w). assert (good w w1) as G1.
  { assert (same_ends ch (MkChannel (ch_from ch) (ch_to ch) rest (ch_open ch))) as Hs by done.
    split; [|by eapply continues_channel]. by eapply ok_channel. }
  assert (cmd_ok w1 id (RecvData (rd_url r) data res)) as Hg1 by (eapply cmd_ok_mono; [apply G1|exact Hg]).
  destruct (rd_started r); [|destruct (is_preflight data)]; intros [= <-];
    (eapply good_trans; [exact G1|]; intros Hw1).
  - by apply good_push.
  - eapply good_trans;
      [apply (good_node id (set_readers <[ i := MkReader (rd_url r) (rd_handle r) (rd_recv r) true ]>)); [done|]|].
    { intros m _ [U C P R L]. split; [done..| |done]. cbn. apply Forall_insert; [exact R|].
      cbn. eapply reads_on_mono; [apply G1|done]. }
    intros Hw2. eapply good_trans; [apply good_push; [done|]|].
    { eapply cmd_ok_mono; [apply continues_nodes|exact Hg1]. }
    intros Hw3. split; [by apply ok_ready|apply continues_ready].
  - eapply good_trans; [apply (good_node id (set_readers (delete i))); [done|]|].
    { intros m _ [U C P R L]. split; [done..| |done]. by apply Forall_delete. }
    intros Hw2. eapply good_trans; [by apply (good_answer res Dropped)|]. intros Hw3. by apply good_close.
Qed.

Lemma good_read_timeout id i w w' : world_ok w -> mem_read_timeout id i w = Some w' -> good w w'.
Proof.
  intros Hw. unfold mem_read_timeout. destruct (nodes w !! id) as [n|]; [|done]. cbn [mbind option_bind].
  destruct (readers n !! i) as [r|]; [|done]. cbn [mbind option_bind]. destruct (rd_started r); [done|].
  intros [= <-]. eapply good_trans; [apply (good_node id (set_readers (delete i))); [done|]|].
  - intros m _ [U C P R L]. split; [done..| |done]. by apply Forall_delete.
  - intros Hw1. by apply good_close.
Qed.

Lemma good_write i w w' : world_ok w -> mem_write i w = Some w' \/ mem_write_timeout i w = Some w' -> good w w'.
Proof.
  intros Hw. unfold mem_write, mem_write_timeout.
  destruct (sending w !! i) as [s|] eqn:Es; [|by intros []]. cbn [mbind option_bind].
  destruct (Forall_lookup_1 _ _ _ _ (sending_ok w Hw) Es) as [Hs Ha].
  assert (good w (set_sending (delete i) w)) as G
    by (apply good_sending; [done|]; apply Forall_delete, (sending_ok w Hw)).
  destruct (ready w !! rd_ready (sg_ready s)) as [[]|]; cbn [mbind option_bind];
    intros [E|E]; try done; injection E as <-; (eapply good_trans; [exact G|]; intros Hw1).
  - apply (good_chan_send (sg_node s) (sg_peer s)); [done| |].
    + eapply sends_on_mono; [apply G|done].
    + eapply asked_mono; [apply G|done].
  - by apply good_answer.
Qed.

Lemma good_create h w w' : world_ok w -> is_u64 (next_id w) -> mem_create h w = Some w' -> good w w'.
Proof.
  intros Hw Hid. unfold mem_create. intros E.
  assert (exists h', w' = MkWorld (<[ next_id w := MkMem (stub_url (next_id w)) h' [] ∅ [] [] [] [] ]> (nodes w))
    (wrap_u64 (next_id w + 1)) (channels w) (ready w) (results w) (sending w) (handled w)) as [h' ->]
    by (destruct (new_listening_address _ _ _) as [[] h1]; by simplify_eq; eexists).
  clear E. set (w' := MkWorld _ _ _ _ _ _ _).
  assert (continues w w') as Hc by by (split; [intros c ch Hch; by exists ch|intros r a Hr; by exists a|done|intros _; apply Z.mod_pos_bound; lia]).
  split; [|done]. split.
  - intros id n Hn. cbn in Hn. apply lookup_insert_Some in Hn as [[<- <-]|[_ Hn]].
    + split; [by apply url_id_stub|by apply Forall_nil| |by apply Forall_nil..].
      intros url rd Hp. cbn in Hp. by rewrite lookup_empty in Hp.
    + eapply node_ok_mono; [done|by apply (nodes_ok w Hw)].
  - intros c ch Hch. eapply chan_ok_mono; [done|by apply (channels_ok w Hw c)].
  - eapply Forall_impl; [exact (sending_ok w Hw)|]. intros s [? ?].
    split; [by eapply sends_on_mono|by eapply asked_mono].
  - intros r a Hr. eapply ask_ok_mono; [done|by apply (results_ok w Hw)].
Qed.

Lemma good_step e w w' : world_ok w -> is_u64 (next_id w) -> mem_step e w = Some w' -> good w w'.
Proof.
  intros Hw Hid. destruct e; cbn.
  - by apply good_create.
  - by apply good_drop.
  - by apply good_mem_send.
  - by apply good_mem_sent.
  - by apply good_mem_disconnect.
  - by apply good_listen.
  - by apply good_mem_cmd.
  - by apply good_mem_read.
  - by apply good_read_timeout.
  - intros E. apply (good_write i); [done|]. by left.
  - intros E. apply (good_write i); [done|]. by right.
Qed.

Lemma run_good es w w' : world_ok w -> is_u64 (next_id w) -> mem_run es w = Some w' ->
  world_ok w' /\ is_u64 (next_id w').
Proof.
  revert w. induction es as [|e es IH]; intros w Hw Hid; cbn.
  - by intros [= <-].
  - destruct (mem_step e w) as [w1|] eqn:E; [|done]. cbn.
    destruct (good_step e w w1 Hw Hid E) as [Hw1 Hc]. apply IH; [done|by apply (keep_id _ _ Hc)].
Qed.

Lemma empty_world_ok : world_ok empty_world.
Proof.
  split; [| |by apply Forall_nil|]; intros i x Hx; cbn in Hx; [by rewrite lookup_empty in Hx|done..].
Qed.

(** However the tasks of all nodes interleave, what a node is about to take for
    a message of a URL was sent by the node whose id the URL has, to a URL with
    the id of the receiver. *)
Theorem messages_from_their_peer es w id n url data res :
  mem_run es empty_world = Some w -> nodes w !! id = Some n -> RecvData url data res ∈ cmds n ->
  exists a, results w !! res = Some a /\ url_id url = Some (asker a) /\ url_id (askee a) = Some id /\
    asked_data a = data.
Proof.
  intros E Hn Hin. destruct (run_good es empty_world w empty_world_ok) as [Hw _]; [by unfold is_u64|done|].
  pose proof (cmds_ok w id n (nodes_ok w Hw id n Hn)) as Hc. rewrite Forall_forall in Hc.
  destruct (Hc _ Hin) as (from & peer & Hu & Hp & a & Ha & S).
  unfold same_ask in S. destruct S as (S1 & S2 & S3). exists a. rewrite S1, S2. by split_and!.
Qed.

(** A call of [send] is told that all is well only if the handler of the node
    addressed took the message, as one of the sender, without an error. *)
Theorem acknowledged_means_handled es w res a :
  mem_run es empty_world = Some w -> results w !! res = Some a -> outcome a = Answered (Ok tt) ->
  exists id url, url_id (askee a) = Some id /\ url_id url = Some (asker a) /\
    (id, url, asked_data a, res) ∈ handled w.
Proof.
  intros E Ha Ho. destruct (run_good es empty_world w empty_world_ok) as [Hw _]; [by unfold is_u64|done|].
  by apply (results_ok w Hw res a Ha).
Qed.
End mem.

(** ** Two nodes *)

#[local] Existing Instance wire_by_number.
#[local] Existing Instance agreeable.

Definition url_1 : Url := stub_url 1.
Definition url_2 : Url := stub_url 2.

Definition mem_message : bytes :=
  match proto_encode (MkProto 3 [1; 2] (Some [7]) (Some "m"%string)) with Ok b => b | _ => [] end.

Definition two_nodes : list Event := [ECreate (Transport.node_with url_2); ECreate (Transport.node_with url_1)].

(** One message, from the call of [send] to its answer. *)
Definition one_message : list Event :=
  two_nodes ++ [ESend 1 url_2 mem_message; ECmd 1; ECmd 1; EListen 2; ECmd 2; ERead 1 0; ECmd 1; EWrite 0;
    ERead 2 0; ERead 2 0].

Definition the_world (es : list Event) : World := default empty_world (mem_run es empty_world).

Lemma messages_from_their_peer_witness :
  exists n, nodes (the_world one_message) !! 2 = Some n /\ RecvData url_1 mem_message 0 ∈ cmds n /\
  exists a, results (the_world one_message) !! 0%nat = Some a /\ asker a = 1 /\ asked_data a = mem_message.
Proof.
  assert (exists n, nodes (the_world one_message) !! 2 = Some n /\ RecvData url_1 mem_message 0 ∈ cmds n)
    as (n & En & Hin) by (eexists; split; [vm_compute; reflexivity|vm_compute; right; left]).
  exists n. split; [exact En|]. split; [exact Hin|].
  destruct (messages_from_their_peer one_message (the_world one_message) 2 n url_1 mem_message 0%nat)
    as (a & Ha & Hu & _ & Hd); [vm_compute; reflexivity|exact En|exact Hin|].
  exists a. split; [exact Ha|]. split; [|exact Hd].
  assert (url_id url_1 = Some 1) as E by (vm_compute; reflexivity). rewrite E in Hu. by injection Hu.
Defined.

Lemma acknowledged_means_handled_witness :
  let w := the_world (one_message ++ [ECmd 2; ECmd 2]) in
  exists a, results w !! 0%nat = Some a /\ outcome a = Answered (Ok tt) /\
  exists id url, url_id (askee a) = Some id /\ url_id url = Some (asker a) /\
    (id, url, asked_data a, 0%nat) ∈ handled w.
Proof.
  cbv zeta. eexists. split; [vm_compute; reflexivity|]. split; [reflexivity|].
  apply (acknowledged_means_handled (one_message ++ [ECmd 2; ECmd 2]));
    [vm_compute; reflexivity|vm_compute; reflexivity|reflexivity].
Defined.

(** Two messages sent in a row open two connections: the second takes the
    place of the first in the pool, and the handler hears that the peer is
    gone. *)
Definition two_messages : list Event :=
  two_nodes ++ [ESend 1 url_2 mem_message; ESend 1 url_2 mem_message; ECmd 1; ECmd 1; ECmd 1; ECmd 1].

Example second_send_disconnects :
  (exists n, nodes (the_world two_messages) !! 1 = Some n /\ is_Some (con_pool n !! url_2) /\
     TopPeerDisconnect url_2 None ∈ tx_calls (handler n)) /\
  length (channels (the_world two_messages)) = 4%nat.
Proof.
  split; [|vm_compute; reflexivity]. eexists. split; [vm_compute; reflexivity|].
  split; [vm_compute; by eexists|]. vm_compute. repeat first [by left | right].
Qed.
